(* ===== verification/_CoqProject ===== *)
-Q . S2P
Prelude.v
Severity.v
Grouping.v
SituationModel.v
Snapshot.v
Schedule.v
ExpectedBehavior.v
Policy.v
Judgment.v
Lifecycle.v
Assessment.v
LLMBudget.v
InferenceLimiter.v
LLMHealth.v
BriefingModel.v
TriageGate.v
TriageStore.v
ErrorClass.v
Deliveries.v
DeliveryLedger.v
Correlator.v
ControllerStore.v
Controller.v
AuditLog.v
NotificationModel.v
HistoryModel.v
Material.v
Priority.v
History.v
Episode.v
HistoryFacts.v
NotificationPlan.v
HistoryCommit.v
NotificationStore.v
PlanFacts.v
HistoryStore.v
CommitFacts.v
HistoryQueue.v
NotificationSchema.v
DispatchWorker.v
LedgerExample.v
SituationInputs.v
Reconstruction.v
SituationWorld.v
InputWorker.v
Startup.v
SituationExample.v
