(* ===== verification/Prelude.v ===== *)
(** * Verification library of the AlertINT agent

    The agent accepts alert deliveries, groups them into Incidents, folds the
    Incidents of one group into a Situation, reasons about a Situation with a
    language model, and tells an operator over Slack.  Everything durable is a
    row of one SQLite database, so every part is a set of transactions over
    tables, run by workers that interleave.  This library has the transactions
    and the decisions between them as Rocq definitions, and the theorems that
    make them correct.  All paths below are under [src/internal].

    ** How the parts meet

<<
 delivery ──► Deliveries ──► Correlator / DispatchWorker     store, correlator
                 │  one transaction: Incident, occurrence, owner, input
                 ▼
          Situation input ──► InputWorker, SituationInputs   situation, store
                 │  one transaction: Situation, membership, due reason
                 ▼
          Situation (a row of ControllerStore: join, wake)   store
                 ▼
  claim ──► Controller: read, decide, call the model, commit situation
                 │  uses Lifecycle, Assessment, TriageGate, Judgment,
                 │       ExpectedBehavior, LLMBudget, InferenceLimiter
                 ├──► TriageStore       the schedule of Acute Triage
                 ├──► HistoryCommit ──► HistoryStore          the history
                 └──► NotificationPlan ──► NotificationStore  the Slack queue
>>

    - A worker and a table meet in a step relation.  [ControllerStore.step],
      [DeliveryLedger.ledger_step], [HistoryStore.history_step],
      [NotificationStore.notif_step], [AuditLog.log_step] have a constructor
      per transaction, with its guards; an invariant proved by rule induction
      holds after every interleaving of transactions.
    - [SituationWorld.situation_step] puts the ledger, the inputs, many
      Situations and the restarts side by side over one record of tables;
      [SituationWorld.situations_refine] projects it on [ledger_step] and, for
      each Situation, on [ControllerStore.step], so what is proved of either
      holds of the Situations that deliveries make.
    - The controller reaches its store and the model through the classes
      [Controller.Store] and [Controller.Client] (the Go interfaces
      [ControllerStore] and [AssessmentClient]).  A cycle is written against
      the classes; the instances run it over [ControllerStore.state], with any
      steps of other actors between two operations, and
      [Controller.reconcile_refines] shows that it is then a run of
      [ControllerStore.step].
    - The dispatch worker is written against an environment, [env] and [fails]:
      what others wrote before each call of the store, and whether the call
      failed.  The theorems let [env] be any steps of the ledger
      ([Correlator]), or any that leave the worker's own rows alone
      ([DispatchWorker]).  The worker of the inputs is written the same way.
    - The pass at startup drains through [Startup.Replayer] (the Go interface
      of that name) with the law [Startup.Replays]; both workers are
      instances.
    - What the planner promises to the queue is [NotificationStore.planned]:
      the queue's theorems assume it.  [HistoryQueue.system_step] runs the
      derivations, their commits, the workers of the queue, operators and the
      observer of Slack together, and [HistoryQueue.plans_refine_queue] shows
      that the queue then goes through a history it is specified for
      ([NotificationStore.trace]).  What a derivation promises to the history's
      transaction is proved in [CommitFacts.derived_commit_lands]: of a history
      derived from the stored rows only the intents can be refused, by the
      queue, and the refresh of a promised update planned twice is one it
      refuses ([PlanFacts.refresh_planned_twice]).

    ** The files

    Shared.
    - Prelude.v: Go's integers, instants, results, stable sorting, the text
      order of instants, string helpers; the hint database [go], the tactics
      [go_bool] and [go_cases].
    - Severity.v (severity/severity.go), Grouping.v (grouping/identity.go).
    - ErrorClass.v (store/deliveries.go: the class kept for an error).

    The delivery ledger and its workers.
    - Deliveries.v (store/deliveries.go, occurrences.go, store.go): the tables
      [delivery_db] and every transaction: [AcceptDeliveries],
      [ClaimAlertDispatches], [RetryAlertDispatch], [ApplyCorrelatedDelivery],
      [MarkIncidentReadyWithSituationInput], [PruneOccurrences],
      [recover_dispatches].
    - DeliveryLedger.v: the step relation, the invariant [ledger_inv], what a
      claim is worth.
    - Correlator.v (correlator/attach.go, correlator.go, dispatch.go): the
      matrix [decideAttach], the chain of delivery plans, the worker's round.
    - DispatchWorker.v: the worker drains.  LedgerExample.v: a history, run.

    From deliveries to Situations.
    - SituationInputs.v (store/situations.go): the tables [situation_db] - the
      ledger, the columns of the outbox, the Situations, their members - and
      [ClaimSituationInputs], [RetrySituationInput], [DeferSituationInput],
      [ApplySituationInputResult].
    - Reconstruction.v (store/situation_reconstruction.go): the leases that ran
      out, the Incidents without a Situation, [ReconstructSituation].
    - SituationWorld.v: the step relation, its invariant [situation_inv], the
      refinements, what becomes of an input.
    - InputWorker.v (situation/input_worker.go): a round, and that it drains.
    - Startup.v (situation/reconstruct.go): [Run].
    - SituationExample.v: a history from an Alert to a restart, run.

    The Situation and its decisions (situation/).
    - SituationModel.v, BriefingModel.v, HistoryModel.v, NotificationModel.v:
      model/, the records and their validators.
    - Snapshot.v: snapshot.go, reasons.go, incident_digest.go and the
      limitations of observation_projection.go.
    - Lifecycle.v: lifecycle.go, source_lifecycle.go, [resolveLifecycle].
    - Assessment.v: assessment.go.  TriageGate.v: triage.go.
    - Schedule.v, Policy.v, ExpectedBehavior.v: expected_behavior*.go.
      Judgment.v: judgment.go.
    - Controller.v: controller.go, controller_budget.go, one [Reconcile].
    - Material.v (briefing.go), Priority.v (priority.go), History.v and
      Episode.v (history.go), HistoryCommit.v: what a commit records.
      HistoryFacts.v: its theorems.
    - NotificationPlan.v: notification_plan.go.  PlanFacts.v: its theorems.

    The stores behind it (store/).
    - ControllerStore.v: situation_controller.go and what situations.go,
      situation_budget.go, semantic_profiles.go and situation_judgments.go
      do to the same columns.
    - TriageStore.v: triage_controller.go.
    - HistoryStore.v: situation_history.go.  CommitFacts.v: a commit lands.
      HistoryQueue.v: the commits and the queue's workers together.
    - NotificationStore.v: situation_notifications.go, notification_gaps.go.
      NotificationSchema.v: the constraints of its tables hold.

    The model and the log.
    - LLMBudget.v (llm/budget.go), InferenceLimiter.v (llm/inference_limit.go,
      retry.go), LLMHealth.v (llmhealth/), AuditLog.v (audit/).

    ** What is proved

    - Controller: a cycle refines the durable state machine; whatever it
      commits is valid, on every path of errors; it sends nothing it has not
      recorded and closes what it sent; a judgment or an envelope that rules a
      commit never hides an urgency.  Its store: at most ten calls of one
      input version and epoch, and a paid call is protected.
    - Delivery ledger: the books balance after every step of every worker; a
      delivery is applied once, by the claim that holds it, and a lost claim
      never returns; a firing one joins only an Incident of its group that may
      take it; a recovery resolves exactly the settled Incidents whose members
      have all recovered; the status a member counts with does not depend on
      the order of arrival; while the store's calls go through and the others
      leave its rows, draining ends and leaves nothing due.
    - Situations: a group has one open Situation at most, an Incident belongs
      to one, whatever workers and restarts do; an applied delivery has one
      input and reaches one Situation; a held input lands unless a protected
      run holds its group, and then for good; the order of the inputs of a
      group does not matter to what they make; while calls go through and the
      others leave the outbox, a round settles what it claims and draining
      within a second ends; a restart frees exactly the leases that ran
      out and, when its drains succeed, leaves no operational Incident of a
      keyed group without a Situation.
    - History: a reconciliation records exactly the changes an operator could
      see; what it derives is valid and contiguous, and lands unless the queue
      refuses its intents; the incremental fold is the summary of the whole
      history; the tables keep their invariant.
    - Notifications: one poke at most, under the floor only for a root
      publication already owed; replies reach workers in order whatever fails
      and is redriven; every claim is answered once; the CHECKs, the unique
      indexes and the foreign keys to Situations, gaps and Transitions hold in
      every history.
    - Rules of decision, each against its reference: the grace of a recovery,
      the grounding of a proposal, the skips of Triage, judgments, envelopes
      and the validation of a policy, the recurrence matrix.
    - Resources: the conservation of the LLM budget, the bounds and progress of
      the limiter, the termination of the retry loop, one Slack root for an
      episode of failing calls.
    - Audit log: every reachable log verifies, a change of a stored field is
      found, a pass of retention ends and keeps the log verifiable.

    ** How the source is rendered

    - A Go integer is a [Z] at its width where arithmetic can wrap
      ([wrap64]); counters of the database are unbounded.  An instant is
      nanoseconds since the year 1, without a location; [Sub] saturates.
    - A pointer is an [option]; an error is its constant text or the
      constructor of its sentinel; a function that can fail returns [result].
    - A Go map is ranged over in an order that is an argument, or is an
      association list read by key, where the order shows.
    - A transaction takes the tables to the new tables or to an error, which
      rolls it back: the store has one connection.  A record has the columns
      the modelled code reads or writes.
    - SQL compares instants as RFC 3339 texts.  [text_ltb] is that order, which
      is not the order of time inside one second
      ([Prelude.text_leb_within_second]); a comparison of [time.Time] is one
      of [Z].
    - Random identities (UUIDs, claim tokens) and clocks are arguments.

    ** Arguments that stand for other code

    The hex SHA-256 of a text, canonical JSON, the digests of values
    ([CanonicalDigest], [mdigest], [idigest]), version-5 UUIDs, the RFC 3339
    text of an instant and its parser, the IANA time zones, and the decoding of
    a model's response.  Where a theorem needs something of them it is a named
    hypothesis: [separates] and [no_collision] (two given values have different
    digests), [anchors_readable] (the parser reads back what the formatter
    wrote), [identity_rows] (two Transitions of one name have one place),
    [notices_named_apart] (no other intent has the name of a gap notice).

    Hypotheses on the other actors: [fair_others] (they take steps of the
    store), [well_read] (what is read has a lifecycle and
    named reasons), [start_checked] (the clock of a cycle does not run back),
    [others_keep] (the others leave the deliveries, their dispatches and owners
    alone), [writes] (the ledger's workers queue inputs of Incidents under new
    identities), [others_leave] (they leave the rows of the outbox), [missed]
    (a restart is given Incidents that no Situation has), [fresh_in] (a new
    identity), [read_from] (a derivation starts from the stored rows),
    [read_rows] (the prior Transition it starts from is a stored one).  Each
    theorem with a hypothesis has a witness at concrete tables.

    ** Fuel

    - [Controller.dispatch_loop]: the configured calls of an attempt, the bound
      of the Go loop.
    - [InferenceLimiter.Retry.retry_loop]: one more than the retries.
    - [Correlator.Drain]: unbounded in Go; [DispatchWorker.Drain_drains] proves
      that one round more than the work left in the table ends it.
      [InputWorker.DrainInputs]: likewise, by [drain_inputs_ends], for a drain
      that lasts less than a second (a deferred input is due a second later).
    - [AuditLog.prune_loop]: unbounded in Go; [AuditLog.PruneBefore_spec] bounds
      it by the rows.  [Deliveries.prune_loop]: one more than the occurrences,
      by [DeliveryLedger.occurrence_prune_loop].
    - The text helpers ([trim_left], [fields_from], [drop_broken]): the length
      of the text.

    ** Not modelled

    - Presentation and transport: the Slack, stdout and ntfy renderers, the MCP
      server, the HTTP clients of Prometheus, Zabbix, Loki, Sentry and of the
      models, and the ingress handlers, which decode the payloads of others.
    - Preparation of evidence and of the prompt (situation/preparation.go,
      assessment_prompt.go, store/situation_preparation.go): projections of stored payloads to text;
      the modelled parts read their digests.
    - The Acute Triage skill and semantic profiles: prompts, tools and scores
      around the model; the stores take only their results.
    - Rules: YAML and the comparison of labels.
    - The retention sweep over the details of old Transitions and attempts
      (store/storage_retention.go), which clears columns of modelled tables.
    - Reads for listings and views of Situations; the writes of semantic
      profiles, judgments and observation admissions that share the
      transaction of an input are arguments that may fail.
    - Goroutines, tickers, telemetry, flags and configuration.  Concurrency is
      the interleaving of transactions.
    - JSON columns and row scanners: a row is the value it encodes. *)

From Stdlib Require Import Ascii.
From stdpp Require Import prelude strings list gmap sorting.

(** ** Go integers and instants

    An [int64] is a [Z] in [[-2^63, 2^63)]; arithmetic that the source performs
    at that width goes through [wrap64].  A [time.Time] is the number of
    nanoseconds since Go's zero instant (January 1, year 1 UTC), so the zero
    [Time] is [0]; the location a [Time] carries never changes an instant and
    is dropped.  [Time.Add] is exact at every instant the program meets (Go
    keeps the seconds in their own 64 bits), and [Time.Sub] saturates. *)

Definition int64_min : Z := (-9223372036854775808)%Z.
Definition int64_max : Z := 9223372036854775807%Z.
Definition two64 : Z := 18446744073709551616%Z.

Definition wrap64 (z : Z) : Z := ((z - int64_min) `mod` two64 + int64_min)%Z.
Definition in_int64 (z : Z) : Prop := (int64_min ≤ z ≤ int64_max)%Z.

Definition Time : Type := Z.
Definition Duration : Type := Z.

Definition Nanosecond : Duration := 1%Z.
Definition Millisecond : Duration := 1000000%Z.
Definition Second : Duration := 1000000000%Z.
Definition Minute : Duration := 60000000000%Z.
Definition Hour : Duration := 3600000000000%Z.

(** [a * b] on [time.Duration] operands. *)
Definition dur_mul (a b : Z) : Z := wrap64 (a * b)%Z.
Definition dur_add (a b : Z) : Z := wrap64 (a + b)%Z.

Definition time_zero : Time := 0%Z.
Definition IsZero (t : Time) : bool := (t =? 0)%Z.
Definition Before (t u : Time) : bool := (t <? u)%Z.
Definition After (t u : Time) : bool := (u <? t)%Z.
Definition Equal (t u : Time) : bool := (t =? u)%Z.
Definition Add (t : Time) (d : Duration) : Time := (t + d)%Z.
Definition Sub (t u : Time) : Duration :=
  Z.max int64_min (Z.min int64_max (t - u)%Z).

(** ** Results

    A Go function that returns [(T, error)] returns a [result]. *)

Inductive result (E A : Type) : Type :=
| Ok (a : A)
| Err (e : E).
Arguments Ok {E A} a.
Arguments Err {E A} e.

Definition res_bind {E A B} (m : result E A) (k : A → result E B) : result E B :=
  match m with Ok a => k a | Err e => Err e end.

Definition is_ok {E A} (m : result E A) : bool :=
  match m with Ok _ => true | Err _ => false end.

Declare Scope go_scope.
Delimit Scope go_scope with go.
Notation "'let?' x := m 'in' k" := (res_bind m (λ x, k))
  (at level 10, x pattern, m at level 100, k at level 200) : go_scope.
Notation "'guard!' b 'else' e 'in' k" := (if b then k else Err e)
  (at level 10, b at level 100, e at level 100, k at level 200) : go_scope.
Open Scope go_scope.

(** ** Go strings

    A string is its bytes.  [TrimSpace] removes the UTF-8 encodings of the
    Unicode white space from both ends.  [ToLower] maps the ASCII letters and
    the two other runes whose lower case is an ASCII letter (U+0130 and
    U+212A); it keeps every other byte, which differs from Go only in
    non-ASCII output, and the program compares the result with ASCII words. *)

Definition bytes (l : list N) : string :=
  foldr (λ n s, String (Ascii.ascii_of_N n) s) EmptyString l.

Definition white_space : list string :=
  [ bytes [9]; bytes [10]; bytes [11]; bytes [12]; bytes [13]; bytes [32];
    bytes [194;133]; bytes [194;160]; bytes [225;154;128];
    bytes [226;128;128]; bytes [226;128;129]; bytes [226;128;130];
    bytes [226;128;131]; bytes [226;128;132]; bytes [226;128;133];
    bytes [226;128;134]; bytes [226;128;135]; bytes [226;128;136];
    bytes [226;128;137]; bytes [226;128;138]; bytes [226;128;168];
    bytes [226;128;169]; bytes [226;128;175]; bytes [226;129;159];
    bytes [227;128;128] ]%N.

(** [strip_prefix p s] is the rest of [s] after [p]. *)
Fixpoint strip_prefix (p s : string) : option string :=
  match p, s with
  | EmptyString, _ => Some s
  | String a p', String b s' => if Ascii.eqb a b then strip_prefix p' s' else None
  | String _ _, EmptyString => None
  end.

Fixpoint string_rev_app (s acc : string) : string :=
  match s with
  | EmptyString => acc
  | String c s' => string_rev_app s' (String c acc)
  end.
Definition string_rev (s : string) : string := string_rev_app s EmptyString.

Fixpoint strip_any (ps : list string) (s : string) : option string :=
  match ps with
  | [] => None
  | p :: ps' => match strip_prefix p s with Some r => Some r | None => strip_any ps' s end
  end.

(** The length of the string is fuel enough: every pass removes a byte. *)
Fixpoint trim_left (fuel : nat) (ps : list string) (s : string) : string :=
  match fuel with
  | O => s
  | S f => match strip_any ps s with Some r => trim_left f ps r | None => s end
  end.

Definition TrimLeftSpace (s : string) : string :=
  trim_left (String.length s) white_space s.
Definition TrimRightSpace (s : string) : string :=
  string_rev (trim_left (String.length s) (string_rev <$> white_space) (string_rev s)).
Definition TrimSpace (s : string) : string := TrimRightSpace (TrimLeftSpace s).

(** [strings.Fields]: the maximal runs without white space; the length of the
    string is fuel enough, as every pass removes a byte. *)
Fixpoint fields_from (fuel : nat) (cur s : string) : list string :=
  let word := if String.eqb cur "" then [] else [string_rev cur] in
  match fuel, s with
  | O, _ | _, EmptyString => word
  | S f, String c s' =>
      match strip_any white_space s with
      | Some rest => word ++ fields_from f "" rest
      | None => fields_from f (String c cur) s'
      end
  end.
Definition Fields (s : string) : list string := fields_from (String.length s) "" s.

Definition lower_ascii (c : Ascii.ascii) : Ascii.ascii :=
  let n := Ascii.N_of_ascii c in
  if ((65 <=? n) && (n <=? 90))%N then Ascii.ascii_of_N (n + 32) else c.

Definition is_byte (n : N) (c : Ascii.ascii) : bool := (Ascii.N_of_ascii c =? n)%N.

Fixpoint ToLower (s : string) : string :=
  match s with
  | EmptyString => EmptyString
  | String c s1 =>
      match s1 with
      | String d s2 =>
          if is_byte 196 c && is_byte 176 d then String "i"%char (ToLower s2)
          else match s2 with
               | String e s3 =>
                   if is_byte 226 c && is_byte 132 d && is_byte 170 e
                   then String "k"%char (ToLower s3)
                   else String (lower_ascii c) (ToLower s1)
               | EmptyString => String (lower_ascii c) (ToLower s1)
               end
      | EmptyString => String (lower_ascii c) EmptyString
      end
  end.

Definition HasPrefix (s p : string) : bool :=
  match strip_prefix p s with Some _ => true | None => false end.

(** [strings.CutSuffix]: the string without the suffix, when it has it. *)
Definition CutSuffix (s p : string) : option string :=
  string_rev <$> strip_prefix (string_rev p) (string_rev s).

Fixpoint Join (parts : list string) (sep : string) : string :=
  match parts with
  | [] => EmptyString
  | [p] => p
  | p :: ps => p +:+ sep +:+ Join ps sep
  end.

Definition str_eqb (a b : string) : bool := String.eqb a b.
Definition str_ltb (a b : string) : bool := String.ltb a b.

(** [utf8.ValidString]: the bytes of each rune, by the first of them. *)
Fixpoint utf8_valid (l : list N) : bool :=
  let between lo hi b := ((lo <=? b) && (b <=? hi))%N in
  match l with
  | [] => true
  | b0 :: l1 =>
      if (b0 <? 128)%N then utf8_valid l1
      else match l1 with
           | b1 :: l2 =>
               if between 194%N 223%N b0 then between 128%N 191%N b1 && utf8_valid l2
               else match l2 with
                    | b2 :: l3 =>
                        if between 224%N 239%N b0 then
                          between (if (b0 =? 224)%N then 160%N else 128%N) (if (b0 =? 237)%N then 159%N else 191%N) b1
                          && between 128%N 191%N b2 && utf8_valid l3
                        else match l3 with
                             | b3 :: l4 =>
                                 between 240%N 244%N b0
                                 && between (if (b0 =? 240)%N then 144%N else 128%N) (if (b0 =? 244)%N then 143%N else 191%N) b1
                                 && between 128%N 191%N b2 && between 128%N 191%N b3 && utf8_valid l4
                             | [] => false
                             end
                    | [] => false
                    end
           | [] => false
           end
  end.

Definition string_bytes (s : string) : list N := Ascii.N_of_ascii <$> String.list_ascii_of_string s.
Definition ValidString (s : string) : bool := utf8_valid (string_bytes s).

(** A Go map read: the zero value when the key is absent. *)
Definition map_get (m : gmap string string) (k : string) : string :=
  default EmptyString (m !! k).

(** ** Stable sort by a strict comparison ([sort.SliceStable]) *)

Fixpoint sort_insert {A} (less : A → A → bool) (x : A) (l : list A) : list A :=
  match l with
  | [] => [x]
  | y :: ys => if less y x then y :: sort_insert less x ys else x :: l
  end.

Definition SliceStable {A} (less : A → A → bool) (l : list A) : list A :=
  foldr (sort_insert less) [] l.

Definition sort_strings (l : list string) : list string := SliceStable str_ltb l.

(** ** Latest element per key

    The loop that keeps, in a map, the element of each key that no later one
    displaced: [newer cur a] says that [a] displaces [cur]. *)

Definition latest_step {A} (key : A → string) (newer : A → A → bool)
    (m : gmap string A) (a : A) : gmap string A :=
  match m !! key a with
  | None => <[key a := a]> m
  | Some cur => if newer cur a then <[key a := a]> m else m
  end.

Definition latest_by {A} (key : A → string) (newer : A → A → bool) (l : list A)
    : gmap string A :=
  foldl (latest_step key newer) ∅ l.

(** The same loop for a single key. *)
Definition best_step {A} (newer : A → A → bool) (acc : option A) (a : A) : option A :=
  match acc with
  | None => Some a
  | Some cur => if newer cur a then Some a else Some cur
  end.

Definition best {A} (newer : A → A → bool) (l : list A) : option A :=
  foldl (best_step newer) None l.

(** Comparing by one key, then by another. *)
Definition lex_less {A} (less1 less2 : A → A → bool) (x y : A) : bool :=
  if less1 x y then true else if less1 y x then false else less2 x y.

Definition key_ltb {A} (key : A → Z) (x y : A) : bool := (key x <? key y)%Z.
Definition skey_ltb {A} (key : A → string) (x y : A) : bool := str_ltb (key x) (key y).

(** A comparison [sort.Slice] accepts: a strict weak order. *)
Class StrictWeak {A} (less : A → A → bool) : Prop := {
  sw_asym : ∀ x y, less x y = true → less y x = false;
  sw_trans : ∀ x y z, less y x = false → less z y = false → less z x = false
}.

(** ** Instants as the store keeps them

    A column holds [canonicalTime t], the RFC 3339 text of [t] in UTC with its
    fraction of a second cut after the last digit that is not zero, and SQL
    compares the texts.  Two texts agree up to the seconds exactly when the
    whole seconds agree (years have four digits); the rest decides the others. *)

(** [n] on [w] digits, without the zeros at the end. *)
Fixpoint fraction_digits (w : nat) (n : Z) : string :=
  match w with
  | O => EmptyString
  | S w' =>
      if (n =? 0)%Z then EmptyString
      else let p := (10 ^ Z.of_nat w')%Z in
           String (Ascii.ascii_of_N (Z.to_N (48 + n / p)))
             (fraction_digits w' (n mod p))
  end.

Definition seconds_of (t : Time) : Z := (t / Second)%Z.

Definition subsecond_text (t : Time) : string :=
  let n := (t mod Second)%Z in
  if (n =? 0)%Z then "Z" else "." +:+ fraction_digits 9 n +:+ "Z".

(** [canonicalTime t < canonicalTime u] and [canonicalTime t <= canonicalTime u]. *)
Definition text_ltb : Time → Time → bool :=
  lex_less (key_ltb seconds_of) (skey_ltb subsecond_text).
Definition text_leb (t u : Time) : bool := negb (text_ltb u t).

(** The least of a nonempty list. *)
Definition list_min (l : list Z) : option Z :=
  match l with [] => None | x :: l' => Some (foldl Z.min x l') end.

(** ** Tactics *)

(** Boolean comparisons to propositions, everywhere. *)
Ltac go_bool :=
  unfold Before, After, Equal, IsZero, Add in *;
  repeat match goal with
  | H : _ && _ = true |- _ => apply andb_true_iff in H as [? ?]
  | H : _ || _ = false |- _ => apply orb_false_iff in H as [? ?]
  | H : negb _ = true |- _ => apply negb_true_iff in H
  | H : negb _ = false |- _ => apply negb_false_iff in H
  | H : (_ <? _)%Z = true |- _ => apply Z.ltb_lt in H
  | H : (_ <? _)%Z = false |- _ => apply Z.ltb_ge in H
  | H : (_ <=? _)%Z = true |- _ => apply Z.leb_le in H
  | H : (_ <=? _)%Z = false |- _ => apply Z.leb_gt in H
  | H : (_ =? _)%Z = true |- _ => apply Z.eqb_eq in H
  | H : (_ =? _)%Z = false |- _ => apply Z.eqb_neq in H
  | H : str_eqb _ _ = true |- _ => apply String.eqb_eq in H
  | H : str_eqb _ _ = false |- _ => apply String.eqb_neq in H
  end.

(** Split every [match] and [if] in sight, then close what is closed. *)
Ltac go_cases := repeat (case_match; simplify_eq/=; try done).

(** ** Integer lemmas *)

Lemma wrap64_range z : in_int64 (wrap64 z).
Proof.
  unfold in_int64, wrap64, int64_min, int64_max, two64.
  pose proof (Z.mod_pos_bound (z - -9223372036854775808) 18446744073709551616). lia.
Qed.

Lemma wrap64_id z : in_int64 z → wrap64 z = z.
Proof.
  unfold in_int64, wrap64, int64_min, int64_max, two64. intros H.
  rewrite Z.mod_small; lia.
Qed.

Lemma Sub_exact t u : in_int64 (t - u) → Sub t u = (t - u)%Z.
Proof. unfold in_int64, Sub. lia. Qed.

(** ** Sorting lemmas *)

Section sorting.
Context {A : Type} (less : A → A → bool).

Lemma sort_insert_perm x l : sort_insert less x l ≡ₚ x :: l.
Proof.
  induction l as [|y ys IH]; simpl; [done|].
  case_match; [|done]. rewrite IH. apply Permutation_swap.
Qed.

Lemma SliceStable_perm l : SliceStable less l ≡ₚ l.
Proof.
  induction l as [|x l IH]; simpl; [done|].
  rewrite sort_insert_perm. by constructor.
Qed.

Context `{!StrictWeak less}.

(** [x] may stand before [y]. *)
Let le (x y : A) : Prop := less y x = false.

Lemma sort_insert_sorted x l :
  StronglySorted le l → StronglySorted le (sort_insert less x l).
Proof.
  induction 1 as [|y ys Hys IH Hy]; simpl; [by repeat constructor|].
  destruct (less y x) eqn:E.
  - constructor; [done|]. rewrite sort_insert_perm. constructor; [|done].
    unfold le. by apply sw_asym.
  - constructor; [by constructor|]. constructor; [done|].
    eapply Forall_impl; [exact Hy|]. intros z Hz. unfold le in *. by eapply sw_trans.
Qed.

Lemma SliceStable_sorted l : StronglySorted le (SliceStable less l).
Proof. induction l; simpl; [constructor|]. by apply sort_insert_sorted. Qed.

(** Two sorted arrangements of the same elements agree when only equal
    elements tie. *)
Lemma sorted_unique l l' :
  (∀ x y, x ∈ l → y ∈ l → less x y = false → less y x = false → x = y) →
  StronglySorted le l → StronglySorted le l' → l ≡ₚ l' → l = l'.
Proof.
  intros Hanti Hs. revert l' Hanti.
  induction Hs as [|x l Hl IH Hx]; intros l' Hanti Hs' Hp.
  { by apply Permutation_nil_l in Hp. }
  destruct Hs' as [|y l' Hl' Hy]; [by apply Permutation_nil_r in Hp|].
  assert (x = y) as ->.
  { assert (Hxin : x ∈ y :: l') by (rewrite <- Hp; left).
    assert (Hyin : y ∈ x :: l) by (rewrite Hp; left).
    apply elem_of_cons in Hxin as [->|Hxin]; [done|].
    apply elem_of_cons in Hyin as [->|Hyin]; [done|].
    apply Hanti; [by left|by right| |].
    - rewrite Forall_forall in Hy. by apply Hy.
    - rewrite Forall_forall in Hx. by apply Hx. }
  f_equal. apply IH; [|done|].
  - intros a b Ha Hb. apply Hanti; by right.
  - by apply Permutation_cons_inv in Hp.
Qed.

Lemma SliceStable_unique l l' :
  (∀ x y, x ∈ l → y ∈ l → less x y = false → less y x = false → x = y) →
  l ≡ₚ l' → SliceStable less l = SliceStable less l'.
Proof.
  intros Hanti Hp. apply sorted_unique; try apply SliceStable_sorted.
  - intros x y. rewrite !SliceStable_perm. apply Hanti.
  - by rewrite !SliceStable_perm.
Qed.

Lemma SliceStable_id l : StronglySorted le l → SliceStable less l = l.
Proof.
  induction 1 as [|x l Hl IH Hx]; simpl; [done|]. rewrite IH.
  destruct Hx as [|y l Hy]; simpl; [done|]. unfold le in Hy. by rewrite Hy.
Qed.
End sorting.

Lemma in_take_sorted {A} (less : A → A → bool) limit l x : x ∈ take limit (SliceStable less l) → x ∈ l.
Proof. intros (i & Hi & _)%elem_of_take. rewrite <- (SliceStable_perm less l). by eapply list_elem_of_lookup_2. Qed.

(** ** Latest-element lemmas *)

Section latest.
Context {A : Type} (key : A → string) (newer : A → A → bool).

Lemma latest_by_lookup_aux l m k :
  foldl (latest_step key newer) m l !! k =
  foldl (best_step newer) (m !! k) (filter (λ a, key a = k) l).
Proof.
  revert m. induction l as [|a l IH]; intros m; simpl; [done|].
  rewrite IH, filter_cons. unfold latest_step.
  case_decide as Hk; simpl.
  - subst. f_equal. destruct (m !! key a) as [cur|] eqn:E; simpl.
    + destruct (newer cur a); [by rewrite lookup_insert_eq|done].
    + by rewrite lookup_insert_eq.
  - f_equal. destruct (m !! key a) as [cur|] eqn:E;
      [destruct (newer cur a)|]; by rewrite ?lookup_insert_ne.
Qed.

Lemma latest_by_lookup l k :
  latest_by key newer l !! k = best newer (filter (λ a, key a = k) l).
Proof. unfold latest_by, best. by rewrite latest_by_lookup_aux, lookup_empty. Qed.

(** On a domain where displacement is a strict weak order, the element kept is
    one that nothing displaces. *)
Context (D : A → Prop).
Hypothesis newer_asym : ∀ x y, D x → D y → newer x y = true → newer y x = false.
Hypothesis newer_trans : ∀ x y z, D x → D y → D z →
  newer x y = false → newer y z = false → newer x z = false.

Lemma best_aux l acc :
  Forall D l → (∀ c, acc = Some c → D c) →
  match foldl (best_step newer) acc l with
  | None => acc = None ∧ l = []
  | Some a => (acc = Some a ∨ a ∈ l) ∧ (∀ c, acc = Some c → newer a c = false) ∧
              (∀ b, b ∈ l → newer a b = false)
  end.
Proof.
  assert (Hrefl : ∀ x, D x → newer x x = false).
  { intros x Dx. destruct (newer x x) eqn:E; [|done].
    by rewrite (newer_asym x x Dx Dx E) in E. }
  revert acc. induction l as [|a l IH]; intros acc Hl Hacc; simpl.
  { destruct acc as [c|]; [|done]. repeat split; [by left| |].
    - intros c' [= <-]. by apply Hrefl, Hacc.
    - intros b Hb. by apply not_elem_of_nil in Hb. }
  apply Forall_cons in Hl as [Da Dl].
  assert (Hacc' : ∀ c, best_step newer acc a = Some c → D c).
  { intros c. destruct acc as [cur|]; simpl; [destruct (newer cur a)|];
      intros [= <-]; auto. }
  specialize (IH _ Dl Hacc').
  destruct (foldl (best_step newer) (best_step newer acc a) l) as [w|] eqn:Ew.
  - destruct IH as (Hin & Hge & Hl'). 
    assert (Dw : D w).
    { destruct Hin as [Hin|Hin]; [by apply Hacc'|]. by eapply Forall_forall in Dl. }
    assert (Hwa : newer w a = false ∧ ∀ c, acc = Some c → newer w c = false).
    { destruct acc as [cur|]; simpl in *.
      - destruct (newer cur a) eqn:E.
        + split; [by apply Hge|]. intros c [= <-].
          apply (newer_trans w a cur); auto.
        + split; [|by intros c [= <-]; apply Hge].
          apply (newer_trans w cur a); auto.
      - split; [by apply Hge|done]. }
    destruct Hwa as [Hwa Hwc]. repeat split; [|done|].
    + destruct Hin as [Hin|Hin]; [|right; by right].
      destruct acc as [cur|]; simpl in Hin; [destruct (newer cur a)|];
        simplify_eq; (by left) || (right; by left).
    + intros b [->|Hb]%elem_of_cons; auto.
  - destruct IH as [IH _]. destruct acc as [cur|]; simpl in IH;
      [destruct (newer cur a)|]; done.
Qed.

Lemma best_is_latest l a :
  Forall D l → best newer l = Some a → a ∈ l ∧ ∀ b, b ∈ l → newer a b = false.
Proof.
  intros Hl Hb. pose proof (best_aux l None Hl) as H. unfold best in Hb. rewrite Hb in H.
  destruct H as ([H|H] & _ & H'); [by intros ?| |]; done.
Qed.

Lemma best_none l : Forall D l → best newer l = None ↔ l = [].
Proof.
  intros Hl. split; [|by intros ->].
  intros Hb. pose proof (best_aux l None Hl) as H. unfold best in Hb. rewrite Hb in H.
  by apply H.
Qed.

Lemma best_perm l l' :
  (∀ x y, x ∈ l → y ∈ l → newer x y = false → newer y x = false → x = y) →
  Forall D l → l ≡ₚ l' → best newer l = best newer l'.
Proof.
  intros Hanti Hl Hp. assert (Hl' : Forall D l') by (by rewrite <- Hp).
  destruct (best newer l) as [a|] eqn:E.
  - destruct (best newer l') as [a'|] eqn:E'.
    + apply best_is_latest in E as [Ha Hmax]; [|done].
      apply best_is_latest in E' as [Ha' Hmax']; [|done].
      f_equal. apply Hanti; [done|by rewrite Hp|apply Hmax; by rewrite Hp|].
      apply Hmax'. by rewrite <- Hp.
    + apply best_none in E' as ->; [|done]. apply Permutation_nil_r in Hp. by subst.
  - apply best_none in E as ->; [|done]. apply Permutation_nil_l in Hp. by subst.
Qed.
End latest.

(** The same facts for a comparison that is a strict weak order everywhere. *)
Lemma best_latest {A} (less : A → A → bool) `{!StrictWeak less} l a :
  best less l = Some a → a ∈ l ∧ ∀ b, b ∈ l → less a b = false.
Proof.
  apply (best_is_latest less (λ _, True)); [| |by apply Forall_true].
  - intros x y _ _. apply sw_asym.
  - intros x y z _ _ _ ??. by eapply sw_trans.
Qed.

Lemma best_nonempty {A} (less : A → A → bool) `{!StrictWeak less} l a :
  a ∈ l → is_Some (best less l).
Proof.
  intros Ha. destruct (best less l) eqn:E; [by eexists|].
  apply (best_none less (λ _, True)) in E as ->; [by apply not_elem_of_nil in Ha| | |by apply Forall_true].
  - intros x y _ _. apply sw_asym.
  - intros x y z _ _ _ ??. by eapply sw_trans.
Qed.

(** ** Instances *)

#[export] Instance key_ltb_sw {A} (key : A → Z) : StrictWeak (key_ltb key).
Proof. split; unfold key_ltb; intros; go_bool; apply Z.ltb_ge; lia. Qed.

Lemma str_eqb_refl a : str_eqb a a = true.
Proof. apply String.eqb_refl. Qed.

Lemma str_ltb_false a b : str_ltb a b = false ↔ String.le b a.
Proof.
  unfold str_ltb, String.le, String.ltb, String.leb.
  rewrite (String.compare_antisym b a). by destruct (a ?= b)%string; simpl; split; try done; intros [].
Qed.

Lemma str_ltb_true a b : str_ltb a b = true ↔ ¬ String.le b a.
Proof. rewrite <- str_ltb_false. by destruct (str_ltb a b). Qed.

#[export] Instance skey_ltb_sw {A} (key : A → string) : StrictWeak (skey_ltb key).
Proof.
  split; unfold skey_ltb; intros x y.
  - rewrite str_ltb_true, str_ltb_false. intros H.
    destruct (total String.le (key x) (key y)); naive_solver.
  - intros z. rewrite !str_ltb_false. intros ??. by etrans.
Qed.

Lemma flip_sw {A} (less : A → A → bool) : StrictWeak less → StrictWeak (flip less).
Proof. intros H. split; unfold flip; intros x y; [apply sw_asym|]. intros z ??. by eapply sw_trans. Qed.

Lemma image_sw {A B} (f : A → B) (less : B → B → bool) : StrictWeak less → StrictWeak (λ x y, less (f x) (f y)).
Proof. intros H. split; intros x y; [apply sw_asym|]. intros z. apply sw_trans. Qed.

#[export] Instance str_ltb_sw : StrictWeak str_ltb.
Proof. exact (skey_ltb_sw (λ s, s)). Qed.

Lemma str_ltb_total a b : str_ltb a b = false → str_ltb b a = false → a = b.
Proof. rewrite !str_ltb_false. intros. by apply (anti_symm String.le). Qed.

Lemma lex_less_false {A} (l1 l2 : A → A → bool) x y :
  lex_less l1 l2 x y = false → l1 x y = false ∧ (l1 y x = true ∨ l2 x y = false).
Proof. unfold lex_less. destruct (l1 x y), (l1 y x); naive_solver. Qed.

#[export] Instance lex_less_sw {A} (l1 l2 : A → A → bool) :
  StrictWeak l1 → StrictWeak l2 → StrictWeak (lex_less l1 l2).
Proof.
  intros H1 H2. split; unfold lex_less; intros x y.
  - destruct (l1 x y) eqn:E.
    + by rewrite (sw_asym x y E).
    + destruct (l1 y x); [done|]. apply sw_asym.
  - intros z. destruct (l1 y x) eqn:E1, (l1 z y) eqn:E2; try done.
    rewrite (sw_trans x y z E1 E2).
    destruct (l1 x z) eqn:E5; [done|].
    rewrite (sw_trans y z x E2 E5), (sw_trans z x y E5 E1).
    intros ??. by eapply sw_trans.
Qed.

(** [sort.Strings] gives one answer for one set of strings. *)
Lemma sort_strings_perm l l' : l ≡ₚ l' → sort_strings l = sort_strings l'.
Proof. apply SliceStable_unique; [apply _|]. intros. by apply str_ltb_total. Qed.

(** ** Lists under permutation *)

Lemma list_min_snoc l x :
  list_min (l ++ [x]) = Some (match list_min l with Some n => Z.min n x | None => x end).
Proof. destruct l as [|y l]; simpl; [done|]. by rewrite foldl_snoc. Qed.

Lemma foldl_min_swap x y l : Z.min y (foldl Z.min x l) = foldl Z.min (Z.min y x) l.
Proof.
  revert x. induction l as [|z l IH]; intros x; simpl; [done|]. rewrite IH. f_equal. lia.
Qed.

Lemma list_min_perm l l' : l ≡ₚ l' → list_min l = list_min l'.
Proof.
  induction 1 as [|x l l' Hp IH|x y l|]; simpl; [done| | |by etrans].
  - destruct l as [|a l], l' as [|b l']; simpl in *.
    + done.
    + by apply Permutation_nil_l in Hp.
    + by apply Permutation_nil_r in Hp.
    + simplify_eq. f_equal. rewrite <- !foldl_min_swap. by f_equal.
  - f_equal. f_equal. lia.
Qed.

Lemma remove_dups_perm {A} `{EqDecision A} (l l' : list A) :
  l ≡ₚ l' → remove_dups l ≡ₚ remove_dups l'.
Proof.
  intros Hp. apply NoDup_Permutation; try apply NoDup_remove_dups.
  intros x. by rewrite !elem_of_remove_dups, Hp.
Qed.

Lemma filter_eq_perm (l l' : list string) (k : string) :
  l ≡ₚ l' → filter (λ x, x = k) l = filter (λ x, x = k) l'.
Proof.
  induction 1 as [|x l l' _ IH|x y l|l l' l'' _ IH1 _ IH2]; [done| | |by rewrite IH1];
    rewrite !filter_cons; repeat case_decide; congruence.
Qed.

Lemma existsb_perm {A} (f : A → bool) l l' : l ≡ₚ l' → existsb f l = existsb f l'.
Proof.
  induction 1 as [|x l l' _ IH|x y l|]; simpl; [done|by rewrite IH| |by etrans].
  by rewrite !orb_assoc, (orb_comm (f x)).
Qed.

Lemma filter_none {A} (P : A → Prop) `{∀ x, Decision (P x)} (l : list A) :
  (∀ a, a ∈ l → ¬ P a) → filter P l = [].
Proof.
  induction l as [|x l IH]; intros HP; [done|]. rewrite filter_cons_False by (apply HP; by left).
  apply IH. intros a Ha. apply HP. by right.
Qed.

Lemma filter_all {A} (P : A → Prop) `{∀ x, Decision (P x)} (l : list A) :
  (∀ a, a ∈ l → P a) → filter P l = l.
Proof.
  induction l as [|x l IH]; intros HP; [done|]. rewrite filter_cons_True by (apply HP; by left).
  f_equal. apply IH. intros a Ha. apply HP. by right.
Qed.

Lemma filter_length_le {A} (P Q : A → Prop) `{∀ x, Decision (P x), ∀ x, Decision (Q x)} (l : list A) :
  (∀ x, x ∈ l → P x → Q x) → length (filter P l) ≤ length (filter Q l).
Proof.
  induction l as [|x l IH]; intros Hpq; [done|]. rewrite !filter_cons.
  assert (length (filter P l) ≤ length (filter Q l)) by (apply IH; intros; apply Hpq; [by right|done]).
  repeat case_decide; simpl; try lia. exfalso. apply H3, Hpq; [by left|done].
Qed.

(** ** Automation *)

Create HintDb go discriminated.
#[export] Hint Resolve wrap64_range sw_asym str_ltb_total sort_strings_perm
  remove_dups_perm list_min_perm SliceStable_perm : go.
#[export] Hint Extern 2 (_ = _) => congruence : go.

Lemma filter_ext_in {A} (P Q : A → Prop) `{∀ x, Decision (P x), ∀ x, Decision (Q x)} (l : list A) :
  (∀ x, x ∈ l → P x ↔ Q x) → filter P l = filter Q l.
Proof.
  induction l as [|x l IH]; intros HPQ; [done|].
  assert (Hl : filter P l = filter Q l) by (apply IH; intros y Hy; apply HPQ; by right).
  destruct (decide (P x)) as [HP|HP].
  - rewrite !filter_cons_True, Hl; [done| |done]. by apply HPQ; [left|].
  - rewrite !filter_cons_False, Hl; [done| |done]. intros HQ. apply HP, HPQ; [by left|done].
Qed.

(** ** The order of stored instants *)

#[export] Instance text_ltb_sw : StrictWeak text_ltb.
Proof. apply _. Qed.

Lemma text_leb_refl t : text_leb t t = true.
Proof. unfold text_leb. destruct (text_ltb t t) eqn:E; [|done]. by rewrite (sw_asym _ _ E) in E. Qed.

Lemma text_leb_total t u : text_leb t u = false → text_leb u t = true.
Proof. unfold text_leb. rewrite negb_false_iff. by intros H%sw_asym; rewrite H. Qed.

Lemma text_leb_trans t u v : text_leb t u = true → text_leb u v = true → text_leb t v = true.
Proof. unfold text_leb. rewrite !negb_true_iff. intros ??. by eapply sw_trans. Qed.

(** The order of the texts is that of the instants from one second to another. *)
Lemma text_leb_seconds t u : (seconds_of t < seconds_of u)%Z → text_leb t u = true ∧ text_leb u t = false.
Proof.
  intros H. unfold text_leb, text_ltb, lex_less, key_ltb.
  rewrite (proj2 (Z.ltb_lt _ _) H), (proj2 (Z.ltb_ge (seconds_of u) (seconds_of t))) by lia. done.
Qed.

Lemma text_leb_second t u : (t + Second ≤ u)%Z → text_leb t u = true.
Proof.
  intros H. apply text_leb_seconds. unfold seconds_of, Second in *.
  pose proof (Z.div_le_mono (t + 1 * 1000000000) u 1000000000 ltac:(lia) ltac:(lia)) as Hd.
  rewrite Z.div_add in Hd by lia. lia.
Qed.

(** Within a second it is not: a whole second sorts after its own fractions. *)
Lemma text_leb_within_second : text_leb time_zero (500 * Millisecond)%Z = false.
Proof. reflexivity. Qed.

(** ** Strings *)

Lemma string_app_nil (a : string) : a +:+ "" = a.
Proof. induction a as [|c a IH]; [done|]. change (String c (a +:+ "") = String c a). by rewrite IH. Qed.

Lemma string_app_assoc (a b c : string) : (a +:+ b) +:+ c = a +:+ b +:+ c.
Proof. induction a as [|x a IH]; [done|]. change (String x ((a +:+ b) +:+ c) = String x (a +:+ b +:+ c)). by rewrite IH. Qed.

Lemma string_app_length a b : String.length (a +:+ b) = String.length a + String.length b.
Proof. induction a as [|c a IH]; [done|]. change (S (String.length (a +:+ b)) = S (String.length a + String.length b)). by rewrite IH. Qed.

Lemma string_rev_app_spec s acc : string_rev_app s acc = string_rev s +:+ acc.
Proof.
  revert acc. unfold string_rev. induction s as [|c s IH]; intros acc; [done|].
  cbn [string_rev_app]. rewrite (IH (String c acc)), (IH (String c "")), string_app_assoc. done.
Qed.

Lemma string_rev_cons c s : string_rev (String c s) = string_rev s +:+ String c "".
Proof. unfold string_rev at 1. cbn [string_rev_app]. apply string_rev_app_spec. Qed.

Lemma string_rev_append a b : string_rev (a +:+ b) = string_rev b +:+ string_rev a.
Proof.
  induction a as [|c a IH]; [by rewrite string_app_nil|].
  change (String c a +:+ b) with (String c (a +:+ b)). by rewrite !string_rev_cons, IH, string_app_assoc.
Qed.

Lemma string_rev_empty s : string_rev s = "" → s = "".
Proof. destruct s as [|c s]; [done|]. rewrite string_rev_cons. by destruct (string_rev s). Qed.

(** The first bytes of the encodings of white space. *)
Definition space_byte (c : Ascii.ascii) : bool :=
  existsb (λ p, match p with String d _ => Ascii.eqb d c | EmptyString => true end) white_space.

Lemma strip_any_none c s : space_byte c = false → strip_any white_space (String c s) = None.
Proof.
  unfold space_byte. generalize white_space. intros ps.
  induction ps as [|[|d p] ps IH]; cbn; [done|done|].
  intros [Hd Hps]%orb_false_iff. rewrite Hd. by apply IH.
Qed.

Lemma TrimLeftSpace_head c s : space_byte c = false → TrimLeftSpace (String c s) = String c s.
Proof. intros H. unfold TrimLeftSpace. cbn [String.length trim_left]. by rewrite strip_any_none. Qed.

(** A text whose first byte no white space starts with is not blank. *)
Lemma strip_prefix_length p s r : strip_prefix p s = Some r → String.length s = String.length p + String.length r.
Proof.
  revert s. induction p as [|c p IH]; intros s; cbn; [by intros [= ->]|].
  destruct s as [|d s]; [done|]. destruct (Ascii.eqb c d); [|done]. cbn. intros H. by rewrite (IH _ H).
Qed.
Lemma strip_prefix_spec p s r : strip_prefix p s = Some r ↔ s = p +:+ r.
Proof.
  revert s. induction p as [|c p IH]; intros s; cbn [strip_prefix].
  - split; [by intros [= ->]|by intros ->].
  - destruct s as [|d s]; [by split|]. destruct (Ascii.eqb_spec c d) as [->|Hn].
    + rewrite IH. change (String d p +:+ r) with (String d (p +:+ r)). split; [by intros ->|by intros [= ->]].
    + split; [done|]. intros [=]. by destruct Hn.
Qed.

(** Trimming at the right never removes a byte that no white space contains. *)
Definition space_free (c : Ascii.ascii) : bool :=
  negb (existsb (λ p, existsb (Ascii.eqb c) (String.list_ascii_of_string p)) (string_rev <$> white_space)).

Lemma strip_any_spec ps s r : strip_any ps s = Some r → ∃ p, p ∈ ps ∧ s = p +:+ r.
Proof.
  induction ps as [|p ps IH]; cbn; [done|]. destruct (strip_prefix p s) as [q|] eqn:E.
  - intros [= ->]. exists p. split; [left|]. by apply strip_prefix_spec.
  - intros (q & Hq & ->)%IH. exists q. split; [by right|done].
Qed.

Lemma strip_keeps_last c p a r :
  c ∉ String.list_ascii_of_string p → a +:+ String c "" = p +:+ r → ∃ a', r = a' +:+ String c "".
Proof.
  revert a. induction p as [|d p IH]; intros a Hc E; [by exists a|].
  cbn in Hc. apply not_elem_of_cons in Hc as [Hn Hc].
  destruct a as [|e a]; cbn in E; injection E as He E.
  - by destruct Hn.
  - by apply (IH a).
Qed.

Lemma trim_left_keeps_last c ps fuel a :
  (∀ p, p ∈ ps → c ∉ String.list_ascii_of_string p) →
  ∃ a', trim_left fuel ps (a +:+ String c "") = a' +:+ String c "".
Proof.
  intros Hps. revert a. induction fuel as [|fuel IH]; intros a; cbn [trim_left]; [by exists a|].
  destruct (strip_any ps (a +:+ String c "")) as [r|] eqn:E; [|by exists a].
  apply strip_any_spec in E as (p & Hp & E).
  destruct (strip_keeps_last c p a r (Hps p Hp) E) as [a' ->]. apply IH.
Qed.

Lemma TrimSpace_not_blank c s : space_free c = true → space_byte c = false → TrimSpace (String c s) ≠ "".
Proof.
  intros Hf Hb. unfold TrimSpace. rewrite (TrimLeftSpace_head _ _ Hb). unfold TrimRightSpace.
  rewrite string_rev_cons.
  destruct (trim_left_keeps_last c (string_rev <$> white_space) (String.length (String c s)) (string_rev s)) as [a' ->].
  - intros p Hp Hin. apply list_elem_of_In in Hp, Hin. unfold space_free in Hf. apply negb_true_iff in Hf.
    assert (existsb (λ p, existsb (Ascii.eqb c) (String.list_ascii_of_string p)) (string_rev <$> white_space) = true)
      as Ht; [|congruence].
    apply existsb_exists. exists p. split; [done|]. apply existsb_exists. exists c. split; [done|apply Ascii.eqb_refl].
  - rewrite string_rev_append. done.
Qed.
