(* ===== verification/Severity.v ===== *)
(** * Severity ladder (internal/severity/severity.go)

    [Rank] and [GateRank] place a severity label on a scale of integers. *)

From Stdlib Require Import Ascii.
From stdpp Require Import prelude strings list.
From S2P Require Import Prelude.

(** A [switch] on a string with several labels per case. *)
Definition one_of (s : string) (labels : list string) : bool := existsb (str_eqb s) labels.

Definition Rank (s : string) : Z :=
  let w := ToLower (TrimSpace s) in
  if one_of w ["debug"; "trace"; "info"; "low"; "information"] then 1%Z
  else if one_of w ["notice"; "warn"; "warning"; "medium"; "average"] then 2%Z
  else if one_of w ["error"; "high"] then 3%Z
  else if one_of w ["critical"; "crit"] then 4%Z
  else if one_of w ["alert"; "emergency"; "fatal"; "page"; "disaster"] then 5%Z
  else 0%Z.

Definition GateRank (s : string) : Z :=
  let w := ToLower (TrimSpace s) in
  if one_of w ["low"] then 1%Z
  else if one_of w ["medium"] then 2%Z
  else if one_of w ["high"] then 3%Z
  else 0%Z.

Lemma one_of_spec s labels : one_of s labels = true ↔ s ∈ labels.
Proof.
  unfold one_of. rewrite existsb_exists. split.
  - intros (x & Hx & He). apply String.eqb_eq in He as ->. by apply list_elem_of_In.
  - intros H. exists s. split; [by apply list_elem_of_In|]. apply String.eqb_refl.
Qed.

Lemma Rank_bounds s : (0 ≤ Rank s ≤ 5)%Z.
Proof. unfold Rank. repeat case_match; lia. Qed.

(** The gate ladder is the alert ladder restricted to low, medium and high: a
    label the gate knows has the same rank on both, so extending [Rank] never
    moves the gate. *)
Lemma GateRank_agrees s : GateRank s ≠ 0%Z → Rank s = GateRank s.
Proof.
  unfold GateRank, Rank. destruct (one_of _ ["low"]) eqn:E1.
  { apply one_of_spec, list_elem_of_singleton in E1 as ->. done. }
  destruct (one_of _ ["medium"]) eqn:E2.
  { apply one_of_spec, list_elem_of_singleton in E2 as ->. done. }
  destruct (one_of _ ["high"]) eqn:E3; [|done].
  apply one_of_spec, list_elem_of_singleton in E3 as ->. done.
Qed.

Example Rank_examples :
  (Rank " CRITICAL ", Rank "İnfo", Rank "", GateRank "warning") = (4, 1, 0, 0)%Z.
Proof. vm_compute. reflexivity. Qed.
