(* ===== verification/Grouping.v ===== *)
(** * Incident grouping identities (internal/grouping/identity.go)

    A label set is rendered as its sorted [key=value] pairs joined by commas.
    A Go map hands out its keys in no fixed order, so the key list is an
    argument wherever the source ranges over the map. *)

From stdpp Require Import prelude strings list gmap.
From S2P Require Import Prelude.

Definition render (labels : gmap string string) (keys : list string) : string :=
  Join ((λ key, key +:+ "=" +:+ map_get labels key) <$> sort_strings keys) ",".

(** [keys] is the order in which [range labels] yields the keys. *)
Definition RenderLabels (labels : gmap string string) (keys : list string) : string :=
  render labels keys.

Definition RenderSelectedLabels (labels : gmap string string) (selected : list string)
    : string :=
  render labels (filter (λ key, is_Some (labels !! key)) selected).

Definition Ensure (identity : string) (labels : gmap string string) (fingerprint : string)
    : string :=
  if negb (str_eqb identity "") then identity
  else let alertname := map_get labels "alertname" in
       if negb (str_eqb alertname "") then "alertname=" +:+ alertname
       else "fingerprint=" +:+ fingerprint.

(** [keys] is one possible iteration of [labels]: every key once. *)
Definition iteration_of (labels : gmap string string) (keys : list string) : Prop :=
  keys ≡ₚ (map_to_list labels).*1.

Lemma render_perm labels keys keys' :
  keys ≡ₚ keys' → render labels keys = render labels keys'.
Proof. intros H. unfold render. by rewrite (sort_strings_perm _ _ H). Qed.

(** The identity depends on the label set, not on the iteration order. *)
Lemma RenderLabels_deterministic labels keys keys' :
  iteration_of labels keys → iteration_of labels keys' →
  RenderLabels labels keys = RenderLabels labels keys'.
Proof. intros H H'. apply render_perm. by rewrite H, H'. Qed.

Lemma Ensure_nonempty identity labels fp : Ensure identity labels fp ≠ "".
Proof.
  unfold Ensure. destruct (str_eqb identity "") eqn:E; simpl.
  - by case_match.
  - by apply String.eqb_neq.
Qed.
