(* ===== verification/SituationModel.v ===== *)
(** * The Situation vocabulary (internal/situation/model)

    The closed string types of the source are inductive types with the
    source's constructors and one more, [_other], for every other string the
    Go type admits: decoded JSON can carry it, and [Validate] is the function
    that refuses it.  [Cadence("")] is [CadenceNone].  A pointer field is an
    [option]; an error is its constant text, without the values a format
    string splices into it. *)

From stdpp Require Import prelude strings list gmap.
From S2P Require Import Prelude.

(** ** Closed vocabularies *)

Inductive Lifecycle : Set :=
| LifecycleActive
| LifecycleRecoveryPending
| LifecycleRecovered
| LifecycleClosedUnknown
| Lifecycle_other (v : string).

Inductive Attention : Set :=
| AttentionObserve
| AttentionInvestigate
| AttentionUrgent
| Attention_other (v : string).

Inductive Persistence : Set :=
| PersistenceTransient
| PersistenceSustained
| PersistenceUnknown
| Persistence_other (v : string).

Inductive Impact : Set :=
| ImpactNoneObserved
| ImpactSuspected
| ImpactConfirmed
| ImpactUnknown
| Impact_other (v : string).

Inductive Novelty : Set :=
| NoveltyFamiliar
| NoveltyChanged
| NoveltyNew
| NoveltyInsufficientHistory
| Novelty_other (v : string).

Inductive Causality : Set :=
| CausalitySupported
| CausalityCorrelated
| CausalityContradicted
| CausalityUnknown
| CausalityOperatorConfirmed
| Causality_other (v : string).

Inductive EvidenceQuality : Set :=
| EvidenceQualityComplete
| EvidenceQualityDegraded
| EvidenceQualityInsufficient
| EvidenceQuality_other (v : string).

Inductive NextActor : Set :=
| NextActorAlertINT
| NextActorOperator
| NextActorNone
| NextActor_other (v : string).

Inductive AlertINTAction : Set :=
| AlertINTActionRunAcuteTriage
| AlertINTActionRetrySituationAssessment
| AlertINTActionMonitorSituation
| AlertINTActionVerifyRecovery
| AlertINTAction_other (v : string).

Inductive AlertINTStatus : Set :=
| AlertINTStatusPlanned
| AlertINTStatusRunning
| AlertINTStatusWaiting
| AlertINTStatusBlocked
| AlertINTStatusExhausted
| AlertINTStatusComplete
| AlertINTStatus_other (v : string).

Inductive OperatorAction : Set :=
| OperatorActionInvestigateSituation
| OperatorAction_other (v : string).

Inductive NextUpdateOn : Set :=
| NextUpdateOnMaterialInput
| NextUpdateOnTriageOutcome
| NextUpdateOnSourceResolution
| NextUpdateOnSourceRefire
| NextUpdateOnDependencyRecovery
| NextUpdateOnAssessmentRetryDue
| NextUpdateOnRecoveryGraceExpired
| NextUpdateOnLifecycleObservationDeadline
| NextUpdateOn_other (v : string).

Inductive WaitReason : Set :=
| WaitReasonAcuteTriageDecision
| WaitReasonAcuteTriageBackoff
| WaitReasonAssessmentRetry
| WaitReasonAssessmentParked
| WaitReasonSourceChange
| WaitReasonRecoveryGrace
| WaitReason_other (v : string).

Inductive Cadence : Set :=
| CadenceNone
| CadenceFast
| CadenceNormal
| CadenceSlow
| Cadence_other (v : string).

#[export] Instance Lifecycle_eq_dec : EqDecision Lifecycle.
Proof. solve_decision. Defined.
#[export] Instance Attention_eq_dec : EqDecision Attention.
Proof. solve_decision. Defined.
#[export] Instance Persistence_eq_dec : EqDecision Persistence.
Proof. solve_decision. Defined.
#[export] Instance Impact_eq_dec : EqDecision Impact.
Proof. solve_decision. Defined.
#[export] Instance Novelty_eq_dec : EqDecision Novelty.
Proof. solve_decision. Defined.
#[export] Instance Causality_eq_dec : EqDecision Causality.
Proof. solve_decision. Defined.
#[export] Instance EvidenceQuality_eq_dec : EqDecision EvidenceQuality.
Proof. solve_decision. Defined.
#[export] Instance NextActor_eq_dec : EqDecision NextActor.
Proof. solve_decision. Defined.
#[export] Instance AlertINTAction_eq_dec : EqDecision AlertINTAction.
Proof. solve_decision. Defined.
#[export] Instance AlertINTStatus_eq_dec : EqDecision AlertINTStatus.
Proof. solve_decision. Defined.
#[export] Instance OperatorAction_eq_dec : EqDecision OperatorAction.
Proof. solve_decision. Defined.
#[export] Instance NextUpdateOn_eq_dec : EqDecision NextUpdateOn.
Proof. solve_decision. Defined.
#[export] Instance WaitReason_eq_dec : EqDecision WaitReason.
Proof. solve_decision. Defined.
#[export] Instance Cadence_eq_dec : EqDecision Cadence.
Proof. solve_decision. Defined.

Definition Lifecycle_Validate (v : Lifecycle) : result string unit :=
  match v with
  | Lifecycle_other _ => Err "model: lifecycle: unknown value"
  | _ => Ok tt
  end.

Definition Attention_Validate (v : Attention) : result string unit :=
  match v with
  | Attention_other _ => Err "model: attention: unknown value"
  | _ => Ok tt
  end.

Definition Persistence_Validate (v : Persistence) : result string unit :=
  match v with
  | Persistence_other _ => Err "model: persistence: unknown value"
  | _ => Ok tt
  end.

Definition Impact_Validate (v : Impact) : result string unit :=
  match v with
  | Impact_other _ => Err "model: impact: unknown value"
  | _ => Ok tt
  end.

Definition Novelty_Validate (v : Novelty) : result string unit :=
  match v with
  | Novelty_other _ => Err "model: novelty: unknown value"
  | _ => Ok tt
  end.

Definition Causality_Validate (v : Causality) : result string unit :=
  match v with
  | Causality_other _ => Err "model: causality: unknown value"
  | _ => Ok tt
  end.

Definition EvidenceQuality_Validate (v : EvidenceQuality) : result string unit :=
  match v with
  | EvidenceQuality_other _ => Err "model: evidence_quality: unknown value"
  | _ => Ok tt
  end.

Definition NextActor_Validate (v : NextActor) : result string unit :=
  match v with
  | NextActor_other _ => Err "model: next_actor: unknown value"
  | _ => Ok tt
  end.

Definition AlertINTAction_Validate (v : AlertINTAction) : result string unit :=
  match v with
  | AlertINTAction_other _ => Err "model: alertint_action: unknown value"
  | _ => Ok tt
  end.

Definition AlertINTStatus_Validate (v : AlertINTStatus) : result string unit :=
  match v with
  | AlertINTStatus_other _ => Err "model: alertint_status: unknown value"
  | _ => Ok tt
  end.

Definition OperatorAction_Validate (v : OperatorAction) : result string unit :=
  match v with
  | OperatorAction_other _ => Err "model: operator_action_required: unknown value"
  | _ => Ok tt
  end.

Definition NextUpdateOn_Validate (v : NextUpdateOn) : result string unit :=
  match v with
  | NextUpdateOn_other _ => Err "model: next_update_on: unknown value"
  | _ => Ok tt
  end.

Definition WaitReason_Validate (v : WaitReason) : result string unit :=
  match v with
  | WaitReason_other _ => Err "model: wait_reason: unknown value"
  | _ => Ok tt
  end.

Definition Cadence_Validate (v : Cadence) : result string unit :=
  match v with
  | Cadence_other _ => Err "model: cadence: unknown value"
  | _ => Ok tt
  end.

Inductive SourceTimeBasis : Set :=
| SourceTimeBasisSourcePayload
| SourceTimeBasisSourceAPI
| SourceTimeBasisReceiptFallback
| SourceTimeBasisMissing
| SourceTimeBasisMixed.

Inductive DeliveryStatus : Set :=
| DeliveryStatusFiring
| DeliveryStatusResolved.

Inductive TerminalReason : Set :=
| TerminalReasonObservationDeadline
| TerminalReasonResolutionMissing
| TerminalReasonSourceUnavailable
| TerminalReasonBudgetExhausted.

Inductive AssessmentDerivation : Set :=
| DerivationModelValidated
| DerivationDeterministic
| DerivationDeterministicFallback
| DerivationRevalidatedReuse.

Inductive FactResultStatus : Set :=
| FactConfirmedValue
| FactConfirmedEmpty
| FactUnavailable
| FactFailed
| FactStale.

#[export] Instance SourceTimeBasis_eq_dec : EqDecision SourceTimeBasis.
Proof. solve_decision. Defined.
#[export] Instance DeliveryStatus_eq_dec : EqDecision DeliveryStatus.
Proof. solve_decision. Defined.
#[export] Instance TerminalReason_eq_dec : EqDecision TerminalReason.
Proof. solve_decision. Defined.
#[export] Instance AssessmentDerivation_eq_dec : EqDecision AssessmentDerivation.
Proof. solve_decision. Defined.
#[export] Instance FactResultStatus_eq_dec : EqDecision FactResultStatus.
Proof. solve_decision. Defined.

(** [Lifecycle.Terminal]. *)
Definition Terminal (l : Lifecycle) : bool :=
  match l with
  | LifecycleRecovered | LifecycleClosedUnknown => true
  | _ => false
  end.

(** ** Records *)

Record Situation : Type := {
  Situation_ID : string;
  Situation_GroupKey : string;
  Situation_Lifecycle : Lifecycle;
  Situation_Attention : Attention;
  Situation_InputVersion : Z;
  Situation_DueReasons : list string;
  EffectiveStartedAt : Time;
  EffectiveStartedAtBasis : SourceTimeBasis;
  RecoveryObservedAt : option Time;
  GraceUntil : option Time;
  TerminalAt : option Time;
  Situation_TerminalReason : option TerminalReason
}.

Record SufficientReason : Type := {
  SR_Code : string;
  SR_CandidateID : string;
  SR_Summary : string;
  SR_EvidenceRefs : list string
}.

Record Limitation : Type := { Limitation_Code : string; Limitation_Detail : string }.

Record ActionContract : Type := {
  AC_NextActor : NextActor;
  AC_AlertINTAction : option AlertINTAction;
  AC_AlertINTStatus : option AlertINTStatus;
  AC_OperatorActionRequired : option OperatorAction;
  AC_NextUpdateAt : option Time;
  AC_NextUpdateOn : list NextUpdateOn;
  AC_WaitReason : option WaitReason
}.

Record Assessment : Type := {
  A_SchemaVersion : Z;
  A_Persistence : Persistence;
  A_Impact : Impact;
  A_Novelty : Novelty;
  A_Causality : Causality;
  A_Attention : Attention;
  A_Lifecycle : Lifecycle;
  A_EvidenceQuality : EvidenceQuality;
  A_SufficientReason : option SufficientReason;
  A_ActionContract : ActionContract;
  A_Limitations : list Limitation;
  A_Cadence : Cadence
}.

Record AssessmentProposal : Type := {
  P_SchemaVersion : Z;
  P_Persistence : Persistence;
  P_Impact : Impact;
  P_Novelty : Novelty;
  P_Causality : Causality;
  P_Attention : Attention;
  P_SufficientReason : option SufficientReason;
  P_Limitations : list Limitation
}.

Record Fact : Type := {
  Fact_ID : string;
  Fact_ResultStatus : FactResultStatus;
  Fact_Material : bool
}.

Record ReasonCandidate : Type := {
  RC_ID : string;
  RC_Code : string;
  RC_Summary : string;
  RC_CatalogVersion : Z;
  RC_PredicateVersion : Z;
  RC_EvidenceRefs : list string;
  RC_DeterministicFloor : bool
}.

(** ** Validation *)

Definition AssessmentSchemaVersion : Z := 1%Z.

(** Validate an optional field: [nil] passes. *)
Definition opt_validate {A} (f : A → result string unit) (o : option A) : result string unit :=
  match o with Some a => f a | None => Ok tt end.

(** Validate every element, first failure first. *)
Fixpoint all_validate {A} (f : A → result string unit) (l : list A) : result string unit :=
  match l with
  | [] => Ok tt
  | a :: l' => let? _ := f a in all_validate f l'
  end.

Definition SufficientReason_Validate (r : SufficientReason) : result string unit :=
  if str_eqb (SR_Code r) "" then Err "model: sufficient_reason: code is required"
  else if str_eqb (SR_CandidateID r) "" then
    Err "model: sufficient_reason: candidate_id is required"
  else Ok tt.

Definition Limitation_Validate (l : Limitation) : result string unit :=
  if str_eqb (Limitation_Code l) "" then Err "model: limitation: code is required" else Ok tt.

Definition ActionContract_validate (c : ActionContract) (terminal : bool) : result string unit :=
  let? _ := NextActor_Validate (AC_NextActor c) in
  let? _ := opt_validate AlertINTAction_Validate (AC_AlertINTAction c) in
  let? _ := opt_validate AlertINTStatus_Validate (AC_AlertINTStatus c) in
  let? _ := opt_validate OperatorAction_Validate (AC_OperatorActionRequired c) in
  let? _ := opt_validate WaitReason_Validate (AC_WaitReason c) in
  let? _ := all_validate NextUpdateOn_Validate (AC_NextUpdateOn c) in
  let? _ :=
    match AC_OperatorActionRequired c, AC_AlertINTAction c with
    | Some _, _ =>
        if decide (AC_NextActor c = NextActorOperator) then Ok tt
        else Err "action_contract: next_actor must be operator"
    | None, Some _ =>
        if decide (AC_NextActor c = NextActorAlertINT) then Ok tt
        else Err "action_contract: next_actor must be alertint"
    | None, None =>
        if decide (AC_NextActor c = NextActorNone) then Ok tt
        else Err "action_contract: next_actor must be none"
    end in
  if terminal then
    match AC_NextUpdateAt c, AC_NextUpdateOn c with
    | Some _, _ => Err "action_contract: terminal contract must not set next_update_at"
    | None, _ :: _ => Err "action_contract: terminal contract must not set next_update_on"
    | None, [] => Ok tt
    end
  else
    match AC_NextUpdateAt c with
    | None => Err "action_contract: nonterminal contract requires next_update_at"
    | Some _ => Ok tt
    end.

Definition requireFreshNextUpdateAt (c : ActionContract) (now : Time) : result string unit :=
  match AC_NextUpdateAt c with
  | None => Ok tt
  | Some t => if After t now then Ok tt else Err "action_contract: next_update_at must be after now"
  end.

Definition Assessment_validateShape (a : Assessment) : result string unit :=
  let? _ := (if (A_SchemaVersion a =? AssessmentSchemaVersion)%Z then Ok tt
             else Err "assessment: schema_version unsupported") in
  let? _ := Persistence_Validate (A_Persistence a) in
  let? _ := Impact_Validate (A_Impact a) in
  let? _ := Novelty_Validate (A_Novelty a) in
  let? _ := Causality_Validate (A_Causality a) in
  let? _ := Attention_Validate (A_Attention a) in
  let? _ := Lifecycle_Validate (A_Lifecycle a) in
  let? _ := EvidenceQuality_Validate (A_EvidenceQuality a) in
  let? _ := Cadence_Validate (A_Cadence a) in
  let? _ := opt_validate SufficientReason_Validate (A_SufficientReason a) in
  let? _ := all_validate Limitation_Validate (A_Limitations a) in
  let terminal := Terminal (A_Lifecycle a) in
  let? _ :=
    (if terminal && negb (bool_decide (A_Cadence a = CadenceNone)) then
       Err "assessment: terminal assessment must not set cadence"
     else if negb terminal && bool_decide (A_Cadence a = CadenceNone) then
       Err "assessment: nonterminal assessment requires a cadence"
     else Ok tt) in
  ActionContract_validate (A_ActionContract a) terminal.

Definition Assessment_Validate (a : Assessment) (now : Time) : result string unit :=
  let? _ := Assessment_validateShape a in
  requireFreshNextUpdateAt (A_ActionContract a) now.

Definition AssessmentProposal_Validate (p : AssessmentProposal) : result string unit :=
  let? _ := (if (P_SchemaVersion p =? AssessmentSchemaVersion)%Z then Ok tt
             else Err "assessment_proposal: schema_version unsupported") in
  let? _ := Persistence_Validate (P_Persistence p) in
  let? _ := Impact_Validate (P_Impact p) in
  let? _ := Novelty_Validate (P_Novelty p) in
  let? _ := Causality_Validate (P_Causality p) in
  let? _ := Attention_Validate (P_Attention p) in
  let? _ := opt_validate SufficientReason_Validate (P_SufficientReason p) in
  all_validate Limitation_Validate (P_Limitations p).

(** ** Lemmas *)

Lemma res_bind_ok {E A B} (m : result E A) (k : A → result E B) b :
  res_bind m k = Ok b ↔ ∃ a, m = Ok a ∧ k a = Ok b.
Proof. destruct m; simpl; naive_solver. Qed.

Lemma res_bind_unit {E B} (m : result E unit) (k : unit → result E B) b :
  res_bind m k = Ok b ↔ m = Ok tt ∧ k tt = Ok b.
Proof. rewrite res_bind_ok. split; [intros ([] & ? & ?); done|eauto]. Qed.

Lemma guard_ok {E A} (b : bool) (e : E) (m : result E A) (a : A) : (if b then m else Err e) = Ok a ↔ b = true ∧ m = Ok a.
Proof. destruct b; naive_solver. Qed.

Lemma opt_validate_ok {A} (f : A → result string unit) o :
  opt_validate f o = Ok tt ↔ (∀ a, o = Some a → f a = Ok tt).
Proof. destruct o; simpl; naive_solver. Qed.

(** A chain of guards and binds that succeeds, as a conjunction. *)
Ltac ok_conj := repeat (first [setoid_rewrite guard_ok | setoid_rewrite res_bind_unit]; cbv beta).

(** Take a successful chain apart. *)
Ltac ok_inv H :=
  repeat match type of H with
  | (if ?b then _ else Err _) = Ok _ => let G := fresh "G" in destruct b eqn:G; [|discriminate H]
  | res_bind ?m _ = Ok _ =>
      let B := fresh "B" in destruct m eqn:B; cbn [res_bind] in H; [|discriminate H]
  end.

Lemma all_validate_ok {A} (f : A → result string unit) l :
  all_validate f l = Ok tt ↔ Forall (λ a, f a = Ok tt) l.
Proof.
  induction l as [|a l IH]; simpl; [by split; [constructor|]|].
  by rewrite res_bind_unit, IH, Forall_cons.
Qed.
