(* ===== verification/Snapshot.v ===== *)
(** * Snapshot (internal/situation)

    [snapshot.go]: the records a controller cycle reads, the duration classes,
    the symptoms and the latest delivery of every Alert.  [reasons.go]: the
    critical anchor.  [observation_projection.go]: the limitation codes of a
    cycle.  [incident_digest.go]: the coverage digests of an Incident.

    Records carry the fields the modelled functions read.  [canonicalDigest]
    (the hex SHA-256 of the JSON encoding of a value) is an argument of the two
    digests, applied to the very values the source hands it. *)

From stdpp Require Import prelude strings list gmap sorting.
From S2P Require Import Prelude Severity SituationModel.

(** ** Records *)

Record Delivery : Type := {
  Delivery_ID : string;
  Delivery_IncidentID : string;
  Delivery_Status : DeliveryStatus;
  SourceStartedAt : option Time;
  StartedAtBasis : SourceTimeBasis;
  SourceResolvedAt : option Time;
  ReceivedAt : Time;
  Delivery_AlertID : string;
  Delivery_Severity : string;
  Delivery_Source : string;
  Delivery_EpisodeKey : string;
  Delivery_AcquisitionMode : string;
  Delivery_PollIntervalSeconds : Z;
  PayloadDigest : string;
  ResolvedAtBasis : SourceTimeBasis;
  Drill : bool;
  Labels : gmap string string;
  SourceSignalID : option string;
  SourceSignalVersion : option string;
  Delivery_SourceInstanceID : option string
}.

Record Symptom : Type := {
  Symptom_Key : string;
  Symptom_Status : DeliveryStatus;
  FirstObservedAt : Time
}.

Record SourceObservation : Type := {
  SO_AlertID : string;
  SO_EpisodeKey : string;
  SO_State : string;
  SO_ObservedAt : Time;
  SO_EventStartedAt : option Time;
  SO_EventResolvedAt : option Time;
  SO_AcquisitionMode : string;
  SO_PollIntervalSeconds : Z;
  SO_DeadlineAt : Time
}.

Record CapabilityResult : Type := {
  CR_Capability : string;
  CR_Status : string
}.

(** A normalized connector fact ([observation/model.Fact]). *)
Record ObservationFact : Type := {
  OF_ID : string;
  OF_ResultStatus : string;
  OF_Freshness : string;
  OF_Material : bool
}.

(** One row of the attempt ledger, and the accepted output matched to it. *)
Record TriageCompletionEvidence : Type := {
  Evidence_SourceEvidence : list string;
  Evidence_Hypothesis : string;
  Evidence_Observations : list string;
  Evidence_VerificationLimit : string;
  Evidence_VerificationGaps : Z;
  Evidence_JudgedAt : option Time
}.

Record TriageExecution : Type := {
  TE_AttemptID : string;
  TE_MemberDeliveryIDs : list string;
  TE_ResultCode : string;
  TE_OutputDigest : string;
  TE_CompletedAt : option Time;
  TE_Evidence : option TriageCompletionEvidence
}.

Record TriageAttemptResult : Type := {
  AR_ResultCode : string;
  AR_CompletedAt : Time
}.

(** An Incident's Triage schedule; [TS_Phase] is empty without a row. *)
Record TriageState : Type := {
  TS_Phase : string;
  TS_Attempts : Z;
  TS_NextAt : option Time;
  TS_DecisionReason : option string;
  TS_MembershipDigest : option string;
  TS_IncidentInputDigest : option string;
  TS_DecidedAt : option Time;
  TS_LatestAttempt : option TriageAttemptResult;
  TS_ActiveAttempt : option TriageExecution;
  TS_LastExecution : option TriageExecution
}.

Record IncidentState : Type := {
  Incident_ID : string;
  Incident_GroupKey : string;
  Incident_Status : string;
  Incident_Triage : TriageState
}.

(** [CycleID] and [Lifecycle] are [Prepared]'s, [ProfileHorizons] the horizon
    tiers of its [ProfileGuidance]. *)
Record SnapshotInput : Type := {
  In_Situation : Situation;
  Deliveries : list Delivery;
  Incidents : list IncidentState;
  In_Now : Time;
  Prepared_CycleID : string;
  Prepared_Lifecycle : list SourceObservation;
  Prepared_ProfileHorizons : list string
}.

Record Snapshot : Type := {
  Snap_SituationID : string;
  Snap_Incidents : list IncidentState;
  Snap_InputVersion : Z;
  Snap_Lifecycle : Lifecycle;
  Snap_DurationClass : string;
  Snap_Facts : list Fact;
  Snap_Symptoms : list Symptom;
  EligibleReasons : list ReasonCandidate;
  Snap_MaterialFactHash : string;
  Snap_AssessmentBasisHash : string;
  Snap_Observations : list ObservationFact;
  CapabilityResults : list CapabilityResult;
  Deferred : list string
}.

(** ** Durations *)

Definition DurationClassSubminute : string := "subminute".
Definition DurationClassShort : string := "short".
Definition DurationClassMedium : string := "medium".
Definition DurationClassLong : string := "long".

Definition DurationClass (elapsed : Duration) : string :=
  if (elapsed <? Minute)%Z then DurationClassSubminute
  else if (elapsed <? 15 * Minute)%Z then DurationClassShort
  else if (elapsed <? Hour)%Z then DurationClassMedium
  else DurationClassLong.

(** Where a class begins. *)
Definition durationClassLowerBound (class : string) : Duration :=
  if str_eqb class DurationClassSubminute then 0%Z
  else if str_eqb class DurationClassShort then Minute
  else if str_eqb class DurationClassMedium then (15 * Minute)%Z
  else if str_eqb class DurationClassLong then Hour
  else 0%Z.

Definition elapsedDuration (inp : SnapshotInput) : Duration :=
  let elapsed := Sub (In_Now inp) (EffectiveStartedAt (In_Situation inp)) in
  if (elapsed <? 0)%Z then 0%Z else elapsed.

(** ** Symptoms *)

Definition firing_status (s : DeliveryStatus) : bool := bool_decide (s = DeliveryStatusFiring).

Definition sourceTimeKey (d : Delivery) : Time := default time_zero (SourceStartedAt d).

Definition deliveryLess : Delivery → Delivery → bool :=
  lex_less (key_ltb sourceTimeKey) (lex_less (key_ltb ReceivedAt) (skey_ltb Delivery_ID)).

Definition alertKeyOf (d : Delivery) : string :=
  if negb (str_eqb (Delivery_AlertID d) "") then Delivery_AlertID d
  else "delivery:" +:+ Delivery_ID d.

Definition latestDeliveryPerAlert (deliveries : list Delivery) : gmap string Delivery :=
  latest_by alertKeyOf deliveryLess deliveries.

Definition incidentSymptomStatus (deliveries : list Delivery) : DeliveryStatus :=
  if existsb (λ kd, firing_status (Delivery_Status kd.2))
       (map_to_list (latestDeliveryPerAlert deliveries))
  then DeliveryStatusFiring else DeliveryStatusResolved.

Definition earliest_received (first : Time) (ds : list Delivery) : Time :=
  foldl (λ t d, if Before (ReceivedAt d) t then ReceivedAt d else t) first ds.

(** The keys of [byIncident], once each, in sorted order. *)
Definition incident_keys (deliveries : list Delivery) : list string :=
  sort_strings (remove_dups (Delivery_IncidentID <$> deliveries)).

Definition deriveSymptoms (deliveries : list Delivery) : list Symptom :=
  (λ k,
     let ds := filter (λ d, Delivery_IncidentID d = k) deliveries in
     {| Symptom_Key := k;
        Symptom_Status := incidentSymptomStatus ds;
        FirstObservedAt :=
          match ds with [] => time_zero | d :: ds' => earliest_received (ReceivedAt d) ds' end |})
  <$> incident_keys deliveries.

Definition expectedAlertIDs (deliveries : list Delivery) : list string :=
  sort_strings (remove_dups (alertKeyOf <$> deliveries)).

Definition sortIncidentsByID (incidents : list IncidentState) : list IncidentState :=
  SliceStable (skey_ltb Incident_ID) incidents.

(** ** The critical anchor *)

Definition latestByAlertID (deliveries : list Delivery) : gmap string Delivery :=
  latest_by Delivery_AlertID deliveryLess deliveries.

Definition criticalAnchorEligible (deliveries : list Delivery) : bool :=
  existsb (λ kd, firing_status (Delivery_Status kd.2) && (4 <=? Rank (Delivery_Severity kd.2))%Z)
    (map_to_list (latestByAlertID deliveries)).

(** ** Limitation codes of a cycle *)

Definition ResultConfirmedValue : string := "confirmed_value".
Definition LimitationInvestigationDeferred : string := "investigation_deferred".

Definition Capabilities : list string :=
  [ "store_read"; "prometheus_query"; "zabbix_metric_range"; "zabbix_problem_history";
    "zabbix_problem_state"; "loki_query"; "sentry_issues"; "change_events" ].

Definition ResultStatuses : list string :=
  [ "confirmed_value"; "confirmed_empty"; "unconfirmed_empty"; "unavailable"; "failed";
    "stale"; "truncated"; "withheld_by_budget"; "vocabulary_unresolved" ].

Definition ValidResultStatus (s : string) : bool := existsb (str_eqb s) ResultStatuses.

Definition DynamicLimitationCodes (results : list CapabilityResult) (deferred : list string)
    : list string :=
  let seen :=
    omap (λ r,
      if str_eqb (CR_Status r) ResultConfirmedValue || str_eqb (CR_Capability r) ""
      then None else Some (CR_Capability r +:+ "_" +:+ CR_Status r)) results
    ++ (if (0 <? length deferred)%nat then [LimitationInvestigationDeferred] else []) in
  sort_strings (remove_dups seen).

Definition dynamicLimitationCode (code : string) : bool :=
  str_eqb code LimitationInvestigationDeferred ||
  existsb (λ c, match strip_prefix (c +:+ "_") code with
                | Some rest => ValidResultStatus rest
                | None => false
                end) Capabilities.

Definition observationFactExists (facts : list ObservationFact) (id : string) : bool :=
  existsb (λ f, str_eqb (OF_ID f) id) facts.

(** ** Incident coverage digests *)

Record membershipDigestDTO : Type := {
  md_SchemaVersion : Z;
  md_IncidentID : string;
  md_MemberIDs : list string;
  md_FirstDeliveryIDs : list string
}.

Record incidentInputDeliveryDTO : Type := {
  dd_ID : string;
  dd_PayloadDigest : string;
  dd_Status : DeliveryStatus;
  dd_SourceStartedAt : option Time;
  dd_StartedAtBasis : SourceTimeBasis;
  dd_SourceResolvedAt : option Time;
  dd_ResolvedAtBasis : SourceTimeBasis
}.

Record incidentInputDigestDTO : Type := {
  id_SchemaVersion : Z;
  id_MembershipDigest : string;
  id_GroupKey : string;
  id_DrillParity : bool;
  id_Deliveries : list incidentInputDeliveryDTO;
  id_AcuteInputSchemaVersion : Z;
  id_RuleCatalogVersion : Z;
  id_PromptProfileVersion : Z
}.

Record IncidentCoverage : Type := {
  IC_IncidentID : string;
  IC_MembershipDigest : string;
  IC_IncidentInputDigest : string
}.

Definition incidentMembers (incidentID : string) (deliveries : list Delivery) : list Delivery :=
  filter (λ d, Delivery_IncidentID d = incidentID) deliveries.

Definition earliestByAlert (scoped : list Delivery) : gmap string Delivery :=
  latest_by Delivery_AlertID (λ cur d, deliveryLess d cur) scoped.

Definition incidentDrillParity (scoped : list Delivery) : bool := existsb Drill scoped.

Section digests.
Context (membershipCanonicalDigest : membershipDigestDTO → string)
        (inputCanonicalDigest : incidentInputDigestDTO → string).

Definition membershipDTO (incidentID : string) (scoped : list Delivery) : membershipDigestDTO :=
  let earliest := earliestByAlert scoped in
  let alertIDs := sort_strings (map_to_list earliest).*1 in
  {| md_SchemaVersion := 2%Z; md_IncidentID := incidentID; md_MemberIDs := alertIDs;
     md_FirstDeliveryIDs := (λ a, default "" (Delivery_ID <$> earliest !! a)) <$> alertIDs |}.

Definition membershipDigest (incidentID : string) (scoped : list Delivery) : string :=
  membershipCanonicalDigest (membershipDTO incidentID scoped).

Definition MembershipDigest (incidentID : string) (deliveries : list Delivery) : string :=
  membershipDigest incidentID (incidentMembers incidentID deliveries).

Definition incidentInputDTO (incidentID groupKey : string) (deliveries : list Delivery)
    : incidentInputDigestDTO :=
  let scoped := incidentMembers incidentID deliveries in
  {| id_SchemaVersion := 2%Z;
     id_MembershipDigest := membershipDigest incidentID scoped;
     id_GroupKey := groupKey;
     id_DrillParity := incidentDrillParity scoped;
     id_Deliveries :=
       (λ d, {| dd_ID := Delivery_ID d; dd_PayloadDigest := PayloadDigest d;
                dd_Status := Delivery_Status d; dd_SourceStartedAt := SourceStartedAt d;
                dd_StartedAtBasis := StartedAtBasis d; dd_SourceResolvedAt := SourceResolvedAt d;
                dd_ResolvedAtBasis := ResolvedAtBasis d |}) <$> SliceStable deliveryLess scoped;
     id_AcuteInputSchemaVersion := 1%Z; id_RuleCatalogVersion := 1%Z;
     id_PromptProfileVersion := 1%Z |}.

Definition IncidentInputDigest (incidentID groupKey : string) (deliveries : list Delivery) : string :=
  inputCanonicalDigest (incidentInputDTO incidentID groupKey deliveries).

Definition DeriveIncidentCoverage (inp : SnapshotInput) : list IncidentCoverage :=
  (λ inc, {| IC_IncidentID := Incident_ID inc;
             IC_MembershipDigest := MembershipDigest (Incident_ID inc) (Deliveries inp);
             IC_IncidentInputDigest :=
               IncidentInputDigest (Incident_ID inc) (Incident_GroupKey inc) (Deliveries inp) |})
  <$> sortIncidentsByID (Incidents inp).
End digests.

(** ** Lemmas: symptoms and grace *)

#[export] Instance deliveryLess_sw : StrictWeak deliveryLess.
Proof. unfold deliveryLess. apply _. Qed.

Lemma deliveryLess_tie a b :
  deliveryLess a b = false → deliveryLess b a = false → Delivery_ID a = Delivery_ID b.
Proof.
  unfold deliveryLess. intros [H1 [H2|H2]]%lex_less_false [H3 [H4|H4]]%lex_less_false; try congruence.
  apply lex_less_false in H2 as [H5 [H6|H6]]; apply lex_less_false in H4 as [H7 [H8|H8]]; try congruence.
  by apply str_ltb_total.
Qed.

(** Rows of one table: an ID names one delivery. *)
Definition distinct_ids (ds : list Delivery) : Prop :=
  ∀ a b, a ∈ ds → b ∈ ds → Delivery_ID a = Delivery_ID b → a = b.

Lemma latest_by_less_perm (key : Delivery → string) less ds ds' :
  StrictWeak less →
  (∀ a b, less a b = false → less b a = false → Delivery_ID a = Delivery_ID b) →
  distinct_ids ds → ds ≡ₚ ds' → latest_by key less ds = latest_by key less ds'.
Proof.
  intros Hsw Htie Hd Hp. apply map_eq. intros k. rewrite !latest_by_lookup.
  apply (best_perm _ (λ _, True)).
  - intros x y _ _. apply sw_asym.
  - intros x y z _ _ _ ??. by eapply sw_trans.
  - intros x y [_ Hx]%list_elem_of_filter [_ Hy]%list_elem_of_filter ??.
    apply Hd; try done. by apply Htie.
  - by apply Forall_true.
  - by rewrite Hp.
Qed.

Lemma latestDeliveryPerAlert_perm ds ds' :
  distinct_ids ds → ds ≡ₚ ds' → latestDeliveryPerAlert ds = latestDeliveryPerAlert ds'.
Proof. apply latest_by_less_perm; [apply _|apply deliveryLess_tie]. Qed.

Lemma earliest_received_min first ds :
  earliest_received first ds = foldl Z.min first (ReceivedAt <$> ds).
Proof.
  unfold earliest_received. revert first. induction ds as [|d ds IH]; intros first; simpl; [done|].
  rewrite IH. f_equal. case_match; go_bool; lia.
Qed.

Lemma first_observed_min ds :
  match ds with [] => time_zero | d :: ds' => earliest_received (ReceivedAt d) ds' end =
  default time_zero (list_min (ReceivedAt <$> ds)).
Proof. destruct ds; simpl; [done|]. apply earliest_received_min. Qed.

Lemma incidentSymptomStatus_perm ds ds' :
  distinct_ids ds → ds ≡ₚ ds' → incidentSymptomStatus ds = incidentSymptomStatus ds'.
Proof. intros Hd Hp. unfold incidentSymptomStatus. by rewrite (latestDeliveryPerAlert_perm _ _ Hd Hp). Qed.

(** ** Lemmas: the critical anchor *)

(** The latest delivery of an Alert is the latest of any part of the rows that
    holds it. *)
Lemma latest_restrict (P : Delivery → Prop) `{∀ d, Decision (P d)} key key' ds k d :
  distinct_ids ds → latest_by key deliveryLess ds !! k = Some d → P d →
  (∀ x, x ∈ ds → P x → key' x = key' d → key x = k) →
  latest_by key' deliveryLess (filter P ds) !! key' d = Some d.
Proof.
  intros Hd Hl HP Hk. rewrite latest_by_lookup in *. apply best_latest in Hl as [Hin Hmax]; [|apply _].
  apply list_elem_of_filter in Hin as [_ Hin].
  set (l := filter (λ a, key' a = key' d) (filter P ds)).
  assert (Hdl : d ∈ l) by (unfold l; rewrite !list_elem_of_filter; done).
  destruct (best_nonempty deliveryLess l d Hdl) as [d' E]. rewrite E.
  apply best_latest in E as [Hin' Hmax']; [|apply _].
  unfold l in Hin'. rewrite !list_elem_of_filter in Hin'. destruct Hin' as (Hk' & HP' & Hin').
  f_equal. apply Hd; [done|done|]. apply deliveryLess_tie; [by apply Hmax'|].
  apply Hmax. apply list_elem_of_filter. split; [by apply Hk|done].
Qed.

Lemma latestByAlertID_elem ds k d :
  latestByAlertID ds !! k = Some d → Delivery_AlertID d = k ∧ d ∈ ds.
Proof.
  unfold latestByAlertID. rewrite latest_by_lookup. intros [Hin _]%best_latest; [|apply _].
  by apply list_elem_of_filter in Hin.
Qed.

Lemma incidentSymptomStatus_firing ds k d :
  latestDeliveryPerAlert ds !! k = Some d → firing_status (Delivery_Status d) = true →
  incidentSymptomStatus ds = DeliveryStatusFiring.
Proof.
  intros Hl Hf. unfold incidentSymptomStatus.
  assert (existsb (λ kd, firing_status (Delivery_Status kd.2))
            (map_to_list (latestDeliveryPerAlert ds)) = true) as ->; [|done].
  apply existsb_exists. exists (k, d). split; [|done].
  by apply list_elem_of_In, elem_of_map_to_list.
Qed.

(** ** Lemmas: digests *)

Lemma distinct_ids_members incidentID ds :
  distinct_ids ds → distinct_ids (incidentMembers incidentID ds).
Proof. intros Hd a b [_ Ha]%list_elem_of_filter [_ Hb]%list_elem_of_filter. by apply Hd. Qed.

Lemma earliestByAlert_perm ds ds' :
  distinct_ids ds → ds ≡ₚ ds' → earliestByAlert ds = earliestByAlert ds'.
Proof.
  apply latest_by_less_perm.
  - split; intros x y; [apply (sw_asym y x)|]. intros z ??. by eapply (sw_trans z y x).
  - intros a b ??. by apply deliveryLess_tie.
Qed.

Lemma deliveries_sorted_perm ds ds' :
  distinct_ids ds → ds ≡ₚ ds' → SliceStable deliveryLess ds = SliceStable deliveryLess ds'.
Proof.
  intros Hd. apply SliceStable_unique; [apply _|].
  intros x y Hx Hy ??. apply Hd; try done. by apply deliveryLess_tie.
Qed.

(** ** Theorems *)

(** The symptoms derived from a set of deliveries do not depend on the
    order the store returned the rows in. *)
Theorem deriveSymptoms_perm ds ds' :
  distinct_ids ds → ds ≡ₚ ds' → deriveSymptoms ds = deriveSymptoms ds'.
Proof.
  intros Hd Hp. unfold deriveSymptoms, incident_keys.
  rewrite (sort_strings_perm (remove_dups (Delivery_IncidentID <$> ds))
             (remove_dups (Delivery_IncidentID <$> ds'))) by (apply remove_dups_perm; by rewrite Hp).
  apply list_fmap_ext. intros i k _. rewrite !first_observed_min.
  assert (Hf : filter (λ d, Delivery_IncidentID d = k) ds ≡ₚ
               filter (λ d, Delivery_IncidentID d = k) ds') by (by rewrite Hp).
  rewrite (incidentSymptomStatus_perm _ _) by
    (done || (intros a b [_ Ha]%list_elem_of_filter [_ Hb]%list_elem_of_filter; by apply Hd)).
  by rewrite (list_min_perm _ _ (fmap_Permutation ReceivedAt _ _ Hf)).
Qed.

(** Both coverage digests of an Incident are functions of the set of
    deliveries: the row order cannot change them. *)
Theorem digests_perm mdigest idigest incidentID groupKey ds ds' :
  distinct_ids ds → ds ≡ₚ ds' →
  MembershipDigest mdigest incidentID ds = MembershipDigest mdigest incidentID ds' ∧
  IncidentInputDigest mdigest idigest incidentID groupKey ds =
  IncidentInputDigest mdigest idigest incidentID groupKey ds'.
Proof.
  intros Hd Hp.
  assert (Hm : incidentMembers incidentID ds ≡ₚ incidentMembers incidentID ds')
    by (unfold incidentMembers; by rewrite Hp).
  pose proof (distinct_ids_members incidentID ds Hd) as Hd'.
  assert (He : MembershipDigest mdigest incidentID ds = MembershipDigest mdigest incidentID ds')
    by (unfold MembershipDigest, membershipDigest, membershipDTO;
        by rewrite (earliestByAlert_perm _ _ Hd' Hm)).
  split; [done|]. unfold IncidentInputDigest, incidentInputDTO. do 2 f_equal.
  - exact He.
  - by apply existsb_perm.
  - f_equal. by apply deliveries_sorted_perm.
Qed.

(** A later delivery of an Alert that is already a member, and any delivery
    of another Incident, leave the membership digest unchanged. *)
Theorem MembershipDigest_resend mdigest incidentID ds d :
  (Delivery_IncidentID d = incidentID →
   ∃ cur, earliestByAlert (incidentMembers incidentID ds) !! Delivery_AlertID d = Some cur ∧
          deliveryLess d cur = false) →
  MembershipDigest mdigest incidentID (ds ++ [d]) = MembershipDigest mdigest incidentID ds.
Proof.
  intros H. unfold MembershipDigest, membershipDigest, membershipDTO.
  enough (earliestByAlert (incidentMembers incidentID (ds ++ [d])) =
          earliestByAlert (incidentMembers incidentID ds)) as -> by done.
  unfold incidentMembers. rewrite filter_app, filter_cons, filter_nil.
  case_decide as Hi; [|by rewrite app_nil_r].
  destruct (H Hi) as (cur & Hcur & Hl). unfold incidentMembers, earliestByAlert, latest_by in *.
  rewrite foldl_snoc. unfold latest_step at 1. by rewrite Hcur, Hl.
Qed.

(** ** Concrete inputs *)

Definition ex_delivery (id alert : string) (st : DeliveryStatus) (at_ : Z) : Delivery :=
  {| Delivery_ID := id; Delivery_IncidentID := "inc"; Delivery_Status := st;
     SourceStartedAt := Some (10 * Second)%Z; StartedAtBasis := SourceTimeBasisSourceAPI;
     SourceResolvedAt := None; ReceivedAt := (at_ * Second)%Z; Delivery_AlertID := alert;
     Delivery_Severity := "critical"; Delivery_Source := "zabbix"; Delivery_EpisodeKey := "";
     Delivery_AcquisitionMode := "poll"; Delivery_PollIntervalSeconds := 60%Z;
     PayloadDigest := "p"; ResolvedAtBasis := SourceTimeBasisMissing; Drill := false;
     Labels := <["alertname" := "HighLoad"]> (<["severity" := "critical"]> ∅);
     SourceSignalID := None; SourceSignalVersion := None; Delivery_SourceInstanceID := Some "z1" |}.

Definition ex_firing : Delivery := ex_delivery "d1" "a1" DeliveryStatusFiring 20.
Definition ex_resolved : Delivery := ex_delivery "d2" "a1" DeliveryStatusResolved 30.

Definition ex_situation : Situation :=
  {| Situation_ID := "s"; Situation_GroupKey := "g"; Situation_Lifecycle := LifecycleActive;
     Situation_Attention := AttentionUrgent; Situation_InputVersion := 1%Z; Situation_DueReasons := [];
     EffectiveStartedAt := (10 * Second)%Z; EffectiveStartedAtBasis := SourceTimeBasisSourceAPI;
     RecoveryObservedAt := None; GraceUntil := None; TerminalAt := None;
     Situation_TerminalReason := None |}.

Definition ex_incident : IncidentState :=
  {| Incident_ID := "inc"; Incident_GroupKey := "g"; Incident_Status := "ready";
     Incident_Triage := {| TS_Phase := "awaiting_decision"; TS_Attempts := 0%Z; TS_NextAt := None;
                           TS_DecisionReason := None; TS_MembershipDigest := None;
                           TS_IncidentInputDigest := None; TS_DecidedAt := None;
                           TS_LatestAttempt := None; TS_ActiveAttempt := None;
                           TS_LastExecution := None |} |}.

Definition ex_input (ds : list Delivery) : SnapshotInput :=
  {| In_Situation := ex_situation; Deliveries := ds;
     Incidents := [ex_incident];
     In_Now := (31 * Second)%Z; Prepared_CycleID := ""; Prepared_Lifecycle := [];
     Prepared_ProfileHorizons := [] |}.

Definition ex_snapshot (ds : list Delivery) (reasons : list ReasonCandidate) (facts : list Fact)
    : Snapshot :=
  {| Snap_SituationID := "s"; Snap_Incidents := [ex_incident];
     Snap_InputVersion := 1%Z; Snap_Lifecycle := LifecycleActive;
     Snap_DurationClass := DurationClassShort; Snap_Facts := facts;
     Snap_Symptoms := deriveSymptoms ds; EligibleReasons := reasons;
     Snap_MaterialFactHash := "m"; Snap_AssessmentBasisHash := "b"; Snap_Observations := [];
     CapabilityResults := []; Deferred := [] |}.

Lemma ex_distinct : distinct_ids [ex_firing; ex_resolved].
Proof.
  intros a b. repeat setoid_rewrite elem_of_cons. setoid_rewrite elem_of_nil.
  intros; destruct_or?; subst; done.
Qed.

Lemma deriveSymptoms_perm_witness :
  deriveSymptoms [ex_firing; ex_resolved] = deriveSymptoms [ex_resolved; ex_firing].
Proof. exact (deriveSymptoms_perm _ _ ex_distinct (perm_swap _ _ _)). Defined.


Definition ex_sha (d : membershipDigestDTO) : string := Join (md_MemberIDs d ++ md_FirstDeliveryIDs d) ",".
Definition ex_sha' (d : incidentInputDigestDTO) : string :=
  Join (dd_ID <$> id_Deliveries d) (id_MembershipDigest d).

Lemma digests_perm_witness :
  MembershipDigest ex_sha "inc" [ex_firing; ex_resolved] =
  MembershipDigest ex_sha "inc" [ex_resolved; ex_firing].
Proof. exact (proj1 (digests_perm ex_sha ex_sha' "inc" "g" _ _ ex_distinct (perm_swap _ _ _))). Defined.

Lemma MembershipDigest_resend_witness :
  MembershipDigest ex_sha "inc" ([ex_firing] ++ [ex_resolved]) = "a1,d1".
Proof.
  exact (MembershipDigest_resend ex_sha "inc" [ex_firing] ex_resolved
    (λ _, ex_intro _ ex_firing (conj eq_refl eq_refl))).
Defined.
