(* ===== verification/Schedule.v ===== *)
(** * Expected-behavior schedules (internal/situation/expected_behavior_schedule.go)

    The wall-clock schedule of an envelope and the one occurrence that an alert
    start belongs to.  The IANA database is an argument, [zones]: the offset
    from UTC, in nanoseconds, of a zone at an instant.  A local date is the
    number of its day, day 0 being Monday, January 1 of year 1, and a local
    minute the number of its minute since then: two clocks agree on year,
    month, day, hour and minute exactly when these numbers agree, and
    [time.Date] and [AddDate] are exact on them. *)

From Stdlib Require Import Ascii.
From stdpp Require Import prelude strings list gmap sorting.
From S2P Require Import Prelude.

(** ** Schedules *)

Inductive ExpectedBehaviorWeekday : Set :=
| ExpectedBehaviorMonday
| ExpectedBehaviorTuesday
| ExpectedBehaviorWednesday
| ExpectedBehaviorThursday
| ExpectedBehaviorFriday
| ExpectedBehaviorSaturday
| ExpectedBehaviorSunday
| ExpectedBehaviorWeekday_other (s : string).

#[export] Instance ExpectedBehaviorWeekday_eq_dec : EqDecision ExpectedBehaviorWeekday.
Proof. solve_decision. Defined.

Record ExpectedBehaviorSchedule : Type := {
  Days : list ExpectedBehaviorWeekday;
  LocalStart : string;
  LocalEnd : string;
  Timezone : string;
  StartToleranceMinutes : Z
}.

Record ExpectedBehaviorOccurrence : Type := {
  OwningLocalDate : Z;
  occ_Start : Time;
  occ_End : Time;
  occ_PrimaryStartedAt : Time;
  Boundary : Time
}.

(** [time.Weekday]: Sunday is 0. *)
Definition expectedBehaviorTimeWeekday (day : ExpectedBehaviorWeekday) : option Z :=
  match day with
  | ExpectedBehaviorMonday => Some 1
  | ExpectedBehaviorTuesday => Some 2
  | ExpectedBehaviorWednesday => Some 3
  | ExpectedBehaviorThursday => Some 4
  | ExpectedBehaviorFriday => Some 5
  | ExpectedBehaviorSaturday => Some 6
  | ExpectedBehaviorSunday => Some 0
  | ExpectedBehaviorWeekday_other _ => None
  end%Z.

Definition expectedBehaviorModelWeekday (day : Z) : option ExpectedBehaviorWeekday :=
  if (day =? 1)%Z then Some ExpectedBehaviorMonday
  else if (day =? 2)%Z then Some ExpectedBehaviorTuesday
  else if (day =? 3)%Z then Some ExpectedBehaviorWednesday
  else if (day =? 4)%Z then Some ExpectedBehaviorThursday
  else if (day =? 5)%Z then Some ExpectedBehaviorFriday
  else if (day =? 6)%Z then Some ExpectedBehaviorSaturday
  else if (day =? 0)%Z then Some ExpectedBehaviorSunday
  else None.

Definition containsExpectedBehaviorDay (days : list ExpectedBehaviorWeekday)
    (wanted : ExpectedBehaviorWeekday) : bool :=
  existsb (λ day, bool_decide (day = wanted)) days.

(** A two-digit field of a clock. *)
Definition two_digits (a b : Ascii.ascii) : option Z :=
  let d c := let n := Ascii.N_of_ascii c in
             if ((48 <=? n) && (n <=? 57))%N then Some (Z.of_N n - 48)%Z else None in
  match d a, d b with
  | Some x, Some y => Some (10 * x + y)%Z
  | _, _ => None
  end.

(** [HH:MM], as minutes since midnight. *)
Definition parseExpectedBehaviorClock (value : string) : option Z :=
  match value with
  | String a (String b (String c (String d (String e EmptyString)))) =>
      if negb (Ascii.eqb c ":"%char) then None
      else match two_digits a b, two_digits d e with
           | Some h, Some m => if (h <? 24)%Z && (m <? 60)%Z then Some (60 * h + m)%Z else None
           | _, _ => None
           end
  | _ => None
  end.

(** ** Local time *)

Definition day_ns : Duration := (24 * Hour)%Z.

Section zone.
Context (zones : string → option (Time → Duration)).

Definition validateExpectedBehaviorSchedule (s : ExpectedBehaviorSchedule) : bool :=
  negb (bool_decide (Days s = []))
  && forallb (λ day, bool_decide (is_Some (expectedBehaviorTimeWeekday day))) (Days s)
  && bool_decide (NoDup (Days s))
  && match parseExpectedBehaviorClock (LocalStart s), parseExpectedBehaviorClock (LocalEnd s) with
     | Some a, Some b => negb (a =? b)%Z
     | _, _ => false
     end
  && bool_decide (is_Some (zones (Timezone s)))
  && (0 <=? StartToleranceMinutes s)%Z && (StartToleranceMinutes s <=? 120)%Z.
End zone.

Section local.
Context (offset : Time → Duration).

(** The local clock at an instant. *)
Definition local_ns (t : Time) : Z := (t + offset t)%Z.
Definition local_day (t : Time) : Z := (local_ns t / day_ns)%Z.
Definition local_minute (t : Time) : Z := (local_ns t / Minute)%Z.

(** [time.Date]: the offset at the wanted clock read as UTC, corrected once. *)
Definition date_in (wanted : Z) : Time :=
  let o := offset wanted in
  if (o =? 0)%Z then wanted else (wanted - offset (wanted - o))%Z.

(** The instants of [n] minutes from [from] on that show the local minute. *)
Fixpoint scan_minutes (n : nat) (from : Time) (minute : Z) : list Time :=
  match n with
  | O => []
  | S n =>
      let rest := scan_minutes n (from + Minute)%Z minute in
      if (local_minute from =? minute)%Z then from :: rest else rest
  end.

(** Four hours on each side of the nominal instant, both ends included. *)
Definition scan_around (minute : Z) : list Time :=
  scan_minutes 481 (date_in (minute * Minute) - 4 * Hour)%Z minute.

(** The first local minute, of 181, that some instant shows. *)
Fixpoint advance_minutes (n : nat) (minute : Z) : list Time :=
  match n with
  | O => []
  | S n =>
      match scan_around minute with
      | [] => advance_minutes n (minute + 1)%Z
      | matches => matches
      end
  end.

Definition resolveExpectedBehaviorLocal (day minutes : Z) : list Time :=
  advance_minutes 181 (day * (24 * 60) + minutes)%Z.

Definition resolveExpectedBehaviorRange (date : Time) (startMinutes endMinutes : Z) : option (Time * Time) :=
  let day := local_day date in
  let endDay :=
    if (endMinutes <? startMinutes)%Z
    then local_day (date_in (local_ns date + day_ns))    (* date.AddDate(0, 0, 1) *)
    else day in
  match head (resolveExpectedBehaviorLocal day startMinutes),
        last (resolveExpectedBehaviorLocal endDay endMinutes) with
  | Some start, Some end_ => if negb (After end_ start) then None else Some (start, end_)
  | _, _ => None
  end.

(** [date.Weekday()]. *)
Definition weekday (date : Time) : Z := ((local_day date + 1) mod 7)%Z.

Record occurrence_candidate : Type := {
  oc_date : Time;
  oc_start : Time;
  oc_end : Time
}.

(** The loop over the two dates; [None] is an error. *)
Fixpoint occurrence_candidates (days : list ExpectedBehaviorWeekday) (startMinutes endMinutes : Z)
    (tolerance : Duration) (primaryStartedAt : Time) (dates : list Time)
    : option (list occurrence_candidate) :=
  match dates with
  | [] => Some []
  | date :: dates =>
      let rest := occurrence_candidates days startMinutes endMinutes tolerance primaryStartedAt dates in
      if match expectedBehaviorModelWeekday (weekday date) with
         | Some day => containsExpectedBehaviorDay days day
         | None => false
         end then
        match resolveExpectedBehaviorRange date startMinutes endMinutes with
        | None => None
        | Some (start, end_) =>
            if Before primaryStartedAt (start - tolerance)%Z || After primaryStartedAt (start + tolerance)%Z
            then rest
            else (λ l, {| oc_date := date; oc_start := start; oc_end := end_ |} :: l) <$> rest
        end
      else rest
  end.
End local.

Definition ResolveExpectedBehaviorOccurrence (zones : string → option (Time → Duration))
    (schedule : ExpectedBehaviorSchedule) (maxDurationMinutes : Z) (primaryStartedAt : Time)
    : option ExpectedBehaviorOccurrence :=
  if negb (validateExpectedBehaviorSchedule zones schedule) then None
  else if (maxDurationMinutes <? 1)%Z || (7 * 24 * 60 <? maxDurationMinutes)%Z then None
  else
  match zones (Timezone schedule), parseExpectedBehaviorClock (LocalStart schedule),
        parseExpectedBehaviorClock (LocalEnd schedule) with
  | Some offset, Some startMinutes, Some endMinutes =>
      let day := local_day offset primaryStartedAt in
      let noon d := date_in offset (d * day_ns + 12 * Hour)%Z in
      let tolerance := (StartToleranceMinutes schedule * Minute)%Z in
      match occurrence_candidates offset (Days schedule) startMinutes endMinutes tolerance
              primaryStartedAt [noon day; noon (day - 1)%Z] with
      | None => None
      | Some candidates =>
          match last (SliceStable (key_ltb oc_start) candidates) with
          | None => None
          | Some chosen =>
              let boundary := (primaryStartedAt + maxDurationMinutes * Minute)%Z in
              Some {| OwningLocalDate := local_day offset (oc_date chosen);
                      occ_Start := oc_start chosen; occ_End := oc_end chosen;
                      occ_PrimaryStartedAt := primaryStartedAt;
                      Boundary := if Before (oc_end chosen) boundary then oc_end chosen else boundary |}
          end
      end
  | _, _, _ => None
  end.

(** ** Lemmas *)

(** [m] consecutive minutes without an instant. *)
Definition minute_skipped (offset : Time → Duration) (minute : Z) : Prop := scan_around offset minute = [].

Section local_lemmas.
Context (offset : Time → Duration).

Lemma scan_minutes_spec n from minute t :
  t ∈ scan_minutes offset n from minute ↔
  local_minute offset t = minute ∧ ∃ k, (0 ≤ k < Z.of_nat n)%Z ∧ t = (from + k * Minute)%Z.
Proof.
  revert from. induction n as [|n IH]; intros from; cbn [scan_minutes].
  { rewrite elem_of_nil. split; [done|]. intros (_ & k & ? & _). lia. }
  assert (Hrest : t ∈ scan_minutes offset n (from + Minute)%Z minute ↔
    local_minute offset t = minute ∧ ∃ k, (1 ≤ k < Z.of_nat (S n))%Z ∧ t = (from + k * Minute)%Z).
  { rewrite IH. split; intros (Hm & k & Hk & ->); (split; [done|]).
    - exists (k + 1)%Z. split; lia.
    - exists (k - 1)%Z. split; lia. }
  destruct (local_minute offset from =? minute)%Z eqn:E; go_bool.
  - rewrite elem_of_cons, Hrest. split.
    + intros [->|(Hm & k & Hk & ->)]; (split; [done|]); [exists 0%Z; lia|exists k; lia].
    + intros (Hm & k & Hk & ->). destruct (decide (k = 0%Z)) as [->|]; [left; lia|].
      right. split; [done|]. exists k. lia.
  - rewrite Hrest. split; intros (Hm & k & Hk & ->); (split; [done|]).
    + exists k. lia.
    + exists k. split; [|done]. destruct (decide (k = 0%Z)) as [->|]; [|lia].
      rewrite Z.mul_0_l, Z.add_0_r in Hm. done.
Qed.

(** The scan goes forward in time. *)
Lemma scan_minutes_sorted n from minute :
  StronglySorted Z.lt (scan_minutes offset n from minute) ∧
  Forall (λ t, from ≤ t)%Z (scan_minutes offset n from minute).
Proof.
  revert from. induction n as [|n IH]; intros from; cbn [scan_minutes]; [by repeat constructor|].
  destruct (IH (from + Minute)%Z) as [Hs Hf].
  assert (Hf' : Forall (λ t, from < t)%Z (scan_minutes offset n (from + Minute)%Z minute))
    by (eapply Forall_impl; [exact Hf|]; intros t; simpl; unfold Minute; lia).
  destruct (local_minute offset from =? minute)%Z.
  - split; constructor; [done|done|lia|]. eapply Forall_impl; [exact Hf'|]. simpl. lia.
  - split; [done|]. eapply Forall_impl; [exact Hf'|]. simpl. lia.
Qed.

Lemma scan_around_spec minute t :
  t ∈ scan_around offset minute ↔
  local_minute offset t = minute ∧
  ∃ k, (-240 ≤ k ≤ 240)%Z ∧ t = (date_in offset (minute * Minute) + k * Minute)%Z.
Proof.
  unfold scan_around. rewrite scan_minutes_spec. unfold Hour, Minute.
  split; intros (Hm & k & Hk & ->); (split; [done|]).
  - exists (k - 240)%Z. lia.
  - exists (k + 240)%Z. lia.
Qed.

Lemma scan_around_sorted minute : StronglySorted Z.lt (scan_around offset minute).
Proof. apply scan_minutes_sorted. Qed.

#[local] Opaque scan_around.

Lemma advance_first n minute x l :
  scan_around offset minute = x :: l → advance_minutes offset (S n) minute = x :: l.
Proof. intros H. simpl. by rewrite H. Qed.

Lemma advance_spec n minute t :
  t ∈ advance_minutes offset n minute →
  ∃ k, (0 ≤ k < Z.of_nat n)%Z ∧ advance_minutes offset n minute = scan_around offset (minute + k) ∧
       local_minute offset t = (minute + k)%Z ∧ (∀ j, 0 ≤ j < k → minute_skipped offset (minute + j))%Z.
Proof.
  revert minute. induction n as [|n IH]; intros minute; cbn [advance_minutes]; [by rewrite elem_of_nil|].
  destruct (scan_around offset minute) as [|x l] eqn:E.
  - intros (k & Hk & -> & Hm & Hskip)%IH. exists (k + 1)%Z.
    replace (minute + (k + 1))%Z with (minute + 1 + k)%Z by lia. split_and!; [lia|lia|done|done|].
    intros j Hj. destruct (decide (j = 0%Z)) as [->|]; [unfold minute_skipped; by rewrite Z.add_0_r|].
    replace (minute + j)%Z with (minute + 1 + (j - 1))%Z by lia. apply Hskip. lia.
  - rewrite <- E. intros Ht. exists 0%Z. rewrite Z.add_0_r. split_and!; [lia|lia|done| |lia].
    by apply scan_around_spec in Ht as [].
Qed.

(** In a zone whose offset never changes every local minute is one instant. *)
Lemma resolve_fixed o day minutes :
  (∀ t, offset t = o) →
  resolveExpectedBehaviorLocal offset day minutes = [((day * (24 * 60) + minutes) * Minute - o)%Z].
Proof.
  intros Ho. unfold resolveExpectedBehaviorLocal. set (minute := (day * (24 * 60) + minutes)%Z).
  assert (Hd : date_in offset (minute * Minute) = (minute * Minute - o)%Z).
  { unfold date_in. rewrite !Ho. destruct (o =? 0)%Z eqn:E; go_bool; lia. }
  assert (Hm : ∀ t, local_minute offset t = minute ↔ (minute * Minute ≤ t + o < (minute + 1) * Minute)%Z).
  { intros t. unfold local_minute, local_ns. rewrite Ho. unfold Minute. split.
    - intros <-. pose proof (Z.mul_div_le (t + o) 60000000000 ltac:(lia)).
      pose proof (Z.mul_succ_div_gt (t + o) 60000000000 ltac:(lia)). lia.
    - intros [H1 H2]. symmetry. apply (Z.div_unique _ _ _ (t + o - minute * 60000000000)); lia. }
  assert (Hin : ∀ t, t ∈ scan_around offset minute ↔ t = (minute * Minute - o)%Z).
  { intros t. rewrite scan_around_spec, Hd, Hm. unfold Minute. split.
    - intros (Hb & k & Hk & ->). lia.
    - intros ->. split; [lia|]. exists 0%Z. lia. }
  pose proof (scan_around_sorted minute) as Hs.
  destruct (scan_around offset minute) as [|x [|y l]] eqn:E.
  - exfalso. assert (Hx : (minute * Minute - o)%Z ∈ ([] : list Z)) by (by apply Hin). by apply elem_of_nil in Hx.
  - rewrite (advance_first 180 minute x []) by done. f_equal. apply Hin. by left.
  - exfalso. assert (x = y) as ->
      by (transitivity (minute * Minute - o)%Z; [|symmetry]; apply Hin; [by left|by right; left]).
    apply StronglySorted_inv in Hs as [_ Hs%Forall_cons]. lia.
Qed.
End local_lemmas.

(** A local minute as the source resolves it: the first one shown by an instant,
    on or at most three hours after the wanted minute. *)
Definition shows (offset : Time → Duration) (t : Time) (minute : Z) : Prop :=
  ∃ k, (0 ≤ k ≤ 180)%Z ∧ local_minute offset t = (minute + k)%Z ∧
       (∀ j, 0 ≤ j < k → minute_skipped offset (minute + j))%Z.

Lemma resolve_shows offset day minutes t :
  t ∈ resolveExpectedBehaviorLocal offset day minutes → shows offset t (day * (24 * 60) + minutes).
Proof.
  unfold resolveExpectedBehaviorLocal. intros (k & Hk & _ & Hm & Hs)%advance_spec.
  exists k. split; [lia|done].
Qed.

Lemma head_elem {A} (l : list A) x : head l = Some x → x ∈ l.
Proof. destruct l; [done|]. intros [= ->]. by left. Qed.

Lemma range_spec offset date a b start end_ :
  resolveExpectedBehaviorRange offset date a b = Some (start, end_) →
  (start < end_)%Z ∧ shows offset start (local_day offset date * (24 * 60) + a) ∧
  ∃ endDay, shows offset end_ (endDay * (24 * 60) + b) ∧
    ((a ≤ b)%Z → endDay = local_day offset date).
Proof.
  unfold resolveExpectedBehaviorRange.
  destruct (head _) as [s|] eqn:Es; [|done]. destruct (last _) as [e|] eqn:Ee; [|done].
  unfold After. destruct (s <? e)%Z eqn:Elt; [|done]. cbn [negb]. intros [= -> ->].
  apply head_elem, resolve_shows in Es. apply last_Some_elem_of, resolve_shows in Ee.
  split; [lia|]. split; [exact Es|]. eexists. split; [exact Ee|].
  intros H. by rewrite (proj2 (Z.ltb_ge b a)) by lia.
Qed.

Section candidates.
Context (offset : Time → Duration) (days : list ExpectedBehaviorWeekday) (a b : Z)
        (tolerance : Duration) (p : Time).

(** What the loop keeps of a date. *)
Record candidate_ok (c : occurrence_candidate) : Prop := {
  ok_day : ∃ day, expectedBehaviorModelWeekday (weekday offset (oc_date c)) = Some day ∧ day ∈ days;
  ok_range : resolveExpectedBehaviorRange offset (oc_date c) a b = Some (oc_start c, oc_end c);
  ok_near : (oc_start c - tolerance ≤ p ≤ oc_start c + tolerance)%Z
}.

Lemma candidates_spec dates cs :
  occurrence_candidates offset days a b tolerance p dates = Some cs →
  ∀ c, c ∈ cs ↔ oc_date c ∈ dates ∧ candidate_ok c.
Proof.
  revert cs. induction dates as [|date dates IH]; intros cs; cbn [occurrence_candidates].
  { intros [= <-] c. rewrite !elem_of_nil. tauto. }
  set (listed := match expectedBehaviorModelWeekday _ with Some _ => _ | None => false end).
  assert (Hlisted : listed = true ↔
    ∃ day, expectedBehaviorModelWeekday (weekday offset date) = Some day ∧ day ∈ days).
  { unfold listed, containsExpectedBehaviorDay.
    destruct (expectedBehaviorModelWeekday _) as [day|]; [|naive_solver].
    rewrite existsb_exists. setoid_rewrite <- list_elem_of_In. setoid_rewrite bool_decide_eq_true.
    naive_solver. }
  assert (Hskip : ∀ cs' : list occurrence_candidate, (∀ c, oc_date c = date → ¬ candidate_ok c) →
    (∀ c, c ∈ cs' ↔ oc_date c ∈ dates ∧ candidate_ok c) →
    ∀ c, c ∈ cs' ↔ oc_date c ∈ date :: dates ∧ candidate_ok c).
  { intros cs' Hno Hcs c. rewrite Hcs, elem_of_cons. naive_solver. }
  destruct listed.
  - destruct (resolveExpectedBehaviorRange offset date a b) as [[s e]|] eqn:Er; [|done].
    destruct (Before p _ || After p _) eqn:Et.
    + intros Hcs. apply Hskip; [|by apply IH]. intros c Hd [_ Hr Hn]. rewrite Hd, Er in Hr. simplify_eq.
      apply orb_true_iff in Et. unfold Before, After in Et. lia.
    + destruct (occurrence_candidates _ _ _ _ _ _ dates) as [l|]; [|done]. intros [= <-] c.
      apply orb_false_iff in Et as [E1 E2]. go_bool. rewrite !elem_of_cons, (IH _ eq_refl). split.
      * intros [->|[]]; [|tauto]. split; [by left|]. split; [by apply Hlisted|done|simpl; lia].
      * intros [[Hd|?] Hc]; [|by right]. left. destruct Hc as [_ Hr _]. destruct c as [d s' e']; simpl in *.
        subst d. rewrite Er in Hr. by simplify_eq.
  - intros Hcs. apply Hskip; [|by apply IH]. intros c Hd [Hday _ _]. rewrite Hd in Hday.
    by apply Hlisted in Hday.
Qed.
End candidates.

Lemma last_sorted_max {A} (less : A → A → bool) `{!StrictWeak less} l x :
  last (SliceStable less l) = Some x → x ∈ l ∧ ∀ y, y ∈ l → less x y = false.
Proof.
  intros Hl. apply last_Some in Hl as [l' Hl].
  assert (Hp : l ≡ₚ l' ++ [x]) by (by rewrite <- Hl, SliceStable_perm).
  pose proof (SliceStable_sorted less l) as Hs. rewrite Hl in Hs.
  split; [rewrite Hp; apply elem_of_app; right; by left|].
  intros y. rewrite Hp, elem_of_app, list_elem_of_singleton.
  intros [Hy| ->]; [|destruct (less x x) eqn:E; [by rewrite (sw_asym _ _ E) in E|done]].
  apply StronglySorted_app in Hs as (Hc & _ & _). apply Hc; [done|by left].
Qed.

(** ** The theorem *)

(** An alert start belongs to an occurrence only on a scheduled day of its
    own local date or of the day before, within the tolerance of the scheduled
    start, the latest such start when there are two; the occurrence ends after
    it starts, at local minutes that the zone has, moved past a gap of the clock
    by the least number of minutes; and authority ends at the earlier of the
    scheduled end and the longest duration. *)
Theorem ResolveExpectedBehaviorOccurrence_spec zones s maxDuration p occ :
  ResolveExpectedBehaviorOccurrence zones s maxDuration p = Some occ →
  ∃ offset a b date,
    zones (Timezone s) = Some offset ∧ parseExpectedBehaviorClock (LocalStart s) = Some a ∧
    parseExpectedBehaviorClock (LocalEnd s) = Some b ∧
    let day := local_day offset p in
    let tolerance := (StartToleranceMinutes s * Minute)%Z in
    let dates := [date_in offset (day * day_ns + 12 * Hour); date_in offset ((day - 1) * day_ns + 12 * Hour)]%Z in
    date ∈ dates ∧
    (∃ wd, expectedBehaviorModelWeekday (weekday offset date) = Some wd ∧ wd ∈ Days s) ∧
    (occ_Start occ - tolerance ≤ p ≤ occ_Start occ + tolerance)%Z ∧ (occ_Start occ < occ_End occ)%Z ∧
    shows offset (occ_Start occ) (local_day offset date * (24 * 60) + a) ∧
    (∀ c, oc_date c ∈ dates → candidate_ok offset (Days s) a b tolerance p c →
      (oc_start c ≤ occ_Start occ)%Z) ∧
    Boundary occ = Z.min (occ_End occ) (p + maxDuration * Minute) ∧ (1 ≤ maxDuration ≤ 7 * 24 * 60)%Z.
Proof.
  unfold ResolveExpectedBehaviorOccurrence. destruct (validateExpectedBehaviorSchedule zones s); [|done].
  destruct (_ || _) eqn:Emax; [done|]. cbn [negb]. cbv zeta.
  destruct (zones (Timezone s)) as [offset|]; [|done].
  destruct (parseExpectedBehaviorClock (LocalStart s)) as [a|]; [|done].
  destruct (parseExpectedBehaviorClock (LocalEnd s)) as [b|]; [|done].
  match goal with |- context [occurrence_candidates ?o ?ds ?x ?y ?tol ?q ?l] =>
    destruct (occurrence_candidates o ds x y tol q l) as [cs|] eqn:Ecs; [|done] end.
  destruct (last _) as [ch|] eqn:El; [|done]. intros [= <-].
  cbn [occ_Start occ_End Boundary].
  pose proof (candidates_spec _ _ _ _ _ _ _ _ Ecs) as Hcs.
  apply last_sorted_max in El as [Hin Hmax]; [|apply _].
  pose proof Hin as [Hd [Hday Hr Hn]]%Hcs.
  destruct (range_spec _ _ _ _ _ _ Hr) as (Hlt & Hs & _).
  exists offset, a, b, (oc_date ch). cbv zeta. split_and!; try done; try lia.
  - intros c Hc Hok. assert (Hcin : c ∈ cs) by (by apply Hcs).
    apply Hmax in Hcin. unfold key_ltb in Hcin. lia.
  - unfold Before. match goal with |- context [(?x <? ?y)%Z] => destruct (Z.ltb_spec x y) end; lia.
Qed.

(** Berlin in October 2026, summer time to winter time on the 25th at 01:00 UTC. *)
Definition ex_unix (s : Z) : Time := ((62135596800 + s) * Second)%Z.
Definition ex_berlin (t : Time) : Duration :=
  if (ex_unix 1792890000 <=? t)%Z then Hour else (2 * Hour)%Z.
Definition ex_zones (name : string) : option (Time → Duration) :=
  if str_eqb name "UTC" then Some (λ _, 0%Z)
  else if str_eqb name "Europe/Berlin" then Some ex_berlin else None.
Definition ex_schedule : ExpectedBehaviorSchedule :=
  {| Days := [ExpectedBehaviorSunday]; LocalStart := "02:30"; LocalEnd := "04:00";
     Timezone := "Europe/Berlin"; StartToleranceMinutes := 5 |}.


(** On the night the clocks go back 02:30 comes twice: the first one is the
    start, and 04:00 is three and a half hours away. *)
Lemma ResolveExpectedBehaviorOccurrence_spec_witness :
  ∃ occ, ResolveExpectedBehaviorOccurrence ex_zones ex_schedule 600 (ex_unix 1792888260) = Some occ ∧
         (occ_Start occ < occ_End occ)%Z.
Proof.
  eexists. split; [vm_compute; reflexivity|].
  match goal with |- (occ_Start ?o < _)%Z =>
    destruct (ResolveExpectedBehaviorOccurrence_spec ex_zones ex_schedule 600%Z (ex_unix 1792888260) o
      ltac:(vm_compute; reflexivity)) as (off & a & b & d & _ & _ & _ & _ & _ & _ & H & _) end.
  exact H.
Defined.
