(* ===== verification/ExpectedBehavior.v ===== *)
(** * Expected behavior (internal/situation/expected_behavior.go)

    The evaluation of an operator's reusable schedules against one coherent
    read, the refresh of the evaluation at the commit, and what it overlays on
    the committed Operator contract.  The JSON text of a label map is an
    argument, and the schedule is [Schedule]'s.  The basis hash of an
    evaluation is left out. *)

From stdpp Require Import prelude strings list gmap sorting.
From S2P Require Import Prelude SituationModel Schedule.

(** ** Data *)

Record ExpectedBehaviorScope : Type := {
  sc_GroupKey : string;
  sc_Source : string;
  sc_SourceInstanceID : string;
  sc_Host : string;
  sc_PrimaryTriggerID : string;
  sc_PrimaryTriggerVersion : string;
  sc_ProducerID : string;
  sc_ScopeLabels : gmap string string;
  sc_PrimaryRuleID : string;
  sc_PrimaryRuleVersion : string;
  sc_RuleGroup : string;
  sc_RuleName : string
}.

Record ExpectedBehaviorBinding : Type := {
  bi_Role : string;
  bi_Source : string;
  bi_SourceInstanceID : string;
  bi_Host : string;
  bi_TriggerID : string;
  bi_TriggerVersion : string;
  bi_ProducerID : string;
  bi_ScopeLabels : gmap string string;
  bi_RuleID : string;
  bi_RuleVersion : string;
  bi_RuleGroup : string;
  bi_RuleName : string
}.

Record ExpectedBehaviorConditions : Type := {
  Workload : string;
  ec_Schedule : ExpectedBehaviorSchedule;
  MaxDurationMinutes : Z;
  RequiredCompanions : list ExpectedBehaviorBinding;
  AllowedCompanions : list ExpectedBehaviorBinding;
  ForbiddenSignals : list ExpectedBehaviorBinding
}.

Record ExpectedBehaviorPolicy : Type := {
  ep_Scope : ExpectedBehaviorScope;
  ep_Conditions : ExpectedBehaviorConditions;
  ReviewDueAt : Time
}.

Record ExpectedBehaviorHead : Type := {
  eh_EnvelopeID : string;
  eh_Version : Z;
  eh_Revoked : bool;                       (* [State == revoked] *)
  eh_Policy : option ExpectedBehaviorPolicy;
  eh_InvalidatedAt : option Time;
  eh_UpdatedAt : Time
}.

Record ExpectedBehaviorSignal : Type := {
  sg_SourceInstanceID : string;
  sg_Host : string;
  sg_TriggerID : string;
  sg_TriggerVersion : string;
  sg_Presence : string;
  sg_EvidenceRefs : list string;
  sg_ExpiresAt : Time;
  sg_ProducerID : string;
  sg_ScopeLabels : gmap string string;
  sg_RuleID : string;
  sg_RuleVersion : string
}.

Record ExpectedBehaviorInput : Type := {
  ei_GroupKey : string;
  ei_Now : Time;
  ei_PrimaryStartedAt : Time;
  ei_Source : string;
  ei_SourceInstanceID : string;
  ei_Host : string;
  ei_PrimaryTriggerID : string;
  ei_PrimaryVersion : string;
  HasCriticalFiring : bool;
  IndependentlyUrgent : bool;
  FiringSignals : list ExpectedBehaviorSignal;
  ei_Observations : list ExpectedBehaviorSignal;
  Heads : list ExpectedBehaviorHead;
  ei_ProducerID : string;
  ei_ScopeLabels : gmap string string;
  ei_PrimaryRuleID : string;
  ei_PrimaryRuleVersion : string;
  ei_PrimaryPresence : string
}.

Inductive ExpectedBehaviorCandidateStatus : Set :=
| ExpectedBehaviorMatched
| ExpectedBehaviorAuthorityUnavailable
| ExpectedBehaviorViolated
| ExpectedBehaviorNotCandidate.

Inductive ExpectedBehaviorReason : Set :=
| ReasonNone                               (* the empty text *)
| ReasonMatched
| ReasonRevoked
| ReasonInvalidated
| ReasonScopeMismatch
| ReasonPrimaryDefinitionChanged
| ReasonBindingDefinitionChanged
| ReasonDefinitionUnavailable
| ReasonOutsideSchedule
| ReasonStartOutsideTolerance
| ReasonDurationExceeded
| ReasonRequiredMissing
| ReasonPrimaryMissing
| ReasonObservationUnavailable
| ReasonScheduleUnavailable
| ReasonBudgetDeferred
| ReasonUnexpectedSymptom
| ReasonForbiddenPresent
| ReasonUrgent.

Inductive ExpectedBehaviorDisposition : Set :=
| DispositionMatched
| DispositionAuthorityUnavailable
| DispositionViolated
| DispositionNotApplicable.

#[export] Instance ExpectedBehaviorCandidateStatus_eq_dec : EqDecision ExpectedBehaviorCandidateStatus.
Proof. solve_decision. Defined.
#[export] Instance ExpectedBehaviorReason_eq_dec : EqDecision ExpectedBehaviorReason.
Proof. solve_decision. Defined.
#[export] Instance ExpectedBehaviorDisposition_eq_dec : EqDecision ExpectedBehaviorDisposition.
Proof. solve_decision. Defined.

Record ExpectedBehaviorCandidate : Type := {
  ca_EnvelopeID : string;
  ca_Version : Z;
  ca_Status : ExpectedBehaviorCandidateStatus;
  ca_Reason : ExpectedBehaviorReason;
  ca_Occurrence : option ExpectedBehaviorOccurrence;
  ca_EvidenceRefs : list string;
  ca_EvidenceExpiresAt : option Time
}.

Record ExpectedBehaviorEvaluation : Type := {
  ev_Disposition : ExpectedBehaviorDisposition;
  ev_Reason : ExpectedBehaviorReason;
  ChosenEnvelopeID : string;
  ChosenVersion : Z;
  ev_Occurrence : option ExpectedBehaviorOccurrence;
  ev_EvidenceExpiresAt : option Time;
  Candidates : list ExpectedBehaviorCandidate;
  EvaluatedAt : Time
}.

(** ** Identities of signals *)

Definition nul : string := bytes [0%N].

Section evaluate.
Context (canonicalExpectedBehaviorLabels : gmap string string → string)
        (zones : string → option (Time → Duration)).

Definition expectedBehaviorSignalKey (instance host trigger : string) : string :=
  instance +:+ nul +:+ host +:+ nul +:+ trigger.

Definition rule_key (instance producer rule : string) (labels : gmap string string) : string :=
  instance +:+ nul +:+ producer +:+ nul +:+ rule +:+ nul +:+ canonicalExpectedBehaviorLabels labels.

Definition expectedBehaviorBindingSignalKey (b : ExpectedBehaviorBinding) : string :=
  if str_eqb (bi_Source b) "alertmanager" then
    rule_key (bi_SourceInstanceID b) (bi_ProducerID b) (bi_RuleID b) (bi_ScopeLabels b)
  else expectedBehaviorSignalKey (bi_SourceInstanceID b) (bi_Host b) (bi_TriggerID b).

Definition expectedBehaviorSignalIdentity (s : ExpectedBehaviorSignal) : string :=
  if negb (str_eqb (sg_RuleID s) "") then
    rule_key (sg_SourceInstanceID s) (sg_ProducerID s) (sg_RuleID s) (sg_ScopeLabels s)
  else expectedBehaviorSignalKey (sg_SourceInstanceID s) (sg_Host s) (sg_TriggerID s).

Definition expectedBehaviorSignalVersion (s : ExpectedBehaviorSignal) : string :=
  if negb (str_eqb (sg_RuleVersion s) "") then sg_RuleVersion s else sg_TriggerVersion s.
Definition expectedBehaviorBindingVersion (b : ExpectedBehaviorBinding) : string :=
  if negb (str_eqb (bi_RuleVersion b) "") then bi_RuleVersion b else bi_TriggerVersion b.

Definition expectedBehaviorScopeMatches (scope : ExpectedBehaviorScope) (inp : ExpectedBehaviorInput) : bool :=
  if str_eqb (sc_Source scope) "alertmanager" then
    str_eqb (sc_ProducerID scope) (ei_ProducerID inp)
    && str_eqb (sc_PrimaryRuleID scope) (ei_PrimaryRuleID inp)
    && bool_decide (sc_ScopeLabels scope = ei_ScopeLabels inp)
  else str_eqb (sc_Host scope) (ei_Host inp)
       && str_eqb (sc_PrimaryTriggerID scope) (ei_PrimaryTriggerID inp).

Definition expectedBehaviorSignalFiring (signals : list ExpectedBehaviorSignal) (key : string) : bool :=
  existsb (λ s, str_eqb (expectedBehaviorSignalIdentity s) key) signals.

Fixpoint compact_from (prev : string) (l : list string) : list string :=
  match l with
  | [] => []
  | x :: l => if negb (str_eqb x prev) then x :: compact_from x l else compact_from prev l
  end.

Definition compactExpectedBehaviorStrings (l : list string) : list string :=
  match l with [] => [] | x :: l => x :: compact_from x l end.

(** ** One candidate

    The ordered gates of [evaluateExpectedBehaviorCandidate]: a gate ends the
    evaluation with the candidate it sets, as an error. *)

Definition set_status (c : ExpectedBehaviorCandidate) (s : ExpectedBehaviorCandidateStatus)
    (r : ExpectedBehaviorReason) : ExpectedBehaviorCandidate :=
  {| ca_EnvelopeID := ca_EnvelopeID c; ca_Version := ca_Version c; ca_Status := s; ca_Reason := r;
     ca_Occurrence := ca_Occurrence c; ca_EvidenceRefs := ca_EvidenceRefs c;
     ca_EvidenceExpiresAt := ca_EvidenceExpiresAt c |}.

Definition with_occurrence (c : ExpectedBehaviorCandidate) (o : ExpectedBehaviorOccurrence)
    : ExpectedBehaviorCandidate :=
  {| ca_EnvelopeID := ca_EnvelopeID c; ca_Version := ca_Version c; ca_Status := ca_Status c;
     ca_Reason := ca_Reason c; ca_Occurrence := Some o; ca_EvidenceRefs := ca_EvidenceRefs c;
     ca_EvidenceExpiresAt := ca_EvidenceExpiresAt c |}.

Definition add_refs (c : ExpectedBehaviorCandidate) (refs : list string) : ExpectedBehaviorCandidate :=
  {| ca_EnvelopeID := ca_EnvelopeID c; ca_Version := ca_Version c; ca_Status := ca_Status c;
     ca_Reason := ca_Reason c; ca_Occurrence := ca_Occurrence c;
     ca_EvidenceRefs := ca_EvidenceRefs c ++ refs; ca_EvidenceExpiresAt := ca_EvidenceExpiresAt c |}.

Definition gated (A : Type) : Type := result ExpectedBehaviorCandidate A.

Definition violated {A} (c : ExpectedBehaviorCandidate) (r : ExpectedBehaviorReason) : gated A :=
  Err (set_status c ExpectedBehaviorViolated r).
Definition unavailable {A} (c : ExpectedBehaviorCandidate) (r : ExpectedBehaviorReason) : gated A :=
  Err (set_status c ExpectedBehaviorAuthorityUnavailable r).
Definition no_candidate {A} (c : ExpectedBehaviorCandidate) (r : ExpectedBehaviorReason) : gated A :=
  Err (set_status c ExpectedBehaviorNotCandidate r).

(** [if bad { return set(...) }], then the rest. *)
Definition gate {A} (bad : bool) (out : gated A) (k : gated A) : gated A := if bad then out else k.

Definition is_alertmanager (s : ExpectedBehaviorScope) : bool := str_eqb (sc_Source s) "alertmanager".

(** The firing signal of the primary rule. *)
Definition is_primary_rule (inp : ExpectedBehaviorInput) (s : ExpectedBehaviorSignal) : bool :=
  str_eqb (sg_SourceInstanceID s) (ei_SourceInstanceID inp) && str_eqb (sg_ProducerID s) (ei_ProducerID inp)
  && str_eqb (sg_RuleID s) (ei_PrimaryRuleID inp)
  && bool_decide (sg_ScopeLabels s = ei_ScopeLabels inp).

Definition is_primary (inp : ExpectedBehaviorInput) (s : ExpectedBehaviorSignal) : bool :=
  str_eqb (ei_Source inp) "zabbix" && str_eqb (sg_TriggerID s) (ei_PrimaryTriggerID inp)
    && str_eqb (sg_SourceInstanceID s) (ei_SourceInstanceID inp) && str_eqb (sg_Host s) (ei_Host inp)
  || str_eqb (ei_Source inp) "alertmanager" && is_primary_rule inp s.

(** The map from identities to observations: the last one of each. *)
Definition observed_map (obs : list ExpectedBehaviorSignal) : gmap string ExpectedBehaviorSignal :=
  foldl (λ m s, <[expectedBehaviorSignalIdentity s := s]> m) ∅ obs.

Definition fresh (now : Time) (s : ExpectedBehaviorSignal) : bool :=
  negb (str_eqb (sg_Presence s) "unknown") && After (sg_ExpiresAt s) now.

(** A usable observation of a binding: its references, its expiry and its
    version. *)
Definition use_observation (b : ExpectedBehaviorBinding) (o : ExpectedBehaviorSignal)
    (acc : ExpectedBehaviorCandidate * Time) : gated (ExpectedBehaviorCandidate * Time) :=
  let c := add_refs acc.1 (sg_EvidenceRefs o) in
  let boundary := if IsZero acc.2 || Before (sg_ExpiresAt o) acc.2 then sg_ExpiresAt o else acc.2 in
  gate (negb (str_eqb (expectedBehaviorSignalVersion o) (expectedBehaviorBindingVersion b)))
    (violated c ReasonBindingDefinitionChanged) (Ok (c, boundary)).

Section bindings.
Context (inp : ExpectedBehaviorInput) (observed : gmap string ExpectedBehaviorSignal).

(** The required companions and the forbidden signals must be observed. *)
Definition mandatory_step (acc : ExpectedBehaviorCandidate * Time) (b : ExpectedBehaviorBinding)
    : gated (ExpectedBehaviorCandidate * Time) :=
  match observed !! expectedBehaviorBindingSignalKey b with
  | Some o => gate (negb (fresh (ei_Now inp) o)) (unavailable acc.1 ReasonObservationUnavailable)
                (use_observation b o acc)
  | None => unavailable acc.1 ReasonObservationUnavailable
  end.

(** An allowed companion must be observed when it fires. *)
Definition allowed_step (acc : ExpectedBehaviorCandidate * Time) (b : ExpectedBehaviorBinding)
    : gated (ExpectedBehaviorCandidate * Time) :=
  let key := expectedBehaviorBindingSignalKey b in
  let absent := gate (expectedBehaviorSignalFiring (FiringSignals inp) key)
                  (unavailable acc.1 ReasonObservationUnavailable) (Ok acc) in
  match observed !! key with
  | Some o => if fresh (ei_Now inp) o then use_observation b o acc else absent
  | None => absent
  end.

Fixpoint steps (f : ExpectedBehaviorCandidate * Time → ExpectedBehaviorBinding →
                    gated (ExpectedBehaviorCandidate * Time))
    (acc : ExpectedBehaviorCandidate * Time) (bs : list ExpectedBehaviorBinding)
    : gated (ExpectedBehaviorCandidate * Time) :=
  match bs with
  | [] => Ok acc
  | b :: bs => res_bind (f acc b) (λ acc, steps f acc bs)
  end.

Definition present (b : ExpectedBehaviorBinding) : bool :=
  match observed !! expectedBehaviorBindingSignalKey b with
  | Some o => str_eqb (sg_Presence o) "present"
  | None => false
  end.
End bindings.

(** The primary rule's own evidence, for an Alertmanager scope. *)
Definition primary_evidence (inp : ExpectedBehaviorInput) (scope : ExpectedBehaviorScope)
    (c : ExpectedBehaviorCandidate) : gated (ExpectedBehaviorCandidate * Time) :=
  if negb (is_alertmanager scope) then Ok (c, time_zero)
  else
    gate (negb (str_eqb (ei_PrimaryPresence inp) "present"))
      (if str_eqb (ei_PrimaryPresence inp) "unknown" || str_eqb (ei_PrimaryPresence inp) ""
       then unavailable c ReasonObservationUnavailable else violated c ReasonPrimaryMissing)
      match find (is_primary_rule inp) (FiringSignals inp) with
      | None => unavailable c ReasonObservationUnavailable
      | Some s => gate (negb (After (sg_ExpiresAt s) (ei_Now inp)))
                    (unavailable c ReasonObservationUnavailable)
                    (Ok (add_refs c (sg_EvidenceRefs s), sg_ExpiresAt s))
      end.

Definition listed (cond : ExpectedBehaviorConditions) : list ExpectedBehaviorBinding :=
  RequiredCompanions cond ++ AllowedCompanions cond ++ ForbiddenSignals cond.

(** The gates on the companions, once the occurrence is settled. *)
Definition companion_gates (inp : ExpectedBehaviorInput) (cond : ExpectedBehaviorConditions)
    (acc : ExpectedBehaviorCandidate * Time) : gated (ExpectedBehaviorCandidate * Time) :=
  let observed := observed_map (ei_Observations inp) in
  res_bind (steps (mandatory_step inp observed) acc (RequiredCompanions cond ++ ForbiddenSignals cond)) (λ acc,
  res_bind (steps (allowed_step inp observed) acc (AllowedCompanions cond)) (λ acc,
  gate (negb (forallb (present observed) (RequiredCompanions cond))) (violated acc.1 ReasonRequiredMissing)
  (gate (existsb (present observed) (ForbiddenSignals cond)) (violated acc.1 ReasonForbiddenPresent)
  (gate (existsb (λ s, negb (is_primary inp s)
                       && negb (existsb (λ b, str_eqb (expectedBehaviorBindingSignalKey b)
                                                (expectedBehaviorSignalIdentity s)) (listed cond)))
           (FiringSignals inp)) (violated acc.1 ReasonUnexpectedSymptom)
  (Ok acc))))).

Definition candidate_zero (h : ExpectedBehaviorHead) : ExpectedBehaviorCandidate :=
  {| ca_EnvelopeID := eh_EnvelopeID h; ca_Version := eh_Version h;
     ca_Status := ExpectedBehaviorNotCandidate; ca_Reason := ReasonNone; ca_Occurrence := None;
     ca_EvidenceRefs := []; ca_EvidenceExpiresAt := None |}.

Definition candidate_gates (inp : ExpectedBehaviorInput) (h : ExpectedBehaviorHead)
    : gated (ExpectedBehaviorCandidate * Time) :=
  let c := candidate_zero h in
  gate (eh_Revoked h) (no_candidate c ReasonRevoked)
  match eh_InvalidatedAt h, eh_Policy h with
  | None, Some policy =>
      let scope := ep_Scope policy in
      let cond := ep_Conditions policy in
      gate (negb (str_eqb (sc_GroupKey scope) (ei_GroupKey inp)) || negb (str_eqb (sc_Source scope) (ei_Source inp))
            || negb (str_eqb (sc_SourceInstanceID scope) (ei_SourceInstanceID inp))
            || negb (expectedBehaviorScopeMatches scope inp)) (no_candidate c ReasonScopeMismatch)
      (gate (HasCriticalFiring inp || IndependentlyUrgent inp) (violated c ReasonUrgent)
      (let primary := if is_alertmanager scope then ei_PrimaryRuleVersion inp else ei_PrimaryVersion inp in
       let want := if is_alertmanager scope then sc_PrimaryRuleVersion scope else sc_PrimaryTriggerVersion scope in
      (gate (str_eqb primary "") (unavailable c ReasonDefinitionUnavailable)
      (gate (negb (str_eqb want primary)) (violated c ReasonPrimaryDefinitionChanged)
      (res_bind (primary_evidence inp scope c) (λ '(c, boundary),
       match ResolveExpectedBehaviorOccurrence zones (ec_Schedule cond) (MaxDurationMinutes cond)
               (ei_PrimaryStartedAt inp) with
       | None => violated c ReasonStartOutsideTolerance
       | Some occ =>
           let c := with_occurrence c occ in
           gate (negb (Before (ei_Now inp) (Boundary occ)))
             (violated c (if Equal (Boundary occ) (occ_End occ) then ReasonOutsideSchedule
                          else ReasonDurationExceeded))
           (companion_gates inp cond (c, boundary))
       end))))))
  | _, _ => no_candidate c ReasonInvalidated
  end.

Definition evaluateExpectedBehaviorCandidate (inp : ExpectedBehaviorInput) (h : ExpectedBehaviorHead)
    : ExpectedBehaviorCandidate :=
  match candidate_gates inp h with
  | Err c => c
  | Ok (c, boundary) =>
      {| ca_EnvelopeID := ca_EnvelopeID c; ca_Version := ca_Version c; ca_Status := ExpectedBehaviorMatched;
         ca_Reason := ReasonMatched; ca_Occurrence := ca_Occurrence c;
         ca_EvidenceRefs := compactExpectedBehaviorStrings (sort_strings (ca_EvidenceRefs c));
         ca_EvidenceExpiresAt := if IsZero boundary then None else Some boundary |}
  end.

(** ** The evaluation *)

Definition updated_at (heads : list ExpectedBehaviorHead) (id : string) : Time :=
  match find (λ h, str_eqb (eh_EnvelopeID h) id) heads with
  | Some h => eh_UpdatedAt h
  | None => time_zero
  end.

(** The candidate of the envelope changed last. *)
Definition later_candidate (heads : list ExpectedBehaviorHead)
    (acc : ExpectedBehaviorCandidate * Time) (c : ExpectedBehaviorCandidate) : ExpectedBehaviorCandidate * Time :=
  match find (λ h, str_eqb (eh_EnvelopeID h) (ca_EnvelopeID c) && After (eh_UpdatedAt h) acc.2) heads with
  | Some h => (c, eh_UpdatedAt h)
  | None => acc
  end.

Definition latestNotApplicableCandidate (first : ExpectedBehaviorCandidate)
    (rest : list ExpectedBehaviorCandidate) (heads : list ExpectedBehaviorHead) : ExpectedBehaviorCandidate :=
  (foldl (later_candidate heads) (first, updated_at heads (ca_EnvelopeID first)) rest).1.

Definition has_status (s : ExpectedBehaviorCandidateStatus) (c : ExpectedBehaviorCandidate) : bool :=
  bool_decide (ca_Status c = s).

Definition EvaluateExpectedBehaviors (inp : ExpectedBehaviorInput) : ExpectedBehaviorEvaluation :=
  let heads := SliceStable (skey_ltb eh_EnvelopeID) (Heads inp) in
  let cs := evaluateExpectedBehaviorCandidate inp <$> heads in
  let out d r := {| ev_Disposition := d; ev_Reason := r; ChosenEnvelopeID := ""; ChosenVersion := 0;
                    ev_Occurrence := None; ev_EvidenceExpiresAt := None; Candidates := cs;
                    EvaluatedAt := ei_Now inp |} in
  match find (has_status ExpectedBehaviorMatched) cs with
  | Some c =>
      {| ev_Disposition := DispositionMatched; ev_Reason := ca_Reason c; ChosenEnvelopeID := ca_EnvelopeID c;
         ChosenVersion := ca_Version c; ev_Occurrence := ca_Occurrence c;
         ev_EvidenceExpiresAt := ca_EvidenceExpiresAt c; Candidates := cs; EvaluatedAt := ei_Now inp |}
  | None =>
  match find (has_status ExpectedBehaviorAuthorityUnavailable) cs with
  | Some c => out DispositionAuthorityUnavailable (ca_Reason c)
  | None =>
  match find (has_status ExpectedBehaviorViolated) cs with
  | Some c => out DispositionViolated (ca_Reason c)
  | None =>
      out DispositionNotApplicable
        match cs with
        | [] => ReasonNone
        | c :: cs => ca_Reason (latestNotApplicableCandidate c cs heads)
        end
  end end end.
End evaluate.

(** ** At the commit *)

(** The overlay of a covered human request: nothing is asked of the operator,
    and the next update is no later than the end of the authority. *)
Definition overlay_contract (c : ActionContract) (deadline : Time) : ActionContract :=
  {| AC_NextActor := match AC_AlertINTAction c with
                     | Some _ => NextActorAlertINT
                     | None => NextActorNone
                     end;
     AC_AlertINTAction := AC_AlertINTAction c; AC_AlertINTStatus := AC_AlertINTStatus c;
     AC_OperatorActionRequired := None;
     AC_NextUpdateAt :=
       match AC_NextUpdateAt c with
       | None => Some deadline
       | Some t => if Before deadline t then Some deadline else Some t
       end;
     AC_NextUpdateOn := AC_NextUpdateOn c; AC_WaitReason := AC_WaitReason c |}.

Definition with_contract (a : Assessment) (c : ActionContract) : Assessment :=
  {| A_SchemaVersion := A_SchemaVersion a; A_Persistence := A_Persistence a; A_Impact := A_Impact a;
     A_Novelty := A_Novelty a; A_Causality := A_Causality a; A_Attention := A_Attention a;
     A_Lifecycle := A_Lifecycle a; A_EvidenceQuality := A_EvidenceQuality a;
     A_SufficientReason := A_SufficientReason a; A_ActionContract := c; A_Limitations := A_Limitations a;
     A_Cadence := A_Cadence a |}.

Definition is_urgent (a : Attention) : bool := bool_decide (a = AttentionUrgent).

Definition ApplyExpectedBehaviorAuthority (lifecycle : Lifecycle) (attention : Attention) (a : Assessment)
    (evaluation : option ExpectedBehaviorEvaluation) : Assessment :=
  match evaluation with
  | None => a
  | Some ev =>
      match ev_Occurrence ev with
      | None => a
      | Some occ =>
          if negb (bool_decide (ev_Disposition ev = DispositionMatched)) || Terminal lifecycle
             || is_urgent attention || is_urgent (A_Attention a) then a
          else
            let boundary := match ev_EvidenceExpiresAt ev with
                            | Some t => if Before t (Boundary occ) then t else Boundary occ
                            | None => Boundary occ
                            end in
            with_contract a (overlay_contract (A_ActionContract a) boundary)
      end
  end.

(** The three changes of the refresh. *)
Definition refreshed (ev : ExpectedBehaviorEvaluation) (d : ExpectedBehaviorDisposition)
    (r : ExpectedBehaviorReason) (occ : option ExpectedBehaviorOccurrence)
    (cs : list ExpectedBehaviorCandidate) (now : Time) : ExpectedBehaviorEvaluation :=
  {| ev_Disposition := d; ev_Reason := r; ChosenEnvelopeID := ""; ChosenVersion := 0;
     ev_Occurrence := occ; ev_EvidenceExpiresAt := ev_EvidenceExpiresAt ev; Candidates := cs;
     EvaluatedAt := now |}.

Definition overridden (c : ExpectedBehaviorCandidate) : ExpectedBehaviorCandidate :=
  if bool_decide (ca_Status c = ExpectedBehaviorNotCandidate) then c
  else set_status c ExpectedBehaviorViolated ReasonUrgent.

Definition RefreshExpectedBehaviorEvaluationForCommit (ev : ExpectedBehaviorEvaluation) (urgent : bool)
    (now : Time) : ExpectedBehaviorEvaluation :=
  let matched := bool_decide (ev_Disposition ev = DispositionMatched) in
  if urgent then
    refreshed ev DispositionViolated ReasonUrgent None (overridden <$> Candidates ev) now
  else if matched && match ev_EvidenceExpiresAt ev with Some t => negb (Before now t) | None => false end then
    refreshed ev DispositionAuthorityUnavailable ReasonObservationUnavailable (ev_Occurrence ev)
      (Candidates ev) now
  else if matched && match ev_Occurrence ev with Some o => negb (Before now (Boundary o)) | None => false end then
    refreshed ev DispositionViolated
      match ev_Occurrence ev with
      | Some o => if Equal (Boundary o) (occ_End o) then ReasonOutsideSchedule else ReasonDurationExceeded
      | None => ReasonNone
      end (ev_Occurrence ev) (Candidates ev) now
  else
    {| ev_Disposition := ev_Disposition ev; ev_Reason := ev_Reason ev;
       ChosenEnvelopeID := ChosenEnvelopeID ev; ChosenVersion := ChosenVersion ev;
       ev_Occurrence := ev_Occurrence ev; ev_EvidenceExpiresAt := ev_EvidenceExpiresAt ev;
       Candidates := Candidates ev; EvaluatedAt := now |}.

(** ** What a match rests on *)

Section matched.
Context (labels_text : gmap string string → string) (zones : string → option (Time → Duration)).

#[local] Abbreviation key := (expectedBehaviorBindingSignalKey labels_text).
#[local] Abbreviation identity := (expectedBehaviorSignalIdentity labels_text).
#[local] Abbreviation observations := (observed_map labels_text).

(** A binding seen fresh, at the version the operator confirmed. *)
Definition seen (inp : ExpectedBehaviorInput) (b : ExpectedBehaviorBinding) (o : ExpectedBehaviorSignal)
    : Prop :=
  observations (ei_Observations inp) !! key b = Some o ∧ fresh (ei_Now inp) o = true ∧
  expectedBehaviorSignalVersion o = expectedBehaviorBindingVersion b.

(** A primary rule that is firing with fresh evidence. *)
Definition primary_firing (inp : ExpectedBehaviorInput) : Prop :=
  ei_PrimaryPresence inp = "present" ∧
  ∃ s, find (is_primary_rule inp) (FiringSignals inp) = Some s ∧ (ei_Now inp < sg_ExpiresAt s)%Z.

(** Everything the operator's policy asks for holds now. *)
Record covered (inp : ExpectedBehaviorInput) (h : ExpectedBehaviorHead) (policy : ExpectedBehaviorPolicy)
    (occ : ExpectedBehaviorOccurrence) : Prop := {
  cv_authority : eh_Revoked h = false ∧ eh_InvalidatedAt h = None ∧ eh_Policy h = Some policy;
  cv_scope : sc_GroupKey (ep_Scope policy) = ei_GroupKey inp ∧ sc_Source (ep_Scope policy) = ei_Source inp ∧
             sc_SourceInstanceID (ep_Scope policy) = ei_SourceInstanceID inp ∧
             expectedBehaviorScopeMatches (ep_Scope policy) inp = true;
  cv_calm : HasCriticalFiring inp = false ∧ IndependentlyUrgent inp = false;
  cv_version : let want := if is_alertmanager (ep_Scope policy) then sc_PrimaryRuleVersion (ep_Scope policy)
                           else sc_PrimaryTriggerVersion (ep_Scope policy) in
               want ≠ "" ∧ want = (if is_alertmanager (ep_Scope policy) then ei_PrimaryRuleVersion inp
                                   else ei_PrimaryVersion inp);
  cv_primary : is_alertmanager (ep_Scope policy) = true → primary_firing inp;
  cv_occurrence : ResolveExpectedBehaviorOccurrence zones (ec_Schedule (ep_Conditions policy))
                    (MaxDurationMinutes (ep_Conditions policy)) (ei_PrimaryStartedAt inp) = Some occ ∧
                  (ei_Now inp < Boundary occ)%Z;
  cv_required : ∀ b, b ∈ RequiredCompanions (ep_Conditions policy) →
                  ∃ o, seen inp b o ∧ sg_Presence o = "present";
  cv_forbidden : ∀ b, b ∈ ForbiddenSignals (ep_Conditions policy) →
                   ∃ o, seen inp b o ∧ sg_Presence o ≠ "present";
  cv_allowed : ∀ b, b ∈ AllowedCompanions (ep_Conditions policy) →
                 (∃ o, seen inp b o) ∨
                 expectedBehaviorSignalFiring labels_text (FiringSignals inp) (key b) = false ∧
                 ∀ o, observations (ei_Observations inp) !! key b = Some o → fresh (ei_Now inp) o = false;
  cv_firing : ∀ s, s ∈ FiringSignals inp →
                is_primary inp s = true ∨ ∃ b, b ∈ listed (ep_Conditions policy) ∧ key b = identity s
}.

(** *** Gates *)

Lemma gate_ok {A} b (c : ExpectedBehaviorCandidate) (k : gated A) x :
  gate b (Err c) k = Ok x ↔ b = false ∧ k = Ok x.
Proof. unfold gate. destruct b; naive_solver. Qed.

Lemma bind_ok {A B} (m : gated A) (k : A → gated B) x :
  res_bind m k = Ok x ↔ ∃ a, m = Ok a ∧ k a = Ok x.
Proof. destruct m; simpl; naive_solver. Qed.

(** An acceptance condition [ok] of a step that does not depend on what came
    before decides the whole loop. *)
Definition succeeds {A} (m : gated A) : Prop := ∃ a, m = Ok a.

Lemma succeeds_ok {A} (a : A) : succeeds (Ok a) ↔ True.
Proof. split; [done|by eexists]. Qed.

Lemma succeeds_err {A} (c : ExpectedBehaviorCandidate) : succeeds (Err c : gated A) ↔ False.
Proof. split; [by intros []|done]. Qed.

Lemma steps_ok f (ok : ExpectedBehaviorBinding → Prop) :
  (∀ acc b, succeeds (f acc b) ↔ ok b) →
  ∀ bs acc, succeeds (steps f acc bs) ↔ ∀ b, b ∈ bs → ok b.
Proof.
  intros Hf. induction bs as [|b bs IH]; intros acc; simpl.
  { rewrite succeeds_ok. split; [|done]. intros _ b Hb. by apply elem_of_nil in Hb. }
  setoid_rewrite elem_of_cons. specialize (Hf acc b). destruct (f acc b) as [acc'|c]; simpl.
  - rewrite IH. rewrite succeeds_ok in Hf. naive_solver.
  - rewrite succeeds_err in Hf |- *. naive_solver.
Qed.

Lemma use_ok b o acc :
  succeeds (use_observation b o acc) ↔ expectedBehaviorSignalVersion o = expectedBehaviorBindingVersion b.
Proof.
  unfold use_observation, gate, violated, str_eqb. destruct (String.eqb _ _) eqn:E; simpl.
  - apply String.eqb_eq in E. by rewrite succeeds_ok.
  - apply String.eqb_neq in E. by rewrite succeeds_err.
Qed.

Lemma seen_some inp b o :
  observations (ei_Observations inp) !! key b = Some o →
  (∃ o', seen inp b o') ↔ fresh (ei_Now inp) o = true ∧
                           expectedBehaviorSignalVersion o = expectedBehaviorBindingVersion b.
Proof.
  intros Ho. unfold seen. split.
  - intros (o' & Ho' & ?). by simplify_eq.
  - intros H. by exists o.
Qed.

Lemma mandatory_ok inp acc b :
  succeeds (mandatory_step labels_text inp (observations (ei_Observations inp)) acc b) ↔ ∃ o, seen inp b o.
Proof.
  unfold mandatory_step, gate, unavailable. destruct (_ !! _) as [o|] eqn:Ho.
  - rewrite (seen_some inp b o Ho).
    destruct (fresh (ei_Now inp) o); simpl; rewrite ?use_ok, ?succeeds_err; naive_solver.
  - rewrite succeeds_err. split; [done|]. intros (o & H & _). congruence.
Qed.

Lemma allowed_ok inp acc b :
  succeeds (allowed_step labels_text inp (observations (ei_Observations inp)) acc b) ↔
  (∃ o, seen inp b o) ∨
  expectedBehaviorSignalFiring labels_text (FiringSignals inp) (key b) = false ∧
  ∀ o, observations (ei_Observations inp) !! key b = Some o → fresh (ei_Now inp) o = false.
Proof.
  unfold allowed_step, gate, unavailable. cbv zeta. destruct (_ !! _) as [o|] eqn:Ho.
  - rewrite (seen_some inp b o Ho). destruct (fresh (ei_Now inp) o) eqn:Ef.
    + rewrite use_ok. split; [by left; split|]. intros [[_ ?]|[_ Hf]]; [done|]. specialize (Hf o eq_refl). congruence.
    + destruct (expectedBehaviorSignalFiring _ _ _); rewrite ?succeeds_err, ?succeeds_ok; split; try done.
      * by intros [[]|[]].
      * intros _. right. split; [done|]. intros o' [= <-]. done.
  - destruct (expectedBehaviorSignalFiring _ _ _); rewrite ?succeeds_err, ?succeeds_ok; split; try done.
    + intros [(o & H & _)|[]]; congruence.
    + intros _. right. split; [done|]. intros o' [=].
Qed.

Lemma present_spec inp b :
  present labels_text (observations (ei_Observations inp)) b = true ↔
  ∃ o, observations (ei_Observations inp) !! key b = Some o ∧ sg_Presence o = "present".
Proof.
  unfold present. destruct (_ !! _) as [o|]; [|naive_solver].
  unfold str_eqb. rewrite String.eqb_eq. naive_solver.
Qed.

Lemma succeeds_bind {A B} (m : gated A) (k : A → gated B) (P : Prop) :
  (∀ a, succeeds (k a) ↔ P) → succeeds (res_bind m k) ↔ succeeds m ∧ P.
Proof.
  intros Hk. destruct m as [a|c]; simpl; rewrite ?Hk, ?succeeds_ok, ?succeeds_err; tauto.
Qed.

Lemma succeeds_gate {A} b (c : ExpectedBehaviorCandidate) (k : gated A) :
  succeeds (gate b (Err c) k) ↔ b = false ∧ succeeds k.
Proof. unfold gate. destruct b; rewrite ?succeeds_err; naive_solver. Qed.

(** *** When a candidate matches *)

Lemma existsb_false_iff {A} (f : A → bool) l : existsb f l = false ↔ ∀ x, x ∈ l → f x = false.
Proof.
  rewrite <- not_true_iff_false, existsb_exists. setoid_rewrite <- not_true_iff_false.
  setoid_rewrite list_elem_of_In. naive_solver.
Qed.

Lemma forallb_iff {A} (f : A → bool) l : forallb f l = true ↔ ∀ x, x ∈ l → f x = true.
Proof. rewrite forallb_forall. by setoid_rewrite list_elem_of_In. Qed.

(** The last three gates. *)
Definition settled (inp : ExpectedBehaviorInput) (cond : ExpectedBehaviorConditions) : Prop :=
  let observed := observations (ei_Observations inp) in
  (∀ b, b ∈ RequiredCompanions cond → present labels_text observed b = true) ∧
  (∀ b, b ∈ ForbiddenSignals cond → present labels_text observed b = false) ∧
  (∀ s, s ∈ FiringSignals inp → is_primary inp s = true ∨ ∃ b, b ∈ listed cond ∧ key b = identity s).

Lemma listed_ok inp cond s :
  negb (is_primary inp s) && negb (existsb (λ b, str_eqb (key b) (identity s)) (listed cond)) = false ↔
  is_primary inp s = true ∨ ∃ b, b ∈ listed cond ∧ key b = identity s.
Proof.
  rewrite andb_false_iff, !negb_false_iff, existsb_exists.
  setoid_rewrite <- list_elem_of_In. unfold str_eqb. by setoid_rewrite String.eqb_eq.
Qed.

Lemma companions_ok inp cond acc :
  succeeds (companion_gates labels_text inp cond acc) ↔
  (∀ b, b ∈ RequiredCompanions cond ++ ForbiddenSignals cond → ∃ o, seen inp b o) ∧
  (∀ b, b ∈ AllowedCompanions cond →
     (∃ o, seen inp b o) ∨
     expectedBehaviorSignalFiring labels_text (FiringSignals inp) (key b) = false ∧
     ∀ o, observations (ei_Observations inp) !! key b = Some o → fresh (ei_Now inp) o = false) ∧
  settled inp cond.
Proof.
  unfold companion_gates, violated. cbv zeta.
  rewrite (succeeds_bind _ _ ((∀ b, b ∈ AllowedCompanions cond →
     (∃ o, seen inp b o) ∨
     expectedBehaviorSignalFiring labels_text (FiringSignals inp) (key b) = false ∧
     ∀ o, observations (ei_Observations inp) !! key b = Some o → fresh (ei_Now inp) o = false) ∧
  settled inp cond)); [by rewrite (steps_ok _ _ (mandatory_ok inp))|].
  intros acc'. rewrite (succeeds_bind _ _ (settled inp cond)); [by rewrite (steps_ok _ _ (allowed_ok inp))|].
  intros acc''. rewrite !succeeds_gate, succeeds_ok. unfold settled.
  rewrite negb_false_iff, forallb_iff, !existsb_false_iff. setoid_rewrite listed_ok. tauto.
Qed.

Lemma seen_present inp b :
  (∃ o, seen inp b o) ∧ present labels_text (observations (ei_Observations inp)) b = true ↔
  ∃ o, seen inp b o ∧ sg_Presence o = "present".
Proof.
  rewrite present_spec. unfold seen. split.
  - intros [(o & Ho & ? & ?) (o' & Ho' & ?)]. rewrite Ho in Ho'. injection Ho' as ->. by exists o'.
  - intros (o & (? & ? & ?) & ?). split; by exists o.
Qed.

Lemma seen_absent inp b :
  (∃ o, seen inp b o) ∧ present labels_text (observations (ei_Observations inp)) b = false ↔
  ∃ o, seen inp b o ∧ sg_Presence o ≠ "present".
Proof.
  rewrite <- not_true_iff_false, present_spec. unfold seen. split.
  - intros [(o & Ho & ? & ?) Hn]. exists o. split; [done|]. intros Hp. apply Hn. by exists o.
  - intros (o & (Ho & ? & ?) & Hn). split; [by exists o|]. intros (o' & Ho' & ?).
    rewrite Ho in Ho'. by simplify_eq.
Qed.

Lemma After_iff t u : After t u = true ↔ (u < t)%Z.
Proof. apply Z.ltb_lt. Qed.

Lemma primary_ok inp scope c :
  succeeds (primary_evidence inp scope c) ↔ (is_alertmanager scope = true → primary_firing inp).
Proof.
  unfold primary_evidence, primary_firing, unavailable, violated, gate.
  destruct (is_alertmanager scope); cbn [negb]; [|by rewrite succeeds_ok].
  destruct (str_eqb (ei_PrimaryPresence inp) "present") eqn:Ep; cbn [negb].
  - apply String.eqb_eq in Ep. destruct (find _ _) as [sg|].
    + destruct (After _ _) eqn:Ea; cbn [negb]; rewrite ?succeeds_ok, ?succeeds_err.
      * apply After_iff in Ea. split; [|done]. intros _ _. split; [done|]. by exists sg.
      * rewrite <- not_true_iff_false, After_iff in Ea. split; [done|]. intros H.
        destruct (H eq_refl) as (_ & s' & [= <-] & ?). done.
    + rewrite succeeds_err. split; [done|]. intros H. by destruct (H eq_refl) as (_ & s' & ? & ?).
  - apply String.eqb_neq in Ep. destruct (_ || _); rewrite succeeds_err; split; try done;
      intros H; by destruct (H eq_refl).
Qed.

Lemma candidate_ok inp h :
  succeeds (candidate_gates labels_text zones inp h) ↔ ∃ policy occ, covered inp h policy occ.
Proof.
  unfold candidate_gates, no_candidate, violated, unavailable. cbv zeta.
  rewrite succeeds_gate. 
  destruct (eh_InvalidatedAt h) eqn:Ei; [|destruct (eh_Policy h) as [policy|] eqn:Ep].
  1, 3: rewrite succeeds_err; split; [tauto|]; intros (policy' & occ & [(? & ? & ?)]); congruence.
  rewrite !succeeds_gate.
  rewrite (succeeds_bind _ _ (∃ occ, 
    ResolveExpectedBehaviorOccurrence zones (ec_Schedule (ep_Conditions policy))
                    (MaxDurationMinutes (ep_Conditions policy)) (ei_PrimaryStartedAt inp) = Some occ ∧
                  (ei_Now inp < Boundary occ)%Z ∧ 
    (∀ b, b ∈ RequiredCompanions (ep_Conditions policy) ++ ForbiddenSignals (ep_Conditions policy) →
       ∃ o, seen inp b o) ∧
  (∀ b, b ∈ AllowedCompanions (ep_Conditions policy) →
     (∃ o, seen inp b o) ∨
     expectedBehaviorSignalFiring labels_text (FiringSignals inp) (key b) = false ∧
     ∀ o, observations (ei_Observations inp) !! key b = Some o → fresh (ei_Now inp) o = false) ∧
  settled inp (ep_Conditions policy))).
  2: { intros [c t]. destruct (ResolveExpectedBehaviorOccurrence _ _ _ _) as [occ|]; 
       [|rewrite succeeds_err; naive_solver].
       rewrite succeeds_gate, companions_ok. unfold Before. rewrite negb_false_iff, Z.ltb_lt. naive_solver. }
  rewrite primary_ok. rewrite !orb_false_iff, !negb_false_iff. unfold str_eqb.
  rewrite !String.eqb_eq, String.eqb_neq. unfold settled.
  split.
  - intros (Hr & ((((? & ?) & ?) & ?) & (? & ?) & ? & ? & ? & occ & ? & ? & Hm & Ha & Hreq & Hforb & Hs)).
    exists policy, occ. constructor; try done.
    + cbv zeta. split; congruence.
    + intros b Hb. apply seen_present. split; [|by apply Hreq]. apply Hm, elem_of_app. by left.
    + intros b Hb. apply seen_absent. split; [|by apply Hforb]. apply Hm, elem_of_app. by right.
  - intros (p & occ & [(? & ? & Hp) (?&?&?&?) (?&?) [Hw Hv] ? (?&?) Hreq Hforb Ha Hs]).
    rewrite Ep in Hp. injection Hp as <-. split; [done|]. split_and!; try done.
    + by rewrite <- Hv.
    + exists occ. split_and!; try done.
      * intros b [Hb|Hb]%elem_of_app; [destruct (Hreq b Hb) as (o & ? & _)|destruct (Hforb b Hb) as (o & ? & _)]; by exists o.
      * intros b Hb. apply seen_present. by apply Hreq.
      * intros b Hb. apply seen_absent. by apply Hforb.
Qed.

(** *** How long the evidence lasts *)

#[local] Abbreviation state := (ExpectedBehaviorCandidate * Time)%type.

(** From one state of the loop to the next: the same envelope, version and
    occurrence, and an expiry that only moves earlier and stays ahead of now. *)
Definition narrows (now : Time) (acc acc' : state) : Prop :=
  ca_EnvelopeID acc'.1 = ca_EnvelopeID acc.1 ∧ ca_Version acc'.1 = ca_Version acc.1 ∧
  ca_Occurrence acc'.1 = ca_Occurrence acc.1 ∧
  (acc'.2 = time_zero ∨ (now < acc'.2)%Z) ∧ (acc.2 ≠ time_zero → acc'.2 ≤ acc.2 ∧ acc'.2 ≠ time_zero)%Z.

Definition live (now : Time) (acc : state) : Prop := acc.2 = time_zero ∨ (now < acc.2)%Z.

Lemma narrows_refl now acc : live now acc → narrows now acc acc.
Proof. unfold narrows, live. intuition lia. Qed.

Lemma narrows_trans now acc acc' acc'' : narrows now acc acc' → narrows now acc' acc'' → narrows now acc acc''.
Proof. unfold narrows. intuition (try congruence; lia). Qed.

Lemma narrows_live now acc acc' : narrows now acc acc' → live now acc'.
Proof. unfold narrows, live. tauto. Qed.

(** A bound on the expiry of the loop's state. *)
Definition within (inp : ExpectedBehaviorInput) (b : ExpectedBehaviorBinding) (acc : state) : Prop :=
  ∀ o, seen inp b o → (ei_Now inp < acc.2 ≤ sg_ExpiresAt o)%Z.

Lemma within_narrows inp b acc acc' :
  (0 ≤ ei_Now inp)%Z → within inp b acc → narrows (ei_Now inp) acc acc' → within inp b acc'.
Proof.
  unfold within, narrows, time_zero. intros ? Hw (_ & _ & _ & Hl & Hn) o Ho. specialize (Hw o Ho). lia.
Qed.

Lemma use_result inp b o acc acc' :
  (0 ≤ ei_Now inp)%Z → observations (ei_Observations inp) !! key b = Some o →
  fresh (ei_Now inp) o = true → live (ei_Now inp) acc → use_observation b o acc = Ok acc' →
  narrows (ei_Now inp) acc acc' ∧ within inp b acc'.
Proof.
  unfold use_observation, fresh, After, live, narrows, within, seen, time_zero.
  intros H0 Ho [_ Hf]%andb_true_iff Hl [_ [= <-]]%gate_ok. cbn [fst snd]. apply Z.ltb_lt in Hf.
  unfold IsZero, Before. split.
  - split_and!; [done..| |]; destruct (Z.eqb_spec acc.2 0), (Z.ltb_spec (sg_ExpiresAt o) acc.2); cbn [orb]; lia.
  - intros o' (Ho' & _). rewrite Ho in Ho'. injection Ho' as <-.
    destruct (Z.eqb_spec acc.2 0), (Z.ltb_spec (sg_ExpiresAt o) acc.2); cbn [orb]; lia.
Qed.

Lemma mandatory_result inp b acc acc' :
  (0 ≤ ei_Now inp)%Z → live (ei_Now inp) acc →
  mandatory_step labels_text inp (observations (ei_Observations inp)) acc b = Ok acc' →
  narrows (ei_Now inp) acc acc' ∧ within inp b acc'.
Proof.
  unfold mandatory_step, unavailable. intros H0 Hl. destruct (_ !! _) as [o|] eqn:Ho; [|done].
  intros [Hf%negb_false_iff Hu]%gate_ok. by eapply use_result.
Qed.

Lemma allowed_result inp b acc acc' :
  (0 ≤ ei_Now inp)%Z → live (ei_Now inp) acc →
  allowed_step labels_text inp (observations (ei_Observations inp)) acc b = Ok acc' →
  narrows (ei_Now inp) acc acc' ∧ within inp b acc'.
Proof.
  unfold allowed_step, unavailable. cbv zeta. intros H0 Hl.
  destruct (_ !! _) as [o|] eqn:Ho; [destruct (fresh (ei_Now inp) o) eqn:Hf; [by eapply use_result|]|];
    intros [_ [= <-]]%gate_ok; (split; [by apply narrows_refl|]); intros o' (Ho' & Hf' & _); congruence.
Qed.

Lemma steps_result inp f :
  (0 ≤ ei_Now inp)%Z →
  (∀ acc b acc', live (ei_Now inp) acc → f acc b = Ok acc' → narrows (ei_Now inp) acc acc' ∧ within inp b acc') →
  ∀ bs acc acc', live (ei_Now inp) acc → steps f acc bs = Ok acc' →
  narrows (ei_Now inp) acc acc' ∧ ∀ b, b ∈ bs → within inp b acc'.
Proof.
  intros H0 Hf. induction bs as [|b bs IH]; intros acc acc' Hl; simpl.
  - intros [= <-]. split; [by apply narrows_refl|]. intros b Hb. by apply elem_of_nil in Hb.
  - intros (a & Ha & Hs)%bind_ok. apply Hf in Ha as [Hn Hw]; [|done].
    apply IH in Hs as [Hn' Hw']; [|by eapply narrows_live]. split; [by eapply narrows_trans|].
    intros b' [->|Hb]%elem_of_cons; [by eapply within_narrows|by apply Hw'].
Qed.

Lemma companions_result inp cond acc acc' :
  (0 ≤ ei_Now inp)%Z → live (ei_Now inp) acc → companion_gates labels_text inp cond acc = Ok acc' →
  narrows (ei_Now inp) acc acc' ∧ ∀ b, b ∈ listed cond → within inp b acc'.
Proof.
  intros H0 Hl (a & Hm & (a' & Ha & [_ [_ [_ [= <-]]%gate_ok]%gate_ok]%gate_ok)%bind_ok)%bind_ok.
  eapply steps_result in Hm as [Hn Hw]; [|done|by intros ????; apply mandatory_result|done].
  eapply steps_result in Ha as [Hn' Hw']; [|done|by intros ????; apply allowed_result|by eapply narrows_live].
  split; [by eapply narrows_trans|]. unfold listed. intros b. rewrite !elem_of_app. intros Hb.
  destruct Hb as [Hb|[Hb|Hb]].
  - eapply within_narrows; [done| |done]. apply Hw, elem_of_app. by left.
  - by apply Hw'.
  - eapply within_narrows; [done| |done]. apply Hw, elem_of_app. by right.
Qed.

Lemma primary_result inp scope c acc :
  primary_evidence inp scope c = Ok acc →
  live (ei_Now inp) acc ∧ ca_EnvelopeID acc.1 = ca_EnvelopeID c ∧ ca_Version acc.1 = ca_Version c ∧
  ∀ s, is_alertmanager scope = true → find (is_primary_rule inp) (FiringSignals inp) = Some s →
       acc.2 = sg_ExpiresAt s ∧ (ei_Now inp < acc.2)%Z.
Proof.
  unfold primary_evidence, unavailable, violated, live. destruct (is_alertmanager scope); cbn [negb].
  - destruct (_ || _); intros [_ H]%gate_ok; destruct (find _ _) as [sg|]; try done;
      apply gate_ok in H as [Ha%negb_false_iff%After_iff [= <-]]; cbn [fst snd];
      (split_and!; [by right|done|done|]); intros s _ [= <-]; by split.
  - intros [= <-]. split_and!; [by left|done..].
Qed.

(** What holds of the evidence of a match, until [t]. *)
Definition lasts (inp : ExpectedBehaviorInput) (policy : ExpectedBehaviorPolicy) (t : Time) : Prop :=
  (∀ b o, b ∈ listed (ep_Conditions policy) → seen inp b o → ei_Now inp < t ≤ sg_ExpiresAt o)%Z ∧
  (∀ s, is_alertmanager (ep_Scope policy) = true → find (is_primary_rule inp) (FiringSignals inp) = Some s →
        ei_Now inp < t ≤ sg_ExpiresAt s)%Z.

Lemma candidate_result inp h policy occ acc :
  (0 ≤ ei_Now inp)%Z → covered inp h policy occ → candidate_gates labels_text zones inp h = Ok acc →
  ca_EnvelopeID acc.1 = eh_EnvelopeID h ∧ ca_Version acc.1 = eh_Version h ∧
  ca_Occurrence acc.1 = Some occ ∧ lasts inp policy acc.2.
Proof.
  intros H0 [(_ & Hi & Hp) _ _ _ _ [Ho _] _ _ _ _]. unfold candidate_gates, violated. rewrite Hi, Hp. cbv zeta.
  intros [_ [_ [_ [_ [_ ([c t] & Hq & H)%bind_ok]%gate_ok]%gate_ok]%gate_ok]%gate_ok]%gate_ok.
  rewrite Ho in H. apply gate_ok in H as [_ H].
  apply primary_result in Hq as (Hl & Hid & Hv & Hf). cbn [fst snd] in *.
  apply companions_result in H as [(Hid' & Hv' & Ho' & Hl' & Hn) Hw]; [|done|done]. cbn [fst snd] in *.
  split_and!.
  - by rewrite Hid'.
  - by rewrite Hv'.
  - by rewrite Ho'.
  - split; [intros b o Hb Hs; by apply (Hw b Hb)|]. intros s Ha Hs. destruct (Hf s Ha Hs) as [-> Hlt].
    unfold time_zero in *. lia.
Qed.
End matched.

(** ** The candidate's verdict *)

Section verdict.
Context (labels_text : gmap string string → string) (zones : string → option (Time → Duration)).

Lemma use_err b o acc c : use_observation b o acc = Err c →
  ca_EnvelopeID c = ca_EnvelopeID acc.1 ∧ ca_Status c ≠ ExpectedBehaviorMatched.
Proof. unfold use_observation, gate, violated. destruct (negb _); [|done]. by intros [= <-]. Qed.

Lemma use_id b o acc acc' : use_observation b o acc = Ok acc' → ca_EnvelopeID acc'.1 = ca_EnvelopeID acc.1.
Proof. unfold use_observation. by intros [_ [= <-]]%gate_ok. Qed.

(** A step keeps the envelope, and an error it ends with is no match. *)
Definition proper_step (acc : ExpectedBehaviorCandidate * Time) (m : gated (ExpectedBehaviorCandidate * Time)) : Prop :=
  match m with
  | Ok acc' => ca_EnvelopeID acc'.1 = ca_EnvelopeID acc.1
  | Err c => ca_EnvelopeID c = ca_EnvelopeID acc.1 ∧ ca_Status c ≠ ExpectedBehaviorMatched
  end.

Lemma proper_use b o acc : proper_step acc (use_observation b o acc).
Proof.
  unfold proper_step. destruct (use_observation b o acc) eqn:E; [by apply use_id in E|by apply use_err in E].
Qed.

Lemma proper_bind acc m k :
  proper_step acc m → (∀ acc', proper_step acc' (k acc')) → proper_step acc (res_bind m k).
Proof.
  intros Hm Hk. destruct m as [a|c]; simpl in *; [|done]. specialize (Hk a). unfold proper_step in *.
  destruct (k a); by rewrite <- Hm.
Qed.

Lemma proper_gate acc b m k : proper_step acc m → proper_step acc k → proper_step acc (gate b m k).
Proof. unfold gate. by destruct b. Qed.

Lemma proper_violated acc r : proper_step acc (violated acc.1 r).
Proof. done. Qed.
Lemma proper_unavailable acc r : proper_step acc (unavailable acc.1 r).
Proof. done. Qed.
Lemma proper_ok acc : proper_step acc (Ok acc).
Proof. done. Qed.

#[local] Hint Resolve proper_use proper_gate proper_violated proper_unavailable proper_ok : core.

Lemma proper_steps f : (∀ acc b, proper_step acc (f acc b)) → ∀ bs acc, proper_step acc (steps f acc bs).
Proof. intros Hf. induction bs as [|b bs IH]; intros acc; simpl; [done|]. by apply proper_bind. Qed.

Lemma proper_mandatory inp obs acc b : proper_step acc (mandatory_step labels_text inp obs acc b).
Proof. unfold mandatory_step. destruct (_ !! _); auto. Qed.

Lemma proper_allowed inp obs acc b : proper_step acc (allowed_step labels_text inp obs acc b).
Proof. unfold allowed_step. destruct (_ !! _); [destruct (fresh _ _)|]; auto. Qed.

Lemma proper_companions inp cond acc : proper_step acc (companion_gates labels_text inp cond acc).
Proof.
  unfold companion_gates. cbv zeta. apply proper_bind; [apply proper_steps, proper_mandatory|].
  intros a. apply proper_bind; [apply proper_steps, proper_allowed|]. intros a'. auto.
Qed.

Lemma proper_primary inp scope c : proper_step (c, time_zero) (primary_evidence inp scope c).
Proof.
  unfold primary_evidence. destruct (negb _); [done|]. apply proper_gate; [by destruct (_ || _)|].
  destruct (find _ _); [by apply proper_gate|done].
Qed.

Lemma gates_proper inp h : proper_step (candidate_zero h, time_zero) (candidate_gates labels_text zones inp h).
Proof.
  unfold candidate_gates. cbv zeta. apply proper_gate; [done|].
  destruct (eh_InvalidatedAt h); [done|]. destruct (eh_Policy h) as [policy|]; [|done].
  repeat (apply proper_gate; [done|]). apply proper_bind; [apply proper_primary|]. intros [c t].
  destruct (ResolveExpectedBehaviorOccurrence _ _ _ _) as [occ|]; [|done].
  apply proper_gate; [done|].
  generalize (proper_companions inp (ep_Conditions policy) (with_occurrence c occ, t)).
  unfold proper_step. by destruct (companion_gates _ _ _ _).
Qed.

Lemma candidate_id inp h : ca_EnvelopeID (evaluateExpectedBehaviorCandidate labels_text zones inp h) = eh_EnvelopeID h.
Proof.
  generalize (gates_proper inp h). unfold evaluateExpectedBehaviorCandidate, proper_step.
  destruct (candidate_gates _ _ _ _) as [[c t]|c]; [done|tauto].
Qed.

Lemma candidate_matched inp h :
  ca_Status (evaluateExpectedBehaviorCandidate labels_text zones inp h) = ExpectedBehaviorMatched ↔
  ∃ policy occ, covered labels_text zones inp h policy occ.
Proof.
  rewrite <- candidate_ok. generalize (gates_proper inp h). unfold evaluateExpectedBehaviorCandidate, proper_step.
  destruct (candidate_gates _ _ _ _) as [[c t]|c]; rewrite ?succeeds_ok, ?succeeds_err; [done|tauto].
Qed.

(** A candidate is matched exactly when every clause of the operator's
    policy holds now: the authority stands, the scope is this Situation's, no
    urgent signal fires, the rule is the version the operator confirmed, the
    start of the incident falls on an occurrence of the schedule whose boundary
    is ahead, every required companion is seen present and every forbidden
    signal seen absent with evidence that is still fresh, and nothing fires
    that the policy does not list.  A matched candidate names the envelope and
    that occurrence, and the expiry it is given is ahead of now and no later
    than that of any evidence it rests on. *)
Theorem evaluateExpectedBehaviorCandidate_spec inp h :
  (0 ≤ ei_Now inp)%Z →
  let c := evaluateExpectedBehaviorCandidate labels_text zones inp h in
  (ca_Status c = ExpectedBehaviorMatched ↔ ∃ policy occ, covered labels_text zones inp h policy occ) ∧
  ca_EnvelopeID c = eh_EnvelopeID h ∧
  ∀ policy occ, covered labels_text zones inp h policy occ →
    ca_Version c = eh_Version h ∧ ca_Occurrence c = Some occ ∧
    ∃ t, ca_EvidenceExpiresAt c = (if IsZero t then None else Some t) ∧ lasts labels_text inp policy t.
Proof.
  intros H0 c. split; [apply candidate_matched|]. split; [apply candidate_id|].
  intros policy occ Hc. assert (Hs : succeeds (candidate_gates labels_text zones inp h)).
  { apply candidate_ok. by exists policy, occ. }
  destruct Hs as [[c' t] Hs]. destruct (candidate_result labels_text zones inp h policy occ _ H0 Hc Hs) as (_ & Hv & Ho & Hl).
  subst c. unfold evaluateExpectedBehaviorCandidate. rewrite Hs. cbn [fst snd] in *.
  split; [done|]. split; [done|]. exists t. by split.
Qed.
End verdict.

(** ** The evaluation *)

Section evaluation.
Context (labels_text : gmap string string → string) (zones : string → option (Time → Duration)).

Lemma sorted_find {A} (less : A → A → bool) (f : A → bool) l x :
  StronglySorted (λ a b, less b a = false) l → find f l = Some x →
  ∀ y, y ∈ l → f y = true → y = x ∨ less y x = false.
Proof.
  induction l as [|a l IH]; [done|]. intros Hs. apply StronglySorted_inv in Hs as [Hs Ha]. simpl.
  destruct (f a) eqn:Ef.
  - intros [= <-] y [->|Hy]%elem_of_cons _; [by left|]. right. by rewrite Forall_forall in Ha; apply Ha.
  - intros Hf y [->|Hy]%elem_of_cons Hfy; [congruence|]. by apply IH.
Qed.

Lemma find_fmap {A B} (g : A → B) (f : B → bool) l : find f (g <$> l) = g <$> find (f ∘ g) l.
Proof. induction l as [|a l IH]; simpl; [done|]. destruct (f (g a)); [done|apply IH]. Qed.

Lemma find_none_iff {A} (f : A → bool) l : find f l = None ↔ ∀ x, x ∈ l → f x = false.
Proof.
  split.
  - intros Hn x Hx. eapply find_none; [done|]. by apply list_elem_of_In.
  - intros H. destruct (find f l) as [x|] eqn:E; [|done]. apply find_some in E as [Hx%list_elem_of_In Hf].
    rewrite H in Hf; done.
Qed.

#[local] Abbreviation verdict := (evaluateExpectedBehaviorCandidate labels_text zones).
#[local] Abbreviation evaluate_all := (EvaluateExpectedBehaviors labels_text zones).

Lemma has_status_iff s c : has_status s c = true ↔ ca_Status c = s.
Proof. unfold has_status. by rewrite bool_decide_eq_true. Qed.

(** The first candidate with a status, in the order of the envelopes. *)
Lemma find_status inp s :
  match find (has_status s) (verdict inp <$> SliceStable (skey_ltb eh_EnvelopeID) (Heads inp)) with
  | Some c => ∃ h, h ∈ Heads inp ∧ c = verdict inp h ∧ ca_Status c = s ∧
      ∀ h', h' ∈ Heads inp → ca_Status (verdict inp h') = s → String.le (eh_EnvelopeID h) (eh_EnvelopeID h')
  | None => ∀ h, h ∈ Heads inp → ca_Status (verdict inp h) ≠ s
  end.
Proof.
  pose proof (SliceStable_sorted (skey_ltb eh_EnvelopeID) (Heads inp)) as Hs.
  pose proof (SliceStable_perm (skey_ltb eh_EnvelopeID) (Heads inp)) as Hp.
  rewrite find_fmap. destruct (find _ _) as [h|] eqn:E; cbn [fmap option_fmap option_map].
  - pose proof (find_some _ _ E) as [Hh%list_elem_of_In Hst%has_status_iff]. exists h.
    split; [by rewrite <- Hp|]. split; [done|]. split; [done|]. intros h' Hh' Hst'.
    destruct (sorted_find _ _ _ _ Hs E h') as [->|Hle]; [by rewrite Hp|by apply has_status_iff|done|].
    by apply str_ltb_false.
  - rewrite find_none_iff in E. intros h Hh Hst. rewrite <- Hp in Hh. specialize (E h Hh). simpl in E.
    apply has_status_iff in Hst. congruence.
Qed.

(** C26. The evaluation is matched exactly when some head of the operator covers
    the incident, and then it names the first such envelope, its version, its
    occurrence and the expiry of its evidence; with no covering head it is
    unavailable when some candidate lacks evidence and violated only when none
    does, and it names no envelope.  Every head has its candidate in the
    record, and an urgent incident is never matched. *)
Theorem EvaluateExpectedBehaviors_spec inp :
  let ev := evaluate_all inp in
  let covers h := ∃ policy occ, covered labels_text zones inp h policy occ in
  (ev_Disposition ev = DispositionMatched ↔ ∃ h, h ∈ Heads inp ∧ covers h) ∧
  (ev_Disposition ev = DispositionMatched →
     ∃ h, h ∈ Heads inp ∧ covers h ∧ ChosenEnvelopeID ev = eh_EnvelopeID h ∧
          ev_Occurrence ev = ca_Occurrence (verdict inp h) ∧
          ev_EvidenceExpiresAt ev = ca_EvidenceExpiresAt (verdict inp h) ∧
          ∀ h', h' ∈ Heads inp → covers h' → String.le (eh_EnvelopeID h) (eh_EnvelopeID h')) ∧
  (ev_Disposition ev ≠ DispositionMatched → ChosenEnvelopeID ev = "" ∧ ev_Occurrence ev = None) ∧
  (ev_Disposition ev = DispositionAuthorityUnavailable ↔
     ¬ (∃ h, h ∈ Heads inp ∧ covers h) ∧
     ∃ h, h ∈ Heads inp ∧ ca_Status (verdict inp h) = ExpectedBehaviorAuthorityUnavailable) ∧
  Candidates ev ≡ₚ verdict inp <$> Heads inp ∧
  (HasCriticalFiring inp || IndependentlyUrgent inp = true → ev_Disposition ev ≠ DispositionMatched).
Proof.
  intros ev covers.
  assert (Hcov : ∀ h, covers h ↔ ca_Status (verdict inp h) = ExpectedBehaviorMatched)
    by (intros h; symmetry; apply candidate_matched).
  assert (Hperm : Candidates ev ≡ₚ verdict inp <$> Heads inp).
  { assert (Candidates ev = verdict inp <$> SliceStable (skey_ltb eh_EnvelopeID) (Heads inp)) as ->
      by (unfold ev, EvaluateExpectedBehaviors; cbv zeta; by repeat case_match).
    by rewrite SliceStable_perm. }
  assert (Hurgent : HasCriticalFiring inp || IndependentlyUrgent inp = true → ∀ h, ¬ covers h).
  { intros Hu h (policy & occ & [_ _ [H1 H2] _ _ _ _ _ _ _]). by rewrite H1, H2 in Hu. }
  revert ev Hperm. unfold EvaluateExpectedBehaviors. cbv zeta.
  pose proof (find_status inp ExpectedBehaviorMatched) as Hm.
  destruct (find (has_status ExpectedBehaviorMatched) _) as [c|].
  - cbn [ev_Disposition ChosenEnvelopeID ev_Occurrence ev_EvidenceExpiresAt Candidates]. intros Hperm.
    destruct Hm as (h & Hh & -> & Hst & Hleast). apply Hcov in Hst as Hch.
    split_and!; try done.
    + split; [by exists h|done].
    + intros _. exists h. rewrite candidate_id. split_and!; try done. intros h' Hh' Hc'%Hcov. by apply Hleast.
    + split; [done|]. intros [[] _]. by exists h.
    + intros Hu. by destruct (Hurgent Hu h).
  - assert (Hno : ¬ ∃ h, h ∈ Heads inp ∧ covers h)
      by (intros (h & Hh & Hst%Hcov); by destruct (Hm h Hh)).
    pose proof (find_status inp ExpectedBehaviorAuthorityUnavailable) as Hu.
    destruct (find (has_status ExpectedBehaviorAuthorityUnavailable) _) as [c|].
    + destruct Hu as (h & Hh & -> & Hst & _).
      cbn [ev_Disposition ChosenEnvelopeID ev_Occurrence ev_EvidenceExpiresAt Candidates]. intros Hperm.
      split_and!; try done. split; [|done]. intros _. split; [done|]. by exists h.
    + destruct (find (has_status ExpectedBehaviorViolated) _) as [c'|];
        cbn [ev_Disposition ChosenEnvelopeID ev_Occurrence ev_EvidenceExpiresAt Candidates]; intros Hperm;
        split_and!; try done; (split; [done|]); intros [_ (h & Hh & Hst)]; by destruct (Hu h Hh).
Qed.
End evaluation.

(** ** The overlay at the commit *)

Lemma overlay_valid c deadline :
  ActionContract_validate c false = Ok tt → ActionContract_validate (overlay_contract c deadline) false = Ok tt.
Proof.
  unfold ActionContract_validate. rewrite !res_bind_unit. intros (_ & Ha & Hs & _ & Hw & Hon & _ & _).
  unfold overlay_contract. cbn. split_and!; try done.
  - by destruct (AC_AlertINTAction c).
  - by destruct (AC_AlertINTAction c).
  - destruct (AC_NextUpdateAt c) as [t|]; [by destruct (Before deadline t)|done].
Qed.

(** The next update of the overlay: the earlier one. *)
Lemma overlay_next c deadline :
  ∃ t, AC_NextUpdateAt (overlay_contract c deadline) = Some t ∧ (t ≤ deadline)%Z ∧
       (∀ t', AC_NextUpdateAt c = Some t' → t ≤ t')%Z ∧
       ∀ now, (now < deadline)%Z → requireFreshNextUpdateAt c now = Ok tt → (now < t)%Z.
Proof.
  unfold overlay_contract, requireFreshNextUpdateAt, Before, After. cbn [AC_NextUpdateAt].
  destruct (AC_NextUpdateAt c) as [t|].
  - destruct (Z.ltb_spec deadline t); eexists; (split; [done|]); (split; [lia|]);
      (split; [intros ? [= <-]; lia|]); intros now ?; [lia|]. by destruct (Z.ltb_spec now t).
  - exists deadline. split; [done|]. split; [lia|]. split; [done|]. lia.
Qed.

Lemma with_contract_valid a c now :
  Terminal (A_Lifecycle a) = false → Assessment_Validate a now = Ok tt →
  ActionContract_validate c false = Ok tt → requireFreshNextUpdateAt c now = Ok tt →
  Assessment_Validate (with_contract a c) now = Ok tt.
Proof.
  unfold Assessment_Validate, Assessment_validateShape. rewrite !res_bind_unit. intros Ht.
  cbn [with_contract A_SchemaVersion A_Persistence A_Impact A_Novelty A_Causality A_Attention A_Lifecycle
       A_EvidenceQuality A_SufficientReason A_ActionContract A_Limitations A_Cadence].
  rewrite Ht. tauto.
Qed.

(** A valid open Assessment stays valid when its contract is overlaid with a
    deadline that is ahead. *)
Lemma overlaid_valid a deadline now :
  Terminal (A_Lifecycle a) = false → Assessment_Validate a now = Ok tt → (now < deadline)%Z →
  Assessment_Validate (with_contract a (overlay_contract (A_ActionContract a) deadline)) now = Ok tt.
Proof.
  intros Ht Hv Hd. pose proof Hv as Hv'. unfold Assessment_Validate, Assessment_validateShape in Hv'.
  rewrite !res_bind_unit, Ht in Hv'. destruct Hv' as [Hshape Hf].
  apply with_contract_valid; [done|done|apply overlay_valid; tauto|].
  destruct (overlay_next (A_ActionContract a) deadline) as (t & Ht' & _ & _ & Hn).
  unfold requireFreshNextUpdateAt. rewrite Ht'. specialize (Hn now Hd Hf). apply Z.ltb_lt in Hn.
  unfold After. by rewrite Hn.
Qed.

Lemma refresh_matched ev urgent now :
  ev_Disposition (RefreshExpectedBehaviorEvaluationForCommit ev urgent now) = DispositionMatched →
  urgent = false ∧ ev_Disposition ev = DispositionMatched ∧
  (∀ t, ev_EvidenceExpiresAt ev = Some t → now < t)%Z ∧
  (∀ o, ev_Occurrence ev = Some o → now < Boundary o)%Z ∧
  ev_Occurrence (RefreshExpectedBehaviorEvaluationForCommit ev urgent now) = ev_Occurrence ev ∧
  ev_EvidenceExpiresAt (RefreshExpectedBehaviorEvaluationForCommit ev urgent now) = ev_EvidenceExpiresAt ev.
Proof.
  unfold RefreshExpectedBehaviorEvaluationForCommit, Before. cbv zeta. destruct urgent; [done|].
  destruct (bool_decide_reflect (ev_Disposition ev = DispositionMatched)) as [Hm|Hm]; cbn [andb]; [|done].
  destruct (ev_EvidenceExpiresAt ev) as [t|]; [destruct (Z.ltb_spec now t); cbn [negb]; [|done]|];
    (destruct (ev_Occurrence ev) as [o|]; [destruct (Z.ltb_spec now (Boundary o)); cbn [negb]; [|done]|]);
    cbn [ev_Disposition ev_Occurrence ev_EvidenceExpiresAt]; intros _; split_and!; try done;
    intros ? [= <-]; done.
Qed.

(** The overlay of a refreshed evaluation, at [now], over an Assessment that was
    valid at the start of the cycle, [start]. *)
Definition authority (attention : Attention) (a : Assessment) (ev : ExpectedBehaviorEvaluation) (now : Time)
    : Assessment :=
  ApplyExpectedBehaviorAuthority (A_Lifecycle a) attention a
    (Some (RefreshExpectedBehaviorEvaluationForCommit ev (is_urgent attention || is_urgent (A_Attention a)) now)).

Lemma authority_valid attention a ev start now :
  (start ≤ now)%Z → Assessment_Validate a start = Ok tt →
  Assessment_Validate (authority attention a ev now) start = Ok tt.
Proof.
  intros Hle Hv. unfold authority, ApplyExpectedBehaviorAuthority.
  set (urgent := is_urgent attention || is_urgent (A_Attention a)). set (ev' := RefreshExpectedBehaviorEvaluationForCommit ev urgent now).
  destruct (ev_Occurrence ev') as [occ|] eqn:Eo; [|done]. destruct (negb _ || _ || _ || _) eqn:Eg; [done|].
  rewrite !orb_false_iff, negb_false_iff, bool_decide_eq_true in Eg. destruct Eg as [[[Hm Ht] _] _].
  destruct (refresh_matched _ _ _ Hm) as (_ & _ & He & Hb & Ho & Hx). fold ev' in Ho, Hx. rewrite Eo in Ho.
  specialize (Hb occ (eq_sym Ho)). apply overlaid_valid; [done|done|]. rewrite Hx. unfold Before.
  destruct (ev_EvidenceExpiresAt ev) as [e|]; [specialize (He e eq_refl)|lia].
  destruct (Z.ltb_spec e (Boundary occ)); lia.
Qed.

(** It changes nothing, or takes the authority of the evaluation up to its end. *)
Lemma authority_cases attention a ev now :
  let ev' := RefreshExpectedBehaviorEvaluationForCommit ev (is_urgent attention || is_urgent (A_Attention a)) now in
  let a' := authority attention a ev now in
  a' = a ∧ (ev_Disposition ev' = DispositionMatched → ev_Occurrence ev' = None ∨ Terminal (A_Lifecycle a) = true) ∨
  ev_Disposition ev = DispositionMatched ∧ is_urgent attention || is_urgent (A_Attention a) = false ∧
  Terminal (A_Lifecycle a) = false ∧ a' = with_contract a (A_ActionContract a') ∧
  AC_OperatorActionRequired (A_ActionContract a') = None ∧
  ∃ occ t, ev_Occurrence ev' = Some occ ∧ ev_Occurrence ev = Some occ ∧
    AC_NextUpdateAt (A_ActionContract a') = Some t ∧ (t ≤ Boundary occ)%Z ∧
    (∀ e, ev_EvidenceExpiresAt ev = Some e → t ≤ e)%Z ∧
    (∀ t', AC_NextUpdateAt (A_ActionContract a) = Some t' → t ≤ t')%Z.
Proof.
  cbv zeta. unfold authority, ApplyExpectedBehaviorAuthority.
  set (urgent := is_urgent attention || is_urgent (A_Attention a)).
  set (ev' := RefreshExpectedBehaviorEvaluationForCommit ev urgent now).
  destruct (ev_Occurrence ev') as [occ|] eqn:Eo; [|by left; auto].
  destruct (negb _ || _ || _ || _) eqn:Eg.
  { left. split; [done|]. intros Hm. right.
    pose proof (refresh_matched _ _ _ Hm) as (Hu & _). unfold urgent in Hu. apply orb_false_iff in Hu as [H1 H2].
    rewrite H1, H2, !orb_false_r, bool_decide_eq_true_2 in Eg by done. done. }
  right. rewrite !orb_false_iff, negb_false_iff, bool_decide_eq_true in Eg. destruct Eg as [[[Hm Ht] Hu1] Hu2].
  destruct (refresh_matched _ _ _ Hm) as (_ & Hm' & _ & _ & Ho & Hx). fold ev' in Ho, Hx. rewrite Eo in Ho.
  set (boundary := match ev_EvidenceExpiresAt ev' with Some _ => _ | None => _ end).
  assert (Hbd : (boundary ≤ Boundary occ)%Z ∧ ∀ e, ev_EvidenceExpiresAt ev = Some e → (boundary ≤ e)%Z).
  { unfold boundary, Before. rewrite Hx. destruct (ev_EvidenceExpiresAt ev) as [e|]; [|done].
    destruct (Z.ltb_spec e (Boundary occ)); (split; [lia|]); intros ? [= <-]; lia. }
  destruct Hbd as [Hbd Hle]. destruct (overlay_next (A_ActionContract a) boundary) as (t & Hnext & Htb & Htp & _).
  split_and!; try done; [unfold urgent; by rewrite Hu1, Hu2|]. exists occ, t. split_and!; try done; [lia|].
  intros e He. specialize (Hle e He). lia.
Qed.

(** C29. The refresh of an evaluation and its overlay, as the commit runs them:
    an urgent or terminal commit is not touched, a match whose evidence or
    boundary has passed since the read carries no authority, and where the
    overlay applies it only withdraws what was asked of the operator and brings
    the next update forward, to an instant that is ahead and no later than the
    end of the authority; the Assessment stays valid either way. *)
Theorem ApplyExpectedBehaviorAuthority_spec attention a ev now :
  Assessment_Validate a now = Ok tt →
  let urgent := is_urgent attention || is_urgent (A_Attention a) in
  let ev' := RefreshExpectedBehaviorEvaluationForCommit ev urgent now in
  let a' := ApplyExpectedBehaviorAuthority (A_Lifecycle a) attention a (Some ev') in
  Assessment_Validate a' now = Ok tt ∧
  a' = with_contract a (A_ActionContract a') ∧
  (urgent || Terminal (A_Lifecycle a) = true → a' = a) ∧
  (urgent = true → ev_Disposition ev' = DispositionViolated ∧ ChosenEnvelopeID ev' = "") ∧
  (a' = a ∨
   ev_Disposition ev = DispositionMatched ∧ AC_OperatorActionRequired (A_ActionContract a') = None ∧
   ∃ occ t, ev_Occurrence ev = Some occ ∧ AC_NextUpdateAt (A_ActionContract a') = Some t ∧
     (now < t ≤ Boundary occ)%Z ∧ (∀ e, ev_EvidenceExpiresAt ev = Some e → t ≤ e)%Z ∧
     (∀ t', AC_NextUpdateAt (A_ActionContract a) = Some t' → t ≤ t')%Z).
Proof.
  intros Hv. cbv zeta. pose proof (authority_valid attention a ev now now ltac:(done) Hv) as Hva.
  pose proof (authority_cases attention a ev now) as Hc. cbv zeta in Hc. unfold authority in Hva, Hc.
  split; [done|]. destruct Hc as [[-> _]|(Hm & Hu & Ht & Hw & Hop & occ & t & _ & Ho & Hn & Hb & He & Hp)].
  - split; [by destruct a|]. split; [done|]. split; [|by left]. intros Hu. by rewrite Hu.
  - split; [done|]. split; [intros H; by rewrite Hu, Ht in H|]. split; [intros H; by rewrite Hu in H|]. right. split; [done|]. split; [done|].
    exists occ, t. split_and!; try done. unfold Assessment_Validate in Hva.
    apply res_bind_unit in Hva as [_ Hf]. unfold requireFreshNextUpdateAt in Hf. rewrite Hn in Hf.
    destruct (After t now) eqn:E; [by apply After_iff in E|done].
Qed.

(** ** Witnesses *)

(** The backup job of the host [db]: on the Sunday night of [Schedule] its
    trigger fires, with the replica's lag trigger beside it. *)
Definition ex_labels (_ : gmap string string) : string := "{}".
Definition ex_now : Time := (ex_unix 1792888260 + 10 * Minute)%Z.

Definition ex_binding (trigger : string) : ExpectedBehaviorBinding :=
  {| bi_Role := "role_" +:+ trigger; bi_RuleGroup := ""; bi_RuleName := ""; bi_Source := "zabbix"; bi_SourceInstanceID := "z1"; bi_Host := "db"; bi_TriggerID := trigger;
     bi_TriggerVersion := "v1"; bi_ProducerID := ""; bi_ScopeLabels := ∅; bi_RuleID := ""; bi_RuleVersion := "" |}.

Definition ex_signal (trigger presence : string) : ExpectedBehaviorSignal :=
  {| sg_SourceInstanceID := "z1"; sg_Host := "db"; sg_TriggerID := trigger; sg_TriggerVersion := "v1";
     sg_Presence := presence; sg_EvidenceRefs := ["ref_" +:+ trigger]; sg_ExpiresAt := (ex_now + 5 * Minute)%Z;
     sg_ProducerID := ""; sg_ScopeLabels := ∅; sg_RuleID := ""; sg_RuleVersion := "" |}.

Definition ex_policy : ExpectedBehaviorPolicy :=
  {| ep_Scope := {| sc_GroupKey := "g"; sc_Source := "zabbix"; sc_SourceInstanceID := "z1"; sc_Host := "db";
                    sc_PrimaryTriggerID := "backup"; sc_PrimaryTriggerVersion := "v1"; sc_ProducerID := "";
                    sc_ScopeLabels := ∅; sc_PrimaryRuleID := ""; sc_PrimaryRuleVersion := "";
                    sc_RuleGroup := ""; sc_RuleName := "" |};
     ReviewDueAt := (ex_now + 90 * 24 * Hour)%Z;
     ep_Conditions := {| Workload := "nightly_backup"; ec_Schedule := ex_schedule; MaxDurationMinutes := 60; 
                         RequiredCompanions := [ex_binding "lag"]; AllowedCompanions := [];
                         ForbiddenSignals := [ex_binding "disk"] |} |}.

Definition ex_head : ExpectedBehaviorHead :=
  {| eh_EnvelopeID := "env"; eh_Version := 3; eh_Revoked := false; eh_Policy := Some ex_policy;
     eh_InvalidatedAt := None; eh_UpdatedAt := ex_unix 1792000000 |}.

Definition ex_input : ExpectedBehaviorInput :=
  {| ei_GroupKey := "g"; ei_Now := ex_now; ei_PrimaryStartedAt := ex_unix 1792888260; ei_Source := "zabbix";
     ei_SourceInstanceID := "z1"; ei_Host := "db"; ei_PrimaryTriggerID := "backup"; ei_PrimaryVersion := "v1";
     HasCriticalFiring := false; IndependentlyUrgent := false;
     FiringSignals := [ex_signal "backup" "present"; ex_signal "lag" "present"];
     ei_Observations := [ex_signal "lag" "present"; ex_signal "disk" "absent"]; Heads := [ex_head];
     ei_ProducerID := ""; ei_ScopeLabels := ∅; ei_PrimaryRuleID := ""; ei_PrimaryRuleVersion := "";
     ei_PrimaryPresence := "" |}.

Lemma evaluateExpectedBehaviorCandidate_spec_witness :
  ca_Status (evaluateExpectedBehaviorCandidate ex_labels ex_zones ex_input ex_head) = ExpectedBehaviorMatched ∧
  ∃ policy occ, covered ex_labels ex_zones ex_input ex_head policy occ.
Proof.
  split; [vm_compute; reflexivity|].
  apply (evaluateExpectedBehaviorCandidate_spec ex_labels ex_zones ex_input ex_head); [by vm_compute|].
  vm_compute. reflexivity.
Defined.

(** An Assessment that asks the operator to look, and the evaluation above. *)
Definition ex_assessment : Assessment :=
  {| A_SchemaVersion := 1; A_Persistence := PersistenceSustained; A_Impact := ImpactUnknown;
     A_Novelty := NoveltyNew; A_Causality := CausalityUnknown; A_Attention := AttentionInvestigate;
     A_Lifecycle := LifecycleActive; A_EvidenceQuality := EvidenceQualityDegraded; A_SufficientReason := None;
     A_ActionContract :=
       {| AC_NextActor := NextActorOperator; AC_AlertINTAction := None; AC_AlertINTStatus := None;
          AC_OperatorActionRequired := Some OperatorActionInvestigateSituation;
          AC_NextUpdateAt := Some (ex_now + 15 * Minute)%Z; AC_NextUpdateOn := []; AC_WaitReason := None |};
     A_Limitations := []; A_Cadence := CadenceNormal |}.

Lemma ApplyExpectedBehaviorAuthority_spec_witness :
  let ev := EvaluateExpectedBehaviors ex_labels ex_zones ex_input in
  Assessment_Validate ex_assessment ex_now = Ok tt ∧
  AC_NextUpdateAt (A_ActionContract (ApplyExpectedBehaviorAuthority LifecycleActive AttentionInvestigate ex_assessment
     (Some (RefreshExpectedBehaviorEvaluationForCommit ev false ex_now)))) = Some (ex_now + 5 * Minute)%Z ∧
  Assessment_Validate (ApplyExpectedBehaviorAuthority LifecycleActive AttentionInvestigate ex_assessment
     (Some (RefreshExpectedBehaviorEvaluationForCommit ev false ex_now))) ex_now = Ok tt.
Proof.
  cbv zeta. split; [reflexivity|]. split; [vm_compute; reflexivity|].
  apply (ApplyExpectedBehaviorAuthority_spec AttentionInvestigate ex_assessment
    (EvaluateExpectedBehaviors ex_labels ex_zones ex_input) ex_now). reflexivity.
Defined.
