(* ===== verification/Policy.v ===== *)
(** * Policies of expected behavior (internal/situation/expected_behavior_schedule.go)

    The validation of the policy an operator writes, which every revision of an
    envelope passes before it is stored: the scope, the identifiers, the
    schedule, the review date, and the roles and keys of the bindings. *)

From stdpp Require Import prelude strings list gmap.
From S2P Require Import Prelude SituationModel Schedule ExpectedBehavior.

(** What a rejected policy is told. *)
Inductive PolicyError : Set :=
| ScopeRequiresGroupAndInstallation
| ZabbixScopeIncomplete
| AlertmanagerScopeIncomplete
| SourceUnknown
| WorkloadNotIdentifier
| ScheduleInvalid                      (* the schedule's own error *)
| MaxDurationOutOfRange
| ReviewNotAfterConfirmation
| BindingRoleNotIdentifier
| BindingRequiresInstallation
| ZabbixBindingIncomplete
| AlertmanagerBindingIncomplete
| BindingSourceUnknown
| RoleReused
| PrimaryReused
| BindingReused.

#[export] Instance PolicyError_eq_dec : EqDecision PolicyError.
Proof. solve_decision. Defined.

(** ** The identifiers of roles and workloads: [^[a-z][a-z0-9_]{0,63}$] *)

Definition lower_letter (c : Ascii.ascii) : bool :=
  let n := Ascii.N_of_ascii c in ((97 <=? n) && (n <=? 122))%N.
Definition identifier_rest (c : Ascii.ascii) : bool :=
  let n := Ascii.N_of_ascii c in
  lower_letter c || ((48 <=? n) && (n <=? 57))%N || (n =? 95)%N.

Definition expectedBehaviorIdentifier (s : string) : bool :=
  match String.list_ascii_of_string s with
  | [] => false
  | c :: l => lower_letter c && forallb identifier_rest l && (length l <=? 63)%nat
  end.

Definition blank (s : string) : bool := str_eqb (TrimSpace s) "".

Section validate.
Context (canonicalExpectedBehaviorLabels : gmap string string → string)
        (zones : string → option (Time → Duration)).

Definition expectedBehaviorScopeBindingKey (scope : ExpectedBehaviorScope) : string :=
  if is_alertmanager scope then
    rule_key canonicalExpectedBehaviorLabels (sc_SourceInstanceID scope) (sc_ProducerID scope)
      (sc_PrimaryRuleID scope) (sc_ScopeLabels scope)
  else expectedBehaviorSignalKey (sc_SourceInstanceID scope) (sc_Host scope) (sc_PrimaryTriggerID scope).

Definition validateExpectedBehaviorBinding (b : ExpectedBehaviorBinding) : result PolicyError unit :=
  guard! expectedBehaviorIdentifier (bi_Role b) else BindingRoleNotIdentifier in
  guard! negb (blank (bi_SourceInstanceID b)) else BindingRequiresInstallation in
  if str_eqb (bi_Source b) "zabbix" then
    guard! negb (blank (bi_Host b) || blank (bi_TriggerID b) || blank (bi_TriggerVersion b))
      else ZabbixBindingIncomplete in Ok tt
  else if str_eqb (bi_Source b) "alertmanager" then
    guard! negb (blank (bi_ProducerID b) || blank (bi_RuleID b) || blank (bi_RuleVersion b)
                 || blank (bi_RuleGroup b) || blank (bi_RuleName b) || bool_decide (bi_ScopeLabels b = ∅))
      else AlertmanagerBindingIncomplete in Ok tt
  else Err BindingSourceUnknown.

Definition validate_scope (scope : ExpectedBehaviorScope) : result PolicyError unit :=
  guard! negb (blank (sc_GroupKey scope) || blank (sc_SourceInstanceID scope))
    else ScopeRequiresGroupAndInstallation in
  if str_eqb (sc_Source scope) "zabbix" then
    guard! negb (blank (sc_Host scope) || blank (sc_PrimaryTriggerID scope)
                 || blank (sc_PrimaryTriggerVersion scope)) else ZabbixScopeIncomplete in Ok tt
  else if str_eqb (sc_Source scope) "alertmanager" then
    guard! negb (blank (sc_ProducerID scope) || blank (sc_PrimaryRuleID scope)
                 || blank (sc_PrimaryRuleVersion scope) || blank (sc_RuleGroup scope)
                 || blank (sc_RuleName scope) || bool_decide (sc_ScopeLabels scope = ∅))
      else AlertmanagerScopeIncomplete in Ok tt
  else Err SourceUnknown.

(** The loop over the bindings, with the roles and the keys seen so far. *)
Fixpoint validate_bindings (primaryKey : string) (roles bindings : gset string)
    (bs : list ExpectedBehaviorBinding) : result PolicyError unit :=
  match bs with
  | [] => Ok tt
  | b :: bs =>
      let? _ := validateExpectedBehaviorBinding b in
      guard! negb (bool_decide (bi_Role b ∈ roles)) else RoleReused in
      let key := expectedBehaviorBindingSignalKey canonicalExpectedBehaviorLabels b in
      guard! negb (str_eqb key primaryKey) else PrimaryReused in
      guard! negb (bool_decide (key ∈ bindings)) else BindingReused in
      validate_bindings primaryKey ({[bi_Role b]} ∪ roles) ({[key]} ∪ bindings) bs
  end.

Definition ValidateExpectedBehaviorPolicy (policy : ExpectedBehaviorPolicy) (confirmedAt : Time)
    : result PolicyError unit :=
  let cond := ep_Conditions policy in
  let? _ := validate_scope (ep_Scope policy) in
  guard! expectedBehaviorIdentifier (Workload cond) else WorkloadNotIdentifier in
  guard! validateExpectedBehaviorSchedule zones (ec_Schedule cond) else ScheduleInvalid in
  guard! negb ((MaxDurationMinutes cond <? 1) || (7 * 24 * 60 <? MaxDurationMinutes cond))%Z
    else MaxDurationOutOfRange in
  guard! negb (IsZero (ReviewDueAt policy) || negb (After (ReviewDueAt policy) confirmedAt))
    else ReviewNotAfterConfirmation in
  validate_bindings (expectedBehaviorScopeBindingKey (ep_Scope policy)) ∅ ∅ (listed cond).
End validate.

(** ** What a valid policy is *)

Section well_formed.
Context (labels_text : gmap string string → string) (zones : string → option (Time → Duration)).

#[local] Abbreviation key := (expectedBehaviorBindingSignalKey labels_text).

Definition identifier (s : string) : Prop :=
  ∃ c l, String.list_ascii_of_string s = c :: l ∧ lower_letter c = true ∧ Forall (λ d, identifier_rest d = true) l ∧
         (length (c :: l) ≤ 64)%nat.

(** A rule is named in full by its source. *)
Definition rule_named (source host trigger version producer rule rule_version group name : string)
    (labels : gmap string string) : Prop :=
  source = "zabbix" ∧ blank host = false ∧ blank trigger = false ∧ blank version = false ∨
  source = "alertmanager" ∧ blank producer = false ∧ blank rule = false ∧ blank rule_version = false ∧
  blank group = false ∧ blank name = false ∧ labels ≠ ∅.

Record well_formed_binding (b : ExpectedBehaviorBinding) : Prop := {
  wb_role : identifier (bi_Role b);
  wb_installation : blank (bi_SourceInstanceID b) = false;
  wb_rule : rule_named (bi_Source b) (bi_Host b) (bi_TriggerID b) (bi_TriggerVersion b) (bi_ProducerID b)
              (bi_RuleID b) (bi_RuleVersion b) (bi_RuleGroup b) (bi_RuleName b) (bi_ScopeLabels b)
}.

Record well_formed (policy : ExpectedBehaviorPolicy) (confirmedAt : Time) : Prop := {
  wp_scope : let s := ep_Scope policy in
    blank (sc_GroupKey s) = false ∧ blank (sc_SourceInstanceID s) = false ∧
    rule_named (sc_Source s) (sc_Host s) (sc_PrimaryTriggerID s) (sc_PrimaryTriggerVersion s) (sc_ProducerID s)
      (sc_PrimaryRuleID s) (sc_PrimaryRuleVersion s) (sc_RuleGroup s) (sc_RuleName s) (sc_ScopeLabels s);
  wp_workload : identifier (Workload (ep_Conditions policy));
  wp_schedule : validateExpectedBehaviorSchedule zones (ec_Schedule (ep_Conditions policy)) = true;
  wp_duration : (1 ≤ MaxDurationMinutes (ep_Conditions policy) ≤ 7 * 24 * 60)%Z;
  wp_review : ReviewDueAt policy ≠ time_zero ∧ (confirmedAt < ReviewDueAt policy)%Z;
  wp_bindings : Forall well_formed_binding (listed (ep_Conditions policy));
  wp_roles : NoDup (bi_Role <$> listed (ep_Conditions policy));
  wp_keys : NoDup (expectedBehaviorScopeBindingKey labels_text (ep_Scope policy)
                   :: (key <$> listed (ep_Conditions policy)))
}.

(** *** Lemmas *)

Lemma identifier_iff s : expectedBehaviorIdentifier s = true ↔ identifier s.
Proof.
  unfold expectedBehaviorIdentifier, identifier. destruct (String.list_ascii_of_string s) as [|c l].
  - split; [done|]. by intros (c & l & ? & _).
  - rewrite !andb_true_iff, forallb_iff, Nat.leb_le. setoid_rewrite Forall_forall. split.
    + intros [[??]?]. exists c, l. simpl. split_and!; try done. lia.
    + intros (c' & l' & [= <- <-] & ? & ? & Hl). simpl in Hl. split_and!; try done. lia.
Qed.

(** The two shapes of a source: what the validation of a scope and of a binding
    share. *)
Lemma source_ok {E} src (ez ea eu : E) (bz ba : bool) :
  (if str_eqb src "zabbix" then (if negb bz then Ok tt else Err ez)
   else if str_eqb src "alertmanager" then (if negb ba then Ok tt else Err ea) else Err eu) = Ok (E := E) tt ↔
  src = "zabbix" ∧ bz = false ∨ src = "alertmanager" ∧ ba = false.
Proof.
  unfold str_eqb. destruct (String.eqb_spec src "zabbix") as [->|Hz].
  - destruct bz; simpl; split; try done; [by intros [[]|[]]|by left].
  - destruct (String.eqb_spec src "alertmanager") as [->|Ha].
    + destruct ba; simpl; split; try done; [by intros [[]|[]]|by right].
    + split; [done|]. by intros [[]|[]].
Qed.

Lemma named_iff source host trigger version producer rule rule_version group name (labels : gmap string string) :
  source = "zabbix" ∧ (blank host || blank trigger || blank version) = false ∨
  source = "alertmanager" ∧ (blank producer || blank rule || blank rule_version || blank group || blank name
                             || bool_decide (labels = ∅)) = false ↔
  rule_named source host trigger version producer rule rule_version group name labels.
Proof. unfold rule_named. rewrite !orb_false_iff, bool_decide_eq_false. tauto. Qed.

Lemma binding_ok b : validateExpectedBehaviorBinding b = Ok tt ↔ well_formed_binding b.
Proof.
  unfold validateExpectedBehaviorBinding. rewrite !guard_ok, source_ok, named_iff, negb_true_iff, identifier_iff.
  split; [by intros (? & ? & ?)|by intros []].
Qed.

Lemma scope_ok s :
  validate_scope s = Ok tt ↔
  blank (sc_GroupKey s) = false ∧ blank (sc_SourceInstanceID s) = false ∧
  rule_named (sc_Source s) (sc_Host s) (sc_PrimaryTriggerID s) (sc_PrimaryTriggerVersion s) (sc_ProducerID s)
    (sc_PrimaryRuleID s) (sc_PrimaryRuleVersion s) (sc_RuleGroup s) (sc_RuleName s) (sc_ScopeLabels s).
Proof.
  unfold validate_scope. rewrite guard_ok, source_ok, named_iff, negb_true_iff, orb_false_iff. tauto.
Qed.

Lemma bindings_ok primary bs : ∀ roles keys,
  validate_bindings labels_text primary roles keys bs = Ok tt ↔
  Forall well_formed_binding bs ∧ (NoDup (bi_Role <$> bs) ∧ ∀ b, b ∈ bs → bi_Role b ∉ roles) ∧
  (NoDup (key <$> bs) ∧ ∀ b, b ∈ bs → (key b ∉ keys) ∧ (key b ≠ primary)).
Proof.
  induction bs as [|b bs IH]; intros roles keys; simpl.
  { split; [|done]. intros _. split; [constructor|]. split; (split; [constructor|]);
      intros b Hb; by apply elem_of_nil in Hb. }
  rewrite res_bind_unit, binding_ok, !guard_ok, IH, !negb_true_iff, !bool_decide_eq_false, Forall_cons, !NoDup_cons.
  unfold str_eqb. rewrite String.eqb_neq. setoid_rewrite elem_of_cons. setoid_rewrite not_elem_of_union.
  setoid_rewrite not_elem_of_singleton. rewrite !list_elem_of_fmap. split.
  - intros (Hb & Hr & Hp & Hk & Hbs & (Hnd & Hroles) & Hnd' & Hkeys). split_and!; try done.
    + intros (b' & Heq & Hb'). by destruct (Hroles b' Hb').
    + intros b' [->|Hb']; [done|]. by apply Hroles.
    + intros (b' & Heq & Hb'). by destruct (Hkeys b' Hb') as [[[] _] _].
    + intros b' [->|Hb']; [done|]. by destruct (Hkeys b' Hb') as [[_ ?] ?].
  - intros ([Hb Hbs] & ([Hn Hnd] & Hroles) & ([Hn' Hnd'] & Hkeys)).
    destruct (Hkeys b) as [Hk Hp]; [by left|]. split_and!; try done.
    + apply Hroles. by left.
    + intros b' Hb'. split; [|apply Hroles; by right]. intros Heq. apply Hn. by exists b'.
    + intros b' Hb'. destruct (Hkeys b') as [? ?]; [by right|]. split; [|done]. split; [|done].
      intros Heq. apply Hn'. by exists b'.
Qed.

(** C28. The validation accepts exactly the well-formed policies: a scope that
    names one rule of its source in full, identifiers of at most 64 characters,
    a schedule the resolver can read, a longest duration between a minute and a
    week, a review after the confirmation, and bindings whose roles are all
    different and whose keys are all different, none of them the key of the
    primary rule. *)
Theorem ValidateExpectedBehaviorPolicy_spec policy confirmedAt :
  ValidateExpectedBehaviorPolicy labels_text zones policy confirmedAt = Ok tt ↔ well_formed policy confirmedAt.
Proof.
  unfold ValidateExpectedBehaviorPolicy. cbv zeta.
  rewrite res_bind_unit, scope_ok, !guard_ok, bindings_ok, identifier_iff.
  rewrite !negb_true_iff, !orb_false_iff, negb_false_iff, Z.ltb_ge, Z.ltb_ge, After_iff.
  unfold IsZero. rewrite Z.eqb_neq. split.
  - intros (Hs & Hw & Hsch & Hd & Hr & Hb & [Hroles _] & Hkeys & Hp). constructor; try done.
    apply NoDup_cons. split; [|done]. rewrite list_elem_of_fmap. intros (b & Heq & Hb').
    by destruct (Hp b Hb').
  - intros [(? & ? & ?) Hw Hsch [??] [??] Hb Hroles Hkeys]. apply NoDup_cons in Hkeys as [Hp Hkeys].
    split_and!; try done; intros b Hb'; set_solver.
Qed.
End well_formed.

(** The policy of the backup job. *)
Lemma ex_policy_valid : ValidateExpectedBehaviorPolicy ex_labels ex_zones ex_policy ex_now = Ok tt.
Proof. vm_compute. reflexivity. Qed.
