(* ===== verification/Judgment.v ===== *)
(** * The judgment of an operator (internal/situation/judgment.go)

    What a judgment covers, derived from one coherent read, whether it still
    applies to a later read, and what it overlays on the committed Operator
    contract.  [JudgmentInput] holds the fields of [SnapshotInput] these
    functions read; the covered symptoms are gathered from a Go map, whose
    order the sort by Alert makes irrelevant ([coverage_perm]). *)

From stdpp Require Import prelude strings list gmap sorting.
From S2P Require Import Prelude Severity SituationModel Snapshot ExpectedBehavior.

(** ** Data *)

Record SourceDefinition : Type := {
  sd_InstanceID : string;
  sd_RuleID : string;
  sd_Available : bool;
  sd_Version : string
}.

Record ExpectedJudgmentSymptom : Type := {
  js_AlertID : string;
  js_Source : string;
  js_EpisodeKey : string;
  js_SourceSignalID : option string;
  js_SourceSignalVersion : option string;
  js_SourceInstanceID : option string;
  ObservedSourceInstanceID : option string;
  ObservedSourceConfigVersion : option string;
  js_Severity : string;
  IdentityLabels : gmap string string
}.

Record ExpectedJudgmentCoverage : Type := {
  jc_Scope : string;
  jc_Impact : Impact;
  jc_Symptoms : list ExpectedJudgmentSymptom;
  jc_EvidenceRefs : list string
}.

Inductive JudgmentOperation : Set :=
| JudgmentOperationRecord
| JudgmentOperationReplace
| JudgmentOperationRevoke
| JudgmentOperationRestore.

#[export] Instance JudgmentOperation_eq_dec : EqDecision JudgmentOperation.
Proof. solve_decision. Defined.

Record SituationJudgment : Type := {
  Revision : Z;
  Operation : JudgmentOperation;
  j_AssertedOperator : string;
  judgment_expected : bool;                (* [State == expected] *)
  ValidUntil : Time;
  Coverage : ExpectedJudgmentCoverage
}.

Inductive JudgmentApplicabilityReason : Set :=
| JudgmentUndecided                        (* the empty text *)
| JudgmentApplicable
| JudgmentExpired
| JudgmentRevoked
| JudgmentSituationTerminal
| JudgmentScopeChanged
| JudgmentSymptomsChanged
| JudgmentSeverityChanged
| JudgmentImpactChanged
| JudgmentSourceSignatureChanged
| JudgmentSourceDefinitionUnavailable
| JudgmentEvidenceMissing
| JudgmentUrgent.

#[export] Instance JudgmentApplicabilityReason_eq_dec : EqDecision JudgmentApplicabilityReason.
Proof. solve_decision. Defined.

Record JudgmentApplicability : Type := { ja_Applicable : bool; ja_Reason : JudgmentApplicabilityReason }.

Inductive CoverageError : Set :=
| RequiresOpenSituation
| RequiresCurrentAssessment
| RequiresFiringSymptom.

Record JudgmentInput : Type := {
  ji_GroupKey : string;
  ji_Lifecycle : Lifecycle;
  ji_Attention : Attention;
  ji_Deliveries : list Delivery;
  ji_SourceDefinitions : list SourceDefinition;
  ji_CurrentAssessment : option Assessment;
  ji_Judgment : option SituationJudgment;
  ji_JudgmentApplicability : JudgmentApplicability
}.

(** ** Coverage *)

Definition sourceDefinitionKey (instanceID ruleID : string) : string := instanceID +:+ nul +:+ ruleID.

Definition definitions (ds : list SourceDefinition) : gmap string SourceDefinition :=
  foldl (λ m d, <[sourceDefinitionKey (sd_InstanceID d) (sd_RuleID d) := d]> m) ∅ ds.

Definition stringPtr (value : string) : option string := if str_eqb value "" then None else Some value.

(** The labels that identify: neither the severity nor AlertINT's own. *)
Definition identity_label (k : string) : bool :=
  negb (str_eqb k "severity" || bool_decide (is_Some (strip_prefix "alertint_" k))).

Definition identity_labels (labels : gmap string string) : gmap string string :=
  filter (λ kv, identity_label kv.1 = true) labels.

(** The definition observed for a Zabbix delivery. *)
Definition observed_definition (defs : gmap string SourceDefinition) (d : Delivery) : option SourceDefinition :=
  match Delivery_SourceInstanceID d with
  | Some instance =>
      if str_eqb (Delivery_Source d) "zabbix" then
        match defs !! sourceDefinitionKey instance (default "" (Labels d !! "zabbix_trigger_id")) with
        | Some def => if sd_Available def then Some def else None
        | None => None
        end
      else None
  | None => None
  end.

Definition covered_symptom (defs : gmap string SourceDefinition) (d : Delivery) : ExpectedJudgmentSymptom :=
  let def := observed_definition defs d in
  {| js_AlertID := Delivery_AlertID d; js_Source := Delivery_Source d; js_EpisodeKey := Delivery_EpisodeKey d;
     js_SourceSignalID := SourceSignalID d; js_SourceSignalVersion := SourceSignalVersion d;
     js_SourceInstanceID := Delivery_SourceInstanceID d;
     ObservedSourceInstanceID := def ≫= stringPtr ∘ sd_InstanceID;
     ObservedSourceConfigVersion := def ≫= stringPtr ∘ sd_Version;
     js_Severity := Delivery_Severity d; IdentityLabels := identity_labels (Labels d) |}.

Definition firing_deliveries (deliveries : list Delivery) : list Delivery :=
  filter (λ d, Delivery_Status d = DeliveryStatusFiring)
    (snd <$> map_to_list (latestDeliveryPerAlert deliveries)).

Definition covered_symptoms (defs : list SourceDefinition) (deliveries : list Delivery)
    : list ExpectedJudgmentSymptom :=
  SliceStable (skey_ltb js_AlertID) (covered_symptom (definitions defs) <$> firing_deliveries deliveries).

Definition coverage_refs (a : Assessment) : list string :=
  match A_SufficientReason a with Some r => sort_strings (SR_EvidenceRefs r) | None => [] end.

Definition DeriveExpectedJudgmentCoverage (inp : JudgmentInput)
    : result CoverageError ExpectedJudgmentCoverage :=
  guard! negb (Terminal (ji_Lifecycle inp)) else RequiresOpenSituation in
  match ji_CurrentAssessment inp with
  | None => Err RequiresCurrentAssessment
  | Some a =>
      let covered := covered_symptoms (ji_SourceDefinitions inp) (ji_Deliveries inp) in
      guard! negb (bool_decide (covered = [])) else RequiresFiringSymptom in
      Ok {| jc_Scope := ji_GroupKey inp; jc_Impact := A_Impact a; jc_Symptoms := covered;
            jc_EvidenceRefs := coverage_refs a |}
  end.

(** ** Applicability *)

Definition hasCriticalFiring (deliveries : list Delivery) : bool :=
  existsb (λ kd, bool_decide (Delivery_Status kd.2 = DeliveryStatusFiring)
                 && (4 <=? Rank (Delivery_Severity kd.2))%Z)
    (map_to_list (latestDeliveryPerAlert deliveries)).

(** [b[k]] of an absent key is the empty text. *)
Definition equalLabels (a b : gmap string string) : bool :=
  (size a =? size b)%nat && forallb (λ kv, str_eqb (default "" (b !! kv.1)) kv.2) (map_to_list a).

Definition equalStringPtr (a b : option string) : bool := bool_decide (a = b).

(** The first difference between a symptom and the one that was covered. *)
Definition symptom_change (cur covered : ExpectedJudgmentSymptom) : option JudgmentApplicabilityReason :=
  if negb (str_eqb (js_AlertID cur) (js_AlertID covered))
     || negb (equalLabels (IdentityLabels cur) (IdentityLabels covered)) then Some JudgmentSymptomsChanged
  else if negb (str_eqb (js_Severity cur) (js_Severity covered)) then Some JudgmentSeverityChanged
  else if negb (str_eqb (js_Source cur) (js_Source covered))
          || negb (str_eqb (js_EpisodeKey cur) (js_EpisodeKey covered))
          || negb (equalStringPtr (js_SourceSignalID cur) (js_SourceSignalID covered))
          || negb (equalStringPtr (js_SourceSignalVersion cur) (js_SourceSignalVersion covered))
          || negb (equalStringPtr (js_SourceInstanceID cur) (js_SourceInstanceID covered)) then
    Some JudgmentSourceSignatureChanged
  else if (bool_decide (is_Some (ObservedSourceInstanceID covered))
           || bool_decide (is_Some (ObservedSourceConfigVersion covered)))
          && (negb (bool_decide (is_Some (ObservedSourceInstanceID cur)))
              || negb (bool_decide (is_Some (ObservedSourceConfigVersion cur)))) then
    Some JudgmentSourceDefinitionUnavailable
  else if negb (equalStringPtr (ObservedSourceInstanceID cur) (ObservedSourceInstanceID covered))
          || negb (equalStringPtr (ObservedSourceConfigVersion cur) (ObservedSourceConfigVersion covered)) then
    Some JudgmentSourceSignatureChanged
  else None.

Fixpoint symptoms_change (cur covered : list ExpectedJudgmentSymptom) : option JudgmentApplicabilityReason :=
  match cur, covered with
  | c :: cur, v :: covered => match symptom_change c v with Some r => Some r | None => symptoms_change cur covered end
  | _, _ => None
  end.

Definition coverage_change (cur covered : ExpectedJudgmentCoverage) : option JudgmentApplicabilityReason :=
  if negb (str_eqb (jc_Scope cur) (jc_Scope covered)) then Some JudgmentScopeChanged
  else if negb (bool_decide (jc_Impact cur = jc_Impact covered)) then Some JudgmentImpactChanged
  else if negb (length (jc_Symptoms cur) =? length (jc_Symptoms covered))%nat then Some JudgmentSymptomsChanged
  else match symptoms_change (jc_Symptoms cur) (jc_Symptoms covered) with
       | Some r => Some r
       | None => if negb (bool_decide (jc_EvidenceRefs cur = jc_EvidenceRefs covered))
                 then Some JudgmentEvidenceMissing else None
       end.

Definition EvaluateExpectedJudgment (j : SituationJudgment) (inp : JudgmentInput) (now : Time)
    : JudgmentApplicability :=
  let result r := {| ja_Applicable := bool_decide (r = JudgmentApplicable); ja_Reason := r |} in
  if negb (judgment_expected j) then result JudgmentRevoked
  else if negb (Before now (ValidUntil j)) then result JudgmentExpired
  else if Terminal (ji_Lifecycle inp) then result JudgmentSituationTerminal
  else if is_urgent (ji_Attention inp) || hasCriticalFiring (ji_Deliveries inp) then result JudgmentUrgent
  else match DeriveExpectedJudgmentCoverage inp with
       | Err _ => result JudgmentEvidenceMissing
       | Ok current => result (default JudgmentApplicable (coverage_change current (Coverage j)))
       end.

(** ** At the commit *)

(** The fields of the commit the overlay reads and writes. *)
Record judged_commit : Type := {
  gc_Lifecycle : Lifecycle;
  gc_Attention : Attention;
  gc_Assessment : Assessment;
  gc_ConsumedDueReasons : list string;
  gc_JudgmentRevision : Z;
  gc_JudgmentApplicable : bool;
  gc_JudgmentApplicabilityReason : JudgmentApplicabilityReason
}.

Definition current_input (c : judged_commit) (inp : JudgmentInput) : JudgmentInput :=
  {| ji_GroupKey := ji_GroupKey inp; ji_Lifecycle := gc_Lifecycle c; ji_Attention := gc_Attention c;
     ji_Deliveries := ji_Deliveries inp; ji_SourceDefinitions := ji_SourceDefinitions inp;
     ji_CurrentAssessment := Some (gc_Assessment c); ji_Judgment := ji_Judgment inp;
     ji_JudgmentApplicability := ji_JudgmentApplicability inp |}.

(** A judgment found inapplicable by the read stays so; otherwise it is judged
    against what is about to be committed. *)
Definition commit_applicability (c : judged_commit) (j : SituationJudgment) (inp : JudgmentInput) (now : Time)
    : JudgmentApplicability :=
  let app := ji_JudgmentApplicability inp in
  let app := if ja_Applicable app || bool_decide (ja_Reason app = JudgmentUndecided)
             then EvaluateExpectedJudgment j (current_input c inp) now else app in
  if is_urgent (gc_Attention c) || is_urgent (A_Attention (gc_Assessment c))
  then {| ja_Applicable := false; ja_Reason := JudgmentUrgent |} else app.

Definition applyExpectedJudgment (c : judged_commit) (inp : JudgmentInput) (now : Time) : judged_commit :=
  match ji_Judgment inp with
  | None => c
  | Some j =>
      let app := commit_applicability c j inp now in
      let out a consumed applicable :=
        {| gc_Lifecycle := gc_Lifecycle c; gc_Attention := gc_Attention c; gc_Assessment := a;
           gc_ConsumedDueReasons := consumed; gc_JudgmentRevision := Revision j;
           gc_JudgmentApplicable := applicable; gc_JudgmentApplicabilityReason := ja_Reason app |} in
      if negb (ja_Applicable app) then
        out (gc_Assessment c) (gc_ConsumedDueReasons c) (gc_JudgmentApplicable c)
      else
        out (with_contract (gc_Assessment c)
               (overlay_contract (A_ActionContract (gc_Assessment c)) (ValidUntil j)))
            (filter (λ r, r ≠ "judgment_boundary") (gc_ConsumedDueReasons c)) true
  end.

(** ** What applicability means *)

Definition labels_agree (a b : gmap string string) : Prop :=
  size a = size b ∧ ∀ k v, a !! k = Some v → default "" (b !! k) = v.

Record same_symptom (cur covered : ExpectedJudgmentSymptom) : Prop := {
  ss_alert : js_AlertID cur = js_AlertID covered;
  ss_labels : labels_agree (IdentityLabels cur) (IdentityLabels covered);
  ss_severity : js_Severity cur = js_Severity covered;
  ss_source : js_Source cur = js_Source covered ∧ js_EpisodeKey cur = js_EpisodeKey covered;
  ss_signal : js_SourceSignalID cur = js_SourceSignalID covered ∧
              js_SourceSignalVersion cur = js_SourceSignalVersion covered ∧
              js_SourceInstanceID cur = js_SourceInstanceID covered;
  ss_definition : ObservedSourceInstanceID cur = ObservedSourceInstanceID covered ∧
                  ObservedSourceConfigVersion cur = ObservedSourceConfigVersion covered;
  ss_observed : ObservedSourceInstanceID covered = None ∧ ObservedSourceConfigVersion covered = None ∨
                is_Some (ObservedSourceInstanceID cur) ∧ is_Some (ObservedSourceConfigVersion cur)
}.

Record same_coverage (cur covered : ExpectedJudgmentCoverage) : Prop := {
  sv_scope : jc_Scope cur = jc_Scope covered;
  sv_impact : jc_Impact cur = jc_Impact covered;
  sv_symptoms : Forall2 same_symptom (jc_Symptoms cur) (jc_Symptoms covered);
  sv_refs : jc_EvidenceRefs cur = jc_EvidenceRefs covered
}.

Lemma equalLabels_iff a b : equalLabels a b = true ↔ labels_agree a b.
Proof.
  unfold equalLabels, labels_agree, str_eqb. rewrite andb_true_iff, Nat.eqb_eq, forallb_iff.
  setoid_rewrite String.eqb_eq. split; intros [? H]; (split; [done|]).
  - intros k v Hk. by apply (H (k, v)), elem_of_map_to_list.
  - intros [k v] Hk%elem_of_map_to_list. by apply H.
Qed.

Lemma some_if_none {A} (b : bool) (r : A) m : (if b then Some r else m) = None ↔ b = false ∧ m = None.
Proof. destruct b; naive_solver. Qed.

Lemma str_neqb a b : negb (str_eqb a b) = false ↔ a = b.
Proof. unfold str_eqb. by rewrite negb_false_iff, String.eqb_eq. Qed.

Lemma ptr_neqb a b : negb (equalStringPtr a b) = false ↔ a = b.
Proof. unfold equalStringPtr. by rewrite negb_false_iff, bool_decide_eq_true. Qed.

Lemma symptom_change_none cur covered : symptom_change cur covered = None ↔ same_symptom cur covered.
Proof.
  unfold symptom_change. rewrite !some_if_none, !orb_false_iff, andb_false_iff, !orb_false_iff.
  rewrite !str_neqb, !ptr_neqb, !negb_false_iff, equalLabels_iff, !bool_decide_eq_false, !bool_decide_eq_true.
  rewrite <- !eq_None_not_Some. split.
  - intros ([??] & ? & ([[[??]?]?]&?) & ? & [??] & _). by constructor.
  - intros [? ? ? [??] (?&?&?) [??] ?]. by split_and!.
Qed.

Lemma symptoms_change_none cur : ∀ covered, length cur = length covered →
  symptoms_change cur covered = None ↔ Forall2 same_symptom cur covered.
Proof.
  induction cur as [|c cur IH]; intros [|v covered]; simpl; try done.
  intros [= Hl]. rewrite Forall2_cons, <- symptom_change_none.
  destruct (symptom_change c v); [by split; [|intros []]|]. rewrite IH by done. naive_solver.
Qed.

Lemma coverage_change_none cur covered : coverage_change cur covered = None ↔ same_coverage cur covered.
Proof.
  unfold coverage_change. rewrite !some_if_none, str_neqb, !negb_false_iff, bool_decide_eq_true, Nat.eqb_eq.
  split.
  - intros (? & ? & Hl & H). pose proof (symptoms_change_none _ _ Hl) as Hs.
    destruct (symptoms_change _ _); [done|]. apply some_if_none in H as [Hr%negb_false_iff%bool_decide_eq_true _].
    constructor; try done. by apply Hs.
  - intros [? ? Hs ?]. pose proof (Forall2_length _ _ _ Hs) as Hl. split_and!; try done.
    apply symptoms_change_none in Hs as ->; [|done]. apply some_if_none.
    by rewrite negb_false_iff, bool_decide_eq_true.
Qed.

(** A change names its own reason, never the one of a match. *)
Lemma coverage_change_some cur covered r :
  coverage_change cur covered = Some r → r ≠ JudgmentApplicable ∧ r ≠ JudgmentUrgent.
Proof.
  assert (Hs : ∀ c v r', symptom_change c v = Some r' → r' ≠ JudgmentApplicable ∧ r' ≠ JudgmentUrgent).
  { intros c v r'. unfold symptom_change. repeat (destruct (_ : bool); [by intros [= <-]|]). done. }
  assert (Hss : ∀ cs vs r', symptoms_change cs vs = Some r' → r' ≠ JudgmentApplicable ∧ r' ≠ JudgmentUrgent).
  { induction cs as [|c cs IH]; intros [|v vs] r'; simpl; try done.
    destruct (symptom_change c v) eqn:E; [intros [= <-]; by eapply Hs|apply IH]. }
  unfold coverage_change. repeat (destruct (_ : bool); [by intros [= <-]|]).
  destruct (symptoms_change _ _) eqn:E; [intros [= <-]; by eapply Hss|].
  destruct (_ : bool); [by intros [= <-]|done].
Qed.

(** The latest delivery of an Alert. *)
Definition latest_of (ds : list Delivery) (d : Delivery) : Prop :=
  ∃ k, latestDeliveryPerAlert ds !! k = Some d.

Lemma hasCriticalFiring_false ds :
  hasCriticalFiring ds = false ↔
  ∀ d, latest_of ds d → Delivery_Status d = DeliveryStatusFiring → (Rank (Delivery_Severity d) < 4)%Z.
Proof.
  unfold hasCriticalFiring, latest_of. rewrite existsb_false_iff.
  setoid_rewrite andb_false_iff. setoid_rewrite bool_decide_eq_false. setoid_rewrite Z.leb_gt. split.
  - intros H d [k Hk] Hf. destruct (H (k, d)) as [?|?]; [by apply elem_of_map_to_list|done|done].
  - intros H [k d] Hk%elem_of_map_to_list. simpl.
    destruct (decide (Delivery_Status d = DeliveryStatusFiring)); [right|by left]. apply H; [by exists k|done].
Qed.

(** Nothing in the read overrules a judgment. *)
Record calm (inp : JudgmentInput) : Prop := {
  calm_open : Terminal (ji_Lifecycle inp) = false;
  calm_attention : is_urgent (ji_Attention inp) = false;
  calm_firing : ∀ d, latest_of (ji_Deliveries inp) d → Delivery_Status d = DeliveryStatusFiring →
                (Rank (Delivery_Severity d) < 4)%Z
}.

Lemma calm_iff inp :
  calm inp ↔ Terminal (ji_Lifecycle inp) = false ∧
             is_urgent (ji_Attention inp) || hasCriticalFiring (ji_Deliveries inp) = false.
Proof. rewrite orb_false_iff, hasCriticalFiring_false. split; [by intros []|intros (? & ? & ?); by constructor]. Qed.

Lemma evaluate_applicable j inp now :
  ja_Applicable (EvaluateExpectedJudgment j inp now) = true ↔
  judgment_expected j = true ∧ (now < ValidUntil j)%Z ∧ calm inp ∧
  ∃ current, DeriveExpectedJudgmentCoverage inp = Ok current ∧ same_coverage current (Coverage j).
Proof.
  rewrite calm_iff. unfold EvaluateExpectedJudgment, Before.
  destruct (judgment_expected j); cbn [negb]; [|naive_solver].
  destruct (Z.ltb_spec now (ValidUntil j)); cbn [negb]; [|cbn; split; [done|lia]].
  destruct (Terminal (ji_Lifecycle inp)); [naive_solver|].
  destruct (is_urgent (ji_Attention inp) || hasCriticalFiring (ji_Deliveries inp)); [naive_solver|].
  destruct (DeriveExpectedJudgmentCoverage inp) as [current|e]; cbn [ja_Applicable ja_Reason]; [|naive_solver].
  rewrite bool_decide_eq_true. split.
  - destruct (coverage_change current (Coverage j)) as [r|] eqn:E; cbn [default from_option id].
    + apply coverage_change_some in E. naive_solver.
    + apply coverage_change_none in E. naive_solver.
  - intros (_ & _ & _ & c & [= <-] & ->%coverage_change_none). done.
Qed.

(** The reason of an applicable judgment is its own. *)
Lemma evaluate_reason j inp now :
  ja_Applicable (EvaluateExpectedJudgment j inp now) = true ↔
  ja_Reason (EvaluateExpectedJudgment j inp now) = JudgmentApplicable.
Proof.
  unfold EvaluateExpectedJudgment. cbv zeta.
  repeat match goal with |- context [if ?b then _ else _] => destruct b end; try done.
  destruct (DeriveExpectedJudgmentCoverage inp); cbn; [|done]. apply bool_decide_eq_true.
Qed.

(** C27. A judgment applies exactly when it is in force and unexpired, nothing
    urgent, critical or terminal overrules it, and the coverage of the current
    read is the coverage the operator judged, symptom by symptom; and an urgent
    read is told as urgent before any change of the facts is. *)
Theorem EvaluateExpectedJudgment_spec j inp now :
  let app := EvaluateExpectedJudgment j inp now in
  (ja_Applicable app = true ↔
     judgment_expected j = true ∧ (now < ValidUntil j)%Z ∧ calm inp ∧
     ∃ current, DeriveExpectedJudgmentCoverage inp = Ok current ∧ same_coverage current (Coverage j)) ∧
  (ja_Applicable app = true ↔ ja_Reason app = JudgmentApplicable) ∧
  (ja_Reason app = JudgmentUrgent ↔
     judgment_expected j = true ∧ (now < ValidUntil j)%Z ∧ Terminal (ji_Lifecycle inp) = false ∧ ¬ calm inp).
Proof.
  cbv zeta. split; [apply evaluate_applicable|]. split; [apply evaluate_reason|].
  rewrite calm_iff. unfold EvaluateExpectedJudgment, Before.
  destruct (judgment_expected j); cbn [negb]; [|naive_solver].
  destruct (Z.ltb_spec now (ValidUntil j)); cbn [negb]; [|cbn; split; [done|lia]].
  destruct (Terminal (ji_Lifecycle inp)); [naive_solver|].
  destruct (is_urgent (ji_Attention inp) || hasCriticalFiring (ji_Deliveries inp)); [naive_solver|].
  destruct (DeriveExpectedJudgmentCoverage inp) as [current|e]; cbn [ja_Applicable ja_Reason]; [|naive_solver].
  destruct (coverage_change current (Coverage j)) as [r|] eqn:E; cbn [default from_option id]; [|naive_solver].
  apply coverage_change_some in E. naive_solver.
Qed.

(** ** Routine repeats *)

(** Every Alert of a delivery is known: its identity is a foreign key. *)
Definition alerts_named (ds : list Delivery) : Prop := ∀ d, d ∈ ds → Delivery_AlertID d ≠ "".

(** A delivery that says again what the other said: the receipt, the digest and
    the counters may differ. *)
Record same_face (d cur : Delivery) : Prop := {
  sf_alert : Delivery_AlertID d = Delivery_AlertID cur;
  sf_status : Delivery_Status d = Delivery_Status cur;
  sf_severity : Delivery_Severity d = Delivery_Severity cur;
  sf_source : Delivery_Source d = Delivery_Source cur;
  sf_episode : Delivery_EpisodeKey d = Delivery_EpisodeKey cur;
  sf_signal : SourceSignalID d = SourceSignalID cur;
  sf_version : SourceSignalVersion d = SourceSignalVersion cur;
  sf_instance : Delivery_SourceInstanceID d = Delivery_SourceInstanceID cur;
  sf_labels : identity_labels (Labels d) = identity_labels (Labels cur)
}.

(** The rows grow by such repeats of the latest delivery of an Alert. *)
Inductive repeats (ds : list Delivery) : list Delivery → Prop :=
| repeats_none : repeats ds ds
| repeats_more ds' d cur :
    repeats ds ds' → latestDeliveryPerAlert ds' !! alertKeyOf d = Some cur → same_face d cur →
    repeats ds (ds' ++ [d]).

Definition with_deliveries (inp : JudgmentInput) (ds : list Delivery) : JudgmentInput :=
  {| ji_GroupKey := ji_GroupKey inp; ji_Lifecycle := ji_Lifecycle inp; ji_Attention := ji_Attention inp;
     ji_Deliveries := ds; ji_SourceDefinitions := ji_SourceDefinitions inp;
     ji_CurrentAssessment := ji_CurrentAssessment inp; ji_Judgment := ji_Judgment inp;
     ji_JudgmentApplicability := ji_JudgmentApplicability inp |}.

Lemma latest_member ds k d : latestDeliveryPerAlert ds !! k = Some d → d ∈ ds ∧ k = alertKeyOf d.
Proof.
  unfold latestDeliveryPerAlert. rewrite latest_by_lookup. intros [Hin _]%best_latest; [|apply _].
  by apply list_elem_of_filter in Hin as [? ?].
Qed.

Lemma firing_member ds d :
  d ∈ firing_deliveries ds ↔ latest_of ds d ∧ Delivery_Status d = DeliveryStatusFiring.
Proof.
  unfold firing_deliveries, latest_of. rewrite list_elem_of_filter, list_elem_of_fmap. split.
  - intros (Hf & [k d'] & -> & Hk%elem_of_map_to_list). split; [by exists k|done].
  - intros ([k Hk] & Hf). split; [done|]. exists (k, d). by rewrite elem_of_map_to_list.
Qed.

Lemma alertKeyOf_named d : Delivery_AlertID d ≠ "" → alertKeyOf d = Delivery_AlertID d.
Proof. unfold alertKeyOf, str_eqb. intros Hn%String.eqb_neq. by rewrite Hn. Qed.

(** With its Alerts named, the order in which the map is walked does not
    matter. *)
Lemma coverage_perm defs ds l :
  alerts_named ds → l ≡ₚ firing_deliveries ds →
  SliceStable (skey_ltb js_AlertID) (covered_symptom (definitions defs) <$> l) = covered_symptoms defs ds.
Proof.
  intros Hn Hp. apply SliceStable_unique; [apply _| |by rewrite Hp].
  intros x y (dx & -> & Hx)%list_elem_of_fmap (dy & -> & Hy)%list_elem_of_fmap. unfold skey_ltb.
  intros H1 H2. pose proof (str_ltb_total _ _ H1 H2) as Heq. simpl in Heq.
  rewrite Hp in Hx, Hy. apply firing_member in Hx as [[kx Hx] _], Hy as [[ky Hy] _].
  apply latest_member in Hx as Hx'. apply latest_member in Hy as Hy'.
  destruct Hx' as [Hxi ->], Hy' as [Hyi ->].
  assert (Hk : alertKeyOf dx = alertKeyOf dy) by (rewrite !alertKeyOf_named; auto).
  rewrite Hk in Hx. congruence.
Qed.

Lemma identity_trigger labels : identity_labels labels !! "zabbix_trigger_id" = labels !! "zabbix_trigger_id".
Proof.
  unfold identity_labels. apply option_eq. intros v. rewrite map_lookup_filter_Some.
  split; [by intros []|done].
Qed.

Lemma same_face_symptom defs d cur : same_face d cur → covered_symptom defs d = covered_symptom defs cur.
Proof.
  intros [Ha _ Hsev Hsrc Hep Hsig Hver Hinst Hl]. unfold covered_symptom, observed_definition. cbv zeta.
  rewrite <- (identity_trigger (Labels d)), <- (identity_trigger (Labels cur)).
  by rewrite Ha, Hsev, Hsrc, Hep, Hsig, Hver, Hinst, Hl.
Qed.

Lemma latest_repeat ds d cur :
  latestDeliveryPerAlert ds !! alertKeyOf d = Some cur →
  ∃ d', (d' = d ∨ d' = cur) ∧ latestDeliveryPerAlert (ds ++ [d]) = <[alertKeyOf d := d']> (latestDeliveryPerAlert ds).
Proof.
  intros Hc. unfold latestDeliveryPerAlert, latest_by in *. rewrite foldl_snoc. unfold latest_step at 1 3.
  rewrite Hc. destruct (deliveryLess cur d); [by exists d; split; [left|]|]. exists cur. split; [by right|].
  by rewrite insert_id.
Qed.

(** What a repeat leaves alone: the latest delivery of every Alert, up to its
    receipt. *)
Lemma repeat_lookup ds d cur k :
  latestDeliveryPerAlert ds !! alertKeyOf d = Some cur → same_face d cur →
  option_Forall2 same_face (latestDeliveryPerAlert (ds ++ [d]) !! k) (latestDeliveryPerAlert ds !! k).
Proof.
  intros Hc Hf. destruct (latest_repeat ds d cur Hc) as (d' & Hd' & ->).
  destruct (decide (k = alertKeyOf d)) as [->|Hk].
  - rewrite lookup_insert_eq, Hc. constructor. by destruct Hd' as [->| ->].
  - rewrite lookup_insert_ne by done. by destruct (latestDeliveryPerAlert ds !! k); constructor.
Qed.

Lemma repeat_latest_of ds d cur x :
  latestDeliveryPerAlert ds !! alertKeyOf d = Some cur → same_face d cur →
  latest_of (ds ++ [d]) x → ∃ y, latest_of ds y ∧ same_face x y.
Proof.
  intros Hc Hf [k Hk]. pose proof (repeat_lookup ds d cur k Hc Hf) as H. rewrite Hk in H.
  inversion H as [? y Hxy E|]; subst. exists y. split; [by exists k|done].
Qed.

Lemma repeat_firing defs ds d cur :
  latestDeliveryPerAlert ds !! alertKeyOf d = Some cur → same_face d cur →
  covered_symptom defs <$> firing_deliveries (ds ++ [d]) ≡ₚ covered_symptom defs <$> firing_deliveries ds.
Proof.
  intros Hc Hf. destruct (latest_repeat ds d cur Hc) as (d' & Hd' & Hl).
  assert (Hs : same_face d' cur) by (by destruct Hd' as [->| ->]).
  set (m := latestDeliveryPerAlert ds) in *. set (k := alertKeyOf d) in *.
  assert (H1 : map_to_list m ≡ₚ (k, cur) :: map_to_list (delete k m)).
  { rewrite <- (insert_delete_id m k cur Hc) at 1. apply map_to_list_insert, lookup_delete_eq. }
  assert (H2 : map_to_list (<[k := d']> m) ≡ₚ (k, d') :: map_to_list (delete k m)).
  { rewrite <- insert_delete_eq. apply map_to_list_insert, lookup_delete_eq. }
  unfold firing_deliveries. fold m. rewrite Hl, H1, H2. rewrite !fmap_cons, !filter_cons. cbn [snd].
  pose proof (sf_status _ _ Hs) as Hst. pose proof (same_face_symptom defs _ _ Hs) as Hsy.
  repeat case_decide; rewrite ?fmap_cons, ?Hsy; try done; congruence.
Qed.

Lemma covered_symptoms_repeat defs ds d cur :
  alerts_named (ds ++ [d]) → latestDeliveryPerAlert ds !! alertKeyOf d = Some cur → same_face d cur →
  covered_symptoms defs (ds ++ [d]) = covered_symptoms defs ds.
Proof.
  intros Hn Hc Hf. pose proof (repeat_firing (definitions defs) ds d cur Hc Hf) as Hp.
  unfold covered_symptoms. apply SliceStable_unique; [apply _| |done].
  intros x y Hx Hy. rewrite Hp in Hx, Hy. revert Hx Hy.
  intros (dx & -> & Hx)%list_elem_of_fmap (dy & -> & Hy)%list_elem_of_fmap. unfold skey_ltb.
  intros H1 H2. pose proof (str_ltb_total _ _ H1 H2) as Heq. simpl in Heq.
  apply firing_member in Hx as [[kx Hx] _], Hy as [[ky Hy] _].
  apply latest_member in Hx as Hx', Hy as Hy'. destruct Hx' as [Hxi ->], Hy' as [Hyi ->].
  assert (Hk : alertKeyOf dx = alertKeyOf dy).
  { rewrite !alertKeyOf_named; [done|apply Hn, elem_of_app; by left..]. }
  rewrite Hk in Hx. congruence.
Qed.

Lemma calm_repeat inp ds d cur :
  latestDeliveryPerAlert ds !! alertKeyOf d = Some cur → same_face d cur →
  calm (with_deliveries inp ds) → calm (with_deliveries inp (ds ++ [d])).
Proof.
  intros Hc Hf [H1 H2 H3]. constructor; [done..|]. intros x Hx Hst.
  destruct (repeat_latest_of ds d cur x Hc Hf Hx) as (y & Hy & Hxy).
  rewrite (sf_severity _ _ Hxy). apply H3; [done|]. by rewrite <- (sf_status _ _ Hxy).
Qed.

(** Every definition the sources proved is named. *)
Definition definitions_named (defs : list SourceDefinition) : Prop :=
  ∀ d, d ∈ defs → sd_Available d = true → sd_InstanceID d ≠ "" ∧ sd_Version d ≠ "".

Lemma definitions_member defs k d : definitions defs !! k = Some d → d ∈ defs.
Proof.
  unfold definitions. induction defs as [|x defs IH] using rev_ind; [done|]. rewrite foldl_snoc.
  destruct (decide (k = sourceDefinitionKey (sd_InstanceID x) (sd_RuleID x))) as [->|Hk].
  - rewrite lookup_insert_eq. intros [= ->]. apply elem_of_app. right. by left.
  - rewrite lookup_insert_ne by done. intros H. apply elem_of_app. left. by apply IH.
Qed.

Lemma stringPtr_some v : v ≠ "" → stringPtr v = Some v.
Proof. unfold stringPtr, str_eqb. intros H%String.eqb_neq. by rewrite H. Qed.

Lemma covered_self defs d :
  definitions_named defs → same_symptom (covered_symptom (definitions defs) d) (covered_symptom (definitions defs) d).
Proof.
  intros Hn. constructor; try done; [by split; [|intros k v ->]|]. cbn. 
  destruct (observed_definition (definitions defs) d) as [def|] eqn:E; [right|by left].
  assert (Hd : def ∈ defs ∧ sd_Available def = true).
  { unfold observed_definition in E. destruct (Delivery_SourceInstanceID d); [|done].
    destruct (str_eqb _ _); [|done]. destruct (definitions defs !! _) as [x|] eqn:Ex; [|done].
    destruct (sd_Available x) eqn:Ea; [|done]. injection E as <-. split; [by eapply definitions_member|done]. }
  destruct (Hn def (proj1 Hd) (proj2 Hd)) as [Hi Hv]. cbn. rewrite !stringPtr_some by done. by split; eexists.
Qed.

Lemma coverage_self inp cov :
  definitions_named (ji_SourceDefinitions inp) → DeriveExpectedJudgmentCoverage inp = Ok cov → same_coverage cov cov.
Proof.
  unfold DeriveExpectedJudgmentCoverage. intros Hn. destruct (negb _); [|done].
  destruct (ji_CurrentAssessment inp) as [a|]; [|done]. cbv zeta. destruct (negb _); [|done]. intros [= <-].
  constructor; try done. cbn [jc_Symptoms]. apply Forall2_same_length_lookup_2; [done|].
  intros i x y Hx Hy. rewrite Hx in Hy. injection Hy as <-. apply list_elem_of_lookup_2 in Hx.
  unfold covered_symptoms in Hx. rewrite SliceStable_perm in Hx.
  apply list_elem_of_fmap in Hx as (d & -> & _). by apply covered_self.
Qed.

(** A judgment recorded on a calm read applies to it and to every later
    read that only adds routine repeats of what already fired: receipts,
    payload digests and poll counters never withdraw an operator's authority
    before it ends. *)
Theorem judgment_survives_repeats inp ds ds' cov rev op who deadline now :
  alerts_named ds' → definitions_named (ji_SourceDefinitions inp) → repeats ds ds' →
  calm (with_deliveries inp ds) → DeriveExpectedJudgmentCoverage (with_deliveries inp ds) = Ok cov →
  (now < deadline)%Z →
  EvaluateExpectedJudgment
    {| Revision := rev; Operation := op; j_AssertedOperator := who; judgment_expected := true; ValidUntil := deadline; Coverage := cov |}
    (with_deliveries inp ds') now = {| ja_Applicable := true; ja_Reason := JudgmentApplicable |}.
Proof.
  intros Hn Hd Hr Hcalm Hcov Hnow.
  assert (H : calm (with_deliveries inp ds') ∧ DeriveExpectedJudgmentCoverage (with_deliveries inp ds') = Ok cov).
  { induction Hr as [|ds' d cur Hr IH Hc Hf]; [done|].
    destruct IH as [IHc IHd]; [intros x Hx; apply Hn, elem_of_app; by left|].
    split; [by eapply calm_repeat|]. rewrite <- IHd. unfold DeriveExpectedJudgmentCoverage. cbn.
    by rewrite (covered_symptoms_repeat _ _ _ _ Hn Hc Hf). }
  destruct H as [Hc' Hcov'].
  match goal with |- EvaluateExpectedJudgment ?j ?i ?t = _ =>
    assert (Hb : ja_Applicable (EvaluateExpectedJudgment j i t) = true);
      [|pose proof (proj1 (evaluate_reason j i t) Hb); destruct (EvaluateExpectedJudgment j i t); simpl in *; congruence] end.
  apply evaluate_applicable. split_and!; try done. exists cov. split; [done|].
  by apply (coverage_self (with_deliveries inp ds')).
Qed.

(** ** The overlay *)

Lemma commit_applicable c j inp now :
  ja_Applicable (commit_applicability c j inp now) = true →
  is_urgent (gc_Attention c) = false ∧ is_urgent (A_Attention (gc_Assessment c)) = false ∧
  judgment_expected j = true ∧ (now < ValidUntil j)%Z ∧ Terminal (gc_Lifecycle c) = false.
Proof.
  unfold commit_applicability. cbv zeta.
  destruct (is_urgent (gc_Attention c)); [done|]. destruct (is_urgent (A_Attention (gc_Assessment c))); [done|].
  cbn [orb]. destruct (ja_Applicable (ji_JudgmentApplicability inp)) eqn:Ha; cbn [orb];
    [|destruct (bool_decide _); [|congruence]]; intros H; by apply evaluate_applicable in H as (? & ? & [? ? ?] & _).
Qed.

(** The Assessment stays valid, for the start of the cycle the overlay ends. *)
Lemma judged_valid c inp start now :
  (start ≤ now)%Z → A_Lifecycle (gc_Assessment c) = gc_Lifecycle c →
  Assessment_Validate (gc_Assessment c) start = Ok tt →
  Assessment_Validate (gc_Assessment (applyExpectedJudgment c inp now)) start = Ok tt.
Proof.
  intros Hle Hl Hv. unfold applyExpectedJudgment. destruct (ji_Judgment inp) as [j|]; [|done].
  cbv zeta. destruct (ja_Applicable (commit_applicability c j inp now)) eqn:Ea; cbn [negb]; [|done].
  destruct (commit_applicable _ _ _ _ Ea) as (_ & _ & _ & Hd & Ht).
  apply overlaid_valid; [by rewrite Hl|done|lia].
Qed.

Lemma judged_cases c inp now :
  let c' := applyExpectedJudgment c inp now in
  gc_Lifecycle c' = gc_Lifecycle c ∧ gc_Attention c' = gc_Attention c ∧
  gc_Assessment c' = with_contract (gc_Assessment c) (A_ActionContract (gc_Assessment c')) ∧
  (gc_Assessment c' = gc_Assessment c ∧ gc_ConsumedDueReasons c' = gc_ConsumedDueReasons c ∧
   gc_JudgmentApplicable c' = gc_JudgmentApplicable c ∨
   ∃ j t, ji_Judgment inp = Some j ∧ judgment_expected j = true ∧
     is_urgent (gc_Attention c) || is_urgent (A_Attention (gc_Assessment c)) = false ∧
     Terminal (gc_Lifecycle c) = false ∧ gc_JudgmentApplicable c' = true ∧
     ("judgment_boundary" ∉ gc_ConsumedDueReasons c') ∧
     AC_OperatorActionRequired (A_ActionContract (gc_Assessment c')) = None ∧
     AC_NextUpdateAt (A_ActionContract (gc_Assessment c')) = Some t ∧ (t ≤ ValidUntil j)%Z).
Proof.
  assert (Hsame : gc_Assessment c = with_contract (gc_Assessment c) (A_ActionContract (gc_Assessment c)))
    by by destruct (gc_Assessment c).
  cbv zeta. unfold applyExpectedJudgment. destruct (ji_Judgment inp) as [j|] eqn:Ej; [|by split_and!; auto].
  cbv zeta. destruct (ja_Applicable (commit_applicability c j inp now)) eqn:Ea; cbn [negb]; [|by split_and!; auto].
  destruct (commit_applicable _ _ _ _ Ea) as (Hu1 & Hu2 & He & Hd & Ht).
  cbn [gc_Lifecycle gc_Attention gc_Assessment gc_ConsumedDueReasons gc_JudgmentApplicable].
  split_and!; try done. right.
  destruct (overlay_next (A_ActionContract (gc_Assessment c)) (ValidUntil j)) as (t & Hn & Hle & _ & _).
  exists j, t. rewrite Hu1, Hu2. split_and!; try done. rewrite list_elem_of_filter. tauto.
Qed.

(** The overlay of a judgment on a commit: it never touches the lifecycle,
    the Attention or the findings, and an urgent or terminal commit not at all;
    where it applies, it withdraws what was asked of the operator until the
    judgment ends, brings the next update forward to that end, and keeps the
    deadline of the judgment among the reasons still due; and the Assessment
    stays valid. *)
Theorem applyExpectedJudgment_spec c inp now :
  A_Lifecycle (gc_Assessment c) = gc_Lifecycle c → Assessment_Validate (gc_Assessment c) now = Ok tt →
  let c' := applyExpectedJudgment c inp now in
  Assessment_Validate (gc_Assessment c') now = Ok tt ∧
  gc_Lifecycle c' = gc_Lifecycle c ∧ gc_Attention c' = gc_Attention c ∧
  gc_Assessment c' = with_contract (gc_Assessment c) (A_ActionContract (gc_Assessment c')) ∧
  (gc_Assessment c' = gc_Assessment c ∧ gc_ConsumedDueReasons c' = gc_ConsumedDueReasons c ∧
   gc_JudgmentApplicable c' = gc_JudgmentApplicable c ∨
   ∃ j t, ji_Judgment inp = Some j ∧ judgment_expected j = true ∧
     is_urgent (gc_Attention c) || is_urgent (A_Attention (gc_Assessment c)) = false ∧
     Terminal (gc_Lifecycle c) = false ∧ gc_JudgmentApplicable c' = true ∧
     ("judgment_boundary" ∉ gc_ConsumedDueReasons c') ∧
     AC_OperatorActionRequired (A_ActionContract (gc_Assessment c')) = None ∧
     AC_NextUpdateAt (A_ActionContract (gc_Assessment c')) = Some t ∧ (now < t ≤ ValidUntil j)%Z).
Proof.
  intros Hl Hv. cbv zeta. pose proof (judged_valid c inp now now ltac:(done) Hl Hv) as Hv'.
  split; [done|]. destruct (judged_cases c inp now) as (? & ? & ? & Hc). split_and!; try done.
  destruct Hc as [?|(j & t & ? & ? & ? & ? & ? & ? & ? & Hn & Hle)]; [by left|]. right. exists j, t.
  split_and!; try done. unfold Assessment_Validate in Hv'. apply res_bind_unit in Hv' as [_ Hf].
  unfold requireFreshNextUpdateAt in Hf. rewrite Hn in Hf.
  destruct (After t now) eqn:E; [by apply After_iff in E|done].
Qed.

(** ** Witnesses *)

Definition ex_read : JudgmentInput :=
  {| ji_GroupKey := "g"; ji_Lifecycle := LifecycleActive; ji_Attention := AttentionInvestigate;
     ji_Deliveries := []; ji_SourceDefinitions :=
       [{| sd_InstanceID := "z1"; sd_RuleID := ""; sd_Available := true; sd_Version := "v1" |}];
     ji_CurrentAssessment := Some ex_assessment; ji_Judgment := None;
     ji_JudgmentApplicability := {| ja_Applicable := false; ja_Reason := JudgmentUndecided |} |}.

Definition ex_warning (id : string) (at_ : Z) : Delivery :=
  {| Delivery_ID := id; Delivery_IncidentID := "inc"; Delivery_Status := DeliveryStatusFiring;
     SourceStartedAt := Some (10 * Second)%Z; StartedAtBasis := SourceTimeBasisSourceAPI;
     SourceResolvedAt := None; ReceivedAt := (at_ * Second)%Z; Delivery_AlertID := "a1";
     Delivery_Severity := "warning"; Delivery_Source := "zabbix"; Delivery_EpisodeKey := "";
     Delivery_AcquisitionMode := "poll"; Delivery_PollIntervalSeconds := 60%Z;
     PayloadDigest := "p" +:+ id; ResolvedAtBasis := SourceTimeBasisMissing; Drill := false;
     Labels := <["alertname" := "HighLoad"]> (<["severity" := "warning"]> ∅);
     SourceSignalID := None; SourceSignalVersion := None; Delivery_SourceInstanceID := Some "z1" |}.

Definition ex_coverage : ExpectedJudgmentCoverage :=
  {| jc_Scope := "g"; jc_Impact := ImpactUnknown; jc_EvidenceRefs := [];
     jc_Symptoms := [covered_symptom (definitions (ji_SourceDefinitions ex_read)) (ex_warning "d1" 20)] |}.

Definition ex_judgment : SituationJudgment :=
  {| Revision := 1; Operation := JudgmentOperationRecord; j_AssertedOperator := "ada"; judgment_expected := true;
     ValidUntil := (ex_now + Hour)%Z; Coverage := ex_coverage |}.

Lemma judgment_survives_repeats_witness :
  EvaluateExpectedJudgment ex_judgment
    (with_deliveries ex_read ([ex_warning "d1" 20] ++ [ex_warning "d2" 80])) ex_now
  = {| ja_Applicable := true; ja_Reason := JudgmentApplicable |}.
Proof.
  apply (judgment_survives_repeats ex_read [ex_warning "d1" 20]).
  - intros d Hd. simpl in Hd. by repeat (apply elem_of_cons in Hd as [->|Hd]); [..|by apply elem_of_nil in Hd].
  - intros d [->|Hd]%elem_of_cons; [done|by apply elem_of_nil in Hd].
  - eapply repeats_more; [constructor|vm_compute; reflexivity|by constructor].
  - apply calm_iff. vm_compute. split; reflexivity.
  - vm_compute. reflexivity.
  - by vm_compute.
Defined.

Lemma applyExpectedJudgment_spec_witness :
  let c := {| gc_Lifecycle := LifecycleActive; gc_Attention := AttentionInvestigate;
              gc_Assessment := ex_assessment; gc_ConsumedDueReasons := ["judgment_boundary"; "triage_changed"];
              gc_JudgmentRevision := 0; gc_JudgmentApplicable := false;
              gc_JudgmentApplicabilityReason := JudgmentUndecided |} in
  let inp := {| ji_GroupKey := "g"; ji_Lifecycle := LifecycleActive; ji_Attention := AttentionInvestigate;
                ji_Deliveries := [ex_warning "d1" 20]; ji_SourceDefinitions := ji_SourceDefinitions ex_read;
                ji_CurrentAssessment := Some ex_assessment; ji_Judgment := Some ex_judgment;
                ji_JudgmentApplicability := {| ja_Applicable := true; ja_Reason := JudgmentApplicable |} |} in
  gc_JudgmentApplicable (applyExpectedJudgment c inp ex_now) = true ∧
  Assessment_Validate (gc_Assessment (applyExpectedJudgment c inp ex_now)) ex_now = Ok tt.
Proof.
  cbv zeta. split; [vm_compute; reflexivity|].
  apply applyExpectedJudgment_spec; vm_compute; reflexivity.
Defined.

(** Two label sets are told apart by their values only: an absent label is read
    as an empty one. *)
Lemma equalLabels_empty : equalLabels {["a" := ""]} {["b" := ""]} = true.
Proof. reflexivity. Qed.
