(* ===== verification/Lifecycle.v ===== *)
(** * Situation lifecycle (internal/situation)

    [lifecycle.go]: the transition table and the timing derivations.
    [snapshot.go], [incident_digest.go]: the latest delivery of an Alert and the
    symptom of an Incident.  [source_lifecycle.go]: the fold of prepared source
    observations.  [controller.go]: [resolveLifecycle], the controller's choice
    of the next lifecycle, and the row constraints the store puts on it
    ([internal/store/migrations/0015_situation_foundation.sql]).

    Records carry the fields the modelled functions read. *)

From stdpp Require Import prelude strings list gmap sorting.
From S2P Require Import Prelude Severity SituationModel Snapshot.

(** ** Transition table *)

Inductive Event : Set :=
| EventRecoveryObserved
| EventRefired
| EventGraceExpired
| EventLifecycleUnobservable.

(** The new lifecycle and the error, [None] when there is none. *)
Definition AdvanceLifecycle (from : Lifecycle) (event : Event) : Lifecycle * option string :=
  let invalid := (from, Some "situation: invalid lifecycle transition") in
  match from with
  | LifecycleActive =>
      match event with
      | EventRecoveryObserved => (LifecycleRecoveryPending, None)
      | EventLifecycleUnobservable => (LifecycleClosedUnknown, None)
      | EventRefired => (LifecycleActive, None)
      | EventGraceExpired => invalid
      end
  | LifecycleRecoveryPending =>
      match event with
      | EventRefired => (LifecycleActive, None)
      | EventGraceExpired => (LifecycleRecovered, None)
      | EventLifecycleUnobservable => (LifecycleClosedUnknown, None)
      | EventRecoveryObserved => (LifecycleRecoveryPending, None)
      end
  | LifecycleRecovered | LifecycleClosedUnknown => invalid
  | Lifecycle_other _ => invalid
  end.

(** ** Timing *)

Definition pollingRecoveryGraceFloor : Duration := (120 * Second)%Z.
Definition pollingRecoveryGraceCeiling : Duration := (600 * Second)%Z.
Definition observationDeadlineShort : Duration := (2 * Hour)%Z.
Definition observationDeadlineMedium : Duration := (24 * Hour)%Z.
Definition observationDeadlineLong : Duration := (7 * 24 * Hour)%Z.

Definition basisGrace (basis : SourceTimeBasis) (webhookGrace : Duration)
    (pollIntervalSeconds : Z) : Duration :=
  if negb (bool_decide (basis = SourceTimeBasisSourceAPI)) then webhookGrace
  else
    let g := dur_mul (dur_mul 2 pollIntervalSeconds) Second in
    if (g <? pollingRecoveryGraceFloor)%Z then pollingRecoveryGraceFloor
    else if (pollingRecoveryGraceCeiling <? g)%Z then pollingRecoveryGraceCeiling
    else g.

(** The loop over the deliveries, [first] until one was seen. *)
Fixpoint grace_loop (webhookGrace : Duration) (poll : Z) (first : bool) (longest : Duration)
    (ds : list Delivery) : Duration :=
  match ds with
  | [] => longest
  | d :: ds' =>
      let g := basisGrace (StartedAtBasis d) webhookGrace poll in
      grace_loop webhookGrace poll false
        (if first || (longest <? g)%Z then g else longest) ds'
  end.

Definition RecoveryGraceDuration (deliveries : list Delivery) (webhookGrace : Duration)
    (pollIntervalSeconds : Z) : Duration :=
  grace_loop webhookGrace pollIntervalSeconds true webhookGrace deliveries.

Definition RecoveryGraceUntil (recoveryObservedAt : Time) (deliveries : list Delivery)
    (webhookGrace : Duration) (pollIntervalSeconds : Z) : Time :=
  Add recoveryObservedAt (RecoveryGraceDuration deliveries webhookGrace pollIntervalSeconds).

Definition ObservationDeadlineDuration (durationClass : string) : Duration :=
  if str_eqb durationClass DurationClassSubminute || str_eqb durationClass DurationClassShort
  then observationDeadlineShort
  else if str_eqb durationClass DurationClassLong then observationDeadlineLong
  else observationDeadlineMedium.

Definition ObservationDeadlineAt (effectiveStartedAt : Time) (durationClass : string) : Time :=
  Add effectiveStartedAt (ObservationDeadlineDuration durationClass).

Definition ClosedUnknownReason (basis : SourceTimeBasis) (anyDeliveryResolved : bool)
    : TerminalReason :=
  let preciseProvenance := bool_decide (basis = SourceTimeBasisSourcePayload)
                           || bool_decide (basis = SourceTimeBasisSourceAPI) in
  if preciseProvenance && negb anyDeliveryResolved then TerminalReasonResolutionMissing
  else TerminalReasonObservationDeadline.

(** ** Reading deliveries and symptoms *)

Definition AnyFiring (symptoms : list Symptom) : bool :=
  existsb (λ s, firing_status (Symptom_Status s)) symptoms.

Definition anyDeliveryResolved (deliveries : list Delivery) : bool :=
  existsb (λ d, bool_decide (Delivery_Status d = DeliveryStatusResolved)) deliveries.

Definition sourceSilentThrough (deliveries : list Delivery) (now : Time) (window : Duration)
    : bool :=
  let cutoff := Add now (- window)%Z in
  forallb (λ d, negb (After (ReceivedAt d) cutoff)) deliveries.

(** ** Source observations *)

Definition SourceStateFiring : string := "firing".
Definition SourceStateResolved : string := "resolved".
Definition SourceStateUnobserved : string := "unobserved".

Definition minPollingGrace : Duration := (120 * Second)%Z.
Definition maxPollingGrace : Duration := (600 * Second)%Z.

(** The zero value a map read returns for an absent member. *)
Definition SourceObservation_zero : SourceObservation :=
  {| SO_AlertID := ""; SO_EpisodeKey := ""; SO_State := ""; SO_ObservedAt := time_zero;
     SO_EventStartedAt := None; SO_EventResolvedAt := None; SO_AcquisitionMode := "";
     SO_PollIntervalSeconds := 0%Z; SO_DeadlineAt := time_zero |}.

Record SourceLifecycle : Type := {
  SL_AnyFiring : bool;
  SL_AnyResolved : bool;
  SL_AllResolved : bool;
  SL_ClosureDue : bool;
  SL_Grace : Duration;
  SL_NextDeadlineAt : option Time
}.

Definition SourceLifecycle_zero : SourceLifecycle :=
  {| SL_AnyFiring := false; SL_AnyResolved := false; SL_AllResolved := false;
     SL_ClosureDue := false; SL_Grace := 0%Z; SL_NextDeadlineAt := None |}.

(** A time that is present and not zero. *)
Definition proven (t : option Time) : option Time :=
  match t with
  | Some t => if IsZero t then None else Some t
  | None => None
  end.

Definition resolvedBeforeEpisode (resolved other : SourceObservation) : bool :=
  str_eqb (SO_State resolved) SourceStateResolved &&
  match proven (SO_EventResolvedAt resolved), proven (SO_EventStartedAt other) with
  | Some r, Some s => Before r s
  | _, _ => false
  end.

(** The last two tests of [preferObservation]. *)
Definition observedLater (candidate current : SourceObservation) : bool :=
  if After (SO_ObservedAt candidate) (SO_ObservedAt current) then true
  else Equal (SO_ObservedAt candidate) (SO_ObservedAt current)
       && str_eqb (SO_State candidate) SourceStateFiring
       && negb (str_eqb (SO_State current) SourceStateFiring).

Definition preferObservation (candidate current : SourceObservation) : bool :=
  let sameEpisode := negb (str_eqb (SO_EpisodeKey candidate) "")
                     && str_eqb (SO_EpisodeKey candidate) (SO_EpisodeKey current) in
  if sameEpisode then observedLater candidate current
  else match proven (SO_EventStartedAt candidate), proven (SO_EventStartedAt current) with
       | Some c, Some u => if negb (Equal c u) then After c u else observedLater candidate current
       | _, _ =>
           if resolvedBeforeEpisode candidate current then false
           else if resolvedBeforeEpisode current candidate then true
           else observedLater candidate current
       end.

Definition graceFor (obs : SourceObservation) (webhookGrace : Duration) : Duration :=
  if negb (str_eqb (SO_AcquisitionMode obs) "poll") then webhookGrace
  else
    let g := dur_mul (dur_mul (SO_PollIntervalSeconds obs) Second) 2 in
    let g := if (g <? minPollingGrace)%Z then minPollingGrace else g in
    if (maxPollingGrace <? g)%Z then maxPollingGrace else g.

(** The map [latest] of the fold. *)
Definition latestObservations (observations : list SourceObservation)
    : gmap string SourceObservation :=
  latest_by SO_AlertID (λ cur o, preferObservation o cur) observations.

(** The state a member's observation reports now: a firing one past its own
    deadline, or none at all, is unobserved. *)
Definition memberState (obs : option SourceObservation) (now : Time) : string :=
  match obs with
  | None => SourceStateUnobserved
  | Some o =>
      if str_eqb (SO_State o) SourceStateFiring && negb (IsZero (SO_DeadlineAt o))
         && negb (Before now (SO_DeadlineAt o))
      then SourceStateUnobserved else SO_State o
  end.

Record Fold : Type := {
  f_anyFiring : bool;
  f_anyResolved : bool;
  f_allResolved : bool;
  f_allDeadlinePassed : bool;
  f_nextDeadline : option Time;
  f_maxGrace : Duration
}.

(** One turn of the loop over the expected members. *)
Definition reduceMember (latest : gmap string SourceObservation) (now : Time)
    (webhookGrace : Duration) (f : Fold) (id : string) : Fold :=
  let obs := default SourceObservation_zero (latest !! id) in
  let state := memberState (latest !! id) now in
  if str_eqb state SourceStateFiring then
    {| f_anyFiring := true; f_anyResolved := f_anyResolved f; f_allResolved := false;
       f_allDeadlinePassed := false; f_nextDeadline := f_nextDeadline f;
       f_maxGrace := f_maxGrace f |}
  else if str_eqb state SourceStateResolved then
    let g := graceFor obs webhookGrace in
    {| f_anyFiring := f_anyFiring f; f_anyResolved := true; f_allResolved := f_allResolved f;
       f_allDeadlinePassed := f_allDeadlinePassed f; f_nextDeadline := f_nextDeadline f;
       f_maxGrace := if (f_maxGrace f <? g)%Z then g else f_maxGrace f |}
  else
    let deadline := SO_DeadlineAt obs in
    let '(passed, next) :=
      if IsZero deadline then (false, f_nextDeadline f)
      else if Before now deadline then
        (false, match f_nextDeadline f with
                | Some n => if Before deadline n then Some deadline else Some n
                | None => Some deadline
                end)
      else (f_allDeadlinePassed f, f_nextDeadline f) in
    {| f_anyFiring := f_anyFiring f; f_anyResolved := f_anyResolved f; f_allResolved := false;
       f_allDeadlinePassed := passed; f_nextDeadline := next; f_maxGrace := f_maxGrace f |}.

Definition reduceMembers (latest : gmap string SourceObservation) (ids : list string)
    (now : Time) (webhookGrace : Duration) : Fold :=
  foldl (reduceMember latest now webhookGrace)
    {| f_anyFiring := false; f_anyResolved := false; f_allResolved := true;
       f_allDeadlinePassed := true; f_nextDeadline := None; f_maxGrace := 0%Z |} ids.

Definition ReduceSourceLifecycle (observations : list SourceObservation)
    (expectedAlertIDs : list string) (now : Time) (webhookGrace : Duration) : SourceLifecycle :=
  match expectedAlertIDs with
  | [] => SourceLifecycle_zero
  | _ =>
      let f := reduceMembers (latestObservations observations) expectedAlertIDs now webhookGrace in
      {| SL_AnyFiring := f_anyFiring f;
         SL_AnyResolved := f_anyResolved f;
         SL_AllResolved := f_allResolved f;
         SL_ClosureDue := negb (f_anyFiring f) && negb (f_allResolved f) && f_allDeadlinePassed f;
         SL_Grace := f_maxGrace f;
         SL_NextDeadlineAt := f_nextDeadline f |}
  end.

Definition expectedAlertIDs (deliveries : list Delivery) : list string :=
  sort_strings (remove_dups (alertKeyOf <$> deliveries)).

(** ** The controller's reduction of one prepared cycle *)

Record ControllerConfig : Type := {
  WebhookRecoveryGrace : Duration;
  PollingIntervalSeconds : Z
}.

Definition HorizonTierUnknown : string := "unknown".
Definition HorizonTierHours : string := "hours".
Definition HorizonTierDays : string := "days".

Fixpoint widest_loop (widest : string) (tiers : list string) : string :=
  match tiers with
  | [] => widest
  | t :: ts =>
      if str_eqb t HorizonTierDays then HorizonTierDays
      else widest_loop (if str_eqb t HorizonTierHours then HorizonTierHours else widest) ts
  end.

Definition WidestHorizonTier (guidance : list string) : string :=
  widest_loop HorizonTierUnknown guidance.

Definition LifecycleHorizon (tier : string) : Duration :=
  if str_eqb tier HorizonTierDays then (7 * 24 * Hour)%Z else (24 * Hour)%Z.

(** [receiptLatest]: [received] displaced by [d]. *)
Definition receivedLater (received d : Delivery) : bool :=
  After (ReceivedAt d) (ReceivedAt received)
  || (Equal (ReceivedAt d) (ReceivedAt received)
      && str_ltb (Delivery_ID received) (Delivery_ID d)).

(** [latest]: [cur] displaced by [d]. *)
Definition episodeNewer (cur d : Delivery) : bool :=
  if Equal (sourceTimeKey d) (sourceTimeKey cur) && Equal (ReceivedAt d) (ReceivedAt cur)
     && negb (bool_decide (Delivery_Status d = Delivery_Status cur))
  then firing_status (Delivery_Status d)
  else deliveryLess cur d.

Definition status_string (s : DeliveryStatus) : string :=
  match s with
  | DeliveryStatusFiring => SourceStateFiring
  | DeliveryStatusResolved => SourceStateResolved
  end.

Definition toObservation (inp : SnapshotInput) (id : string) (d : Delivery) : SourceObservation :=
  let horizon := Add (ReceivedAt d)
                   (LifecycleHorizon (WidestHorizonTier (Prepared_ProfileHorizons inp))) in
  let deadline :=
    foldl (λ dl o,
      if str_eqb (SO_AlertID o) id && str_eqb (SO_EpisodeKey o) (Delivery_EpisodeKey d)
         && Equal (SO_ObservedAt o) (ReceivedAt d) && negb (IsZero (SO_DeadlineAt o))
      then SO_DeadlineAt o else dl) horizon (Prepared_Lifecycle inp) in
  {| SO_AlertID := id; SO_EpisodeKey := Delivery_EpisodeKey d;
     SO_State := status_string (Delivery_Status d); SO_ObservedAt := ReceivedAt d;
     SO_EventStartedAt := SourceStartedAt d; SO_EventResolvedAt := SourceResolvedAt d;
     SO_AcquisitionMode := Delivery_AcquisitionMode d;
     SO_PollIntervalSeconds := Delivery_PollIntervalSeconds d; SO_DeadlineAt := deadline |}.

(** [ids1] and [ids2] are the orders in which the two maps hand out their keys. *)
Definition cycleObservations (inp : SnapshotInput) (ids1 ids2 : list string)
    : list SourceObservation :=
  let receiptLatest := latest_by alertKeyOf receivedLater (Deliveries inp) in
  let latest := latest_by alertKeyOf episodeNewer (Deliveries inp) in
  Prepared_Lifecycle inp
  ++ omap (λ id, toObservation inp id <$> receiptLatest !! id) ids1
  ++ omap (λ id,
       match latest !! id with
       | Some d =>
           if negb (str_eqb (default "" (Delivery_ID <$> receiptLatest !! id)) (Delivery_ID d))
           then Some (toObservation inp id d) else None
       | None => None
       end) ids2.

Definition reduceSourceLifecycle (cfg : ControllerConfig) (inp : SnapshotInput) (now : Time)
    (ids1 ids2 : list string) : SourceLifecycle :=
  if str_eqb (Prepared_CycleID inp) "" then SourceLifecycle_zero
  else ReduceSourceLifecycle (cycleObservations inp ids1 ids2)
         (expectedAlertIDs (Deliveries inp)) now (WebhookRecoveryGrace cfg).

(** ** The lifecycle decision *)

Record lifecycleResolution : Type := {
  lr_Lifecycle : Lifecycle;
  lr_RecoveryObservedAt : option Time;
  lr_GraceUntil : option Time;
  lr_TerminalAt : option Time;
  lr_TerminalReason : option TerminalReason
}.

Definition carry (cur : Situation) (l : Lifecycle) : lifecycleResolution :=
  {| lr_Lifecycle := l; lr_RecoveryObservedAt := RecoveryObservedAt cur;
     lr_GraceUntil := GraceUntil cur; lr_TerminalAt := TerminalAt cur;
     lr_TerminalReason := Situation_TerminalReason cur |}.

(** The evidence the decision rests on. *)
Record Evidence : Type := {
  e_firing : bool;
  e_resolved : bool;
  e_pastDeadline : bool;
  e_recoveryObserved : bool;
  e_graceDuration : Duration
}.

Definition lifecycleEvidence (cfg : ControllerConfig) (cur : Situation) (inp : SnapshotInput)
    (snap : Snapshot) (sl : SourceLifecycle) (now : Time) : Evidence :=
  if negb (str_eqb (Prepared_CycleID inp) "") then
    {| e_firing := SL_AnyFiring sl; e_resolved := SL_AnyResolved sl;
       e_pastDeadline := SL_ClosureDue sl; e_recoveryObserved := SL_AllResolved sl;
       e_graceDuration := SL_Grace sl |}
  else
    let deadline := ObservationDeadlineAt (EffectiveStartedAt cur) (Snap_DurationClass snap) in
    {| e_firing := AnyFiring (Snap_Symptoms snap);
       e_resolved := anyDeliveryResolved (Deliveries inp);
       e_pastDeadline := negb (Before now deadline);
       e_recoveryObserved := (0 <? length (Snap_Symptoms snap))%nat;
       e_graceDuration := RecoveryGraceDuration (Deliveries inp) (WebhookRecoveryGrace cfg)
                            (PollingIntervalSeconds cfg) |}.

Definition resolveLifecycle (cfg : ControllerConfig) (cur : Situation) (inp : SnapshotInput)
    (snap : Snapshot) (sl : SourceLifecycle) (now : Time) : lifecycleResolution :=
  let e := lifecycleEvidence cfg cur inp snap sl now in
  let only l := {| lr_Lifecycle := l; lr_RecoveryObservedAt := None; lr_GraceUntil := None;
                   lr_TerminalAt := None; lr_TerminalReason := None |} in
  match Situation_Lifecycle cur with
  | LifecycleActive =>
      if e_firing e then only LifecycleActive
      else if e_recoveryObserved e then
        {| lr_Lifecycle := (AdvanceLifecycle LifecycleActive EventRecoveryObserved).1;
           lr_RecoveryObservedAt := Some now;
           lr_GraceUntil := Some (Add now (e_graceDuration e));
           lr_TerminalAt := None; lr_TerminalReason := None |}
      else if e_pastDeadline e then
        {| lr_Lifecycle := (AdvanceLifecycle LifecycleActive EventLifecycleUnobservable).1;
           lr_RecoveryObservedAt := None; lr_GraceUntil := None; lr_TerminalAt := Some now;
           lr_TerminalReason :=
             Some (ClosedUnknownReason (EffectiveStartedAtBasis cur) (e_resolved e)) |}
      else only LifecycleActive
  | LifecycleRecoveryPending =>
      if e_firing e then only (AdvanceLifecycle LifecycleRecoveryPending EventRefired).1
      else if e_pastDeadline e
              && sourceSilentThrough (Deliveries inp) now
                   (ObservationDeadlineDuration (Snap_DurationClass snap)) then
        {| lr_Lifecycle :=
             (AdvanceLifecycle LifecycleRecoveryPending EventLifecycleUnobservable).1;
           lr_RecoveryObservedAt := RecoveryObservedAt cur; lr_GraceUntil := GraceUntil cur;
           lr_TerminalAt := Some now;
           lr_TerminalReason :=
             Some (ClosedUnknownReason (EffectiveStartedAtBasis cur) (e_resolved e)) |}
      else if match GraceUntil cur with Some g => negb (Before now g) | None => false end then
        {| lr_Lifecycle := (AdvanceLifecycle LifecycleRecoveryPending EventGraceExpired).1;
           lr_RecoveryObservedAt := RecoveryObservedAt cur; lr_GraceUntil := GraceUntil cur;
           lr_TerminalAt := Some now; lr_TerminalReason := None |}
      else
        {| lr_Lifecycle := LifecycleRecoveryPending;
           lr_RecoveryObservedAt := RecoveryObservedAt cur; lr_GraceUntil := GraceUntil cur;
           lr_TerminalAt := None; lr_TerminalReason := None |}
  | _ => carry cur (Situation_Lifecycle cur)
  end.

(** ** The row constraints of table [situations] *)

Definition is_null {A} (o : option A) : bool := match o with Some _ => false | None => true end.

(** The two [CHECK]s on the recovery and terminal columns. *)
Definition situations_check (r : lifecycleResolution) : bool :=
  Bool.eqb (is_null (lr_RecoveryObservedAt r)) (is_null (lr_GraceUntil r)) &&
  match lr_Lifecycle r with
  | LifecycleActive =>
      is_null (lr_RecoveryObservedAt r) && is_null (lr_TerminalAt r) && is_null (lr_TerminalReason r)
  | LifecycleRecoveryPending =>
      negb (is_null (lr_RecoveryObservedAt r)) && is_null (lr_TerminalAt r)
      && is_null (lr_TerminalReason r)
  | LifecycleRecovered =>
      negb (is_null (lr_RecoveryObservedAt r)) && negb (is_null (lr_TerminalAt r))
      && is_null (lr_TerminalReason r)
  | LifecycleClosedUnknown =>
      negb (is_null (lr_TerminalAt r)) && negb (is_null (lr_TerminalReason r))
  | Lifecycle_other _ => false
  end.

(** Trigger [situations_legal_lifecycle_update]: the updates it lets through. *)
Definition legal_lifecycle_update (old new : Lifecycle) : bool :=
  match old, new with
  | LifecycleActive, (LifecycleActive | LifecycleRecoveryPending | LifecycleClosedUnknown) => true
  | LifecycleRecoveryPending,
    (LifecycleRecoveryPending | LifecycleActive | LifecycleRecovered | LifecycleClosedUnknown) => true
  | _, _ => false
  end.

(** ** Runs *)

(** The lifecycle after a sequence of events; an illegal one is refused. *)
Definition run_lifecycle (l : Lifecycle) (events : list Event) : Lifecycle :=
  foldl (λ l ev, (AdvanceLifecycle l ev).1) l events.

(** One reconciliation: what was loaded, the fold, and the clock. *)
Record Cycle : Type := {
  cy_in : SnapshotInput;
  cy_snap : Snapshot;
  cy_sl : SourceLifecycle;
  cy_now : Time
}.

Definition cycleEvidence (cfg : ControllerConfig) (cur : Situation) (c : Cycle) : Evidence :=
  lifecycleEvidence cfg cur (cy_in c) (cy_snap c) (cy_sl c) (cy_now c).

(** The row after the commit of a resolution. *)
Definition apply_resolution (cur : Situation) (r : lifecycleResolution) : Situation :=
  {| Situation_ID := Situation_ID cur; Situation_GroupKey := Situation_GroupKey cur;
     Situation_Lifecycle := lr_Lifecycle r; Situation_Attention := Situation_Attention cur;
     Situation_InputVersion := Situation_InputVersion cur; Situation_DueReasons := Situation_DueReasons cur;
     EffectiveStartedAt := EffectiveStartedAt cur;
     EffectiveStartedAtBasis := EffectiveStartedAtBasis cur;
     RecoveryObservedAt := lr_RecoveryObservedAt r; GraceUntil := lr_GraceUntil r;
     TerminalAt := lr_TerminalAt r; Situation_TerminalReason := lr_TerminalReason r |}.

Definition reconcile (cfg : ControllerConfig) (cur : Situation) (c : Cycle) : Situation :=
  apply_resolution cur
    (resolveLifecycle cfg cur (cy_in c) (cy_snap c) (cy_sl c) (cy_now c)).

Definition run_cycles (cfg : ControllerConfig) (cur : Situation) (cs : list Cycle) : Situation :=
  foldl (reconcile cfg) cur cs.

(** Is some member firing, as the cycle sees it? *)
Definition cycleFiring (c : Cycle) : bool :=
  if negb (str_eqb (Prepared_CycleID (cy_in c)) "") then SL_AnyFiring (cy_sl c)
  else AnyFiring (Snap_Symptoms (cy_snap c)).

(** ** A declarative reading of the fold *)

Inductive verdict : Type :=
| VFiring
| VResolved (grace : Duration)
| VSilent (deadline : Time).

Definition memberVerdict (latest : gmap string SourceObservation) (now : Time)
    (webhookGrace : Duration) (id : string) : verdict :=
  let obs := default SourceObservation_zero (latest !! id) in
  let state := memberState (latest !! id) now in
  if str_eqb state SourceStateFiring then VFiring
  else if str_eqb state SourceStateResolved then VResolved (graceFor obs webhookGrace)
  else VSilent (SO_DeadlineAt obs).

Definition verdicts (observations : list SourceObservation) (ids : list string) (now : Time)
    (webhookGrace : Duration) : list verdict :=
  memberVerdict (latestObservations observations) now webhookGrace <$> ids.

Definition isFiring (v : verdict) : bool := match v with VFiring => true | _ => false end.
Definition isResolved (v : verdict) : bool := match v with VResolved _ => true | _ => false end.

(** The member does not hold a closure back. *)
Definition deadlinePassed (now : Time) (v : verdict) : bool :=
  match v with
  | VFiring => false
  | VResolved _ => true
  | VSilent d => negb (IsZero d) && negb (Before now d)
  end.

Definition verdictGrace (v : verdict) : option Duration :=
  match v with VResolved g => Some g | _ => None end.

(** The deadline a silent member still has ahead. *)
Definition pendingDeadline (now : Time) (v : verdict) : option Time :=
  match v with
  | VSilent d => if negb (IsZero d) && Before now d then Some d else None
  | _ => None
  end.

(** What the fold promises, member by member. *)
Definition sourceLifecycleSpec (now : Time) (V : list verdict) : SourceLifecycle :=
  {| SL_AnyFiring := existsb isFiring V;
     SL_AnyResolved := existsb isResolved V;
     SL_AllResolved := forallb isResolved V;
     SL_ClosureDue := negb (existsb isFiring V) && negb (forallb isResolved V)
                      && forallb (deadlinePassed now) V;
     SL_Grace := foldl Z.max 0%Z (omap verdictGrace V);
     SL_NextDeadlineAt := list_min (omap (pendingDeadline now) V) |}.

(** ** Lemmas: runs *)

Lemma e_firing_cycle cfg cur c : e_firing (cycleEvidence cfg cur c) = cycleFiring c.
Proof. unfold cycleEvidence, lifecycleEvidence, cycleFiring. by case_match. Qed.

Lemma run_lifecycle_terminal l events :
  Terminal l = true → run_lifecycle l events = l.
Proof.
  intros Hl. unfold run_lifecycle. induction events as [|ev evs IH]; simpl; [done|].
  assert ((AdvanceLifecycle l ev).1 = l) as -> by (by destruct l).
  done.
Qed.

Lemma reconcile_terminal cfg cur c :
  Terminal (Situation_Lifecycle cur) = true → reconcile cfg cur c = cur.
Proof. destruct cur as [? ? [] ? ? ? ? ? ? ? ?]; simpl; done. Qed.

Lemma run_cycles_terminal cfg cur cs :
  Terminal (Situation_Lifecycle cur) = true → run_cycles cfg cur cs = cur.
Proof.
  intros H. unfold run_cycles. induction cs as [|c cs IH]; simpl; [done|].
  by rewrite reconcile_terminal.
Qed.

(** The two cases a nonterminal cycle distinguishes for recovery. *)
Lemma reconcile_active cfg cur c :
  Situation_Lifecycle cur = LifecycleActive →
  let cur' := reconcile cfg cur c in
  Situation_Lifecycle cur' = LifecycleActive ∨
  Situation_Lifecycle cur' = LifecycleClosedUnknown ∨
  (Situation_Lifecycle cur' = LifecycleRecoveryPending ∧ cycleFiring c = false ∧
   e_recoveryObserved (cycleEvidence cfg cur c) = true ∧
   GraceUntil cur' = Some (Add (cy_now c) (e_graceDuration (cycleEvidence cfg cur c)))).
Proof.
  intros H. simpl. rewrite <- (e_firing_cycle cfg cur). unfold cycleEvidence.
  unfold reconcile, resolveLifecycle. rewrite H. repeat case_match; simpl; tauto.
Qed.

Lemma reconcile_pending cfg cur c g :
  Situation_Lifecycle cur = LifecycleRecoveryPending → GraceUntil cur = Some g →
  let cur' := reconcile cfg cur c in
  (Situation_Lifecycle cur' = LifecycleActive ∧ cycleFiring c = true) ∨
  Situation_Lifecycle cur' = LifecycleClosedUnknown ∨
  (Situation_Lifecycle cur' = LifecycleRecovered ∧ cycleFiring c = false ∧ (g ≤ cy_now c)%Z ∧
   TerminalAt cur' = Some (cy_now c)) ∨
  (Situation_Lifecycle cur' = LifecycleRecoveryPending ∧ cycleFiring c = false ∧
   GraceUntil cur' = Some g).
Proof.
  intros H Hg. simpl. rewrite <- (e_firing_cycle cfg cur). unfold cycleEvidence.
  unfold reconcile, resolveLifecycle. rewrite H, Hg.
  repeat case_match; simpl; go_bool; tauto.
Qed.

(** What [recovered] rests on: a cycle that observed the recovery, cycles in
    which nothing fired, and one no earlier than the end of the grace. *)
Definition graceEpisode (cfg : ControllerConfig) (cur : Situation) (cs : list Cycle)
    (t : option Time) : Prop :=
  ∃ pre c0 mid c1 post,
    cs = pre ++ c0 :: mid ++ c1 :: post ∧
    Situation_Lifecycle (run_cycles cfg cur pre) = LifecycleActive ∧
    e_recoveryObserved (cycleEvidence cfg (run_cycles cfg cur pre) c0) = true ∧
    Forall (λ c, cycleFiring c = false) (c0 :: mid ++ [c1]) ∧
    (Add (cy_now c0) (e_graceDuration (cycleEvidence cfg (run_cycles cfg cur pre) c0))
     ≤ cy_now c1)%Z ∧
    t = Some (cy_now c1).

Lemma graceEpisode_cons cfg cur c cs t :
  graceEpisode cfg (reconcile cfg cur c) cs t → graceEpisode cfg cur (c :: cs) t.
Proof.
  intros (pre & c0 & mid & c1 & post & -> & H).
  by exists (c :: pre), c0, mid, c1, post.
Qed.

Lemma run_recovered_aux cfg cs : ∀ cur,
  Situation_Lifecycle (run_cycles cfg cur cs) = LifecycleRecovered →
  (Situation_Lifecycle cur = LifecycleActive →
   graceEpisode cfg cur cs (TerminalAt (run_cycles cfg cur cs))) ∧
  (∀ g, Situation_Lifecycle cur = LifecycleRecoveryPending → GraceUntil cur = Some g →
   (∃ mid c1 post, cs = mid ++ c1 :: post ∧ Forall (λ c, cycleFiring c = false) (mid ++ [c1]) ∧
      (g ≤ cy_now c1)%Z ∧ TerminalAt (run_cycles cfg cur cs) = Some (cy_now c1)) ∨
   graceEpisode cfg cur cs (TerminalAt (run_cycles cfg cur cs))).
Proof.
  induction cs as [|c cs IH]; intros cur Hrec; [by split; intros; simplify_eq/=; congruence|].
  change (run_cycles cfg cur (c :: cs)) with (run_cycles cfg (reconcile cfg cur c) cs) in *.
  destruct (IH _ Hrec) as [IHa IHp].
  assert (Hcl : Situation_Lifecycle (reconcile cfg cur c) ≠ LifecycleClosedUnknown).
  { intros Hc. rewrite run_cycles_terminal in Hrec by (by rewrite Hc). congruence. }
  split.
  - intros Ha. destruct (reconcile_active cfg cur c Ha) as [H|[H|(H & Hf & Ho & Hg)]].
    + by apply graceEpisode_cons, IHa.
    + done.
    + destruct (IHp _ H Hg) as [(mid & c1 & post & -> & Hq & Hle & Ht)|];
        [|by apply graceEpisode_cons].
      exists [], c, mid, c1, post. split_and!; try done. by constructor.
  - intros g Hp Hg.
    destruct (reconcile_pending cfg cur c g Hp Hg)
      as [[H _]|[H|[(H & Hf & Hle & Ht)|(H & Hf & Hg')]]].
    + right. by apply graceEpisode_cons, IHa.
    + done.
    + left. exists [], c, cs. split_and!; [done|by repeat constructor|done|].
      by rewrite run_cycles_terminal by (by rewrite H).
    + destruct (IHp _ H Hg') as [(mid & c1 & post & -> & Hq & Hle & Ht)|];
        [left|right; by apply graceEpisode_cons].
      exists (c :: mid), c1, post. split_and!; try done. by constructor.
Qed.

(** ** Lemmas: the fold *)

Lemma reduceMembers_spec latest ids now wg :
  let V := memberVerdict latest now wg <$> ids in
  reduceMembers latest ids now wg =
  {| f_anyFiring := existsb isFiring V; f_anyResolved := existsb isResolved V;
     f_allResolved := forallb isResolved V;
     f_allDeadlinePassed := forallb (deadlinePassed now) V;
     f_nextDeadline := list_min (omap (pendingDeadline now) V);
     f_maxGrace := foldl Z.max 0%Z (omap verdictGrace V) |}.
Proof.
  unfold reduceMembers. simpl. induction ids as [|id ids IH] using rev_ind; [done|].
  rewrite foldl_snoc, IH, fmap_app. clear IH. simpl.
  rewrite !existsb_app, !forallb_app, !omap_app. simpl.
  unfold memberVerdict, reduceMember. set (obs := default _ _). set (st := memberState _ _).
  destruct (str_eqb st SourceStateFiring); [|destruct (str_eqb st SourceStateResolved)]; simpl.
  - rewrite !app_nil_r. f_equal; by rewrite ?orb_true_r, ?andb_false_r, ?orb_false_r.
  - rewrite !app_nil_r, foldl_snoc.
    f_equal; rewrite ?orb_true_r, ?andb_true_r, ?orb_false_r; try done.
    case_match; go_bool; lia.
  - destruct (IsZero (SO_DeadlineAt obs)) eqn:Ez; [|destruct (Before now (SO_DeadlineAt obs)) eqn:Eb];
      simpl; rewrite ?app_nil_r; simpl;
      f_equal; rewrite ?orb_false_r, ?andb_true_r, ?andb_false_r; try done.
    rewrite list_min_snoc. destruct (list_min _) as [n|]; [|done].
    destruct (Before (SO_DeadlineAt obs) n) eqn:E; go_bool; f_equal; lia.
Qed.

(** ** Lemmas: which observation stands *)

Definition start0 (o : SourceObservation) : Time := default time_zero (proven (SO_EventStartedAt o)).
Definition firing01 (o : SourceObservation) : Z :=
  if str_eqb (SO_State o) SourceStateFiring then 1%Z else 0%Z.

(** Episode start, then observation time, then firing over anything else. *)
Definition obsRankLess : SourceObservation → SourceObservation → bool :=
  lex_less (key_ltb start0) (lex_less (key_ltb SO_ObservedAt) (key_ltb firing01)).

(** One Alert's observations either all prove their episode start or none
    does, and one episode has one start. *)
Definition consistentEpisodes (l : list SourceObservation) : Prop :=
  ((∀ o, o ∈ l → proven (SO_EventStartedAt o) = None) ∨
   (∀ o, o ∈ l → is_Some (proven (SO_EventStartedAt o)))) ∧
  (∀ o o', o ∈ l → o' ∈ l → SO_EpisodeKey o ≠ "" → SO_EpisodeKey o = SO_EpisodeKey o' →
     start0 o = start0 o').

Lemma observedLater_rank o cur :
  observedLater o cur = lex_less (key_ltb SO_ObservedAt) (key_ltb firing01) cur o.
Proof.
  unfold observedLater, lex_less, key_ltb, firing01, After, Equal.
  destruct (Z.ltb_spec (SO_ObservedAt cur) (SO_ObservedAt o)); [done|].
  destruct (Z.ltb_spec (SO_ObservedAt o) (SO_ObservedAt cur)),
    (Z.eqb_spec (SO_ObservedAt o) (SO_ObservedAt cur)); try lia; simpl; try done.
  by destruct (str_eqb (SO_State o) _), (str_eqb (SO_State cur) _).
Qed.

Lemma resolvedBeforeEpisode_unproven r o :
  proven (SO_EventStartedAt o) = None → resolvedBeforeEpisode r o = false.
Proof.
  intros H. unfold resolvedBeforeEpisode. rewrite H.
  by destruct (str_eqb _ _), (proven (SO_EventResolvedAt r)).
Qed.

Lemma preferObservation_rank l o cur :
  consistentEpisodes l → o ∈ l → cur ∈ l → preferObservation o cur = obsRankLess cur o.
Proof.
  intros [Hst Hep] Ho Hc. unfold preferObservation, obsRankLess, lex_less at 1.
  rewrite <- !observedLater_rank. unfold key_ltb.
  destruct (negb (str_eqb (SO_EpisodeKey o) "") && str_eqb (SO_EpisodeKey o) (SO_EpisodeKey cur)) eqn:E.
  { go_bool. rewrite (Hep o cur) by done. by rewrite Z.ltb_irrefl. }
  clear E Hep. destruct Hst as [Hn|Hs].
  - pose proof (Hn _ Ho) as H1. pose proof (Hn _ Hc) as H2. unfold start0.
    rewrite !resolvedBeforeEpisode_unproven by done. by rewrite H1, H2.
  - destruct (Hs _ Ho) as [c H1], (Hs _ Hc) as [u H2]. unfold start0. rewrite H1, H2. simpl.
    unfold Equal, After.
    destruct (Z.eqb_spec c u) as [->|]; simpl; [by rewrite Z.ltb_irrefl|].
    destruct (Z.ltb_spec u c); [done|]. by destruct (Z.ltb_spec c u); [|lia].
Qed.

Lemma latestObservations_aux observations id o :
  consistentEpisodes (filter (λ o, SO_AlertID o = id) observations) →
  latestObservations observations !! id = Some o →
  o ∈ filter (λ o, SO_AlertID o = id) observations ∧
  ∀ o', o' ∈ filter (λ o, SO_AlertID o = id) observations → obsRankLess o o' = false.
Proof.
  intros Hcons Hl. unfold latestObservations in Hl. rewrite latest_by_lookup in Hl.
  set (l := filter _ observations) in *.
  assert (Hsw : StrictWeak obsRankLess) by apply _.
  pose proof (best_is_latest (λ cur o, preferObservation o cur) (λ x, x ∈ l)) as H.
  destruct (H) with (l := l) (a := o) as [Hin Hmax]; try done.
  - intros x y Hx Hy. rewrite !(preferObservation_rank l) by done. apply sw_asym.
  - intros x y z Hx Hy Hz. rewrite !(preferObservation_rank l) by done.
    intros ??. by eapply sw_trans.
  - by apply Forall_forall.
  - split; [done|]. intros o' Ho'. rewrite <- (preferObservation_rank l) by done. by apply Hmax.
Qed.

(** ** Lemmas: grace *)

Lemma basisGrace_bounds basis wg poll :
  basisGrace basis wg poll = wg ∨
  (pollingRecoveryGraceFloor ≤ basisGrace basis wg poll ≤ pollingRecoveryGraceCeiling)%Z.
Proof.
  unfold basisGrace. case_match; [by left|right].
  repeat case_match; go_bool; try lia; split; unfold pollingRecoveryGraceFloor,
    pollingRecoveryGraceCeiling, Second in *; lia.
Qed.

Lemma grace_loop_max wg poll longest ds :
  grace_loop wg poll false longest ds =
  foldl Z.max longest ((λ d, basisGrace (StartedAtBasis d) wg poll) <$> ds).
Proof.
  revert longest. induction ds as [|d ds IH]; intros longest; simpl; [done|].
  rewrite IH. f_equal. case_match; go_bool; lia.
Qed.

Lemma foldl_max_spec x l :
  (x ≤ foldl Z.max x l)%Z ∧ (∀ y, y ∈ l → y ≤ foldl Z.max x l)%Z ∧ foldl Z.max x l ∈ x :: l.
Proof.
  revert x. induction l as [|z l IH]; intros x; simpl.
  - split_and!; [done| |by left]. by intros y ?%not_elem_of_nil.
  - destruct (IH (Z.max x z)) as (H1 & H2 & H3). split_and!; [lia| |].
    + intros y [->|Hy]%elem_of_cons; [lia|by apply H2].
    + apply elem_of_cons in H3 as [->|H3]; [|by do 2 right].
      destruct (Z.max_spec x z) as [[_ ->]|[_ ->]]; [right; left|left].
Qed.

(** ** Lemmas: map iteration *)

Lemma filter_omap_key {A} (f : string → option A) (key : A → string) (ids : list string) k :
  (∀ i a, f i = Some a → key a = i) →
  filter (λ a, key a = k) (omap f ids) = omap f (filter (λ x, x = k) ids).
Proof.
  intros Hf. induction ids as [|i ids IH]; [done|]. rewrite filter_cons.
  change (omap f (i :: ids)) with (match f i with Some a => a :: omap f ids | None => omap f ids end).
  destruct (f i) as [a|] eqn:E; rewrite ?filter_cons, ?(Hf _ _ E), IH; case_decide; try done;
    change (omap f (i :: ?l)) with (match f i with Some a => a :: omap f l | None => omap f l end);
    simpl; by rewrite E.
Qed.

Lemma cycleObservations_latest inp ids1 ids1' ids2 ids2' :
  ids1 ≡ₚ ids1' → ids2 ≡ₚ ids2' →
  latestObservations (cycleObservations inp ids1 ids2) =
  latestObservations (cycleObservations inp ids1' ids2').
Proof.
  intros H1 H2. apply map_eq. intros k. unfold latestObservations. rewrite !latest_by_lookup.
  f_equal. unfold cycleObservations. rewrite !filter_app. f_equal.
  rewrite !filter_omap_key; [by rewrite (filter_eq_perm _ _ k H1), (filter_eq_perm _ _ k H2)| | | |];
    intros i a H; repeat case_match; try done; simplify_option_eq; done.
Qed.

(** ** Theorems *)

(** C32. A Situation that starts active and ends recovered went through a grace
    episode: some cycle observed the recovery while nothing fired, no later
    cycle up to the closing one saw a firing member, the closing cycle came no
    earlier than that observation plus the grace derived there, and the
    terminal time stored is the closing cycle's clock. *)
Theorem recovered_needs_grace cfg cur cs :
  Situation_Lifecycle cur = LifecycleActive →
  Situation_Lifecycle (run_cycles cfg cur cs) = LifecycleRecovered →
  graceEpisode cfg cur cs (TerminalAt (run_cycles cfg cur cs)).
Proof. intros Ha Hr. by apply (run_recovered_aux cfg cs cur Hr). Qed.

(** Whatever the evidence, the lifecycle resolution of a row that satisfies
    the table's CHECK constraints satisfies them too, its change passes the
    legal-update trigger when the row is not terminal, and a terminal row is
    carried over unchanged. *)
Theorem resolveLifecycle_row_ok cfg cur inp snap sl now :
  situations_check (carry cur (Situation_Lifecycle cur)) = true →
  let r := resolveLifecycle cfg cur inp snap sl now in
  situations_check r = true ∧
  if Terminal (Situation_Lifecycle cur) then r = carry cur (Situation_Lifecycle cur)
  else legal_lifecycle_update (Situation_Lifecycle cur) (lr_Lifecycle r) = true.
Proof.
  destruct cur as [id gk l att iv due esa basis ro gu ta tr]; unfold resolveLifecycle; simpl.
  generalize (lifecycleEvidence cfg
    {| Situation_ID := id; Situation_GroupKey := gk; Situation_Lifecycle := l;
       Situation_Attention := att; Situation_InputVersion := iv; Situation_DueReasons := due; EffectiveStartedAt := esa;
       EffectiveStartedAtBasis := basis; RecoveryObservedAt := ro; GraceUntil := gu;
       TerminalAt := ta; Situation_TerminalReason := tr |} inp snap sl now).
  intros [fi re pd rob gd] Hc.
  destruct l; simpl in *; try done; unfold situations_check, carry in *; simpl in *;
    destruct ro, gu, ta, tr; try done;
    repeat (case_match; simpl); done.
Qed.

(** The fold of the prepared source observations is its member-by-member
    specification: firing and resolved are existential, recovery is universal,
    closure is due exactly when nothing fires, not all recovered and every
    member that is not resolved has a deadline that passed, the grace is the
    longest of the resolved members', and the next deadline the earliest still
    ahead. *)
Theorem ReduceSourceLifecycle_refines observations ids now webhookGrace :
  ids ≠ [] →
  ReduceSourceLifecycle observations ids now webhookGrace =
  sourceLifecycleSpec now (verdicts observations ids now webhookGrace).
Proof.
  intros Hne. unfold ReduceSourceLifecycle, verdicts. rewrite reduceMembers_spec.
  by destruct ids.
Qed.

(** Where one Alert's observations all prove their episode start or none
    does, and an episode has one start, the observation kept for the Alert is
    one of its own, and none of them has a later episode, or the same episode
    and a later observation, or ties with it and is the firing one. *)
Theorem latestObservations_latest observations id o :
  consistentEpisodes (filter (λ o, SO_AlertID o = id) observations) →
  latestObservations observations !! id = Some o →
  o ∈ observations ∧ SO_AlertID o = id ∧
  ∀ o', o' ∈ observations → SO_AlertID o' = id → obsRankLess o o' = false.
Proof.
  intros Hc Hl. destruct (latestObservations_aux _ _ _ Hc Hl) as [Hin Hmax].
  apply list_elem_of_filter in Hin as [Hk Hin].
  split_and!; [done|done|]. intros o' Ho' Hk'. apply Hmax. by apply list_elem_of_filter.
Qed.

(** The recovery grace of a nonempty set of deliveries is attained by one
    of them, no delivery asks for a longer one, and it is the configured
    webhook grace or lies in the polling window, whatever the poll interval
    (the doubling wraps at 64 bits before it is clamped). *)
Theorem RecoveryGraceDuration_bounds ds webhookGrace poll :
  ds ≠ [] →
  let g := RecoveryGraceDuration ds webhookGrace poll in
  (∃ d, d ∈ ds ∧ g = basisGrace (StartedAtBasis d) webhookGrace poll) ∧
  (∀ d, d ∈ ds → basisGrace (StartedAtBasis d) webhookGrace poll ≤ g)%Z ∧
  (g = webhookGrace ∨ (pollingRecoveryGraceFloor ≤ g ≤ pollingRecoveryGraceCeiling)%Z).
Proof.
  destruct ds as [|d ds]; [done|]. intros _. unfold RecoveryGraceDuration. simpl.
  rewrite grace_loop_max. set (f := λ d, basisGrace (StartedAtBasis d) webhookGrace poll).
  destruct (foldl_max_spec (f d) (f <$> ds)) as (Hge & Hall & Hin).
  change (foldl Z.max (f d) (f <$> ds) ∈ f <$> (d :: ds)) in Hin.
  apply list_elem_of_fmap in Hin as (d' & Hd' & Hin).
  split_and!.
  - by exists d'.
  - intros x [->|Hx]%elem_of_cons; [done|]. apply Hall. by apply (list_elem_of_fmap_2 f).
  - change (basisGrace (StartedAtBasis d) webhookGrace poll) with (f d). rewrite Hd'.
    apply basisGrace_bounds.
Qed.

(** The controller's reduction of a cycle does not depend on the orders in
    which Go ranges over its two maps. *)
Theorem reduceSourceLifecycle_deterministic cfg inp now ids1 ids1' ids2 ids2' :
  ids1 ≡ₚ ids1' → ids2 ≡ₚ ids2' →
  reduceSourceLifecycle cfg inp now ids1 ids2 = reduceSourceLifecycle cfg inp now ids1' ids2'.
Proof.
  intros H1 H2. unfold reduceSourceLifecycle, ReduceSourceLifecycle.
  by rewrite (cycleObservations_latest inp _ _ _ _ H1 H2).
Qed.

(** The only deterministic urgent floor rests on a live symptom: where every
    row names its Alert, an eligible critical anchor means that some symptom
    derived from the same deliveries is firing. *)
Theorem criticalAnchor_firing ds :
  distinct_ids ds → Forall (λ d, Delivery_AlertID d ≠ "") ds →
  criticalAnchorEligible ds = true → AnyFiring (deriveSymptoms ds) = true.
Proof.
  intros Hd Hne Hc. unfold criticalAnchorEligible in Hc.
  apply existsb_exists in Hc as ([k d] & Hin & Hf). simpl in Hf. go_bool.
  apply list_elem_of_In, elem_of_map_to_list in Hin.
  assert (Hkey : ∀ x, x ∈ ds → alertKeyOf x = Delivery_AlertID x).
  { intros x Hx. unfold alertKeyOf. rewrite Forall_forall in Hne.
    destruct (str_eqb (Delivery_AlertID x) "") eqn:E; [|done]. go_bool. by apply Hne in Hx. }
  destruct (latestByAlertID_elem _ _ _ Hin) as [Hk Hd'].
  assert (Hl : latestDeliveryPerAlert (filter (λ x, Delivery_IncidentID x = Delivery_IncidentID d) ds)
               !! alertKeyOf d = Some d).
  { unfold latestDeliveryPerAlert. eapply (latest_restrict _ Delivery_AlertID); try done.
    intros x Hx _. rewrite !Hkey by done. congruence. }
  unfold AnyFiring. apply existsb_exists. eexists. split.
  - apply list_elem_of_In. unfold deriveSymptoms.
    eapply (list_elem_of_fmap_2' _ _ (Delivery_IncidentID d)); [|reflexivity].
    unfold incident_keys, sort_strings. rewrite SliceStable_perm, elem_of_remove_dups.
    by apply (list_elem_of_fmap_2 Delivery_IncidentID).
  - simpl. by rewrite (incidentSymptomStatus_firing _ _ _ Hl).
Qed.

(** ** Concrete inputs *)

Definition ex_cfg : ControllerConfig :=
  {| WebhookRecoveryGrace := (90 * Second)%Z; PollingIntervalSeconds := 30%Z |}.

Definition ex_cycle (ds : list Delivery) (now : Z) : Cycle :=
  {| cy_in := ex_input ds;
     cy_snap := ex_snapshot ds [] [];
     cy_sl := SourceLifecycle_zero; cy_now := (now * Second)%Z |}.

Definition ex_cycles : list Cycle :=
  [ ex_cycle [ex_firing] 25; ex_cycle [ex_firing; ex_resolved] 31;
    ex_cycle [ex_firing; ex_resolved] 200 ].

Lemma recovered_needs_grace_witness :
  graceEpisode ex_cfg ex_situation ex_cycles (Some (200 * Second)%Z).
Proof.
  exact (recovered_needs_grace ex_cfg ex_situation ex_cycles
    (eq_refl LifecycleActive) (eq_refl LifecycleRecovered)).
Defined.

Lemma resolveLifecycle_row_ok_witness :
  situations_check (resolveLifecycle ex_cfg ex_situation (ex_input [ex_resolved])
    (cy_snap (ex_cycle [ex_resolved] 31)) SourceLifecycle_zero (31 * Second)%Z) = true.
Proof.
  exact (proj1 (resolveLifecycle_row_ok ex_cfg ex_situation (ex_input [ex_resolved])
    (cy_snap (ex_cycle [ex_resolved] 31)) SourceLifecycle_zero (31 * Second)%Z (eq_refl true))).
Defined.

Definition ex_obs (alert ep st : string) (start : option Z) (at_ : Z) : SourceObservation :=
  {| SO_AlertID := alert; SO_EpisodeKey := ep; SO_State := st; SO_ObservedAt := at_;
     SO_EventStartedAt := start; SO_EventResolvedAt := None; SO_AcquisitionMode := "poll";
     SO_PollIntervalSeconds := 100%Z; SO_DeadlineAt := 1000%Z |}.

Definition ex_observations : list SourceObservation :=
  [ ex_obs "a1" "e1" SourceStateResolved (Some 10%Z) 60%Z;
    ex_obs "a1" "e2" SourceStateFiring (Some 20%Z) 50%Z;
    ex_obs "a2" "" SourceStateResolved None 70%Z ].

Lemma ReduceSourceLifecycle_refines_witness :
  ReduceSourceLifecycle ex_observations ["a1"; "a2"] 80%Z (90 * Second)%Z =
  {| SL_AnyFiring := true; SL_AnyResolved := true; SL_AllResolved := false;
     SL_ClosureDue := false; SL_Grace := (200 * Second)%Z; SL_NextDeadlineAt := None |}.
Proof.
  exact (ReduceSourceLifecycle_refines ex_observations ["a1"; "a2"] 80%Z (90 * Second)%Z
    (λ H, match H with end)).
Defined.

Lemma ex_observations_consistent :
  consistentEpisodes (filter (λ o, SO_AlertID o = "a1") ex_observations).
Proof.
  change (consistentEpisodes [ ex_obs "a1" "e1" SourceStateResolved (Some 10%Z) 60%Z;
    ex_obs "a1" "e2" SourceStateFiring (Some 20%Z) 50%Z ]).
  split; [right|]; intros o; [|intros o'];
    repeat setoid_rewrite elem_of_cons; setoid_rewrite elem_of_nil; intros;
    destruct_or?; subst; simpl in *; try done; by eexists.
Qed.

Lemma latestObservations_latest_witness :
  obsRankLess (ex_obs "a1" "e2" SourceStateFiring (Some 20%Z) 50%Z)
              (ex_obs "a1" "e1" SourceStateResolved (Some 10%Z) 60%Z) = false.
Proof.
  apply (latestObservations_latest ex_observations "a1" _ ex_observations_consistent eq_refl).
  - by left.
  - done.
Defined.

Definition ex_prepared : SnapshotInput :=
  {| In_Situation := ex_situation;
     Deliveries := [ex_firing; ex_resolved; ex_delivery "d3" "" DeliveryStatusFiring 5];
     Incidents := []; In_Now := (40 * Second)%Z; Prepared_CycleID := "c1"; Prepared_Lifecycle := ex_observations;
     Prepared_ProfileHorizons := [HorizonTierHours] |}.

Lemma reduceSourceLifecycle_deterministic_witness :
  reduceSourceLifecycle ex_cfg ex_prepared (40 * Second)%Z ["a1"; "delivery:d3"] ["a1"; "delivery:d3"] =
  reduceSourceLifecycle ex_cfg ex_prepared (40 * Second)%Z ["delivery:d3"; "a1"] ["a1"; "delivery:d3"].
Proof. exact (reduceSourceLifecycle_deterministic _ _ _ _ _ _ _ (perm_swap _ _ _) (Permutation_refl _)). Defined.

Lemma RecoveryGraceDuration_bounds_witness :
  ∃ d, d ∈ [ex_firing; ex_resolved] ∧
  RecoveryGraceDuration [ex_firing; ex_resolved] (90 * Second)%Z 30%Z =
  basisGrace (StartedAtBasis d) (90 * Second)%Z 30%Z.
Proof.
  exact (proj1 (RecoveryGraceDuration_bounds [ex_firing; ex_resolved] (90 * Second)%Z 30%Z
    (λ H, match H with end))).
Defined.

(** [preferObservation] is not transitive once some observations of an Alert
    prove their episode start and others do not: the same three observations,
    stored in two orders, reduce to a firing and to a recovered Alert, and in
    the second order the late delivery of the older episode ends the refire. *)
Theorem ReduceSourceLifecycle_order_dependent :
  let older := ex_obs "a1" "e1" SourceStateResolved (Some 10%Z) 60%Z in
  let unproven := ex_obs "a1" "e2" SourceStateFiring None 50%Z in
  let refire := ex_obs "a1" "e3" SourceStateFiring (Some 20%Z) 40%Z in
  SL_AnyFiring (ReduceSourceLifecycle [older; unproven; refire] ["a1"] 70%Z 0%Z) = true ∧
  SL_AllResolved (ReduceSourceLifecycle [refire; unproven; older] ["a1"] 70%Z 0%Z) = true.
Proof. by vm_compute. Qed.

Lemma criticalAnchor_firing_witness : AnyFiring (deriveSymptoms [ex_firing]) = true.
Proof.
  refine (criticalAnchor_firing [ex_firing] _ _ eq_refl).
  - intros a b ->%list_elem_of_singleton ->%list_elem_of_singleton _. done.
  - by repeat constructor.
Defined.
