(* ===== verification/Assessment.v ===== *)
(** * Assessments (internal/situation/assessment.go)

    The cadence, the Operator contract, the deterministic and fallback
    Assessments, reuse across input versions, the validation of a model's
    proposal, and the classification of a call's outcome.

    [encoding/json] is reached in one place, the decoding of a raw response; the
    section [decoding] takes its two uses (the keys of the object, the decoded
    proposal) as arguments. *)

From stdpp Require Import prelude strings list gmap sorting pretty.
From S2P Require Import Prelude SituationModel Snapshot.

(** ** Controller state *)

Inductive TriagePhase : Set :=
| TriagePhaseNone
| TriagePhaseAwaitingDecision
| TriagePhaseInFlight
| TriagePhaseBackoff.

Inductive SemanticRetryPhase : Set :=
| SemanticRetryPhaseNone
| SemanticRetryPhaseDue
| SemanticRetryPhaseBlocked.

#[export] Instance TriagePhase_eq_dec : EqDecision TriagePhase.
Proof. solve_decision. Defined.
#[export] Instance SemanticRetryPhase_eq_dec : EqDecision SemanticRetryPhase.
Proof. solve_decision. Defined.

Record CadenceTempo : Type := { Fast : Duration; Normal : Duration; Slow : Duration }.

Record ControllerState : Type := {
  CS_Lifecycle : Lifecycle;
  CS_Attention : Attention;
  CS_OperatorActionRequired : option OperatorAction;
  CS_TriagePhase : TriagePhase;
  CS_SemanticRetry : SemanticRetryPhase;
  CS_Tempo : CadenceTempo;
  TriageDueAt : option Time;
  FutureTriageDueAt : option Time;
  SemanticRetryAt : option Time;
  RecoveryGraceUntil : option Time;
  LifecycleObservationDeadlineAt : option Time;
  EarliestPersistedCheckpoint : option Time
}.

(** ** Cadence *)

Definition defaultCadenceFast : Duration := (60 * Second)%Z.
Definition defaultCadenceNormal : Duration := (300 * Second)%Z.
Definition defaultCadenceSlow : Duration := (900 * Second)%Z.
Definition minNextUpdateLead : Duration := Second.

Definition withDefaults (t : CadenceTempo) : CadenceTempo :=
  {| Fast := if (Fast t <=? 0)%Z then defaultCadenceFast else Fast t;
     Normal := if (Normal t <=? 0)%Z then defaultCadenceNormal else Normal t;
     Slow := if (Slow t <=? 0)%Z then defaultCadenceSlow else Slow t |}.

Definition Interval (t : CadenceTempo) (c : Cadence) : Duration :=
  let t := withDefaults t in
  match c with
  | CadenceFast => Fast t
  | CadenceNormal => Normal t
  | CadenceSlow => Slow t
  | _ => Slow t
  end.

Definition DeriveCadence (state : ControllerState) : Cadence :=
  if Terminal (CS_Lifecycle state) then CadenceNone
  else if decide (CS_Attention state = AttentionUrgent) then CadenceFast
  else if decide (CS_Lifecycle state = LifecycleRecoveryPending) then CadenceFast
  else if decide (CS_TriagePhase state = TriagePhaseInFlight) then CadenceFast
  else if decide (CS_Attention state = AttentionInvestigate) then CadenceNormal
  else CadenceSlow.

(** ** The Operator contract *)

Record alertINTBranch : Type := {
  br_action : option AlertINTAction;
  br_status : option AlertINTStatus;
  br_waitReason : option WaitReason
}.

Definition deriveAlertINTBranch (state : ControllerState) : alertINTBranch :=
  let mk a s w := {| br_action := Some a; br_status := Some s; br_waitReason := w |} in
  if Terminal (CS_Lifecycle state) then
    {| br_action := None; br_status := None; br_waitReason := None |}
  else if decide (CS_TriagePhase state = TriagePhaseAwaitingDecision) then
    mk AlertINTActionRunAcuteTriage AlertINTStatusPlanned None
  else if decide (CS_TriagePhase state = TriagePhaseInFlight) then
    mk AlertINTActionRunAcuteTriage AlertINTStatusRunning None
  else if decide (CS_TriagePhase state = TriagePhaseBackoff) then
    mk AlertINTActionRunAcuteTriage AlertINTStatusWaiting (Some WaitReasonAcuteTriageBackoff)
  else if decide (CS_SemanticRetry state = SemanticRetryPhaseDue) then
    mk AlertINTActionRetrySituationAssessment AlertINTStatusWaiting
      (Some WaitReasonAssessmentRetry)
  else if decide (CS_SemanticRetry state = SemanticRetryPhaseBlocked) then
    mk AlertINTActionRetrySituationAssessment AlertINTStatusBlocked
      (Some WaitReasonAssessmentParked)
  else if decide (CS_Lifecycle state = LifecycleRecoveryPending) then
    mk AlertINTActionVerifyRecovery AlertINTStatusWaiting (Some WaitReasonRecoveryGrace)
  else mk AlertINTActionMonitorSituation AlertINTStatusWaiting (Some WaitReasonSourceChange).

Definition actorFor (operatorRequired : option OperatorAction) (alertAction : option AlertINTAction)
    : NextActor :=
  match operatorRequired, alertAction with
  | Some _, _ => NextActorOperator
  | None, Some _ => NextActorAlertINT
  | None, None => NextActorNone
  end.

(** The due times [nextUpdateAt] weighs, in its order. *)
Definition update_candidates (state : ControllerState) (now : Time) : list (option Time) :=
  [ SemanticRetryAt state; RecoveryGraceUntil state; LifecycleObservationDeadlineAt state;
    EarliestPersistedCheckpoint state ]
  ++ match TriageDueAt state with
     | Some t => if After t now then [Some t] else []
     | None => []
     end
  ++ match FutureTriageDueAt state with
     | Some t => if After t now then [Some t] else []
     | None => []
     end.

Definition nextUpdateAt (state : ControllerState) (cadence : Cadence) (now : Time) : Time :=
  let earliest :=
    foldl (λ e c, match c with
                  | Some t => if Before t e then t else e
                  | None => e
                  end)
      (Add now (Interval (CS_Tempo state) cadence)) (update_candidates state now) in
  if negb (After earliest now) then Add now minNextUpdateLead else earliest.

Definition nextUpdateOn (state : ControllerState) : list NextUpdateOn :=
  let on (o : option Time) (c : NextUpdateOn) := match o with Some _ => [c] | None => [] end in
  on (TriageDueAt state) NextUpdateOnTriageOutcome
  ++ on (SemanticRetryAt state) NextUpdateOnAssessmentRetryDue
  ++ on (RecoveryGraceUntil state) NextUpdateOnRecoveryGraceExpired
  ++ on (LifecycleObservationDeadlineAt state) NextUpdateOnLifecycleObservationDeadline
  ++ on (EarliestPersistedCheckpoint state) NextUpdateOnMaterialInput.

Definition DeriveActionContract (state : ControllerState) (cadence : Cadence) (now : Time)
    : ActionContract :=
  let branch := deriveAlertINTBranch state in
  let terminal := Terminal (CS_Lifecycle state) in
  {| AC_NextActor := actorFor (CS_OperatorActionRequired state) (br_action branch);
     AC_AlertINTAction := br_action branch;
     AC_AlertINTStatus := br_status branch;
     AC_OperatorActionRequired := CS_OperatorActionRequired state;
     AC_NextUpdateAt := if terminal then None else Some (nextUpdateAt state cadence now);
     AC_NextUpdateOn := if terminal then [] else nextUpdateOn state;
     AC_WaitReason := br_waitReason branch |}.

(** ** Evidence quality *)

(** The loop's two counters over one list: [(total, confirmed)]. *)
Definition count_material {A} (material confirmed : A → bool) (acc : Z * Z) (l : list A) : Z * Z :=
  foldl (λ '(t, c) f,
    if negb (material f) then (t, c)
    else (t + 1, if confirmed f then c + 1 else c)%Z) acc l.

Definition DeriveEvidenceQuality (snap : Snapshot) : EvidenceQuality :=
  let acc := count_material Fact_Material
               (λ f, bool_decide (Fact_ResultStatus f = FactConfirmedValue)
                     || bool_decide (Fact_ResultStatus f = FactConfirmedEmpty))
               (0, 0)%Z (Snap_Facts snap) in
  let '(total, confirmed) :=
    count_material OF_Material
      (λ f, str_eqb (OF_Freshness f) "fresh"
            && (str_eqb (OF_ResultStatus f) "confirmed_value"
                || str_eqb (OF_ResultStatus f) "confirmed_empty"))
      acc (Snap_Observations snap) in
  if (total =? 0)%Z || (confirmed =? 0)%Z then EvidenceQualityInsufficient
  else if (confirmed =? total)%Z then EvidenceQualityComplete
  else EvidenceQualityDegraded.

(** ** Candidates *)

Definition findEligibleCandidateByID (candidates : list ReasonCandidate) (id : string)
    : option ReasonCandidate := find (λ c, str_eqb (RC_ID c) id) candidates.

Definition findEligibleCandidateByCode (candidates : list ReasonCandidate) (code : string)
    : option ReasonCandidate := find (λ c, str_eqb (RC_Code c) code) candidates.

Definition findFloorCandidate (candidates : list ReasonCandidate) : option ReasonCandidate :=
  find RC_DeterministicFloor candidates.

Definition hasDeterministicFloor (candidates : list ReasonCandidate) : bool :=
  match findFloorCandidate candidates with Some _ => true | None => false end.

Definition factExists (facts : list Fact) (id : string) : bool :=
  existsb (λ f, str_eqb (Fact_ID f) id) facts.

Definition operatorActionRequired (reason : option SufficientReason)
    (eligible : list ReasonCandidate) (attention : Attention) : option OperatorAction :=
  match reason with
  | None => None
  | Some r =>
      if negb (bool_decide (attention = AttentionInvestigate)) then None
      else match findEligibleCandidateByID eligible (SR_CandidateID r) with
           | None => None
           | Some c => if RC_DeterministicFloor c then None
                       else Some OperatorActionInvestigateSituation
           end
  end.

(** ** Results *)

Record AssessmentResult : Type := {
  AR_Assessment : Assessment;
  AR_Derivation : AssessmentDerivation;
  AR_AssessmentBasisHash : string;
  AR_MaterialFactHash : string;
  AR_InputVersion : Z;
  AR_Coverage : list IncidentCoverage;
  AR_ReusedFromAssessmentID : option string
}.

Record AuthoritativeAssessment : Type := {
  AA_ID : string;
  AA_AssessmentBasisHash : string;
  AA_MaterialFactHash : string;
  AA_Assessment : Assessment;
  AA_Derivation : AssessmentDerivation;
  AA_Coverage : list IncidentCoverage
}.

Inductive ProposalOutcome : Set :=
| ProposalOutcomeAccepted
| ProposalOutcomeContradicted
| ProposalOutcomeMalformed
| ProposalOutcomePolicyRejected
| ProposalOutcomeCapabilityRejected
| ProposalOutcomeStaleBasis.

#[export] Instance ProposalOutcome_eq_dec : EqDecision ProposalOutcome.
Proof. solve_decision. Defined.

Definition accepted (o : ProposalOutcome) : bool :=
  match o with
  | ProposalOutcomeAccepted | ProposalOutcomeContradicted => true
  | _ => false
  end.

Inductive ValidationIssueCategory : Set :=
| IssueCategoryMalformed
| IssueCategoryPolicy
| IssueCategoryCapability
| IssueCategoryStaleBasis
| IssueCategoryAdjustment.

(** [ValidationIssue], less its diagnostic text. *)
Record ValidationIssue : Type := {
  VI_Category : ValidationIssueCategory;
  VI_Code : string;
  VI_Field : string
}.

(** [VR_Proposal] is [None] where the source leaves the zero proposal. *)
Record ValidationResult : Type := {
  VR_Outcome : ProposalOutcome;
  VR_Proposal : option AssessmentProposal;
  VR_RejectedProposal : option AssessmentProposal;
  VR_Errors : list ValidationIssue;
  VR_Adjustments : list ValidationIssue
}.

Definition rejected_with (o : ProposalOutcome) (cat : ValidationIssueCategory) (code field : string)
    : ValidationResult :=
  {| VR_Outcome := o; VR_Proposal := None; VR_RejectedProposal := None;
     VR_Errors := [{| VI_Category := cat; VI_Code := code; VI_Field := field |}];
     VR_Adjustments := [] |}.

Definition malformedResult : string → string → ValidationResult :=
  rejected_with ProposalOutcomeMalformed IssueCategoryMalformed.
Definition policyResult : string → string → ValidationResult :=
  rejected_with ProposalOutcomePolicyRejected IssueCategoryPolicy.
Definition capabilityResult : string → string → ValidationResult :=
  rejected_with ProposalOutcomeCapabilityRejected IssueCategoryCapability.
Definition staleBasisResult : string → string → ValidationResult :=
  rejected_with ProposalOutcomeStaleBasis IssueCategoryStaleBasis.

(** ** Validation of a proposal *)

Definition reasonCodeDurationOutlier : string := "duration_outlier".
Definition limitationSemanticAssessmentUnavailable : string := "semantic_assessment_unavailable".

Definition reservedUnsupportedCapabilities : list Limitation :=
  [ {| Limitation_Code := "semantic_profile_unavailable";
       Limitation_Detail := "Semantic profile binding/correction authority is not available until Plan 5." |};
    {| Limitation_Code := "signal_binding_unavailable";
       Limitation_Detail := "Signal bindings are not available until Plan 5." |};
    {| Limitation_Code := "envelope_unavailable";
       Limitation_Detail := "Expected-behaviour envelopes are not available until Plan 5." |} ].

Definition knownLimitationCode (code : string) : bool :=
  str_eqb code limitationSemanticAssessmentUnavailable
  || existsb (λ l, str_eqb (Limitation_Code l) code) reservedUnsupportedCapabilities.

Definition allowedLimitationCode (snap : Snapshot) (code : string) : bool :=
  if knownLimitationCode code then true
  else if negb (dynamicLimitationCode code) then false
  else existsb (str_eqb code) (DynamicLimitationCodes (CapabilityResults snap) (Deferred snap)).

Definition maxBoundedTextLength : nat := 2000.

Definition proposalTextBounded (p : AssessmentProposal) : bool :=
  match P_SufficientReason p with
  | Some r => (String.length (SR_Summary r) <=? maxBoundedTextLength)%nat
  | None => true
  end
  && forallb (λ l, (String.length (Limitation_Detail l) <=? maxBoundedTextLength)%nat)
       (P_Limitations p).

Definition materialClaim (p : AssessmentProposal) : bool :=
  bool_decide (P_Causality p = CausalitySupported) || bool_decide (P_Impact p = ImpactConfirmed).

(** The first limitation whose code is not allowed. *)
Fixpoint unknown_limitation (snap : Snapshot) (i : nat) (ls : list Limitation) : option nat :=
  match ls with
  | [] => None
  | l :: ls' =>
      if negb (allowedLimitationCode snap (Limitation_Code l)) then Some i
      else unknown_limitation snap (S i) ls'
  end.

Definition refs_exist (snap : Snapshot) (refs : list string) : bool :=
  forallb (λ ref, factExists (Snap_Facts snap) ref
                  || observationFactExists (Snap_Observations snap) ref) refs.

Definition set_attention (p : AssessmentProposal) (a : Attention) : AssessmentProposal :=
  {| P_SchemaVersion := P_SchemaVersion p; P_Persistence := P_Persistence p;
     P_Impact := P_Impact p; P_Novelty := P_Novelty p; P_Causality := P_Causality p;
     P_Attention := a; P_SufficientReason := P_SufficientReason p;
     P_Limitations := P_Limitations p |}.

(** The checks on the cited reason, [None] when they pass. *)
Definition check_reason (proposal : AssessmentProposal) (snap : Snapshot) : option ValidationResult :=
  match P_SufficientReason proposal with
  | None => None
  | Some r =>
      let unknown := Some (capabilityResult "reason_id_unknown" "sufficient_reason.candidate_id") in
      match findEligibleCandidateByID (EligibleReasons snap) (SR_CandidateID r) with
      | None => unknown
      | Some c =>
          if negb (str_eqb (RC_Code c) (SR_Code r)) then unknown
          else if negb (refs_exist snap (SR_EvidenceRefs r)) then
            Some (policyResult "evidence_ref_missing" "sufficient_reason.evidence_refs")
          else None
      end
  end.

(** The checks on a supported cause. *)
Definition check_cause (proposal : AssessmentProposal) (snap : Snapshot) : option ValidationResult :=
  if negb (bool_decide (P_Causality proposal = CausalitySupported)) then None
  else match P_SufficientReason proposal with
       | None => None
       | Some r =>
           if str_eqb (SR_Code r) reasonCodeDurationOutlier then
             Some (policyResult "temporal_overlap_as_cause" "causality")
           else match findEligibleCandidateByID (EligibleReasons snap) (SR_CandidateID r) with
                | Some c => if RC_DeterministicFloor c then None
                            else Some (policyResult "causality_too_strong" "causality")
                | None => Some (policyResult "causality_too_strong" "causality")
                end
       end.

Definition validateProposalContent (proposal : AssessmentProposal) (snap : Snapshot)
    : ValidationResult :=
  if decide (P_Causality proposal = CausalityOperatorConfirmed) then
    policyResult "operator_confirmation_unavailable" "causality"
  else match unknown_limitation snap 0 (P_Limitations proposal) with
  | Some i => capabilityResult "limitation_code_unknown" ("limitations[" +:+ pretty i +:+ "].code")
  | None =>
  match check_reason proposal snap with
  | Some r => r
  | None =>
  if materialClaim proposal && bool_decide (P_SufficientReason proposal = None) then
    policyResult "ungrounded_material_claim" ""
  else match check_cause proposal snap with
  | Some r => r
  | None =>
  let floor := hasDeterministicFloor (EligibleReasons snap) in
  let urgent := bool_decide (P_Attention proposal = AttentionUrgent) in
  if urgent && negb floor then policyResult "urgent_without_floor" "attention"
  else
    let raise := floor && negb urgent in
    {| VR_Outcome := if decide (P_Causality proposal = CausalityContradicted)
                     then ProposalOutcomeContradicted else ProposalOutcomeAccepted;
       VR_Proposal := Some (if raise then set_attention proposal AttentionUrgent else proposal);
       VR_RejectedProposal := None;
       VR_Errors := [];
       VR_Adjustments :=
         if raise then [{| VI_Category := IssueCategoryAdjustment;
                           VI_Code := "attention_raised_to_floor"; VI_Field := "attention" |}]
         else [] |}
  end end end.

(** ** Composition, fallback and reuse *)

Section compose.
Context (mdigest : membershipDigestDTO → string) (idigest : incidentInputDigestDTO → string).

Definition with_composed (state : ControllerState) (l : Lifecycle) (a : Attention)
    (op : option OperatorAction) : ControllerState :=
  {| CS_Lifecycle := l; CS_Attention := a; CS_OperatorActionRequired := op;
     CS_TriagePhase := CS_TriagePhase state; CS_SemanticRetry := CS_SemanticRetry state;
     CS_Tempo := CS_Tempo state; TriageDueAt := TriageDueAt state;
     FutureTriageDueAt := FutureTriageDueAt state; SemanticRetryAt := SemanticRetryAt state;
     RecoveryGraceUntil := RecoveryGraceUntil state;
     LifecycleObservationDeadlineAt := LifecycleObservationDeadlineAt state;
     EarliestPersistedCheckpoint := EarliestPersistedCheckpoint state |}.

Definition DeriveAssessment (proposal : AssessmentProposal) (snap : Snapshot) (inp : SnapshotInput)
    (state : ControllerState) (derivation : AssessmentDerivation) (reusedFrom : option string)
    (now : Time) : AssessmentResult :=
  let state := with_composed state (Snap_Lifecycle snap) (P_Attention proposal)
                 (operatorActionRequired (P_SufficientReason proposal) (EligibleReasons snap)
                    (P_Attention proposal)) in
  let cadence := DeriveCadence state in
  {| AR_Assessment :=
       {| A_SchemaVersion := AssessmentSchemaVersion; A_Persistence := P_Persistence proposal;
          A_Impact := P_Impact proposal; A_Novelty := P_Novelty proposal;
          A_Causality := P_Causality proposal; A_Attention := P_Attention proposal;
          A_Lifecycle := Snap_Lifecycle snap; A_EvidenceQuality := DeriveEvidenceQuality snap;
          A_SufficientReason := P_SufficientReason proposal;
          A_ActionContract := DeriveActionContract state cadence now;
          A_Limitations := P_Limitations proposal; A_Cadence := cadence |};
     AR_Derivation := derivation;
     AR_AssessmentBasisHash := Snap_AssessmentBasisHash snap;
     AR_MaterialFactHash := Snap_MaterialFactHash snap;
     AR_InputVersion := Snap_InputVersion snap;
     AR_Coverage := DeriveIncidentCoverage mdigest idigest inp;
     AR_ReusedFromAssessmentID := reusedFrom |}.

Definition DeterministicAssessment (snap : Snapshot) (inp : SnapshotInput) (state : ControllerState)
    (derivation : AssessmentDerivation) (limitations : list Limitation) (now : Time)
    : AssessmentResult :=
  let '(attention, reason) :=
    match findFloorCandidate (EligibleReasons snap) with
    | Some c => (AttentionUrgent,
                 Some {| SR_Code := RC_Code c; SR_CandidateID := RC_ID c;
                         SR_Summary := RC_Summary c; SR_EvidenceRefs := RC_EvidenceRefs c |})
    | None => (AttentionObserve, None)
    end in
  DeriveAssessment
    {| P_SchemaVersion := AssessmentSchemaVersion; P_Persistence := PersistenceUnknown;
       P_Impact := ImpactNoneObserved; P_Novelty := NoveltyInsufficientHistory;
       P_Causality := CausalityUnknown; P_Attention := attention; P_SufficientReason := reason;
       P_Limitations := limitations |} snap inp state derivation None now.

Definition fallback_limitation : Limitation :=
  {| Limitation_Code := limitationSemanticAssessmentUnavailable;
     Limitation_Detail :=
       "L2 failed and no trustworthy prior Assessment exists; this Assessment is controller-authored." |}.

Definition DeterministicFallback (snap : Snapshot) (inp : SnapshotInput) (state : ControllerState)
    (now : Time) : AssessmentResult :=
  DeterministicAssessment snap inp state DerivationDeterministicFallback [fallback_limitation] now.

(** [Some reason] when [prior] is no reuse source. *)
Definition trustworthy (prior : AuthoritativeAssessment) : option string :=
  if decide (AA_Derivation prior = DerivationDeterministicFallback) then
    Some "fallback_not_a_semantic_reuse_source"
  else match Assessment_validateShape (AA_Assessment prior) with
       | Err _ => Some "fails_current_validators"
       | Ok _ => None
       end.

(** [None] when the code has no eligible candidate any more. *)
Definition rebindSufficientReason (reason : option SufficientReason)
    (eligible : list ReasonCandidate) : option (option SufficientReason) :=
  match reason with
  | None => Some None
  | Some r =>
      match findEligibleCandidateByCode eligible (SR_Code r) with
      | None => None
      | Some c => Some (Some {| SR_Code := RC_Code c; SR_CandidateID := RC_ID c;
                                SR_Summary := SR_Summary r;
                                SR_EvidenceRefs := RC_EvidenceRefs c |})
      end
  end.

Definition proposal_with_reason (a : Assessment) (reason : option SufficientReason)
    : AssessmentProposal :=
  {| P_SchemaVersion := A_SchemaVersion a; P_Persistence := A_Persistence a;
     P_Impact := A_Impact a; P_Novelty := A_Novelty a; P_Causality := A_Causality a;
     P_Attention := A_Attention a; P_SufficientReason := reason;
     P_Limitations := A_Limitations a |}.

Definition RevalidateReuse (prior : AuthoritativeAssessment) (snap : Snapshot) (inp : SnapshotInput)
    (state : ControllerState) (now : Time) : result string AssessmentResult :=
  match trustworthy prior with
  | Some reason => Err reason
  | None =>
  if negb (str_eqb (AA_AssessmentBasisHash prior) (Snap_AssessmentBasisHash snap)) then
    Err "assessment_basis_changed"
  else match rebindSufficientReason (A_SufficientReason (AA_Assessment prior)) (EligibleReasons snap) with
  | None => Err "sufficient_reason_no_longer_eligible"
  | Some rebound =>
      let v := validateProposalContent (proposal_with_reason (AA_Assessment prior) rebound) snap in
      match accepted (VR_Outcome v), VR_Proposal v with
      | true, Some p =>
          Ok (DeriveAssessment p snap inp state DerivationRevalidatedReuse (Some (AA_ID prior)) now)
      | _, _ =>
          Err match VR_Errors v with
              | e :: _ => "revalidation_failed:" +:+ VI_Code e
              | [] => "revalidation_failed"
              end
      end
  end end.

(** [controller.go]: the current Assessment re-checked against this cycle's
    basis, when the cycle ends without a fresh result. *)
Definition revalidatedPreservedAssessment (snap : Snapshot) (inp : SnapshotInput)
    (current : option AuthoritativeAssessment) (currentReusedFrom : option string)
    (state : ControllerState) (now : Time) : option Assessment :=
  match current with
  | None => None
  | Some cur =>
  match trustworthy cur with
  | Some _ => None
  | None =>
  match rebindSufficientReason (A_SufficientReason (AA_Assessment cur)) (EligibleReasons snap) with
  | None => None
  | Some rebound =>
      let v := validateProposalContent (proposal_with_reason (AA_Assessment cur) rebound) snap in
      match accepted (VR_Outcome v), VR_Proposal v with
      | true, Some p =>
          Some (AR_Assessment (DeriveAssessment p snap inp state (AA_Derivation cur)
                                 currentReusedFrom now))
      | _, _ => None
      end
  end end end.

(** The Assessment the cycle commits in that case. *)
Definition fallbackOrPreserve (snap : Snapshot) (inp : SnapshotInput)
    (current : option AuthoritativeAssessment) (currentReusedFrom : option string)
    (state : ControllerState) (now : Time) : Assessment :=
  match revalidatedPreservedAssessment snap inp current currentReusedFrom state now with
  | Some a => a
  | None => AR_Assessment (DeterministicFallback snap inp state now)
  end.
End compose.

(** ** Validation of a raw response *)

Record AssessmentCall : Type := {
  Call_InputVersion : Z;
  Call_MaterialFactHash : string
}.

Definition allowedProposalTopLevelKeys : list string :=
  [ "schema_version"; "persistence"; "impact"; "novelty"; "causality"; "attention";
    "sufficient_reason"; "limitations" ].

Section decoding.
Context {Raw : Type}
        (objectKeys : Raw → option (list string))
        (decodeProposal : Raw → option AssessmentProposal).

Definition ValidateAssessmentProposal (raw : Raw) (snap : Snapshot) (call : AssessmentCall)
    : ValidationResult :=
  if negb (Call_InputVersion call =? Snap_InputVersion snap)%Z
     || negb (str_eqb (Call_MaterialFactHash call) (Snap_MaterialFactHash snap)) then
    staleBasisResult "stale_input_version" ""
  else match objectKeys raw with
  | None => malformedResult "invalid_json" ""
  | Some keys =>
  match find (λ k, negb (existsb (str_eqb k) allowedProposalTopLevelKeys)) keys with
  | Some k => malformedResult "forbidden_field" k
  | None =>
  match decodeProposal raw with
  | None => malformedResult "invalid_shape" ""
  | Some proposal =>
  match AssessmentProposal_Validate proposal with
  | Err _ => malformedResult "invalid_shape" ""
  | Ok _ =>
  if negb (proposalTextBounded proposal) then malformedResult "unbounded_text" ""
  else
    let r := validateProposalContent proposal snap in
    match VR_Outcome r with
    | ProposalOutcomePolicyRejected | ProposalOutcomeCapabilityRejected =>
        {| VR_Outcome := VR_Outcome r; VR_Proposal := VR_Proposal r;
           VR_RejectedProposal := Some proposal; VR_Errors := VR_Errors r;
           VR_Adjustments := VR_Adjustments r |}
    | _ => r
    end
  end end end end.
End decoding.

(** ** Outcome of a call *)

Inductive L2Outcome : Set :=
| L2OutcomeAccepted
| L2OutcomeContradicted
| L2OutcomeMalformed
| L2OutcomeTransportFailure
| L2OutcomeRateLimited
| L2OutcomePolicyRejected
| L2OutcomeCapabilityRejected
| L2OutcomeStaleBasis.

#[export] Instance L2Outcome_eq_dec : EqDecision L2Outcome.
Proof. solve_decision. Defined.

Record L2RetryPolicy : Type := {
  RP_Outcome : L2Outcome;
  ImmediateCorrection : bool;
  DurableRetry : bool
}.

(** What [errors.Is] and [errors.As] find in the chain of a transport error. *)
Record TransportError : Type := {
  is_decode_failure : bool;        (* ErrSchemaViolation, ErrResponseTruncated, ErrResponseInvalid *)
  retryable_status : option Z;     (* llm.RetryableError *)
  api_status : option Z            (* llm.APIError *)
}.

Definition StatusTooManyRequests : Z := 429%Z.

Definition classifyTransportErr (err : TransportError) (correctionAlreadyUsed : bool)
    : L2RetryPolicy :=
  let by_status st :=
    if (st =? StatusTooManyRequests)%Z
    then {| RP_Outcome := L2OutcomeRateLimited; ImmediateCorrection := false; DurableRetry := true |}
    else {| RP_Outcome := L2OutcomeTransportFailure; ImmediateCorrection := false;
            DurableRetry := true |} in
  if is_decode_failure err then
    {| RP_Outcome := L2OutcomeMalformed; ImmediateCorrection := negb correctionAlreadyUsed;
       DurableRetry := true |}
  else match retryable_status err, api_status err with
       | Some st, _ => by_status st
       | None, Some st => by_status st
       | None, None =>
           {| RP_Outcome := L2OutcomeTransportFailure; ImmediateCorrection := false;
              DurableRetry := true |}
       end.

Definition ClassifyL2Outcome (vr : option ValidationResult) (transportErr : option TransportError)
    (correctionAlreadyUsed : bool) : L2RetryPolicy :=
  let final o := {| RP_Outcome := o; ImmediateCorrection := false; DurableRetry := false |} in
  let malformed := {| RP_Outcome := L2OutcomeMalformed;
                      ImmediateCorrection := negb correctionAlreadyUsed; DurableRetry := true |} in
  match transportErr with
  | Some e => classifyTransportErr e correctionAlreadyUsed
  | None =>
      match vr with
      | None => malformed
      | Some v =>
          match VR_Outcome v with
          | ProposalOutcomeAccepted => final L2OutcomeAccepted
          | ProposalOutcomeContradicted => final L2OutcomeContradicted
          | ProposalOutcomeMalformed => malformed
          | ProposalOutcomePolicyRejected => final L2OutcomePolicyRejected
          | ProposalOutcomeCapabilityRejected => final L2OutcomeCapabilityRejected
          | ProposalOutcomeStaleBasis => final L2OutcomeStaleBasis
          end
      end
  end.

(** ** Parking ([controller.go]) *)

Definition ParkedReasonPolicyRejected : string := "policy_rejected".
Definition ParkedReasonCapabilityRejected : string := "capability_rejected".
Definition ParkedReasonDependency : string := "dependency_exhausted".
Definition ParkedReasonMalformedExhausted : string := "malformed_exhausted".

Definition parkedReasonForOutcome (outcome : L2Outcome) : string :=
  match outcome with
  | L2OutcomePolicyRejected => ParkedReasonPolicyRejected
  | L2OutcomeCapabilityRejected => ParkedReasonCapabilityRejected
  | L2OutcomeTransportFailure | L2OutcomeRateLimited => ParkedReasonDependency
  | _ => ParkedReasonMalformedExhausted
  end.

Record ControllerParkedState : Type := {
  Parked_Reason : string;
  Parked_MaterialFactHash : string
}.

Definition controllerParkBlocksDispatch (p : ControllerParkedState) (currentMaterialFactHash : string)
    : bool :=
  if negb (str_eqb (Parked_Reason p) ParkedReasonPolicyRejected)
     && negb (str_eqb (Parked_Reason p) ParkedReasonCapabilityRejected) then false
  else negb (str_eqb (Parked_MaterialFactHash p) "")
       && str_eqb (Parked_MaterialFactHash p) currentMaterialFactHash.

(** ** What an accepted proposal satisfies *)

(** The eligible candidate a reason cites. *)
Definition cites (snap : Snapshot) (r : SufficientReason) (c : ReasonCandidate) : Prop :=
  findEligibleCandidateByID (EligibleReasons snap) (SR_CandidateID r) = Some c ∧
  RC_Code c = SR_Code r.

Record grounded (p : AssessmentProposal) (snap : Snapshot) : Prop := {
  g_no_operator : P_Causality p ≠ CausalityOperatorConfirmed;
  g_limitations : Forall (λ l, allowedLimitationCode snap (Limitation_Code l) = true) (P_Limitations p);
  g_reason : ∀ r, P_SufficientReason p = Some r →
    (∃ c, cites snap r c) ∧
    Forall (λ ref, factExists (Snap_Facts snap) ref = true ∨
                   observationFactExists (Snap_Observations snap) ref = true) (SR_EvidenceRefs r);
  g_claim : materialClaim p = true → is_Some (P_SufficientReason p);
  g_cause : P_Causality p = CausalitySupported → ∀ r, P_SufficientReason p = Some r →
    SR_Code r ≠ reasonCodeDurationOutlier ∧
    ∃ c, cites snap r c ∧ RC_DeterministicFloor c = true;
  g_urgent : P_Attention p = AttentionUrgent → hasDeterministicFloor (EligibleReasons snap) = true
}.

(** The proposal as accepted: urgent whenever the floor is active. *)
Definition raised (p : AssessmentProposal) (snap : Snapshot) : AssessmentProposal :=
  if hasDeterministicFloor (EligibleReasons snap) then set_attention p AttentionUrgent else p.

(** The controller checkpoints [nextUpdateAt] weighs even when they are due. *)
Definition controller_checkpoints (state : ControllerState) : list Time :=
  omap id [ SemanticRetryAt state; RecoveryGraceUntil state; LifecycleObservationDeadlineAt state;
            EarliestPersistedCheckpoint state ].

(** ** Lemmas *)

Lemma unknown_limitation_none snap i ls :
  unknown_limitation snap i ls = None ↔
  Forall (λ l, allowedLimitationCode snap (Limitation_Code l) = true) ls.
Proof.
  revert i. induction ls as [|l ls IH]; intros i; simpl; [by split; [constructor|]|].
  rewrite Forall_cons, <- (IH (S i)).
  destruct (allowedLimitationCode snap (Limitation_Code l)); simpl; naive_solver.
Qed.

Lemma refs_exist_spec snap refs :
  refs_exist snap refs = true ↔
  Forall (λ ref, factExists (Snap_Facts snap) ref = true ∨
                 observationFactExists (Snap_Observations snap) ref = true) refs.
Proof.
  unfold refs_exist. rewrite forallb_forall, Forall_forall.
  setoid_rewrite list_elem_of_In. by setoid_rewrite orb_true_iff.
Qed.

Lemma check_reason_none p snap :
  check_reason p snap = None ↔
  ∀ r, P_SufficientReason p = Some r →
    (∃ c, cites snap r c) ∧
    Forall (λ ref, factExists (Snap_Facts snap) ref = true ∨
                   observationFactExists (Snap_Observations snap) ref = true) (SR_EvidenceRefs r).
Proof.
  unfold check_reason, cites. destruct (P_SufficientReason p) as [r|]; [|done].
  destruct (findEligibleCandidateByID _ _) as [c|] eqn:E; [|naive_solver].
  destruct (str_eqb (RC_Code c) (SR_Code r)) eqn:Ec; simpl; go_bool; [|naive_solver].
  destruct (refs_exist snap (SR_EvidenceRefs r)) eqn:Er; simpl.
  - apply refs_exist_spec in Er. split; [intros _ ? [= <-]; eauto|done].
  - split; [done|]. intros H. destruct (H r eq_refl) as [_ Hr%refs_exist_spec]. congruence.
Qed.

Lemma check_cause_none p snap :
  (∀ r, P_SufficientReason p = Some r → ∃ c, cites snap r c) →
  check_cause p snap = None ↔
  (P_Causality p = CausalitySupported → ∀ r, P_SufficientReason p = Some r →
   SR_Code r ≠ reasonCodeDurationOutlier ∧ ∃ c, cites snap r c ∧ RC_DeterministicFloor c = true).
Proof.
  intros Hr. unfold check_cause.
  destruct (bool_decide_reflect (P_Causality p = CausalitySupported)); simpl; [|tauto].
  destruct (P_SufficientReason p) as [r|]; [|naive_solver].
  destruct (Hr r eq_refl) as (c & Hc & Hcode). unfold cites. rewrite Hc.
  destruct (str_eqb (SR_Code r) reasonCodeDurationOutlier) eqn:E; go_bool; [naive_solver|].
  destruct (RC_DeterministicFloor c) eqn:Ef; [naive_solver|].
  split; [done|]. intros H. destruct (H e r eq_refl) as (_ & c' & [? ?] & ?). congruence.
Qed.

Lemma urgent_floor p snap :
  (bool_decide (P_Attention p = AttentionUrgent)
   && negb (hasDeterministicFloor (EligibleReasons snap))) = false ↔
  (P_Attention p = AttentionUrgent → hasDeterministicFloor (EligibleReasons snap) = true).
Proof.
  destruct (bool_decide_reflect (P_Attention p = AttentionUrgent)), (hasDeterministicFloor _);
    simpl; naive_solver.
Qed.

Lemma raised_eq p snap :
  (if hasDeterministicFloor (EligibleReasons snap) && negb (bool_decide (P_Attention p = AttentionUrgent))
   then set_attention p AttentionUrgent else p) = raised p snap.
Proof.
  unfold raised. destruct (hasDeterministicFloor _); [|done]. simpl.
  destruct (bool_decide_reflect (P_Attention p = AttentionUrgent)) as [H|]; [|done].
  destruct p; simpl in *. by rewrite H.
Qed.

Lemma claim_check p :
  materialClaim p && bool_decide (P_SufficientReason p = None) = false ↔
  (materialClaim p = true → is_Some (P_SufficientReason p)).
Proof.
  destruct (materialClaim p); simpl; [|naive_solver].
  destruct (P_SufficientReason p); simpl.
  - split; [by eexists|done].
  - split; [done|]. intros H. by destruct (H eq_refl).
Qed.

(** Acceptance, decided. *)
Lemma validateProposalContent_grounded p snap :
  let v := validateProposalContent p snap in
  (grounded p snap ∧ accepted (VR_Outcome v) = true ∧ VR_Proposal v = Some (raised p snap)) ∨
  (¬ grounded p snap ∧ accepted (VR_Outcome v) = false ∧ VR_Proposal v = None).
Proof.
  unfold validateProposalContent. cbv zeta.
  destruct (decide (P_Causality p = CausalityOperatorConfirmed)) as [|Hop];
    [right; split_and!; [intros []|..]; done|].
  destruct (unknown_limitation snap 0 (P_Limitations p)) eqn:El.
  { right. split_and!; [|done|done]. intros []. apply (unknown_limitation_none snap 0) in g_limitations0.
    congruence. }
  destruct (check_reason p snap) as [rr|] eqn:Er.
  { right. split_and!.
    - intros []. by rewrite (proj2 (check_reason_none p snap) g_reason0) in Er.
    - unfold check_reason in Er. repeat case_match; simplify_eq; done.
    - unfold check_reason in Er. repeat case_match; simplify_eq; done. }
  destruct (materialClaim p && _) eqn:Em.
  { right. split_and!; [|done|done]. intros []. apply claim_check in g_claim0. congruence. }
  assert (Hrs : ∀ r, P_SufficientReason p = Some r → ∃ c, cites snap r c)
    by (intros r Hr; by apply (proj1 (check_reason_none p snap) Er)).
  destruct (check_cause p snap) as [rr|] eqn:Ec.
  { right. split_and!.
    - intros []. rewrite (proj2 (check_cause_none p snap Hrs) g_cause0) in Ec. done.
    - unfold check_cause in Ec. repeat case_match; simplify_eq; done.
    - unfold check_cause in Ec. repeat case_match; simplify_eq; done. }
  destruct (bool_decide _ && _) eqn:Eu.
  { right. split_and!; [|done|done]. intros []. apply urgent_floor in g_urgent0. congruence. }
  left. split_and!.
  - split; [done|by eapply unknown_limitation_none|by apply check_reason_none|by apply claim_check| |
            by apply urgent_floor].
    by apply check_cause_none.
  - cbn [VR_Outcome]. by destruct (decide (P_Causality p = CausalityContradicted)).
  - simpl. by rewrite raised_eq.
Qed.

Lemma accepted_grounded p snap q :
  let v := validateProposalContent p snap in
  accepted (VR_Outcome v) = true → VR_Proposal v = Some q → grounded p snap ∧ q = raised p snap.
Proof.
  intros v Ha Hq. destruct (validateProposalContent_grounded p snap) as [(Hg & _ & Hp)|(_ & H & _)];
    subst v; [split; congruence|congruence].
Qed.

Lemma raised_urgent p snap :
  grounded p snap →
  (P_Attention (raised p snap) = AttentionUrgent ↔ hasDeterministicFloor (EligibleReasons snap) = true).
Proof. intros []. unfold raised. destruct (hasDeterministicFloor _); simpl; naive_solver. Qed.

Lemma raised_valid p snap :
  AssessmentProposal_Validate p = Ok tt → AssessmentProposal_Validate (raised p snap) = Ok tt.
Proof.
  unfold raised. destruct (hasDeterministicFloor _); [|done].
  unfold AssessmentProposal_Validate, set_attention; simpl. rewrite !res_bind_unit. tauto.
Qed.

(** ** Lemmas: the contract *)

Lemma Interval_positive t c : (0 < Interval t c)%Z.
Proof.
  unfold Interval, withDefaults, defaultCadenceFast, defaultCadenceNormal, defaultCadenceSlow,
    Second; destruct c; simpl; case_match; go_bool; lia.
Qed.

Lemma foldl_earliest x (cs : list (option Time)) :
  foldl (λ e c, match c with Some t => if Before t e then t else e | None => e end) x cs =
  foldl Z.min x (omap id cs).
Proof.
  revert x. induction cs as [|[t|] cs IH]; intros x; simpl; [done| |by apply IH].
  rewrite IH. f_equal. case_match; go_bool; lia.
Qed.

Lemma foldl_min_spec x l :
  (foldl Z.min x l ≤ x)%Z ∧ (∀ y, y ∈ l → foldl Z.min x l ≤ y)%Z ∧ foldl Z.min x l ∈ x :: l.
Proof.
  revert x. induction l as [|z l IH]; intros x; simpl.
  - split_and!; [done| |by left]. by intros y ?%not_elem_of_nil.
  - destruct (IH (Z.min x z)) as (H1 & H2 & H3). split_and!; [lia| |].
    + intros y [->|Hy]%elem_of_cons; [lia|by apply H2].
    + apply elem_of_cons in H3 as [->|H3]; [|by do 2 right].
      destruct (Z.min_spec x z) as [[_ ->]|[_ ->]]; [left|right; left].
Qed.

Lemma update_candidates_future state now t :
  t ∈ omap id (update_candidates state now) → t ∈ controller_checkpoints state ∨ (now < t)%Z.
Proof.
  unfold update_candidates, controller_checkpoints. rewrite !omap_app.
  intros [H|H]%elem_of_app; [by left|right].
  apply elem_of_app in H as [H|H]; repeat case_match; simpl in H; go_bool;
    try (by apply not_elem_of_nil in H); apply list_elem_of_singleton in H as ->; lia.
Qed.

Lemma nextUpdateAt_after state cadence now : (now < nextUpdateAt state cadence now)%Z.
Proof.
  unfold nextUpdateAt. case_match; go_bool; [|done]. unfold minNextUpdateLead, Second. lia.
Qed.

Lemma DeriveCadence_shape state :
  Cadence_Validate (DeriveCadence state) = Ok tt ∧
  (Terminal (CS_Lifecycle state) = true ↔ DeriveCadence state = CadenceNone).
Proof.
  unfold DeriveCadence. destruct (Terminal (CS_Lifecycle state)); [done|].
  repeat case_decide; done.
Qed.

Lemma nextUpdateOn_valid state : all_validate NextUpdateOn_Validate (nextUpdateOn state) = Ok tt.
Proof.
  apply all_validate_ok. unfold nextUpdateOn. rewrite !Forall_app.
  split_and!; case_match; repeat constructor.
Qed.

Lemma branch_valid state :
  let b := deriveAlertINTBranch state in
  opt_validate AlertINTAction_Validate (br_action b) = Ok tt ∧
  opt_validate AlertINTStatus_Validate (br_status b) = Ok tt ∧
  opt_validate WaitReason_Validate (br_waitReason b) = Ok tt.
Proof. unfold deriveAlertINTBranch. simpl. repeat case_match; done. Qed.

(** The actor check of a contract that carries [actorFor]. *)
Lemma actor_check op act :
  match op, act with
  | Some _, _ => if decide (actorFor op act = NextActorOperator) then Ok tt
                 else Err "action_contract: next_actor must be operator"
  | None, Some _ => if decide (actorFor op act = NextActorAlertINT) then Ok tt
                    else Err "action_contract: next_actor must be alertint"
  | None, None => if decide (actorFor op act = NextActorNone) then Ok tt
                  else Err "action_contract: next_actor must be none"
  end = @Ok string unit tt.
Proof. by destruct op, act. Qed.

Lemma DeriveActionContract_shape state cadence now :
  opt_validate OperatorAction_Validate (CS_OperatorActionRequired state) = Ok tt →
  ActionContract_validate (DeriveActionContract state cadence now) (Terminal (CS_Lifecycle state)) = Ok tt ∧
  requireFreshNextUpdateAt (DeriveActionContract state cadence now) now = Ok tt.
Proof.
  intros Hop. destruct (branch_valid state) as (Ha & Hs & Hw). split.
  - unfold ActionContract_validate. rewrite !res_bind_unit. split_and!; try done.
    + cbn. unfold actorFor. by repeat case_match.
    + cbn. case_match; [done|]. apply nextUpdateOn_valid.
    + apply actor_check.
    + cbn. by destruct (Terminal (CS_Lifecycle state)).
  - unfold requireFreshNextUpdateAt. cbn. destruct (Terminal (CS_Lifecycle state)); [done|].
    pose proof (nextUpdateAt_after state cadence now) as H. apply Z.ltb_lt in H.
    unfold After. by rewrite H.
Qed.

Lemma operatorActionRequired_valid reason eligible a :
  opt_validate OperatorAction_Validate (operatorActionRequired reason eligible a) = Ok tt.
Proof.
  unfold operatorActionRequired. destruct reason as [r|]; [|done].
  destruct (negb _); [done|]. destruct (findEligibleCandidateByID _ _) as [c|]; [|done].
  by destruct (RC_DeterministicFloor c).
Qed.

(** The composer turns a valid proposal into a valid Assessment. *)
Lemma DeriveAssessment_valid md idg p snap inp state der reused now :
  AssessmentProposal_Validate p = Ok tt → Lifecycle_Validate (Snap_Lifecycle snap) = Ok tt →
  Assessment_Validate (AR_Assessment (DeriveAssessment md idg p snap inp state der reused now)) now
  = Ok tt.
Proof.
  unfold AssessmentProposal_Validate. rewrite !res_bind_unit.
  intros (_ & Hp & Hi & Hn & Hc & Ha & Hr & Hl) Hlc.
  unfold Assessment_Validate, Assessment_validateShape. rewrite !res_bind_unit.
  set (st := with_composed state (Snap_Lifecycle snap) (P_Attention p)
    (operatorActionRequired (P_SufficientReason p) (EligibleReasons snap) (P_Attention p))).
  destruct (DeriveCadence_shape st) as [Hcad Hterm].
  destruct (DeriveActionContract_shape st (DeriveCadence st) now) as [Hshape Hfresh];
    [apply operatorActionRequired_valid|].
  split_and!; try done.
  - cbn. unfold DeriveEvidenceQuality. by repeat case_match.
  - cbn [AR_Assessment DeriveAssessment A_Lifecycle A_Cadence]. fold st.
    change (Snap_Lifecycle snap) with (CS_Lifecycle st).
    destruct (Terminal (CS_Lifecycle st)).
    + rewrite (proj1 Hterm eq_refl). done.
    + destruct (bool_decide_reflect (DeriveCadence st = CadenceNone)) as [H|]; [|done].
      by apply Hterm in H.
Qed.

Lemma find_candidate_floor cs c : findFloorCandidate cs = Some c → c ∈ cs ∧ RC_DeterministicFloor c = true.
Proof. unfold findFloorCandidate. intros [H ?]%find_some. split; [by apply list_elem_of_In|done]. Qed.

Lemma rebind_valid reason eligible r :
  Forall (λ c, RC_ID c ≠ "" ∧ RC_Code c ≠ "") eligible →
  rebindSufficientReason reason eligible = Some r →
  opt_validate SufficientReason_Validate r = Ok tt.
Proof.
  unfold rebindSufficientReason, findEligibleCandidateByCode. intros Hall.
  destruct reason as [sr|]; [|by intros [= <-]].
  destruct (find _ eligible) as [c|] eqn:E; [|done]. intros [= <-].
  apply find_some in E as [Hin _]. apply list_elem_of_In in Hin.
  rewrite Forall_forall in Hall. destruct (Hall _ Hin) as [Hid Hcode].
  cbn [opt_validate]. unfold SufficientReason_Validate. cbn [SR_Code SR_CandidateID].
  destruct (str_eqb (RC_Code c) "") eqn:E1; go_bool; [done|].
  by destruct (str_eqb (RC_ID c) "") eqn:E2; go_bool.
Qed.

(** A shape-valid Assessment, with its reason rebound, is a valid proposal. *)
Lemma proposal_with_reason_valid a r :
  Assessment_validateShape a = Ok tt → opt_validate SufficientReason_Validate r = Ok tt →
  AssessmentProposal_Validate (proposal_with_reason a r) = Ok tt.
Proof.
  unfold Assessment_validateShape, AssessmentProposal_Validate. rewrite !res_bind_unit.
  intros (Hs&?&?&?&?&?&?&?&?&?&?&?&?) ?. split_and!; try done.
  cbn. by destruct (A_SchemaVersion a =? AssessmentSchemaVersion)%Z.
Qed.

Lemma trustworthy_valid prior :
  trustworthy prior = None →
  AA_Derivation prior ≠ DerivationDeterministicFallback ∧
  Assessment_validateShape (AA_Assessment prior) = Ok tt.
Proof.
  unfold trustworthy. case_decide; [done|].
  destruct (Assessment_validateShape _) as [[]|]; done.
Qed.

(** What a reused proposal is. *)
Lemma reuse_cases md idg prior snap inp state now r :
  Forall (λ c, RC_ID c ≠ "" ∧ RC_Code c ≠ "") (EligibleReasons snap) →
  RevalidateReuse md idg prior snap inp state now = Ok r →
  AA_Derivation prior ≠ DerivationDeterministicFallback ∧
  AA_AssessmentBasisHash prior = Snap_AssessmentBasisHash snap ∧
  ∃ rr, let p := proposal_with_reason (AA_Assessment prior) rr in
    grounded p snap ∧ AssessmentProposal_Validate p = Ok tt ∧
    r = DeriveAssessment md idg (raised p snap) snap inp state DerivationRevalidatedReuse
          (Some (AA_ID prior)) now.
Proof.
  intros Hcs. unfold RevalidateReuse.
  destruct (trustworthy prior) eqn:Et; [done|]. apply trustworthy_valid in Et as [Hd Hv].
  destruct (str_eqb (AA_AssessmentBasisHash prior) _) eqn:Eb; [|done]. go_bool. cbn [negb].
  destruct (rebindSufficientReason _ _) as [rr|] eqn:Er; [|done].
  destruct (accepted _) eqn:Ea; [|done]. destruct (VR_Proposal _) as [p|] eqn:Ep; [|done].
  intros [= <-]. destruct (accepted_grounded _ _ _ Ea Ep) as [Hg ->].
  split_and!; [done|done|]. exists rr. split_and!; [done| |done].
  apply proposal_with_reason_valid; [done|]. by eapply rebind_valid.
Qed.

(** What an accepted response is. *)
Lemma accepted_response {Raw} keys dec (raw : Raw) snap call p :
  let v := ValidateAssessmentProposal keys dec raw snap call in
  accepted (VR_Outcome v) = true → VR_Proposal v = Some p →
  Call_InputVersion call = Snap_InputVersion snap ∧
  Call_MaterialFactHash call = Snap_MaterialFactHash snap ∧
  (∃ ks, keys raw = Some ks ∧ Forall (λ k, k ∈ allowedProposalTopLevelKeys) ks) ∧
  ∃ q, dec raw = Some q ∧ AssessmentProposal_Validate q = Ok tt ∧ grounded q snap ∧
       proposalTextBounded q = true ∧ p = raised q snap.
Proof.
  intros v. unfold v, ValidateAssessmentProposal.
  destruct (Call_InputVersion call =? Snap_InputVersion snap)%Z eqn:E1; [|done].
  destruct (str_eqb (Call_MaterialFactHash call) _) eqn:E2; [|done]. go_bool.
  cbn [negb orb]. destruct (keys raw) as [ks|]; [|done].
  destruct (find _ ks) eqn:Ef; [done|].
  destruct (dec raw) as [q|]; [|done].
  destruct (AssessmentProposal_Validate q) as [[]|] eqn:Ev; [|done].
  destruct (proposalTextBounded q) eqn:Eb; [|done]. cbn zeta.
  intros Ha Hp.
  assert (Hacc : accepted (VR_Outcome (validateProposalContent q snap)) = true ∧
                 VR_Proposal (validateProposalContent q snap) = Some p)
    by (revert Ha Hp; destruct (VR_Outcome (validateProposalContent q snap)) eqn:Eo; simpl;
        rewrite ?Eo; done).
  destruct Hacc as [Hacc Hpr]. destruct (accepted_grounded _ _ _ Hacc Hpr) as [Hg ->].
  split_and!; [done|done| |by exists q].
  exists ks. split; [done|]. apply Forall_forall. intros k Hk.
  apply list_elem_of_In, (find_none _ _ Ef), negb_false_iff in Hk.
  apply existsb_exists in Hk as (k' & Hk' & Heq). apply String.eqb_eq in Heq as ->.
  by apply list_elem_of_In.
Qed.

(** An accepted result carries its proposal. *)
Lemma accepted_some {Raw} keys dec (raw : Raw) snap call :
  let v := ValidateAssessmentProposal keys dec raw snap call in
  accepted (VR_Outcome v) = true → is_Some (VR_Proposal v).
Proof.
  intros v. unfold v, ValidateAssessmentProposal.
  destruct (_ || _); [done|]. destruct (keys raw); [|done]. destruct (find _ _); [done|].
  destruct (dec raw) as [q|]; [|done]. destruct (AssessmentProposal_Validate q); [|done].
  destruct (negb _); [done|]. cbn zeta.
  destruct (validateProposalContent_grounded q snap) as [(_ & Ho & Hp)|(_ & Ho & _)].
  - destruct (VR_Outcome (validateProposalContent q snap)) eqn:E; simpl; rewrite ?E, ?Hp; by eauto.
  - destruct (VR_Outcome (validateProposalContent q snap)) eqn:E; simpl in *; rewrite ?E; done.
Qed.

(** ** Theorems *)

(** The Operator contract derived from any controller state passes the
    model's own validator, next update in the future included, with the
    actor, the action and the schedule agreeing with one another. *)
Theorem DeriveActionContract_valid state cadence now :
  opt_validate OperatorAction_Validate (CS_OperatorActionRequired state) = Ok tt →
  let c := DeriveActionContract state cadence now in
  ActionContract_validate c (Terminal (CS_Lifecycle state)) = Ok tt ∧
  requireFreshNextUpdateAt c now = Ok tt.
Proof. apply DeriveActionContract_shape. Qed.

(** The next update is always in the future.  When a controller checkpoint
    is already due it is one second away; otherwise it is the earliest of the
    cadence, the controller's checkpoints and the Triage times still ahead, so
    a Triage time that has passed never pulls it in. *)
Theorem nextUpdateAt_spec state cadence now :
  let at_ := nextUpdateAt state cadence now in
  (now < at_)%Z ∧
  (Exists (λ t, t ≤ now)%Z (controller_checkpoints state) → at_ = (now + minNextUpdateLead)%Z) ∧
  (Forall (λ t, now < t)%Z (controller_checkpoints state) →
   at_ = foldl Z.min (now + Interval (CS_Tempo state) cadence)%Z
           (omap id (update_candidates state now))).
Proof.
  split; [apply nextUpdateAt_after|]. unfold nextUpdateAt. rewrite foldl_earliest.
  set (cs := omap id (update_candidates state now)).
  destruct (foldl_min_spec (Add now (Interval (CS_Tempo state) cadence)) cs) as (Hx & Hall & Hin).
  set (m := foldl Z.min _ cs) in *. unfold After. split.
  - intros (t & Ht & Hle)%Exists_exists.
    assert (Htc : t ∈ cs).
    { unfold cs, update_candidates. rewrite omap_app. apply elem_of_app. by left. }
    specialize (Hall _ Htc). by replace (now <? m)%Z with false by (symmetry; apply Z.ltb_ge; lia).
  - intros Hf. assert (now < m)%Z as Hlt%Z.ltb_lt; [|by rewrite Hlt].
    apply elem_of_cons in Hin as [->|Hin].
    + unfold Add. pose proof (Interval_positive (CS_Tempo state) cadence). lia.
    + apply update_candidates_future in Hin as [Hin|]; [|done]. by eapply Forall_forall in Hf.
Qed.

(** C33. A proposal is accepted exactly when it is grounded in the Snapshot: every
    limitation is one this build or this cycle knows, a cited reason is an
    eligible candidate whose evidence exists, a confirmed-grade claim cites a
    reason, a supported cause cites the deterministic floor, urgency has a floor,
    and nothing claims an operator's confirmation.  The accepted proposal is the
    one submitted, raised to urgent when the floor is active and to nothing else,
    so that it is urgent exactly when the floor is active. *)
Theorem validateProposalContent_iff p snap :
  let v := validateProposalContent p snap in
  (accepted (VR_Outcome v) = true ↔ grounded p snap) ∧
  (VR_Proposal v = if decide (accepted (VR_Outcome v) = true) then Some (raised p snap) else None) ∧
  (accepted (VR_Outcome v) = true →
   (P_Attention (raised p snap) = AttentionUrgent ↔
    hasDeterministicFloor (EligibleReasons snap) = true)).
Proof.
  destruct (validateProposalContent_grounded p snap) as [(Hg & Ha & Hp)|(Hg & Ha & Hp)];
    cbn zeta; rewrite Ha, Hp.
  - rewrite decide_True by done. split_and!; [done|done|]. intros _. by apply raised_urgent.
  - rewrite decide_False by done. by split_and!.
Qed.

(** A raw response is accepted only against the input version and material
    hash it was dispatched for, when it is an object with no key besides the
    eight of a proposal, decodes to a proposal of the closed vocabulary with
    bounded text, and is grounded; and the Assessment composed from what was
    accepted passes validation, future next update included. *)
Theorem ValidateAssessmentProposal_accepts {Raw} keys dec (raw : Raw) snap call p :
  let v := ValidateAssessmentProposal keys dec raw snap call in
  Lifecycle_Validate (Snap_Lifecycle snap) = Ok tt →
  accepted (VR_Outcome v) = true → VR_Proposal v = Some p →
  Call_InputVersion call = Snap_InputVersion snap ∧
  Call_MaterialFactHash call = Snap_MaterialFactHash snap ∧
  (∃ ks, keys raw = Some ks ∧ Forall (λ k, k ∈ allowedProposalTopLevelKeys) ks) ∧
  (∃ q, dec raw = Some q ∧ grounded q snap ∧ proposalTextBounded q = true ∧ p = raised q snap) ∧
  ∀ md idg inp state der reused now,
    Assessment_Validate (AR_Assessment (DeriveAssessment md idg p snap inp state der reused now)) now
    = Ok tt.
Proof.
  intros v Hlc Ha Hp. destruct (accepted_response _ _ _ _ _ _ Ha Hp) as (? & ? & ? & q & ? & ? & ? & ? & ->).
  split_and!; [done|done|done|by exists q|].
  intros. apply DeriveAssessment_valid; [by apply raised_valid|done].
Qed.

(** When a cycle ends without a fresh result, whatever Assessment was
    current, the one committed passes validation and is urgent exactly when a
    deterministic floor is eligible: the floor is never lowered and urgency is
    never kept without it. *)
Lemma fallbackOrPreserve_valid md idg snap inp current reused state now :
  Lifecycle_Validate (Snap_Lifecycle snap) = Ok tt →
  Forall (λ c, RC_ID c ≠ "" ∧ RC_Code c ≠ "") (EligibleReasons snap) →
  let a := fallbackOrPreserve md idg snap inp current reused state now in
  Assessment_Validate a now = Ok tt ∧
  (A_Attention a = AttentionUrgent ↔ hasDeterministicFloor (EligibleReasons snap) = true).
Proof.
  intros Hlc Hcs. unfold fallbackOrPreserve.
  destruct (revalidatedPreservedAssessment _ _ _ _ _ _ _ _) as [a|] eqn:E.
  - unfold revalidatedPreservedAssessment in E.
    destruct current as [cur|]; [|done]. destruct (trustworthy cur) eqn:Et; [done|].
    destruct (rebindSufficientReason _ _) as [r|] eqn:Er; [|done].
    destruct (accepted _) eqn:Ea; [|done]. destruct (VR_Proposal _) as [p|] eqn:Ep; [|done].
    simplify_eq. destruct (accepted_grounded _ _ _ Ea Ep) as [Hg ->].
    apply trustworthy_valid in Et as [_ Hv]. split; [|by apply raised_urgent].
    apply DeriveAssessment_valid; [|done]. apply raised_valid, proposal_with_reason_valid; [done|].
    by eapply rebind_valid.
  - unfold DeterministicFallback, DeterministicAssessment, hasDeterministicFloor.
    destruct (findFloorCandidate (EligibleReasons snap)) as [c|] eqn:Ef.
    + split; [|done]. apply DeriveAssessment_valid; [|done].
      apply find_candidate_floor in Ef as [Hin _]. rewrite Forall_forall in Hcs.
      destruct (Hcs _ Hin) as [Hid Hcode].
      unfold AssessmentProposal_Validate. rewrite !res_bind_unit. split_and!; try done.
      cbn [opt_validate P_SufficientReason]. unfold SufficientReason_Validate.
      cbn [SR_Code SR_CandidateID]. destruct (str_eqb (RC_Code c) "") eqn:E1; go_bool; [done|].
      by destruct (str_eqb (RC_ID c) "") eqn:E2; go_bool.
    + split; [|done]. by apply DeriveAssessment_valid.
Qed.

(** A prior Assessment is reused only when it was not a fallback, still has a
    valid shape and was derived from the same basis; the result is a new
    Assessment of the current input (its version, hashes and coverage), tagged as
    reuse of the prior, it passes validation with a fresh next update, it is
    urgent exactly when the floor is active, and its other semantic fields are
    the prior's. *)
Theorem RevalidateReuse_sound md idg prior snap inp state now r :
  Lifecycle_Validate (Snap_Lifecycle snap) = Ok tt →
  Forall (λ c, RC_ID c ≠ "" ∧ RC_Code c ≠ "") (EligibleReasons snap) →
  RevalidateReuse md idg prior snap inp state now = Ok r →
  AA_Derivation prior ≠ DerivationDeterministicFallback ∧
  AA_AssessmentBasisHash prior = Snap_AssessmentBasisHash snap ∧
  AR_Derivation r = DerivationRevalidatedReuse ∧
  AR_ReusedFromAssessmentID r = Some (AA_ID prior) ∧
  AR_InputVersion r = Snap_InputVersion snap ∧
  AR_Coverage r = DeriveIncidentCoverage md idg inp ∧
  Assessment_Validate (AR_Assessment r) now = Ok tt ∧
  (A_Attention (AR_Assessment r) = AttentionUrgent ↔
   hasDeterministicFloor (EligibleReasons snap) = true) ∧
  A_Causality (AR_Assessment r) = A_Causality (AA_Assessment prior) ∧
  A_Impact (AR_Assessment r) = A_Impact (AA_Assessment prior) ∧
  A_Limitations (AR_Assessment r) = A_Limitations (AA_Assessment prior).
Proof.
  intros Hlc Hcs (Hd & Hb & rr & Hg & Hp & ->)%reuse_cases; [|done].
  split_and!; try done; [by apply DeriveAssessment_valid; [apply raised_valid|]|by apply raised_urgent|..];
    cbn; unfold raised; by destruct (hasDeterministicFloor _).
Qed.

(** A call's outcome allows one immediate correction, for a malformed result
    and only when it was not spent; it allows a durable retry exactly for
    malformed results and transport failures; and it counts as accepted only
    when a result was received and accepted. *)
Theorem ClassifyL2Outcome_policy vr err used :
  let p := ClassifyL2Outcome vr err used in
  (ImmediateCorrection p = true ↔ RP_Outcome p = L2OutcomeMalformed ∧ used = false) ∧
  (DurableRetry p = true ↔
   RP_Outcome p = L2OutcomeMalformed ∨ RP_Outcome p = L2OutcomeTransportFailure ∨
   RP_Outcome p = L2OutcomeRateLimited) ∧
  (RP_Outcome p = L2OutcomeAccepted ∨ RP_Outcome p = L2OutcomeContradicted ↔
   err = None ∧ ∃ v, vr = Some v ∧ accepted (VR_Outcome v) = true).
Proof.
  unfold ClassifyL2Outcome, classifyTransportErr.
  destruct err as [e|]; cbn zeta.
  - destruct (is_decode_failure e); [destruct used; simpl; naive_solver|].
    destruct (retryable_status e) as [st|], (api_status e) as [st'|];
      repeat case_match; simpl; naive_solver.
  - destruct vr as [[[] ? ? ? ?]|]; simpl; try (destruct used; simpl); naive_solver.
Qed.

(** ** Concrete inputs *)

Definition ex_state : ControllerState :=
  {| CS_Lifecycle := LifecycleActive; CS_Attention := AttentionInvestigate;
     CS_OperatorActionRequired := Some OperatorActionInvestigateSituation;
     CS_TriagePhase := TriagePhaseBackoff; CS_SemanticRetry := SemanticRetryPhaseNone;
     CS_Tempo := {| Fast := 0%Z; Normal := 0%Z; Slow := 0%Z |};
     TriageDueAt := Some (5 * Second)%Z; FutureTriageDueAt := Some (70 * Second)%Z;
     SemanticRetryAt := None; RecoveryGraceUntil := None;
     LifecycleObservationDeadlineAt := None; EarliestPersistedCheckpoint := None |}.

Definition ex_floor : ReasonCandidate :=
  {| RC_ID := "r1"; RC_Code := "critical_anchor"; RC_Summary := "critical"; RC_CatalogVersion := 1%Z;
     RC_PredicateVersion := 1%Z; RC_EvidenceRefs := []; RC_DeterministicFloor := true |}.

Definition ex_proposal : AssessmentProposal :=
  {| P_SchemaVersion := 1%Z; P_Persistence := PersistenceSustained; P_Impact := ImpactConfirmed;
     P_Novelty := NoveltyInsufficientHistory; P_Causality := CausalitySupported;
     P_Attention := AttentionInvestigate;
     P_SufficientReason := Some {| SR_Code := "critical_anchor"; SR_CandidateID := "r1";
                                   SR_Summary := "critical"; SR_EvidenceRefs := ["f1"] |};
     P_Limitations := [{| Limitation_Code := "envelope_unavailable"; Limitation_Detail := "" |}] |}.

Definition ex_facts : list Fact :=
  [{| Fact_ID := "f1"; Fact_ResultStatus := FactConfirmedValue; Fact_Material := true |}].

Definition ex_snap : Snapshot := ex_snapshot [ex_firing] [ex_floor] ex_facts.

Definition ex_call : AssessmentCall := {| Call_InputVersion := 1%Z; Call_MaterialFactHash := "m" |}.

Definition ex_prior : AuthoritativeAssessment :=
  {| AA_ID := "p1"; AA_AssessmentBasisHash := "b"; AA_MaterialFactHash := "m";
     AA_Assessment := AR_Assessment (DeriveAssessment ex_sha ex_sha' ex_proposal ex_snap
                        (ex_input [ex_firing]) ex_state DerivationModelValidated None 0%Z);
     AA_Derivation := DerivationModelValidated;
     AA_Coverage := DeriveIncidentCoverage ex_sha ex_sha' (ex_input [ex_firing]) |}.

Lemma DeriveActionContract_valid_witness :
  ActionContract_validate (DeriveActionContract ex_state CadenceNormal (10 * Second)%Z) false = Ok tt.
Proof. exact (proj1 (DeriveActionContract_valid ex_state CadenceNormal (10 * Second)%Z eq_refl)). Defined.

Lemma ValidateAssessmentProposal_accepts_witness :
  Assessment_Validate (AR_Assessment (DeriveAssessment ex_sha ex_sha'
    (set_attention ex_proposal AttentionUrgent) ex_snap (ex_input [ex_firing]) ex_state
    DerivationModelValidated None (10 * Second)%Z)) (10 * Second)%Z = Ok tt.
Proof.
  destruct (ValidateAssessmentProposal_accepts (λ _ : unit, Some ["impact"; "causality"])
    (λ _, Some ex_proposal) tt ex_snap ex_call (set_attention ex_proposal AttentionUrgent)
    eq_refl eq_refl eq_refl) as (_ & _ & _ & _ & H).
  apply H.
Defined.

Lemma ex_candidates_named : Forall (λ c, RC_ID c ≠ "" ∧ RC_Code c ≠ "") (EligibleReasons ex_snap).
Proof. by repeat constructor. Qed.

Lemma fallbackOrPreserve_valid_witness :
  Assessment_Validate (fallbackOrPreserve ex_sha ex_sha' ex_snap (ex_input [ex_firing])
    (Some ex_prior) None ex_state (10 * Second)%Z) (10 * Second)%Z = Ok tt.
Proof.
  exact (proj1 (fallbackOrPreserve_valid ex_sha ex_sha' ex_snap (ex_input [ex_firing])
    (Some ex_prior) None ex_state (10 * Second)%Z eq_refl ex_candidates_named)).
Defined.

Lemma RevalidateReuse_sound_witness :
  ∃ r, RevalidateReuse ex_sha ex_sha' ex_prior ex_snap (ex_input [ex_firing]) ex_state (10 * Second)%Z
       = Ok r ∧ AR_Derivation r = DerivationRevalidatedReuse.
Proof.
  eexists. split; [reflexivity|].
  apply (RevalidateReuse_sound ex_sha ex_sha' ex_prior ex_snap (ex_input [ex_firing]) ex_state
    (10 * Second)%Z _ eq_refl ex_candidates_named eq_refl).
Defined.
