(* ===== verification/LLMBudget.v ===== *)
(** * The shared LLM budget (internal/llm/budget.go)

    The ledger every generation request goes through: a token allowance and one
    call of the rolling hour are reserved before the request is sent, and settled
    to the reported usage, or kept, when the outcome is known.

    A persisted ledger is its decoded JSON; the store's
    [UpdateLLMBudget] commits what [update] returns, or nothing
    ([internal/store/llm_budget.go]).  The decoding of a request body
    ([max_tokens]) and of a response body ([usage]) enters as its result. *)

From stdpp Require Import prelude strings list gmap sorting.
From S2P Require Import Prelude.

(** ** The ledger *)

Record BudgetLimits : Type := { CallsPerHour : Z; TotalTokens : Z }.

Record budgetState : Type := {
  Version : Z;
  Calls : list Time;
  Tokens : Z;
  Pending : gmap string Z;
  Unknown : bool;
  UnknownReason : string;
  UnknownAt : string
}.

(** A decoded row: ["pending": null] leaves a nil map. *)
Record storedBudget : Type := { sb_state : budgetState; sb_pending_nil : bool }.

Inductive BudgetError : Type :=
| BudgetStateInvalid
| BudgetDeferred (retryAt : option Time)
| BudgetCounterOverflow
| BudgetReservationMissing.

Definition budget_zero : budgetState :=
  {| Version := 1%Z; Calls := []; Tokens := 0%Z; Pending := ∅; Unknown := false;
     UnknownReason := ""; UnknownAt := "" |}.

(** The row ["{}"] is [None]. *)
Definition load (raw : option storedBudget) : result BudgetError budgetState :=
  match raw with
  | None => Ok budget_zero
  | Some b =>
      if negb (Version (sb_state b) =? 1)%Z || (Tokens (sb_state b) <? 0)%Z || sb_pending_nil b
      then Err BudgetStateInvalid else Ok (sb_state b)
  end.

Definition update {A} (raw : option storedBudget)
    (fn : budgetState → result BudgetError (budgetState * A))
    : result BudgetError (option storedBudget * A) :=
  let? s := load raw in
  let? r := fn s in
  Ok (Some {| sb_state := r.1; sb_pending_nil := false |}, r.2).

(** ** Reservation *)

Definition live_calls (now : Time) (calls : list Time) : list Time :=
  filter (λ at_, After at_ (Add now (- Hour)%Z) = true) calls.

Definition compare_times : Time → Time → bool := Z.ltb.

Definition reserve (limits : BudgetLimits) (now : Time) (id : string) (allowance : Z)
    (state : budgetState) : result BudgetError budgetState :=
  if (0 <? TotalTokens limits)%Z && Unknown state then Err (BudgetDeferred None)
  else
    let live := live_calls now (Calls state) in
    if (0 <? CallsPerHour limits)%Z && (CallsPerHour limits <=? Z.of_nat (length live))%Z then
      let sorted := SliceStable compare_times live in
      let retryAt := Add (nth (Z.to_nat (Z.of_nat (length live) - CallsPerHour limits)) sorted time_zero)
                       Hour in
      Err (BudgetDeferred (Some retryAt))
    else if (0 <? TotalTokens limits)%Z
            && (wrap64 (TotalTokens limits - Tokens state) <? allowance)%Z then
      Err (BudgetDeferred None)
    else if (wrap64 (int64_max - Tokens state) <? allowance)%Z then Err BudgetCounterOverflow
    else Ok {| Version := Version state; Calls := live ++ [now];
               Tokens := wrap64 (Tokens state + allowance);
               Pending := <[id := allowance]> (Pending state);
               Unknown := Unknown state; UnknownReason := UnknownReason state;
               UnknownAt := UnknownAt state |}.

(** ** Usage of a response *)

(** What [json.Unmarshal] makes of one raw count. *)
Inductive RawCount : Set :=
| Count (n : Z)
| CountNull
| CountOutOfRange
| CountInvalid.

Inductive UsageError : Set :=
| UsageUnknown
| UsageOverflow
| UsageUndecodable.

Fixpoint sum_counts (usage : gmap string RawCount) (total : Z) (keys : list (string * bool))
    : result UsageError Z :=
  match keys with
  | [] => if (total =? 0)%Z then Err UsageUnknown else Ok total
  | (key, optional) :: keys' =>
      match usage !! key with
      | None => if optional then sum_counts usage total keys' else Err UsageUnknown
      | Some CountOutOfRange => Err UsageOverflow
      | Some CountInvalid => Err UsageUnknown
      | Some CountNull => Err UsageUnknown
      | Some (Count n) =>
          if (n <? 0)%Z then Err UsageUnknown
          else if (int64_max - total <? n)%Z then Err UsageOverflow
          else sum_counts usage (total + n)%Z keys'
      end
  end.

(** [body] is [None] when the body is no JSON object of the expected shape. *)
Definition responseTokens (body : option (gmap string RawCount)) : result UsageError Z :=
  match body with
  | None => Err UsageUndecodable
  | Some usage =>
      sum_counts usage 0%Z
        (match usage !! "prompt_tokens" with
         | Some _ => [("prompt_tokens", false); ("completion_tokens", false)]
         | None => [("input_tokens", false); ("output_tokens", false);
                    ("cache_creation_input_tokens", true); ("cache_read_input_tokens", true)]
         end)
  end.

Record Response : Type := {
  StatusCode : Z;
  read_error : bool;
  body_length : Z;
  body_usage : option (gmap string RawCount)
}.

Definition StatusOK : Z := 200%Z.
Definition StatusServiceUnavailable : Z := 503%Z.
Definition maxBody : Z := (512 * 1024)%Z.

Definition declined (resp : Response) : bool :=
  ((400 <=? StatusCode resp) && (StatusCode resp <? 500))%Z
  || (StatusCode resp =? StatusServiceUnavailable)%Z || (StatusCode resp =? 529)%Z.

(** The outcome of a request: usage settled, or unknown with the reason the
    ledger latches. *)
Inductive Settlement : Set :=
| Used (tokens : Z)
| UnknownUsage (reason : string).

Definition body_tokens (resp : Response) : result UsageError Z :=
  if read_error resp || (maxBody <? body_length resp)%Z then Err UsageUnknown
  else responseTokens (body_usage resp).

(** [http_name] is [fmt.Sprintf("http_%d", code)]. *)
Definition settlementUsage (http_name : Z → string) (resp : option Response) (dispatchErr : bool)
    : Settlement :=
  match resp with
  | Some resp =>
      if dispatchErr then UnknownUsage "transport_error"
      else match body_tokens resp with
           | Ok used => Used used
           | Err e =>
               if declined resp then Used 0%Z
               else if negb (StatusCode resp =? StatusOK)%Z then UnknownUsage (http_name (StatusCode resp))
               else match e with
                    | UsageOverflow => UnknownUsage "usage_overflow"
                    | _ => UnknownUsage "no_usage"
                    end
           end
  | None => UnknownUsage "transport_error"
  end.

(** ** Settlement *)

Definition latchUnknown (state : budgetState) (reason at_ : string) : budgetState :=
  if Unknown state then state
  else {| Version := Version state; Calls := Calls state; Tokens := Tokens state;
          Pending := Pending state; Unknown := true; UnknownReason := reason; UnknownAt := at_ |}.

Definition with_pending (state : budgetState) (p : gmap string Z) : budgetState :=
  {| Version := Version state; Calls := Calls state; Tokens := Tokens state; Pending := p;
     Unknown := Unknown state; UnknownReason := UnknownReason state; UnknownAt := UnknownAt state |}.

Definition with_tokens (state : budgetState) (n : Z) : budgetState :=
  {| Version := Version state; Calls := Calls state; Tokens := n; Pending := Pending state;
     Unknown := Unknown state; UnknownReason := UnknownReason state; UnknownAt := UnknownAt state |}.

(** The settlement closure of [RoundTrip]: the new ledger and [overrun]. *)
Definition settle (limits : BudgetLimits) (id : string) (outcome : Settlement) (at_ : string)
    (state : budgetState) : result BudgetError (budgetState * bool) :=
  match Pending state !! id with
  | None => Err BudgetReservationMissing
  | Some reserved =>
      let state := with_pending state (delete id (Pending state)) in
      match outcome with
      | UnknownUsage reason => Ok (latchUnknown state reason at_, false)
      | Used used =>
          let base := wrap64 (Tokens state - reserved) in
          let state :=
            if (wrap64 (int64_max - base) <? used)%Z
            then latchUnknown (with_tokens state int64_max) "usage_overflow" at_
            else with_tokens state (wrap64 (base + used)) in
          Ok (state, (0 <? TotalTokens limits)%Z && (TotalTokens limits <? Tokens state)%Z)
      end
  end.

(** [requestAllowance]: [max_tokens] is [None] when the body does not decode. *)
Definition requestAllowance (replayable : bool) (raw_length : Z) (max_tokens : option Z) : option Z :=
  if negb replayable then None
  else match max_tokens with
       | None => None
       | Some m =>
           if (m <=? 0)%Z || (int64_max - raw_length - 1024 <? m)%Z then None
           else Some (raw_length + m + 1024)%Z
       end.

(** ** One request *)

Inductive RoundTripResult : Type :=
| NotSent                         (* ErrRequestNotSent *)
| SettlementFailed
| Overrun                         (* ErrBudgetExhausted after the fact *)
| UsageUnknownError               (* ErrBudgetUsageUnknown *)
| Passed (resp : option Response) (dispatchErr : bool).

(** The environment of one POST: what the request holds, what the store does,
    what the base transport answers.  [store] stands for the row at reservation,
    [store'] for the row at settlement (other requests may have moved it);
    [commit] and [commit'] say whether each update commits. *)
Record Exchange : Type := {
  ex_allowance : option Z;
  ex_now : Time;
  ex_commit : bool;
  ex_resp : option Response;
  ex_dispatchErr : bool;
  ex_at : string;
  ex_commit' : bool
}.

Definition reservation (limits : BudgetLimits) (id : string) (e : Exchange)
    (raw : option storedBudget) : option (option storedBudget) :=
  match ex_allowance e with
  | None => None
  | Some n =>
      match update raw (λ s, let? s' := reserve limits (ex_now e) id n s in Ok (s', tt)) with
      | Ok (raw', _) => if ex_commit e then Some raw' else None
      | Err _ => None
      end
  end.

Definition settlement (limits : BudgetLimits) (http_name : Z → string) (id : string) (e : Exchange)
    (raw : option storedBudget) : option storedBudget * RoundTripResult :=
  let outcome := settlementUsage http_name (ex_resp e) (ex_dispatchErr e) in
  match update raw (settle limits id outcome (ex_at e)) with
  | Ok (raw', overrun) =>
      if negb (ex_commit' e) then (raw, SettlementFailed)
      else (raw',
        if overrun then Overrun
        else match outcome with
             | UnknownUsage _ =>
                 if (negb (ex_dispatchErr e)
                     && match ex_resp e with Some r => (StatusCode r =? StatusOK)%Z | None => false end)
                    || (ex_dispatchErr e && (0 <? TotalTokens limits)%Z)
                 then UsageUnknownError
                 else Passed (ex_resp e) (ex_dispatchErr e)
             | Used _ => Passed (ex_resp e) (ex_dispatchErr e)
             end)
  | Err _ => (raw, SettlementFailed)
  end.

(** [others] is what the other requests of the installation commit between. *)
Definition RoundTrip (limits : BudgetLimits) (http_name : Z → string) (id : string) (e : Exchange)
    (others : option storedBudget → option storedBudget) (raw : option storedBudget)
    : option storedBudget * RoundTripResult :=
  match reservation limits id e raw with
  | None => (raw, NotSent)
  | Some raw1 => settlement limits http_name id e (others raw1)
  end.

(** [Transport] guards the base transport unless both dimensions are unlimited. *)
Definition Transport_guards (limits : BudgetLimits) : bool :=
  negb ((CallsPerHour limits =? 0) && (TotalTokens limits =? 0))%Z.

(** ** Ledger histories *)

Inductive LedgerEvent : Type :=
| EvReserved (id : string) (allowance : Z) (now : Time)
| EvSettled (id : string) (reserved charge : Z).

Section history.
Context (limits : BudgetLimits).

(** One committed change of the ledger.  Reservation identifiers are 128 random
    bits: a new one is not pending. *)
Inductive lstep : budgetState → LedgerEvent → budgetState → Prop :=
| lstep_reserve s id n now s' :
    Pending s !! id = None → (0 ≤ n)%Z → (0 ≤ Tokens s)%Z →
    reserve limits now id n s = Ok s' →
    lstep s (EvReserved id n now) s'
| lstep_settle s id n outcome at_ s' over :
    Pending s !! id = Some n → (0 ≤ Tokens s)%Z →
    (∀ used, outcome = Used used → 0 ≤ used ≤ int64_max)%Z →
    settle limits id outcome at_ s = Ok (s', over) →
    lstep s (EvSettled id n (Tokens s' - (Tokens s - n))%Z) s'.

Inductive lsteps : budgetState → list LedgerEvent → budgetState → Prop :=
| lsteps_nil s : lsteps s [] s
| lsteps_snoc s tr s' e s'' : lsteps s tr s' → lstep s' e s'' → lsteps s (tr ++ [e]) s''.
End history.

Definition pending_sum (p : gmap string Z) : Z := map_fold (λ _ n acc, n + acc)%Z 0%Z p.

Definition charge (e : LedgerEvent) : Z :=
  match e with EvSettled _ _ c => c | EvReserved _ _ _ => 0%Z end.
Definition overshoot (e : LedgerEvent) : Z :=
  match e with EvSettled _ n c => Z.max 0 (c - n) | EvReserved _ _ _ => 0%Z end.
Definition zsum (l : list Z) : Z := foldr Z.add 0%Z l.

Definition reserved_at (e : LedgerEvent) : option Time :=
  match e with EvReserved _ _ now => Some now | EvSettled _ _ _ => None end.

(** The reservation times of a history, oldest first. *)
Definition call_times (tr : list LedgerEvent) : list Time := omap reserved_at tr.

(** Calls admitted in the hour that ends at [t]. *)
Definition in_hour (t : Time) (calls : list Time) : list Time :=
  filter (λ at_, t - Hour < at_ ≤ t)%Z calls.

(** ** Lemmas *)

Lemma pending_sum_insert p id n :
  p !! id = None → pending_sum (<[id := n]> p) = (n + pending_sum p)%Z.
Proof. intros H. unfold pending_sum. rewrite map_fold_insert_L; [done|lia|done]. Qed.

Lemma pending_sum_delete p id n :
  p !! id = Some n → pending_sum p = (n + pending_sum (delete id p))%Z.
Proof. intros H. unfold pending_sum. rewrite (map_fold_delete_L _ _ id n); [done|lia|done]. Qed.

Lemma pending_sum_nonneg p : map_Forall (λ _ n, 0 ≤ n)%Z p → (0 ≤ pending_sum p)%Z.
Proof.
  induction p as [|id n p Hid IH] using map_ind; [done|].
  intros [Hn Hp]%map_Forall_insert; [|done]. rewrite pending_sum_insert by done. specialize (IH Hp). lia.
Qed.

Lemma zsum_app l l' : zsum (l ++ l') = (zsum l + zsum l')%Z.
Proof. unfold zsum. induction l as [|y l IH]; [done|]. simpl. rewrite IH. lia. Qed.

Lemma zsum_fmap_snoc (f : LedgerEvent → Z) tr e :
  zsum (f <$> (tr ++ [e])) = (zsum (f <$> tr) + f e)%Z.
Proof. rewrite fmap_app, zsum_app. cbn. lia. Qed.

Lemma zsum_nonneg l : Forall (λ x, 0 ≤ x)%Z l → (0 ≤ zsum l)%Z.
Proof. induction 1; simpl; lia. Qed.

(** What a successful reservation changes. *)
Lemma reserve_ok limits now id n s s' :
  (0 ≤ n)%Z → (0 ≤ Tokens s ≤ int64_max)%Z → in_int64 (TotalTokens limits) →
  reserve limits now id n s = Ok s' →
  Tokens s' = (Tokens s + n)%Z ∧ (Tokens s + n ≤ int64_max)%Z ∧
  Pending s' = <[id := n]> (Pending s) ∧ Calls s' = live_calls now (Calls s) ++ [now] ∧
  ((0 < TotalTokens limits)%Z → (Tokens s + n ≤ TotalTokens limits)%Z ∧ Unknown s = false) ∧
  ((0 < CallsPerHour limits)%Z → (Z.of_nat (length (live_calls now (Calls s))) < CallsPerHour limits)%Z).
Proof.
  intros Hn Ht HL. unfold reserve.
  destruct ((0 <? TotalTokens limits)%Z && Unknown s) eqn:E1; [done|].
  destruct ((0 <? CallsPerHour limits)%Z && _) eqn:E2; [done|].
  destruct ((0 <? TotalTokens limits)%Z && (wrap64 (TotalTokens limits - Tokens s) <? n)%Z) eqn:E3; [done|].
  destruct (wrap64 (int64_max - Tokens s) <? n)%Z eqn:E4; [done|]. intros [= <-]. cbn -[wrap64].
  apply andb_false_iff in E1, E2, E3.
  rewrite wrap64_id in E4 by (unfold in_int64, int64_min, int64_max in *; lia).
  go_bool. rewrite wrap64_id by (unfold in_int64, int64_min, int64_max in *; lia).
  split_and!; [done|lia|done|done| |].
  - intros Hpos. split.
    + destruct E3 as [E3|E3]; go_bool; [lia|].
      rewrite wrap64_id in E3 by (unfold in_int64, int64_min, int64_max in *; lia). lia.
    + destruct E1 as [E1|E1]; go_bool; [lia|done].
  - intros Hpos. destruct E2 as [E2|E2]; go_bool; lia.
Qed.

Lemma latchUnknown_tokens s r a : Tokens (latchUnknown s r a) = Tokens s.
Proof. unfold latchUnknown. by destruct (Unknown s). Qed.
Lemma latchUnknown_pending s r a : Pending (latchUnknown s r a) = Pending s.
Proof. unfold latchUnknown. by destruct (Unknown s). Qed.
Lemma latchUnknown_calls s r a : Calls (latchUnknown s r a) = Calls s.
Proof. unfold latchUnknown. by destruct (Unknown s). Qed.

(** What a settlement changes, when the ledger holds the reservation. *)
Lemma settle_ok limits id n outcome at_ s s' over :
  Pending s !! id = Some n → (0 ≤ n ≤ Tokens s)%Z → (Tokens s ≤ int64_max)%Z →
  (∀ used, outcome = Used used → 0 ≤ used ≤ int64_max)%Z →
  settle limits id outcome at_ s = Ok (s', over) →
  Pending s' = delete id (Pending s) ∧ Calls s' = Calls s ∧
  Tokens s' = match outcome with
              | UnknownUsage _ => Tokens s
              | Used used => Z.min int64_max (Tokens s - n + used)
              end.
Proof.
  intros Hp Hn Hmax Hu. unfold settle. rewrite Hp.
  destruct outcome as [used|reason]; cbn -[wrap64].
  - specialize (Hu used eq_refl).
    rewrite (wrap64_id (Tokens s - n)) by (unfold in_int64, int64_min, int64_max in *; lia).
    rewrite (wrap64_id (int64_max - _)) by (unfold in_int64, int64_min, int64_max in *; lia).
    destruct (int64_max - (Tokens s - n) <? used)%Z eqn:E; intros [= <- _]; go_bool.
    + rewrite latchUnknown_pending, latchUnknown_calls, latchUnknown_tokens. cbn.
      split_and!; try done. lia.
    + cbn -[wrap64]. split_and!; try done.
      rewrite wrap64_id by (unfold in_int64, int64_min, int64_max in *; lia). lia.
  - intros [= <- _]. by rewrite latchUnknown_pending, latchUnknown_calls, latchUnknown_tokens.
Qed.

(** The accounting every history keeps. *)
Record accounted (tr : list LedgerEvent) (s : budgetState) : Prop := {
  acc_sum : Tokens s = (zsum (charge <$> tr) + pending_sum (Pending s))%Z;
  acc_charges : Forall (λ e, 0 ≤ charge e)%Z tr;
  acc_pending : map_Forall (λ _ n, 0 ≤ n)%Z (Pending s);
  acc_max : (Tokens s ≤ int64_max)%Z
}.

Lemma accounted_pending tr s id n :
  accounted tr s → Pending s !! id = Some n → (0 ≤ n ≤ Tokens s)%Z.
Proof.
  intros [Hs Hc Hp Hm] Hid. split; [by apply (Hp id)|].
  rewrite Hs, (pending_sum_delete _ _ _ Hid).
  pose proof (pending_sum_nonneg (delete id (Pending s)) (map_Forall_delete _ _ _ Hp)).
  pose proof (zsum_nonneg (charge <$> tr)) as Hz. rewrite Forall_fmap in Hz. specialize (Hz Hc). lia.
Qed.

Lemma lsteps_accounted limits tr s :
  in_int64 (TotalTokens limits) → lsteps limits budget_zero tr s → accounted tr s.
Proof.
  intros HL. remember budget_zero as s0 eqn:E0. induction 1 as [s|s tr s1 e s2 Hs IH He].
  { subst. split; [done|constructor|by apply map_Forall_empty|]. cbn. unfold int64_max. lia. }
  specialize (IH E0). destruct He as [s1 id n now s2 Hid Hn Ht Hr|s1 id n outcome at_ s2 over Hid Ht Hu Hr].
  - destruct (reserve_ok _ _ _ _ _ _ Hn (conj Ht (acc_max _ _ IH)) HL Hr) as (H1 & H2 & H3 & _).
    destruct IH as [Hsum Hc Hp Hm]. split.
    + rewrite H1, H3, zsum_fmap_snoc, pending_sum_insert by done. cbn. lia.
    + apply Forall_app. split; [done|]. by repeat constructor.
    + rewrite H3. by apply map_Forall_insert_2.
    + lia.
  - pose proof (accounted_pending _ _ _ _ IH Hid) as Hn.
    destruct IH as [Hsum Hc Hp Hm].
    destruct (settle_ok _ _ _ _ _ _ _ _ Hid Hn Hm Hu Hr) as (H1 & H2 & H3). split.
    + rewrite zsum_fmap_snoc, H1. cbn. rewrite (pending_sum_delete _ _ _ Hid) in Hsum. lia.
    + apply Forall_app. split; [done|]. repeat constructor. cbn. rewrite H3.
      destruct outcome as [used|]; [specialize (Hu used eq_refl)|]; lia.
    + rewrite H1. by apply map_Forall_delete.
    + rewrite H3. destruct outcome; lia.
Qed.

(** *** Calls *)

Lemma call_times_snoc tr e :
  call_times (tr ++ [e]) = call_times tr ++ match reserved_at e with Some t => [t] | None => [] end.
Proof. unfold call_times. rewrite omap_app. simpl. by destruct (reserved_at e). Qed.

Lemma live_calls_filter now l : live_calls now l = filter (λ a, now - Hour < a)%Z l.
Proof.
  unfold live_calls. apply list_filter_iff. intros a. unfold After, Add. rewrite Z.ltb_lt. lia.
Qed.

(** The ledger keeps every call the rolling hour can still see. *)
Definition remembers (tr : list LedgerEvent) (s : budgetState) : Prop :=
  ∀ u, Forall (λ x, x ≤ u)%Z (call_times tr) →
  filter (λ a, u - Hour < a)%Z (Calls s) = filter (λ a, u - Hour < a)%Z (call_times tr).

Lemma in_hour_app t l l' : in_hour t (l ++ l') = in_hour t l ++ in_hour t l'.
Proof. apply filter_app. Qed.

Lemma filter_filter_weaker (u v : Z) (l : list Z) :
  (v ≤ u)%Z →
  filter (λ a, u - Hour < a)%Z (filter (λ a, v - Hour < a)%Z l) = filter (λ a, u - Hour < a)%Z l.
Proof.
  intros Hle. induction l as [|x l IH]; [done|]. rewrite !filter_cons.
  repeat case_decide; rewrite ?filter_cons; repeat case_decide; rewrite ?IH; try done; lia.
Qed.

Lemma Sorted_snoc_last (l : list Z) x : StronglySorted Z.le (l ++ [x]) → Forall (λ y, y ≤ x)%Z l ∧ StronglySorted Z.le l.
Proof.
  induction l as [|y l IH]; simpl; intros H; [by repeat constructor|].
  inversion_clear H as [|? ? Hs Hf]. destruct (IH Hs) as [? ?]. apply Forall_app in Hf as [Hf Hx].
  split; constructor; try done. by apply Forall_cons in Hx as [? _].
Qed.

Lemma lsteps_calls limits tr s :
  in_int64 (TotalTokens limits) → (0 < CallsPerHour limits)%Z →
  lsteps limits budget_zero tr s → StronglySorted Z.le (call_times tr) →
  remembers tr s ∧ ∀ t, (Z.of_nat (length (in_hour t (call_times tr))) ≤ CallsPerHour limits)%Z.
Proof.
  intros HL HK Hsteps. remember budget_zero as s0 eqn:E0.
  induction Hsteps as [s|s tr s1 e s2 Hs IH He]; intros Hsort.
  { subst. split; [intros u _; done|]. intros t. cbn. lia. }
  assert (Hacc : accounted tr s1) by (subst; by eapply lsteps_accounted).
  rewrite call_times_snoc in Hsort.
  destruct He as [s1 id n now s2 Hid Hn Ht Hr|s1 id n outcome at_ s2 over Hid Ht Hu Hr]; cbn in Hsort.
  - destruct (Sorted_snoc_last _ _ Hsort) as [Hle Hsort']. destruct (IH E0 Hsort') as [Hrem Hb].
    destruct (reserve_ok _ _ _ _ _ _ Hn (conj Ht (acc_max _ _ Hacc)) HL Hr) as (_ & _ & _ & H4 & _ & H6).
    specialize (H6 HK). rewrite live_calls_filter in H4, H6.
    rewrite (Hrem now Hle) in H4, H6. unfold remembers. rewrite call_times_snoc. cbn. split.
    + intros u [Hu Hnow]%Forall_app. apply Forall_cons in Hnow as [Hnow _].
      rewrite H4, !filter_app. f_equal. by apply filter_filter_weaker.
    + intros t. destruct (decide (t < now)%Z) as [Hlt|Hge].
      * unfold in_hour. rewrite filter_app, (filter_cons_False _ now) by lia.
        rewrite filter_nil, app_nil_r. apply Hb.
      * rewrite in_hour_app, length_app.
        assert (length (in_hour t (call_times tr)) ≤
                length (filter (λ a, now - Hour < a)%Z (call_times tr)))
          by (apply filter_length_le; intros; lia).
        assert (length (in_hour t [now]) ≤ 1)
          by (unfold in_hour; rewrite filter_cons, filter_nil; case_decide; simpl; lia).
        lia.
  - pose proof (accounted_pending _ _ _ _ Hacc Hid) as Hn.
    destruct (settle_ok _ _ _ _ _ _ _ _ Hid Hn (acc_max _ _ Hacc) Hu Hr) as (_ & H2 & _).
    rewrite app_nil_r in Hsort. destruct (IH E0 Hsort) as [Hrem Hb].
    unfold remembers. rewrite call_times_snoc. cbn. by rewrite app_nil_r, H2.
Qed.

(** *** The retry time *)

Lemma sorted_count (l1 l2 : list Z) (x : Z) :
  StronglySorted (λ a b, Z.ltb b a = false) (l1 ++ x :: l2) →
  length (filter (λ a, x < a)%Z (l1 ++ x :: l2)) ≤ length l2 ∧
  ∀ y, (y < x)%Z → S (length l2) ≤ length (filter (λ a, y < a)%Z (l1 ++ x :: l2)).
Proof.
  intros (Hlt & _ & Hs)%StronglySorted_app. inversion_clear Hs as [|? ? _ Hgt]. split.
  - rewrite filter_app, filter_cons_False by lia. rewrite (filter_none _ l1).
    + apply length_filter.
    + intros a Ha. specialize (Hlt a x Ha ltac:(left)). apply Z.ltb_ge in Hlt. lia.
  - intros y Hy. rewrite filter_app, length_app, filter_cons_True by lia.
    rewrite (filter_all _ l2); [simpl; lia|].
    intros a Ha. rewrite Forall_forall in Hgt. specialize (Hgt a Ha). go_bool. lia.
Qed.

Lemma nth_middle_split {A} (l : list A) i d :
  i < length l → ∃ l1 l2, l = l1 ++ nth i l d :: l2 ∧ length l2 = length l - i - 1.
Proof.
  intros Hi. destruct (lookup_lt_is_Some_2 l i Hi) as [x Hx].
  exists (take i l), (drop (S i) l). rewrite (nth_lookup_Some _ _ _ _ Hx), take_drop_middle by done.
  split; [done|]. rewrite length_drop. lia.
Qed.

(** *** Settlement *)

Lemma settle_pending limits id outcome at_ s s' over :
  settle limits id outcome at_ s = Ok (s', over) → Pending s' = delete id (Pending s).
Proof.
  unfold settle. destruct (Pending s !! id) as [n|]; [|done].
  destruct outcome as [used|reason].
  - destruct (_ <? used)%Z; intros [= <- _]; by rewrite ?latchUnknown_pending.
  - intros [= <- _]. by rewrite latchUnknown_pending.
Qed.

Lemma settle_unknown limits id outcome at_ s s' over :
  settle limits id outcome at_ s = Ok (s', over) → Unknown s = true → Unknown s' = true.
Proof.
  unfold settle, latchUnknown. destruct (Pending s !! id) as [n|]; [|done].
  destruct outcome as [used|reason].
  - destruct (_ <? used)%Z; intros [= <- _] H; simpl; by rewrite ?H.
  - intros [= <- _] H. simpl. by rewrite H.
Qed.

Lemma update_ok {A} raw (fn : budgetState → result BudgetError (budgetState * A)) raw' a :
  update raw fn = Ok (raw', a) →
  ∃ s s', load raw = Ok s ∧ fn s = Ok (s', a) ∧
          raw' = Some {| sb_state := s'; sb_pending_nil := false |}.
Proof.
  unfold update. destruct (load raw) as [s|]; simpl; [|done].
  destruct (fn s) as [[s' a']|] eqn:E; simpl; [|done]. intros [= <- <-]. eauto.
Qed.

Lemma sum_counts_bounds usage total keys n :
  (0 ≤ total ≤ int64_max)%Z → sum_counts usage total keys = Ok n → (0 < n ≤ int64_max)%Z.
Proof.
  revert total. induction keys as [|[key opt] keys IH]; simpl; intros total Ht.
  - destruct (total =? 0)%Z eqn:E; [done|]. intros [= <-]. go_bool. lia.
  - destruct (usage !! key) as [[c| | |]|]; try done.
    + destruct (c <? 0)%Z eqn:E1; [done|]. destruct (_ <? c)%Z eqn:E2; [done|]. go_bool.
      apply IH. lia.
    + destruct opt; [by apply IH|done].
Qed.

(** ** Theorems *)

(** Along every history from the empty ledger the token counter is what
    settlements charged plus what is still reserved, it is never negative and it
    never leaves 64 bits. *)
Theorem ledger_conservation limits tr s :
  in_int64 (TotalTokens limits) → lsteps limits budget_zero tr s →
  Tokens s = (zsum (charge <$> tr) + pending_sum (Pending s))%Z ∧
  (0 ≤ Tokens s ≤ int64_max)%Z ∧ (0 ≤ pending_sum (Pending s))%Z.
Proof.
  intros HL Hs. destruct (lsteps_accounted _ _ _ HL Hs) as [Hsum Hc Hp Hm].
  pose proof (pending_sum_nonneg _ Hp).
  assert (0 ≤ zsum (charge <$> tr))%Z by (apply zsum_nonneg; by rewrite Forall_fmap).
  split_and!; [done|lia|done|done].
Qed.

(** With a finite token limit the ledger exceeds it by no more than what
    settlements charged beyond their own reservations: when every provider stays
    within the allowance reserved for it, the limit is never exceeded, whatever
    the interleaving of requests. *)
Theorem ledger_within_limit limits tr s :
  in_int64 (TotalTokens limits) → (0 < TotalTokens limits)%Z →
  lsteps limits budget_zero tr s →
  (Tokens s ≤ TotalTokens limits + zsum (overshoot <$> tr))%Z.
Proof.
  intros HL Hpos Hs. remember budget_zero as s0 eqn:E0.
  induction Hs as [s|s tr s1 e s2 Hs IH He]; [subst; cbn; lia|]. specialize (IH E0).
  assert (Hacc : accounted tr s1) by (subst; by eapply lsteps_accounted).
  rewrite zsum_fmap_snoc.
  assert (Hz : (0 ≤ zsum (overshoot <$> tr))%Z)
    by (apply zsum_nonneg, Forall_fmap, Forall_true; intros [|]; cbn; lia).
  destruct He as [s1 id n now s2 Hid Hn Ht Hr|s1 id n outcome at_ s2 over Hid Ht Hu Hr]; cbn.
  - destruct (reserve_ok _ _ _ _ _ _ Hn (conj Ht (acc_max _ _ Hacc)) HL Hr) as (H1 & _ & _ & _ & H5 & _).
    destruct (H5 Hpos). lia.
  - lia.
Qed.

(** With a finite call limit and a clock that does not run backwards, no
    hour sees more admitted reservations than the limit, across any
    interleaving of reservations and settlements. *)
Theorem calls_per_hour limits tr s t :
  in_int64 (TotalTokens limits) → (0 < CallsPerHour limits)%Z →
  lsteps limits budget_zero tr s → StronglySorted Z.le (call_times tr) →
  (Z.of_nat (length (in_hour t (call_times tr))) ≤ CallsPerHour limits)%Z.
Proof. intros HL HK Hs Hsort. by apply (lsteps_calls limits tr s). Qed.

(** A reservation deferred by the call limit names the first instant at
    which one would fit: until then the calls of the last hour fill the limit,
    and at that instant they do not. *)
Theorem reserve_retryAt limits now id n s r :
  in_int64 (TotalTokens limits) →
  reserve limits now id n s = Err (BudgetDeferred (Some r)) →
  (0 < CallsPerHour limits)%Z ∧ (now < r)%Z ∧
  (Z.of_nat (length (live_calls r (live_calls now (Calls s)))) < CallsPerHour limits)%Z ∧
  ∀ t, (now ≤ t < r)%Z →
    (CallsPerHour limits ≤ Z.of_nat (length (live_calls t (live_calls now (Calls s)))))%Z.
Proof.
  intros HL. unfold reserve.
  destruct ((0 <? TotalTokens limits)%Z && Unknown s); [done|].
  destruct ((0 <? CallsPerHour limits)%Z && _) eqn:E2; [|by repeat case_match].
  apply andb_true_iff in E2 as [HK%Z.ltb_lt Hlen%Z.leb_le].
  set (live := live_calls now (Calls s)) in *. set (K := CallsPerHour limits) in *.
  intros [= <-].
  assert (Hsorted := SliceStable_sorted compare_times live). fold compare_times in Hsorted.
  assert (Hperm := SliceStable_perm compare_times live).
  set (sl := SliceStable compare_times live) in *.
  assert (Hl : length sl = length live) by (by rewrite Hperm).
  destruct (nth_middle_split sl (Z.to_nat (Z.of_nat (length live) - K)) time_zero)
    as (l1 & l2 & Heq & Hl2); [lia|].
  set (x := nth _ sl time_zero) in *. clearbody x.
  rewrite Heq in Hsorted.
  assert (Hcnt : ∀ u, length (live_calls u live) = length (filter (λ a, u - Hour < a)%Z (l1 ++ x :: l2 : list Z)))
    by (intros u; rewrite live_calls_filter; unfold Time in *; by rewrite <- Hperm, Heq).
  destruct (sorted_count l1 l2 x Hsorted) as [Hle Hge].
  assert (Hlt : (Z.of_nat (length l2) < K)%Z) by lia.
  assert (Hge2 : (K ≤ Z.of_nat (S (length l2)))%Z) by lia.
  split_and!; [done| | |].
  - assert (Hx : x ∈ live) by (rewrite <- Hperm, Heq; apply elem_of_app; right; left).
    unfold live in Hx. rewrite live_calls_filter in Hx.
    apply list_elem_of_filter in Hx as [Hx _]. unfold Add. lia.
  - rewrite Hcnt. unfold Add. replace (x + Hour - Hour)%Z with x by lia.
    eapply Z.le_lt_trans; [apply inj_le, Hle|exact Hlt].
  - intros t Ht. rewrite Hcnt. unfold Add in Ht.
    etrans; [exact Hge2|apply inj_le, Hge; lia].
Qed.

(** Once the usage of a request is unknown under a finite token limit, no
    reservation is admitted again, and the latch stays. *)
Theorem unknown_usage_latches limits s tr s' :
  (0 < TotalTokens limits)%Z → Unknown s = true → lsteps limits s tr s' →
  call_times tr = [] ∧ Unknown s' = true.
Proof.
  intros Hpos Hu. induction 1 as [s|s tr s1 e s2 Hs IH He]; [done|]. destruct (IH Hu) as [Ht Hu1].
  rewrite call_times_snoc, Ht.
  destruct He as [s1 id n now s2 _ _ _ Hr|s1 id n outcome at_ s2 over _ _ _ Hr]; simpl.
  - unfold reserve in Hr. apply Z.ltb_lt in Hpos. by rewrite Hpos, Hu1 in Hr.
  - split; [done|]. by eapply settle_unknown.
Qed.

(** One request: it is not sent unless its allowance was reserved and
    committed; when it is not sent the row is untouched; a settlement that fails
    leaves the row it found, so the reservation stays charged; any other outcome
    leaves no reservation of this request; the answer handed back is the base
    transport's own; and a 200 answer is handed back only when its usage was
    settled. *)
Theorem RoundTrip_outcomes limits hn id e others raw :
  let '(raw', r) := RoundTrip limits hn id e others raw in
  match reservation limits id e raw with
  | None => r = NotSent ∧ raw' = raw
  | Some raw1 =>
      (∃ n b, ex_allowance e = Some n ∧ raw1 = Some b ∧ Pending (sb_state b) !! id = Some n) ∧
      r ≠ NotSent ∧
      match r with
      | SettlementFailed => raw' = others raw1
      | _ => ∃ b, raw' = Some b ∧ Pending (sb_state b) !! id = None
      end ∧
      (∀ resp err, r = Passed resp err → resp = ex_resp e ∧ err = ex_dispatchErr e ∧
         (err = false → ∀ p, resp = Some p → StatusCode p = StatusOK →
          ∃ used, settlementUsage hn resp err = Used used))
  end.
Proof.
  unfold RoundTrip. destruct (reservation limits id e raw) as [raw1|] eqn:Er; [|done].
  assert (Hres : ∃ n b, ex_allowance e = Some n ∧ raw1 = Some b ∧ Pending (sb_state b) !! id = Some n).
  { unfold reservation in Er. destruct (ex_allowance e) as [n|]; [|done].
    destruct (update _ _) as [[raw2 []]|] eqn:Eu; [|done]. destruct (ex_commit e); [|done].
    simplify_eq. apply update_ok in Eu as (s & s' & _ & Hr & ->). eexists n, _.
    split_and!; [done|done|]. simpl.
    destruct (reserve limits (ex_now e) id n s) as [s2|] eqn:E2; simplify_eq/=.
    unfold reserve in E2. repeat case_match; simplify_eq/=. by rewrite lookup_insert_eq. }
  unfold settlement. destruct (update _ _) as [[raw2 over]|] eqn:Eu; [|by split_and!].
  destruct (ex_commit' e); simpl; [|by split_and!].
  apply update_ok in Eu as (s & s' & _ & Hs & ->). apply settle_pending in Hs.
  assert (Hgone : ∃ b, Some {| sb_state := s'; sb_pending_nil := false |} = Some b ∧
                       Pending (sb_state b) !! id = None)
    by (eexists; split; [done|]; simpl; by rewrite Hs, lookup_delete_eq).
  destruct over; [by split_and!|].
  destruct (settlementUsage hn (ex_resp e) (ex_dispatchErr e)) as [used|reason] eqn:Eo.
  - split_and!; try done. intros resp err [= <- <-]. split_and!; try done. eauto.
  - destruct (_ || _) eqn:Ec; [by split_and!|]. split_and!; try done.
    intros resp err [= <- <-]. split_and!; try done. intros He p Hp Hst. by rewrite He, Hp, Hst in Ec.
Qed.

(** What a response settles to: a transport failure, or a success or other
    undeclined status without a usable count, is unknown; a declined request
    never is; and a settled count is a 64-bit nonnegative number, zero only for a
    declined request. *)
Theorem settlementUsage_cases hn resp err :
  match settlementUsage hn resp err with
  | Used n => err = false ∧ (0 ≤ n ≤ int64_max)%Z ∧
      ∃ p, resp = Some p ∧
        ((body_tokens p = Ok n ∧ (0 < n)%Z) ∨
         (n = 0%Z ∧ declined p = true ∧ ∃ e, body_tokens p = Err e))
  | UnknownUsage _ => err = true ∨ resp = None ∨
      ∃ p e, resp = Some p ∧ declined p = false ∧ body_tokens p = Err e
  end.
Proof.
  unfold settlementUsage. destruct resp as [p|]; [|by right; left]. destruct err; [by left|].
  destruct (body_tokens p) as [n|e] eqn:E.
  - assert (0 < n ≤ int64_max)%Z.
    { unfold body_tokens, responseTokens in E. destruct (_ || _); [done|].
      destruct (body_usage p); [|done].
      by apply sum_counts_bounds in E; [|unfold int64_max; lia]. }
    split_and!; [done|lia|lia|]. exists p. split; [done|]. left. split; [done|lia].
  - destruct (declined p) eqn:Ed.
    + split_and!; [done|done|unfold int64_max; lia|]. exists p. split; [done|]. right. eauto.
    + destruct (negb _); [right; right; eauto|]. destruct e; right; right; eauto.
Qed.

(** ** Concrete inputs *)

Definition ex_limits : BudgetLimits := {| CallsPerHour := 1%Z; TotalTokens := 5000%Z |}.

Definition ex_reserved : budgetState :=
  {| Version := 1%Z; Calls := [10]%Z; Tokens := 2000%Z; Pending := {["r1" := 2000%Z]};
     Unknown := false; UnknownReason := ""; UnknownAt := "" |}.

Definition ex_settled : budgetState :=
  {| Version := 1%Z; Calls := [10]%Z; Tokens := 700%Z; Pending := ∅;
     Unknown := false; UnknownReason := ""; UnknownAt := "" |}.

Definition ex_history : list LedgerEvent :=
  [EvReserved "r1" 2000%Z 10%Z; EvSettled "r1" 2000%Z 700%Z].

Lemma ex_history_ok : lsteps ex_limits budget_zero ex_history ex_settled.
Proof.
  apply (lsteps_snoc _ _ [EvReserved "r1" 2000%Z 10%Z] ex_reserved).
  - apply (lsteps_snoc _ _ [] budget_zero); [constructor|].
    apply lstep_reserve; [done|done|done|]. vm_compute. reflexivity.
  - apply (lstep_settle _ ex_reserved "r1" 2000%Z (Used 700%Z) "" ex_settled false); [done|done| |].
    + intros used [= <-]. unfold int64_max. lia.
    + vm_compute. reflexivity.
Qed.

Lemma ex_limits_range : in_int64 (TotalTokens ex_limits).
Proof. unfold in_int64, int64_min, int64_max. simpl. lia. Qed.

Lemma ledger_conservation_witness :
  Tokens ex_settled = (zsum (charge <$> ex_history) + pending_sum (Pending ex_settled))%Z.
Proof. apply (ledger_conservation ex_limits ex_history ex_settled ex_limits_range ex_history_ok). Defined.

Lemma ledger_within_limit_witness : (700 ≤ 5000 + 0)%Z.
Proof. exact (ledger_within_limit ex_limits ex_history ex_settled ex_limits_range eq_refl ex_history_ok). Defined.

Lemma calls_per_hour_witness : (Z.of_nat (length (in_hour 20 (call_times ex_history))) ≤ 1)%Z.
Proof.
  refine (calls_per_hour ex_limits ex_history ex_settled 20%Z ex_limits_range eq_refl ex_history_ok _).
  by repeat constructor.
Defined.

Lemma reserve_retryAt_witness : (20 < 10 + Hour)%Z.
Proof.
  refine (proj1 (proj2 (reserve_retryAt ex_limits 20%Z "r2" 100%Z ex_settled (10 + Hour)%Z
    ex_limits_range _))).
  vm_compute. reflexivity.
Defined.

Definition ex_latched : budgetState := latchUnknown ex_reserved "no_usage" "".

Lemma unknown_usage_latches_witness : call_times [] = [].
Proof.
  exact (proj1 (unknown_usage_latches ex_limits ex_latched [] ex_latched eq_refl eq_refl (lsteps_nil _ _))).
Defined.
