(* ===== verification/InferenceLimiter.v ===== *)
(** * The inference limiter and the retry loop (internal/llm)

    [inference_limit.go]: one bounded capacity shared by Situation Assessments
    and semantic profiles.  Every critical section of the limiter's mutex is one
    step of [step]; a call of [Acquire] is named by a number, as the source names
    it by its waiter.  A call whose grant and cancellation race holds the slot
    until its own release, exactly as one that returned.

    [retry.go]: [CallWithRetry], over the results of the successive calls. *)

From stdpp Require Import prelude strings list gmap.
From S2P Require Import Prelude.

Module Limiter.

Inductive InferencePriority : Set := InferenceAssessment | InferenceProfile.

#[export] Instance InferencePriority_eq_dec : EqDecision InferencePriority.
Proof. solve_decision. Defined.

Record InferenceLimiter : Type := {
  capacity : Z;
  inUse : Z;
  profileHeld : bool;
  assessmentWaiters : list nat;
  profileWaiters : list nat
}.

Definition NewInferenceLimiter (cap : Z) : InferenceLimiter :=
  {| capacity := if (cap <? 1)%Z then 1%Z else cap; inUse := 0%Z; profileHeld := false;
     assessmentWaiters := []; profileWaiters := [] |}.

Definition is_profile (p : InferencePriority) : bool := bool_decide (p = InferenceProfile).

Definition tryGrantLocked (l : InferenceLimiter) (p : InferencePriority) : option InferenceLimiter :=
  if (capacity l <=? inUse l)%Z then None
  else if is_profile p && profileHeld l then None
  else Some {| capacity := capacity l; inUse := (inUse l + 1)%Z;
               profileHeld := if is_profile p then true else profileHeld l;
               assessmentWaiters := assessmentWaiters l; profileWaiters := profileWaiters l |}.

Definition enqueueLocked (l : InferenceLimiter) (p : InferencePriority) (w : nat)
    : InferenceLimiter :=
  match p with
  | InferenceAssessment =>
      {| capacity := capacity l; inUse := inUse l; profileHeld := profileHeld l;
         assessmentWaiters := assessmentWaiters l ++ [w]; profileWaiters := profileWaiters l |}
  | InferenceProfile =>
      {| capacity := capacity l; inUse := inUse l; profileHeld := profileHeld l;
         assessmentWaiters := assessmentWaiters l; profileWaiters := profileWaiters l ++ [w] |}
  end.

(** Remove the first occurrence; [None] when there is none. *)
Fixpoint remove_first (w : nat) (q : list nat) : option (list nat) :=
  match q with
  | [] => None
  | x :: q' => if decide (x = w) then Some q' else cons x <$> remove_first w q'
  end.

(** [Some l'] when the waiter was still queued. *)
Definition dequeueLocked (l : InferenceLimiter) (p : InferencePriority) (w : nat)
    : option InferenceLimiter :=
  match p with
  | InferenceAssessment =>
      (λ q, {| capacity := capacity l; inUse := inUse l; profileHeld := profileHeld l;
               assessmentWaiters := q; profileWaiters := profileWaiters l |})
      <$> remove_first w (assessmentWaiters l)
  | InferenceProfile =>
      (λ q, {| capacity := capacity l; inUse := inUse l; profileHeld := profileHeld l;
               assessmentWaiters := assessmentWaiters l; profileWaiters := q |})
      <$> remove_first w (profileWaiters l)
  end.

(** The limiter and the waiter whose grant channel was closed. *)
Definition wakeNextLocked (l : InferenceLimiter)
    : InferenceLimiter * option (nat * InferencePriority) :=
  if (capacity l <=? inUse l)%Z then (l, None)
  else match assessmentWaiters l with
       | w :: q =>
           ({| capacity := capacity l; inUse := (inUse l + 1)%Z; profileHeld := profileHeld l;
               assessmentWaiters := q; profileWaiters := profileWaiters l |},
            Some (w, InferenceAssessment))
       | [] =>
           match profileWaiters l with
           | w :: q =>
               if profileHeld l then (l, None)
               else ({| capacity := capacity l; inUse := (inUse l + 1)%Z; profileHeld := true;
                        assessmentWaiters := assessmentWaiters l; profileWaiters := q |},
                     Some (w, InferenceProfile))
           | [] => (l, None)
           end
       end.

(** The critical section of a release. *)
Definition releaseLocked (l : InferenceLimiter) (p : InferencePriority)
    : InferenceLimiter * option (nat * InferencePriority) :=
  wakeNextLocked
    {| capacity := capacity l; inUse := (inUse l - 1)%Z;
       profileHeld := if is_profile p then false else profileHeld l;
       assessmentWaiters := assessmentWaiters l; profileWaiters := profileWaiters l |}.

(** ** The system: the limiter and the slots held *)

Record sys : Type := { lim : InferenceLimiter; holders : gmap nat InferencePriority }.

Inductive action : Set :=
| AcquireA (w : nat) (p : InferencePriority)
| CancelA (w : nat) (p : InferencePriority)
| ReleaseA (w : nat).

Definition init (cap : Z) : sys := {| lim := NewInferenceLimiter cap; holders := ∅ |}.

(** Has this call been made already? *)
Definition known (s : sys) (w : nat) : bool :=
  bool_decide (is_Some (holders s !! w)) || bool_decide (w ∈ assessmentWaiters (lim s))
  || bool_decide (w ∈ profileWaiters (lim s)).

Definition step (s : sys) (a : action) : sys :=
  match a with
  | AcquireA w p =>
      if known s w then s
      else match tryGrantLocked (lim s) p with
           | Some l => {| lim := l; holders := <[w := p]> (holders s) |}
           | None => {| lim := enqueueLocked (lim s) p w; holders := holders s |}
           end
  | CancelA w p =>
      match dequeueLocked (lim s) p w with
      | Some l => {| lim := l; holders := holders s |}
      | None => s
      end
  | ReleaseA w =>
      match holders s !! w with
      | None => s
      | Some p =>
          let '(l, granted) := releaseLocked (lim s) p in
          let h := delete w (holders s) in
          {| lim := l;
             holders := match granted with Some (w', p') => <[w' := p']> h | None => h end |}
      end
  end.

Definition run (s : sys) (acts : list action) : sys := foldl step s acts.

(** A release that frees a slot. *)
Definition effective (s : sys) (a : action) : bool :=
  match a with ReleaseA w => bool_decide (is_Some (holders s !! w)) | _ => false end.

Fixpoint releases (s : sys) (acts : list action) : nat :=
  match acts with
  | [] => 0
  | a :: acts' =>
      let n := releases (step s a) acts' in if effective s a then S n else n
  end.

(** ** Invariant *)

Record inv (s : sys) : Prop := {
  inv_cap : (1 ≤ capacity (lim s))%Z;
  inv_count : inUse (lim s) = Z.of_nat (size (holders s));
  inv_bound : (inUse (lim s) ≤ capacity (lim s))%Z;
  inv_profile : profileHeld (lim s) = true ↔ ∃ w, holders s !! w = Some InferenceProfile;
  inv_one : ∀ w w', holders s !! w = Some InferenceProfile → holders s !! w' = Some InferenceProfile → w = w';
  inv_assess : assessmentWaiters (lim s) ≠ [] → inUse (lim s) = capacity (lim s);
  inv_prof : profileWaiters (lim s) ≠ [] → inUse (lim s) = capacity (lim s) ∨ profileHeld (lim s) = true;
  inv_nodup : NoDup (assessmentWaiters (lim s) ++ profileWaiters (lim s));
  inv_fresh : ∀ w, w ∈ assessmentWaiters (lim s) ++ profileWaiters (lim s) → holders s !! w = None
}.

Lemma inv_init cap : inv (init cap).
Proof.
  unfold init, NewInferenceLimiter. split; simpl; try done.
  - case_match; go_bool; lia.
  - case_match; go_bool; lia.
  - split; [done|]. intros [w Hw]. by rewrite lookup_empty in Hw.
  - constructor.
Qed.

Lemma known_false s w :
  known s w = false →
  (holders s !! w = None) ∧ (w ∉ assessmentWaiters (lim s)) ∧ (w ∉ profileWaiters (lim s)).
Proof.
  unfold known. rewrite !orb_false_iff. intros [[H1 H2] H3].
  apply bool_decide_eq_false_1 in H1, H2, H3. split_and!; [|done|done].
  destruct (holders s !! w) eqn:E; [|done]. by destruct H1.
Qed.

Lemma remove_first_spec w q q' :
  remove_first w q = Some q' → ∃ q1 q2, q = q1 ++ w :: q2 ∧ q' = q1 ++ q2.
Proof.
  revert q'. induction q as [|x q IH]; simpl; intros q'; [done|].
  case_decide as Hx.
  - intros [= <-]. subst. by exists [], q.
  - intros (q0 & Hq0 & ->)%fmap_Some. destruct (IH _ Hq0) as (q1 & q2 & -> & ->).
    by exists (x :: q1), q2.
Qed.

Lemma inv_acquire s w p : inv s → inv (step s (AcquireA w p)).
Proof.
  intros I. simpl. destruct (known s w) eqn:Ek; [done|].
  apply known_false in Ek as (Hh & Ha & Hp). unfold tryGrantLocked.
  destruct I as [I1 I2 I3 I4 I5 I6 I7 I8 I9].
  destruct (capacity (lim s) <=? inUse (lim s))%Z eqn:Ec; go_bool.
  { destruct p; split; simpl; try done; try lia; try tauto.
    - rewrite <- app_assoc, (Permutation_app_comm [w]), app_assoc. apply NoDup_app.
      split_and!; [done| |by apply NoDup_singleton].
      intros x Hx ->%list_elem_of_singleton. by apply elem_of_app in Hx as [].
    - intros x. rewrite !elem_of_app, list_elem_of_singleton.
      intros [[Hx| ->]|Hx]; [apply I9|done|apply I9]; apply elem_of_app; tauto.
    - rewrite app_assoc. apply NoDup_app. split_and!; [done| |by apply NoDup_singleton].
      intros x Hx ->%list_elem_of_singleton. by apply elem_of_app in Hx as [].
    - intros x. rewrite !elem_of_app, list_elem_of_singleton.
      intros [Hx|[Hx| ->]]; [apply I9|apply I9|done]; apply elem_of_app; tauto. }
  destruct (is_profile p && profileHeld (lim s)) eqn:Ep.
  { apply andb_true_iff in Ep as [->%bool_decide_eq_true_1 Hph]. split; simpl; try done; try tauto.
    - rewrite app_assoc. apply NoDup_app. split_and!; [done| |by apply NoDup_singleton].
      intros x Hx ->%list_elem_of_singleton. by apply elem_of_app in Hx as [].
    - intros x. rewrite !elem_of_app, list_elem_of_singleton.
      intros [Hx|[Hx| ->]]; [apply I9|apply I9|done]; apply elem_of_app; tauto. }
  assert (Hno : p = InferenceProfile → profileHeld (lim s) = false).
  { intros ->. by simpl in Ep. }
  split; simpl; try done.
  - rewrite map_size_insert_None by done. lia.
  - lia.
  - destruct p; simpl.
    + rewrite I4. split; intros [x Hx].
      * exists x. rewrite lookup_insert_ne; [done|]. intros ->. congruence.
      * exists x. destruct (decide (x = w)) as [->|]; [by rewrite lookup_insert_eq in Hx|].
        by rewrite lookup_insert_ne in Hx.
    + split; [|done]. intros _. exists w. by rewrite lookup_insert_eq.
  - intros x y. destruct (decide (x = w)) as [->|Hx], (decide (y = w)) as [->|Hy];
      rewrite ?lookup_insert_eq, ?lookup_insert_ne by done; try done; [| |by apply I5].
    + intros [= ->] H. specialize (Hno eq_refl). rewrite (proj2 I4 (ex_intro _ y H)) in Hno. done.
    + intros H [= ->]. specialize (Hno eq_refl). rewrite (proj2 I4 (ex_intro _ x H)) in Hno. done.
  - intros H. specialize (I6 H). lia.
  - intros H. destruct (I7 H) as [|Hph]; [lia|]. right. by destruct (is_profile p).
  - intros x Hx. rewrite lookup_insert_ne; [by apply I9|]. intros <-.
    by apply elem_of_app in Hx as [].
Qed.

Lemma inv_cancel s w p : inv s → inv (step s (CancelA w p)).
Proof.
  intros I. simpl. unfold dequeueLocked.
  destruct p; (destruct (remove_first w _) as [q|] eqn:Eq; [|done]);
    apply remove_first_spec in Eq as (q1 & q2 & Hq & ->);
    destruct I as [I1 I2 I3 I4 I5 I6 I7 I8 I9]; rewrite Hq in *;
    split; simpl; try done.
  - intros _. apply I6. by destruct q1.
  - rewrite <- app_assoc in *. apply NoDup_app in I8 as (H1 & H2 & H3). simpl in *.
    apply NoDup_cons in H3 as [_ H3]. apply NoDup_app. split_and!; [done| |done].
    intros x Hx Hx'. apply (H2 x Hx). by right.
  - intros x Hx. apply I9. rewrite !elem_of_app, elem_of_cons in *. tauto.
  - intros _. apply I7. by destruct q1.
  - rewrite app_assoc in *. apply NoDup_app in I8 as (H1 & H2 & H3). 
    apply NoDup_cons in H3 as [_ H3]. apply NoDup_app. split_and!; [done| |done].
    intros x Hx Hx'. apply (H2 x Hx). by right.
  - intros x Hx. apply I9. rewrite !elem_of_app, elem_of_cons in *. tauto.
Qed.

(** The profile flag after a release, before anyone is woken. *)
Lemma release_flag s w p :
  inv s → holders s !! w = Some p →
  (if is_profile p then false else profileHeld (lim s)) = true ↔
  ∃ x, delete w (holders s) !! x = Some InferenceProfile.
Proof.
  intros I Hw. destruct p; simpl.
  - rewrite (inv_profile s I). split; intros [x Hx]; exists x.
    + rewrite lookup_delete_ne; [done|]. intros ->. congruence.
    + by apply lookup_delete_Some in Hx as [_ Hx].
  - split; [done|]. intros [x [Hne Hx]%lookup_delete_Some]. by destruct Hne, (inv_one s I w x).
Qed.

Lemma inv_release s w : inv s → inv (step s (ReleaseA w)).
Proof.
  intros I. simpl. destruct (holders s !! w) as [p|] eqn:Hw; [|done].
  pose proof (release_flag s w p I Hw) as Hflag.
  destruct I as [I1 I2 I3 I4 I5 I6 I7 I8 I9].
  assert (Hsize : Z.of_nat (size (delete w (holders s))) = (inUse (lim s) - 1)%Z).
  { rewrite map_size_delete_Some by (by eexists). 
    assert (size (holders s) ≠ 0) by (apply map_size_non_empty_iff; intros He; by rewrite He in Hw). lia. }
  unfold releaseLocked, wakeNextLocked. simpl.
  set (ph := if is_profile p then false else profileHeld (lim s)) in *.
  set (h := delete w (holders s)) in *.
  assert (Hone : ∀ x y, h !! x = Some InferenceProfile → h !! y = Some InferenceProfile → x = y).
  { intros x y [_ Hx]%lookup_delete_Some [_ Hy]%lookup_delete_Some. by apply I5. }
  assert (Hfresh : ∀ x, x ∈ assessmentWaiters (lim s) ++ profileWaiters (lim s) → h !! x = None).
  { intros x Hx. apply lookup_delete_None. right. by apply I9. }
  destruct (capacity (lim s) <=? inUse (lim s) - 1)%Z eqn:Ec; go_bool; [lia|].
  destruct (assessmentWaiters (lim s)) as [|a qa] eqn:Ea.
  - destruct (profileWaiters (lim s)) as [|b qb] eqn:Eb; [|destruct ph eqn:Eph].
    + split; simpl; rewrite ?Ea, ?Eb; try done; lia.
    + split; simpl; rewrite ?Ea, ?Eb; try done; try lia.
    + apply NoDup_cons in I8 as [Hb I8].
      assert (Hbh : h !! b = None) by (apply Hfresh; left).
      assert (Hnone : ∀ x, h !! x ≠ Some InferenceProfile).
      { intros x Hx. destruct Hflag as [_ Hf]. by specialize (Hf (ex_intro _ x Hx)). }
      split; simpl; rewrite ?Ea; try done.
      * rewrite map_size_insert_None by done. lia.
      * lia.
      * split; [|done]. intros _. exists b. by rewrite lookup_insert_eq.
      * intros x y. destruct (decide (x = b)) as [->|], (decide (y = b)) as [->|];
          rewrite ?lookup_insert_eq, ?lookup_insert_ne by done; try done; intros H1 H2.
        -- by apply Hnone in H2.
        -- by apply Hnone in H1.
        -- by apply Hone.
      * intros _. by right.
      * intros x Hx. rewrite lookup_insert_ne by (intros <-; done). apply Hfresh. by right.
  - simpl in I8. apply NoDup_cons in I8 as [Ha I8].
    assert (Hah : h !! a = None) by (apply Hfresh; left).
    assert (Hfull : inUse (lim s) = capacity (lim s)) by (by apply I6).
    split; simpl; try done.
    + rewrite map_size_insert_None by done. lia.
    + lia.
    + rewrite Hflag. split; intros [x Hx]; exists x.
      * rewrite lookup_insert_ne; [done|]. intros <-. congruence.
      * destruct (decide (x = a)) as [->|]; [by rewrite lookup_insert_eq in Hx|].
        by rewrite lookup_insert_ne in Hx.
    + intros x y. destruct (decide (x = a)) as [->|], (decide (y = a)) as [->|];
        rewrite ?lookup_insert_eq, ?lookup_insert_ne by done; try done. apply Hone.
    + intros _. lia.
    + intros _. left. lia.
    + intros x Hx. rewrite lookup_insert_ne by (intros <-; done). apply Hfresh. by right.
Qed.

Lemma inv_step s a : inv s → inv (step s a).
Proof. destruct a; [apply inv_acquire|apply inv_cancel|apply inv_release]. Qed.

Lemma inv_run s acts : inv s → inv (run s acts).
Proof.
  unfold run. revert s. induction acts as [|a acts IH]; intros s I; simpl; [done|].
  by apply IH, inv_step.
Qed.

Lemma run_capacity cap acts : capacity (lim (run (init cap) acts)) = Z.max 1 cap.
Proof.
  assert (H : ∀ acts s, capacity (lim (run s acts)) = capacity (lim s)).
  { clear. induction acts as [|a acts IH]; intros s; [done|]. simpl. unfold run in *. rewrite IH.
    destruct a as [w p|w p|w]; simpl.
    - destruct (known s w); [done|]. unfold tryGrantLocked. destruct (_ <=? _)%Z; [by destruct p|].
      destruct (_ && _); [by destruct p|done].
    - unfold dequeueLocked. by destruct p, (remove_first w _).
    - destruct (holders s !! w); [|done]. unfold releaseLocked, wakeNextLocked. simpl.
      repeat case_match; by simplify_eq/=. }
  rewrite H. simpl. case_match; go_bool; lia.
Qed.

(** *** Position in the queue *)

(** One step moves a queued Assessment forward, or grants it. *)
Lemma step_position s a w q1 q2 :
  inv s → assessmentWaiters (lim s) = q1 ++ w :: q2 → a ≠ CancelA w InferenceAssessment →
  (effective s a = true ∧ q1 = [] ∧ is_Some (holders (step s a) !! w)) ∨
  ∃ q1' q2', assessmentWaiters (lim (step s a)) = q1' ++ w :: q2' ∧
             length q1' + (if effective s a then 1 else 0) ≤ length q1.
Proof.
  intros I Hq Ha. destruct a as [x p|x p|x]; simpl.
  - right. destruct (known s x); [exists q1, q2; split; [done|lia]|].
    unfold tryGrantLocked. destruct (_ <=? _)%Z.
    + destruct p; simpl; [exists q1, (q2 ++ [x])|exists q1, q2]; (split; [|lia]); [|done].
      by rewrite Hq, <- app_assoc.
    + destruct (_ && _); simpl; [|exists q1, q2; split; [done|lia]].
      destruct p; simpl; [exists q1, (q2 ++ [x])|exists q1, q2]; (split; [|lia]); [|done].
      by rewrite Hq, <- app_assoc.
  - right. unfold dequeueLocked. destruct p; simpl.
    + destruct (remove_first x (assessmentWaiters (lim s))) as [q|] eqn:Er; simpl;
        [|exists q1, q2; split; [done|lia]].
      apply remove_first_spec in Er as (r1 & r2 & Hr & ->).
      assert (Hxw : x ≠ w) by congruence.
      rewrite Hq in Hr. apply app_eq_inv in Hr as [(k & -> & Hk)|(k & -> & Hk)].
      * destruct k as [|y k]; simplify_eq/=.
        exists (r1 ++ k), q2. split; [by rewrite <- app_assoc|rewrite !length_app; simpl; lia].
      * destruct k as [|y k]; simplify_eq/=.
        exists q1, (k ++ r2). split; [by rewrite <- app_assoc|lia].
    + destruct (remove_first x (profileWaiters (lim s))); simpl; exists q1, q2; (split; [done|lia]).
  - destruct (holders s !! x) as [p|] eqn:Hx.
    + rewrite bool_decide_eq_true_2 by (by eexists).
      unfold releaseLocked, wakeNextLocked. simpl.
      assert (Hfull : inUse (lim s) = capacity (lim s))
        by (apply (inv_assess s I); rewrite Hq; by destruct q1).
      destruct (_ <=? _)%Z eqn:Ec; go_bool; [lia|]. rewrite Hq.
      destruct q1 as [|y q1]; simpl.
      * left. split_and!; [done|done|]. by rewrite lookup_insert_eq.
      * right. exists q1, q2. split; [done|lia].
    + right. rewrite bool_decide_eq_false_2 by (by intros []). exists q1, q2. split; [done|lia].
Qed.

(** ** Theorems *)

(** In every reachable state the slots held are what the counter says and no
    more than the capacity, at most one is a profile's, and nobody waits for a
    slot it could have: an Assessment waits only while every slot is held, and a
    profile only while every slot or the profile slot is. *)
Theorem limiter_safe cap acts :
  let s := run (init cap) acts in
  inUse (lim s) = Z.of_nat (size (holders s)) ∧
  (inUse (lim s) ≤ Z.max 1 cap)%Z ∧
  (∀ w w', holders s !! w = Some InferenceProfile → holders s !! w' = Some InferenceProfile → w = w') ∧
  (assessmentWaiters (lim s) ≠ [] → inUse (lim s) = Z.max 1 cap) ∧
  (profileWaiters (lim s) ≠ [] →
   inUse (lim s) = Z.max 1 cap ∨ ∃ w, holders s !! w = Some InferenceProfile).
Proof.
  intros s. pose proof (inv_run _ acts (inv_init cap)) as I. fold s in I.
  assert (Hcap : capacity (lim s) = Z.max 1 cap) by apply run_capacity.
  destruct I. rewrite <- Hcap. split_and!; try done. rewrite <- inv_profile0. exact inv_prof0.
Qed.

(** A queued Assessment is granted as soon as as many slots have been freed
    as there are Assessments in front of it, itself included, whatever else
    arrives or gives up meanwhile: no wakeup is lost. *)
Theorem assessment_granted cap acts acts' w q1 q2 :
  let s := run (init cap) acts in
  assessmentWaiters (lim s) = q1 ++ w :: q2 →
  CancelA w InferenceAssessment ∉ acts' →
  length q1 < releases s acts' →
  ∃ pre post, acts' = pre ++ post ∧ holders (run s pre) !! w ≠ None.
Proof.
  intros s. assert (I : inv s) by apply inv_run, inv_init. clearbody s.
  revert s q1 q2 I. induction acts' as [|a acts' IH]; intros s q1 q2 I Hq Hc Hlt; simpl in Hlt; [lia|].
  apply not_elem_of_cons in Hc as [Hca Hc].
  destruct (step_position s a w q1 q2 I Hq ltac:(done)) as [(_ & _ & [p Hp])|(q1' & q2' & Hq' & Hle)].
  - exists [a], acts'. split; [done|]. simpl. by rewrite Hp.
  - destruct (IH (step s a) q1' q2') as (pre & post & -> & Hh); try done.
    + by apply inv_step.
    + destruct (effective s a); lia.
    + by exists (a :: pre), post.
Qed.

(** A freed slot goes to the Assessment that has waited longest, before any
    profile. *)
Theorem release_prefers_assessment cap acts x p w q :
  let s := run (init cap) acts in
  holders s !! x = Some p → assessmentWaiters (lim s) = w :: q →
  holders (step s (ReleaseA x)) = <[w := InferenceAssessment]> (delete x (holders s)) ∧
  assessmentWaiters (lim (step s (ReleaseA x))) = q ∧
  profileWaiters (lim (step s (ReleaseA x))) = profileWaiters (lim s).
Proof.
  intros s Hx Hq. assert (I : inv s) by apply inv_run, inv_init.
  simpl. rewrite Hx. unfold releaseLocked, wakeNextLocked. simpl. rewrite Hq.
  assert (inUse (lim s) = capacity (lim s)) by (apply (inv_assess s I); by rewrite Hq).
  by destruct (_ <=? _)%Z eqn:Ec; go_bool; [lia|].
Qed.

Lemma assessment_granted_witness :
  ∃ pre post, [ReleaseA 1; AcquireA 4 InferenceProfile; ReleaseA 2] = pre ++ post ∧
  holders (run (run (init 1) [AcquireA 1 InferenceProfile; AcquireA 2 InferenceAssessment;
                              AcquireA 3 InferenceAssessment]) pre) !! 3 ≠ None.
Proof.
  apply (assessment_granted 1 [AcquireA 1 InferenceProfile; AcquireA 2 InferenceAssessment;
    AcquireA 3 InferenceAssessment] _ 3 [2] []); [reflexivity| |vm_compute; lia].
  rewrite !not_elem_of_cons. split_and!; try done. apply not_elem_of_nil.
Defined.

Lemma release_prefers_assessment_witness :
  profileWaiters (lim (step (run (init 1) [AcquireA 1 InferenceProfile; AcquireA 2 InferenceProfile;
    AcquireA 3 InferenceAssessment]) (ReleaseA 1))) = [2].
Proof.
  refine (proj2 (proj2 (release_prefers_assessment 1 [AcquireA 1 InferenceProfile;
    AcquireA 2 InferenceProfile; AcquireA 3 InferenceAssessment] 1 InferenceProfile 3 [] _ _)));
    reflexivity.
Defined.
End Limiter.

Module Retry.

(** What one call of [do] returns, the status of a [RetryableError] apart. *)
Inductive CallResult {U : Type} : Type :=
| Success (u : U)
| Retryable (status : Z)
| OtherError (e : string).
Arguments CallResult : clear implicits.

(** The outcome: a result, the error of the last call, the context's error, or
    no call at all, which the source reports as a nil result with a nil error. *)
Inductive RetryOutcome {U : Type} : Type :=
| Returned (u : U)
| Failed (r : CallResult U)
| Canceled
| NoCall.
Arguments RetryOutcome : clear implicits.

Section retry.
Context {U : Type} (maxRetries : Z) (do_ : nat → CallResult U) (canceled : nat → bool).

(** [canceled n]: the context ends the wait before attempt [n].  [fuel] is the
    number of attempts left, and every turn of the loop spends one; the second
    component lists the waits. *)
Fixpoint retry_loop (fuel : nat) (attempt : nat) (delay : Duration)
    (last : RetryOutcome U) (waits : list Duration) : RetryOutcome U * list Duration * nat :=
  match fuel with
  | O => (last, waits, attempt)
  | S fuel' =>
      if (0 <? attempt)%nat && canceled attempt then (Canceled, waits ++ [delay], attempt)
      else
        let '(delay, waits) :=
          if (0 <? attempt)%nat then (dur_mul delay 2, waits ++ [delay]) else (delay, waits) in
        match do_ attempt with
        | Success u => (Returned u, waits, S attempt)
        | Retryable st =>
            if (Z.of_nat attempt <? maxRetries)%Z
            then retry_loop fuel' (S attempt) delay (Failed (Retryable st)) waits
            else (Failed (Retryable st), waits, S attempt)
        | OtherError e => (Failed (OtherError e), waits, S attempt)
        end
  end.

(** The outcome, the waits and the number of calls made. *)
Definition CallWithRetry (baseDelay : Duration) : RetryOutcome U * list Duration * nat :=
  retry_loop (Z.to_nat (maxRetries + 1)) 0 baseDelay NoCall [].

Definition backoff (baseDelay : Duration) (k : nat) : Duration :=
  Nat.iter k (λ d, dur_mul d 2) baseDelay.

Definition retryable (n : nat) : Prop := ∃ st, do_ n = Retryable st.

(** What a run that made [n] calls with these waits may return. *)
Definition retry_spec (baseDelay : Duration) (r : RetryOutcome U * list Duration * nat) : Prop :=
  let '(o, waits, n) := r in
  (Z.of_nat n ≤ maxRetries + 1)%Z ∧ 0 < n ∧ (∀ i, i < n - 1 → retryable i) ∧
  match o with
  | Returned u => do_ (n - 1) = Success u ∧ waits = backoff baseDelay <$> seq 0 (n - 1)
  | Failed e => do_ (n - 1) = e ∧ waits = backoff baseDelay <$> seq 0 (n - 1) ∧
      (retryable (n - 1) → Z.of_nat n = (maxRetries + 1)%Z) ∧ (∀ u, e ≠ Success u)
  | Canceled => retryable (n - 1) ∧ canceled n = true ∧ waits = backoff baseDelay <$> seq 0 n
  | NoCall => False
  end.

Lemma retry_loop_spec baseDelay fuel : ∀ attempt delay last waits,
  Z.of_nat fuel = (maxRetries + 1 - Z.of_nat attempt)%Z → 0 < fuel →
  (∀ i, i < attempt → retryable i) →
  delay = backoff baseDelay (attempt - 1) → waits = backoff baseDelay <$> seq 0 (attempt - 1) →
  retry_spec baseDelay (retry_loop fuel attempt delay last waits).
Proof.
  induction fuel as [|fuel IH]; intros attempt delay last waits Hf Hpos Hr Hd Hw; [lia|].
  simpl. destruct ((0 <? attempt) && canceled attempt) eqn:Ec.
  { apply andb_true_iff in Ec as [Ha%Nat.ltb_lt Hc]. unfold retry_spec.
    split_and!; [lia|lia| |by apply Hr; lia|done|].
    - intros i Hi. apply Hr. lia.
    - rewrite Hw, Hd. destruct attempt as [|a]; [lia|].
      replace (S a - 1) with a by lia. by rewrite seq_S, fmap_app. }
  destruct (if 0 <? attempt then _ else _) as [delay' waits'] eqn:Ew.
  assert (Hd' : delay' = backoff baseDelay attempt ∧ waits' = backoff baseDelay <$> seq 0 attempt).
  { destruct attempt as [|a]; cbn [Nat.ltb Nat.leb] in Ew; simplify_eq; [done|].
    replace (S a - 1) with a by lia. split; [done|]. by rewrite seq_S, fmap_app. }
  destruct Hd' as [-> ->]. clear Ew.
  destruct (do_ attempt) as [u|st|e] eqn:Ed.
  - unfold retry_spec. simpl. rewrite Nat.sub_0_r. split_and!; [lia|lia|done|done|done].
  - destruct (Z.of_nat attempt <? maxRetries)%Z eqn:El; go_bool.
    + apply IH; simpl; rewrite ?Nat.sub_0_r; try done; try lia.
      intros i Hi. destruct (decide (i = attempt)) as [->|]; [by exists st|]. apply Hr. lia.
    + unfold retry_spec. simpl. rewrite Nat.sub_0_r. split_and!; try done; try lia.
  - unfold retry_spec. simpl. rewrite Nat.sub_0_r. split_and!; try done; try lia.
    intros [st Hst]. congruence.
Qed.

(** With a nonnegative retry count the loop makes at least one and at most
    [maxRetries + 1] calls, every call but the last ended in a retryable error,
    the waits between them double from the base delay, and what is returned is
    the last call's own result: its success, an error that is not retried, the
    last retryable error once the retries are spent, or the context's error
    during a wait. *)
Theorem CallWithRetry_spec baseDelay :
  (0 ≤ maxRetries)%Z → retry_spec baseDelay (CallWithRetry baseDelay).
Proof.
  intros H. unfold CallWithRetry. apply retry_loop_spec; try done; try lia.
Qed.
End retry.

Lemma CallWithRetry_spec_witness :
  retry_spec 3 (λ n, if decide (n = 2) then Success "ok" else Retryable 503) (λ _, false) Second
    (Returned "ok", [Second; 2 * Second]%Z, 3).
Proof.
  exact (CallWithRetry_spec 3 (λ n, if decide (n = 2) then Success "ok" else Retryable 503)
    (λ _, false) Second ltac:(lia)).
Defined.
End Retry.
