(* ===== verification/LLMHealth.v ===== *)
(** * LLM dependency health (internal/llmhealth)

    [reason.go]: the classification of a call's error.  [tracker.go]: the
    capability records, the rolled-up state and its episodes.  [slack.go]: the
    one Slack system message of an episode, planned under the lock, sent
    unlocked, applied under the lock.

    The durable record ([store.LLMHealthRecord]) is split in three parts; what
    the database holds is the component [durable] of the tracker, written by
    [persist] when the write succeeds.  Log lines and audit rows are left out.
    The generation counters are unbounded integers: they count episodes. *)

From stdpp Require Import prelude strings list gmap pretty.
From S2P Require Import Prelude.

(** ** Classification *)

Definition Capability : Type := string.
Definition CapabilityTriageDraft : Capability := "triage_draft".
Definition CapabilityVerificationRejudge : Capability := "verification_rejudge".
Definition CapabilityMemoryClassifier : Capability := "memory_classifier".
Definition CapabilityQueryRepair : Capability := "query_repair".
Definition CapabilityProbe : Capability := "probe".
Definition CapabilityAssessment : Capability := "assessment".
Definition CapabilitySemanticProfile : Capability := "semantic_profile".

Definition Reason : Type := string.
Definition ReasonOK : Reason := "ok".
Definition ReasonCanceled : Reason := "canceled".
Definition ReasonBudgetDeferred : Reason := "budget_deferred".
Definition ReasonTimeout : Reason := "timeout".
Definition ReasonNetwork : Reason := "network".
Definition ReasonRateLimited : Reason := "rate_limited".
Definition ReasonProviderUnavailable : Reason := "provider_unavailable".
Definition ReasonAuthFailed : Reason := "auth_failed".
Definition ReasonRequestInvalid : Reason := "request_invalid".
Definition ReasonSchemaViolation : Reason := "schema_violation".
Definition ReasonResponseMalformed : Reason := "response_malformed".
Definition ReasonUnknown : Reason := "unknown".

Inductive Class : Set := ClassOK | ClassIgnored | ClassDependency | ClassContent.

#[export] Instance Class_eq_dec : EqDecision Class.
Proof. solve_decision. Defined.

(** What [errors.Is] and [errors.As] find in the chain of a call's error. *)
Record CallError : Type := {
  budget_exhausted : bool;
  ctx_canceled : bool;
  ctx_deadline : bool;
  net_error : option bool;           (* a [net.Error], and whether it timed out *)
  retryable_status : option Z;
  api_status : option Z;
  response_malformed : bool;
  schema_violation : bool;           (* any of the three decode sentinels *)
  url_error : bool
}.

Definition Classify (err : option CallError) : Reason :=
  match err with
  | None => ReasonOK
  | Some e =>
      if budget_exhausted e then ReasonBudgetDeferred
      else if ctx_canceled e then ReasonCanceled
      else if ctx_deadline e then ReasonTimeout
      else if default false (net_error e) then ReasonTimeout
      else match retryable_status e with
      | Some st => if (st =? 429)%Z then ReasonRateLimited else ReasonProviderUnavailable
      | None =>
      match api_status e with
      | Some st =>
          if (st =? 401)%Z || (st =? 403)%Z then ReasonAuthFailed
          else if (st =? 429)%Z then ReasonRateLimited
          else if (500 <=? st)%Z then ReasonProviderUnavailable
          else ReasonRequestInvalid
      | None =>
          if response_malformed e then ReasonResponseMalformed
          else if schema_violation e then ReasonSchemaViolation
          else if url_error e || match net_error e with Some _ => true | None => false end
          then ReasonNetwork else ReasonUnknown
      end end
  end.

Definition class_of (r : Reason) : Class :=
  if str_eqb r ReasonOK then ClassOK
  else if str_eqb r ReasonCanceled || str_eqb r ReasonBudgetDeferred then ClassIgnored
  else if str_eqb r ReasonRequestInvalid || str_eqb r ReasonSchemaViolation
          || str_eqb r ReasonResponseMalformed then ClassContent
  else ClassDependency.

Definition SafeDetail (err : option CallError) : string :=
  let r := Classify err in
  if str_eqb r ReasonOK then ""
  else if str_eqb r ReasonCanceled then "canceled"
  else if str_eqb r ReasonBudgetDeferred then "automatic analysis budget cannot admit this request"
  else if str_eqb r ReasonTimeout then "request timed out"
  else if str_eqb r ReasonNetwork then "network error"
  else if str_eqb r ReasonSchemaViolation then "schema violation"
  else if str_eqb r ReasonResponseMalformed then "typed response malformed"
  else match err with
       | None => "unclassified error"
       | Some e =>
           match retryable_status e, api_status e with
           | Some st, _ => "HTTP " +:+ pretty st
           | None, Some st => "HTTP " +:+ pretty st
           | None, None => "unclassified error"
           end
       end.

(** ** State *)

Inductive State : Set := StateHealthy | StateDegraded | StateUnavailable.

Inductive Delivery : Set :=
| DeliveryNone | DeliveryPending | DeliveryDelivered | DeliveryRecoveryPending
| DeliveryRecovered | DeliverySuppressed | DeliveryIndeterminate.

#[export] Instance State_eq_dec : EqDecision State.
Proof. solve_decision. Defined.
#[export] Instance Delivery_eq_dec : EqDecision Delivery.
Proof. solve_decision. Defined.

Record LateRoot : Type := { lr_Channel : string; lr_TS : string; lr_DownForMS : Z }.

#[export] Instance LateRoot_eq_dec : EqDecision LateRoot.
Proof. solve_decision. Defined.

(** The rolled-up state and its episode. *)
Record AggPart : Type := {
  a_State : State;
  a_ReasonCode : string;
  a_Detail : string;
  a_UnhealthySince : option Time;
  a_OutageGeneration : Z;
  a_RecoveredAt : option Time
}.

(** The Slack root of the episode ([s_State]: [None] for the empty string). *)
Record SlackPart : Type := {
  s_TS : string;
  s_Channel : string;
  s_Delivery : Delivery;
  s_State : option State;
  s_Generation : Z;
  s_LateRoots : list LateRoot
}.

Record CallPart : Type := {
  LastRealSuccessAt : option Time;
  LastRealCallAt : option Time;
  LastProbeAt : option Time;
  LastProbeOutcome : string
}.

Record LLMHealthRecord : Type := { agg : AggPart; slack : SlackPart; calls : CallPart }.

Record LLMCapabilityRecord : Type := {
  Healthy : bool;
  ReasonCode : string;
  Detail : string;
  LastSuccessAt : option Time;
  LastFailureAt : option Time;
  UnhealthySince : option Time;
  ContentSubjects : list string
}.

Record outstandingPost : Type := { closed : bool; downFor : Duration }.

Record Tracker : Type := {
  rec : LLMHealthRecord;
  caps : gmap Capability LLMCapabilityRecord;
  inFlight : Z;
  idleSince : Time;
  sealed : bool;
  probeUnsupported : bool;
  activityGen : Z;
  probeReservedGen : Z;
  outstandingPosts : gmap Z outstandingPost;
  kick : bool;
  broadcastAfter : Duration;
  idleAfter : Duration;
  durable : LLMHealthRecord * gmap Capability LLMCapabilityRecord
}.

Definition minProbeInterval : Duration := Minute.
Definition maxContentSubjects : nat := 8.
Definition unsupportedRecheck : Duration := Hour.

(** Updates of one field. *)
Definition set_rec (t : Tracker) (r : LLMHealthRecord) : Tracker :=
  {| rec := r; caps := caps t; inFlight := inFlight t; idleSince := idleSince t; sealed := sealed t;
     probeUnsupported := probeUnsupported t; activityGen := activityGen t;
     probeReservedGen := probeReservedGen t; outstandingPosts := outstandingPosts t; kick := kick t;
     broadcastAfter := broadcastAfter t; idleAfter := idleAfter t; durable := durable t |}.
Definition set_agg (t : Tracker) (a : AggPart) : Tracker :=
  set_rec t {| agg := a; slack := slack (rec t); calls := calls (rec t) |}.
Definition set_slack (t : Tracker) (s : SlackPart) : Tracker :=
  set_rec t {| agg := agg (rec t); slack := s; calls := calls (rec t) |}.
Definition set_calls (t : Tracker) (c : CallPart) : Tracker :=
  set_rec t {| agg := agg (rec t); slack := slack (rec t); calls := c |}.
Definition set_caps (t : Tracker) (c : gmap Capability LLMCapabilityRecord) : Tracker :=
  {| rec := rec t; caps := c; inFlight := inFlight t; idleSince := idleSince t; sealed := sealed t;
     probeUnsupported := probeUnsupported t; activityGen := activityGen t;
     probeReservedGen := probeReservedGen t; outstandingPosts := outstandingPosts t; kick := kick t;
     broadcastAfter := broadcastAfter t; idleAfter := idleAfter t; durable := durable t |}.
Definition set_outstanding (t : Tracker) (o : gmap Z outstandingPost) : Tracker :=
  {| rec := rec t; caps := caps t; inFlight := inFlight t; idleSince := idleSince t; sealed := sealed t;
     probeUnsupported := probeUnsupported t; activityGen := activityGen t;
     probeReservedGen := probeReservedGen t; outstandingPosts := o; kick := kick t;
     broadcastAfter := broadcastAfter t; idleAfter := idleAfter t; durable := durable t |}.
Definition set_activity (t : Tracker) (inflight : Z) (idle : Time) (gen : Z) : Tracker :=
  {| rec := rec t; caps := caps t; inFlight := inflight; idleSince := idle; sealed := sealed t;
     probeUnsupported := probeUnsupported t; activityGen := gen;
     probeReservedGen := probeReservedGen t; outstandingPosts := outstandingPosts t; kick := kick t;
     broadcastAfter := broadcastAfter t; idleAfter := idleAfter t; durable := durable t |}.
Definition set_probe (t : Tracker) (unsupported : bool) (reserved : Z) : Tracker :=
  {| rec := rec t; caps := caps t; inFlight := inFlight t; idleSince := idleSince t; sealed := sealed t;
     probeUnsupported := unsupported; activityGen := activityGen t;
     probeReservedGen := reserved; outstandingPosts := outstandingPosts t; kick := kick t;
     broadcastAfter := broadcastAfter t; idleAfter := idleAfter t; durable := durable t |}.
Definition set_kick (t : Tracker) (k : bool) : Tracker :=
  {| rec := rec t; caps := caps t; inFlight := inFlight t; idleSince := idleSince t; sealed := sealed t;
     probeUnsupported := probeUnsupported t; activityGen := activityGen t;
     probeReservedGen := probeReservedGen t; outstandingPosts := outstandingPosts t; kick := k;
     broadcastAfter := broadcastAfter t; idleAfter := idleAfter t; durable := durable t |}.
Definition set_sealed (t : Tracker) : Tracker :=
  {| rec := rec t; caps := caps t; inFlight := inFlight t; idleSince := idleSince t; sealed := true;
     probeUnsupported := probeUnsupported t; activityGen := activityGen t;
     probeReservedGen := probeReservedGen t; outstandingPosts := outstandingPosts t; kick := kick t;
     broadcastAfter := broadcastAfter t; idleAfter := idleAfter t; durable := durable t |}.

(** [persist]: the write commits or it does not. *)
Definition persist (ok : bool) (t : Tracker) : Tracker :=
  if ok then
    {| rec := rec t; caps := caps t; inFlight := inFlight t; idleSince := idleSince t; sealed := sealed t;
       probeUnsupported := probeUnsupported t; activityGen := activityGen t;
       probeReservedGen := probeReservedGen t; outstandingPosts := outstandingPosts t; kick := kick t;
       broadcastAfter := broadcastAfter t; idleAfter := idleAfter t; durable := (rec t, caps t) |}
  else t.

(** [New]: a tracker over what the database holds. *)
Definition New (db : LLMHealthRecord * gmap Capability LLMCapabilityRecord) (now : Time)
    (broadcast idle : Duration) : Tracker :=
  {| rec := db.1; caps := db.2; inFlight := 0%Z; idleSince := now; sealed := false;
     probeUnsupported := false; activityGen := 0%Z; probeReservedGen := 0%Z;
     outstandingPosts := ∅; kick := false;
     broadcastAfter := if (broadcast <=? 0)%Z then (5 * Minute)%Z else broadcast;
     idleAfter := if (idle <=? 0)%Z then (5 * Minute)%Z else idle;
     durable := db |}.

(** ** Capability records *)

Definition new_cap : LLMCapabilityRecord :=
  {| Healthy := true; ReasonCode := ""; Detail := ""; LastSuccessAt := None;
     LastFailureAt := None; UnhealthySince := None; ContentSubjects := [] |}.

Definition getOrCreateCap (cs : gmap Capability LLMCapabilityRecord) (c : Capability)
    : LLMCapabilityRecord := default new_cap (cs !! c).

Definition markCapabilityHealthy (cs : gmap Capability LLMCapabilityRecord) (c : Capability)
    (now : Time) : gmap Capability LLMCapabilityRecord :=
  let r := getOrCreateCap cs c in
  <[c := {| Healthy := true; ReasonCode := ""; Detail := ""; LastSuccessAt := Some now;
            LastFailureAt := LastFailureAt r; UnhealthySince := None; ContentSubjects := [] |}]> cs.

Definition markCapabilityUnhealthy (cs : gmap Capability LLMCapabilityRecord) (c : Capability)
    (reason : Reason) (detail : string) (now : Time) : gmap Capability LLMCapabilityRecord :=
  let r := getOrCreateCap cs c in
  <[c := {| Healthy := false; ReasonCode := reason; Detail := detail;
            LastSuccessAt := LastSuccessAt r; LastFailureAt := Some now;
            UnhealthySince := match UnhealthySince r with Some s => Some s | None => Some now end;
            ContentSubjects := ContentSubjects r |}]> cs.

Definition add_subject (subjects : list string) (subject : string) : list string :=
  if existsb (str_eqb subject) subjects then subjects
  else let s := subjects ++ [subject] in
       if (maxContentSubjects <? length s)%nat then drop (length s - maxContentSubjects) s else s.

Definition recordContentFailure (cs : gmap Capability LLMCapabilityRecord) (c : Capability)
    (subject : string) (reason : Reason) (detail : string) (now : Time)
    : gmap Capability LLMCapabilityRecord :=
  let r := getOrCreateCap cs c in
  let own := Healthy r || bool_decide (class_of (ReasonCode r) = ClassContent) in
  let subjects := add_subject (ContentSubjects r) subject in
  let fail := (2 <=? length subjects)%nat && Healthy r in
  <[c := {| Healthy := if fail then false else Healthy r;
            ReasonCode := if own then reason else ReasonCode r;
            Detail := if own then detail else Detail r;
            LastSuccessAt := LastSuccessAt r; LastFailureAt := Some now;
            UnhealthySince := if fail then Some now else UnhealthySince r;
            ContentSubjects := subjects |}]> cs.

Definition sharedPrimaryCapabilities : list Capability :=
  [CapabilityTriageDraft; CapabilityAssessment; CapabilityVerificationRejudge;
   CapabilityQueryRepair; CapabilitySemanticProfile].

Definition isSharedPrimaryCapability (c : Capability) : bool :=
  existsb (str_eqb c) sharedPrimaryCapabilities.

Definition withdraw (r : LLMCapabilityRecord) : LLMCapabilityRecord :=
  {| Healthy := true; ReasonCode := ""; Detail := ""; LastSuccessAt := LastSuccessAt r;
     LastFailureAt := LastFailureAt r; UnhealthySince := None;
     ContentSubjects := ContentSubjects r |}.

Definition clear_one (succeeded : Capability) (cs : gmap Capability LLMCapabilityRecord)
    (c : Capability) : gmap Capability LLMCapabilityRecord :=
  if str_eqb c succeeded then cs
  else match cs !! c with
       | None => cs
       | Some r =>
           if Healthy r || negb (bool_decide (class_of (ReasonCode r) = ClassDependency)) then cs
           else <[c := withdraw r]> cs
       end.

Definition clearSharedDependencyFailures (cs : gmap Capability LLMCapabilityRecord)
    (succeeded : Capability) : gmap Capability LLMCapabilityRecord :=
  foldl (clear_one succeeded) cs (sharedPrimaryCapabilities ++ [CapabilityProbe]).

(** ** The rolled-up state *)

Definition aggregate_order : list Capability :=
  [CapabilityTriageDraft; CapabilityAssessment; CapabilityProbe;
   CapabilityVerificationRejudge; CapabilitySemanticProfile].

Definition drives_unavailable (c : Capability) : bool :=
  str_eqb c CapabilityTriageDraft || str_eqb c CapabilityAssessment || str_eqb c CapabilityProbe.

Fixpoint aggregate_loop (cs : gmap Capability LLMCapabilityRecord) (order : list Capability)
    : State * string * string :=
  match order with
  | [] => (StateHealthy, "", "")
  | c :: order' =>
      match cs !! c with
      | None => aggregate_loop cs order'
      | Some r =>
          if Healthy r then aggregate_loop cs order'
          else (if drives_unavailable c then StateUnavailable else StateDegraded,
                ReasonCode r, Detail r)
      end
  end.

Definition aggregate (cs : gmap Capability LLMCapabilityRecord) : State * string * string :=
  aggregate_loop cs aggregate_order.

Definition with_state (a : AggPart) (st : State) (reason detail : string) : AggPart :=
  {| a_State := st; a_ReasonCode := reason; a_Detail := detail;
     a_UnhealthySince := a_UnhealthySince a; a_OutageGeneration := a_OutageGeneration a;
     a_RecoveredAt := a_RecoveredAt a |}.

(** The new tracker, and whether the state changed. *)
Definition recompute (t : Tracker) (now : Time) : Tracker * bool :=
  let '(newState, reason, detail) := aggregate (caps t) in
  let a := agg (rec t) in
  let s := slack (rec t) in
  if decide (newState = a_State a) then (set_agg t (with_state a newState reason detail), false)
  else if decide (a_State a = StateHealthy) then
    (set_rec t
       {| agg := {| a_State := newState; a_ReasonCode := reason; a_Detail := detail;
                    a_UnhealthySince := Some now; a_OutageGeneration := (a_OutageGeneration a + 1)%Z;
                    a_RecoveredAt := None |};
          slack := {| s_TS := ""; s_Channel := ""; s_Delivery := DeliveryNone; s_State := None;
                      s_Generation := (s_Generation s + 1)%Z; s_LateRoots := s_LateRoots s |};
          calls := calls (rec t) |}, true)
  else if decide (newState = StateHealthy) then
    let down := match a_UnhealthySince a with Some u => Sub now u | None => 0%Z end in
    let outstanding :=
      match outstandingPosts t !! s_Generation s with
      | Some _ => <[s_Generation s := {| closed := true; downFor := down |}]> (outstandingPosts t)
      | None => outstandingPosts t
      end in
    (set_outstanding
       (set_rec t
          {| agg := {| a_State := newState; a_ReasonCode := ""; a_Detail := "";
                       a_UnhealthySince := a_UnhealthySince a;
                       a_OutageGeneration := a_OutageGeneration a; a_RecoveredAt := Some now |};
             slack := {| s_TS := s_TS s; s_Channel := s_Channel s;
                         s_Delivery :=
                           match s_Delivery s with
                           | DeliveryDelivered => DeliveryRecoveryPending
                           | DeliveryNone | DeliveryPending | DeliveryIndeterminate =>
                               DeliverySuppressed
                           | d => d
                           end;
                         s_State := s_State s; s_Generation := (s_Generation s + 1)%Z;
                         s_LateRoots := s_LateRoots s |};
             calls := calls (rec t) |}) outstanding, true)
  else (set_agg t (with_state a newState reason detail), true).

Definition recomputeAndPersist (ok : bool) (t : Tracker) (now : Time) : Tracker :=
  let '(t, changed) := recompute t now in
  let t := persist ok t in
  if changed then set_kick t true else t.

(** ** Observations *)

(** [Begin] returns whether the observation is live; [Finish] of one that is
    not, or of one already finished, does nothing. *)
Definition Begin (t : Tracker) : Tracker * bool :=
  if sealed t then (t, false)
  else (set_activity t (inFlight t + 1)%Z (idleSince t) (activityGen t + 1)%Z, true).

Definition finish (ok : bool) (t : Tracker) (c : Capability) (subject : string)
    (err : option CallError) (now : Time) : Tracker :=
  let t := set_activity t (inFlight t - 1)%Z (idleSince t) (activityGen t) in
  let reason := Classify err in
  let cl := class_of reason in
  if decide (cl = ClassIgnored) then t
  else if sealed t then t
  else
    let t := set_activity t (inFlight t) now (activityGen t + 1)%Z in
    let k := calls (rec t) in
    let success := match cl with ClassOK => Some now | _ => LastRealSuccessAt k end in
    let t := set_calls t {| LastRealSuccessAt := success; LastRealCallAt := Some now;
                            LastProbeAt := LastProbeAt k; LastProbeOutcome := LastProbeOutcome k |} in
    let cs :=
      match cl with
      | ClassOK =>
          let cs := markCapabilityHealthy (caps t) c now in
          if isSharedPrimaryCapability c then clearSharedDependencyFailures cs c else cs
      | ClassDependency => markCapabilityUnhealthy (caps t) c reason (SafeDetail err) now
      | ClassContent => recordContentFailure (caps t) c subject reason (SafeDetail err) now
      | ClassIgnored => caps t
      end in
    recomputeAndPersist ok (set_caps t cs) now.

Inductive ProbeResult : Type :=
| ProbeOK
| ProbeUnsupported
| ProbeFailed (err : option CallError).

Definition probe_outcome (r : ProbeResult) : string :=
  match r with ProbeOK => "ok" | ProbeUnsupported => "unsupported" | ProbeFailed _ => "failed" end.

Definition ObserveProbe (ok : bool) (t : Tracker) (res : ProbeResult) (now : Time) : Tracker :=
  if sealed t then t
  else
    let k := calls (rec t) in
    let t := set_calls t {| LastRealSuccessAt := LastRealSuccessAt k;
                            LastRealCallAt := LastRealCallAt k; LastProbeAt := Some now;
                            LastProbeOutcome := probe_outcome res |} in
    let t :=
      match res with
      | ProbeOK =>
          set_caps (set_probe t false (probeReservedGen t))
            (markCapabilityHealthy (caps t) CapabilityProbe now)
      | ProbeUnsupported => set_probe t true (probeReservedGen t)
      | ProbeFailed err =>
          let reason := Classify err in
          if negb (activityGen t =? probeReservedGen t)%Z then t
          else if decide (class_of reason = ClassDependency) then
            set_caps t (markCapabilityUnhealthy (caps t) CapabilityProbe reason (SafeDetail err) now)
          else t
      end in
    recomputeAndPersist ok t now.

Definition ProbeDue (t : Tracker) (now : Time) : Tracker * bool :=
  let t := set_probe t (probeUnsupported t) (activityGen t) in
  let probed := LastProbeAt (calls (rec t)) in
  let since d := match probed with Some p => (Sub now p <? d)%Z | None => false end in
  (t,
   if (0 <? inFlight t)%Z then false
   else if probeUnsupported t && (match probed with None => true | Some _ => false end
                                  || since unsupportedRecheck) then false
   else if (Sub now (idleSince t) <? idleAfter t)%Z then false
   else if since minProbeInterval then false
   else true).

(** ** The Slack message *)

Inductive deliverOp : Set :=
| deliverNone | deliverPost | deliverUpdateState | deliverUpdateRecovery.

(** A plan, less its text: the duration the text states instead. *)
Record deliveryPlan : Type := {
  p_op : deliverOp;
  p_down : Duration;
  p_channel : string;
  p_ts : string;
  p_generation : Z;
  p_state : State
}.

Definition noPlan : deliveryPlan :=
  {| p_op := deliverNone; p_down := 0%Z; p_channel := ""; p_ts := ""; p_generation := 0%Z;
     p_state := StateHealthy |}.

Definition with_delivery (s : SlackPart) (d : Delivery) : SlackPart :=
  {| s_TS := s_TS s; s_Channel := s_Channel s; s_Delivery := d; s_State := s_State s;
     s_Generation := s_Generation s; s_LateRoots := s_LateRoots s |}.

Definition down_since (a : AggPart) (now : Time) : Duration :=
  match a_UnhealthySince a with Some u => Sub now u | None => 0%Z end.

(** [ok]: the write-ahead marker commits. *)
Definition planDelivery (ok : bool) (t : Tracker) (now : Time) : Tracker * deliveryPlan :=
  let a := agg (rec t) in
  let s := slack (rec t) in
  let unhealthy := negb (bool_decide (a_State a = StateHealthy)) in
  if unhealthy && (bool_decide (s_Delivery s = DeliveryNone)
                   || bool_decide (s_Delivery s = DeliveryPending)) then
    match a_UnhealthySince a with
    | None => (t, noPlan)
    | Some since =>
        if (Sub now since <? broadcastAfter t)%Z then (t, noPlan)
        else if negb ok then (t, noPlan)
        else
          let t := persist true (set_slack t (with_delivery s DeliveryIndeterminate)) in
          (set_outstanding t (<[s_Generation s := {| closed := false; downFor := 0%Z |}]> (outstandingPosts t)),
           {| p_op := deliverPost; p_down := Sub now since; p_channel := ""; p_ts := "";
              p_generation := s_Generation s; p_state := a_State a |})
    end
  else if unhealthy && bool_decide (s_Delivery s = DeliveryDelivered)
          && negb (bool_decide (s_State s = Some (a_State a))) then
    (t, {| p_op := deliverUpdateState; p_down := down_since a now; p_channel := s_Channel s;
           p_ts := s_TS s; p_generation := s_Generation s; p_state := a_State a |})
  else if negb unhealthy && bool_decide (s_Delivery s = DeliveryRecoveryPending) then
    (t, {| p_op := deliverUpdateRecovery;
           p_down := match a_RecoveredAt a, a_UnhealthySince a with
                     | Some r, Some u => Sub r u
                     | _, _ => 0%Z
                     end;
           p_channel := s_Channel s; p_ts := s_TS s; p_generation := s_Generation s;
           p_state := StateHealthy |})
  else (t, noPlan).

(** What a Slack call came back with. *)
Inductive SlackResult : Type :=
| SlackOK (channel ts : string)
| SlackRejected
| SlackIndeterminate.

Definition is_ok_result (r : SlackResult) : bool :=
  match r with SlackOK _ _ => true | _ => false end.

(** [Duration.Milliseconds]. *)
Definition Milliseconds (d : Duration) : Z := Z.quot d Millisecond.

Definition adoptStaleRoot (ok : bool) (t : Tracker) (plan : deliveryPlan)
    (outstanding : outstandingPost) (channel ts : string) : Tracker :=
  let s := slack (rec t) in
  if negb (closed outstanding) then t
  else if (s_Generation s =? p_generation plan + 1)%Z
          && bool_decide (a_State (agg (rec t)) = StateHealthy)
          && bool_decide (s_Delivery s = DeliverySuppressed) then
    set_kick (persist ok (set_slack t
      {| s_TS := ts; s_Channel := channel; s_Delivery := DeliveryRecoveryPending;
         s_State := Some (p_state plan); s_Generation := s_Generation s;
         s_LateRoots := s_LateRoots s |})) true
  else
    set_kick (persist ok (set_slack t
      {| s_TS := s_TS s; s_Channel := s_Channel s; s_Delivery := s_Delivery s;
         s_State := s_State s; s_Generation := s_Generation s;
         s_LateRoots := s_LateRoots s ++
           [{| lr_Channel := channel; lr_TS := ts;
               lr_DownForMS := Milliseconds (downFor outstanding) |}] |})) true.

Definition applyDeliveryResult (ok : bool) (t : Tracker) (plan : deliveryPlan) (r : SlackResult)
    : Tracker :=
  let is_post := match p_op plan with deliverPost => true | _ => false end in
  let outstanding :=
    default {| closed := false; downFor := 0%Z |} (outstandingPosts t !! p_generation plan) in
  let t := if is_post then set_outstanding t (delete (p_generation plan) (outstandingPosts t)) else t in
  let s := slack (rec t) in
  if negb (p_generation plan =? s_Generation s)%Z then
    match is_post, r with
    | true, SlackOK channel ts => adoptStaleRoot ok t plan outstanding channel ts
    | _, _ => t
    end
  else match p_op plan with
  | deliverNone => t
  | deliverPost =>
      match r with
      | SlackIndeterminate => persist ok t
      | SlackRejected => persist ok (set_slack t (with_delivery s DeliveryPending))
      | SlackOK channel ts =>
          persist ok (set_slack t
            {| s_TS := ts; s_Channel := channel; s_Delivery := DeliveryDelivered;
               s_State := Some (p_state plan); s_Generation := s_Generation s;
               s_LateRoots := s_LateRoots s |})
      end
  | deliverUpdateState =>
      if is_ok_result r then
        persist ok (set_slack t
          {| s_TS := s_TS s; s_Channel := s_Channel s; s_Delivery := s_Delivery s;
             s_State := Some (p_state plan); s_Generation := s_Generation s;
             s_LateRoots := s_LateRoots s |})
      else persist ok t
  | deliverUpdateRecovery =>
      if is_ok_result r then persist ok (set_slack t (with_delivery s DeliveryRecovered))
      else persist ok t
  end.

(** [editLateRoots]: [attempt r] is what the edit of root [r] came back with,
    [attempted] how many of the pending roots the delivery budget reached. *)
Definition split_roots (attempt : LateRoot → bool) (attempted : list LateRoot)
    : list LateRoot * list LateRoot :=
  (filter (λ r, attempt r = true) attempted, filter (λ r, attempt r = false) attempted).

Definition editLateRoots (ok : bool) (t : Tracker) (pending : list LateRoot) (reached : nat)
    (attempt : LateRoot → bool) : Tracker :=
  let '(edited, failed) := split_roots attempt (take reached pending) in
  if bool_decide (edited = []) && bool_decide (failed = []) then t
  else
    let s := slack (rec t) in
    let next := filter (λ r, (r ∉ edited) ∧ (r ∉ failed)) (s_LateRoots s) in
    let retry := filter (λ r, (r ∉ edited) ∧ (r ∈ failed)) (s_LateRoots s) in
    if bool_decide (edited = []) && bool_decide (next ++ retry = s_LateRoots s) then t
    else persist ok (set_slack t
           {| s_TS := s_TS s; s_Channel := s_Channel s; s_Delivery := s_Delivery s;
              s_State := s_State s; s_Generation := s_Generation s;
              s_LateRoots := next ++ retry |}).

(** ** Runs of the system *)

(** The tracker, the plan whose Slack call is out, and the posts that may have
    left a root in Slack, by the generation of their plan. *)
Record system : Type := {
  sys_t : Tracker;
  sys_out : option deliveryPlan;
  sys_roots : list Z
}.

Inductive event : Type :=
| EvBegin
| EvFinish (c : Capability) (subject : string) (err : option CallError) (now : Time) (ok : bool)
| EvProbe (res : ProbeResult) (now : Time) (ok : bool)
| EvProbeDue (now : Time)
| EvSeal
| EvPlan (now : Time) (ok : bool)
| EvApply (r : SlackResult) (ok : bool)
| EvLateRoots (reached : nat) (attempt : LateRoot → bool) (ok : bool)
| EvCrash (now : Time).

(** The runner is one goroutine: it plans only when no Slack call is out.  A
    definite rejection left no root.  A crash loses what was not persisted. *)
Definition sys_step (s : system) (e : event) : system :=
  let t := sys_t s in
  let upd t := {| sys_t := t; sys_out := sys_out s; sys_roots := sys_roots s |} in
  match e with
  | EvBegin => upd (Begin t).1
  | EvFinish c subject err now ok => upd (finish ok t c subject err now)
  | EvProbe res now ok => upd (ObserveProbe ok t res now)
  | EvProbeDue now => upd (ProbeDue t now).1
  | EvSeal => upd (set_sealed t)
  | EvPlan now ok =>
      match sys_out s with
      | Some _ => s
      | None =>
          let '(t, plan) := planDelivery ok t now in
          match p_op plan with
          | deliverNone => {| sys_t := t; sys_out := None; sys_roots := sys_roots s |}
          | deliverPost => {| sys_t := t; sys_out := Some plan;
                              sys_roots := p_generation plan :: sys_roots s |}
          | _ => {| sys_t := t; sys_out := Some plan; sys_roots := sys_roots s |}
          end
      end
  | EvApply r ok =>
      match sys_out s with
      | None => s
      | Some plan =>
          {| sys_t := applyDeliveryResult ok t plan r; sys_out := None;
             sys_roots :=
               match p_op plan, r with
               | deliverPost, SlackRejected =>
                   filter (λ g, g ≠ p_generation plan) (sys_roots s)
               | _, _ => sys_roots s
               end |}
      end
  | EvLateRoots reached attempt ok =>
      match sys_out s with
      | Some _ => s
      | None => upd (editLateRoots ok t (s_LateRoots (slack (rec t))) reached attempt)
      end
  | EvCrash now =>
      {| sys_t := New (durable t) now (broadcastAfter t) (idleAfter t); sys_out := None;
         sys_roots := sys_roots s |}
  end.

Definition sys_run (s : system) (es : list event) : system := foldl sys_step s es.

(** The row the migration inserts. *)
Definition initial_record : LLMHealthRecord :=
  {| agg := {| a_State := StateHealthy; a_ReasonCode := ""; a_Detail := ""; a_UnhealthySince := None;
               a_OutageGeneration := 0%Z; a_RecoveredAt := None |};
     slack := {| s_TS := ""; s_Channel := ""; s_Delivery := DeliveryNone; s_State := None;
                 s_Generation := 0%Z; s_LateRoots := [] |};
     calls := {| LastRealSuccessAt := None; LastRealCallAt := None; LastProbeAt := None;
                 LastProbeOutcome := "" |} |}.

Definition sys_init (now : Time) (broadcast idle : Duration) : system :=
  {| sys_t := New (initial_record, ∅) now broadcast idle; sys_out := None; sys_roots := [] |}.

(** ** Invariant *)

(** The record reports the aggregate of its capabilities. *)
Definition consistent (r : LLMHealthRecord) (cs : gmap Capability LLMCapabilityRecord) : Prop :=
  aggregate cs = (a_State (agg r), a_ReasonCode (agg r), a_Detail (agg r)).

(** Content evidence is a bounded set, and only two subjects condemn. *)
Definition cap_ok (r : LLMCapabilityRecord) : Prop :=
  NoDup (ContentSubjects r) ∧ length (ContentSubjects r) ≤ maxContentSubjects ∧
  (Healthy r = false → class_of (ReasonCode r) = ClassContent → 2 ≤ length (ContentSubjects r)).

Definition caps_ok (cs : gmap Capability LLMCapabilityRecord) : Prop :=
  map_Forall (λ _ r, cap_ok r) cs.

(** A post may still be made for the episode of [s]. *)
Definition may_post (s : SlackPart) : Prop :=
  s_Delivery s = DeliveryNone ∨ s_Delivery s = DeliveryPending.

(** What holds of a record, in memory or in the database. *)
Record record_ok (roots : list Z) (r : LLMHealthRecord)
    (cs : gmap Capability LLMCapabilityRecord) : Prop := {
  ro_caps : caps_ok cs;
  ro_fresh : may_post (slack r) → s_Generation (slack r) ∉ roots
}.

(** The plan whose post is out belongs to the current episode, not closed and
    marked, or to an episode that was closed meanwhile. *)
Definition out_ok (t : Tracker) (out : option deliveryPlan) : Prop :=
  ∀ plan, out = Some plan → p_op plan = deliverPost →
  ∃ o, outstandingPosts t !! p_generation plan = Some o ∧
    ((p_generation plan = s_Generation (slack (rec t)) ∧ a_State (agg (rec t)) ≠ StateHealthy ∧
      s_Delivery (slack (rec t)) = DeliveryIndeterminate) ∨
     ((p_generation plan < s_Generation (slack (rec t)))%Z ∧ closed o = true)).

Record tinv0 (roots : list Z) (out : option deliveryPlan) (t : Tracker) : Prop := {
  ti_mem : record_ok roots (rec t) (caps t);
  ti_db : record_ok roots (durable t).1 (durable t).2 ∧ consistent (durable t).1 (durable t).2;
  ti_roots : ∀ g, g ∈ roots → (g ≤ s_Generation (slack (durable t).1))%Z;
  ti_gen : (s_Generation (slack (durable t).1) ≤ s_Generation (slack (rec t)))%Z;
  ti_nodup : NoDup roots;
  ti_out : out_ok t out
}.

Definition tinv (roots : list Z) (out : option deliveryPlan) (t : Tracker) : Prop :=
  tinv0 roots out t ∧ consistent (rec t) (caps t).

(** *** Capability records *)

Lemma getOrCreateCap_ok cs c : caps_ok cs → cap_ok (getOrCreateCap cs c).
Proof.
  intros H. unfold getOrCreateCap. destruct (cs !! c) eqn:E; simpl; [by apply (H c)|].
  split_and!; [constructor|simpl; lia|done].
Qed.

Lemma markCapabilityHealthy_ok cs c now : caps_ok cs → caps_ok (markCapabilityHealthy cs c now).
Proof.
  intros H. apply map_Forall_insert_2; [|done]. split_and!; [constructor|simpl; lia|done].
Qed.

Lemma markCapabilityUnhealthy_ok cs c reason d now :
  class_of reason = ClassDependency → caps_ok cs → caps_ok (markCapabilityUnhealthy cs c reason d now).
Proof.
  intros Hr H. apply map_Forall_insert_2; [|done].
  destruct (getOrCreateCap_ok cs c H) as (H1 & H2 & _). split_and!; [done|done|].
  simpl. congruence.
Qed.

Lemma add_subject_ok l x :
  NoDup l → length l ≤ maxContentSubjects →
  NoDup (add_subject l x) ∧ length (add_subject l x) ≤ maxContentSubjects ∧
  length l ≤ length (add_subject l x).
Proof.
  intros Hn Hl. unfold add_subject. destruct (existsb (str_eqb x) l) eqn:E; [done|].
  assert (Hx : x ∉ l).
  { intros Hin%list_elem_of_In. assert (existsb (str_eqb x) l = true) as E'; [|congruence].
    apply existsb_exists. exists x. split; [done|]. apply String.eqb_refl. }
  assert (Hn' : NoDup (l ++ [x])).
  { apply NoDup_app. split_and!; [done| |apply NoDup_singleton]. by intros y Hy ->%list_elem_of_singleton. }
  destruct (_ <? _)%nat eqn:El.
  - apply Nat.ltb_lt in El. rewrite length_drop, length_app in *. simpl in *. split_and!; [|lia|lia].
    rewrite <- (take_drop (length l + 1 - maxContentSubjects) (l ++ [x])) in Hn'.
    by apply NoDup_app in Hn' as (_ & _ & ?).
  - apply Nat.ltb_ge in El. rewrite length_app in *. simpl in *. split_and!; [done|lia|lia].
Qed.

Lemma recordContentFailure_ok cs c subject reason d now :
  caps_ok cs → caps_ok (recordContentFailure cs c subject reason d now).
Proof.
  intros H. destruct (getOrCreateCap_ok cs c H) as (H1 & H2 & H3).
  destruct (add_subject_ok _ subject H1 H2) as (Ha & Hb & Hc).
  apply map_Forall_insert_2; [|done]. split_and!; [done|done|].
  cbn [Healthy ReasonCode ContentSubjects].
  set (subjects := add_subject _ subject) in *.
  destruct (2 <=? length subjects)%nat eqn:E; [intros _ _; by apply Nat.leb_le|].
  cbn [andb]. intros Hh. rewrite Hh. cbn [orb].
  destruct (bool_decide_reflect (class_of (ReasonCode (getOrCreateCap cs c)) = ClassContent)) as [Hcl|Hcl].
  - intros _. specialize (H3 Hh Hcl). lia.
  - intros Hcl'. by destruct Hcl.
Qed.

Lemma clearShared_ok cs c : caps_ok cs → caps_ok (clearSharedDependencyFailures cs c).
Proof.
  unfold clearSharedDependencyFailures. generalize (sharedPrimaryCapabilities ++ [CapabilityProbe]).
  intros l. revert cs. induction l as [|x l IH]; intros cs H; simpl; [done|]. apply IH.
  unfold clear_one. destruct (str_eqb x c); [done|]. destruct (cs !! x) as [r|] eqn:E; [|done].
  destruct (_ || _); [done|]. apply map_Forall_insert_2; [|done].
  destruct (H x r E) as (H1 & H2 & _). split_and!; done.
Qed.

Lemma aggregate_healthy cs reason d :
  aggregate cs = (StateHealthy, reason, d) → reason = "" ∧ d = "".
Proof.
  unfold aggregate. induction aggregate_order as [|c l IH]; simpl; [by intros [= <- <-]|].
  destruct (cs !! c) as [r|]; [|done]. destruct (Healthy r); [done|].
  by destruct (drives_unavailable c).
Qed.

(** *** Tracker operations *)

Lemma tinv0_caps roots out t cs : caps_ok cs → tinv0 roots out t → tinv0 roots out (set_caps t cs).
Proof. intros Hc [[_ H2] H3 H4 H5 H6 H7]. by split. Qed.

Lemma persist_ok roots out ok t : tinv roots out t → tinv roots out (persist ok t).
Proof.
  intros [[H1 H2 H3 H4 H5 H6] Hc]. unfold persist. destruct ok; [|done].
  split; [|done]. split; simpl; try done; try lia.
  intros g Hg. specialize (H3 g Hg). lia.
Qed.

Lemma recompute_ok roots out t now : tinv0 roots out t → tinv roots out (recompute t now).1.
Proof.
  intros [[Hm1 Hm2] H2 H3 H4 H5 H6]. unfold recompute.
  destruct (aggregate (caps t)) as [[st reason] detail] eqn:Ea.
  assert (Hroots : ∀ g, (s_Generation (slack (rec t)) < g)%Z → g ∉ roots).
  { intros g Hg Hin. specialize (H3 g Hin). lia. }
  destruct (decide (st = a_State (agg (rec t)))) as [->|Hst];
    [|destruct (decide (a_State (agg (rec t)) = StateHealthy)) as [Hh|Hh];
      [|destruct (decide (st = StateHealthy)) as [->|Hne]]]; simpl.
  - split; [|by unfold consistent]. by split.
  - split; [|by unfold consistent]. split; simpl; try done; try lia.
    + split; simpl; [done|]. intros _. apply Hroots. lia.
    + intros plan Hp Hop. destruct (H6 plan Hp Hop) as (o & Ho & [(_ & Hs & _)|[Hlt Hcl]]); [done|].
      exists o. split; [done|]. right. simpl. split; [lia|done].
  - split; [|unfold consistent; simpl; rewrite Ea; f_equal; by apply aggregate_healthy in Ea as [-> ->]].
    split; simpl; try done; try lia.
    + split; simpl; [done|]. intros [Hd|Hd]; by destruct (s_Delivery (slack (rec t))).
    + intros plan Hp Hop. destruct (H6 plan Hp Hop) as (o & Ho & [(Hg & Hs & Hd)|[Hlt Hcl]]); simpl.
      * rewrite <- Hg, Ho, lookup_insert_eq. eexists. split; [done|]. right. split; [lia|done].
      * exists o. split; [|right; split; [lia|done]].
        destruct (outstandingPosts t !! s_Generation (slack (rec t))); [|done].
        rewrite lookup_insert_ne by lia. done.
  - split; [|by unfold consistent]. split; simpl; try done.
    intros plan Hp Hop. destruct (H6 plan Hp Hop) as (o & Ho & [(Hg & Hs & Hd)|[Hlt Hcl]]);
      exists o; (split; [done|]); [left|right]; by simpl.
Qed.

Lemma recomputeAndPersist_ok roots out ok t now :
  tinv0 roots out t → tinv roots out (recomputeAndPersist ok t now).
Proof.
  intros H. unfold recomputeAndPersist.
  pose proof (recompute_ok roots out t now H) as Hr.
  destruct (recompute t now) as [t' ch]. simpl in Hr.
  apply (persist_ok _ _ ok) in Hr. destruct ch; [|done].
  destruct Hr as [[] ?]. by split.
Qed.

Lemma set_calls_ok roots out t k : tinv0 roots out t → tinv0 roots out (set_calls t k).
Proof. intros [[] ? ? ? ? ?]. by split. Qed.

Lemma set_activity_ok roots out t n i g : tinv0 roots out t → tinv0 roots out (set_activity t n i g).
Proof. intros []. by split. Qed.

Lemma set_probe_ok roots out t u g : tinv0 roots out t → tinv0 roots out (set_probe t u g).
Proof. intros []. by split. Qed.

Lemma finish_ok roots out ok t c subject err now :
  tinv roots out t → tinv roots out (finish ok t c subject err now).
Proof.
  intros H. unfold finish. set (reason := Classify err).
  assert (H1 : tinv roots out (set_activity t (inFlight t - 1)%Z (idleSince t) (activityGen t)))
    by (destruct H as [[] ?]; by split).
  destruct (decide (class_of reason = ClassIgnored)); [done|].
  destruct (sealed _); [done|]. apply recomputeAndPersist_ok.
  assert (Hcs : caps_ok (caps t)) by (destruct H as [[[] _ _ _ _ _] _]; done).
  apply tinv0_caps; [|apply set_calls_ok, set_activity_ok, H1].
  cbn [caps set_calls set_rec set_activity].
  destruct (class_of reason) eqn:Ecl.
  - destruct (isSharedPrimaryCapability c); [apply clearShared_ok|]; by apply markCapabilityHealthy_ok.
  - done.
  - by apply markCapabilityUnhealthy_ok.
  - by apply recordContentFailure_ok.
Qed.

Lemma ObserveProbe_ok roots out ok t res now :
  tinv roots out t → tinv roots out (ObserveProbe ok t res now).
Proof.
  intros H. unfold ObserveProbe. destruct (sealed t); [done|]. apply recomputeAndPersist_ok.
  assert (Hcs : caps_ok (caps t)) by (destruct H as [[[] _ _ _ _ _] _]; done).
  destruct H as [H _]. pose proof (set_calls_ok _ _ _
    {| LastRealSuccessAt := LastRealSuccessAt (calls (rec t));
       LastRealCallAt := LastRealCallAt (calls (rec t)); LastProbeAt := Some now;
       LastProbeOutcome := probe_outcome res |} H) as H1.
  destruct res as [| |err].
  - apply tinv0_caps; [by apply markCapabilityHealthy_ok|by apply set_probe_ok].
  - by apply set_probe_ok.
  - destruct (negb _); [done|]. destruct (decide _); [|done].
    apply tinv0_caps; [by apply markCapabilityUnhealthy_ok|done].
Qed.

(** A change of the Slack part that keeps its generation and opens nothing. *)
Lemma set_slack_ok roots out t s :
  tinv roots out t → s_Generation s = s_Generation (slack (rec t)) →
  (may_post s → s_Generation s ∉ roots) →
  (∀ plan, out = Some plan → p_op plan = deliverPost →
   p_generation plan = s_Generation s → s_Delivery s = DeliveryIndeterminate) →
  tinv roots out (set_slack t s).
Proof.
  intros [[[Hm1 Hm2] H2 H3 H4 H5 H6] Hc] Hg Hf Hi. split; [|done].
  split; simpl; rewrite ?Hg; try done.
  intros plan Hp Hop. destruct (H6 plan Hp Hop) as (o & Ho & [(Hg' & Hs & Hd)|[Hlt Hcl]]);
    exists o; (split; [done|]); simpl.
  - left. rewrite Hg. split_and!; [done|done|]. apply (Hi plan Hp Hop). congruence.
  - right. by rewrite Hg.
Qed.

Lemma tinv_out_none roots out t : tinv roots out t → tinv roots None t.
Proof. intros [[] Hc]. split; [|done]. by split. Qed.

Lemma tinv_roots_filter roots out t g :
  tinv roots out t → tinv (filter (λ x, x ≠ g) roots) out t.
Proof.
  intros [[[Hm1 Hm2] [[Hd1 Hd2] Hdc] H3 H4 H5 H6] Hc]. split; [|done].
  split; try done.
  - split; [done|]. intros H Hin. apply list_elem_of_filter in Hin as [_ Hin]. by apply Hm2.
  - split; [|done]. split; [done|]. intros H Hin. apply list_elem_of_filter in Hin as [_ Hin].
    by apply Hd2.
  - intros x Hx. apply list_elem_of_filter in Hx as [_ Hx]. by apply H3.
  - by apply NoDup_filter.
Qed.

Lemma set_outstanding_none_ok roots t o :
  tinv roots None t → tinv roots None (set_outstanding t o).
Proof. intros [[] Hc]. split; [|done]. by split. Qed.

Lemma tinv_set_kick roots out t k : tinv roots out t → tinv roots out (set_kick t k).
Proof. intros [[] Hc]. by split. Qed.

(** *** Planning and applying *)

Lemma planDelivery_post ok t now t' plan :
  planDelivery ok t now = (t', plan) → p_op plan = deliverPost →
  a_State (agg (rec t)) ≠ StateHealthy ∧ may_post (slack (rec t)) ∧ ok = true ∧
  p_generation plan = s_Generation (slack (rec t)) ∧ p_state plan = a_State (agg (rec t)) ∧
  t' = set_outstanding
         (persist true (set_slack t (with_delivery (slack (rec t)) DeliveryIndeterminate)))
         (<[s_Generation (slack (rec t)) := {| closed := false; downFor := 0%Z |}]> (outstandingPosts t)).
Proof.
  unfold planDelivery.
  destruct (bool_decide_reflect (a_State (agg (rec t)) = StateHealthy)) as [Hh|Hh]; cbn [negb andb].
  { destruct (bool_decide _); intros [= <- <-]; done. }
  destruct (bool_decide_reflect (s_Delivery (slack (rec t)) = DeliveryNone)) as [H1|H1];
    [|destruct (bool_decide_reflect (s_Delivery (slack (rec t)) = DeliveryPending)) as [H2|H2]];
    cbn [orb].
  3: { destruct (_ && _); intros [= <- <-]; done. }
  all: destruct (a_UnhealthySince (agg (rec t))) as [u|]; [|intros [= <- <-]; done].
  all: destruct (_ <? _)%Z; [intros [= <- <-]; done|].
  all: destruct ok; intros [= <- <-]; [|done].
  all: intros _; split_and!; try done; ((by left) || (by right)).
Qed.

Lemma planDelivery_other ok t now t' plan :
  planDelivery ok t now = (t', plan) → p_op plan ≠ deliverPost → t' = t.
Proof.
  unfold planDelivery. destruct (_ && (_ || _)).
  - destruct (a_UnhealthySince _); [|by intros [= <- <-]]. destruct (_ <? _)%Z; [by intros [= <- <-]|].
    destruct ok; intros [= <- <-]; done.
  - destruct (_ && _); [by intros [= <- <-]|]. destruct (_ && _); by intros [= <- <-].
Qed.

Lemma plan_post_ok roots t now t' plan :
  tinv roots None t → planDelivery true t now = (t', plan) → p_op plan = deliverPost →
  tinv (p_generation plan :: roots) (Some plan) t'.
Proof.
  intros [[[Hm1 Hm2] [[Hd1 Hd2] Hdc] H3 H4 H5 H6] Hc] Hp Hop.
  destruct (planDelivery_post _ _ _ _ _ Hp Hop) as (Hst & Hmay & _ & Hg & _ & ->).
  rewrite Hg. split; [|done]. split; simpl.
  - split; [done|]. intros [Hd|Hd]; done.
  - split; [|done]. split; [done|]. intros [Hd|Hd]; done.
  - intros g [->|Hin]%elem_of_cons; [lia|]. specialize (H3 g Hin). lia.
  - lia.
  - constructor; [|done]. by apply Hm2.
  - intros plan' [= <-] _. simpl. rewrite Hg, lookup_insert_eq. eexists. split; [done|]. by left.
Qed.

Lemma apply_ok roots ok t plan r :
  tinv roots (Some plan) t →
  tinv (match p_op plan, r with
        | deliverPost, SlackRejected => filter (λ g, g ≠ p_generation plan) roots
        | _, _ => roots
        end) None (applyDeliveryResult ok t plan r).
Proof.
  intros H. set (roots' := match p_op plan with deliverPost => _ | _ => _ end).
  assert (H' : tinv roots' (Some plan) t)
    by (subst roots'; destruct (p_op plan), r; try done; by apply tinv_roots_filter).
  assert (Hrej : p_op plan = deliverPost → r = SlackRejected → p_generation plan ∉ roots').
  { subst roots'. intros -> ->. intros Hin. by apply list_elem_of_filter in Hin as [? _]. }
  clearbody roots'. clear H. pose proof (tinv_out_none _ _ _ H') as Hn.
  unfold applyDeliveryResult.
  set (t1 := if match p_op plan with deliverPost => true | _ => false end then _ else t).
  assert (Ht1 : tinv roots' None t1)
    by (subst t1; destruct (p_op plan); try done; by apply set_outstanding_none_ok).
  assert (Hsl : slack (rec t1) = slack (rec t)) by (subst t1; by destruct (p_op plan)).
  destruct (p_generation plan =? s_Generation (slack (rec t1)))%Z eqn:Eg; cbn [negb].
  - apply Z.eqb_eq in Eg.
    destruct (p_op plan) eqn:Eop; [done| | |].
    + destruct r; apply persist_ok; [| |done].
      * apply set_slack_ok; [done|done| |by intros ? [=]]. intros [Hd|Hd]; done.
      * apply set_slack_ok; [done|done| |by intros ? [=]].
        intros _. change (s_Generation (slack (rec t1)) ∉ roots'). rewrite <- Eg. by apply Hrej.
    + destruct (is_ok_result r); apply persist_ok; [|done].
      apply set_slack_ok; [done|done| |by intros ? [=]].
      destruct Ht1 as [[[_ Hf] _ _ _ _ _] _]. exact Hf.
    + destruct (is_ok_result r); apply persist_ok; [|done].
      apply set_slack_ok; [done|done| |by intros ? [=]]. intros [Hd|Hd]; done.
  - destruct (p_op plan); try done. destruct r; try done. unfold adoptStaleRoot.
    destruct (negb _); [done|]. destruct Ht1 as [Ht1 Htc].
    destruct (_ && _); apply tinv_set_kick, persist_ok, set_slack_ok; try done; try (by intros ? [=]).
    + intros [Hd|Hd]; done.
    + destruct Ht1 as [[_ Hf] _ _ _ _ _]. exact Hf.
Qed.

Lemma editLateRoots_ok roots ok t pending n f :
  tinv roots None t → tinv roots None (editLateRoots ok t pending n f).
Proof.
  intros H. unfold editLateRoots, split_roots. destruct (_ && _); [done|].
  destruct (_ && _); [done|]. apply persist_ok, set_slack_ok; [done|done| |by intros ? [=]].
  destruct H as [[[_ Hf] _ _ _ _ _] _]. exact Hf.
Qed.

(** *** Runs *)

Definition sinv (s : system) : Prop := tinv (sys_roots s) (sys_out s) (sys_t s).

Lemma record_ok_init : record_ok [] initial_record ∅.
Proof. split; [by apply map_Forall_empty|]. intros _. apply not_elem_of_nil. Qed.

Lemma sinv_init now b i : sinv (sys_init now b i).
Proof.
  pose proof record_ok_init as Hr. split; [|done]. split; try done.
  - intros g Hg. by apply not_elem_of_nil in Hg.
  - constructor.
Qed.

Lemma tinv_out_other roots t plan :
  p_op plan ≠ deliverPost → tinv roots None t → tinv roots (Some plan) t.
Proof. intros Hop [[] Hc]. split; [|done]. split; try done. by intros p [= <-]. Qed.

Lemma sinv_plan roots t now ok :
  tinv roots None t → sinv (sys_step {| sys_t := t; sys_out := None; sys_roots := roots |} (EvPlan now ok)).
Proof.
  intros H. unfold sinv. simpl. destruct (planDelivery ok t now) as [t' plan] eqn:Ep.
  destruct (p_op plan) eqn:Eop; simpl.
  - by rewrite (planDelivery_other _ _ _ _ _ Ep) by (by rewrite Eop).
  - destruct (planDelivery_post _ _ _ _ _ Ep Eop) as (_ & _ & -> & _). by eapply plan_post_ok.
  - rewrite (planDelivery_other _ _ _ _ _ Ep) by (by rewrite Eop).
    apply tinv_out_other; [by rewrite Eop|done].
  - rewrite (planDelivery_other _ _ _ _ _ Ep) by (by rewrite Eop).
    apply tinv_out_other; [by rewrite Eop|done].
Qed.

Lemma crash_ok roots out t now :
  tinv roots out t → tinv roots None (New (durable t) now (broadcastAfter t) (idleAfter t)).
Proof. intros [[Hm [Hd Hdc] H3 H4 H5 H6] Hc]. by split. Qed.

Lemma sinv_step s e : sinv s → sinv (sys_step s e).
Proof.
  destruct s as [t out roots]. intros H.
  destruct e as [|c sub err now ok|res now ok|now| |now ok|r ok|n f ok|now];
    try (destruct out as [plan|]; [|by apply sinv_plan]); try exact H; unfold sinv in *; simpl in *.
  - unfold Begin. destruct (sealed t); [done|]. destruct H as [[] ?]. by split.
  - by apply finish_ok.
  - by apply ObserveProbe_ok.
  - destruct H as [[] ?]. by split.
  - destruct H as [[] ?]. by split.
  - destruct out as [plan|]; [|done]. simpl. by apply apply_ok.
  - destruct out as [plan|]; [done|]. simpl. by apply editLateRoots_ok.
  - by eapply crash_ok.
Qed.

Lemma sinv_run s es : sinv s → sinv (sys_run s es).
Proof.
  unfold sys_run. revert s. induction es as [|e es IH]; intros s H; simpl; [done|].
  by apply IH, sinv_step.
Qed.

(** *** Clearing *)

Lemma clear_one_other s cs x c : c ≠ x → clear_one s cs x !! c = cs !! c.
Proof.
  intros Hne. unfold clear_one. destruct (str_eqb x s); [done|].
  destruct (cs !! x); [|done]. destruct (_ || _); [done|]. by rewrite lookup_insert_ne.
Qed.

(** What a success on [s] leaves of another receiver's record. *)
Definition cleared (r : LLMCapabilityRecord) : LLMCapabilityRecord :=
  if Healthy r || negb (bool_decide (class_of (ReasonCode r) = ClassDependency)) then r else withdraw r.

Lemma cleared_idem r : cleared (cleared r) = cleared r.
Proof. unfold cleared. by destruct (Healthy r || _) eqn:E; simpl; rewrite ?E. Qed.

Lemma clear_one_self s cs x : x ≠ s → clear_one s cs x !! x = cleared <$> cs !! x.
Proof.
  intros Hne. unfold clear_one, cleared. destruct (str_eqb x s) eqn:E; [by go_bool|].
  destruct (cs !! x) as [r|] eqn:Er; [|by rewrite Er]. simpl.
  destruct (_ || _); [by rewrite Er|]. by rewrite lookup_insert_eq.
Qed.

Lemma clear_all_lookup s l cs c :
  c ≠ s →
  foldl (clear_one s) cs l !! c = if bool_decide (c ∈ l) then cleared <$> cs !! c else cs !! c.
Proof.
  intros Hne. revert cs. induction l as [|x l IH]; intros cs; simpl; [done|].
  rewrite IH. destruct (decide (c = x)) as [->|Hx].
  - rewrite clear_one_self by done. rewrite (bool_decide_eq_true_2 (x ∈ x :: l)) by left.
    case_bool_decide; [|done]. destruct (cs !! x); simpl; [|done]. by rewrite cleared_idem.
  - rewrite clear_one_other by done.
    assert (Hiff : c ∈ x :: l ↔ c ∈ l) by (rewrite elem_of_cons; naive_solver).
    by rewrite (bool_decide_ext _ _ Hiff).
Qed.

Lemma clear_all_succeeded s l cs : foldl (clear_one s) cs l !! s = cs !! s.
Proof.
  revert cs. induction l as [|x l IH]; intros cs; simpl; [done|]. rewrite IH.
  unfold clear_one. destruct (str_eqb x s) eqn:E; [done|]. go_bool.
  destruct (cs !! x); [|done]. destruct (_ || _); [done|]. by rewrite lookup_insert_ne.
Qed.

Lemma recomputeAndPersist_caps ok t now : caps (recomputeAndPersist ok t now) = caps t.
Proof.
  unfold recomputeAndPersist, recompute. destruct (aggregate (caps t)) as [[st r] d].
  repeat case_decide; destruct ok; done.
Qed.

Definition unhealthy (cs : gmap Capability LLMCapabilityRecord) (c : Capability) : bool :=
  match cs !! c with Some r => negb (Healthy r) | None => false end.

Lemma aggregate_state cs :
  (aggregate cs).1.1 =
  if unhealthy cs CapabilityTriageDraft || unhealthy cs CapabilityAssessment || unhealthy cs CapabilityProbe
  then StateUnavailable
  else if unhealthy cs CapabilityVerificationRejudge || unhealthy cs CapabilitySemanticProfile
  then StateDegraded else StateHealthy.
Proof.
  unfold aggregate, aggregate_order, aggregate_loop, unhealthy.
  repeat match goal with |- context [cs !! ?c] =>
    destruct (cs !! c) as [[[] ? ? ? ? ? ?]|]; cbn; try done end.
Qed.

(** ** Theorems *)

(** C38. Whatever the interleaving of calls, probes, Slack steps and crashes, and
    whichever writes fail, at most one post per episode may have left a root in
    Slack: no generation is ever posted twice unless Slack definitely rejected
    the first attempt. *)
Theorem one_root_per_episode now b i es : NoDup (sys_roots (sys_run (sys_init now b i) es)).
Proof.
  pose proof (sinv_run _ es (sinv_init now b i)) as [[] _]. done.
Qed.

(** In every reachable state the rolled-up state, reason and detail are the
    aggregate of the capability records, in memory and in the database alike:
    unavailable exactly when Triage, Assessment or the probe is unhealthy,
    degraded exactly when only re-judgment or semantic profiles are, so that
    memory and repair failures never move it. *)
Theorem state_is_aggregate now b i es :
  let t := sys_t (sys_run (sys_init now b i) es) in
  consistent (rec t) (caps t) ∧ consistent (durable t).1 (durable t).2 ∧
  a_State (agg (rec t)) =
    if unhealthy (caps t) CapabilityTriageDraft || unhealthy (caps t) CapabilityAssessment
       || unhealthy (caps t) CapabilityProbe then StateUnavailable
    else if unhealthy (caps t) CapabilityVerificationRejudge
            || unhealthy (caps t) CapabilitySemanticProfile then StateDegraded
    else StateHealthy.
Proof.
  intros t. pose proof (sinv_run _ es (sinv_init now b i)) as [[_ [_ Hd] _ _ _ _] Hc].
  fold t in Hd, Hc. split_and!; [done|done|]. rewrite <- aggregate_state. by rewrite Hc.
Qed.

(** In every reachable state each capability's content evidence is a set of
    at most eight distinct subjects, and a capability is unhealthy for a
    content-class reason only on the evidence of at least two of them: one
    Incident alone never condemns it. *)
Theorem content_needs_two_subjects now b i es c r :
  caps (sys_t (sys_run (sys_init now b i) es)) !! c = Some r →
  NoDup (ContentSubjects r) ∧ length (ContentSubjects r) ≤ maxContentSubjects ∧
  (Healthy r = false → class_of (ReasonCode r) = ClassContent → 2 ≤ length (ContentSubjects r)).
Proof.
  intros H. pose proof (sinv_run _ es (sinv_init now b i)) as [[[Hm _] _ _ _ _ _] _].
  by apply (Hm c).
Qed.

(** A post that Slack accepted is never forgotten: when its result is applied,
    the coordinates are those of the current episode's root, delivered or
    awaiting its recovery edit, or they join the queue of late roots; the post
    is never orphaned. *)
Theorem accepted_root_is_kept now b i es plan channel ts ok :
  let s := sys_run (sys_init now b i) es in
  sys_out s = Some plan → p_op plan = deliverPost →
  let sl := slack (rec (sys_t (sys_step s (EvApply (SlackOK channel ts) ok)))) in
  (s_TS sl = ts ∧ s_Channel sl = channel ∧
   (s_Delivery sl = DeliveryDelivered ∨ s_Delivery sl = DeliveryRecoveryPending)) ∨
  (∃ ms, {| lr_Channel := channel; lr_TS := ts; lr_DownForMS := ms |} ∈ s_LateRoots sl).
Proof.
  intros s Ho Hop. pose proof (sinv_run _ es (sinv_init now b i)) as [[_ _ _ _ _ Hout] _]. fold s in Hout.
  destruct (Hout plan Ho Hop) as (o & Hl & Hcase). simpl. rewrite Ho. simpl.
  unfold applyDeliveryResult. rewrite Hop, Hl. simpl.
  destruct Hcase as [(Hg & _ & _)|[Hlt Hcl]].
  - rewrite Hg, Z.eqb_refl. simpl. left. destruct ok; simpl; tauto.
  - replace (p_generation plan =? _)%Z with false by (symmetry; apply Z.eqb_neq; lia). simpl.
    unfold adoptStaleRoot. rewrite Hcl. simpl. destruct (_ && _); simpl.
    + left. destruct ok; simpl; tauto.
    + right. eexists. destruct ok; simpl; apply elem_of_app; right; by left.
Qed.

(** What one real success proves: the capability itself becomes healthy with
    no evidence left against it; a success on the shared primary client withdraws
    the dependency-class verdicts of the other shared capabilities and of the
    probe, and of nothing else; content-class verdicts, the memory classifier
    and every capability never observed stay as they were. *)
Theorem success_scope ok t c subject now :
  sealed t = false →
  let cs := caps (finish ok t c subject None now) in
  (∃ r, cs !! c = Some r ∧ Healthy r = true ∧ ContentSubjects r = []) ∧
  ∀ c', c' ≠ c →
    cs !! c' =
    if isSharedPrimaryCapability c && bool_decide (c' ∈ sharedPrimaryCapabilities ++ [CapabilityProbe])
    then cleared <$> caps t !! c' else caps t !! c'.
Proof.
  intros Hs. unfold finish. change (class_of (Classify None)) with ClassOK.
  rewrite decide_False by done. cbn [sealed set_activity]. rewrite Hs.
  rewrite recomputeAndPersist_caps. cbn [caps set_caps].
  unfold clearSharedDependencyFailures. split.
  - destruct (isSharedPrimaryCapability c); rewrite ?clear_all_succeeded;
      unfold markCapabilityHealthy; rewrite lookup_insert_eq; by eexists.
  - intros c' Hne. destruct (isSharedPrimaryCapability c); cbn [andb].
    + rewrite clear_all_lookup by done. unfold markCapabilityHealthy.
      by rewrite lookup_insert_ne by done.
    + unfold markCapabilityHealthy. by rewrite lookup_insert_ne by done.
Qed.

Lemma filter_take_drop (n : nat) (l : list LateRoot) :
  NoDup l → filter (λ r, r ∉ take n l) l = drop n l ∧ filter (λ r, r ∈ take n l) l = take n l.
Proof.
  intros Hnd. rewrite <- (take_drop n l) in Hnd. apply NoDup_app in Hnd as (_ & Hdis & _).
  pose proof (λ P (_ : ∀ x, Decision (P x)), filter_app P (take n l) (drop n l)) as Hf.
  rewrite (take_drop n l) in Hf. rewrite !Hf.
  rewrite (filter_none _ (take n l)), (filter_all _ (drop n l)), (filter_all _ (take n l)),
    (filter_none _ (drop n l)), app_nil_r; [done| | | |]; set_solver.
Qed.

Lemma late_roots_eq ok t n attempt :
  let pending := s_LateRoots (slack (rec t)) in
  s_LateRoots (slack (rec (editLateRoots ok t pending n attempt))) =
  filter (λ r, r ∉ take n pending) pending
    ++ filter (λ r, r ∈ take n pending ∧ attempt r = false) pending.
Proof.
  intros pending. unfold editLateRoots, split_roots. fold pending.
  set (E := filter _ _). set (F := filter (λ r, attempt r = false) _).
  assert (HE : ∀ r, r ∈ E ↔ attempt r = true ∧ r ∈ take n pending) by (intros; unfold E; by rewrite list_elem_of_filter).
  assert (HF : ∀ r, r ∈ F ↔ attempt r = false ∧ r ∈ take n pending) by (intros; unfold F; by rewrite list_elem_of_filter).
  assert (H1 : filter (λ r, (r ∉ E) ∧ (r ∉ F)) pending = filter (λ r, r ∉ take n pending) pending).
  { apply list_filter_iff. intros r. rewrite HE, HF. destruct (attempt r); naive_solver. }
  assert (H2 : filter (λ r, (r ∉ E) ∧ (r ∈ F)) pending
               = filter (λ r, r ∈ take n pending ∧ attempt r = false) pending).
  { apply list_filter_iff. intros r. rewrite HE, HF. destruct (attempt r); naive_solver. }
  clearbody E F. rewrite H1, H2.
  case_bool_decide as HE0; case_bool_decide as HF0; cbn [andb].
  - assert (Ht : ∀ r, r ∉ take n pending).
    { intros r Hr. destruct (attempt r) eqn:Ea.
      - assert (Hin : r ∈ E) by (by apply HE). rewrite HE0 in Hin. by apply not_elem_of_nil in Hin.
      - assert (Hin : r ∈ F) by (by apply HF). rewrite HF0 in Hin. by apply not_elem_of_nil in Hin. }
    rewrite (filter_all _ pending), (filter_none _ pending), app_nil_r by naive_solver. done.
  - case_bool_decide; [done|]. by destruct ok.
  - by destruct ok.
  - by destruct ok.
Qed.

(** A late root leaves the queue exactly when it was reached and its edit
    landed, and nothing new enters; with distinct roots the queue rotates, so
    that roots not reached this time come before those whose edit failed, and a
    root that is never edited moves up by the number reached in every pass. *)
Theorem late_roots_fair ok t n attempt :
  let pending := s_LateRoots (slack (rec t)) in
  let after := s_LateRoots (slack (rec (editLateRoots ok t pending n attempt))) in
  (∀ r, r ∈ after ↔ r ∈ pending ∧ ¬ (r ∈ take n pending ∧ attempt r = true)) ∧
  (NoDup pending → after = drop n pending ++ filter (λ r, attempt r = false) (take n pending)).
Proof.
  intros pending after. pose proof (late_roots_eq ok t n attempt : after = _) as Ha.
  clearbody after. fold pending in Ha. subst after. split.
  - intros r. rewrite elem_of_app, !list_elem_of_filter.
    destruct (decide (r ∈ take n pending)) as [Hr|Hr]; destruct (attempt r); naive_solver.
  - intros Hnd. destruct (filter_take_drop n pending Hnd) as [Hd Ht]. rewrite Hd. f_equal.
    transitivity (filter (λ r, attempt r = false) (filter (λ r, r ∈ take n pending) pending)).
    + rewrite list_filter_filter. apply list_filter_iff. naive_solver.
    + by rewrite Ht.
Qed.

(** ** Concrete runs *)

Definition ex_net : option CallError :=
  Some {| budget_exhausted := false; ctx_canceled := false; ctx_deadline := false;
          net_error := None; retryable_status := Some 503%Z; api_status := None;
          response_malformed := false; schema_violation := false; url_error := false |}.

Definition ex_malformed : option CallError :=
  Some {| budget_exhausted := false; ctx_canceled := false; ctx_deadline := false;
          net_error := None; retryable_status := None; api_status := None;
          response_malformed := true; schema_violation := false; url_error := false |}.

Definition ex_content_events : list event :=
  [EvFinish CapabilityAssessment "i1" ex_malformed 1%Z true;
   EvFinish CapabilityAssessment "i2" ex_malformed 2%Z true].

Definition ex_start : system := sys_init 0%Z 0%Z 0%Z.

(** A verdict reached on content evidence does not outlive a dependency
    failure of the same capability: once the failure has replaced the reason,
    another capability's success withdraws the verdict, although the capability
    itself never succeeded. *)
Theorem content_verdict_withdrawn_by_sibling :
  let es := ex_content_events in
  let es' := es ++ [EvFinish CapabilityAssessment "i3" ex_net 3%Z true;
                    EvFinish CapabilityTriageDraft "i4" None 4%Z true] in
  let cap es := caps (sys_t (sys_run ex_start es)) !! CapabilityAssessment in
  (∃ r, cap es = Some r ∧ Healthy r = false ∧ class_of (ReasonCode r) = ClassContent) ∧
  (∃ r, cap es' = Some r ∧ Healthy r = true ∧ LastSuccessAt r = None).
Proof. split; eexists; vm_compute; repeat split. Qed.

Lemma content_needs_two_subjects_witness :
  2 ≤ length ["i1"; "i2"].
Proof.
  destruct (caps (sys_t (sys_run ex_start ex_content_events)) !! CapabilityAssessment) as [r|] eqn:E.
  - pose proof (content_needs_two_subjects 0%Z 0%Z 0%Z ex_content_events CapabilityAssessment r E)
      as (_ & _ & H).
    vm_compute in E. injection E as <-. by apply H.
  - vm_compute in E. discriminate.
Defined.

Definition ex_posted : list event :=
  [EvFinish CapabilityTriageDraft "i1" ex_net 1%Z true; EvPlan (Hour)%Z true].

Definition ex_plan : deliveryPlan :=
  {| p_op := deliverPost; p_down := (Hour - 1)%Z; p_channel := ""; p_ts := "";
     p_generation := 1%Z; p_state := StateUnavailable |}.

Lemma ex_plan_out : sys_out (sys_run ex_start ex_posted) = Some ex_plan.
Proof. vm_compute. reflexivity. Defined.

Lemma accepted_root_is_kept_witness :
  s_TS (slack (rec (sys_t (sys_step (sys_run ex_start ex_posted) (EvApply (SlackOK "C" "1.2") true)))))
  = "1.2".
Proof.
  pose proof (accepted_root_is_kept 0%Z 0%Z 0%Z ex_posted ex_plan "C" "1.2" true ex_plan_out eq_refl) as H.
  destruct H as [(H & _)|[ms H]]; [exact H|].
  vm_compute in H. by apply not_elem_of_nil in H.
Defined.

Lemma success_scope_witness :
  unhealthy (caps (finish true (sys_t (sys_run ex_start ex_posted)) CapabilityAssessment "i2" None 9%Z))
    CapabilityTriageDraft = false.
Proof.
  pose proof (success_scope true (sys_t (sys_run ex_start ex_posted)) CapabilityAssessment "i2" 9%Z
                eq_refl) as [_ H].
  unfold unhealthy. rewrite H by done. vm_compute. reflexivity.
Defined.
