(* ===== verification/BriefingModel.v ===== *)
(** * The operator briefing (internal/situation/model/briefing.go)

    The publication projection a Transition carries: counts, Alerts, selected
    analyses, the recorded work and the material candidates, with the bounds on
    their texts and the fingerprint of an Incident's evidence (SHA-256, in
    hexadecimal, is an argument).  A [WorkPhase] is [None] in a projection older
    than the field. *)

From stdpp Require Import prelude strings list pretty.
From S2P Require Import Prelude SituationModel Schedule ExpectedBehavior.

(** ** Bounded texts *)

(** Bytes are dropped from the end until the rest is text. *)
Fixpoint drop_broken (fuel : nat) (s : string) : string :=
  match fuel with
  | O => s
  | S fuel =>
      if negb (str_eqb s "") && negb (ValidString s)
      then drop_broken fuel (String.substring 0 (String.length s - 1) s)
      else s
  end.

(** Every pass removes a byte, so the length is fuel enough. *)
Definition boundedText (s : string) (limit : nat) : string :=
  if (String.length s <=? limit)%nat then s
  else let cut := String.substring 0 limit s in drop_broken (String.length cut) cut.

Fixpoint bounded_from (limit width n : nat) (l : list string) : list string :=
  match l with
  | [] => []
  | s :: l =>
      if (n =? limit)%nat then []
      else if str_eqb (TrimSpace s) "" then bounded_from limit width n l
      else boundedText s width :: bounded_from limit width (S n) l
  end.
Definition boundedEach (l : list string) (limit width : nat) : list string := bounded_from limit width 0 l.

Definition normalizeEvidenceText (s : string) : string := Join (Fields s) " ".

Definition briefingBound (s : string) (limit : nat) : string :=
  let s := normalizeEvidenceText s in
  if (String.length s <=? limit)%nat then s
  else let cut := String.substring 0 (limit - 3) s in drop_broken (String.length cut) cut +:+ "…".

Definition completeBriefingText (s : string) (limit : nat) : string :=
  let s := normalizeEvidenceText s in
  if (limit <? String.length s)%nat
  then "This evidence detail exceeds the Slack briefing size; the complete text is available via MCP."
  else s.

(** ** Analyses and their evidence *)

Definition AnalysisFindingsBound : nat := 3.
Definition CompletionObservationsBound : nat := 6.

Record IncidentAnalysis : Type := {
  an_EvidenceSummary : string;
  an_IncidentID : string;
  an_Title : string;
  an_Summary : string;
  an_Observations : list string;
  an_Findings : list string;
  an_Verification : string;
  an_VerificationLimit : string;
  an_VerificationNotes : list string;
  an_VerificationGaps : Z;
  an_AnalyzedAt : option Time;
  an_Stale : bool;
  an_EvidenceFingerprint : string
}.

Definition record_separator : string := bytes [30%N].

(** [strconv.Itoa] of a length. *)
Definition len_text (s : string) : string := pretty (Z.of_nat (String.length s)).

Definition observation_frame (o : string) : string :=
  let o := normalizeEvidenceText o in
  if str_eqb o "" then "" else "o" +:+ len_text o +:+ ":" +:+ o +:+ record_separator.
Definition source_frame (fact : string) : string :=
  let fact := normalizeEvidenceText fact in
  if str_eqb fact "" then "" else record_separator +:+ "s:" +:+ len_text fact +:+ ":" +:+ fact.

Definition evidence_text (observations : list string) (verificationLimit : string) (verificationGaps : Z)
    (sourceEvidence : list string) : string :=
  let limit := normalizeEvidenceText verificationLimit in
  String.concat "" (observation_frame <$> observations)
  +:+ "l" +:+ len_text limit +:+ ":" +:+ limit +:+ record_separator +:+ "g:" +:+ pretty verificationGaps
  +:+ String.concat "" (source_frame <$> sourceEvidence).

Definition EvidenceFingerprint (sha : string → string) (observations : list string) (verificationLimit : string)
    (verificationGaps : Z) (sourceEvidence : list string) : string :=
  "sha256:" +:+ sha (evidence_text observations verificationLimit verificationGaps sourceEvidence).

Fixpoint bound_notes (remaining : Z) (notes : list string) : list string :=
  match notes with
  | [] => []
  | n :: notes =>
      let n := completeBriefingText n 2000 in
      if (remaining <? Z.of_nat (String.length n))%Z then ["Additional verification results are available via MCP."]
      else n :: bound_notes (remaining - Z.of_nat (String.length n)) notes
  end.

Definition BoundIncidentAnalysis (a : IncidentAnalysis) : IncidentAnalysis :=
  {| an_EvidenceSummary := an_EvidenceSummary a;
     an_IncidentID := briefingBound (an_IncidentID a) 200;
     an_Title := briefingBound (an_Title a) 180;
     an_Summary := completeBriefingText (an_Summary a) 1500;
     an_Observations := (λ o, completeBriefingText o 1500) <$> take 2 (an_Observations a);
     an_Findings := (λ f, completeBriefingText f 1500)
                      <$> filter (λ f, str_eqb (TrimSpace f) "" = false) (take AnalysisFindingsBound (an_Findings a));
     an_Verification := briefingBound (an_Verification a) 40;
     an_VerificationLimit := briefingBound (an_VerificationLimit a) 100;
     an_VerificationNotes := bound_notes 6000 (an_VerificationNotes a);
     an_VerificationGaps := an_VerificationGaps a;
     an_AnalyzedAt := an_AnalyzedAt a;
     an_Stale := an_Stale a;
     an_EvidenceFingerprint := briefingBound (an_EvidenceFingerprint a) 80 |}.

Record FindingFacts : Type := {
  ff_IncidentID : string;
  ff_Hypothesis : string;
  ff_Observations : list string;
  ff_Unknowns : list string;
  ff_AnalyzedAt : option Time;
  ff_EvidenceFingerprint : string
}.

(** [verificationUnknowns] of situation/briefing.go: the limitation and the gaps
    in the words both paths share. *)
Definition verificationUnknowns (limit : string) (gaps : Z) : list string :=
  (if str_eqb limit "" then [] else [limit])
  ++ (if (0 <? gaps)%Z then [pretty gaps +:+ " verification checks unavailable or invalid"] else []).

(** ** Recorded work *)

Inductive WorkPhase : Set :=
| WorkPhaseCollecting | WorkPhaseAwaitingDecision | WorkPhaseQueued | WorkPhaseExecuting
| WorkPhaseRetryWait | WorkPhaseSettled | WorkPhaseExhausted | WorkPhaseNone.

#[export] Instance WorkPhase_eq_dec : EqDecision WorkPhase.
Proof. solve_decision. Defined.

Definition WorkPhase_text (p : WorkPhase) : string :=
  match p with
  | WorkPhaseCollecting => "collecting"
  | WorkPhaseAwaitingDecision => "awaiting_decision"
  | WorkPhaseQueued => "queued"
  | WorkPhaseExecuting => "executing"
  | WorkPhaseRetryWait => "retry_wait"
  | WorkPhaseSettled => "settled"
  | WorkPhaseExhausted => "exhausted"
  | WorkPhaseNone => "none"
  end.

Record IncidentWorkOutcome : Type := {
  WO_IncidentID : string;
  WO_AttemptID : string;
  WO_Phase : WorkPhase;
  WO_SkipReason : string;
  WO_ResultCode : string;
  WO_CompletedAt : option Time;
  WO_EvidenceKnown : bool;
  WO_Finding : option FindingFacts
}.

Record WorkProjection : Type := {
  WP_Phase : option WorkPhase;
  WP_ExecutionStarted : bool;
  WP_InvestigatedAlertIDs : list string;
  WP_InvestigatedNames : list string;
  WP_InvestigatedCount : Z;
  WP_InvestigatedCountKnown : bool;
  WP_EndedWork : list IncidentWorkOutcome;
  WP_EndedWorkKnown : bool;
  WP_RemainingIncidents : Z;
  WP_SkipReason : string;
  WP_QueuedEligibleAt : option Time;
  WP_QueuedEligibilityKnown : bool;
  WP_RetryEligibleAt : option Time;
  WP_SourceGraceUntil : option Time;
  WP_StatusCheckpointAt : option Time
}.

(** ** The briefing *)

Record BriefingAlert : Type := {
  al_ID : string;
  al_Name : string;
  al_Service : string;
  al_Context : string;
  al_State : string;
  al_SourceSummary : string
}.

Record AnalysisUsage : Type := {
  us_Calls : Z;
  us_CallsKnown : bool;
  us_InputTokens : Z;
  us_InputTokensKnown : bool;
  us_OutputTokens : Z;
  us_OutputTokensKnown : bool
}.

Inductive SourceCheckOutcome : Set :=
| SourceCheckConfigured | SourceCheckReturned | SourceCheckEmpty | SourceCheckFailed | SourceCheckSkipped.

Record SourceCheck : Type := {
  sc_Kind : string;
  sc_QueryScope : string;
  sc_QueryExpr : string;
  sc_Source : string;
  sc_Check : string;
  sc_Unit : string;
  sc_Outcome : SourceCheckOutcome;
  sc_Calls : Z;
  sc_CallsKnown : bool;
  sc_Records : Z;
  sc_RecordsKnown : bool;
  sc_Detail : string
}.

Record OperatorFlow : Type := {
  fl_FirstReceivedAt : Time;
  fl_CorrelationOpenedAt : Time;
  fl_CorrelationClosesAt : option Time;
  fl_GroupKey : string;
  fl_GroupingRule : string;
  fl_InvestigationStartedAt : option Time;
  fl_InvestigationCompletedAt : option Time;
  fl_InvestigationRuntimeSeconds : option Z;
  fl_AnalysisUsage : AnalysisUsage;
  fl_SourceChecks : list SourceCheck
}.

Record ExpectedJudgmentProjection : Type := {
  jp_Revision : Z;
  jp_AssertedOperator : string;
  jp_ValidUntil : Time
}.

Record ExpectedBehaviorProjection : Type := {
  bp_EnvelopeID : string;
  bp_Version : Z;
  bp_AssertedOperator : string;
  bp_Workload : string;
  bp_Disposition : ExpectedBehaviorDisposition;
  bp_Reason : ExpectedBehaviorReason;
  bp_Boundary : option Time;
  bp_Source : string
}.

Record OperatorBriefing : Type := {
  br_Flow : option OperatorFlow;
  br_BlockedReason : string;
  br_AssessmentRetryAt : option Time;
  br_Scope : string;
  br_DisplayScope : string;
  br_Alerts : list BriefingAlert;
  br_AlertsOmitted : Z;
  br_RetryAt : option Time;
  br_Symptoms : list string;
  br_Firing : Z;
  br_Resolved : Z;
  br_Unknown : Z;
  br_Total : Z;
  br_Critical : Z;
  br_AnalysisCount : Z;
  br_Failed : Z;
  br_Pending : Z;
  br_Unavailable : Z;
  br_Analyses : list IncidentAnalysis;
  br_Historical : bool;
  br_ExpectedJudgment : option ExpectedJudgmentProjection;
  br_ExpectedBehavior : option ExpectedBehaviorProjection;
  br_Work : WorkProjection
}.

(** ** Material candidates *)

Inductive CandidateKind : Set :=
| CandidateFirstExecutionAssurance
| CandidateUsefulFinding
| CandidateInconclusiveCompletion
| CandidateMembersChanged
| CandidateAbilityChanged
| CandidateActionChanged
| CandidateAllClear
| CandidateRefire
| CandidateTerminalEnd.

#[export] Instance CandidateKind_eq_dec : EqDecision CandidateKind.
Proof. solve_decision. Defined.

Inductive NextStepKind : Set :=
| NextStepStatusCheck | NextStepRetryEligible | NextStepGraceDeadline | NextStepWorkEnded | NextStepTrackingEnded.

Record MemberFacts : Type := {
  mf_Cleared : list string;
  mf_NowFiring : list string;
  mf_StillFiring : list string;
  mf_FiringCount : Z;
  mf_Total : Z;
  mf_CountKnown : bool;
  mf_PreviousScope : string;
  mf_Scope : string;
  mf_PreviousUrgency : string;
  mf_Urgency : string
}.

Record LimitationFacts : Type := { lf_Code : string; lf_Cleared : bool }.

Definition LimitationInvestigationUnavailable : string := "investigation_unavailable".

Record ActionFacts : Type := {
  af_Introduced : bool;
  af_Revised : bool;
  af_Withdrawn : bool;
  af_Action : OperatorAction
}.

(** [None] is the empty kind. *)
Record NextStepFacts : Type := { ns_Kind : option NextStepKind; ns_At : option Time }.

Record MaterialCandidate : Type := {
  mc_Kind : CandidateKind;
  mc_Finding : option FindingFacts;
  mc_Members : option MemberFacts;
  mc_Limitation : option LimitationFacts;
  mc_Action : option ActionFacts;
  mc_Next : NextStepFacts;
  mc_Outcome : option IncidentWorkOutcome
}.

Record OperatorDelta : Type := {
  od_StateChanged : bool;
  od_PreviousFiring : Z;
  od_PreviousTotal : Z;
  od_ScopeChanged : bool;
  od_PreviousScope : string;
  od_SymptomsChanged : bool;
  od_PreviousSymptoms : list string;
  od_ClearedAlerts : list string;
  od_NewFiringAlerts : list string;
  od_Analyses : list IncidentAnalysis;
  od_AnalysisFailed : bool;
  od_AttentionIncreased : bool;
  od_HumanRequestChanged : bool;
  od_AbilityLost : bool;
  od_Candidates : list MaterialCandidate
}.

(** ** Lemmas: bounded texts *)

Lemma substring_prefix n s : ∃ rest, s = String.substring 0 n s +:+ rest ∧ String.length (String.substring 0 n s) = Nat.min n (String.length s).
Proof.
  revert s. induction n as [|n IH]; intros s; [exists s; split; [by destruct s|by destruct s]|].
  destruct s as [|c s]; [exists ""; done|].
  destruct (IH s) as (rest & Hs & Hl). exists rest. cbn [String.substring String.length].
  split; [|by rewrite Hl]. change (String c s = String c (String.substring 0 n s +:+ rest)). by f_equal.
Qed.

Lemma drop_broken_prefix fuel s : ∃ rest, s = drop_broken fuel s +:+ rest.
Proof.
  revert s. induction fuel as [|fuel IH]; intros s; cbn [drop_broken]; [by exists ""; rewrite string_app_nil|].
  destruct (_ && _); [|by exists ""; rewrite string_app_nil].
  destruct (substring_prefix (String.length s - 1) s) as (r1 & E1 & _).
  destruct (IH (String.substring 0 (String.length s - 1) s)) as [r2 E2].
  exists (r2 +:+ r1). rewrite <- string_app_assoc, <- E2. exact E1.
Qed.

Lemma drop_broken_length fuel s : String.length (drop_broken fuel s) ≤ String.length s.
Proof. destruct (drop_broken_prefix fuel s) as [r E]. rewrite E at 2. rewrite string_app_length. lia. Qed.

(** A bounded text keeps its bound. *)
Lemma boundedText_length s limit : String.length (boundedText s limit) ≤ limit.
Proof.
  unfold boundedText. destruct (Nat.leb_spec (String.length s) limit) as [|H]; [done|].
  etrans; [apply drop_broken_length|]. destruct (substring_prefix limit s) as (_ & _ & ->). lia.
Qed.

Lemma boundedText_id s limit : String.length s ≤ limit → boundedText s limit = s.
Proof. intros H. unfold boundedText. by rewrite (proj2 (Nat.leb_le _ _) H). Qed.

Lemma string_prefix_split p s r r' :
  p +:+ r = s +:+ r' → String.length p ≤ String.length s → ∃ m, s = p +:+ m.
Proof.
  revert s. induction p as [|c p IH]; intros s E Hl; [by exists s|].
  destruct s as [|d s]; [cbn in Hl; lia|]. cbn in E. injection E as -> E.
  destruct (IH s E) as [m ->]; [cbn in Hl; lia|]. by exists m.
Qed.

(** Dropping stops at the latest at a prefix that is text. *)
Lemma drop_broken_keeps fuel p r :
  ValidString p = true → ∃ m, drop_broken fuel (p +:+ r) = p +:+ m.
Proof.
  intros Hp. revert r. induction fuel as [|fuel IH]; intros r; cbn [drop_broken]; [by exists r|].
  destruct (negb (str_eqb (p +:+ r) "") && negb (ValidString (p +:+ r))) eqn:E; [|by exists r].
  apply andb_true_iff in E as [_ Ev]. apply negb_true_iff in Ev.
  destruct (substring_prefix (String.length (p +:+ r) - 1) (p +:+ r)) as (rest & Es & El).
  assert (Hr : r ≠ "") by (intros ->; rewrite string_app_nil, Hp in Ev; discriminate).
  assert (String.length p ≤ String.length (String.substring 0 (String.length (p +:+ r) - 1) (p +:+ r))) as Hle.
  { rewrite El, string_app_length. destruct r; [done|]. cbn. lia. }
  destruct (string_prefix_split p _ r rest Es Hle) as [m ->]. apply IH.
Qed.

Lemma boundedText_keeps p r limit :
  ValidString p = true → String.length p ≤ limit → ∃ m, boundedText (p +:+ r) limit = p +:+ m.
Proof.
  intros Hp Hl. unfold boundedText. destruct (Nat.leb_spec (String.length (p +:+ r)) limit) as [|H]; [by exists r|].
  destruct (substring_prefix limit (p +:+ r)) as (rest & Es & El).
  destruct (string_prefix_split p (String.substring 0 limit (p +:+ r)) r rest Es) as [m ->].
  { rewrite El, string_app_length in *. lia. }
  by apply drop_broken_keeps.
Qed.
