(* ===== verification/TriageGate.v ===== *)
(** * The Acute Triage gate (internal/situation)

    [triage.go]: which Incidents need a decision, and the request or skip each
    gets.  [controller.go]: the phase an Incident's schedule will have once the
    decisions of a cycle are committed, the due times, and the work projection
    shown to Operators.

    The coverage digests are [Snapshot]'s, over the same two canonical digests;
    [sha] is SHA-256 in hexadecimal. *)

From Stdlib Require Import Btauto.
From stdpp Require Import prelude strings list gmap sorting.
From S2P Require Import Prelude SituationModel Snapshot Lifecycle Assessment BriefingModel.

(** ** Decisions *)

Definition TriageDecisionRequest : string := "request".
Definition TriageDecisionSkip : string := "skip".

Definition DecisionReasonNoTrustworthyAssessment : string := "no_trustworthy_assessment".
Definition DecisionReasonAssessmentNotTrustworthy : string := "assessment_not_trustworthy".
Definition DecisionReasonMaterialFactHashChanged : string := "material_fact_hash_changed".
Definition DecisionReasonIncidentNotCovered : string := "incident_not_covered_by_assessment".
Definition DecisionReasonMembershipDigestChanged : string := "membership_digest_changed".
Definition DecisionReasonIncidentInputChanged : string := "incident_input_digest_changed".
Definition DecisionReasonMembershipOrInputRefresh : string := "membership_or_input_refresh".
Definition DecisionReasonCleanSkip : string := "clean_skip_unchanged_coverage".
Definition DecisionReasonNoMatchingInvestigation : string := "no_matching_accepted_investigation".
Definition DecisionReasonEligibilityPolicyMinimumMembers : string :=
  "eligibility_policy_minimum_members".

Record TriageDecision : Type := {
  TD_IncidentID : string;
  TD_Decision : string;
  TD_DecisionReason : string;
  TD_SituationID : string;
  TD_SituationInputVersion : Z;
  TD_CoveredAssessmentID : option string;
  TD_MaterialFactHash : string;
  TD_MembershipDigest : string;
  TD_IncidentInputDigest : string;
  TD_DecidedAt : Time
}.

Definition opt_is (o : option string) (s : string) : bool :=
  match o with Some x => str_eqb x s | None => false end.

(** Whether the Incident needs a decision, and whether that is a refresh. *)
Definition needsTriageDecision (inc : IncidentState) (currentMembership currentInputDigest : string)
    : bool * bool :=
  let t := Incident_Triage inc in
  if str_eqb (TS_Phase t) "awaiting_decision" then (true, false)
  else if str_eqb (TS_Phase t) "pending" || str_eqb (TS_Phase t) "backoff" then
    if negb (opt_is (TS_MembershipDigest t) currentMembership)
       || negb (opt_is (TS_IncidentInputDigest t) currentInputDigest) then (true, true)
    else (false, false)
  else (false, false).

Definition findIncidentCoverage (cov : list IncidentCoverage) (incidentID : string)
    : option IncidentCoverage := find (λ c, str_eqb (IC_IncidentID c) incidentID) cov.

(** The deliveries an attempt claimed, found among the current ones, and the
    claimed IDs still missing. *)
Definition claim_step (inc : string) (acc : gset string * list Delivery) (d : Delivery)
    : gset string * list Delivery :=
  let '(wanted, claimed) := acc in
  if str_eqb (Delivery_IncidentID d) inc && bool_decide (Delivery_ID d ∈ wanted)
  then (wanted ∖ {[ Delivery_ID d ]}, claimed ++ [d]) else acc.

Definition useful (e : TriageCompletionEvidence) : bool :=
  negb (str_eqb (TrimSpace (Evidence_Hypothesis e)) "")
  || existsb (λ o, negb (str_eqb (TrimSpace o) "")) (Evidence_Observations e).

Section gate.
Context (mdigest : membershipDigestDTO → string) (idigest : incidentInputDigestDTO → string).

Definition acceptedInvestigationCovers (inc : IncidentState) (deliveries : list Delivery)
    (membership input : string) : bool :=
  match TS_LastExecution (Incident_Triage inc) with
  | None => false
  | Some e =>
      match TE_CompletedAt e, TE_Evidence e with
      | Some _, Some ev =>
          if str_eqb (TE_AttemptID e) "" || negb (str_eqb (TE_ResultCode e) "success")
             || str_eqb (TE_OutputDigest e) ""
             || (length (TE_MemberDeliveryIDs e) =? 0)%nat then false
          else if negb (useful ev) then false
          else
            let '(wanted, claimed) :=
              foldl (claim_step (Incident_ID inc)) (list_to_set (TE_MemberDeliveryIDs e), [])
                deliveries in
            bool_decide (wanted = ∅)
            && str_eqb (MembershipDigest mdigest (Incident_ID inc) claimed) membership
            && str_eqb (IncidentInputDigest mdigest idigest (Incident_ID inc)
                          (Incident_GroupKey inc) claimed) input
      | _, _ => false
      end
  end.

(** The decision, its reason, and the Assessment that covers a skip. *)
Definition decideOne (inc : IncidentState) (currentMembership currentInputDigest : string)
    (snap : Snapshot) (inp : SnapshotInput) (current : option AuthoritativeAssessment)
    (refresh : bool) : string * string * option string :=
  let request reason := (TriageDecisionRequest, reason, None) in
  if refresh then request DecisionReasonMembershipOrInputRefresh
  else match current with
  | None => request DecisionReasonNoTrustworthyAssessment
  | Some prior =>
  match trustworthy prior with
  | Some _ => request DecisionReasonAssessmentNotTrustworthy
  | None =>
  if negb (str_eqb (AA_MaterialFactHash prior) (Snap_MaterialFactHash snap)) then
    request DecisionReasonMaterialFactHashChanged
  else match findIncidentCoverage (AA_Coverage prior) (Incident_ID inc) with
  | None => request DecisionReasonIncidentNotCovered
  | Some cov =>
  if negb (str_eqb (IC_MembershipDigest cov) currentMembership) then
    request DecisionReasonMembershipDigestChanged
  else if negb (str_eqb (IC_IncidentInputDigest cov) currentInputDigest) then
    request DecisionReasonIncidentInputChanged
  else if negb (acceptedInvestigationCovers inc (Deliveries inp) currentMembership
                  currentInputDigest) then
    request DecisionReasonNoMatchingInvestigation
  else (TriageDecisionSkip, DecisionReasonCleanSkip, Some (AA_ID prior))
  end end end.

(** What the loop appends for one Incident. *)
Definition decide_incident (snap : Snapshot) (inp : SnapshotInput)
    (current : option AuthoritativeAssessment) (now : Time) (inc : IncidentState)
    : option TriageDecision :=
  let membership := MembershipDigest mdigest (Incident_ID inc) (Deliveries inp) in
  let inputDigest :=
    IncidentInputDigest mdigest idigest (Incident_ID inc) (Incident_GroupKey inc) (Deliveries inp) in
  let '(needs, refresh) := needsTriageDecision inc membership inputDigest in
  if negb needs then None
  else
    let '(decision, reason, covered) :=
      decideOne inc membership inputDigest snap inp current refresh in
    Some {| TD_IncidentID := Incident_ID inc; TD_Decision := decision;
            TD_DecisionReason := reason; TD_SituationID := Snap_SituationID snap;
            TD_SituationInputVersion := Snap_InputVersion snap;
            TD_CoveredAssessmentID := covered;
            TD_MaterialFactHash := Snap_MaterialFactHash snap;
            TD_MembershipDigest := membership; TD_IncidentInputDigest := inputDigest;
            TD_DecidedAt := now |}.

Definition DecideTriage (snap : Snapshot) (inp : SnapshotInput)
    (current : option AuthoritativeAssessment) (now : Time) : list TriageDecision :=
  omap (decide_incident snap inp current now) (Snap_Incidents snap).
End gate.

(** ** Phases after the decisions *)

Definition decisionsByIncident (decisions : list TriageDecision) : gmap string TriageDecision :=
  foldl (λ m d, <[TD_IncidentID d := d]> m) ∅ decisions.

Definition effectiveTriagePhase (inc : IncidentState) (decisions : gmap string TriageDecision)
    : string :=
  let phase := TS_Phase (Incident_Triage inc) in
  if negb (str_eqb phase "awaiting_decision") then phase
  else match decisions !! Incident_ID inc with
  | None => phase
  | Some d =>
      if str_eqb (TD_Decision d) TriageDecisionRequest then "pending"
      else if str_eqb (TD_Decision d) TriageDecisionSkip then "skipped"
      else phase
  end.

(** The due time an Incident contributes. *)
Definition incident_due (byIncident : gmap string TriageDecision) (now : Time)
    (inc : IncidentState) : option Time :=
  let t := Incident_Triage inc in
  if str_eqb (TS_Phase t) "awaiting_decision"
     && match byIncident !! Incident_ID inc with
        | Some d => str_eqb (TD_Decision d) TriageDecisionRequest
        | None => false
        end then Some now
  else
    let phase := effectiveTriagePhase inc byIncident in
    if str_eqb phase "pending" || str_eqb phase "backoff" then
      Some match TS_NextAt t with Some at_ => at_ | None => now end
    else None.

Definition consider (now : Time) (acc : option Time * option Time) (t : Time)
    : option Time * option Time :=
  let '(earliest, future) := acc in
  (match earliest with
   | Some e => if Before t e then Some t else Some e
   | None => Some t
   end,
   if After t now
   then match future with
        | Some f => if Before t f then Some t else Some f
        | None => Some t
        end
   else future).

(** The earliest due time and the earliest one ahead of [now]. *)
Definition triageDueTimes (incidents : list IncidentState) (decisions : list TriageDecision)
    (now : Time) : option Time * option Time :=
  let byIncident := decisionsByIncident decisions in
  foldl (λ acc inc, match incident_due byIncident now inc with
                    | Some t => consider now acc t
                    | None => acc
                    end) (None, None) incidents.

Definition aggregateTriagePhase (incidents : list IncidentState) (decisions : list TriageDecision)
    : TriagePhase :=
  let byIncident := decisionsByIncident decisions in
  let has ps :=
    existsb (λ inc, existsb (str_eqb (effectiveTriagePhase inc byIncident)) ps) incidents in
  if has ["in_flight"] then TriagePhaseInFlight
  else if has ["awaiting_decision"; "pending"] then TriagePhaseAwaitingDecision
  else if has ["backoff"] then TriagePhaseBackoff
  else TriagePhaseNone.

(** ** The work projection *)

Definition workPhaseOf (rawPhase : string) : WorkPhase :=
  if str_eqb rawPhase "" then WorkPhaseCollecting
  else if str_eqb rawPhase "awaiting_decision" then WorkPhaseAwaitingDecision
  else if str_eqb rawPhase "pending" then WorkPhaseQueued
  else if str_eqb rawPhase "in_flight" then WorkPhaseExecuting
  else if str_eqb rawPhase "backoff" then WorkPhaseRetryWait
  else if str_eqb rawPhase "skipped" then WorkPhaseSettled
  else if str_eqb rawPhase "exhausted" then WorkPhaseExhausted
  else WorkPhaseNone.

Definition aggregateWorkPhase (phases : list WorkPhase) (executionStarted : bool) : WorkPhase :=
  let has p := existsb (λ ph, bool_decide (ph = p)) phases in
  if has WorkPhaseExecuting then WorkPhaseExecuting
  else if has WorkPhaseQueued && executionStarted then WorkPhaseQueued
  else if has WorkPhaseRetryWait then WorkPhaseRetryWait
  else if has WorkPhaseQueued then WorkPhaseQueued
  else if has WorkPhaseAwaitingDecision then WorkPhaseAwaitingDecision
  else if has WorkPhaseExhausted then WorkPhaseExhausted
  else if has WorkPhaseSettled then WorkPhaseSettled
  else if has WorkPhaseCollecting then WorkPhaseCollecting
  else WorkPhaseNone.

Definition TriageSkipReason (t : TriageState) : string :=
  if negb (str_eqb (TS_Phase t) "skipped") then ""
  else match TS_DecisionReason t with
  | None => ""
  | Some r =>
      if str_eqb r DecisionReasonCleanSkip then "prior_coverage"
      else if str_eqb r DecisionReasonEligibilityPolicyMinimumMembers then "eligibility_policy"
      else ""
  end.

(** The finding an accepted attempt recorded; its fingerprint is taken before
    the bounds. *)
Definition completion_finding (sha : string → string) (incidentID : string) (ev : TriageCompletionEvidence) : FindingFacts :=
  {| ff_IncidentID := incidentID;
     ff_Hypothesis := boundedText (Evidence_Hypothesis ev) 500;
     ff_Observations := boundedEach (Evidence_Observations ev) CompletionObservationsBound 400;
     ff_Unknowns := verificationUnknowns (Evidence_VerificationLimit ev) (Evidence_VerificationGaps ev);
     ff_AnalyzedAt := Evidence_JudgedAt ev;
     ff_EvidenceFingerprint := EvidenceFingerprint sha (Evidence_Observations ev) (Evidence_VerificationLimit ev)
                                 (Evidence_VerificationGaps ev) (Evidence_SourceEvidence ev) |}.

Definition incidentWorkOutcome (sha : string → string) (inc : IncidentState) (phase : WorkPhase) : IncidentWorkOutcome :=
  let mk a r c f :=
    {| WO_IncidentID := Incident_ID inc; WO_AttemptID := a; WO_Phase := phase;
       WO_SkipReason := TriageSkipReason (Incident_Triage inc); WO_ResultCode := r; WO_CompletedAt := c;
       WO_EvidenceKnown := match f with Some _ => true | None => false end; WO_Finding := f |} in
  match TS_LastExecution (Incident_Triage inc) with
  | Some exec =>
      match TE_CompletedAt exec with
      | Some c => mk (TE_AttemptID exec) (TE_ResultCode exec) (Some c)
                    (completion_finding sha (Incident_ID inc) <$> TE_Evidence exec)
      | None => mk "" "" None None
      end
  | None => mk "" "" None None
  end.

(** An analyzed Incident without a schedule is settled. *)
Definition incident_phase (inc : IncidentState) : WorkPhase :=
  if str_eqb (TS_Phase (Incident_Triage inc)) "" && str_eqb (Incident_Status inc) "analyzed"
  then WorkPhaseSettled else workPhaseOf (TS_Phase (Incident_Triage inc)).

Definition execution_started (inc : IncidentState) : bool :=
  let t := Incident_Triage inc in
  (0 <? TS_Attempts t)%Z
  || match TS_LastExecution t with Some _ => true | None => false end
  || match TS_ActiveAttempt t with Some _ => true | None => false end.

(** The loop's variables. *)
Record projection_acc : Type := {
  pa_phases : list WorkPhase;
  pa_started : bool;
  pa_remaining : Z;
  pa_skip : string;
  pa_retry : option Time;
  pa_queued : option Time;
  pa_ended : list IncidentWorkOutcome
}.

Definition earlier (cur next : option Time) : option Time :=
  match next with
  | None => cur
  | Some t => match cur with
              | None => Some t
              | Some c => if Before t c then Some t else Some c
              end
  end.

Definition outstanding (p : WorkPhase) : bool :=
  match p with
  | WorkPhaseQueued | WorkPhaseAwaitingDecision | WorkPhaseExecuting | WorkPhaseRetryWait => true
  | _ => false
  end.

Definition ended_phase (p : WorkPhase) : bool :=
  match p with WorkPhaseSettled | WorkPhaseExhausted => true | _ => false end.

Definition project_incident (sha : string → string) (acc : projection_acc) (inc : IncidentState) : projection_acc :=
  let t := Incident_Triage inc in
  let phase := incident_phase inc in
  {| pa_phases := pa_phases acc ++ [phase];
     pa_started := pa_started acc || execution_started inc;
     pa_remaining := (if outstanding phase then pa_remaining acc + 1 else pa_remaining acc)%Z;
     pa_skip := if bool_decide (phase = WorkPhaseSettled) && str_eqb (pa_skip acc) ""
                then TriageSkipReason t else pa_skip acc;
     pa_retry := if bool_decide (phase = WorkPhaseRetryWait) then earlier (pa_retry acc) (TS_NextAt t)
                 else pa_retry acc;
     pa_queued := if bool_decide (phase = WorkPhaseQueued) then earlier (pa_queued acc) (TS_NextAt t)
                  else pa_queued acc;
     pa_ended := if ended_phase phase then pa_ended acc ++ [incidentWorkOutcome sha inc phase]
                 else pa_ended acc |}.

Definition projection_zero : projection_acc :=
  {| pa_phases := []; pa_started := false; pa_remaining := 0%Z; pa_skip := ""; pa_retry := None;
     pa_queued := None; pa_ended := [] |}.

(** [sort.Slice] on distinct Incident IDs has one result. *)
Definition BuildWorkProjection (sha : string → string) (incidents : list IncidentState)
    (graceUntil statusCheckpointAt : option Time) : WorkProjection :=
  let acc := foldl (project_incident sha) projection_zero incidents in
  {| WP_Phase := Some (aggregateWorkPhase (pa_phases acc) (pa_started acc));
     WP_ExecutionStarted := pa_started acc;
     WP_InvestigatedAlertIDs := []; WP_InvestigatedNames := []; WP_InvestigatedCount := 0;
     WP_InvestigatedCountKnown := false;
     WP_EndedWork := SliceStable (skey_ltb WO_IncidentID) (pa_ended acc);
     WP_EndedWorkKnown := true;
     WP_RemainingIncidents := pa_remaining acc;
     WP_SkipReason := pa_skip acc;
     WP_QueuedEligibleAt := pa_queued acc;
     WP_QueuedEligibilityKnown := true;
     WP_RetryEligibleAt := pa_retry acc;
     WP_SourceGraceUntil := graceUntil;
     WP_StatusCheckpointAt := statusCheckpointAt |}.

(** ** The controller's state before an Assessment is derived *)

Definition buildControllerState (tempo : CadenceTempo) (snap : Snapshot) (inp : SnapshotInput)
    (lc : lifecycleResolution) (decisions : list TriageDecision) (now : Time) : ControllerState :=
  let deadline :=
    if negb (Terminal (lr_Lifecycle lc)) then
      let d := ObservationDeadlineAt (EffectiveStartedAt (In_Situation inp)) (Snap_DurationClass snap) in
      if Before now d then Some d else None
    else None in
  let '(due, future) := triageDueTimes (Snap_Incidents snap) decisions now in
  {| CS_Lifecycle := Lifecycle_other ""; CS_Attention := Attention_other "";
     CS_OperatorActionRequired := None;
     CS_TriagePhase := aggregateTriagePhase (Snap_Incidents snap) decisions;
     CS_SemanticRetry := SemanticRetryPhaseNone; CS_Tempo := tempo;
     TriageDueAt := due; FutureTriageDueAt := future; SemanticRetryAt := None;
     RecoveryGraceUntil := lr_GraceUntil lc; LifecycleObservationDeadlineAt := deadline;
     EarliestPersistedCheckpoint := None |}.

(** ** Specifications *)

(** The Incident's latest execution is an accepted, useful investigation of
    deliveries that still have the given digests. *)
Definition investigated (md : membershipDigestDTO → string) (idg : incidentInputDigestDTO → string)
    (inc : IncidentState) (ds : list Delivery) (membership input : string) : Prop :=
  ∃ e ev at_, TS_LastExecution (Incident_Triage inc) = Some e ∧
    TE_CompletedAt e = Some at_ ∧ TE_Evidence e = Some ev ∧ useful ev = true ∧
    TE_AttemptID e ≠ "" ∧ TE_ResultCode e = "success" ∧ TE_OutputDigest e ≠ "" ∧
    TE_MemberDeliveryIDs e ≠ [] ∧
    let claimed := filter (λ d, Delivery_IncidentID d = Incident_ID inc ∧
                                Delivery_ID d ∈ TE_MemberDeliveryIDs e) ds in
    (∀ id, id ∈ TE_MemberDeliveryIDs e → id ∈ (Delivery_ID <$> claimed)) ∧
    MembershipDigest md (Incident_ID inc) claimed = membership ∧
    IncidentInputDigest md idg (Incident_ID inc) (Incident_GroupKey inc) claimed = input.

(** [prior] is trustworthy and covers the Incident as it is now. *)
Definition covers (prior : AuthoritativeAssessment) (snap : Snapshot) (inc : IncidentState)
    (membership input : string) : Prop :=
  trustworthy prior = None ∧ AA_MaterialFactHash prior = Snap_MaterialFactHash snap ∧
  ∃ cov, findIncidentCoverage (AA_Coverage prior) (Incident_ID inc) = Some cov ∧
    IC_MembershipDigest cov = membership ∧ IC_IncidentInputDigest cov = input.

(** ** Lemmas: the gate *)

Lemma claim_steps inc ds W C :
  NoDup (Delivery_ID <$> ds) →
  foldl (claim_step inc) (W, C) ds =
  (W ∖ list_to_set (Delivery_ID <$> filter (λ d, Delivery_IncidentID d = inc) ds),
   C ++ filter (λ d, Delivery_IncidentID d = inc ∧ Delivery_ID d ∈ W) ds).
Proof.
  revert W C. induction ds as [|d ds IH]; intros W C.
  { intros _. simpl. f_equal; [set_solver|by rewrite app_nil_r]. }
  rewrite fmap_cons. intros [Hd Hnd]%NoDup_cons. cbn [foldl].
  assert (Hids : ∀ x, x ∈ ds → Delivery_ID x ≠ Delivery_ID d).
  { intros x Hx Heq. apply Hd. rewrite <- Heq. by apply list_elem_of_fmap_2. }
  unfold claim_step at 2.
  destruct (str_eqb (Delivery_IncidentID d) inc) eqn:E; go_bool; cbn [andb].
  - destruct (decide (Delivery_ID d ∈ W)) as [Hw|Hw].
    + rewrite bool_decide_eq_true_2 by done. rewrite IH by done.
      rewrite !filter_cons_True by done. rewrite fmap_cons, list_to_set_cons, <- app_assoc. f_equal; [set_solver|].
      simpl. do 2 f_equal. apply filter_ext_in. intros x Hx.
      specialize (Hids x Hx). set_solver.
    + rewrite bool_decide_eq_false_2 by done. rewrite IH by done.
      rewrite filter_cons_True by done. rewrite filter_cons_False by tauto.
      rewrite fmap_cons, list_to_set_cons. f_equal. set_solver.
  - rewrite IH by done. by rewrite !filter_cons_False by tauto.
Qed.

Lemma acceptedInvestigation_iff md idg inc ds m i :
  NoDup (Delivery_ID <$> ds) →
  acceptedInvestigationCovers md idg inc ds m i = true ↔ investigated md idg inc ds m i.
Proof.
  intros Hnd. unfold acceptedInvestigationCovers, investigated.
  destruct (TS_LastExecution (Incident_Triage inc)) as [e|];
    [|split; [done|intros (? & ? & ? & [=] & _)]].
  destruct (TE_CompletedAt e) as [c|] eqn:Ec;
    [|split; [done|intros (? & ? & ? & [= <-] & ? & _); congruence]].
  destruct (TE_Evidence e) as [ev|] eqn:Ee;
    [|split; [done|intros (? & ? & ? & [= <-] & _ & ? & _); congruence]].
  rewrite claim_steps by done. rewrite app_nil_l.
  rewrite (filter_ext_in (λ d, Delivery_IncidentID d = Incident_ID inc
                               ∧ Delivery_ID d ∈ list_to_set (C:=gset string) (TE_MemberDeliveryIDs e))
             (λ d, Delivery_IncidentID d = Incident_ID inc ∧ Delivery_ID d ∈ TE_MemberDeliveryIDs e))
    by (intros x _; by rewrite elem_of_list_to_set).
  set (claimed := filter (λ d, Delivery_IncidentID d = Incident_ID inc
                               ∧ Delivery_ID d ∈ TE_MemberDeliveryIDs e) ds).
  assert (Hset : list_to_set (C:=gset string) (TE_MemberDeliveryIDs e)
                   ∖ list_to_set (Delivery_ID <$> filter (λ d, Delivery_IncidentID d = Incident_ID inc) ds) = ∅
                 ↔ ∀ id, id ∈ TE_MemberDeliveryIDs e → id ∈ (Delivery_ID <$> claimed)).
  { rewrite set_eq. setoid_rewrite elem_of_difference. setoid_rewrite elem_of_list_to_set.
    setoid_rewrite list_elem_of_fmap. subst claimed. setoid_rewrite list_elem_of_filter. split.
    - intros H id Hid. destruct (decide (id ∈ Delivery_ID <$> filter (λ d, Delivery_IncidentID d = Incident_ID inc) ds)) as [Hin|Hn].
      + apply list_elem_of_fmap in Hin as (d & -> & [? ?]%list_elem_of_filter). eauto.
      + exfalso. apply (not_elem_of_empty (C:=gset string) id), H. split; [done|].
        intros (d & -> & [? ?]). apply Hn, list_elem_of_fmap. exists d. rewrite list_elem_of_filter. done.
    - intros H id. split; [|set_solver]. intros [Hid Hn]. destruct (H id Hid) as (d & -> & ?).
      exfalso. apply Hn. naive_solver. }
  destruct (str_eqb (TE_AttemptID e) "") eqn:E1, (str_eqb (TE_ResultCode e) "success") eqn:E2,
    (str_eqb (TE_OutputDigest e) "") eqn:E3; go_bool; cbn [negb orb];
    try (split; [done|intros (? & ? & ? & [= <-] & _ & _ & _ & ? & ? & ? & _); congruence]).
  destruct (length (TE_MemberDeliveryIDs e) =? 0)%nat eqn:E4.
  { apply Nat.eqb_eq, length_zero_iff_nil in E4.
    split; [done|intros (? & ? & ? & [= <-] & _ & _ & _ & _ & _ & _ & ? & _); congruence]. }
  apply Nat.eqb_neq in E4.
  destruct (useful ev) eqn:Eu; cbn [negb];
    [|split; [done|intros (? & ? & ? & [= <-] & _ & ? & ? & _); congruence]].
  rewrite !andb_true_iff, bool_decide_eq_true. rewrite Hset. unfold str_eqb. rewrite !String.eqb_eq.
  split.
  - intros [[? ?] ?]. exists e, ev, c. split_and!; try done. intros Hm. apply E4. by rewrite Hm.
  - intros (? & ? & ? & [= <-] & _ & _ & _ & _ & _ & _ & _ & H). tauto.
Qed.

Lemma decideOne_cases md idg inc m i snap inp cur :
  let covered := ∃ prior, cur = Some prior ∧ covers prior snap inc m i ∧
                   acceptedInvestigationCovers md idg inc (Deliveries inp) m i = true in
  ∃ reason, (∃ prior, cur = Some prior ∧ covered ∧
               decideOne md idg inc m i snap inp cur false
               = (TriageDecisionSkip, DecisionReasonCleanSkip, Some (AA_ID prior))) ∨
            (¬ covered ∧
               decideOne md idg inc m i snap inp cur false = (TriageDecisionRequest, reason, None)).
Proof.
  intros covered. subst covered. unfold covers, decideOne.
  destruct cur as [prior|]; [|eexists; right; split; [|reflexivity]; naive_solver].
  destruct (trustworthy prior) eqn:Et; [eexists; right; split; [|reflexivity]; naive_solver|].
  destruct (str_eqb (AA_MaterialFactHash prior) _) eqn:Eh; go_bool; cbn [negb];
    [|eexists; right; split; [|reflexivity]; naive_solver].
  destruct (findIncidentCoverage _ _) as [cov|] eqn:Ec;
    [|eexists; right; split; [|reflexivity]; naive_solver].
  destruct (str_eqb (IC_MembershipDigest cov) m) eqn:Em; go_bool; cbn [negb];
    [|eexists; right; split; [|reflexivity]; naive_solver].
  destruct (str_eqb (IC_IncidentInputDigest cov) i) eqn:Ei; go_bool; cbn [negb];
    [|eexists; right; split; [|reflexivity]; naive_solver].
  destruct (acceptedInvestigationCovers _ _ _ _ _ _) eqn:Ea; cbn [negb];
    [|eexists; right; split; [|reflexivity]; naive_solver].
  exists "". left. exists prior. split; [done|]. split; [|done]. naive_solver.
Qed.

Lemma needs_awaiting inc m i :
  TS_Phase (Incident_Triage inc) = "awaiting_decision" → needsTriageDecision inc m i = (true, false).
Proof. intros H. unfold needsTriageDecision. by rewrite H. Qed.

Lemma needs_refresh inc m i :
  needsTriageDecision inc m i = (true, true) →
  TS_Phase (Incident_Triage inc) = "pending" ∨ TS_Phase (Incident_Triage inc) = "backoff".
Proof.
  unfold needsTriageDecision. destruct (str_eqb _ "awaiting_decision"); [done|].
  destruct (str_eqb _ "pending") eqn:E1, (str_eqb _ "backoff") eqn:E2; go_bool; naive_solver.
Qed.

(** ** Lemmas: due times *)

Lemma consider_spec now e f t l l' :
  e = list_min l → f = list_min l' →
  consider now (e, f) t =
  (list_min (l ++ [t]), list_min (l' ++ (if After t now then [t] else []))).
Proof.
  intros -> ->. unfold consider.
  assert (Hmin : ∀ k, (match list_min k with
                       | Some x => if Before t x then Some t else Some x
                       | None => Some t
                       end) = list_min (k ++ [t])).
  { intros k. rewrite list_min_snoc. destruct (list_min k) as [x|]; [|done].
    unfold Before. destruct (t <? x)%Z eqn:E; go_bool; f_equal; lia. }
  rewrite !Hmin. destruct (After t now); [done|]. by rewrite app_nil_r.
Qed.

Lemma due_fold byIncident now incs acc l :
  acc = (list_min l, list_min (filter (λ t, now < t)%Z l)) →
  foldl (λ acc inc, match incident_due byIncident now inc with
                    | Some t => consider now acc t
                    | None => acc
                    end) acc incs =
  (list_min (l ++ omap (incident_due byIncident now) incs),
   list_min (filter (λ t, now < t)%Z (l ++ omap (incident_due byIncident now) incs))).
Proof.
  revert acc l. induction incs as [|inc incs IH]; intros acc l Hacc; cbn [foldl omap list_omap].
  { by rewrite app_nil_r. }
  destruct (incident_due byIncident now inc) as [t|]; [|by apply IH].
  rewrite (IH _ (l ++ [t])); [by rewrite <- app_assoc|].
  subst acc. rewrite (consider_spec _ _ _ _ _ _ eq_refl eq_refl), filter_app. do 3 f_equal.
  unfold After. destruct (now <? t)%Z eqn:E; go_bool.
  - by rewrite filter_cons_True by done.
  - by rewrite filter_cons_False by lia.
Qed.

(** ** Lemmas: the projection *)

Lemma project_fold sha incs acc :
  let r := foldl (project_incident sha) acc incs in
  pa_phases r = pa_phases acc ++ (incident_phase <$> incs) ∧
  pa_remaining r =
    (pa_remaining acc + Z.of_nat (length (filter (λ i, outstanding (incident_phase i)) incs)))%Z ∧
  pa_ended r = pa_ended acc ++
    ((λ i, incidentWorkOutcome sha i (incident_phase i))
       <$> filter (λ i, ended_phase (incident_phase i)) incs).
Proof.
  revert acc. induction incs as [|i incs IH]; intros acc; cbn [foldl fmap list_fmap].
  { simpl. rewrite !app_nil_r. split_and!; [done|lia|done]. }
  destruct (IH (project_incident sha acc i)) as (H1 & H2 & H3). rewrite H1, H2, H3.
  unfold project_incident. cbn [pa_phases pa_remaining pa_ended]. split_and!.
  - by rewrite <- app_assoc.
  - rewrite filter_cons. destruct (outstanding (incident_phase i)) eqn:E; case_decide; try done;
      cbn [length]; lia.
  - rewrite filter_cons. destruct (ended_phase (incident_phase i)) eqn:E; case_decide; try done.
    rewrite <- app_assoc. by rewrite fmap_cons.
Qed.

Lemma aggregate_outstanding phases started :
  outstanding (aggregateWorkPhase phases started) = existsb outstanding phases.
Proof.
  assert (Hhas : ∀ p, existsb (λ ph, bool_decide (ph = p)) phases = true ↔ p ∈ phases).
  { intros p. rewrite existsb_exists. setoid_rewrite bool_decide_eq_true.
    setoid_rewrite list_elem_of_In. naive_solver. }
  apply eq_bool_prop_intro. rewrite !Is_true_true, existsb_exists. setoid_rewrite <- list_elem_of_In.
  unfold aggregateWorkPhase.
  repeat match goal with |- context [existsb (λ ph, bool_decide (ph = ?p)) phases] =>
    let E := fresh "E" in
    destruct (existsb (λ ph, bool_decide (ph = p)) phases) eqn:E;
    [apply Hhas in E | apply not_true_iff_false in E; rewrite Hhas in E] end;
  destruct started; simpl; split; intros H; try done; try (eexists; split; [eassumption|done]);
  destruct H as ([] & Hin & Ho); done.
Qed.

Lemma aggregate_none incs :
  aggregateTriagePhase incs [] = TriagePhaseNone ↔ existsb outstanding (incident_phase <$> incs) = false.
Proof.
  assert (Heff : ∀ inc, effectiveTriagePhase inc (decisionsByIncident []) = TS_Phase (Incident_Triage inc)).
  { intros inc. unfold effectiveTriagePhase, decisionsByIncident. simpl.
    rewrite lookup_empty. by destruct (negb _). }
  assert (Ho : ∀ inc, outstanding (incident_phase inc) =
    existsb (str_eqb (TS_Phase (Incident_Triage inc))) ["in_flight"]
    || existsb (str_eqb (TS_Phase (Incident_Triage inc))) ["awaiting_decision"; "pending"]
    || existsb (str_eqb (TS_Phase (Incident_Triage inc))) ["backoff"]).
  { intros inc. unfold incident_phase, workPhaseOf. simpl. rewrite !orb_false_r.
    repeat match goal with |- context [str_eqb ?p ?s] =>
      let E := fresh "E" in destruct (str_eqb p s) eqn:E end; go_bool; try congruence; try done;
    destruct (str_eqb (Incident_Status inc) "analyzed"); done. }
  assert (Hall : existsb outstanding (incident_phase <$> incs) =
    existsb (λ inc, existsb (str_eqb (TS_Phase (Incident_Triage inc))) ["in_flight"]) incs
    || existsb (λ inc, existsb (str_eqb (TS_Phase (Incident_Triage inc))) ["awaiting_decision"; "pending"]) incs
    || existsb (λ inc, existsb (str_eqb (TS_Phase (Incident_Triage inc))) ["backoff"]) incs).
  { clear Heff. induction incs as [|inc incs IH]; [done|]. cbn [fmap list_fmap existsb]. rewrite IH, Ho.
    rewrite <- !orb_assoc. cbn [existsb]. btauto. }
  rewrite Hall. unfold aggregateTriagePhase.
  assert (Hext : ∀ ps, existsb (λ inc, existsb (str_eqb (effectiveTriagePhase inc (decisionsByIncident []))) ps) incs
                       = existsb (λ inc, existsb (str_eqb (TS_Phase (Incident_Triage inc))) ps) incs).
  { intros ps. clear. induction incs as [|inc incs IH]; [done|]. cbn [existsb]. rewrite IH. do 2 f_equal.
    unfold effectiveTriagePhase, decisionsByIncident. simpl. rewrite lookup_empty. by destruct (negb _). }
  rewrite !Hext. destruct (existsb _ incs), (existsb _ incs), (existsb _ incs); done.
Qed.

(** ** Theorems *)

(** A skip is decided exactly for a schedule awaiting its first decision
    whose Incident is fully covered: a trustworthy Assessment of the same
    material facts covers the current digests of the Incident, and the latest
    accepted investigation really ran over deliveries with those digests; every
    other decision is a request, and every decision records the current digests. *)
Theorem DecideTriage_skips_covered md idg snap inp cur now d :
  NoDup (Delivery_ID <$> Deliveries inp) →
  d ∈ DecideTriage md idg snap inp cur now →
  ∃ inc, inc ∈ Snap_Incidents snap ∧ TD_IncidentID d = Incident_ID inc ∧
    let m := MembershipDigest md (Incident_ID inc) (Deliveries inp) in
    let i := IncidentInputDigest md idg (Incident_ID inc) (Incident_GroupKey inc) (Deliveries inp) in
    TD_MembershipDigest d = m ∧ TD_IncidentInputDigest d = i ∧
    (TD_Decision d = TriageDecisionSkip ∨ TD_Decision d = TriageDecisionRequest) ∧
    (TD_Decision d = TriageDecisionSkip ↔
       TS_Phase (Incident_Triage inc) = "awaiting_decision" ∧
       ∃ prior, cur = Some prior ∧ TD_CoveredAssessmentID d = Some (AA_ID prior) ∧
         covers prior snap inc m i ∧ investigated md idg inc (Deliveries inp) m i).
Proof.
  intros Hnd Hd. apply list_elem_of_omap in Hd as (inc & Hin & Hd). unfold decide_incident in Hd.
  exists inc. set (m := MembershipDigest _ _ _) in *. set (i := IncidentInputDigest _ _ _ _ _) in *.
  destruct (needsTriageDecision inc m i) as [[] refresh] eqn:En; cbn [negb] in Hd; [|done].
  split; [done|]. cbv zeta.
  setoid_rewrite <- (acceptedInvestigation_iff md idg inc (Deliveries inp) m i Hnd).
  destruct refresh.
  - simpl in Hd. injection Hd as <-. simpl. split_and!; try done; [by right|].
    apply needs_refresh in En. split; [done|]. intros [Ha _]. destruct En; congruence.
  - assert (Ha : TS_Phase (Incident_Triage inc) = "awaiting_decision").
    { revert En. unfold needsTriageDecision. destruct (str_eqb _ "awaiting_decision") eqn:E; [by go_bool|].
      destruct (_ || _); [destruct (_ || _)|]; done. }
    destruct (decideOne_cases md idg inc m i snap inp cur) as (reason & [(p & -> & Hc & Hdec)|(Hc & Hdec)]);
      rewrite Hdec in Hd; injection Hd as <-; simpl; split_and!; try done; eauto; split; try done;
      naive_solver.
Qed.

(** One decision per Incident in the snapshot's order, for exactly those
    that need one: schedules awaiting their first decision, and undispatched
    requests whose recorded digests are no longer current; a running, skipped or
    exhausted schedule is left alone. *)
Theorem DecideTriage_round md idg snap inp cur now :
  TD_IncidentID <$> DecideTriage md idg snap inp cur now =
  Incident_ID <$> filter (λ inc,
    let t := Incident_Triage inc in
    TS_Phase t = "awaiting_decision" ∨
    ((TS_Phase t = "pending" ∨ TS_Phase t = "backoff") ∧
     ¬ (TS_MembershipDigest t = Some (MembershipDigest md (Incident_ID inc) (Deliveries inp)) ∧
        TS_IncidentInputDigest t =
          Some (IncidentInputDigest md idg (Incident_ID inc) (Incident_GroupKey inc) (Deliveries inp)))))
    (Snap_Incidents snap).
Proof.
  assert (Hopt : ∀ o s, opt_is o s = true ↔ o = Some s).
  { intros [x|] s; simpl; unfold str_eqb; [rewrite String.eqb_eq|]; naive_solver. }
  unfold DecideTriage. induction (Snap_Incidents snap) as [|inc incs IH]; [done|].
  cbn [omap list_omap]. rewrite filter_cons. unfold decide_incident at 1, needsTriageDecision.
  set (m := MembershipDigest _ _ _). set (i := IncidentInputDigest _ _ _ _ _). cbv zeta.
  set (t := Incident_Triage inc).
  destruct (opt_is (TS_MembershipDigest t) m) eqn:Em; [|apply not_true_iff_false in Em];
    rewrite Hopt in Em;
    (destruct (opt_is (TS_IncidentInputDigest t) i) eqn:Ei; [|apply not_true_iff_false in Ei];
     rewrite Hopt in Ei);
    (destruct (str_eqb (TS_Phase t) "awaiting_decision") eqn:E1;
     destruct (str_eqb (TS_Phase t) "pending") eqn:E2;
     destruct (str_eqb (TS_Phase t) "backoff") eqn:E3; go_bool; cbn [orb negb]);
    case_decide as Hdec; try (exfalso; clear IH; tauto); cbn [orb negb];
    try (destruct (decideOne _ _ _ _ _ _ _ _ _) as [[? ?] ?]); rewrite ?fmap_cons; cbn [TD_IncidentID];
    by rewrite <- IH.
Qed.

(** The first due time promised is the least due time of all Incidents
    whose Triage is due, and the next one is the least of those still ahead: a
    past one never hides a later checkpoint. *)
Theorem triageDueTimes_spec incidents decisions now :
  let dues := omap (incident_due (decisionsByIncident decisions) now) incidents in
  triageDueTimes incidents decisions now =
  (list_min dues, list_min (filter (λ t, now < t)%Z dues)).
Proof. apply (due_fold _ now incidents (None, None) []). done. Qed.

(** The two aggregates of a cycle agree: work remains exactly when the
    projected phase is an outstanding one and exactly when the controller's
    Triage phase is not none; the ended work lists every settled and exhausted
    Incident once, by identity. *)
Theorem work_projection_agrees sha incidents grace checkpoint :
  let p := BuildWorkProjection sha incidents grace checkpoint in
  WP_RemainingIncidents p =
    Z.of_nat (length (filter (λ i, outstanding (incident_phase i)) incidents)) ∧
  ((0 < WP_RemainingIncidents p)%Z ↔ from_option outstanding false (WP_Phase p) = true) ∧
  (WP_RemainingIncidents p = 0%Z ↔ aggregateTriagePhase incidents [] = TriagePhaseNone) ∧
  WP_EndedWork p ≡ₚ ((λ i, incidentWorkOutcome sha i (incident_phase i))
                       <$> filter (λ i, ended_phase (incident_phase i)) incidents) ∧
  StronglySorted (λ a b, skey_ltb WO_IncidentID b a = false) (WP_EndedWork p).
Proof.
  intros p. destruct (project_fold sha incidents projection_zero) as (H1 & H2 & H3).
  assert (Hex : existsb outstanding (incident_phase <$> incidents) =
                negb (bool_decide (filter (λ i, outstanding (incident_phase i)) incidents = []))).
  { clear. induction incidents as [|i incs IH]; [done|]. cbn [fmap list_fmap existsb].
    rewrite filter_cons. destruct (outstanding (incident_phase i)) eqn:E; case_decide; try done. }
  assert (Hlen : length (filter (λ i, outstanding (incident_phase i)) incidents) = 0%nat
                 ↔ filter (λ i, outstanding (incident_phase i)) incidents = [])
    by apply length_zero_iff_nil.
  subst p. unfold BuildWorkProjection. cbn [WP_RemainingIncidents WP_Phase WP_EndedWork from_option].
  rewrite H2, H3, H1, aggregate_outstanding, aggregate_none, !app_nil_l. simpl in *. rewrite Hex.
  split_and!.
  - lia.
  - rewrite negb_true_iff, bool_decide_eq_false, <- Hlen. lia.
  - rewrite negb_false_iff, bool_decide_eq_true, <- Hlen. lia.
  - apply SliceStable_perm.
  - apply SliceStable_sorted. apply _.
Qed.

(** ** Concrete inputs *)

Definition ex_execution : TriageExecution :=
  {| TE_AttemptID := "t1"; TE_MemberDeliveryIDs := ["d1"]; TE_ResultCode := "success";
     TE_OutputDigest := "o"; TE_CompletedAt := Some 5%Z;
     TE_Evidence := Some {| Evidence_SourceEvidence := []; Evidence_Hypothesis := " disk full "; Evidence_Observations := [];
                             Evidence_VerificationLimit := ""; Evidence_VerificationGaps := 0; Evidence_JudgedAt := None |} |}.

Definition ex_covered_incident : IncidentState :=
  {| Incident_ID := "inc"; Incident_GroupKey := "g"; Incident_Status := "ready";
     Incident_Triage := {| TS_Phase := "awaiting_decision"; TS_Attempts := 0%Z; TS_NextAt := None;
                           TS_DecisionReason := None; TS_MembershipDigest := None;
                           TS_IncidentInputDigest := None; TS_DecidedAt := None;
                           TS_LatestAttempt := None; TS_ActiveAttempt := None;
                           TS_LastExecution := Some ex_execution |} |}.

Definition ex_covered_snap : Snapshot :=
  {| Snap_SituationID := "s"; Snap_Incidents := [ex_covered_incident]; Snap_InputVersion := 2%Z;
     Snap_Lifecycle := LifecycleActive; Snap_DurationClass := DurationClassShort;
     Snap_Facts := []; Snap_Symptoms := []; EligibleReasons := []; Snap_MaterialFactHash := "m";
     Snap_AssessmentBasisHash := "b"; Snap_Observations := []; CapabilityResults := [];
     Deferred := [] |}.

Definition ex_covered_input : SnapshotInput := ex_input [ex_firing].

Definition ex_decisions : list TriageDecision :=
  DecideTriage ex_sha ex_sha' ex_covered_snap ex_covered_input (Some ex_prior) 9%Z.

Lemma DecideTriage_skips_covered_witness :
  match ex_decisions with
  | [d] => TD_Decision d = TriageDecisionSkip ∧ TD_CoveredAssessmentID d = Some "p1"
  | _ => False
  end.
Proof.
  destruct ex_decisions as [|d [|]] eqn:E; [vm_compute in E; discriminate| |vm_compute in E; discriminate].
  assert (Hnd : NoDup (Delivery_ID <$> Deliveries ex_covered_input)) by (vm_compute; apply NoDup_singleton).
  assert (Hin : d ∈ ex_decisions) by (rewrite E; by left).
  destruct (DecideTriage_skips_covered ex_sha ex_sha' ex_covered_snap ex_covered_input (Some ex_prior) 9%Z d
    Hnd Hin) as (inc & _ & _ & _ & _ & _ & H).
  assert (Hd : TD_Decision d = TriageDecisionSkip).
  { vm_compute in E. by injection E as <-. }
  split; [exact Hd|]. apply H in Hd as (_ & p & [= <-] & -> & _). reflexivity.
Defined.
