(* ===== verification/TriageStore.v ===== *)
(** * The Acute Triage schedule (internal/store/triage_controller.go)

    One Incident's schedule row, its attempt ledger and its Situation-input
    outbox, and every transaction the controller and the Triage worker run over
    them ([internal/situation/triage_worker.go]: the worker's choice between
    backoff and exhaustion).  A transaction returns the new database or an
    error, which rolls it back.

    The coverage digests are recomputed from the deliveries in the database, as
    the transactions do, by the functions of [Snapshot]; the digests of outputs
    are arguments.  An attempt's identity is a random UUID: an argument of the
    claim, refused when it is already in the ledger.  Timestamps of rows, error
    details and audit rows are left out. *)

From stdpp Require Import prelude strings list gmap pretty.
From S2P Require Import Prelude SituationModel Snapshot Lifecycle Assessment TriageGate.

(** ** The database *)

Inductive TriageRowPhase : Set :=
| AwaitingDecision | TriagePending | TriageInFlight | TriageBackoff | TriageSkipped
| TriageExhausted.

Inductive IncidentStatus : Set :=
| StatusCollecting | StatusReady | StatusProcessing | StatusAnalyzed | StatusResolved
| StatusFailed.

#[export] Instance TriageRowPhase_eq_dec : EqDecision TriageRowPhase.
Proof. solve_decision. Defined.
#[export] Instance IncidentStatus_eq_dec : EqDecision IncidentStatus.
Proof. solve_decision. Defined.

Definition phase_text (p : TriageRowPhase) : string :=
  match p with
  | AwaitingDecision => "awaiting_decision" | TriagePending => "pending"
  | TriageInFlight => "in_flight" | TriageBackoff => "backoff" | TriageSkipped => "skipped"
  | TriageExhausted => "exhausted"
  end.

(** A row of [incident_triage]. *)
Record incident_triage : Type := {
  it_phase : TriageRowPhase;
  it_attempts : Z;
  it_next_at : option Time;
  it_situation_id : option string;
  it_decision : option string;
  it_decision_reason : option string;
  it_decision_input_version : option Z;
  it_membership_digest : option string;
  it_incident_input_digest : option string;
  it_lease_owner : option string;
  it_lease_expires_at : option Time;
  it_claim_token : Z;
  it_current_attempt_id : option string
}.

(** [Confidence]: the 64 bits of the float. *)
Record TriageFinding : Type := {
  OutputJSON : string;
  Summary : string;
  RootCause : string;
  Confidence : Z;
  EnrichmentJSON : string;
  EvidencePackDigest : string
}.

Record attempt_result : Type := {
  result_code : string;
  output_digest : string;
  finding_id : option string
}.

(** A row of [incident_triage_attempts]; [ta_result]: its completion. *)
Record triage_attempt : Type := {
  ta_number : Z;
  ta_situation_id : string;
  ta_membership_digest : string;
  ta_incident_input_digest : string;
  ta_member_delivery_ids : list string;
  ta_result : option attempt_result
}.

(** What the transactions of one Incident touch. *)
Record triage_db : Type := {
  db_status : IncidentStatus;
  db_output : option TriageFinding;
  db_triage : option incident_triage;
  db_attempts : gmap string triage_attempt;
  db_outbox : gmap string string;
  db_deliveries : list Delivery;
  db_situations : gmap string Lifecycle
}.

Inductive store_error : Set :=
| ErrNotFound
| ErrTriageNotDue
| ErrTriageNotDecided
| ErrTriageAttemptLeaseLost
| ErrTriageAttemptCompletedDifferently
| ErrInvalid                    (* refused arguments *)
| ErrSQL.                       (* a constraint, or a row that must exist *)

Definition maxIncidentTriageAttempts : Z := 5%Z.

Definition set_status (db : triage_db) (s : IncidentStatus) : triage_db :=
  {| db_status := s; db_output := db_output db; db_triage := db_triage db;
     db_attempts := db_attempts db; db_outbox := db_outbox db; db_deliveries := db_deliveries db;
     db_situations := db_situations db |}.
Definition set_triage (db : triage_db) (r : option incident_triage) : triage_db :=
  {| db_status := db_status db; db_output := db_output db; db_triage := r;
     db_attempts := db_attempts db; db_outbox := db_outbox db; db_deliveries := db_deliveries db;
     db_situations := db_situations db |}.
Definition set_attempts (db : triage_db) (a : gmap string triage_attempt) : triage_db :=
  {| db_status := db_status db; db_output := db_output db; db_triage := db_triage db;
     db_attempts := a; db_outbox := db_outbox db; db_deliveries := db_deliveries db;
     db_situations := db_situations db |}.
Definition set_output (db : triage_db) (f : TriageFinding) : triage_db :=
  {| db_status := db_status db; db_output := Some f; db_triage := db_triage db;
     db_attempts := db_attempts db; db_outbox := db_outbox db; db_deliveries := db_deliveries db;
     db_situations := db_situations db |}.

(** [insertTriageSituationInputTx]: ON CONFLICT DO NOTHING. *)
Definition insertTriageSituationInputTx (db : triage_db) (kind key : string) : triage_db :=
  {| db_status := db_status db; db_output := db_output db; db_triage := db_triage db;
     db_attempts := db_attempts db;
     db_outbox := match db_outbox db !! key with
                  | Some _ => db_outbox db
                  | None => <[key := kind]> (db_outbox db)
                  end;
     db_deliveries := db_deliveries db; db_situations := db_situations db |}.

(** Rows end without a lease. *)
Definition unleased (r : incident_triage) (p : TriageRowPhase) (next : option Time) : incident_triage :=
  {| it_phase := p; it_attempts := it_attempts r; it_next_at := next;
     it_situation_id := it_situation_id r; it_decision := it_decision r;
     it_decision_reason := it_decision_reason r;
     it_decision_input_version := it_decision_input_version r;
     it_membership_digest := it_membership_digest r;
     it_incident_input_digest := it_incident_input_digest r;
     it_lease_owner := None; it_lease_expires_at := None; it_claim_token := it_claim_token r;
     it_current_attempt_id := None |}.

(** The decision columns of a row. *)
Definition decided (r : incident_triage) (p : TriageRowPhase) (next : option Time)
    (d : TriageDecision) (decision : string) : incident_triage :=
  {| it_phase := p; it_attempts := it_attempts r; it_next_at := next;
     it_situation_id := Some (TD_SituationID d); it_decision := Some decision;
     it_decision_reason := Some (TD_DecisionReason d);
     it_decision_input_version := Some (TD_SituationInputVersion d);
     it_membership_digest := Some (TD_MembershipDigest d);
     it_incident_input_digest := Some (TD_IncidentInputDigest d);
     it_lease_owner := it_lease_owner r; it_lease_expires_at := it_lease_expires_at r;
     it_claim_token := it_claim_token r; it_current_attempt_id := it_current_attempt_id r |}.

(** The columns a clean skip below the minimum writes. *)
Definition skipped_below (r : incident_triage) : incident_triage :=
  let r := unleased r TriageSkipped None in
  {| it_phase := it_phase r; it_attempts := it_attempts r; it_next_at := it_next_at r;
     it_situation_id := it_situation_id r; it_decision := Some TriageDecisionSkip;
     it_decision_reason := Some DecisionReasonEligibilityPolicyMinimumMembers;
     it_decision_input_version := it_decision_input_version r;
     it_membership_digest := it_membership_digest r;
     it_incident_input_digest := it_incident_input_digest r;
     it_lease_owner := None; it_lease_expires_at := None; it_claim_token := it_claim_token r;
     it_current_attempt_id := None |}.

Definition schedulable (p : TriageRowPhase) : bool :=
  match p with TriagePending | TriageBackoff => true | _ => false end.

Definition not_due (next : option Time) (now : Time) : bool :=
  match next with Some t => After t now | None => false end.

(** ** Transactions *)

Section store.
Context (mdigest : membershipDigestDTO → string) (idigest : incidentInputDigestDTO → string)
        (findingOutputDigest : TriageFinding → string)
        (staleOutputDigest : string → string → string → string → string)
        (failureOutputDigest : string → string → string)
        (incidentID groupKey : string).

Definition membership (db : triage_db) : string := MembershipDigest mdigest incidentID (db_deliveries db).
Definition input (db : triage_db) : string :=
  IncidentInputDigest mdigest idigest incidentID groupKey (db_deliveries db).
Definition deliveryIDs (db : triage_db) : list string :=
  sort_strings (Delivery_ID <$> db_deliveries db).

(** [MarkIncidentReadyWithSituationInput] with [seedAwaitingDecisionTriageTx]. *)
Definition seed_row : incident_triage :=
  {| it_phase := AwaitingDecision; it_attempts := 0%Z; it_next_at := None; it_situation_id := None;
     it_decision := None; it_decision_reason := None; it_decision_input_version := None;
     it_membership_digest := None; it_incident_input_digest := None; it_lease_owner := None;
     it_lease_expires_at := None; it_claim_token := 0%Z; it_current_attempt_id := None |}.

Definition seedAwaitingDecisionTriageTx (db : triage_db) : triage_db :=
  match db_triage db with Some _ => db | None => set_triage db (Some seed_row) end.

Definition MarkIncidentReady (db : triage_db) : result store_error triage_db :=
  let key := "incident-ready:" +:+ incidentID in
  match db_status db with
  | StatusCollecting =>
      match db_outbox db !! key with
      | Some _ => Err ErrSQL
      | None =>
          Ok (seedAwaitingDecisionTriageTx
                (insertTriageSituationInputTx (set_status db StatusReady) "incident_ready" key))
      end
  | StatusReady =>
      match db_outbox db !! key with
      | None => Err ErrSQL
      | Some _ => Ok (seedAwaitingDecisionTriageTx db)
      end
  | _ => Err ErrNotFound
  end.

Definition applyOneTriageDecisionTx (db : triage_db) (d : TriageDecision) (now : Time) : triage_db :=
  match db_triage db with
  | None => db
  | Some r =>
      let request := str_eqb (TD_Decision d) TriageDecisionRequest in
      let skip := str_eqb (TD_Decision d) TriageDecisionSkip in
      if bool_decide (it_phase r = AwaitingDecision) && request then
        set_triage db (Some (decided r TriagePending (Some now) d TriageDecisionRequest))
      else if bool_decide (it_phase r = AwaitingDecision) && skip then
        insertTriageSituationInputTx
          (set_triage db (Some (decided r TriageSkipped None d TriageDecisionSkip)))
          "triage_skipped"
          ("triage-skipped:" +:+ incidentID +:+ ":" +:+ pretty (TD_SituationInputVersion d))
      else if schedulable (it_phase r) && request then
        set_triage db (Some (decided r (it_phase r) (it_next_at r) d TriageDecisionRequest))
      else db
  end.

Record ClaimedTriageAttempt : Type := {
  cl_AttemptID : string;
  cl_AttemptNumber : Z;
  cl_SituationID : string;
  cl_MembershipDigest : string;
  cl_IncidentInputDigest : string;
  cl_MemberDeliveryIDs : list string;
  cl_LeaseOwner : string;
  cl_LeaseExpiresAt : Time;
  cl_ClaimToken : Z
}.

Definition claim_row (r : incident_triage) (attemptID owner : string) (expires : Time)
    : incident_triage :=
  {| it_phase := TriageInFlight; it_attempts := (it_attempts r + 1)%Z; it_next_at := None;
     it_situation_id := it_situation_id r; it_decision := it_decision r;
     it_decision_reason := it_decision_reason r;
     it_decision_input_version := it_decision_input_version r;
     it_membership_digest := it_membership_digest r;
     it_incident_input_digest := it_incident_input_digest r;
     it_lease_owner := Some owner; it_lease_expires_at := Some expires;
     it_claim_token := (it_claim_token r + 1)%Z; it_current_attempt_id := Some attemptID |}.

(** The ledger's key, bound and uniqueness. *)
Definition insert_attempt (db : triage_db) (attemptID : string) (a : triage_attempt)
    : result store_error triage_db :=
  if str_eqb attemptID "" || negb ((1 <=? ta_number a) && (ta_number a <=? 5))%Z
     || bool_decide (is_Some (db_attempts db !! attemptID))
     || existsb (λ ka, (ta_number ka.2 =? ta_number a)%Z) (map_to_list (db_attempts db))
  then Err ErrSQL
  else Ok (set_attempts db (<[attemptID := a]> (db_attempts db))).

Definition ClaimIncidentTriageAttempt (db : triage_db) (attemptID owner : string) (now : Time)
    (lease : Duration) : result store_error (triage_db * ClaimedTriageAttempt) :=
  guard! negb (str_eqb (TrimSpace incidentID) "") && negb (str_eqb (TrimSpace owner) "")
         && (0 <? lease)%Z else ErrInvalid in
  match db_triage db with
  | None => Err ErrNotFound
  | Some r =>
      guard! bool_decide (db_status db = StatusReady) else ErrNotFound in
      guard! schedulable (it_phase r) else ErrNotFound in
      guard! negb (not_due (it_next_at r) now) else ErrTriageNotDue in
      match it_situation_id r, it_decision_input_version r with
      | Some sid, Some _ =>
          guard! (it_attempts r <? maxIncidentTriageAttempts)%Z else ErrNotFound in
          guard! negb match db_situations db !! sid with Some l => Terminal l | None => false end
                 else ErrNotFound in
          guard! str_eqb (default "" (it_membership_digest r)) (membership db)
                 && str_eqb (default "" (it_incident_input_digest r)) (input db) else ErrNotFound in
          let number := (it_attempts r + 1)%Z in
          let? db' := insert_attempt db attemptID
                        {| ta_number := number; ta_situation_id := sid;
                           ta_membership_digest := membership db;
                           ta_incident_input_digest := input db;
                           ta_member_delivery_ids := deliveryIDs db; ta_result := None |} in
          let r' := claim_row r attemptID owner (Add now lease) in
          let db' := set_status (set_triage db' (Some r')) StatusProcessing in
          Ok (insertTriageSituationInputTx db' "triage_retry_changed"
                ("triage-retry-changed:" +:+ attemptID +:+ ":begin"),
              {| cl_AttemptID := attemptID; cl_AttemptNumber := number; cl_SituationID := sid;
                 cl_MembershipDigest := membership db; cl_IncidentInputDigest := input db;
                 cl_MemberDeliveryIDs := deliveryIDs db; cl_LeaseOwner := owner;
                 cl_LeaseExpiresAt := Add now lease; cl_ClaimToken := it_claim_token r' |})
      | _, _ => Err ErrTriageNotDecided
      end
  end.

(** The lease fence: the row is in flight under this attempt. *)
Definition in_flight_as (db : triage_db) (attemptID : string) : option incident_triage :=
  match db_triage db with
  | Some r =>
      if bool_decide (it_phase r = TriageInFlight)
         && opt_is (it_current_attempt_id r) attemptID then Some r else None
  | None => None
  end.

Definition ExtendIncidentTriageLease (db : triage_db) (attemptID owner : string) (now : Time)
    (lease : Duration) : result store_error triage_db :=
  guard! negb (str_eqb (TrimSpace attemptID) "") && negb (str_eqb (TrimSpace incidentID) "")
         && negb (str_eqb (TrimSpace owner) "") && (0 <? lease)%Z else ErrInvalid in
  match in_flight_as db attemptID with
  | Some r =>
      guard! opt_is (it_lease_owner r) owner else ErrTriageAttemptLeaseLost in
      Ok (set_triage db (Some
            {| it_phase := it_phase r; it_attempts := it_attempts r; it_next_at := it_next_at r;
               it_situation_id := it_situation_id r; it_decision := it_decision r;
               it_decision_reason := it_decision_reason r;
               it_decision_input_version := it_decision_input_version r;
               it_membership_digest := it_membership_digest r;
               it_incident_input_digest := it_incident_input_digest r;
               it_lease_owner := it_lease_owner r; it_lease_expires_at := Some (Add now lease);
               it_claim_token := it_claim_token r;
               it_current_attempt_id := it_current_attempt_id r |}))
  | None => Err ErrTriageAttemptLeaseLost
  end.

(** The one completing UPDATE of a ledger row: it fails on a completed one. *)
Definition complete_attempt (db : triage_db) (attemptID : string) (res : attempt_result)
    : result store_error triage_db :=
  match db_attempts db !! attemptID with
  | Some a =>
      match ta_result a with
      | Some _ => Err ErrTriageAttemptLeaseLost
      | None =>
          Ok (set_attempts db (<[attemptID :=
                {| ta_number := ta_number a; ta_situation_id := ta_situation_id a;
                   ta_membership_digest := ta_membership_digest a;
                   ta_incident_input_digest := ta_incident_input_digest a;
                   ta_member_delivery_ids := ta_member_delivery_ids a;
                   ta_result := Some res |}]> (db_attempts db)))
      end
  | None => Err ErrTriageAttemptLeaseLost
  end.

(** The schedule leaves in-flight, fenced by its current attempt. *)
Definition release_schedule (db : triage_db) (attemptID : string)
    (f : incident_triage → incident_triage) : result store_error triage_db :=
  match in_flight_as db attemptID with
  | Some r => Ok (set_triage db (Some (f r)))
  | None => Err ErrTriageAttemptLeaseLost
  end.

(** The Incident leaves processing. *)
Definition leave_processing (db : triage_db) (s : IncidentStatus) : result store_error triage_db :=
  if bool_decide (db_status db = StatusProcessing) then Ok (set_status db s) else Err ErrNotFound.

Inductive TriageCompletionOutcome : Set :=
| TriageCompletionSuccess
| TriageCompletionStaleMembership
| TriageCompletionStaleIncidentInput
| TriageCompletionOwnerTerminal.

Definition outcome_text (o : TriageCompletionOutcome) : string :=
  match o with
  | TriageCompletionSuccess => "success"
  | TriageCompletionStaleMembership => "stale_membership"
  | TriageCompletionStaleIncidentInput => "stale_incident_input"
  | TriageCompletionOwnerTerminal => "owner_terminal"
  end.

Record TriageCompletionResult : Type := {
  cr_Outcome : TriageCompletionOutcome;
  cr_FindingID : string;
  cr_OutputDigest : string
}.

Definition triageFindingID (attemptID : string) : string := "finding:" +:+ attemptID.

Definition idempotentReplayResult (res : attempt_result) (finding : TriageFinding)
    : option TriageCompletionResult :=
  let code := result_code res in
  let mk o f := Some {| cr_Outcome := o; cr_FindingID := f; cr_OutputDigest := output_digest res |} in
  if str_eqb code "success" then
    if negb (str_eqb (output_digest res) (findingOutputDigest finding)) then None
    else mk TriageCompletionSuccess (default "" (finding_id res))
  else if str_eqb code "stale_membership" then mk TriageCompletionStaleMembership ""
  else if str_eqb code "stale_incident_input" then mk TriageCompletionStaleIncidentInput ""
  else if str_eqb code "owner_terminal" then
    if negb (str_eqb (output_digest res) (findingOutputDigest finding)) then None
    else mk TriageCompletionOwnerTerminal ""
  else None.

Definition completeSuccessTx (db : triage_db) (attemptID : string) (finding : TriageFinding)
    : result store_error (triage_db * TriageCompletionResult) :=
  let digest := findingOutputDigest finding in
  let id := triageFindingID attemptID in
  let? db := complete_attempt db attemptID
               {| result_code := "success"; output_digest := digest; finding_id := Some id |} in
  let? db := leave_processing db StatusAnalyzed in
  let db := set_triage (set_output db finding) None in
  Ok (insertTriageSituationInputTx db "finding_persisted" ("finding-persisted:" +:+ attemptID),
      {| cr_Outcome := TriageCompletionSuccess; cr_FindingID := id; cr_OutputDigest := digest |}).

Definition completeExhaustedStaleTx (db : triage_db) (attemptID : string)
    (outcome : TriageCompletionOutcome) (digest : string)
    : result store_error (triage_db * TriageCompletionResult) :=
  let? db := release_schedule db attemptID (λ r, unleased r TriageExhausted None) in
  let? db := leave_processing db StatusFailed in
  Ok (insertTriageSituationInputTx db "triage_exhausted" ("triage-exhausted:" +:+ attemptID),
      {| cr_Outcome := outcome; cr_FindingID := ""; cr_OutputDigest := digest |}).

Definition completeOwnerTerminalTx (db : triage_db) (attemptID : string) (finding : TriageFinding)
    : result store_error (triage_db * TriageCompletionResult) :=
  let digest := findingOutputDigest finding in
  let? db := complete_attempt db attemptID
               {| result_code := outcome_text TriageCompletionOwnerTerminal;
                  output_digest := digest; finding_id := None |} in
  completeExhaustedStaleTx db attemptID TriageCompletionOwnerTerminal digest.

Definition completeStaleTx (db : triage_db) (attemptID : string) (attemptNumber : Z)
    (outcome : TriageCompletionOutcome) (digest : string)
    : result store_error (triage_db * TriageCompletionResult) :=
  let? db := complete_attempt db attemptID
               {| result_code := outcome_text outcome; output_digest := digest;
                  finding_id := None |} in
  if (maxIncidentTriageAttempts <=? attemptNumber)%Z then
    completeExhaustedStaleTx db attemptID outcome digest
  else
    let? db := leave_processing db StatusReady in
    let? db := release_schedule db attemptID (λ r, unleased r AwaitingDecision None) in
    Ok (insertTriageSituationInputTx db "triage_retry_changed"
          ("triage-retry-changed:" +:+ attemptID +:+ ":stale"),
        {| cr_Outcome := outcome; cr_FindingID := ""; cr_OutputDigest := digest |}).

Definition CompleteIncidentTriageAttempt (db : triage_db) (attemptID : string)
    (finding : TriageFinding) : result store_error (triage_db * TriageCompletionResult) :=
  guard! negb (str_eqb (TrimSpace attemptID) "") && negb (str_eqb (TrimSpace incidentID) "")
         else ErrInvalid in
  match db_attempts db !! attemptID with
  | None => Err ErrNotFound
  | Some a =>
      match ta_result a with
      | Some res =>
          match idempotentReplayResult res finding with
          | Some r => Ok (db, r)
          | None => Err ErrTriageAttemptCompletedDifferently
          end
      | None =>
          match db_situations db !! ta_situation_id a with
          | None => Err ErrSQL
          | Some owner =>
              let stale :=
                staleOutputDigest (ta_membership_digest a) (membership db)
                  (ta_incident_input_digest a) (input db) in
              if Terminal owner then completeOwnerTerminalTx db attemptID finding
              else if negb (str_eqb (membership db) (ta_membership_digest a)) then
                completeStaleTx db attemptID (ta_number a) TriageCompletionStaleMembership stale
              else if negb (str_eqb (input db) (ta_incident_input_digest a)) then
                completeStaleTx db attemptID (ta_number a) TriageCompletionStaleIncidentInput stale
              else completeSuccessTx db attemptID finding
          end
      end
  end.

Definition completeFailedAttemptTx (db : triage_db) (attemptID code detail : string)
    : result store_error triage_db :=
  complete_attempt db attemptID
    {| result_code := code; output_digest := failureOutputDigest code detail; finding_id := None |}.

Definition valid_ids (attemptID : string) : bool :=
  negb (str_eqb (TrimSpace attemptID) "") && negb (str_eqb (TrimSpace incidentID) "").

Definition BackoffIncidentTriageAttempt (db : triage_db) (attemptID : string) (nextAt : Time)
    (code detail : string) : result store_error triage_db :=
  guard! valid_ids attemptID else ErrInvalid in
  let? db := completeFailedAttemptTx db attemptID code detail in
  let? db := release_schedule db attemptID (λ r, unleased r TriageBackoff (Some nextAt)) in
  let? db := leave_processing db StatusReady in
  Ok (insertTriageSituationInputTx db "triage_retry_changed"
        ("triage-retry-changed:" +:+ attemptID +:+ ":backoff")).

Definition ExhaustIncidentTriageAttempt (db : triage_db) (attemptID code detail : string)
    : result store_error triage_db :=
  guard! valid_ids attemptID else ErrInvalid in
  let? db := completeFailedAttemptTx db attemptID code detail in
  let? db := release_schedule db attemptID (λ r, unleased r TriageExhausted None) in
  let? db := leave_processing db StatusFailed in
  Ok (insertTriageSituationInputTx db "triage_exhausted" ("triage-exhausted:" +:+ attemptID)).

Definition CompleteIncidentTriageAttemptAsCleanSkip (db : triage_db) (attemptID code detail : string)
    : result store_error triage_db :=
  guard! valid_ids attemptID else ErrInvalid in
  let? db := completeFailedAttemptTx db attemptID code detail in
  let? db := release_schedule db attemptID skipped_below in
  let? db := leave_processing db StatusReady in
  Ok (insertTriageSituationInputTx db "triage_skipped" ("triage-skipped:" +:+ attemptID)).

(** [legacyMembers]: the count over [incident_alerts], used without deliveries. *)
Definition memberAlertCountTx (db : triage_db) (legacyMembers : Z) : Z :=
  let n := Z.of_nat (length (remove_dups (Delivery_AlertID <$> db_deliveries db))) in
  if (0 <? n)%Z then n else legacyMembers.

(** The database, and whether the Incident was skipped. *)
Definition CleanSkipIncidentTriageBelowMinimumMembers (db : triage_db) (legacyMembers minMembers : Z)
    (now : Time) : result store_error (triage_db * bool) :=
  guard! negb (str_eqb (TrimSpace incidentID) "") && (0 <? minMembers)%Z else ErrInvalid in
  match db_triage db with
  | None => Ok (db, false)
  | Some r =>
      if negb (bool_decide (db_status db = StatusReady)) then Ok (db, false)
      else match schedulable (it_phase r), it_situation_id r, it_decision_input_version r with
      | true, Some _, Some version =>
          if not_due (it_next_at r) now then Ok (db, false)
          else if (minMembers <=? memberAlertCountTx db legacyMembers)%Z then Ok (db, false)
          else Ok (insertTriageSituationInputTx (set_triage db (Some (skipped_below r)))
                     "triage_skipped"
                     ("triage-skipped:" +:+ incidentID +:+ ":" +:+ pretty version), true)
      | _, _, _ => Ok (db, false)
      end
  end.

Definition ExhaustOverdueUnclaimedIncidentTriage (db : triage_db) (now : Time) (horizon : Duration)
    : triage_db :=
  if (horizon <=? 0)%Z then db
  else match db_triage db with
  | Some r =>
      match it_next_at r with
      | Some next =>
          if schedulable (it_phase r) && text_ltb next (Add now (- horizon)%Z) then
            let r' := {| it_phase := TriageExhausted; it_attempts := it_attempts r;
                         it_next_at := None; it_situation_id := it_situation_id r;
                         it_decision := it_decision r; it_decision_reason := it_decision_reason r;
                         it_decision_input_version := it_decision_input_version r;
                         it_membership_digest := it_membership_digest r;
                         it_incident_input_digest := it_incident_input_digest r;
                         it_lease_owner := it_lease_owner r;
                         it_lease_expires_at := it_lease_expires_at r;
                         it_claim_token := it_claim_token r;
                         it_current_attempt_id := it_current_attempt_id r |} in
            let db := set_triage db (Some r') in
            let db := if bool_decide (db_status db = StatusReady) then set_status db StatusFailed
                      else db in
            insertTriageSituationInputTx db "triage_exhausted"
              ("triage-exhausted:startup-horizon:" +:+ incidentID)
          else db
      | None => db
      end
  | None => db
  end.

(** An expired lease, or none at all. *)
Definition expired_attempt (db : triage_db) (now : Time) : option (string * Z) :=
  match db_triage db with
  | Some r =>
      match it_phase r, it_current_attempt_id r with
      | TriageInFlight, Some a =>
          if match it_lease_expires_at r with Some t => text_leb t now | None => true end
          then Some (a, it_attempts r) else None
      | _, _ => None
      end
  | None => None
  end.

Definition recovered_detail : string :=
  "attempt interrupted before completion or lease heartbeat lost".

Definition RecoverExpiredIncidentTriageAttempts (db : triage_db) (now : Time) : triage_db :=
  match expired_attempt db now with
  | None => db
  | Some (a, attempts) =>
      match (if (maxIncidentTriageAttempts <=? attempts)%Z
             then ExhaustIncidentTriageAttempt db a "process_interrupted" recovered_detail
             else BackoffIncidentTriageAttempt db a now "process_interrupted" recovered_detail) with
      | Ok db' => db'
      | Err _ => db
      end
  end.

(** [MarkIncidentResolved] and the two resolutions in [deliveries.go]. *)
Definition MarkIncidentResolved (db : triage_db) : result store_error triage_db :=
  if bool_decide (db_status db = StatusReady) || bool_decide (db_status db = StatusAnalyzed) then
    let db := set_status db StatusResolved in
    Ok match db_triage db with
       | Some r => if decide (it_phase r = TriageExhausted) then db else set_triage db None
       | None => db
       end
  else Err ErrNotFound.

(** A recurrence on a resolved Incident. *)
Definition reopen_resolved (db : triage_db) : result store_error triage_db :=
  if bool_decide (db_status db = StatusResolved) then Ok (set_status db StatusAnalyzed)
  else Err ErrNotFound.

(** ** The worker *)

Definition triageBackoffDelays : list Duration :=
  [30 * Second; 2 * Minute; 8 * Minute; 32 * Minute]%Z.

Definition triageBackoffDelay (attemptNumber : Z) : Duration :=
  let i := (attemptNumber - 1)%Z in
  let i := if (i <? 0)%Z then 0%Z else i in
  let i := if (4 <=? i)%Z then 3%Z else i in
  default 0%Z (triageBackoffDelays !! Z.to_nat i).

(** What the analysis came back with. *)
Inductive analysis : Type :=
| Analyzed (finding : TriageFinding)
| CleanSkip
| AnalysisFailed (code detail : string).

(** [completeAttempt] on the claim [attemptID], [number]; a failed write is
    logged and leaves the row to recovery. *)
Definition completeAttempt (maxAttempts : Z) (db : triage_db) (attemptID : string) (number : Z)
    (r : analysis) (now : Time) : result store_error triage_db :=
  match r with
  | Analyzed f => let? (db, _) := CompleteIncidentTriageAttempt db attemptID f in Ok db
  | CleanSkip =>
      CompleteIncidentTriageAttemptAsCleanSkip db attemptID "clean_skip"
        "acute triage found nothing to analyze (below the minimum member alert count)"
  | AnalysisFailed code detail =>
      if (maxAttempts <=? number)%Z then ExhaustIncidentTriageAttempt db attemptID code detail
      else BackoffIncidentTriageAttempt db attemptID
             (Add now (triageBackoffDelay number)) code detail
  end.

(** ** Histories *)

Inductive event : Type :=
| EvDelivery (d : Delivery)
| EvSituation (id : string) (l : Lifecycle)
| EvReady
| EvDecide (d : TriageDecision) (now : Time)
| EvCleanSkipBefore (legacy minMembers : Z) (now : Time)
| EvClaim (attemptID owner : string) (now : Time) (lease : Duration)
| EvExtend (attemptID owner : string) (now : Time) (lease : Duration)
| EvFinish (attemptID : string) (r : analysis) (now : Time)
| EvRecover (now : Time)
| EvOverdue (now : Time) (horizon : Duration)
| EvResolve
| EvReopen.

Definition keep {A} (db : triage_db) (m : result store_error A) (f : A → triage_db) : triage_db :=
  match m with Ok a => f a | Err _ => db end.

Definition with_deliveries (db : triage_db) (ds : list Delivery) : triage_db :=
  {| db_status := db_status db; db_output := db_output db; db_triage := db_triage db;
     db_attempts := db_attempts db; db_outbox := db_outbox db; db_deliveries := ds;
     db_situations := db_situations db |}.

Definition with_situations (db : triage_db) (s : gmap string Lifecycle) : triage_db :=
  {| db_status := db_status db; db_output := db_output db; db_triage := db_triage db;
     db_attempts := db_attempts db; db_outbox := db_outbox db; db_deliveries := db_deliveries db;
     db_situations := s |}.

(** Any worker may hold any attempt of the ledger, however old: [EvFinish] and
    [EvExtend] name one freely; its number is the one its claim returned. *)
Definition step (db : triage_db) (e : event) : triage_db :=
  match e with
  | EvDelivery d => with_deliveries db (db_deliveries db ++ [d])
  | EvSituation id l => with_situations db (<[id := l]> (db_situations db))
  | EvReady => keep db (MarkIncidentReady db) id
  | EvDecide d now => applyOneTriageDecisionTx db d now
  | EvCleanSkipBefore legacy minMembers now =>
      keep db (CleanSkipIncidentTriageBelowMinimumMembers db legacy minMembers now) fst
  | EvClaim a owner now lease => keep db (ClaimIncidentTriageAttempt db a owner now lease) fst
  | EvExtend a owner now lease => keep db (ExtendIncidentTriageLease db a owner now lease) id
  | EvFinish a r now =>
      match db_attempts db !! a with
      | Some t => keep db (completeAttempt maxIncidentTriageAttempts db a (ta_number t) r now) id
      | None => db
      end
  | EvRecover now => RecoverExpiredIncidentTriageAttempts db now
  | EvOverdue now horizon => ExhaustOverdueUnclaimedIncidentTriage db now horizon
  | EvResolve => keep db (MarkIncidentResolved db) id
  | EvReopen => keep db (reopen_resolved db) id
  end.

(** A new Incident is collecting. *)
Definition db_init : triage_db :=
  {| db_status := StatusCollecting; db_output := None; db_triage := None; db_attempts := ∅;
     db_outbox := ∅; db_deliveries := []; db_situations := ∅ |}.

Definition run (db : triage_db) (es : list event) : triage_db := foldl step db es.
End store.

(** ** Invariant *)

(** The schedule's phase an Incident status goes with. *)
Definition status_phase (s : IncidentStatus) (p : TriageRowPhase) : Prop :=
  match s with
  | StatusReady => p = AwaitingDecision ∨ p = TriagePending ∨ p = TriageBackoff ∨ p = TriageSkipped
  | StatusProcessing => p = TriageInFlight
  | StatusFailed => p = TriageExhausted
  | StatusCollecting | StatusAnalyzed | StatusResolved => False
  end.

Definition all_completed (att : gmap string triage_attempt) : Prop :=
  map_Forall (λ _ t, is_Some (ta_result t)) att.

Definition running (att : gmap string triage_attempt) (a : string) (n : Z) : Prop :=
  ∃ t, att !! a = Some t ∧ ta_result t = None ∧ ta_number t = n ∧ all_completed (delete a att).

(** A row agrees with the ledger. *)
Definition row_ok (att : gmap string triage_attempt) (r : incident_triage) : Prop :=
  it_attempts r = Z.of_nat (size att) ∧
  (if decide (it_phase r = TriageInFlight) then
     is_Some (it_lease_owner r) ∧ is_Some (it_lease_expires_at r) ∧
     ∃ a, it_current_attempt_id r = Some a ∧ running att a (it_attempts r)
   else
     it_lease_owner r = None ∧ it_lease_expires_at r = None ∧ it_current_attempt_id r = None ∧
     all_completed att ∧
     (it_phase r ≠ TriageSkipped → it_phase r ≠ TriageExhausted →
        it_attempts r < maxIncidentTriageAttempts)%Z).

(** Attempts are numbered 1 to their count, at most five. *)
Definition ledger_ok (att : gmap string triage_attempt) : Prop :=
  (Z.of_nat (size att) ≤ maxIncidentTriageAttempts)%Z ∧
  map_Forall (λ _ t, 1 ≤ ta_number t ≤ Z.of_nat (size att))%Z att ∧
  (∀ a b t u, att !! a = Some t → att !! b = Some u → ta_number t = ta_number u → a = b).

Definition has_finding (t : triage_attempt) : Prop :=
  ∃ res, ta_result t = Some res ∧ is_Some (finding_id res).

Record inv4 (fd : TriageFinding → string) (st : IncidentStatus) (out : option TriageFinding)
    (tr : option incident_triage) (att : gmap string triage_attempt) : Prop := {
  iv_ledger : ledger_ok att;
  iv_row : match tr with
           | Some r => status_phase st (it_phase r) ∧ row_ok att r
           | None => (st = StatusCollecting ∧ att = ∅ ∨ st = StatusAnalyzed ∨ st = StatusResolved)
                     ∧ all_completed att
           end;
  iv_out : match out with
           | None => map_Forall (λ _ t, ¬ has_finding t) att
           | Some f =>
               (st = StatusAnalyzed ∨ st = StatusResolved) ∧
               ∃ a t res, att !! a = Some t ∧ ta_result t = Some res ∧
                 finding_id res = Some (triageFindingID a) ∧ result_code res = "success" ∧
                 output_digest res = fd f ∧ map_Forall (λ _ u, ¬ has_finding u) (delete a att)
           end
}.

Definition inv (fd : TriageFinding → string) (db : triage_db) : Prop :=
  inv4 fd (db_status db) (db_output db) (db_triage db) (db_attempts db).

Definition closed (t : triage_attempt) (res : attempt_result) : triage_attempt :=
  {| ta_number := ta_number t; ta_situation_id := ta_situation_id t;
     ta_membership_digest := ta_membership_digest t;
     ta_incident_input_digest := ta_incident_input_digest t;
     ta_member_delivery_ids := ta_member_delivery_ids t; ta_result := Some res |}.

Lemma close_lookup (att : gmap string triage_attempt) a t res b u :
  att !! a = Some t → <[a := closed t res]> att !! b = Some u →
  ∃ u0, att !! b = Some u0 ∧ ta_number u0 = ta_number u.
Proof.
  intros Ha Hb. rewrite lookup_insert in Hb. destruct (decide (a = b)) as [<-|]; [|eauto].
  injection Hb as <-. eauto.
Qed.

Lemma ledger_close (att : gmap string triage_attempt) a t res :
  att !! a = Some t → ledger_ok att → ledger_ok (<[a := closed t res]> att).
Proof.
  intros Ha (H1 & H2 & H3). unfold ledger_ok.
  rewrite map_size_insert_Some by eauto. split; [done|]. split.
  - apply map_Forall_insert_2; [|done]. apply (H2 a t Ha).
  - intros b c u v Hu Hv Hn.
    destruct (close_lookup _ _ _ _ _ _ Ha Hu) as (u0 & Hu0 & E1).
    destruct (close_lookup _ _ _ _ _ _ Ha Hv) as (v0 & Hv0 & E2).
    eapply H3; [done|done|congruence].
Qed.

Lemma running_close att a n t res :
  running att a n → att !! a = Some t → all_completed (<[a := closed t res]> att).
Proof.
  intros (u & Hu & _ & _ & Hc) Ha b v Hb. rewrite lookup_insert in Hb.
  destruct (decide (a = b)) as [<-|Hne]; [by injection Hb as <-|].
  apply (Hc b v). by rewrite lookup_delete_ne.
Qed.

Lemma size_close (att : gmap string triage_attempt) a (t u : triage_attempt) :
  att !! a = Some t → size (<[a := u]> att) = size att.
Proof. intros. by rewrite map_size_insert_Some by eauto. Qed.

(** Every transaction that ends an attempt without a Finding has this effect. *)
Lemma close_ok fd st out r att a t res r' s :
  inv4 fd st out (Some r) att → it_phase r = TriageInFlight → it_current_attempt_id r = Some a →
  att !! a = Some t → finding_id res = None →
  it_phase r' ≠ TriageInFlight → it_attempts r' = it_attempts r →
  it_lease_owner r' = None → it_lease_expires_at r' = None → it_current_attempt_id r' = None →
  status_phase s (it_phase r') →
  (it_phase r' ≠ TriageSkipped → it_phase r' ≠ TriageExhausted →
   it_attempts r < maxIncidentTriageAttempts)%Z →
  inv4 fd s out (Some r') (<[a := closed t res]> att).
Proof.
  intros [Hl [Hs [Hn Hr]] Ho] Hp Hc Ha Hf Hp' Hn' H1 H2 H3 Hs' H4.
  rewrite decide_True in Hr by done. destruct Hr as (_ & _ & a' & Hc' & Hrun).
  rewrite Hc in Hc'. injection Hc' as <-. rewrite Hp in Hs.
  assert (Hout : out = None).
  { destruct out; [|done]. destruct Ho as [[->| ->] _]; done. }
  subst out. split.
  - by apply ledger_close.
  - split; [done|]. unfold row_ok. rewrite decide_False by done. rewrite Hn', (size_close _ _ _ _ Ha).
    split_and!; try done. by eapply running_close.
  - apply map_Forall_insert_2; [|done]. intros (res' & [= <-] & [? ?]). congruence.
Qed.

Lemma in_flight_as_spec db a r :
  in_flight_as db a = Some r →
  db_triage db = Some r ∧ it_phase r = TriageInFlight ∧ it_current_attempt_id r = Some a.
Proof.
  unfold in_flight_as, opt_is. destruct (db_triage db) as [r'|]; [|done].
  case_bool_decide; cbn [andb]; [|done]. destruct (it_current_attempt_id r') as [b|] eqn:E; [|done].
  destruct (str_eqb b a) eqn:Eb; [|done]. go_bool. intros [= ->]. by subst.
Qed.

Lemma complete_attempt_spec db a res db' :
  complete_attempt db a res = Ok db' →
  ∃ t, db_attempts db !! a = Some t ∧ ta_result t = None ∧
    db' = set_attempts db (<[a := closed t res]> (db_attempts db)).
Proof.
  unfold complete_attempt. destruct (db_attempts db !! a) as [t|] eqn:Ea; [|done].
  destruct (ta_result t) eqn:Et; [done|]. intros [= <-]. eauto.
Qed.

Lemma release_spec db a f db' :
  release_schedule db a f = Ok db' →
  ∃ r, db_triage db = Some r ∧ it_phase r = TriageInFlight ∧ it_current_attempt_id r = Some a ∧
    db' = set_triage db (Some (f r)).
Proof.
  unfold release_schedule. destruct (in_flight_as db a) as [r|] eqn:E; [|done].
  apply in_flight_as_spec in E as (? & ? & ?). intros [= <-]. eauto.
Qed.

Lemma leave_spec db s db' :
  leave_processing db s = Ok db' → db_status db = StatusProcessing ∧ db' = set_status db s.
Proof. unfold leave_processing. case_bool_decide; [|done]. by intros [= <-]. Qed.

(** The attempt in flight is the one its number counts. *)
Lemma inflight_number fd db r a t :
  inv fd db → db_triage db = Some r → it_phase r = TriageInFlight →
  it_current_attempt_id r = Some a → db_attempts db !! a = Some t →
  ta_number t = it_attempts r ∧ ta_result t = None.
Proof.
  intros [_ Hr _] Ht Hp Hc Ha. rewrite Ht in Hr. destruct Hr as [_ [_ Hr]].
  rewrite decide_True in Hr by done. destruct Hr as (_ & _ & a' & Hc' & u & Hu & ? & ? & _).
  rewrite Hc in Hc'. injection Hc' as <-. rewrite Ha in Hu. by injection Hu as <-.
Qed.

(** How a row leaves in-flight. *)
Definition leaves (s : IncidentStatus) (n : Z) (r r' : incident_triage) : Prop :=
  it_phase r' ≠ TriageInFlight ∧ it_attempts r' = it_attempts r ∧ it_lease_owner r' = None ∧
  it_lease_expires_at r' = None ∧ it_current_attempt_id r' = None ∧ status_phase s (it_phase r') ∧
  (it_phase r' ≠ TriageSkipped → it_phase r' ≠ TriageExhausted → n < maxIncidentTriageAttempts)%Z.

Lemma leaves_unleased s n r p next :
  p ≠ TriageInFlight → status_phase s p →
  (p ≠ TriageSkipped → p ≠ TriageExhausted → n < maxIncidentTriageAttempts)%Z →
  leaves s n r (unleased r p next).
Proof. intros. by split_and!. Qed.

Lemma leaves_skipped n r : leaves StatusReady n r (skipped_below r).
Proof. split_and!; try done. simpl. tauto. Qed.

(** The three updates of a completion, in either order of the last two. *)
Definition ends_attempt (db : triage_db) (a : string) (res : attempt_result)
    (f : incident_triage → incident_triage) (s : IncidentStatus) (db' : triage_db) : Prop :=
  ∃ r t, db_triage db = Some r ∧ it_phase r = TriageInFlight ∧ it_current_attempt_id r = Some a ∧
    db_attempts db !! a = Some t ∧ ta_result t = None ∧ db_status db = StatusProcessing ∧
    db' = set_status (set_triage (set_attempts db (<[a := closed t res]> (db_attempts db)))
            (Some (f r))) s.

Lemma ends_release db a res f s db1 db2 db3 :
  complete_attempt db a res = Ok db1 → release_schedule db1 a f = Ok db2 →
  leave_processing db2 s = Ok db3 → ends_attempt db a res f s db3.
Proof.
  intros (t & Ha & Ht & ->)%complete_attempt_spec (r & Hr & Hp & Hc & ->)%release_spec
    [Hs ->]%leave_spec. by exists r, t.
Qed.

Lemma ends_leave db a res f s db1 db2 db3 :
  complete_attempt db a res = Ok db1 → leave_processing db1 s = Ok db2 →
  release_schedule db2 a f = Ok db3 → ends_attempt db a res f s db3.
Proof.
  intros (t & Ha & Ht & ->)%complete_attempt_spec [Hs ->]%leave_spec
    (r & Hr & Hp & Hc & ->)%release_spec. by exists r, t.
Qed.

Lemma ends_ok fd db a res f s db' :
  inv fd db → ends_attempt db a res f s db' → finding_id res = None →
  (∀ r t, db_attempts db !! a = Some t → leaves s (ta_number t) r (f r)) → inv fd db'.
Proof.
  intros Hi (r & t & Hr & Hp & Hc & Ha & Ht & Hs & ->) Hf Hl.
  destruct (inflight_number _ _ _ _ _ Hi Hr Hp Hc Ha) as [Hn _].
  destruct (Hl r t Ha) as (H1 & H2 & H3 & H4 & H5 & H6 & H7).
  unfold inv in *. simpl. rewrite Hr in Hi. eapply close_ok; try done. rewrite <- Hn. done.
Qed.

Lemma insert_input_inv fd db k key : inv fd db → inv fd (insertTriageSituationInputTx db k key).
Proof. done. Qed.

Ltac bind_ok H :=
  repeat (let d := fresh "d" in let E := fresh "E" in
          apply res_bind_ok in H as (d & E & H)).

Section invariant.
Context (mdigest : membershipDigestDTO → string) (idigest : incidentInputDigestDTO → string)
        (fdigest : TriageFinding → string) (sdigest : string → string → string → string → string)
        (edigest : string → string → string) (incidentID groupKey : string).

Abbreviation backoff := (BackoffIncidentTriageAttempt edigest incidentID).
Abbreviation exhaust := (ExhaustIncidentTriageAttempt edigest incidentID).
Abbreviation clean_skip := (CompleteIncidentTriageAttemptAsCleanSkip edigest incidentID).
Abbreviation complete := (CompleteIncidentTriageAttempt mdigest idigest fdigest sdigest incidentID groupKey).
Abbreviation inv := (inv fdigest).

Lemma backoff_ends db a next code detail db' :
  backoff db a next code detail = Ok db' →
  ∃ d key, ends_attempt db a
             {| result_code := code; output_digest := edigest code detail; finding_id := None |}
             (λ r, unleased r TriageBackoff (Some next)) StatusReady d ∧
    db' = insertTriageSituationInputTx d "triage_retry_changed" key.
Proof.
  unfold BackoffIncidentTriageAttempt. destruct (valid_ids _ _); [|done]. intros H. bind_ok H.
  injection H as <-. do 2 eexists. split; [|done]. by eapply ends_release.
Qed.

Lemma exhaust_ends db a code detail db' :
  exhaust db a code detail = Ok db' →
  ∃ d key, ends_attempt db a
             {| result_code := code; output_digest := edigest code detail; finding_id := None |}
             (λ r, unleased r TriageExhausted None) StatusFailed d ∧
    db' = insertTriageSituationInputTx d "triage_exhausted" key.
Proof.
  unfold ExhaustIncidentTriageAttempt. destruct (valid_ids _ _); [|done]. intros H. bind_ok H.
  injection H as <-. do 2 eexists. split; [|done]. by eapply ends_release.
Qed.

Lemma clean_skip_ends db a code detail db' :
  clean_skip db a code detail = Ok db' →
  ∃ d key, ends_attempt db a
             {| result_code := code; output_digest := edigest code detail; finding_id := None |}
             skipped_below StatusReady d ∧
    db' = insertTriageSituationInputTx d "triage_skipped" key.
Proof.
  unfold CompleteIncidentTriageAttemptAsCleanSkip. destruct (valid_ids _ _); [|done]. intros H. bind_ok H.
  injection H as <-. do 2 eexists. split; [|done]. by eapply ends_release.
Qed.

Lemma backoff_ok db a next code detail db' :
  inv db → backoff db a next code detail = Ok db' →
  (∀ t, db_attempts db !! a = Some t → (ta_number t < maxIncidentTriageAttempts)%Z) → inv db'.
Proof.
  intros Hi (d & key & He & ->)%backoff_ends Hn. apply insert_input_inv. eapply ends_ok; [done..|].
  intros r t Ha. apply leaves_unleased; [done|simpl; tauto|]. intros _ _. by apply Hn.
Qed.

Lemma exhaust_ok db a code detail db' : inv db → exhaust db a code detail = Ok db' → inv db'.
Proof.
  intros Hi (d & key & He & ->)%exhaust_ends. apply insert_input_inv. eapply ends_ok; [done..|].
  intros r t _. by apply leaves_unleased.
Qed.

Lemma clean_skip_ok db a code detail db' : inv db → clean_skip db a code detail = Ok db' → inv db'.
Proof.
  intros Hi (d & key & He & ->)%clean_skip_ends. apply insert_input_inv. eapply ends_ok; [done..|].
  intros r t _. apply leaves_skipped.
Qed.

(** What a completed analysis leaves, by its outcome. *)
Inductive completion (db : triage_db) (a : string) (f : TriageFinding)
    : TriageCompletionResult → triage_db → Prop :=
| completion_replay t res r :
    db_attempts db !! a = Some t → ta_result t = Some res →
    idempotentReplayResult fdigest res f = Some r → completion db a f r db
| completion_success t r :
    db_attempts db !! a = Some t → ta_result t = None → db_status db = StatusProcessing →
    db_situations db !! ta_situation_id t = Some r → Terminal r = false →
    membership mdigest incidentID db = ta_membership_digest t →
    input mdigest idigest incidentID groupKey db = ta_incident_input_digest t →
    completion db a f
      {| cr_Outcome := TriageCompletionSuccess; cr_FindingID := triageFindingID a;
         cr_OutputDigest := fdigest f |}
      (insertTriageSituationInputTx
         (set_triage (set_output (set_status (set_attempts db
            (<[a := closed t {| result_code := "success"; output_digest := fdigest f;
                                finding_id := Some (triageFindingID a) |}]> (db_attempts db)))
            StatusAnalyzed) f) None) "finding_persisted" ("finding-persisted:" +:+ a))
| completion_stale t o digest d key :
    db_attempts db !! a = Some t → (ta_number t < maxIncidentTriageAttempts)%Z →
    o = TriageCompletionStaleMembership ∧
      membership mdigest incidentID db ≠ ta_membership_digest t ∨
    o = TriageCompletionStaleIncidentInput ∧
      input mdigest idigest incidentID groupKey db ≠ ta_incident_input_digest t →
    ends_attempt db a {| result_code := outcome_text o; output_digest := digest; finding_id := None |}
      (λ r, unleased r AwaitingDecision None) StatusReady d →
    completion db a f {| cr_Outcome := o; cr_FindingID := ""; cr_OutputDigest := digest |}
      (insertTriageSituationInputTx d "triage_retry_changed" key)
| completion_exhausted t o digest d key :
    db_attempts db !! a = Some t → o ≠ TriageCompletionSuccess →
    o = TriageCompletionOwnerTerminal ∨ (maxIncidentTriageAttempts ≤ ta_number t)%Z →
    (o = TriageCompletionOwnerTerminal → digest = fdigest f) →
    ends_attempt db a {| result_code := outcome_text o; output_digest := digest; finding_id := None |}
      (λ r, unleased r TriageExhausted None) StatusFailed d →
    completion db a f {| cr_Outcome := o; cr_FindingID := ""; cr_OutputDigest := digest |}
      (insertTriageSituationInputTx d "triage_exhausted" key).

Lemma exhausted_stale_completion db a f t o digest db1 db' r :
  db_attempts db !! a = Some t → o ≠ TriageCompletionSuccess →
  o = TriageCompletionOwnerTerminal ∨ (maxIncidentTriageAttempts ≤ ta_number t)%Z →
  (o = TriageCompletionOwnerTerminal → digest = fdigest f) →
  complete_attempt db a {| result_code := outcome_text o; output_digest := digest;
                           finding_id := None |} = Ok db1 →
  completeExhaustedStaleTx db1 a o digest = Ok (db', r) → completion db a f r db'.
Proof.
  intros Ha Ho Hn Hdg E H. unfold completeExhaustedStaleTx in H. bind_ok H. injection H as <- <-.
  eapply completion_exhausted; [done..|]. by eapply ends_release.
Qed.

Lemma stale_completion db a f t o digest db' r :
  db_attempts db !! a = Some t →
  o = TriageCompletionStaleMembership ∧ membership mdigest incidentID db ≠ ta_membership_digest t ∨
  o = TriageCompletionStaleIncidentInput ∧
    input mdigest idigest incidentID groupKey db ≠ ta_incident_input_digest t →
  completeStaleTx db a (ta_number t) o digest = Ok (db', r) → completion db a f r db'.
Proof.
  intros Ha Ho H. unfold completeStaleTx in H. apply res_bind_ok in H as (d & E & H).
  destruct (maxIncidentTriageAttempts <=? ta_number t)%Z eqn:En; go_bool.
  - assert (Hne : o ≠ TriageCompletionSuccess ∧ o ≠ TriageCompletionOwnerTerminal) by naive_solver.
    exact (exhausted_stale_completion _ _ f _ _ _ _ _ _ Ha (proj1 Hne) (or_intror En)
             (λ Hot, False_ind _ (proj2 Hne Hot)) E H).
  - bind_ok H. injection H as <- <-. eapply completion_stale; [done|lia|done|]. by eapply ends_leave.
Qed.

Lemma complete_cases db a f db' r : complete db a f = Ok (db', r) → completion db a f r db'.
Proof.
  unfold CompleteIncidentTriageAttempt. destruct (_ && _); [|done].
  destruct (db_attempts db !! a) as [t|] eqn:Ea; [|done].
  destruct (ta_result t) as [res|] eqn:Et.
  { destruct (idempotentReplayResult fdigest res f) as [r'|] eqn:Er; [|done]. intros [= <- <-].
    by eapply completion_replay. }
  destruct (db_situations db !! ta_situation_id t) as [l|] eqn:El; [|done].
  destruct (Terminal l) eqn:Eterm.
  { unfold completeOwnerTerminalTx. intros H. apply res_bind_ok in H as (d & E & H).
    refine (exhausted_stale_completion _ _ f t TriageCompletionOwnerTerminal _ _ _ _ Ea _ (or_introl eq_refl)
              (λ _, eq_refl) E H). done. }
  destruct (str_eqb (membership _ _ db) _) eqn:Em; go_bool; cbn [negb];
    [|intros H; eapply (stale_completion _ _ _ t); [exact Ea| |exact H]; by left].
  destruct (str_eqb (input _ _ _ _ db) _) eqn:Ei; go_bool; cbn [negb];
    [|intros H; eapply (stale_completion _ _ _ t); [exact Ea| |exact H]; by right].
  unfold completeSuccessTx. intros H. bind_ok H. injection H as <- <-.
  apply complete_attempt_spec in E as (t' & Ha' & _ & ->). apply leave_spec in E0 as [Hs ->].
  rewrite Ea in Ha'. injection Ha' as <-. by eapply completion_success.
Qed.

Lemma inv_processing db :
  inv db → db_status db = StatusProcessing →
  ∃ r a t, db_triage db = Some r ∧ it_phase r = TriageInFlight ∧ it_current_attempt_id r = Some a ∧
    db_attempts db !! a = Some t ∧ ta_result t = None ∧
    all_completed (delete a (db_attempts db)) ∧ db_output db = None.
Proof.
  intros [_ Hr Ho] Hs. rewrite Hs in *. destruct (db_triage db) as [r|]; [|naive_solver].
  destruct Hr as [Hp [_ Hr]]. simpl in Hp. rewrite decide_True in Hr by done.
  destruct Hr as (_ & _ & a & Hc & t & Ha & Ht & _ & Hd). exists r, a, t. split_and!; try done.
  destruct (db_output db); [|done]. naive_solver.
Qed.

Lemma complete_ok db a f db' r : inv db → complete db a f = Ok (db', r) → inv db'.
Proof.
  intros Hi H%complete_cases. destruct H as [| t l Ha Ht Hs _ _ _ _ |t o digest d key Ha Hn _ He|
    t o digest d key Ha _ _ _ He]; [done| | |].
  - destruct (inv_processing _ Hi Hs) as (row & a' & t' & Hrow & Hp & Hc & Ha' & Ht' & Hd & Hout).
    assert (a = a') as <-.
    { destruct (decide (a = a')) as [|Hne]; [done|]. assert (is_Some (ta_result t)) as [? ?]; [|congruence].
      apply (Hd a t). by rewrite lookup_delete_ne. }
    unfold TriageStore.inv in *. simpl. destruct Hi as [Hl Hr Ho]. rewrite Hout in Ho. split.
    + by apply ledger_close.
    + split; [by right; left|]. intros b u Hb. rewrite lookup_insert in Hb.
      destruct (decide (a = b)); [by simplify_eq|]. apply (Hd b u). by rewrite lookup_delete_ne.
    + split; [by left|]. exists a. do 2 eexists. rewrite lookup_insert_eq. split_and!; try done.
      rewrite delete_insert_eq. by apply map_Forall_delete.
  - apply insert_input_inv. eapply ends_ok; [done..|]. intros row u Hu.
    rewrite Ha in Hu. injection Hu as <-. apply leaves_unleased; [done|simpl; tauto|done].
  - apply insert_input_inv. eapply ends_ok; [done..|]. intros row u Hu. by apply leaves_unleased.
Qed.

Abbreviation claim := (ClaimIncidentTriageAttempt mdigest idigest incidentID groupKey).

Lemma existsb_map (att : gmap string triage_attempt) p :
  existsb (λ ka, p ka.2) (map_to_list att) = false ↔ map_Forall (λ _ t, p t = false) att.
Proof.
  rewrite <- not_true_iff_false, existsb_exists. split.
  - intros H a t Ha. apply not_true_iff_false. intros Hp. apply H. exists (a, t). split; [|done].
    by apply list_elem_of_In, elem_of_map_to_list.
  - intros H ([a t] & Hin & Hp). apply list_elem_of_In, elem_of_map_to_list in Hin.
    specialize (H a t Hin). simpl in *. congruence.
Qed.

(** A claim that goes through. *)
Record claimed (db : triage_db) (a owner : string) (now : Time) (lease : Duration)
    (r : incident_triage) (sid : string) : Prop := {
  ck_row : db_triage db = Some r;
  ck_status : db_status db = StatusReady;
  ck_phase : schedulable (it_phase r) = true;
  ck_due : not_due (it_next_at r) now = false;
  ck_situation : it_situation_id r = Some sid;
  ck_decided : is_Some (it_decision_input_version r);
  ck_attempts : (it_attempts r < maxIncidentTriageAttempts)%Z;
  ck_owner : ∀ l, db_situations db !! sid = Some l → Terminal l = false;
  ck_membership : default "" (it_membership_digest r) = membership mdigest incidentID db;
  ck_input : default "" (it_incident_input_digest r) = input mdigest idigest incidentID groupKey db;
  ck_fresh : db_attempts db !! a = None;
  ck_number : map_Forall (λ _ t, ta_number t ≠ it_attempts r + 1)%Z (db_attempts db)
}.

Definition new_attempt (db : triage_db) (r : incident_triage) (sid : string) : triage_attempt :=
  {| ta_number := (it_attempts r + 1)%Z; ta_situation_id := sid;
     ta_membership_digest := membership mdigest incidentID db;
     ta_incident_input_digest := input mdigest idigest incidentID groupKey db;
     ta_member_delivery_ids := deliveryIDs db; ta_result := None |}.

Definition after_claim (db : triage_db) (a owner : string) (expires : Time) (r : incident_triage)
    (sid : string) : triage_db :=
  insertTriageSituationInputTx
    (set_status (set_triage (set_attempts db (<[a := new_attempt db r sid]> (db_attempts db)))
       (Some (claim_row r a owner expires))) StatusProcessing)
    "triage_retry_changed" ("triage-retry-changed:" +:+ a +:+ ":begin").

Lemma claim_cases db a owner now lease db' c :
  claim db a owner now lease = Ok (db', c) →
  ∃ r sid, claimed db a owner now lease r sid ∧ db' = after_claim db a owner (Add now lease) r sid ∧
    cl_AttemptNumber c = (it_attempts r + 1)%Z ∧ cl_ClaimToken c = (it_claim_token r + 1)%Z.
Proof.
  unfold ClaimIncidentTriageAttempt. destruct (_ && _ && _); [|done].
  destruct (db_triage db) as [r|] eqn:Hr; [|done]. case_bool_decide as Hs; [|done].
  destruct (schedulable _) eqn:Hp; [|done]. destruct (not_due _ _) eqn:Hd; [done|]. cbn [negb].
  destruct (it_situation_id r) as [sid|] eqn:Hsid; [|done].
  destruct (it_decision_input_version r) eqn:Hv; [|done].
  destruct (_ <? _)%Z eqn:Hn; [|done]. destruct (negb _) eqn:Hterm; [|done].
  destruct (str_eqb (default "" _) _ && _) eqn:Hdig; [|done]. intros H.
  apply res_bind_ok in H as (db1 & Hins & H). injection H as <- <-.
  unfold insert_attempt in Hins. destruct (_ || _) eqn:Hc; [done|]. injection Hins as <-.
  go_bool. exists r, sid. split; [|done]. split; try done; try (by eauto).
  - intros l Hl. rewrite Hl in Hterm. by go_bool.
  - destruct (db_attempts db !! a) eqn:Ea; [|done]. exfalso.
    match goal with H : bool_decide _ = false |- _ => apply bool_decide_eq_false in H; apply H; eauto end.
  - match goal with H : existsb _ _ = false |- _ => apply (existsb_map _ (λ t, ta_number t =? _)%Z) in H;
      intros b t Hb; specialize (H b t Hb); simpl in H; by go_bool end.
Qed.

Lemma claim_ok db a owner now lease db' c :
  inv db → claim db a owner now lease = Ok (db', c) → inv db'.
Proof.
  intros [Hl Hr Ho] (r & sid & [] & -> & _)%claim_cases. unfold after_claim. apply insert_input_inv.
  unfold TriageStore.inv. simpl. rewrite ck_row0, ck_status0 in Hr. destruct Hr as [Hph [Hn Hrow]].
  rewrite decide_False in Hrow by (intros E; rewrite E in ck_phase0; done).
  destruct Hrow as (_ & _ & _ & Hall & _). destruct Hl as (H1 & H2 & H3).
  assert (Hsize : size (<[a := new_attempt db r sid]> (db_attempts db)) = S (size (db_attempts db)))
    by (by rewrite map_size_insert_None).
  assert (Hout : db_output db = None).
  { destruct (db_output db); [|done]. rewrite ck_status0 in Ho. naive_solver. }
  rewrite Hout in *. split.
  - unfold ledger_ok. rewrite Hsize. split; [lia|]. split.
    + apply map_Forall_insert_2; [simpl; lia|]. intros b t Hb. specialize (H2 b t Hb). simpl in H2. lia.
    + intros b c' t u Ht Hu Htu. rewrite lookup_insert in Ht, Hu.
      destruct (decide (a = b)) as [<-|], (decide (a = c')) as [<-|]; [done| | |by eapply H3].
      * injection Ht as <-. exfalso. by apply (ck_number0 c' u Hu).
      * injection Hu as <-. exfalso. by apply (ck_number0 b t Ht).
  - split; [done|]. split; [simpl; lia|]. rewrite decide_True by done. split_and!; [by eexists..|].
    exists a. split; [done|]. eexists. rewrite lookup_insert_eq. split_and!; try done.
    rewrite delete_insert_id by done. done.
  - apply map_Forall_insert_2; [|done]. intros (res & [=] & _).
Qed.

(** A row not in flight may change its schedule freely below the bound. *)
Lemma row_idle att r r' :
  it_phase r ≠ TriageInFlight → row_ok att r → it_phase r' ≠ TriageInFlight →
  it_attempts r' = it_attempts r → it_lease_owner r' = None → it_lease_expires_at r' = None →
  it_current_attempt_id r' = None →
  (it_phase r' ≠ TriageSkipped → it_phase r' ≠ TriageExhausted →
   it_phase r ≠ TriageSkipped ∧ it_phase r ≠ TriageExhausted) → row_ok att r'.
Proof.
  unfold row_ok. intros Hp [H1 H2] Hp' -> -> -> -> Hb. rewrite decide_False in H2 by done. rewrite decide_False by done.
  destruct H2 as (_ & _ & _ & H & Hn). split_and!; try done. intros ??. apply Hn; by apply Hb.
Qed.

Lemma decide_ok db d now : inv db → inv (applyOneTriageDecisionTx incidentID db d now).
Proof.
  intros Hi. unfold applyOneTriageDecisionTx. destruct (db_triage db) as [r|] eqn:Hr; [|done].
  assert (Hidle : it_phase r = AwaitingDecision ∨ schedulable (it_phase r) = true →
                  ∀ p next txt, p = TriagePending ∨ p = TriageSkipped ∨ p = it_phase r →
                  inv (set_triage db (Some (decided r p next d txt)))).
  { intros Hph p next txt Hpp. destruct Hi as [Hl Hrow Ho]. rewrite Hr in Hrow.
    destruct Hrow as [Hs Hrow]. assert (Hnf : it_phase r ≠ TriageInFlight)
      by (destruct (it_phase r); simpl in *; naive_solver).
    assert (Hrd : db_status db = StatusReady) by (destruct (db_status db), (it_phase r); simpl in *; naive_solver).
    pose proof Hrow as [_ Hfree]. rewrite decide_False in Hfree by done. destruct Hfree as (E1 & E2 & E3 & _).
    split; simpl; try done. split; [rewrite Hrd; simpl; destruct (it_phase r); naive_solver|].
    eapply row_idle; try done; destruct (it_phase r); simpl in *; naive_solver. }
  destruct (bool_decide_reflect (it_phase r = AwaitingDecision)) as [Ha|Ha]; cbn [andb].
  - destruct (str_eqb _ TriageDecisionRequest); [apply Hidle; by left|].
    destruct (str_eqb _ TriageDecisionSkip); [|by rewrite andb_false_r].
    apply insert_input_inv, Hidle; [by left|]. by right; left.
  - destruct (schedulable (it_phase r)) eqn:Hs; cbn [andb]; [|done].
    destruct (str_eqb _ TriageDecisionRequest); [|done]. apply Hidle; [by right|]. by right; right.
Qed.

Lemma ready_ok db db' : inv db → MarkIncidentReady incidentID db = Ok db' → inv db'.
Proof.
  intros [[H1 H2] Hr Ho]. unfold MarkIncidentReady, seedAwaitingDecisionTriageTx.
  destruct (db_status db) eqn:Hs; try done; destruct (db_outbox db !! _); try done;
    [|intros [= <-]; destruct (db_triage db) eqn:Ht; [|naive_solver]; by split; rewrite ?Hs, ?Ht].
  destruct (db_triage db) as [r|] eqn:Ht; [naive_solver|]. simpl. rewrite Ht. intros [= <-].
  destruct Hr as [[[_ Hatt]|[|]] Hall]; try done. split; simpl; try done.
  - split; [by left|]. rewrite Hatt. done.
  - destruct (db_output db); [naive_solver|done].
Qed.

Lemma skip_before_ok db l m now db' b :
  inv db → CleanSkipIncidentTriageBelowMinimumMembers incidentID db l m now = Ok (db', b) → inv db'.
Proof.
  intros Hi. unfold CleanSkipIncidentTriageBelowMinimumMembers. destruct (_ && _); [|done].
  destruct (db_triage db) as [r|] eqn:Hr; [|by intros [= <- <-]].
  case_bool_decide as Hs; [|by intros [= <- <-]]. cbn [negb].
  destruct (schedulable (it_phase r)) eqn:Hp; [|by intros [= <- <-]].
  destruct (it_situation_id r), (it_decision_input_version r); try by intros [= <- <-].
  destruct (not_due _ _); [by intros [= <- <-]|]. destruct (_ <=? _)%Z; [by intros [= <- <-]|].
  intros [= <- <-]. apply insert_input_inv. destruct Hi as [Hl Hrow Ho]. rewrite Hr in Hrow.
  destruct Hrow as [Hst Hrow]. split; simpl; try done. rewrite Hs. split; [simpl; tauto|].
  eapply row_idle; try done; destruct (it_phase r); simpl in *; naive_solver.
Qed.

Lemma overdue_ok db now h : inv db → inv (ExhaustOverdueUnclaimedIncidentTriage incidentID db now h).
Proof.
  intros Hi. unfold ExhaustOverdueUnclaimedIncidentTriage. destruct (_ <=? _)%Z; [done|].
  destruct (db_triage db) as [r|] eqn:Hr; [|done]. destruct (it_next_at r); [|done].
  destruct (schedulable _) eqn:Hp; cbn [andb]; [|done]. destruct (text_ltb _ _); [|done].
  apply insert_input_inv. destruct Hi as [Hl Hrow Ho]. rewrite Hr in Hrow. destruct Hrow as [Hst Hrow].
  assert (Hs : db_status db = StatusReady) by (destruct (db_status db), (it_phase r); simpl in *; naive_solver).
  simpl. rewrite bool_decide_eq_true_2 by done. split; simpl; try done.
  - split; [done|]. pose proof Hrow as [_ Hfree].
    rewrite decide_False in Hfree by (intros E; rewrite E in Hp; done).
    destruct Hfree as (E1 & E2 & E3 & _).
    eapply row_idle; try done; destruct (it_phase r); simpl in *; naive_solver.
  - destruct (db_output db); [rewrite Hs in Ho; naive_solver|done].
Qed.

Lemma recover_ok db now : inv db → inv (RecoverExpiredIncidentTriageAttempts edigest incidentID db now).
Proof.
  intros Hi. unfold RecoverExpiredIncidentTriageAttempts, expired_attempt.
  destruct (db_triage db) as [r|] eqn:Hr; [|done]. destruct (it_phase r) eqn:Hp; try done.
  destruct (it_current_attempt_id r) as [a|] eqn:Hc; [|done].
  destruct (match it_lease_expires_at r with Some _ => _ | None => _ end); [|done].
  destruct (maxIncidentTriageAttempts <=? it_attempts r)%Z eqn:Hn; go_bool.
  - destruct (exhaust _ _ _ _) eqn:E; [|done]. by eapply exhaust_ok.
  - destruct (backoff _ _ _ _ _) eqn:E; [|done]. eapply backoff_ok; [done..|].
    intros t Ha. destruct (inflight_number _ _ _ _ _ Hi Hr Hp Hc Ha) as [-> _]. lia.
Qed.

Lemma resolve_ok db db' : inv db → MarkIncidentResolved db = Ok db' → inv db'.
Proof.
  intros [Hl Hr Ho]. unfold MarkIncidentResolved.
  assert (Hout : ∀ f, (db_status db = StatusAnalyzed ∨ db_status db = StatusResolved) ∧ f →
                      (StatusResolved = StatusAnalyzed ∨ StatusResolved = StatusResolved) ∧ f) by naive_solver.
  destruct (_ || _) eqn:Hs; [|done]. apply orb_true_iff in Hs. rewrite !bool_decide_eq_true in Hs.
  intros [= <-]. simpl. destruct (db_triage db) as [r|] eqn:Ht.
  - destruct Hr as [Hp [Hn Hrow]]. destruct (decide (it_phase r = TriageExhausted)) as [He|He].
    { rewrite He in Hp. destruct Hs as [Hs|Hs]; rewrite Hs in Hp; naive_solver. }
    split; simpl; try done.
    + split; [by right; right|]. case_decide as Hf; [|tauto].
      rewrite Hf in Hp. destruct Hs as [Hs|Hs]; rewrite Hs in Hp; naive_solver.
    + destruct (db_output db); [by apply Hout|done].
  - split; simpl; try done.
    + rewrite Ht. destruct Hr as [_ Hr]. split; [by right; right|done].
    + destruct (db_output db); [by apply Hout|done].
Qed.

Lemma reopen_ok db db' : inv db → reopen_resolved db = Ok db' → inv db'.
Proof.
  intros [Hl Hr Ho]. unfold reopen_resolved. case_bool_decide as Hs; [|done]. intros [= <-].
  rewrite Hs in *. split; simpl; try done.
  - destruct (db_triage db); [naive_solver|]. destruct Hr as [_ Hr]. split; [by right; left|done].
  - destruct (db_output db); [|done]. destruct Ho as [_ Ho]. split; [by left|done].
Qed.

Lemma extend_ok db a owner now lease db' :
  inv db → ExtendIncidentTriageLease incidentID db a owner now lease = Ok db' → inv db'.
Proof.
  intros [Hl Hrow Ho]. unfold ExtendIncidentTriageLease. destruct (_ && _ && _ && _); [|done].
  destruct (in_flight_as db a) as [r|] eqn:E; [|done]. apply in_flight_as_spec in E as (Hr & Hp & Hc).
  destruct (opt_is _ _); [|done]. intros [= <-]. rewrite Hr in Hrow. destruct Hrow as [Hs [Hn Hrow]].
  split; simpl; try done. split; [by rewrite Hp in *|]. split; [done|]. simpl.
  rewrite decide_True in Hrow by done. rewrite decide_True by done. destruct Hrow as (H1 & H2 & H3).
  split_and!; [done|by eexists|done].
Qed.

Abbreviation step := (TriageStore.step mdigest idigest fdigest sdigest edigest incidentID groupKey).
Abbreviation run := (TriageStore.run mdigest idigest fdigest sdigest edigest incidentID groupKey).

Lemma worker_finish_ok db a t r now db' :
  inv db → db_attempts db !! a = Some t →
  completeAttempt mdigest idigest fdigest sdigest edigest incidentID groupKey
    maxIncidentTriageAttempts db a (ta_number t) r now = Ok db' → inv db'.
Proof.
  intros Hi Ha. destruct r as [f| |code detail]; simpl.
  - intros ([db1 res] & E & [= <-])%res_bind_ok. by eapply complete_ok.
  - by apply clean_skip_ok.
  - destruct (_ <=? _)%Z eqn:En; go_bool; [by apply exhaust_ok|]. intros H. eapply backoff_ok; [done..|].
    intros u Hu. rewrite Ha in Hu. injection Hu as <-. lia.
Qed.

Lemma step_ok db e : inv db → inv (step db e).
Proof.
  intros Hi. destruct e as [d|sid l| |d now|l m now|a o now lease|a o now lease|a r now|now|now h| |];
    simpl; [done|done| | | | | | | | | |].
  - destruct (MarkIncidentReady _ db) eqn:E; [|done]. by eapply ready_ok.
  - by apply decide_ok.
  - destruct (CleanSkipIncidentTriageBelowMinimumMembers _ _ _ _ _) as [[]|] eqn:E; [|done].
    by eapply skip_before_ok.
  - destruct (claim db a o now lease) as [[]|] eqn:E; [|done]. by eapply claim_ok.
  - destruct (ExtendIncidentTriageLease _ _ _ _ _ _) eqn:E; [|done]. by eapply extend_ok.
  - destruct (db_attempts db !! a) as [t|] eqn:Ha; [|done].
    destruct (completeAttempt _ _ _ _ _ _ _ _ _ _ _ _ _) eqn:E; [|done]. by eapply worker_finish_ok.
  - by apply recover_ok.
  - by apply overdue_ok.
  - destruct (MarkIncidentResolved db) eqn:E; [|done]. by eapply resolve_ok.
  - destruct (reopen_resolved db) eqn:E; [|done]. by eapply reopen_ok.
Qed.

Lemma init_ok : inv db_init.
Proof.
  split; simpl.
  - split; [done|]. split; [apply map_Forall_empty|]. intros a b t u Ha. by rewrite lookup_empty in Ha.
  - split; [by left|apply map_Forall_empty].
  - apply map_Forall_empty.
Qed.

Lemma run_ok es : inv (run db_init es).
Proof.
  unfold TriageStore.run. generalize init_ok. generalize db_init. induction es as [|e es IH]; intros db Hi; [done|].
  simpl. by apply IH, step_ok.
Qed.

(** *** Completed attempts *)

Lemma completed_not_current db a t res r :
  inv db → db_attempts db !! a = Some t → ta_result t = Some res →
  db_triage db = Some r → it_phase r = TriageInFlight → it_current_attempt_id r ≠ Some a.
Proof.
  intros Hi Ha Ht Hr Hp Hc. destruct (inflight_number _ _ _ _ _ Hi Hr Hp Hc Ha) as [_ ?]. congruence.
Qed.

Lemma complete_attempt_done db a t res res' :
  db_attempts db !! a = Some t → ta_result t = Some res →
  complete_attempt db a res' = Err ErrTriageAttemptLeaseLost.
Proof. intros Ha Ht. unfold complete_attempt. by rewrite Ha, Ht. Qed.

Lemma finish_done db a t res r now :
  db_attempts db !! a = Some t → ta_result t = Some res → step db (EvFinish a r now) = db.
Proof.
  intros Ha Ht. simpl. rewrite Ha. pose proof (complete_attempt_done db a t res) as Hd.
  destruct r as [f| |code detail]; simpl.
  - unfold CompleteIncidentTriageAttempt. destruct (_ && _); [|done]. rewrite Ha, Ht.
    by destruct (idempotentReplayResult _ _ _).
  - unfold CompleteIncidentTriageAttemptAsCleanSkip, completeFailedAttemptTx. rewrite Hd by done.
    by destruct (valid_ids _ _).
  - unfold ExhaustIncidentTriageAttempt, BackoffIncidentTriageAttempt, completeFailedAttemptTx.
    rewrite Hd by done. by destruct (_ <=? _)%Z, (valid_ids _ _).
Qed.

Lemma extend_done db a t res o now lease :
  inv db → db_attempts db !! a = Some t → ta_result t = Some res → step db (EvExtend a o now lease) = db.
Proof.
  intros Hi Ha Ht. simpl. unfold ExtendIncidentTriageLease. destruct (_ && _ && _ && _); [|done].
  destruct (in_flight_as db a) as [r|] eqn:E; [|done]. apply in_flight_as_spec in E as (Hr & Hp & Hc).
  exfalso. by eapply completed_not_current.
Qed.

(** ** Theorems *)

(** C39. Whatever the order of deliveries, decisions, claims, completions, lost
    leases, recoveries and resolutions, however late a worker reports: an
    Incident gets at most five attempts, numbered apart; a schedule that can be
    claimed belongs to a ready Incident, has an attempt left and nothing
    running; an Incident is processing exactly when one attempt, the current
    one, is running under a lease. *)
Theorem schedule_invariant es :
  let db := run db_init es in
  (Z.of_nat (size (db_attempts db)) ≤ 5)%Z ∧
  (∀ a b t u, db_attempts db !! a = Some t → db_attempts db !! b = Some u →
     ta_number t = ta_number u → a = b) ∧
  (∀ r, db_triage db = Some r → schedulable (it_phase r) = true →
     db_status db = StatusReady ∧ (it_attempts r < 5)%Z ∧ all_completed (db_attempts db)) ∧
  (∀ r, db_triage db = Some r → it_phase r = TriageInFlight → db_status db = StatusProcessing) ∧
  (db_status db = StatusProcessing →
     ∃ r a t, db_triage db = Some r ∧ it_phase r = TriageInFlight ∧
       it_current_attempt_id r = Some a ∧ is_Some (it_lease_expires_at r) ∧
       db_attempts db !! a = Some t ∧ ta_number t = it_attempts r ∧
       ∀ b u, db_attempts db !! b = Some u → ta_result u = None ↔ b = a).
Proof.
  intros db. pose proof (run_ok es) as Hi. fold db in Hi. clearbody db.
  pose proof Hi as [(H1 & _ & H3) Hr _]. unfold maxIncidentTriageAttempts in *. split_and!; try done.
  - intros r Ht Hp. rewrite Ht in Hr. destruct Hr as [Hs [_ Hrow]].
    rewrite decide_False in Hrow by (intros E; by rewrite E in Hp). destruct Hrow as (_ & _ & _ & Hall & Hn).
    split_and!; [|apply Hn; intros E; by rewrite E in Hp|done].
    destruct (db_status db), (it_phase r); simpl in *; naive_solver.
  - intros r Ht Hp. rewrite Ht in Hr. destruct Hr as [Hs _]. rewrite Hp in Hs.
    destruct (db_status db); simpl in *; naive_solver.
  - intros Hs. destruct (inv_processing _ Hi Hs) as (r & a & t & Hrow & Hp & Hc & Ha & Ht & Hd & _).
    destruct (inflight_number _ _ _ _ _ Hi Hrow Hp Hc Ha) as [Hn _].
    rewrite Hrow in Hr. destruct Hr as [_ [_ Hr]]. rewrite decide_True in Hr by done.
    destruct Hr as (_ & He & _). exists r, a, t. split_and!; try done. intros b u Hu. split.
    + intros Hnone. destruct (decide (a = b)) as [|Hne]; [done|].
      destruct (Hd b u) as [? ?]; [by rewrite lookup_delete_ne|congruence].
    + intros ->. by simplify_eq.
Qed.

(** An Incident's first output is one attempt's Finding and no other's: in
    every reachable database it is present exactly when one attempt ended in
    success, with the digest of that very output, and the Incident is then
    analyzed or resolved. *)
Theorem finding_provenance es :
  let db := run db_init es in
  (∀ f, db_output db = Some f →
     (db_status db = StatusAnalyzed ∨ db_status db = StatusResolved) ∧
     ∃ a t res, db_attempts db !! a = Some t ∧ ta_result t = Some res ∧
       result_code res = "success" ∧ finding_id res = Some (triageFindingID a) ∧
       output_digest res = fdigest f ∧
       ∀ b u, db_attempts db !! b = Some u → has_finding u → b = a) ∧
  (db_output db = None → ∀ a t, db_attempts db !! a = Some t → ¬ has_finding t).
Proof.
  intros db. pose proof (run_ok es) as [_ _ Ho]. fold db in Ho. clearbody db. split.
  - intros f Hf. rewrite Hf in Ho. destruct Ho as (Hs & a & t & res & Ha & Ht & Hid & Hc & Hd & Hu).
    split; [done|]. exists a, t, res. split_and!; try done. intros b u Hb Hfu.
    destruct (decide (a = b)) as [|Hne]; [done|]. exfalso.
    by apply (Hu b u); [rewrite lookup_delete_ne|].
  - intros Hn. rewrite Hn in Ho. exact Ho.
Qed.

(** A running attempt's analysis is promoted exactly when it is still
    authorized: its Situation is open and the Incident's members and inputs are
    those it was claimed with.  Otherwise no output is written, and the schedule
    waits for a new decision, or ends when the Situation closed or no attempt is
    left: it is never left claimable. *)
Theorem completion_outcomes db a f t db' r :
  db_attempts db !! a = Some t → ta_result t = None → complete db a f = Ok (db', r) →
  (cr_Outcome r = TriageCompletionSuccess →
     (∀ l, db_situations db !! ta_situation_id t = Some l → Terminal l = false) ∧
     membership mdigest incidentID db = ta_membership_digest t ∧
     input mdigest idigest incidentID groupKey db = ta_incident_input_digest t ∧
     db_output db' = Some f ∧ db_status db' = StatusAnalyzed ∧ db_triage db' = None) ∧
  (cr_Outcome r ≠ TriageCompletionSuccess →
     db_output db' = db_output db ∧
     ∃ row, db_triage db' = Some row ∧ it_next_at row = None ∧
       (it_phase row = AwaitingDecision ∧ db_status db' = StatusReady ∧ (ta_number t < 5)%Z ∨
        it_phase row = TriageExhausted ∧ db_status db' = StatusFailed ∧
        (cr_Outcome r = TriageCompletionOwnerTerminal ∨ (5 ≤ ta_number t)%Z))).
Proof.
  intros Ha Ht H%complete_cases. unfold maxIncidentTriageAttempts in *.
  destruct H as [u res r' Hu Hres _|u l Hu _ _ Hl Hterm Hm Hi|u o dg d key Hu Hn Ho He
                |u o dg d key Hu Hne Ho _ He]; rewrite Ha in Hu; injection Hu as <-; [congruence| | |];
    simpl; split; try done.
  - intros _. split_and!; try done. intros l' Hl'. rewrite Hl in Hl'. by injection Hl' as <-.
  - intros ->. naive_solver.
  - intros _. destruct He as (row & u & _ & _ & _ & _ & _ & _ & ->). simpl. split; [done|].
    eexists. split; [done|]. split; [done|]. left. done.
  - intros _. destruct He as (row & u & _ & _ & _ & _ & _ & _ & ->). simpl. split; [done|].
    eexists. split; [done|]. split; [done|]. right. done.
Qed.

(** C40. Reporting the same analysis of an attempt again is idempotent: it gives
    the committed result once more and changes nothing. *)
Theorem completion_replays db a f db' r :
  CompleteIncidentTriageAttempt mdigest idigest fdigest sdigest incidentID groupKey db a f = Ok (db', r) →
  CompleteIncidentTriageAttempt mdigest idigest fdigest sdigest incidentID groupKey db' a f = Ok (db', r).
Proof.
  intros H. assert (Hg : negb (str_eqb (TrimSpace a) "") && negb (str_eqb (TrimSpace incidentID) "") = true).
  { unfold CompleteIncidentTriageAttempt in H. by destruct (_ && _). }
  pose proof (complete_cases _ _ _ _ _ H) as Hc.
  assert (Hrep : ∃ t res, db_attempts db' !! a = Some t ∧ ta_result t = Some res ∧
                   idempotentReplayResult fdigest res f = Some r).
  { destruct Hc as [u res r' Hu Hres Hrep|u l Hu _ _ _ _ _ _|u o dg d key Hu _ Ho He
                   |u o dg d key Hu Hne _ Hdg He].
    - eauto.
    - simpl. rewrite lookup_insert_eq. do 2 eexists. split_and!; [done|done|].
      unfold idempotentReplayResult. simpl. by rewrite str_eqb_refl.
    - destruct He as (row & u' & _ & _ & _ & _ & _ & _ & ->). simpl. rewrite lookup_insert_eq.
      do 2 eexists. split_and!; [done|done|]. destruct Ho as [[-> _]|[-> _]]; done.
    - destruct He as (row & u' & _ & _ & _ & _ & _ & _ & ->). simpl.
      rewrite lookup_insert_eq. do 2 eexists. split_and!; [done|done|].
      destruct o; try done. unfold idempotentReplayResult. simpl. rewrite Hdg by done.
      by rewrite str_eqb_refl. }
  destruct Hrep as (t & res & Ha & Ht & Hr).
  unfold CompleteIncidentTriageAttempt. by rewrite Hg, Ha, Ht, Hr.
Qed.

Lemma ends_keeps db b res f s db' a t x :
  ends_attempt db b res f s db' → db_attempts db !! a = Some t → ta_result t = Some x →
  db_attempts db' !! a = Some t.
Proof.
  intros (r & u & _ & _ & _ & Hb & Hu & _ & ->) Ha Ht. simpl.
  rewrite lookup_insert_ne; [done|]. intros ->. congruence.
Qed.

Lemma finish_keeps db b n r now db' a t x :
  completeAttempt mdigest idigest fdigest sdigest edigest incidentID groupKey
    maxIncidentTriageAttempts db b n r now = Ok db' →
  db_attempts db !! a = Some t → ta_result t = Some x → db_attempts db' !! a = Some t.
Proof.
  intros H Ha Ht. destruct r as [f| |code detail]; simpl in H.
  - apply res_bind_ok in H as ([db1 res] & E%complete_cases & [= <-]).
    destruct E as [| u l Hb Hu _ _ _ _ _|u o dg d key _ _ _ He|u o dg d key _ _ _ _ He]; try done;
      [|simpl; by eapply ends_keeps..].
    simpl. rewrite lookup_insert_ne; [done|]. intros ->. congruence.
  - apply clean_skip_ends in H as (d & key & He & ->). simpl. by eapply ends_keeps.
  - destruct (_ <=? _)%Z; [apply exhaust_ends in H as (d & key & He & ->)
                          |apply backoff_ends in H as (d & key & He & ->)]; simpl; by eapply ends_keeps.
Qed.

Lemma step_keeps db e a t x :
  db_attempts db !! a = Some t → ta_result t = Some x → db_attempts (step db e) !! a = Some t.
Proof.
  intros Ha Ht. destruct e as [d|sid l| |d now|l m now|b o now lease|b o now lease|b r now|now|now h| |];
    simpl; try done.
  - unfold MarkIncidentReady, seedAwaitingDecisionTriageTx.
    destruct (db_status db); try done; destruct (db_outbox db !! _); try done; simpl;
      by destruct (db_triage db).
  - unfold applyOneTriageDecisionTx. destruct (db_triage db); [|done]. by repeat case_match.
  - unfold CleanSkipIncidentTriageBelowMinimumMembers. by repeat case_match; simplify_eq.
  - destruct (claim db b o now lease) as [[db' c]|] eqn:E; [|done].
    apply claim_cases in E as (r & sid & [] & -> & _). simpl. rewrite lookup_insert_ne; [done|].
    intros ->. congruence.
  - unfold ExtendIncidentTriageLease. by repeat case_match; simplify_eq.
  - destruct (db_attempts db !! b) as [u|]; [|done].
    destruct (completeAttempt _ _ _ _ _ _ _ _ _ _ _ _ _) eqn:E; [|done]. by eapply finish_keeps.
  - unfold RecoverExpiredIncidentTriageAttempts. destruct (expired_attempt db now) as [[b n]|]; [|done].
    destruct (_ <=? _)%Z.
    + destruct (exhaust _ _ _ _) eqn:E; [|done]. apply exhaust_ends in E as (d & key & He & ->).
      simpl. by eapply ends_keeps.
    + destruct (backoff _ _ _ _ _) eqn:E; [|done]. apply backoff_ends in E as (d & key & He & ->).
      simpl. by eapply ends_keeps.
  - unfold ExhaustOverdueUnclaimedIncidentTriage. by repeat case_match.
  - unfold MarkIncidentResolved. by repeat case_match; simplify_eq.
  - unfold reopen_resolved. by repeat case_match; simplify_eq.
Qed.

(** A completed attempt is final: no later event changes its record, and a
    worker that still holds it, however late it reports or renews its lease,
    changes nothing at all. *)
Theorem completed_attempt_final es es' a t res :
  db_attempts (run db_init es) !! a = Some t → ta_result t = Some res →
  let db := run db_init (es ++ es') in
  db_attempts db !! a = Some t ∧
  (∀ r now, step db (EvFinish a r now) = db) ∧
  (∀ o now lease, step db (EvExtend a o now lease) = db).
Proof.
  intros Ha Ht db.
  assert (Hfin : db_attempts db !! a = Some t).
  { subst db. unfold TriageStore.run in *. rewrite foldl_app. revert Ha.
    generalize (foldl step db_init es). induction es' as [|e es' IH]; intros d Hd; [done|].
    simpl. by eapply IH, step_keeps. }
  split_and!; [done| |].
  - intros r now. by eapply finish_done.
  - intros o now lease. eapply extend_done; [apply run_ok|done..].
Qed.

(** A claim spends an attempt only with authority: the schedule is due, the
    controller decided it, its Situation is open, and the digests the decision
    recorded are the current ones, which the new attempt freezes; the claim
    token grows, so no earlier lease fits again. *)
Theorem claim_authorized db a owner now lease db' c :
  claim db a owner now lease = Ok (db', c) →
  ∃ r sid r' t,
    db_triage db = Some r ∧ db_status db = StatusReady ∧ schedulable (it_phase r) = true ∧
    not_due (it_next_at r) now = false ∧ it_situation_id r = Some sid ∧
    (∀ l, db_situations db !! sid = Some l → Terminal l = false) ∧
    default "" (it_membership_digest r) = membership mdigest incidentID db ∧
    default "" (it_incident_input_digest r) = input mdigest idigest incidentID groupKey db ∧
    db_attempts db !! a = None ∧ db_attempts db' = <[a := t]> (db_attempts db) ∧
    ta_membership_digest t = membership mdigest incidentID db ∧
    ta_incident_input_digest t = input mdigest idigest incidentID groupKey db ∧
    ta_number t = (it_attempts r + 1)%Z ∧ (ta_number t ≤ 5)%Z ∧ ta_result t = None ∧
    db_triage db' = Some r' ∧ it_phase r' = TriageInFlight ∧ it_current_attempt_id r' = Some a ∧
    (it_claim_token r < it_claim_token r')%Z ∧ cl_AttemptNumber c = ta_number t.
Proof.
  intros (r & sid & [] & -> & Hn & _)%claim_cases. unfold maxIncidentTriageAttempts in *.
  exists r, sid, (claim_row r a owner (Add now lease)), (new_attempt db r sid). simpl.
  split_and!; try done; lia.
Qed.

(** A crashed worker's attempt is always given back: once its lease has
    been expired for a second (the store compares the texts of instants, which
    are ordered from one second to the next), recovery ends it and the schedule
    is due at once, or exhausted when it was the fifth. *)
Theorem expired_lease_recovers es now r a :
  let db := run db_init es in
  db_triage db = Some r → it_phase r = TriageInFlight → it_current_attempt_id r = Some a →
  valid_ids incidentID a = true →
  (∀ at_, it_lease_expires_at r = Some at_ → (at_ + Second ≤ now)%Z) →
  let db' := step db (EvRecover now) in
  ∃ r', db_triage db' = Some r' ∧ all_completed (db_attempts db') ∧
    (it_phase r' = TriageBackoff ∧ it_next_at r' = Some now ∧ db_status db' = StatusReady ∧
       (it_attempts r < 5)%Z ∨
     it_phase r' = TriageExhausted ∧ db_status db' = StatusFailed ∧ it_attempts r = 5%Z).
Proof.
  intros db Hr Hp Hc Hv Hexp. pose proof (run_ok es) as Hi. fold db in Hi. clearbody db.
  pose proof Hi as [(Hsz & _) Hrow _]. rewrite Hr in Hrow. destruct Hrow as [Hs [Hn Hrow]].
  rewrite decide_True in Hrow by done. destruct Hrow as (_ & [at_ Hat] & a' & Hc' & t & Ha & Ht & Hnum & Hd).
  rewrite Hc in Hc'. injection Hc' as <-. rewrite Hp in Hs.
  assert (Hst : db_status db = StatusProcessing) by (destruct (db_status db); simpl in *; naive_solver).
  unfold maxIncidentTriageAttempts in *.
  assert (Hall : ∀ res, all_completed (<[a := closed t res]> (db_attempts db))).
  { intros res. eapply running_close; [|done]. exists t. split_and!; try done. }
  specialize (Hexp at_ Hat).
  simpl. unfold RecoverExpiredIncidentTriageAttempts, expired_attempt. rewrite Hr, Hp, Hc, Hat.
  rewrite (text_leb_second at_ now Hexp).
  assert (Hca : ∀ res, complete_attempt db a res
                       = Ok (set_attempts db (<[a := closed t res]> (db_attempts db)))).
  { intros res. unfold complete_attempt. by rewrite Ha, Ht. }
  destruct (maxIncidentTriageAttempts <=? it_attempts r)%Z eqn:Hmax; unfold maxIncidentTriageAttempts in Hmax; go_bool.
  - unfold ExhaustIncidentTriageAttempt, completeFailedAttemptTx. rewrite Hv, Hca. simpl.
    unfold release_schedule, in_flight_as. simpl. rewrite Hr, Hp, Hc. simpl. rewrite str_eqb_refl. simpl.
    unfold leave_processing. simpl. rewrite Hst. simpl. eexists. split; [done|]. split; [apply Hall|].
    right. split_and!; try done. lia.
  - unfold BackoffIncidentTriageAttempt, completeFailedAttemptTx. rewrite Hv, Hca. simpl.
    unfold release_schedule, in_flight_as. simpl. rewrite Hr, Hp, Hc. simpl. rewrite str_eqb_refl. simpl.
    unfold leave_processing. simpl. rewrite Hst. simpl. eexists. split; [done|]. split; [apply Hall|].
    left. split_and!; try done.
Qed.
End invariant.

(** ** The gate and the schedule *)

(** The Incident as a cycle loads it from its row. *)
Definition loaded (r : incident_triage) (inc : IncidentState) : Prop :=
  let t := Incident_Triage inc in
  TS_Phase t = phase_text (it_phase r) ∧ TS_NextAt t = it_next_at r ∧
  TS_MembershipDigest t = it_membership_digest r ∧
  TS_IncidentInputDigest t = it_incident_input_digest r.

Lemma phase_awaiting r inc :
  loaded r inc → str_eqb (TS_Phase (Incident_Triage inc)) "awaiting_decision"
                 = bool_decide (it_phase r = AwaitingDecision).
Proof. intros [-> _]. by destruct (it_phase r). Qed.

Lemma phase_due p : str_eqb (phase_text p) "pending" || str_eqb (phase_text p) "backoff" = schedulable p.
Proof. by destruct p. Qed.

(** What the controller projects is what the transaction commits: an
    Incident's effective phase and due time, computed from the decisions before
    they are written, are those of its row afterwards, for whatever decision the
    cycle made about it. *)
Theorem decisions_commit inc r d ds db now :
  db_triage db = Some r → loaded r inc →
  decisionsByIncident ds !! Incident_ID inc = Some d →
  ∃ r', db_triage (applyOneTriageDecisionTx (Incident_ID inc) db d now) = Some r' ∧
    effectiveTriagePhase inc (decisionsByIncident ds) = phase_text (it_phase r') ∧
    incident_due (decisionsByIncident ds) now inc =
      if schedulable (it_phase r') then Some (default now (it_next_at r')) else None.
Proof.
  intros Hr Hl Hd. pose proof Hl as (Hp & Hn & _). unfold applyOneTriageDecisionTx, effectiveTriagePhase, incident_due.
  rewrite Hr, Hd, (phase_awaiting r inc Hl), Hp, Hn. unfold effectiveTriagePhase.
  rewrite (phase_awaiting r inc Hl), Hd, Hp.
  assert (Hdef : ∀ o, match o with Some at_ => at_ | None => now end = default now o) by (by intros []).
  destruct (bool_decide_reflect (it_phase r = AwaitingDecision)) as [Ha|Ha]; cbn [andb negb].
  - destruct (str_eqb (TD_Decision d) TriageDecisionRequest) eqn:E1; [by eexists|].
    destruct (str_eqb (TD_Decision d) TriageDecisionSkip) eqn:E2; [by eexists|].
    rewrite andb_false_r. eexists. split; [done|]. by rewrite Ha.
  - rewrite phase_due, Hdef.
    destruct (schedulable (it_phase r)) eqn:Es; cbn [andb];
      [destruct (str_eqb (TD_Decision d) TriageDecisionRequest)|];
      eexists; (split; [done|]); simpl; by rewrite ?Es.
Qed.

(** Decisions settle: once a cycle's decision about an Incident is written
    to its row, the next cycle over unchanged deliveries decides nothing about
    it again. *)
Theorem decisions_settle md idg snap inp cur now inc r d db r' inc' :
  db_triage db = Some r → loaded r inc →
  decide_incident md idg snap inp cur now inc = Some d →
  db_triage (applyOneTriageDecisionTx (Incident_ID inc) db d now) = Some r' → loaded r' inc' →
  Incident_ID inc' = Incident_ID inc → Incident_GroupKey inc' = Incident_GroupKey inc →
  ∀ snap' cur' now', decide_incident md idg snap' inp cur' now' inc' = None.
Proof.
  intros Hr Hl Hd Hr' Hl' Hid Hgk snap' cur' now'. unfold decide_incident in Hd |- *. rewrite Hid, Hgk.
  set (m := MembershipDigest _ _ _) in *. set (i := IncidentInputDigest _ _ _ _ _) in *.
  assert (Hquiet : it_phase r' ≠ AwaitingDecision ∧
                   (schedulable (it_phase r') = true → it_membership_digest r' = Some m ∧
                                                       it_incident_input_digest r' = Some i)).
  { unfold needsTriageDecision in Hd. rewrite (phase_awaiting r inc Hl) in Hd.
    pose proof Hl as (Hp & _ & Hm & Hi). rewrite Hp, phase_due in Hd.
    unfold applyOneTriageDecisionTx in Hr'. rewrite Hr in Hr'.
    assert (Hdec : ∀ refresh dec rsn cov,
      decideOne md idg inc m i snap inp cur refresh = (dec, rsn, cov) →
      (dec = TriageDecisionRequest ∨ dec = TriageDecisionSkip) ∧ (refresh = true → dec = TriageDecisionRequest)).
    { intros refresh dec rsn cov. destruct refresh; [simpl; intros [= <- <- <-]; by split; [left|]|].
      destruct (decideOne_cases md idg inc m i snap inp cur) as (rr & [(p & _ & _ & ->)|(_ & ->)]);
        intros [= <- <- <-]; split; try done; [by right|by left]. }
    destruct (bool_decide_reflect (it_phase r = AwaitingDecision)) as [Ha|Ha]; cbn [andb] in Hr'.
    - cbn [negb] in Hd. destruct (decideOne _ _ _ _ _ _ _ _ false) as [[dec rsn] cov] eqn:E.
      injection Hd as <-. destruct (Hdec _ _ _ _ E) as [[-> | ->] _]; simpl in Hr';
        injection Hr' as <-; done.
    - destruct (schedulable (it_phase r)) eqn:Es; [|done].
      destruct (_ || _); [|done]. cbn [negb] in Hd.
      destruct (decideOne _ _ _ _ _ _ _ _ true) as [[dec rsn] cov] eqn:E. injection Hd as <-.
      destruct (Hdec _ _ _ _ E) as [_ Hreq]. rewrite Hreq in Hr' by done. simpl in Hr'.
      injection Hr' as <-. simpl. done. }
  destruct Hquiet as [Hna Hdig]. pose proof Hl' as (Hp' & _ & Hm' & Hi').
  unfold needsTriageDecision. rewrite (phase_awaiting r' inc' Hl'), (bool_decide_eq_false_2 _ Hna), Hp', phase_due.
  destruct (schedulable (it_phase r')); [|done]. destruct (Hdig eq_refl) as [E1 E2].
  rewrite Hm', Hi', E1, E2. simpl. by rewrite !str_eqb_refl.
Qed.

(** ** Concrete histories *)

Definition ex_fd (f : TriageFinding) : string := OutputJSON f.
Definition ex_sd (a b c d : string) : string := a +:+ b +:+ c +:+ d.
Definition ex_ed (c d : string) : string := c +:+ d.

Definition ex_run (es : list event) : triage_db := run ex_sha ex_sha' ex_fd ex_sd ex_ed "inc" "g" db_init es.

Definition ex_decision : TriageDecision :=
  {| TD_IncidentID := "inc"; TD_Decision := TriageDecisionRequest;
     TD_DecisionReason := DecisionReasonNoTrustworthyAssessment; TD_SituationID := "s";
     TD_SituationInputVersion := 1%Z; TD_CoveredAssessmentID := None; TD_MaterialFactHash := "m";
     TD_MembershipDigest := MembershipDigest ex_sha "inc" [ex_firing];
     TD_IncidentInputDigest := IncidentInputDigest ex_sha ex_sha' "inc" "g" [ex_firing];
     TD_DecidedAt := 5%Z |}.

Definition ex_finding : TriageFinding :=
  {| OutputJSON := "{}"; Summary := "s"; RootCause := "r"; Confidence := 0%Z; EnrichmentJSON := "";
     EvidencePackDigest := "" |}.

Definition ex_to_claim : list event :=
  [EvDelivery ex_firing; EvSituation "s" LifecycleActive; EvReady; EvDecide ex_decision 5%Z].

Definition ex_claimed_events : list event := ex_to_claim ++ [EvClaim "t1" "w" 6%Z Minute].

Lemma ex_reaches_five :
  it_phase <$> db_triage (ex_run (ex_to_claim ++
    ('(a, h) ← [("t1", 10%Z); ("t2", 12%Z); ("t3", 14%Z); ("t4", 16%Z); ("t5", 18%Z)];
     [EvClaim a "w" (h * Hour)%Z Minute; EvRecover ((h + 1) * Hour)%Z])))
  = Some TriageExhausted.
Proof. vm_compute. reflexivity. Qed.

Definition ex_claimed : triage_db := ex_run ex_claimed_events.

Definition ex_completed : result store_error (triage_db * TriageCompletionResult) :=
  CompleteIncidentTriageAttempt ex_sha ex_sha' ex_fd ex_sd "inc" "g" ex_claimed "t1" ex_finding.


Definition ok_of {A B} (d : B) (f : A → B) (m : result store_error A) : B :=
  match m with Ok x => f x | Err _ => d end.

Lemma ex_claimed_attempt :
  ∃ t, db_attempts ex_claimed !! "t1" = Some t ∧ ta_result t = None ∧ ta_number t = 1%Z.
Proof.
  destruct (db_attempts ex_claimed !! "t1") as [t|] eqn:Ht.
  - exists t. split; [reflexivity|].
    apply (f_equal (fmap (λ t, (ta_result t, ta_number t)))) in Ht.
    vm_compute in Ht. injection Ht as H1 H2. split; symmetry; assumption.
  - exfalso. apply (f_equal (λ o : option triage_attempt, bool_decide (is_Some o))) in Ht.
    vm_compute in Ht. discriminate.
Qed.

Lemma ex_completed_ok :
  ∃ db' r, ex_completed = Ok (db', r) ∧ cr_Outcome r = TriageCompletionSuccess.
Proof.
  destruct ex_completed as [[db' r]|e] eqn:E.
  - exists db', r. split; [reflexivity|].
    apply (f_equal (ok_of None (λ p, Some (cr_Outcome p.2)))) in E.
    vm_compute in E. injection E as E. symmetry. exact E.
  - exfalso. apply (f_equal (ok_of false (λ _, true))) in E. vm_compute in E. discriminate.
Qed.

Lemma completion_outcomes_witness :
  ∃ db' r, ex_completed = Ok (db', r) ∧ db_output db' = Some ex_finding ∧ db_triage db' = None.
Proof.
  destruct ex_completed_ok as (db' & r & E & Ho). destruct ex_claimed_attempt as (t & Ht & Hr & _).
  exists db', r. split; [exact E|].
  destruct (completion_outcomes ex_sha ex_sha' ex_fd ex_sd ex_ed "inc" "g" ex_claimed "t1"
    ex_finding t db' r Ht Hr E) as [H _].
  destruct (H Ho) as (_ & _ & _ & Hout & _ & Hrow). split; assumption.
Defined.

Lemma completion_replays_witness :
  ∃ db' r, CompleteIncidentTriageAttempt ex_sha ex_sha' ex_fd ex_sd "inc" "g" db' "t1" ex_finding
           = Ok (db', r) ∧ cr_Outcome r = TriageCompletionSuccess.
Proof.
  destruct ex_completed_ok as (db' & r & E & Ho). exists db', r. split; [|exact Ho].
  exact (completion_replays ex_sha ex_sha' ex_fd ex_sd ex_ed "inc" "g" ex_claimed "t1" ex_finding db' r E).
Defined.

Definition ex_recovered_events : list event := ex_claimed_events ++ [EvRecover (11 * Hour)%Z].

Lemma ex_recovered_attempt :
  ∃ t res, db_attempts (ex_run ex_recovered_events) !! "t1" = Some t ∧ ta_result t = Some res ∧
    result_code res = "process_interrupted".
Proof.
  destruct (db_attempts (ex_run ex_recovered_events) !! "t1") as [t|] eqn:Ht.
  - apply (f_equal (fmap ta_result)) in Ht. vm_compute in Ht. injection Ht as Ht.
    exists t. eexists. split; [reflexivity|]. split; [symmetry; exact Ht|reflexivity].
  - exfalso. apply (f_equal (λ o : option triage_attempt, bool_decide (is_Some o))) in Ht.
    vm_compute in Ht. discriminate.
Qed.

Lemma completed_attempt_final_witness :
  ∃ t res, result_code res = "process_interrupted" ∧ ta_result t = Some res ∧
    db_attempts (ex_run (ex_recovered_events ++ [EvFinish "t1" (Analyzed ex_finding) 9%Z])) !! "t1" = Some t.
Proof.
  destruct ex_recovered_attempt as (t & res & Ht & Hr & Hc). exists t, res.
  split; [exact Hc|]. split; [exact Hr|].
  exact (proj1 (completed_attempt_final ex_sha ex_sha' ex_fd ex_sd ex_ed "inc" "g" ex_recovered_events
    [EvFinish "t1" (Analyzed ex_finding) 9%Z] "t1" t res Ht Hr)).
Defined.

Lemma claim_authorized_witness :
  ∃ db' c, ClaimIncidentTriageAttempt ex_sha ex_sha' "inc" "g" (ex_run ex_to_claim) "t1" "w" 6%Z Minute
           = Ok (db', c) ∧ db_status (ex_run ex_to_claim) = StatusReady ∧ (cl_AttemptNumber c ≤ 5)%Z.
Proof.
  destruct (ClaimIncidentTriageAttempt ex_sha ex_sha' "inc" "g" (ex_run ex_to_claim) "t1" "w" 6%Z Minute)
    as [[db' c]|e] eqn:E.
  - exists db', c. split; [reflexivity|].
    destruct (claim_authorized ex_sha ex_sha' "inc" "g" _ _ _ _ _ _ _ E)
      as (r & sid & r' & t & _ & Hs & _ & _ & _ & _ & _ & _ & _ & _ & _ & _ & _ & Hn & _ & _ & _ & _ & _ & Hc).
    split; [exact Hs|]. rewrite Hc. exact Hn.
  - exfalso. apply (f_equal (ok_of false (λ _, true))) in E. vm_compute in E. discriminate.
Defined.

(** What the claimed row looks like. *)
Lemma ex_claimed_row :
  ∃ r, db_triage ex_claimed = Some r ∧ it_phase r = TriageInFlight ∧ it_current_attempt_id r = Some "t1" ∧
    it_lease_expires_at r = Some (6 + Minute)%Z ∧ it_attempts r = 1%Z.
Proof.
  destruct (db_triage ex_claimed) as [r|] eqn:Hr.
  - exists r. split; [reflexivity|].
    apply (f_equal (fmap (λ r, (it_phase r, it_current_attempt_id r, it_lease_expires_at r, it_attempts r)))) in Hr.
    vm_compute in Hr. injection Hr as H1 H2 H3 H4. split_and!; symmetry; assumption.
  - exfalso. apply (f_equal (λ o : option incident_triage, bool_decide (is_Some o))) in Hr.
    vm_compute in Hr. discriminate.
Qed.

Lemma expired_lease_recovers_witness :
  ∃ r', db_triage (step ex_sha ex_sha' ex_fd ex_sd ex_ed "inc" "g" ex_claimed (EvRecover (11 * Hour)%Z)) = Some r' ∧
    it_next_at r' = Some (11 * Hour)%Z.
Proof.
  destruct ex_claimed_row as (r & Hr & Hp & Hc & He & Hn).
  assert (Hexp : ∀ at_, it_lease_expires_at r = Some at_ → (at_ + Second ≤ 11 * Hour)%Z).
  { rewrite He. intros at_ [= <-]. vm_compute. discriminate. }
  destruct (expired_lease_recovers ex_sha ex_sha' ex_fd ex_sd ex_ed "inc" "g" ex_claimed_events
    (11 * Hour)%Z r "t1" Hr Hp Hc eq_refl Hexp) as (r' & Hr' & _ & H).
  exists r'. split; [exact Hr'|].
  destruct H as [(_ & Hnext & _)|(_ & _ & Hfive)]; [exact Hnext|].
  exfalso. rewrite Hn in Hfive. revert Hfive. vm_compute. intros H; try discriminate; by apply H.
Defined.

(** The row a ready Incident starts with, and the cycle that decides it. *)
Definition ex_ready : triage_db :=
  ex_run [EvDelivery ex_firing; EvSituation "s" LifecycleActive; EvReady].

Definition ex_cycle : list TriageDecision :=
  DecideTriage ex_sha ex_sha' (ex_snapshot [ex_firing] [] []) (ex_input [ex_firing]) None 9%Z.

Definition ex_row : incident_triage := seed_row.

Lemma ex_ready_row : db_triage ex_ready = Some ex_row.
Proof. vm_compute. reflexivity. Qed.

Lemma ex_loaded : loaded ex_row ex_incident.
Proof. by vm_compute. Qed.

Definition ex_decided : TriageDecision :=
  match ex_cycle with d :: _ => d | [] => ex_decision end.

Lemma decisions_commit_witness :
  ∃ r', db_triage (applyOneTriageDecisionTx "inc" ex_ready ex_decided 9%Z) = Some r' ∧
    effectiveTriagePhase ex_incident (decisionsByIncident ex_cycle) = phase_text (it_phase r').
Proof.
  assert (Hd : decisionsByIncident ex_cycle !! Incident_ID ex_incident = Some ex_decided)
    by (vm_compute; reflexivity).
  destruct (decisions_commit ex_incident ex_row ex_decided ex_cycle ex_ready 9%Z ex_ready_row ex_loaded Hd)
    as (r' & Hr & Hp & _).
  exists r'. split; [exact Hr|exact Hp].
Defined.

Lemma decisions_settle_witness :
  ∃ r' inc', db_triage (applyOneTriageDecisionTx "inc" ex_ready ex_decided 9%Z) = Some r' ∧ loaded r' inc' ∧
    decide_incident ex_sha ex_sha' (ex_snapshot [ex_firing] [] []) (ex_input [ex_firing]) None 99%Z inc' = None.
Proof.
  set (r' := default ex_row (db_triage (applyOneTriageDecisionTx "inc" ex_ready ex_decided 9%Z))).
  set (inc' := {| Incident_ID := "inc"; Incident_GroupKey := "g"; Incident_Status := "ready";
    Incident_Triage := {| TS_Phase := phase_text (it_phase r'); TS_Attempts := it_attempts r';
      TS_NextAt := it_next_at r'; TS_DecisionReason := None;
      TS_MembershipDigest := it_membership_digest r';
      TS_IncidentInputDigest := it_incident_input_digest r'; TS_DecidedAt := None; TS_LatestAttempt := None;
      TS_ActiveAttempt := None; TS_LastExecution := None |} |}).
  assert (Hr' : db_triage (applyOneTriageDecisionTx "inc" ex_ready ex_decided 9%Z) = Some r')
    by (vm_compute; reflexivity).
  assert (Hl' : loaded r' inc') by (by repeat split).
  assert (Hd : decide_incident ex_sha ex_sha' (ex_snapshot [ex_firing] [] []) (ex_input [ex_firing]) None 9%Z
    ex_incident = Some ex_decided) by (vm_compute; reflexivity).
  exists r', inc'. split; [exact Hr'|]. split; [exact Hl'|].
  exact (decisions_settle ex_sha ex_sha' (ex_snapshot [ex_firing] [] []) (ex_input [ex_firing]) None 9%Z
    ex_incident ex_row ex_decided ex_ready r' inc' ex_ready_row ex_loaded Hd Hr' Hl' eq_refl eq_refl
    (ex_snapshot [ex_firing] [] []) None 99%Z).
Defined.
