(* ===== verification/ErrorClass.v ===== *)
(** * Error classes (internal/store/deliveries.go)

    The identifier the store keeps in place of an error's text, for the
    deliveries and for the notifications. *)

From stdpp Require Import prelude strings list.
From S2P Require Import Prelude.

Definition lower_letter (b : N) : bool := ((97 <=? b) && (b <=? 122))%N.
Definition class_rest (b : N) : bool := (lower_letter b || ((48 <=? b) && (b <=? 57)) || (b =? 95))%N.
Definition maxErrorClassLength : nat := 64.

(** [^[a-z][a-z0-9_]*$] *)
Definition errorClassPattern (class : string) : bool :=
  match string_bytes class with
  | [] => false
  | b :: bs => lower_letter b && forallb class_rest bs
  end.
