(* ===== verification/Deliveries.v ===== *)
(** * The delivery ledger (internal/store/deliveries.go, occurrences.go, store.go, migration 0014)

    Accepted deliveries, the outbox of their correlation and the one transaction
    that applies a delivery: the Incident and its occurrence, the membership, the
    delivery's owner and the Situation input together.

    A row is the value it encodes.  The store has one connection, so a
    transaction is a function on the tables; an error rolls it back.  The columns
    of the other workers (the status an Incident has reached, the phase of its
    triage row, the lifecycle of the Situation that owns it) are tables here and
    change by steps of their own.  [now] and the identities the source draws at
    random are arguments. *)

From stdpp Require Import prelude strings list gmap sorting.
From S2P Require Import Prelude SituationModel TriageStore ErrorClass.

(** ** Rows *)

Inductive SourceAcquisitionMode : Set :=
| SourceAcquisitionWebhook
| SourceAcquisitionPoll
| SourceAcquisition_other (s : string).

Record SourceProvenance : Type := {
  sp_InstanceID : option string;
  sp_SignalID : option string;
  sp_SignalVersion : option string;
  sp_GeneratorURL : string;
  sp_AcquisitionMode : SourceAcquisitionMode;
  sp_PollIntervalSeconds : Z
}.

(** [al_Status] is the text of the column. *)
Record Alert : Type := {
  al_ID : string;
  al_Fingerprint : string;
  al_Status : string;
  al_Labels : gmap string string;
  al_Annotations : gmap string string;
  al_StartsAt : Time;
  al_EndsAt : option Time;
  al_ReceivedAt : Time;
  al_GroupingIdentity : string
}.

Record DeliveryInput : Type := {
  di_ID : string;
  di_Alert : Alert;
  di_Source : string;
  di_SourceEventID : option string;
  di_SourceEpisodeKey : string;
  di_SourceStartedAt : option Time;
  di_SourceResolvedAt : option Time;
  di_StartedAtBasis : SourceTimeBasis;
  di_ResolvedAtBasis : SourceTimeBasis;
  di_GroupingIdentity : string;
  di_PayloadDigest : string;
  di_Provenance : SourceProvenance
}.

(** [ad_Alert] is the Alert as the delivery froze it, under the identity of its
    fingerprint. *)
Record AlertDelivery : Type := {
  ad_ID : string;
  ad_Alert : Alert;
  ad_Source : string;
  ad_SourceEventID : option string;
  ad_SourceEpisodeKey : string;
  ad_SourceStartedAt : option Time;
  ad_SourceResolvedAt : option Time;
  ad_StartedAtBasis : SourceTimeBasis;
  ad_ResolvedAtBasis : SourceTimeBasis;
  ad_GroupingIdentity : string;
  ad_PayloadDigest : string;
  ad_ReceivedAt : Time;
  ad_Provenance : SourceProvenance
}.

Inductive DispatchStatus : Set := DispatchPending | DispatchClaimed | DispatchApplied | DispatchFailed.

#[export] Instance DispatchStatus_eq_dec : EqDecision DispatchStatus.
Proof. solve_decision. Defined.

Record AlertDispatch : Type := {
  dp_DeliveryID : string;
  dp_Status : DispatchStatus;
  dp_LeaseOwner : option string;
  dp_LeaseExpiresAt : option Time;
  dp_ClaimToken : Z;
  dp_AttemptCount : Z;
  dp_LastErrorClass : option string;
  dp_RetryAt : option Time;
  dp_AppliedAt : option Time
}.

Record Incident : Type := {
  ic_ID : string;
  ic_GroupKey : string;
  ic_Status : IncidentStatus;
  ic_FirstAlertAt : Time;
  ic_LastAlertAt : Time;
  ic_ReadyAt : Time;
  ic_AlertCount : Z;
  ic_CreatedAt : Time;
  ic_LastJudgedAt : option Time
}.

Record Occurrence : Type := {
  oc_ID : Z;
  oc_IncidentID : string;
  oc_OccurredAt : Time;
  oc_LastSeen : Time;
  oc_Fingerprints : list string;
  oc_Payload : list (string * gmap string string * gmap string string);
  oc_TriggerKind : string
}.

(** An Incident's ownership of a delivery. *)
Record owner_link : Type := { ol_IncidentID : string; ol_DeliveryID : string; ol_OccurrenceID : option Z }.

Record SituationInput : Type := {
  si_ID : string;
  si_IdempotencyKey : string;
  si_IncidentID : string;
  si_DeliveryID : option string;
  si_Kind : string;
  si_GroupKey : string;
  si_OccurredAt : Time
}.

(** [d_triage] is the phase of the triage row of an Incident, [d_lifecycles]
    the lifecycle of the Situation that owns one. *)
Record delivery_db : Type := {
  d_alerts : list Alert;
  d_deliveries : list AlertDelivery;
  d_dispatches : list AlertDispatch;
  d_incidents : list Incident;
  d_members : list (string * string);
  d_owners : list owner_link;
  d_occurrences : list Occurrence;
  d_outbox : list SituationInput;
  d_triage : gmap string TriageRowPhase;
  d_lifecycles : gmap string Lifecycle
}.

Inductive delivery_error : Set :=
| ErrDeliveryInvalid (e : string)
| ErrAlertDispatchLeaseLost
| ErrIncidentOwnerNotCollapsible
| ErrDeliveryNotFound
| ErrDeliveryConstraint.

#[export] Instance delivery_error_eq_dec : EqDecision delivery_error.
Proof. solve_decision. Defined.

Definition set_alerts (l : list Alert) (db : delivery_db) : delivery_db :=
  {| d_alerts := l; d_deliveries := d_deliveries db; d_dispatches := d_dispatches db; d_incidents := d_incidents db;
     d_members := d_members db; d_owners := d_owners db; d_occurrences := d_occurrences db; d_outbox := d_outbox db;
     d_triage := d_triage db; d_lifecycles := d_lifecycles db |}.
Definition set_deliveries (l : list AlertDelivery) (db : delivery_db) : delivery_db :=
  {| d_alerts := d_alerts db; d_deliveries := l; d_dispatches := d_dispatches db; d_incidents := d_incidents db;
     d_members := d_members db; d_owners := d_owners db; d_occurrences := d_occurrences db; d_outbox := d_outbox db;
     d_triage := d_triage db; d_lifecycles := d_lifecycles db |}.
Definition set_dispatches (l : list AlertDispatch) (db : delivery_db) : delivery_db :=
  {| d_alerts := d_alerts db; d_deliveries := d_deliveries db; d_dispatches := l; d_incidents := d_incidents db;
     d_members := d_members db; d_owners := d_owners db; d_occurrences := d_occurrences db; d_outbox := d_outbox db;
     d_triage := d_triage db; d_lifecycles := d_lifecycles db |}.
Definition set_incidents (l : list Incident) (db : delivery_db) : delivery_db :=
  {| d_alerts := d_alerts db; d_deliveries := d_deliveries db; d_dispatches := d_dispatches db; d_incidents := l;
     d_members := d_members db; d_owners := d_owners db; d_occurrences := d_occurrences db; d_outbox := d_outbox db;
     d_triage := d_triage db; d_lifecycles := d_lifecycles db |}.
Definition set_members (l : list (string * string)) (db : delivery_db) : delivery_db :=
  {| d_alerts := d_alerts db; d_deliveries := d_deliveries db; d_dispatches := d_dispatches db; d_incidents := d_incidents db;
     d_members := l; d_owners := d_owners db; d_occurrences := d_occurrences db; d_outbox := d_outbox db;
     d_triage := d_triage db; d_lifecycles := d_lifecycles db |}.
Definition set_owners (l : list owner_link) (db : delivery_db) : delivery_db :=
  {| d_alerts := d_alerts db; d_deliveries := d_deliveries db; d_dispatches := d_dispatches db; d_incidents := d_incidents db;
     d_members := d_members db; d_owners := l; d_occurrences := d_occurrences db; d_outbox := d_outbox db;
     d_triage := d_triage db; d_lifecycles := d_lifecycles db |}.
Definition set_occurrences (l : list Occurrence) (db : delivery_db) : delivery_db :=
  {| d_alerts := d_alerts db; d_deliveries := d_deliveries db; d_dispatches := d_dispatches db; d_incidents := d_incidents db;
     d_members := d_members db; d_owners := d_owners db; d_occurrences := l; d_outbox := d_outbox db;
     d_triage := d_triage db; d_lifecycles := d_lifecycles db |}.
Definition set_outbox (l : list SituationInput) (db : delivery_db) : delivery_db :=
  {| d_alerts := d_alerts db; d_deliveries := d_deliveries db; d_dispatches := d_dispatches db; d_incidents := d_incidents db;
     d_members := d_members db; d_owners := d_owners db; d_occurrences := d_occurrences db; d_outbox := l;
     d_triage := d_triage db; d_lifecycles := d_lifecycles db |}.
Definition set_triage (m : gmap string TriageRowPhase) (db : delivery_db) : delivery_db :=
  {| d_alerts := d_alerts db; d_deliveries := d_deliveries db; d_dispatches := d_dispatches db; d_incidents := d_incidents db;
     d_members := d_members db; d_owners := d_owners db; d_occurrences := d_occurrences db; d_outbox := d_outbox db;
     d_triage := m; d_lifecycles := d_lifecycles db |}.
Definition set_lifecycles (m : gmap string Lifecycle) (db : delivery_db) : delivery_db :=
  {| d_alerts := d_alerts db; d_deliveries := d_deliveries db; d_dispatches := d_dispatches db; d_incidents := d_incidents db;
     d_members := d_members db; d_owners := d_owners db; d_occurrences := d_occurrences db; d_outbox := d_outbox db;
     d_triage := d_triage db; d_lifecycles := m |}.

(** An UPDATE of the rows a condition selects. *)
Definition update_rows {A} (P : A → bool) (f : A → A) (l : list A) : list A := (λ a, if P a then f a else a) <$> l.

Definition delivery_is (id : string) (d : AlertDelivery) : bool := str_eqb (ad_ID d) id.
Definition dispatch_of (id : string) (d : AlertDispatch) : bool := str_eqb (dp_DeliveryID d) id.
Definition incident_is (id : string) (i : Incident) : bool := str_eqb (ic_ID i) id.
Definition owns_delivery (id : string) (o : owner_link) : bool := str_eqb (ol_DeliveryID o) id.
Definition input_clashes (n i : SituationInput) : bool :=
  str_eqb (si_ID i) (si_ID n) || str_eqb (si_IdempotencyKey i) (si_IdempotencyKey n).
Definition has_status (s : IncidentStatus) (i : Incident) : bool := bool_decide (ic_Status i = s).

Definition find_incident (db : delivery_db) (id : string) : option Incident := List.find (incident_is id) (d_incidents db).
Definition find_delivery (db : delivery_db) (id : string) : option AlertDelivery := List.find (delivery_is id) (d_deliveries db).

(** ** Accepting *)

Definition check (b : bool) (e : string) : result delivery_error unit := if b then Ok tt else Err (ErrDeliveryInvalid e).
Definition blank (s : string) : bool := str_eqb (TrimSpace s) "".

Definition validateAlert (a : Alert) : result delivery_error unit :=
  let? _ := check (negb (str_eqb (al_ID a) "")) "alert.id is required" in
  let? _ := check (negb (str_eqb (al_Fingerprint a) "")) "alert.fingerprint is required" in
  let? _ := check (str_eqb (al_Status a) "firing" || str_eqb (al_Status a) "resolved") "alert.status must be firing or resolved" in
  let? _ := check (negb (IsZero (al_StartsAt a))) "alert.starts_at is required" in
  check (negb (IsZero (al_ReceivedAt a))) "alert.received_at is required".

Definition validateSourceProvenance (p : SourceProvenance) : result delivery_error unit :=
  let? _ := match sp_AcquisitionMode p with
            | SourceAcquisitionWebhook => check (sp_PollIntervalSeconds p =? 0)%Z "poll interval must be zero for webhook acquisition"
            | SourceAcquisitionPoll => check (0 <? sp_PollIntervalSeconds p)%Z "poll interval must be positive for poll acquisition"
            | SourceAcquisition_other _ => Err (ErrDeliveryInvalid "acquisition mode must be webhook or poll")
            end in
  let? _ := match sp_SignalID p with
            | Some s => check (negb (blank s)) "source signal id must not be blank when present"
            | None => Ok tt
            end in
  match sp_SignalVersion p with
  | Some v =>
      let? _ := check (negb (blank v)) "source signal version must not be blank when present" in
      check (bool_decide (is_Some (sp_SignalID p))) "source signal version requires a source signal id"
  | None => Ok tt
  end.

Definition validateDeliveryInput (d : DeliveryInput) : result delivery_error unit :=
  let? _ := validateAlert (di_Alert d) in
  let? _ := check (negb (blank (di_ID d))) "delivery id is required" in
  let? _ := check (negb (blank (di_Source d))) "delivery source is required" in
  let? _ := check (negb (blank (di_SourceEpisodeKey d))) "delivery source episode key is required" in
  let? _ := check (negb (blank (di_GroupingIdentity d))) "delivery receiver grouping identity is required" in
  let? _ := check (negb (blank (di_PayloadDigest d))) "delivery payload digest is required" in
  validateSourceProvenance (di_Provenance d).

Definition normalizeSourceProvenance (p : SourceProvenance) : SourceProvenance :=
  {| sp_InstanceID := sp_InstanceID p; sp_SignalID := TrimSpace <$> sp_SignalID p;
     sp_SignalVersion := TrimSpace <$> sp_SignalVersion p; sp_GeneratorURL := TrimSpace (sp_GeneratorURL p);
     sp_AcquisitionMode := sp_AcquisitionMode p; sp_PollIntervalSeconds := sp_PollIntervalSeconds p |}.

(** The bases are a closed type here; the text of the columns is the value. *)
Definition prepareDelivery (d : DeliveryInput) : result delivery_error DeliveryInput :=
  let? _ := validateDeliveryInput d in
  Ok {| di_ID := di_ID d; di_Alert := di_Alert d; di_Source := di_Source d; di_SourceEventID := di_SourceEventID d;
        di_SourceEpisodeKey := di_SourceEpisodeKey d; di_SourceStartedAt := di_SourceStartedAt d;
        di_SourceResolvedAt := di_SourceResolvedAt d; di_StartedAtBasis := di_StartedAtBasis d;
        di_ResolvedAtBasis := di_ResolvedAtBasis d; di_GroupingIdentity := di_GroupingIdentity d;
        di_PayloadDigest := di_PayloadDigest d; di_Provenance := normalizeSourceProvenance (di_Provenance d) |}.

Fixpoint prepareDeliveries (l : list DeliveryInput) : result delivery_error (list DeliveryInput) :=
  match l with
  | [] => Ok []
  | d :: l' => let? p := prepareDelivery d in let? ps := prepareDeliveries l' in Ok (p :: ps)
  end.

Definition with_alert (id identity : string) (a : Alert) : Alert :=
  {| al_ID := id; al_Fingerprint := al_Fingerprint a; al_Status := al_Status a; al_Labels := al_Labels a;
     al_Annotations := al_Annotations a; al_StartsAt := al_StartsAt a; al_EndsAt := al_EndsAt a;
     al_ReceivedAt := al_ReceivedAt a; al_GroupingIdentity := identity |}.

Definition has_fingerprint (f : string) (a : Alert) : bool := str_eqb (al_Fingerprint a) f.
Definition alert_is (id : string) (a : Alert) : bool := str_eqb (al_ID a) id.

(** The fingerprint's row keeps its identity and takes the rest; the table has
    no column for the grouping identity. *)
Definition upsertDeliveryAlertTx (db : delivery_db) (p : DeliveryInput) : result delivery_error (Alert * delivery_db) :=
  let a := di_Alert p in
  match List.find (has_fingerprint (al_Fingerprint a)) (d_alerts db) with
  | Some old =>
      Ok (with_alert (al_ID old) (di_GroupingIdentity p) a,
          set_alerts (update_rows (has_fingerprint (al_Fingerprint a)) (λ o, with_alert (al_ID o) "" a) (d_alerts db)) db)
  | None =>
      guard! negb (existsb (alert_is (al_ID a)) (d_alerts db)) else ErrDeliveryConstraint in
      Ok (with_alert (al_ID a) (di_GroupingIdentity p) a, set_alerts (d_alerts db ++ [with_alert (al_ID a) "" a]) db)
  end.

(** Of the table's checks only the one on the installation's identity is not
    among the validations. *)
Definition insertDeliveryTx (db : delivery_db) (p : DeliveryInput) (a : Alert) : result delivery_error (AlertDelivery * delivery_db) :=
  guard! negb (bool_decide (sp_InstanceID (di_Provenance p) = Some "")) else ErrDeliveryConstraint in
  let d := {| ad_ID := di_ID p; ad_Alert := a; ad_Source := di_Source p; ad_SourceEventID := di_SourceEventID p;
              ad_SourceEpisodeKey := di_SourceEpisodeKey p; ad_SourceStartedAt := di_SourceStartedAt p;
              ad_SourceResolvedAt := di_SourceResolvedAt p; ad_StartedAtBasis := di_StartedAtBasis p;
              ad_ResolvedAtBasis := di_ResolvedAtBasis p; ad_GroupingIdentity := di_GroupingIdentity p;
              ad_PayloadDigest := di_PayloadDigest p; ad_ReceivedAt := al_ReceivedAt (di_Alert p);
              ad_Provenance := di_Provenance p |} in
  Ok (d, set_deliveries (d_deliveries db ++ [d]) db).

Definition pending_dispatch (id : string) : AlertDispatch :=
  {| dp_DeliveryID := id; dp_Status := DispatchPending; dp_LeaseOwner := None; dp_LeaseExpiresAt := None; dp_ClaimToken := 0;
     dp_AttemptCount := 0; dp_LastErrorClass := None; dp_RetryAt := None; dp_AppliedAt := None |}.

(** One prepared delivery of the batch. *)
Definition acceptDelivery (db : delivery_db) (p : DeliveryInput) : result delivery_error (AlertDelivery * delivery_db) :=
  match find_delivery db (di_ID p) with
  | Some existing => Ok (existing, db)
  | None =>
      let? (alert, db1) := upsertDeliveryAlertTx db p in
      let? (d, db2) := insertDeliveryTx db1 p alert in
      Ok (d, set_dispatches (d_dispatches db2 ++ [pending_dispatch (ad_ID d)]) db2)
  end.

Fixpoint accept_all (db : delivery_db) (l : list DeliveryInput) : result delivery_error (list AlertDelivery * delivery_db) :=
  match l with
  | [] => Ok ([], db)
  | p :: l' =>
      let? (d, db1) := acceptDelivery db p in
      let? (ds, db2) := accept_all db1 l' in
      Ok (d :: ds, db2)
  end.

Definition AcceptDeliveries (db : delivery_db) (l : list DeliveryInput) : result delivery_error (list AlertDelivery * delivery_db) :=
  let? ps := prepareDeliveries l in accept_all db ps.

(** ** Claiming and releasing *)

Definition is_dispatch (s : DispatchStatus) (d : AlertDispatch) : bool := bool_decide (dp_Status d = s).

(** A dispatch with its delivery. *)
Definition claim_row : Type := AlertDelivery * AlertDispatch.

(** The join of the two tables. *)
Definition dispatch_rows (db : delivery_db) : list claim_row :=
  omap (λ d, (λ a, (a, d)) <$> find_delivery db (dp_DeliveryID d)) (d_dispatches db).

Definition due_at (r : claim_row) : Time := default (ad_ReceivedAt r.1) (dp_RetryAt r.2).

Definition dispatch_ltb : claim_row → claim_row → bool :=
  lex_less (λ x y, text_ltb (due_at x) (due_at y))
    (lex_less (λ x y, text_ltb (ad_ReceivedAt x.1) (ad_ReceivedAt y.1)) (skey_ltb (λ x, dp_DeliveryID x.2))).

Definition dispatch_due (now : Time) (d : AlertDispatch) : bool :=
  (is_dispatch DispatchPending d && match dp_RetryAt d with None => true | Some t => text_leb t now end)
  || (is_dispatch DispatchClaimed d && match dp_LeaseExpiresAt d with None => false | Some t => text_leb t now end).

Definition claimed_dispatch (owner : string) (until : Time) (d : AlertDispatch) : AlertDispatch :=
  {| dp_DeliveryID := dp_DeliveryID d; dp_Status := DispatchClaimed; dp_LeaseOwner := Some owner;
     dp_LeaseExpiresAt := Some until; dp_ClaimToken := dp_ClaimToken d + 1; dp_AttemptCount := dp_AttemptCount d + 1;
     dp_LastErrorClass := dp_LastErrorClass d; dp_RetryAt := dp_RetryAt d; dp_AppliedAt := dp_AppliedAt d |}.

Definition select_rows {A} (P : A → bool) (l : list A) : list A := filter (λ a, P a = true) l.

Definition due_ids (db : delivery_db) (now : Time) (limit : Z) : list string :=
  (λ r : claim_row, dp_DeliveryID r.2)
    <$> take (Z.to_nat limit) (SliceStable dispatch_ltb (select_rows (λ r : claim_row, dispatch_due now r.2) (dispatch_rows db))).

Definition among (ids : list string) (d : AlertDispatch) : bool := existsb (str_eqb (dp_DeliveryID d)) ids.

Definition loadClaimedDispatchesTx (db : delivery_db) (ids : list string) (owner : string) : list claim_row :=
  SliceStable dispatch_ltb
    (select_rows (λ r : claim_row, among ids r.2 && is_dispatch DispatchClaimed r.2
                                   && bool_decide (dp_LeaseOwner r.2 = Some owner)) (dispatch_rows db)).

Definition ClaimAlertDispatches (db : delivery_db) (owner : string) (now : Time) (lease : Duration) (limit : Z)
    : result delivery_error (list claim_row * delivery_db) :=
  let? _ := check (negb (blank owner) && (0 <? lease)%Z && (0 <? limit)%Z)
              "dispatch claim requires owner, positive lease, and positive limit" in
  let ids := due_ids db now limit in
  let db' := set_dispatches (update_rows (among ids) (claimed_dispatch owner (Add now lease)) (d_dispatches db)) db in
  Ok (loadClaimedDispatchesTx db' ids owner, db').

(** The fence of every transition after a claim. *)
Definition holds_claim (id owner : string) (token : Z) (d : AlertDispatch) : bool :=
  dispatch_of id d && is_dispatch DispatchClaimed d && bool_decide (dp_LeaseOwner d = Some owner)
  && (dp_ClaimToken d =? token)%Z.

Definition validateErrorClass (class : string) : result delivery_error unit :=
  let? _ := check (negb (str_eqb class "")) "alert dispatch error class is required" in
  let? _ := check (String.length class <=? maxErrorClassLength)%nat "alert dispatch error class exceeds 64 characters" in
  check (errorClassPattern class) "alert dispatch error class must be a lowercase identifier".

Definition released_dispatch (class : string) (retry : option Time) (d : AlertDispatch) : AlertDispatch :=
  {| dp_DeliveryID := dp_DeliveryID d; dp_Status := match retry with Some _ => DispatchPending | None => DispatchFailed end;
     dp_LeaseOwner := None; dp_LeaseExpiresAt := None; dp_ClaimToken := dp_ClaimToken d; dp_AttemptCount := dp_AttemptCount d;
     dp_LastErrorClass := Some class; dp_RetryAt := retry; dp_AppliedAt := dp_AppliedAt d |}.

Definition RetryAlertDispatch (db : delivery_db) (claim : claim_row) (class : string) (retryAt : Time) (terminal : bool)
    : result delivery_error delivery_db :=
  let id := ad_ID claim.1 in
  let? owner := match dp_LeaseOwner claim.2 with
                | Some o => if negb (blank id) && negb (blank o) && (0 <? dp_ClaimToken claim.2)%Z then Ok o
                            else Err (ErrDeliveryInvalid "alert dispatch retry requires a complete claim")
                | None => Err (ErrDeliveryInvalid "alert dispatch retry requires a complete claim")
                end in
  let? _ := validateErrorClass class in
  let? _ := check (terminal || negb (IsZero retryAt)) "alert dispatch retry time is required" in
  let holds := holds_claim id owner (dp_ClaimToken claim.2) in
  guard! existsb holds (d_dispatches db) else ErrAlertDispatchLeaseLost in
  Ok (set_dispatches
        (update_rows holds (released_dispatch class (if terminal then None else Some retryAt)) (d_dispatches db)) db).

(** ** Applying *)

Record CorrelatedDeliveryMutation : Type := {
  cm_DeliveryID : string;
  cm_DispatchOwner : string;
  cm_DispatchClaimToken : Z;
  cm_Incident : Incident;
  cm_Occurrence : option Occurrence;
  cm_Input : SituationInput;
  cm_RequireNonterminalOwner : bool;
  cm_RequireTriageBackoff : bool
}.

Record CorrelatedDeliveryResult : Type := {
  cr_Incident : Incident;
  cr_Created : bool;
  cr_Occurrence : option Occurrence;
  cr_Resolved : bool;
  cr_Duplicate : bool
}.

Definition validateCorrelatedDeliveryMutation (m : CorrelatedDeliveryMutation) : result delivery_error unit :=
  let i := cm_Incident m in
  let n := cm_Input m in
  let? _ := check (negb (blank (cm_DeliveryID m))) "correlated delivery requires a delivery id" in
  let? _ := check (negb (blank (cm_DispatchOwner m)) && (0 <? cm_DispatchClaimToken m)%Z)
              "correlated delivery requires a complete dispatch claim" in
  let? _ := check (negb (blank (ic_ID i)) && negb (blank (ic_GroupKey i))) "correlated delivery requires incident identity" in
  let? _ := check (negb (IsZero (ic_FirstAlertAt i)) && negb (IsZero (ic_LastAlertAt i)) && negb (IsZero (ic_ReadyAt i)))
              "correlated delivery requires incident times" in
  let? _ := check (negb (blank (si_ID n)) && negb (blank (si_IdempotencyKey n)) && negb (blank (si_Kind n))
                   && negb (IsZero (si_OccurredAt n)))
              "correlated delivery requires situation input identity, kind, and time" in
  let? _ := check (str_eqb (si_IncidentID n) (ic_ID i)) "correlated situation input incident does not match incident" in
  let? _ := check (str_eqb (si_GroupKey n) (ic_GroupKey i)) "correlated situation input group key does not match incident" in
  let? _ := check (bool_decide (si_DeliveryID n = Some (cm_DeliveryID m)))
              "correlated situation input does not match delivery" in
  match cm_Occurrence m with
  | Some o => check (str_eqb (oc_IncidentID o) (ic_ID i)) "correlated occurrence does not match incident"
  | None => Ok tt
  end.

Definition verifyCorrelatedDispatchClaimTx (db : delivery_db) (id owner : string) (token : Z) : result delivery_error unit :=
  if existsb (holds_claim id owner token) (d_dispatches db) then Ok tt else Err ErrAlertDispatchLeaseLost.

Definition in_group (g : string) (i : Incident) : bool := str_eqb (ic_GroupKey i) g.

Definition incident_age : Incident → Incident → bool :=
  lex_less (λ x y, text_ltb (ic_CreatedAt x) (ic_CreatedAt y)) (skey_ltb ic_ID).

Definition new_incident (i : Incident) (now : Time) : Incident :=
  {| ic_ID := ic_ID i; ic_GroupKey := ic_GroupKey i; ic_Status := StatusCollecting; ic_FirstAlertAt := ic_FirstAlertAt i;
     ic_LastAlertAt := ic_LastAlertAt i; ic_ReadyAt := ic_ReadyAt i; ic_AlertCount := 0; ic_CreatedAt := now;
     ic_LastJudgedAt := None |}.

(** Whether the Incident was created, its status and its identity. *)
Definition ensureCorrelatedIncidentTx (db : delivery_db) (inc : Incident) (reuseCollecting : bool) (now : Time)
    : result delivery_error (bool * IncidentStatus * string * delivery_db) :=
  let collecting := select_rows (λ i, in_group (ic_GroupKey inc) i && has_status StatusCollecting i) (d_incidents db) in
  match find_incident db (ic_ID inc) with
  | Some i =>
      guard! in_group (ic_GroupKey inc) i else ErrDeliveryInvalid "correlated incident group key mismatch" in
      Ok (false, ic_Status i, ic_ID inc, db)
  | None =>
      match (if reuseCollecting then head (SliceStable incident_age collecting) else None) with
      | Some i => Ok (false, ic_Status i, ic_ID i, db)
      | None =>
          (* one collecting Incident of a group *)
          guard! bool_decide (collecting = []) else ErrDeliveryConstraint in
          Ok (true, StatusCollecting, ic_ID inc, set_incidents (d_incidents db ++ [new_incident inc now]) db)
      end
  end.

Definition validTriggerKinds : list string := ["none"; "severity"; "new_alertname"; "cadence"; "ceiling"; "cap"].

(** The next rowid. *)
Definition next_rowid (l : list Occurrence) : Z := (1 + foldr Z.max 0 (oc_ID <$> l))%Z.

Definition insertCorrelatedOccurrenceTx (db : delivery_db) (o : Occurrence) : result delivery_error (Z * delivery_db) :=
  let trigger := if str_eqb (oc_TriggerKind o) "" then "none" else oc_TriggerKind o in
  let? _ := check (existsb (str_eqb trigger) validTriggerKinds) "occurrence: trigger_kind invalid" in
  let id := next_rowid (d_occurrences db) in
  Ok (id, set_occurrences (d_occurrences db ++
        [{| oc_ID := id; oc_IncidentID := oc_IncidentID o; oc_OccurredAt := oc_OccurredAt o;
            oc_LastSeen := if IsZero (oc_LastSeen o) then oc_OccurredAt o else oc_LastSeen o;
            oc_Fingerprints := oc_Fingerprints o; oc_Payload := oc_Payload o; oc_TriggerKind := trigger |}]) db).

Definition occurrence_of (id : Z) (incidentID : string) (o : Occurrence) : bool :=
  (oc_ID o =? id)%Z && str_eqb (oc_IncidentID o) incidentID.

(** The column has nine digits: its text is ordered as the instants are. *)
Definition seen (t : Time) (o : Occurrence) : Occurrence :=
  {| oc_ID := oc_ID o; oc_IncidentID := oc_IncidentID o; oc_OccurredAt := oc_OccurredAt o; oc_LastSeen := Z.max (oc_LastSeen o) t;
     oc_Fingerprints := oc_Fingerprints o; oc_Payload := oc_Payload o; oc_TriggerKind := oc_TriggerKind o |}.

Definition touchCorrelatedOccurrenceTx (db : delivery_db) (incidentID : string) (o : Occurrence) (receivedAt : Time)
    : result delivery_error (Z * delivery_db) :=
  let lastSeen := if IsZero (oc_LastSeen o) then receivedAt else oc_LastSeen o in
  guard! existsb (occurrence_of (oc_ID o) incidentID) (d_occurrences db) else ErrDeliveryNotFound in
  Ok (oc_ID o, set_occurrences (update_rows (occurrence_of (oc_ID o) incidentID) (seen lastSeen) (d_occurrences db)) db).

Definition applyCorrelatedOccurrenceTx (db : delivery_db) (incidentID : string) (o : option Occurrence) (receivedAt : Time)
    : result delivery_error (option Z * delivery_db) :=
  match o with
  | None => Ok (None, db)
  | Some o =>
      let? (id, db') := if (oc_ID o =? 0)%Z then insertCorrelatedOccurrenceTx db o
                        else touchCorrelatedOccurrenceTx db incidentID o receivedAt in
      Ok (Some id, db')
  end.

Definition text_max (a b : Time) : Time := if text_ltb a b then b else a.

Definition is_member (incidentID alertID : string) (m : string * string) : bool :=
  str_eqb m.1 incidentID && str_eqb m.2 alertID.

Definition joined (added : Z) (at_ : Time) (i : Incident) : Incident :=
  {| ic_ID := ic_ID i; ic_GroupKey := ic_GroupKey i; ic_Status := ic_Status i; ic_FirstAlertAt := ic_FirstAlertAt i;
     ic_LastAlertAt := text_max (ic_LastAlertAt i) at_; ic_ReadyAt := ic_ReadyAt i; ic_AlertCount := ic_AlertCount i + added;
     ic_CreatedAt := ic_CreatedAt i; ic_LastJudgedAt := ic_LastJudgedAt i |}.

Definition attachCorrelatedDeliveryTx (db : delivery_db) (incidentID deliveryID alertID : string) (occurrence : option Z)
    (receivedAt : Time) : result delivery_error delivery_db :=
  let known := existsb (is_member incidentID alertID) (d_members db) in
  let members := if known then d_members db else d_members db ++ [(incidentID, alertID)] in
  let added := (if known then 0 else 1)%Z in
  guard! negb (existsb (owns_delivery deliveryID) (d_owners db)) else ErrDeliveryConstraint in
  Ok (set_owners (d_owners db ++ [{| ol_IncidentID := incidentID; ol_DeliveryID := deliveryID; ol_OccurrenceID := occurrence |}])
        (set_incidents (update_rows (incident_is incidentID) (joined added receivedAt) (d_incidents db))
           (set_members members db))).

(** The status of an Alert by the applied deliveries: the last of them by the
    start of its episode, then by receipt. *)
Definition episode_start (d : AlertDelivery) : Time := default (ad_ReceivedAt d) (ad_SourceStartedAt d).

Definition later_delivery : AlertDelivery → AlertDelivery → bool :=
  lex_less (λ x y, key_ltb episode_start y x)
    (lex_less (λ x y, key_ltb ad_ReceivedAt y x) (λ x y, skey_ltb ad_ID y x)).

Definition owned (db : delivery_db) (id : string) : bool := existsb (owns_delivery id) (d_owners db).

Definition applied_deliveries (db : delivery_db) (alertID : string) : list AlertDelivery :=
  select_rows (λ d, alert_is alertID (ad_Alert d) && owned db (ad_ID d)) (d_deliveries db).

Definition member_status (db : delivery_db) (alertID : string) : string :=
  match head (SliceStable later_delivery (applied_deliveries db alertID)) with
  | Some d => al_Status (ad_Alert d)
  | None => "firing"
  end.

Definition unresolvedIncidentMembersTx (db : delivery_db) (incidentID : string) : nat :=
  length (select_rows (λ m : string * string, str_eqb m.1 incidentID && negb (str_eqb (member_status db m.2) "resolved"))
            (d_members db)).

Definition with_ic_status (s : IncidentStatus) (i : Incident) : Incident :=
  {| ic_ID := ic_ID i; ic_GroupKey := ic_GroupKey i; ic_Status := s; ic_FirstAlertAt := ic_FirstAlertAt i;
     ic_LastAlertAt := ic_LastAlertAt i; ic_ReadyAt := ic_ReadyAt i; ic_AlertCount := ic_AlertCount i;
     ic_CreatedAt := ic_CreatedAt i; ic_LastJudgedAt := ic_LastJudgedAt i |}.

Definition among_statuses (ss : list IncidentStatus) (i : Incident) : bool := bool_decide (ic_Status i ∈ ss).

(** UPDATE incidents SET status=to WHERE id=id AND status IN (from), when it
    changes a row. *)
Definition move_incident (db : delivery_db) (id : string) (from : list IncidentStatus) (to : IncidentStatus) : option delivery_db :=
  let hit i := incident_is id i && among_statuses from i in
  if existsb hit (d_incidents db) then Some (set_incidents (update_rows hit (with_ic_status to) (d_incidents db)) db) else None.

(** DELETE FROM incident_triage WHERE incident_id=id AND phase!='exhausted' *)
Definition clear_triage (id : string) (db : delivery_db) : delivery_db :=
  if bool_decide (d_triage db !! id = Some TriageExhausted) then db else set_triage (delete id (d_triage db)) db.

Definition settled : list IncidentStatus := [StatusReady; StatusAnalyzed].

Definition resolve_incident (db : delivery_db) (id : string) : option delivery_db :=
  clear_triage id <$> move_incident db id settled StatusResolved.

Definition correlatedSituationInputKindTx (db : delivery_db) (requested incidentID deliveryStatus : string)
    (incidentStatus : IncidentStatus) (created : bool) : result delivery_error (string * bool * delivery_db) :=
  if created then Ok ("incident_created", false, db)
  else if str_eqb deliveryStatus "firing" && bool_decide (incidentStatus = StatusResolved) then
    match move_incident db incidentID [StatusResolved] StatusAnalyzed with
    | Some db' => Ok (requested, false, db')
    | None => Err ErrIncidentOwnerNotCollapsible
    end
  else if negb (str_eqb deliveryStatus "resolved") || negb (bool_decide (incidentStatus ∈ settled)) then Ok (requested, false, db)
  else if negb (unresolvedIncidentMembersTx db incidentID =? 0)%nat then Ok (requested, false, db)
  else match resolve_incident db incidentID with
       | Some db' => Ok ("incident_resolved", true, db')
       | None => Ok (requested, false, db)
       end.

Definition terminalSituationOwnerTx (db : delivery_db) (incidentID : string) : bool :=
  bool_decide (d_lifecycles db !! incidentID ∈ [Some LifecycleRecovered; Some LifecycleClosedUnknown]).

Definition triageInBackoffTx (db : delivery_db) (incidentID : string) : bool :=
  bool_decide (d_triage db !! incidentID = Some TriageBackoff).

Definition related_memberships (db : delivery_db) (alertID owner : string) : list Incident :=
  SliceStable incident_age
    (select_rows (λ i, existsb (is_member (ic_ID i) alertID) (d_members db) && negb (incident_is owner i)
                       && negb (among_statuses [StatusResolved; StatusFailed] i) && negb (terminalSituationOwnerTx db (ic_ID i)))
       (d_incidents db)).

Definition reconcileResolvedMembershipTx (db : delivery_db) (incidentID : string) (status : IncidentStatus) : string * delivery_db :=
  if negb (bool_decide (status ∈ settled)) then ("membership_changed", db)
  else if negb (unresolvedIncidentMembersTx db incidentID =? 0)%nat then ("membership_changed", db)
  else match resolve_incident db incidentID with
       | Some db' => ("incident_resolved", db')
       | None => ("membership_changed", db)
       end.

(** The kinds the outbox takes from here; its other kinds are for artifacts
    of operators, which carry more. *)
Definition input_kinds : list string :=
  ["incident_created"; "membership_changed"; "incident_ready"; "finding_persisted"; "triage_skipped"; "triage_retry_changed";
   "triage_exhausted"; "incident_resolved"].

Definition outbox_takes (n : SituationInput) (db : delivery_db) : bool :=
  existsb (str_eqb (si_Kind n)) input_kinds && negb (existsb (input_clashes n) (d_outbox db)).

(** INSERT and INSERT OR IGNORE *)
Definition enqueue (n : SituationInput) (db : delivery_db) : result delivery_error delivery_db :=
  guard! outbox_takes n db else ErrDeliveryConstraint in Ok (set_outbox (d_outbox db ++ [n]) db).
Definition enqueue_ignoring (n : SituationInput) (db : delivery_db) : delivery_db :=
  if outbox_takes n db then set_outbox (d_outbox db ++ [n]) db else db.

Definition membership_input (deliveryID : string) (i : Incident) (kind : string) (occurredAt : Time) : SituationInput :=
  let id := "delivery:" +:+ deliveryID +:+ ":membership:" +:+ ic_ID i in
  {| si_ID := id; si_IdempotencyKey := id; si_IncidentID := ic_ID i; si_DeliveryID := None; si_Kind := kind;
     si_GroupKey := ic_GroupKey i; si_OccurredAt := occurredAt |}.

Definition reconcile_one (deliveryID : string) (occurredAt : Time) (db : delivery_db) (i : Incident) : delivery_db :=
  let '(kind, db') := reconcileResolvedMembershipTx db (ic_ID i) (ic_Status i) in
  enqueue_ignoring (membership_input deliveryID i kind occurredAt) db'.

Definition reconcileResolvedMembershipsTx (db : delivery_db) (deliveryID alertID owner : string) (occurredAt : Time) : delivery_db :=
  foldl (reconcile_one deliveryID occurredAt) db (related_memberships db alertID owner).

Definition applied_dispatch (now : Time) (d : AlertDispatch) : AlertDispatch :=
  {| dp_DeliveryID := dp_DeliveryID d; dp_Status := DispatchApplied; dp_LeaseOwner := None; dp_LeaseExpiresAt := None;
     dp_ClaimToken := dp_ClaimToken d; dp_AttemptCount := dp_AttemptCount d; dp_LastErrorClass := dp_LastErrorClass d;
     dp_RetryAt := None; dp_AppliedAt := Some now |}.

Definition markCorrelatedDispatchAppliedTx (db : delivery_db) (id owner : string) (token : Z) (now : Time)
    : result delivery_error delivery_db :=
  guard! existsb (holds_claim id owner token) (d_dispatches db) else ErrAlertDispatchLeaseLost in
  Ok (set_dispatches (update_rows (holds_claim id owner token) (applied_dispatch now) (d_dispatches db)) db).

Definition input_at (n : SituationInput) (incidentID deliveryID kind groupKey : string) (t : Time) : SituationInput :=
  {| si_ID := si_ID n; si_IdempotencyKey := si_IdempotencyKey n; si_IncidentID := incidentID;
     si_DeliveryID := Some deliveryID; si_Kind := kind; si_GroupKey := groupKey; si_OccurredAt := t |}.

Definition applyDuplicateCorrelatedDeliveryTx (db : delivery_db) (m : CorrelatedDeliveryMutation) (incidentID : string) (now : Time)
    : result delivery_error (CorrelatedDeliveryResult * delivery_db) :=
  let n := cm_Input m in
  let db1 := enqueue_ignoring (input_at n incidentID (cm_DeliveryID m) (si_Kind n) (si_GroupKey n) (si_OccurredAt n)) db in
  let? db2 := markCorrelatedDispatchAppliedTx db1 (cm_DeliveryID m) (cm_DispatchOwner m) (cm_DispatchClaimToken m) now in
  match find_incident db2 incidentID with
  | Some i => Ok ({| cr_Incident := i; cr_Created := false; cr_Occurrence := None; cr_Resolved := false; cr_Duplicate := true |}, db2)
  | None => Err ErrDeliveryNotFound
  end.

Definition owner_permits (db : delivery_db) (m : CorrelatedDeliveryMutation) (incidentID : string) (s : IncidentStatus) : bool :=
  (negb (cm_RequireNonterminalOwner m)
   || (negb (bool_decide (s = StatusFailed)) && negb (terminalSituationOwnerTx db incidentID)))
  && (negb (cm_RequireTriageBackoff m) || triageInBackoffTx db incidentID).

Definition occurrence_result (m : CorrelatedDeliveryMutation) (incidentID : string) (id : option Z) : option Occurrence :=
  (λ o, {| oc_ID := default (oc_ID o) id; oc_IncidentID := incidentID; oc_OccurredAt := oc_OccurredAt o;
           oc_LastSeen := oc_LastSeen o; oc_Fingerprints := oc_Fingerprints o; oc_Payload := oc_Payload o;
           oc_TriggerKind := oc_TriggerKind o |}) <$> cm_Occurrence m.

(** The transaction once the delivery is known to have no owner. *)
Definition applyNewCorrelatedDelivery (db : delivery_db) (m : CorrelatedDeliveryMutation) (d : AlertDelivery) (opened now : Time)
    : result delivery_error (CorrelatedDeliveryResult * delivery_db) :=
  let alertID := al_ID (ad_Alert d) in
  let status := al_Status (ad_Alert d) in
  let receivedAt := ad_ReceivedAt d in
  let reuseCollecting := str_eqb (si_Kind (cm_Input m)) "incident_created" && bool_decide (cm_Occurrence m = None) in
  let? (ensured, db1) := ensureCorrelatedIncidentTx db (cm_Incident m) reuseCollecting opened in
  let '(created, incidentStatus, incidentID) := ensured in
  let requested := if str_eqb incidentID (ic_ID (cm_Incident m)) then si_Kind (cm_Input m) else "membership_changed" in
  guard! owner_permits db1 m incidentID incidentStatus else ErrIncidentOwnerNotCollapsible in
  let? (occurrenceID, db2) := applyCorrelatedOccurrenceTx db1 incidentID (cm_Occurrence m) receivedAt in
  let? db3 := attachCorrelatedDeliveryTx db2 incidentID (cm_DeliveryID m) alertID occurrenceID receivedAt in
  let? (kinded, db4) := correlatedSituationInputKindTx db3 requested incidentID status incidentStatus created in
  let '(kind, resolved) := kinded in
  let db5 := if str_eqb status "resolved"
             then reconcileResolvedMembershipsTx db4 (cm_DeliveryID m) alertID incidentID receivedAt else db4 in
  let? db6 := enqueue (input_at (cm_Input m) incidentID (cm_DeliveryID m) kind (ic_GroupKey (cm_Incident m)) receivedAt) db5 in
  let? db7 := markCorrelatedDispatchAppliedTx db6 (cm_DeliveryID m) (cm_DispatchOwner m) (cm_DispatchClaimToken m) now in
  match find_incident db7 incidentID with
  | Some i => Ok ({| cr_Incident := i; cr_Created := created; cr_Occurrence := occurrence_result m incidentID occurrenceID;
                     cr_Resolved := resolved; cr_Duplicate := false |}, db7)
  | None => Err ErrDeliveryNotFound
  end.

Definition ApplyCorrelatedDelivery (db : delivery_db) (m : CorrelatedDeliveryMutation) (opened now : Time)
    : result delivery_error (CorrelatedDeliveryResult * delivery_db) :=
  let? _ := validateCorrelatedDeliveryMutation m in
  let? _ := verifyCorrelatedDispatchClaimTx db (cm_DeliveryID m) (cm_DispatchOwner m) (cm_DispatchClaimToken m) in
  match List.find (owns_delivery (cm_DeliveryID m)) (d_owners db) with
  | Some o => applyDuplicateCorrelatedDeliveryTx db m (ol_IncidentID o) now
  | None =>
      match find_delivery db (cm_DeliveryID m) with
      | None => Err ErrDeliveryNotFound
      | Some d => applyNewCorrelatedDelivery db m d opened now
      end
  end.

(** ** The window of an Incident *)

Definition seedAwaitingDecisionTriageTx (db : delivery_db) (id : string) : delivery_db :=
  match d_triage db !! id with Some _ => db | None => set_triage (<[id := AwaitingDecision]> (d_triage db)) db end.

Definition ready_input (i : Incident) (now : Time) : SituationInput :=
  {| si_ID := "situation-input:incident-ready:" +:+ ic_ID i; si_IdempotencyKey := "incident-ready:" +:+ ic_ID i;
     si_IncidentID := ic_ID i; si_DeliveryID := None; si_Kind := "incident_ready"; si_GroupKey := ic_GroupKey i;
     si_OccurredAt := now |}.

Definition MarkIncidentReadyWithSituationInput (db : delivery_db) (id : string) (now : Time) : result delivery_error delivery_db :=
  let? _ := check (negb (blank id)) "mark incident ready requires an incident id" in
  match find_incident db id with
  | None => Err ErrDeliveryNotFound
  | Some i =>
      if has_status StatusCollecting i then
        match move_incident db id [StatusCollecting] StatusReady with
        | None => Err ErrDeliveryNotFound
        | Some db1 => let? db2 := enqueue (ready_input i now) db1 in Ok (seedAwaitingDecisionTriageTx db2 id)
        end
      else if has_status StatusReady i then
        let? _ := check (existsb (λ n, str_eqb (si_IdempotencyKey n) ("incident-ready:" +:+ id)) (d_outbox db))
                    "incident is ready without its incident_ready situation input" in
        Ok (seedAwaitingDecisionTriageTx db id)
      else Err ErrDeliveryNotFound
  end.

(** ** Reads *)

Definition newest : list Incident → option Incident :=
  λ l, head (SliceStable (λ x y, text_ltb (ic_CreatedAt y) (ic_CreatedAt x)) l).

Definition GetCollectingIncident (db : delivery_db) (g : string) : option Incident :=
  head (select_rows (λ i, in_group g i && has_status StatusCollecting i) (d_incidents db)).

Definition GetRecentIncidentByGroupKey (db : delivery_db) (g : string) : option Incident :=
  newest (select_rows (in_group g) (d_incidents db)).

Definition GetBackoffIncidentByGroupKey (db : delivery_db) (g : string) : option Incident :=
  newest (select_rows (λ i, in_group g i && has_status StatusReady i && triageInBackoffTx db (ic_ID i)) (d_incidents db)).

Definition GetRecentJudgedIncidentByGroupKey (db : delivery_db) (g : string) : option Incident :=
  newest (select_rows (λ i, in_group g i && among_statuses [StatusAnalyzed; StatusResolved] i) (d_incidents db)).

Definition GetCurrentIncidentByAlertID (db : delivery_db) (alertID : string) : option Incident :=
  head (SliceStable (flip incident_age)
    (select_rows (λ i, existsb (is_member (ic_ID i) alertID) (d_members db)
                       && negb (among_statuses [StatusResolved; StatusFailed] i) && negb (terminalSituationOwnerTx db (ic_ID i)))
       (d_incidents db))).

Definition ListCollectingIncidents (db : delivery_db) : list Incident :=
  SliceStable (λ x y, text_ltb (ic_ReadyAt x) (ic_ReadyAt y)) (select_rows (has_status StatusCollecting) (d_incidents db)).

Definition find_alert (db : delivery_db) (id : string) : option Alert := List.find (alert_is id) (d_alerts db).

Definition GetIncidentAlerts (db : delivery_db) (incidentID : string) : list Alert :=
  omap (λ m : string * string, find_alert db m.2) (select_rows (λ m : string * string, str_eqb m.1 incidentID) (d_members db)).

Definition occurrences_of (db : delivery_db) (incidentID : string) : list Occurrence :=
  select_rows (λ o, str_eqb (oc_IncidentID o) incidentID) (d_occurrences db).

Definition later_occurrence : Occurrence → Occurrence → bool :=
  lex_less (λ x y, key_ltb oc_OccurredAt y x) (λ x y, key_ltb oc_ID y x).

Definition LatestOccurrence (db : delivery_db) (incidentID : string) : option Occurrence :=
  head (SliceStable later_occurrence (occurrences_of db incidentID)).

(** The nine digits of the occurrence columns. *)
Fixpoint fixed_digits (w : nat) (n : Z) : string :=
  match w with
  | O => EmptyString
  | S w' => let p := (10 ^ Z.of_nat w')%Z in
            String (Ascii.ascii_of_N (Z.to_N (48 + n / p))) (fixed_digits w' (n mod p))
  end.

Definition fixed_subsecond (t : Time) : string := "." +:+ fixed_digits 9 (t mod Second)%Z +:+ "Z".

(** [fmtOccTime t] against [canonicalTime u], as texts. *)
Definition occ_before (t u : Time) : bool :=
  (seconds_of t <? seconds_of u)%Z || ((seconds_of t =? seconds_of u)%Z && str_ltb (fixed_subsecond t) (subsecond_text u)).
Definition occ_after (t u : Time) : bool :=
  (seconds_of u <? seconds_of t)%Z || ((seconds_of t =? seconds_of u)%Z && str_ltb (subsecond_text u) (fixed_subsecond t)).

Definition CountOccurrencesSince (db : delivery_db) (incidentID : string) (since : Time) : nat :=
  length (select_rows (λ o, occ_after (oc_OccurredAt o) since) (occurrences_of db incidentID)).

Definition KeyEpisodeTimes (db : delivery_db) (g : string) (since : Time) : list Time :=
  SliceStable Z.ltb
    ((ic_FirstAlertAt <$> select_rows (λ i, in_group g i && text_leb since (ic_FirstAlertAt i)) (d_incidents db))
     ++ (oc_OccurredAt <$> select_rows (λ o, match find_incident db (oc_IncidentID o) with
                                             | Some i => in_group g i && negb (occ_before (oc_OccurredAt o) since)
                                             | None => false
                                             end) (d_occurrences db))).

Definition IsDrillAlert (a : Alert) : bool := str_eqb (map_get (al_Labels a) "alertint_drill") "true".

(** ** Recovery *)

(** A lease that ran out is released at a restart: the token and the attempts
    stay. *)
Definition dispatch_expired (now : Time) (d : AlertDispatch) : bool :=
  is_dispatch DispatchClaimed d && match dp_LeaseExpiresAt d with None => false | Some t => text_leb t now end.

Definition recovered_dispatch (d : AlertDispatch) : AlertDispatch :=
  {| dp_DeliveryID := dp_DeliveryID d; dp_Status := DispatchPending; dp_LeaseOwner := None; dp_LeaseExpiresAt := None;
     dp_ClaimToken := dp_ClaimToken d; dp_AttemptCount := dp_AttemptCount d; dp_LastErrorClass := dp_LastErrorClass d;
     dp_RetryAt := dp_RetryAt d; dp_AppliedAt := dp_AppliedAt d |}.

Definition recover_dispatches (db : delivery_db) (now : Time) : nat * delivery_db :=
  (length (select_rows (dispatch_expired now) (d_dispatches db)),
   set_dispatches (update_rows (dispatch_expired now) recovered_dispatch (d_dispatches db)) db).

(** ** Pruning *)

Definition defaultPruneBatch : Z := 500%Z.

(** DELETE of rows: the owners that name one lose it (ON DELETE SET NULL). *)
Definition delete_occurrences (gone : Occurrence → bool) (db : delivery_db) : delivery_db :=
  let ids := oc_ID <$> select_rows gone (d_occurrences db) in
  set_owners (update_rows (λ o, match ol_OccurrenceID o with Some i => bool_decide (i ∈ ids) | None => false end)
                (λ o, {| ol_IncidentID := ol_IncidentID o; ol_DeliveryID := ol_DeliveryID o; ol_OccurrenceID := None |})
                (d_owners db))
    (set_occurrences (select_rows (λ o, negb (gone o)) (d_occurrences db)) db).

(** One DELETE: the rows with the least identities. *)
Definition prune_batch (cutoff : Time) (batch : nat) (db : delivery_db) : nat * delivery_db :=
  let ids := take batch (oc_ID <$> SliceStable (key_ltb oc_ID) (select_rows (λ o, occ_before (oc_OccurredAt o) cutoff) (d_occurrences db))) in
  (length ids, delete_occurrences (λ o, bool_decide (oc_ID o ∈ ids)) db).

(** [fuel] counts the passes of the loop; [None] when they are not enough. *)
Fixpoint prune_loop (fuel : nat) (cutoff : Time) (batch : nat) (db : delivery_db) : option (nat * delivery_db) :=
  match fuel with
  | O => None
  | S f =>
      let '(n, db') := prune_batch cutoff batch db in
      if (n <? batch)%nat then Some (n, db')
      else '(rest, db'') ← prune_loop f cutoff batch db'; Some (n + rest, db'')
  end%nat.

Definition PruneOccurrences (fuel : nat) (db : delivery_db) (before : Time) (batchSize : Z) : option (nat * delivery_db) :=
  prune_loop fuel before (Z.to_nat (if (batchSize <=? 0)%Z then defaultPruneBatch else batchSize)) db.
