(* ===== verification/DeliveryLedger.v ===== *)
(** * The delivery ledger keeps its books (internal/store/deliveries.go)

    The transactions of [Deliveries] and the writes of the other workers as
    steps over the tables, the invariant they keep, and what it means for a
    claim: a delivery is applied at most once, by the claim that holds it, to
    one Incident, with one input for the Situation. *)

From stdpp Require Import prelude strings list gmap sorting.
From S2P Require Import Prelude SituationModel TriageStore ErrorClass Deliveries.

(** ** Steps *)

(** What the rows of an Incident keep under the writes of the other workers:
    none of them opens a window or moves an Incident. *)
Definition kept (i j : Incident) : Prop :=
  ic_ID j = ic_ID i ∧ ic_GroupKey j = ic_GroupKey i ∧ ic_AlertCount j = ic_AlertCount i
  ∧ (ic_Status j = StatusCollecting → ic_Status i = StatusCollecting).

Record others_keep (db db' : delivery_db) : Prop := {
  ok_alerts : d_alerts db' = d_alerts db;
  ok_deliveries : d_deliveries db' = d_deliveries db;
  ok_dispatches : d_dispatches db' = d_dispatches db;
  ok_members : d_members db' = d_members db;
  ok_owners : d_owners db' = d_owners db;
  ok_occurrences : d_occurrences db' = d_occurrences db;
  ok_incidents : Forall2 kept (d_incidents db) (d_incidents db');
  ok_outbox : ∃ extra, d_outbox db' = d_outbox db ++ extra ∧ Forall (λ n, si_DeliveryID n = None) extra
}.

(** [ls_other]: the Triage worker, the controller and the consumer of the
    inputs, which change the status of an Incident, its schedule, the lifecycle
    of its owner, and queue inputs of their own. *)
Inductive ledger_step : delivery_db → delivery_db → Prop :=
| ls_accept db l ds db' : AcceptDeliveries db l = Ok (ds, db') → ledger_step db db'
| ls_claim db owner now lease limit rows db' :
    ClaimAlertDispatches db owner now lease limit = Ok (rows, db') → ledger_step db db'
| ls_retry db claim class at_ terminal db' : RetryAlertDispatch db claim class at_ terminal = Ok db' → ledger_step db db'
| ls_apply db m opened now r db' : ApplyCorrelatedDelivery db m opened now = Ok (r, db') → ledger_step db db'
| ls_ready db id now db' : MarkIncidentReadyWithSituationInput db id now = Ok db' → ledger_step db db'
| ls_prune fuel db before batch n db' : PruneOccurrences fuel db before batch = Some (n, db') → ledger_step db db'
| ls_recover db now : ledger_step db (recover_dispatches db now).2
| ls_other db db' : others_keep db db' → ledger_step db db'.

(** ** The invariant *)

Definition opt_iff {A} (P : Prop) (o : option A) : Prop := P ↔ is_Some o.

Record dispatch_ok (d : AlertDispatch) : Prop := {
  do_owner : opt_iff (dp_Status d = DispatchClaimed) (dp_LeaseOwner d);
  do_lease : opt_iff (dp_Status d = DispatchClaimed) (dp_LeaseExpiresAt d);
  do_applied : opt_iff (dp_Status d = DispatchApplied) (dp_AppliedAt d);
  do_failed : dp_Status d = DispatchFailed → dp_RetryAt d = None;
  do_attempts : dp_AttemptCount d = dp_ClaimToken d;
  do_token : (0 ≤ dp_ClaimToken d)%Z
}.

Definition link (o : owner_link) : string * string := (ol_IncidentID o, ol_DeliveryID o).

(** The inputs that carry a delivery, with their Incident. *)
Definition journal (l : list SituationInput) : list (string * string) :=
  omap (λ n, (λ d, (si_IncidentID n, d)) <$> si_DeliveryID n) l.

Definition member_count (l : list (string * string)) (id : string) : nat := length (filter (λ m, m.1 = id) l).

Record ledger_inv (db : delivery_db) : Prop := {
  li_deliveries : NoDup (ad_ID <$> d_deliveries db);
  li_dispatches : (dp_DeliveryID <$> d_dispatches db) = (ad_ID <$> d_deliveries db);
  li_rows : Forall dispatch_ok (d_dispatches db);
  li_fingerprints : NoDup (al_Fingerprint <$> d_alerts db);
  li_alert_ids : NoDup (al_ID <$> d_alerts db);
  li_alerts : Forall (λ d, ∃ a, a ∈ d_alerts db ∧ al_ID a = al_ID (ad_Alert d)
                                ∧ al_Fingerprint a = al_Fingerprint (ad_Alert d)) (d_deliveries db);
  li_incidents : NoDup (ic_ID <$> d_incidents db);
  li_collecting : ∀ i j, i ∈ d_incidents db → j ∈ d_incidents db → ic_GroupKey i = ic_GroupKey j →
    ic_Status i = StatusCollecting → ic_Status j = StatusCollecting → ic_ID i = ic_ID j;
  li_members : NoDup (d_members db);
  li_member_of : Forall (λ m : string * string, m.1 ∈ ic_ID <$> d_incidents db) (d_members db);
  li_counts : Forall (λ i, ic_AlertCount i = Z.of_nat (member_count (d_members db) (ic_ID i))) (d_incidents db);
  li_owners : NoDup (ol_DeliveryID <$> d_owners db);
  li_owner_of : Forall (λ o, ∃ d, d ∈ d_deliveries db ∧ ad_ID d = ol_DeliveryID o
                                  ∧ (ol_IncidentID o, al_ID (ad_Alert d)) ∈ d_members db) (d_owners db);
  li_applied : Forall (λ d, dp_Status d = DispatchApplied ↔ dp_DeliveryID d ∈ (ol_DeliveryID <$> d_owners db))
                 (d_dispatches db);
  li_inputs : journal (d_outbox db) = (link <$> d_owners db);
  li_occurrences : NoDup (oc_ID <$> d_occurrences db);
  li_occurrence_of : Forall (λ o, ∀ id, ol_OccurrenceID o = Some id →
                       ∃ c, c ∈ d_occurrences db ∧ oc_ID c = id ∧ oc_IncidentID c = ol_IncidentID o) (d_owners db)
}.

Definition empty_db : delivery_db :=
  {| d_alerts := []; d_deliveries := []; d_dispatches := []; d_incidents := []; d_members := []; d_owners := [];
     d_occurrences := []; d_outbox := []; d_triage := ∅; d_lifecycles := ∅ |}.

(** ** Rows *)

Lemma fmap_update_rows_in {A B} (g : A → B) P f (l : list A) :
  (∀ a, a ∈ l → P a = true → g (f a) = g a) → g <$> update_rows P f l = g <$> l.
Proof.
  intros Hg. unfold update_rows. rewrite <- list_fmap_compose. apply list_fmap_ext. intros i a Ha. simpl.
  destruct (P a) eqn:E; [|done]. apply Hg; [by eapply list_elem_of_lookup_2|done].
Qed.

Lemma fmap_update_rows {A B} (g : A → B) P f (l : list A) : (∀ a, g (f a) = g a) → g <$> update_rows P f l = g <$> l.
Proof. intros Hg. by apply fmap_update_rows_in. Qed.

Lemma update_rows_ext {A} P Q f (l : list A) : (∀ a, a ∈ l → P a = Q a) → update_rows P f l = update_rows Q f l.
Proof.
  intros H. unfold update_rows. apply list_fmap_ext. intros i a Ha. simpl. by rewrite H by (by eapply list_elem_of_lookup_2).
Qed.

Lemma elem_of_update_rows {A} P f (l : list A) x : x ∈ update_rows P f l ↔ ∃ a, a ∈ l ∧ x = if P a then f a else a.
Proof. unfold update_rows. rewrite list_elem_of_fmap. naive_solver. Qed.

Lemma Forall_update_rows {A} (Q : A → Prop) P f (l : list A) :
  Forall Q l → (∀ a, a ∈ l → P a = true → Q a → Q (f a)) → Forall Q (update_rows P f l).
Proof.
  rewrite !Forall_forall. intros Hl Hf x (a & Ha & ->)%elem_of_update_rows. destruct (P a) eqn:E; eauto.
Qed.

Lemma elem_of_SliceStable {A} (less : A → A → bool) l x : x ∈ SliceStable less l → x ∈ l.
Proof. by rewrite SliceStable_perm. Qed.

Lemma elem_of_select_rows {A} P (l : list A) x : x ∈ select_rows P l ↔ P x = true ∧ x ∈ l.
Proof. unfold select_rows. by rewrite list_elem_of_filter. Qed.

Lemma NoDup_fmap_inj {A B} (g : A → B) (l : list A) x y : NoDup (g <$> l) → x ∈ l → y ∈ l → g x = g y → x = y.
Proof.
  induction l as [|a l IH]; [set_solver|]. rewrite fmap_cons, NoDup_cons. intros [Ha Hl] Hx Hy E.
  apply elem_of_cons in Hx as [->|Hx], Hy as [->|Hy]; [done| | |by apply IH].
  - destruct Ha. rewrite E. by apply list_elem_of_fmap_2.
  - destruct Ha. rewrite <- E. by apply list_elem_of_fmap_2.
Qed.

Lemma find_key {A} (g : A → string) id (l : list A) x :
  List.find (λ a, str_eqb (g a) id) l = Some x → x ∈ l ∧ g x = id.
Proof. intros [H1 H2]%find_some. go_bool. by rewrite list_elem_of_In. Qed.

Lemma find_key_none {A} (g : A → string) id (l : list A) :
  List.find (λ a, str_eqb (g a) id) l = None ↔ id ∉ g <$> l.
Proof.
  split.
  - intros H (x & -> & Hx)%list_elem_of_fmap. rewrite list_elem_of_In in Hx. apply (find_none _ _ H) in Hx. simpl in Hx. by rewrite str_eqb_refl in Hx.
  - intros Hn. destruct (List.find _ l) eqn:E; [|done]. apply find_key in E as [? <-]. destruct Hn. by apply list_elem_of_fmap_2.
Qed.

Lemma existsb_key {A} (g : A → string) id (l : list A) :
  existsb (λ a, str_eqb (g a) id) l = true ↔ id ∈ g <$> l.
Proof.
  rewrite existsb_exists, list_elem_of_fmap. split; intros (x & Hx).
  - exists x. destruct Hx as [? Hx]. go_bool. by rewrite list_elem_of_In.
  - exists x. destruct Hx as [-> ?]. rewrite <- list_elem_of_In, str_eqb_refl. done.
Qed.

(** ** The writes that keep the rows *)

#[export] Instance kept_preorder : PreOrder kept.
Proof. split; unfold kept; [by intros i|]. intros i j k (?&?&?&?) (?&?&?&?). repeat split; [congruence..|eauto]. Qed.

#[export] Instance others_keep_preorder : PreOrder others_keep.
Proof.
  split.
  - intros db. split; try done. exists []. by rewrite app_nil_r.
  - intros a b c [?????? Hi (x&Hx&Fx)] [?????? Hj (y&Hy&Fy)]. split; [congruence..|by etrans|].
    exists (x ++ y). rewrite Hy, Hx, app_assoc. split; [done|by apply Forall_app].
Qed.

Lemma kept_ids l l' : Forall2 kept l l' → ic_ID <$> l' = ic_ID <$> l.
Proof. induction 1 as [|i j l l' (E&_) _ IH]; [done|]. csimpl. congruence. Qed.

Lemma kept_elem l l' j : Forall2 kept l l' → j ∈ l' → ∃ i, i ∈ l ∧ kept i j.
Proof. intros H [n Hn]%list_elem_of_lookup. destruct (Forall2_lookup_r _ _ _ _ _ H Hn) as (i & Hi & ?). exists i. split; [by eapply list_elem_of_lookup_2|done]. Qed.

Lemma journal_app l l' : journal (l ++ l') = journal l ++ journal l'.
Proof. apply omap_app. Qed.

Lemma journal_none l : Forall (λ n, si_DeliveryID n = None) l → journal l = [].
Proof. induction 1 as [|n l Hn _ IH]; [done|]. unfold journal in *. simpl. by rewrite Hn. Qed.

Lemma others_keep_inv db db' : ledger_inv db → others_keep db db' → ledger_inv db'.
Proof.
  intros [] [Ea Ed Ep Em Eo Ec Hi (extra & Ex & Fx)].
  split; rewrite ?Ea, ?Ed, ?Ep, ?Em, ?Eo, ?Ec, ?(kept_ids _ _ Hi); try done.
  - intros i j Hin Hjn Hg Hci Hcj. destruct (kept_elem _ _ _ Hi Hin) as (i0&?&Ei&Gi&_&Si).
    destruct (kept_elem _ _ _ Hi Hjn) as (j0&?&Ej&Gj&_&Sj). rewrite Ei, Ej. apply li_collecting0; eauto. congruence.
  - apply Forall_forall. intros i Hin. destruct (kept_elem _ _ _ Hi Hin) as (i0&H0&->&_&->&_).
    rewrite Forall_forall in li_counts0. by apply li_counts0.
  - rewrite Ex, journal_app, (journal_none extra), app_nil_r; done.
Qed.

Lemma update_rows_kept P f l : (∀ i, P i = true → kept i (f i)) → Forall2 kept l (update_rows P f l).
Proof. intros Hf. induction l as [|i l IH]; constructor; [destruct (P i) eqn:E; [by apply Hf|reflexivity]|done]. Qed.

Lemma move_incident_keep db id from to db' :
  move_incident db id from to = Some db' → to ≠ StatusCollecting → others_keep db db'.
Proof.
  unfold move_incident. case_match; [|done]. intros [= <-] Ht. split; try done.
  - apply update_rows_kept. intros i _. by repeat split.
  - exists []. by rewrite app_nil_r.
Qed.

Lemma clear_triage_keep id db : others_keep db (clear_triage id db).
Proof. unfold clear_triage. case_match; [reflexivity|]. split; try done. exists []. by rewrite app_nil_r. Qed.

Lemma resolve_incident_keep db id db' : resolve_incident db id = Some db' → others_keep db db'.
Proof.
  unfold resolve_incident. intros (db1 & H1 & ->)%fmap_Some. etrans; [by eapply move_incident_keep|apply clear_triage_keep].
Qed.

Lemma kind_keep db req id ds st cr kind res db' :
  correlatedSituationInputKindTx db req id ds st cr = Ok (kind, res, db') → others_keep db db'.
Proof.
  unfold correlatedSituationInputKindTx. intros H.
  repeat (case_match; simplify_eq/=; try reflexivity); eauto using move_incident_keep, resolve_incident_keep.
Qed.

Lemma enqueue_ignoring_keep n db : si_DeliveryID n = None → others_keep db (enqueue_ignoring n db).
Proof. intros Hn. unfold enqueue_ignoring. case_match; [|reflexivity]. split; try done. exists [n]. by split; [|constructor]. Qed.

Lemma reconcile_keep db id owner alertID at_ : others_keep db (reconcileResolvedMembershipsTx db id alertID owner at_).
Proof.
  unfold reconcileResolvedMembershipsTx. generalize (related_memberships db alertID owner) as l. intros l. revert db.
  induction l as [|i l IH]; intros db; [reflexivity|]. simpl. etrans; [|apply IH].
  unfold reconcile_one, reconcileResolvedMembershipTx.
  repeat (case_match; simplify_eq/=); (etrans; [|by apply enqueue_ignoring_keep]); eauto using resolve_incident_keep; reflexivity.
Qed.

Lemma enqueue_ok n db db' : enqueue n db = Ok db' → outbox_takes n db = true ∧ db' = set_outbox (d_outbox db ++ [n]) db.
Proof. unfold enqueue. case_match; [|done]. by intros [= <-]. Qed.

Lemma set_triage_keep m db : others_keep db (set_triage m db).
Proof. split; try done. exists []. by rewrite app_nil_r. Qed.

Lemma seed_keep db id : others_keep db (seedAwaitingDecisionTriageTx db id).
Proof. unfold seedAwaitingDecisionTriageTx. case_match; [reflexivity|apply set_triage_keep]. Qed.

Lemma ready_keep db id now db' : MarkIncidentReadyWithSituationInput db id now = Ok db' → others_keep db db'.
Proof.
  unfold MarkIncidentReadyWithSituationInput, check. intros H.
  repeat (case_match; simplify_eq/=); try apply seed_keep.
  destruct (enqueue _ _) as [db2|] eqn:E; [|done]. apply enqueue_ok in E as [_ ->]. simplify_eq/=.
  etrans; [by eapply move_incident_keep|]. etrans; [|apply seed_keep]. split; try done.
  eexists. split; [done|]. by constructor.
Qed.

(** ** Accepting *)

Lemma set_alerts_inv db l :
  ledger_inv db → NoDup (al_Fingerprint <$> l) → NoDup (al_ID <$> l) →
  (∀ a, a ∈ d_alerts db → ∃ b, b ∈ l ∧ al_ID b = al_ID a ∧ al_Fingerprint b = al_Fingerprint a) →
  ledger_inv (set_alerts l db).
Proof.
  intros [] Hf Hi Hsub. split; try done. simpl. eapply Forall_impl; [exact li_alerts0|]. simpl.
  intros d (a & Ha & E1 & E2). destruct (Hsub a Ha) as (b & ? & ? & ?). exists b. repeat split; congruence.
Qed.

Lemma upsert_inv db p a db' :
  ledger_inv db → upsertDeliveryAlertTx db p = Ok (a, db') →
  ledger_inv db' ∧ d_deliveries db' = d_deliveries db ∧ d_dispatches db' = d_dispatches db ∧ d_owners db' = d_owners db
  ∧ ∃ b, b ∈ d_alerts db' ∧ al_ID b = al_ID a ∧ al_Fingerprint b = al_Fingerprint a.
Proof.
  intros Hinv. pose proof Hinv as []. unfold upsertDeliveryAlertTx. destruct (List.find _ _) as [old|] eqn:E.
  - apply (find_key al_Fingerprint) in E as [Hold Efp]. intros [= <- <-]. split; [|repeat split].
    + apply set_alerts_inv; [done|..].
      1,2: rewrite fmap_update_rows_in; [done|]; intros b _ Hb; unfold has_fingerprint in Hb; go_bool; done.
      intros b Hb. destruct (has_fingerprint (al_Fingerprint (di_Alert p)) b) eqn:Eb.
      * eexists. split; [apply elem_of_update_rows; by exists b|]. rewrite Eb. unfold has_fingerprint in Eb. go_bool. done.
      * exists b. split; [apply elem_of_update_rows; exists b; by rewrite Eb|done].
    + simpl. eexists. split; [apply elem_of_update_rows; exists old; split; [done|]|].
      * unfold has_fingerprint. by rewrite Efp, str_eqb_refl.
      * done.
  - apply (find_key_none al_Fingerprint) in E. destruct (existsb (alert_is _) _) eqn:Ex; [done|]. simpl. intros [= <- <-].
    assert (al_ID (di_Alert p) ∉ (al_ID <$> d_alerts db)).
    { intros H%(existsb_key al_ID). unfold alert_is in Ex. by rewrite H in Ex. }
    split; [|repeat split].
    + apply set_alerts_inv; [done|..].
      1,2: rewrite fmap_app; apply NoDup_app; split; [done|]; split; [|apply NoDup_singleton]; set_solver.
      intros b Hb. exists b. rewrite elem_of_app. auto.
    + simpl. eexists. split; [apply elem_of_app; right; by apply list_elem_of_singleton|done].
Qed.

Lemma insert_delivery_inv db p a d db' :
  ledger_inv db → find_delivery db (di_ID p) = None →
  (∃ b, b ∈ d_alerts db ∧ al_ID b = al_ID a ∧ al_Fingerprint b = al_Fingerprint a) →
  insertDeliveryTx db p a = Ok (d, db') →
  ledger_inv (set_dispatches (d_dispatches db' ++ [pending_dispatch (ad_ID d)]) db').
Proof.
  intros [] Hf Hal. apply (find_key_none ad_ID) in Hf. unfold insertDeliveryTx. case_match; [|done]. intros [= <- <-].
  split; try done; simpl.
  - rewrite fmap_app. apply NoDup_app. split; [done|]. split; [|apply NoDup_singleton]. set_solver.
  - by rewrite !fmap_app, li_dispatches0.
  - apply Forall_app. split; [done|]. constructor; [|done]. split; unfold opt_iff; simpl; try done; split; try done; by intros [? [=]].
  - apply Forall_app. split; [done|]. by constructor.
  - eapply Forall_impl; [exact li_owner_of0|]. intros o (d & ? & ? & ?). exists d. rewrite elem_of_app. auto.
  - apply Forall_app. split; [done|]. constructor; [|done]. simpl. split; [done|]. intros (o & E & Ho)%list_elem_of_fmap.
    rewrite Forall_forall in li_owner_of0. destruct (li_owner_of0 o Ho) as (d & Hd & E' & _). destruct Hf.
    rewrite E, <- E'. by apply list_elem_of_fmap_2.
Qed.

Lemma accept_one_inv db p d db' : ledger_inv db → acceptDelivery db p = Ok (d, db') → ledger_inv db'.
Proof.
  intros Hinv. unfold acceptDelivery. destruct (find_delivery db (di_ID p)) eqn:E; [by intros [= <- <-]|].
  destruct (upsertDeliveryAlertTx db p) as [[a db1]|] eqn:E1; [|done]. simpl.
  destruct (upsert_inv _ _ _ _ Hinv E1) as (Hinv1 & Ed & _ & _ & Ha).
  destruct (insertDeliveryTx db1 p a) as [[d1 db2]|] eqn:E2; [|done]. simpl. intros [= <- <-].
  eapply insert_delivery_inv; [done| |done|done]. unfold find_delivery in *. by rewrite Ed.
Qed.

Lemma accept_inv db l ds db' : ledger_inv db → AcceptDeliveries db l = Ok (ds, db') → ledger_inv db'.
Proof.
  unfold AcceptDeliveries. destruct (prepareDeliveries l) as [ps|]; [|done]. simpl. clear l. revert db ds.
  induction ps as [|p ps IH]; intros db ds Hinv; simpl; [by intros [= <- <-]|].
  destruct (acceptDelivery db p) as [[d db1]|] eqn:E1; [|done]. simpl.
  destruct (accept_all db1 ps) as [[ds1 db2]|] eqn:E2; [|done]. simpl. intros [= <- <-].
  eapply IH; [by eapply accept_one_inv|done].
Qed.

(** ** Claims *)

(** A change of the dispatches that leaves the applied ones alone. *)
Lemma update_dispatches_inv db P f :
  ledger_inv db → (∀ d, dp_DeliveryID (f d) = dp_DeliveryID d) →
  (∀ d, P d = true → dispatch_ok d → dispatch_ok (f d) ∧ dp_Status d ≠ DispatchApplied ∧ dp_Status (f d) ≠ DispatchApplied) →
  ledger_inv (set_dispatches (update_rows P f (d_dispatches db)) db).
Proof.
  intros [] Hid Hf. rewrite Forall_forall in li_rows0. split; try done; simpl.
  - by rewrite fmap_update_rows.
  - apply Forall_update_rows; [by apply Forall_forall|]. intros d ? ??. by apply Hf.
  - apply Forall_update_rows; [done|]. intros d Hd HP Hiff. rewrite Hid.
    destruct (Hf d HP (li_rows0 d Hd)) as (_ & Hn & Hn'). tauto.
Qed.

Lemma not_applied_at d : dispatch_ok d → dp_Status d ≠ DispatchApplied → dp_AppliedAt d = None.
Proof. intros [_ _ H _ _ _] Hn. destruct (dp_AppliedAt d); [|done]. destruct Hn. by apply H. Qed.

Lemma claimed_ok owner u d :
  dispatch_ok d → dp_Status d ≠ DispatchApplied → dispatch_ok (claimed_dispatch owner u d).
Proof.
  intros Hok Hn. pose proof (not_applied_at d Hok Hn) as E. destruct Hok.
  split; unfold opt_iff in *; simpl; rewrite ?E; try done; lia.
Qed.

Lemma released_ok class r d : dispatch_ok d → dp_Status d ≠ DispatchApplied → dispatch_ok (released_dispatch class r d).
Proof.
  intros Hok Hn. pose proof (not_applied_at d Hok Hn) as E. destruct Hok.
  split; unfold opt_iff in *; simpl; rewrite ?E; try done; destruct r; try done; by (split; [|intros []]).
Qed.

Lemma holds_claim_spec id owner token d :
  holds_claim id owner token d = true ↔
  dp_DeliveryID d = id ∧ dp_Status d = DispatchClaimed ∧ dp_LeaseOwner d = Some owner ∧ dp_ClaimToken d = token.
Proof.
  unfold holds_claim, dispatch_of, is_dispatch. rewrite !andb_true_iff, !bool_decide_eq_true, Z.eqb_eq.
  unfold str_eqb. rewrite String.eqb_eq. tauto.
Qed.

(** What a claim takes was due. *)
Lemma due_ids_due db now limit id :
  id ∈ due_ids db now limit → ∃ d, d ∈ d_dispatches db ∧ dp_DeliveryID d = id ∧ dispatch_due now d = true.
Proof.
  unfold due_ids. intros ([a d] & -> & Hr)%list_elem_of_fmap.
  apply in_take_sorted, elem_of_select_rows in Hr as [Hdue Hin]. unfold dispatch_rows in Hin. apply list_elem_of_omap in Hin as (d' & Hd' & E).
  destruct (find_delivery _ _); [|done]. simplify_eq/=. eauto.
Qed.

Lemma dispatch_due_status now d : dispatch_due now d = true → dp_Status d = DispatchPending ∨ dp_Status d = DispatchClaimed.
Proof. unfold dispatch_due, is_dispatch. rewrite orb_true_iff, !andb_true_iff, !bool_decide_eq_true. tauto. Qed.

Lemma dispatch_ids_nodup db : ledger_inv db → NoDup (dp_DeliveryID <$> d_dispatches db).
Proof. intros []. by rewrite li_dispatches0. Qed.

Lemma among_due db now limit d :
  ledger_inv db → d ∈ d_dispatches db → among (due_ids db now limit) d = true → dispatch_due now d = true.
Proof.
  intros Hinv Hd (id & Hid & E)%existsb_exists. go_bool. rewrite <- list_elem_of_In in Hid.
  apply due_ids_due in Hid as (d' & Hd' & E' & ?).
  by rewrite (NoDup_fmap_inj dp_DeliveryID _ d d' (dispatch_ids_nodup db Hinv) Hd Hd' (eq_trans E (eq_sym E'))).
Qed.

Lemma dispatch_claim_inv db owner now lease limit rows db' :
  ledger_inv db → ClaimAlertDispatches db owner now lease limit = Ok (rows, db') → ledger_inv db'.
Proof.
  intros Hinv. unfold ClaimAlertDispatches, check. case_match; [|done]. simpl. intros [= <- <-].
  rewrite (update_rows_ext (among (due_ids db now limit)) (λ d, among (due_ids db now limit) d && dispatch_due now d)).
  - apply update_dispatches_inv; [done..|]. intros d [_ Hd]%andb_true_iff Hok. apply dispatch_due_status in Hd.
    assert (dp_Status d ≠ DispatchApplied) by (by destruct Hd as [-> | ->]). split; [by apply claimed_ok|done].
  - intros d Hd. destruct (among _ d) eqn:E; [|done]. simpl. symmetry. by eapply among_due.
Qed.

Lemma dispatch_retry_inv db claim class at_ terminal db' :
  ledger_inv db → RetryAlertDispatch db claim class at_ terminal = Ok db' → ledger_inv db'.
Proof.
  intros Hinv. unfold RetryAlertDispatch. destruct (match dp_LeaseOwner _ with Some _ => _ | None => _ end) as [o|]; [|done]. simpl.
  destruct (validateErrorClass class); [|done]. simpl. destruct (check _ _); [|done]. simpl. case_match; [|done]. intros [= <-].
  apply update_dispatches_inv; [done..|]. intros d (_ & Hd & _)%holds_claim_spec Hok.
  assert (dp_Status d ≠ DispatchApplied) by (by rewrite Hd). split; [by apply released_ok|]. split; [done|]. by destruct terminal.
Qed.

Lemma dispatch_recover_inv db now : ledger_inv db → ledger_inv (recover_dispatches db now).2.
Proof.
  intros Hinv. apply update_dispatches_inv; [done..|]. intros d [Hd _]%andb_true_iff Hok.
  apply bool_decide_eq_true in Hd. assert (Hn : dp_Status d ≠ DispatchApplied) by (by rewrite Hd).
  pose proof (not_applied_at d Hok Hn) as E. split; [|done]. destruct Hok.
  split; unfold opt_iff in *; simpl; rewrite ?E; try done; by (split; [|intros []]).
Qed.

(** ** Occurrences *)

Lemma NoDup_fmap_select {A B} (g : A → B) P (l : list A) : NoDup (g <$> l) → NoDup (g <$> select_rows P l).
Proof. intros H. eapply sublist_NoDup; [exact H|]. apply fmap_sublist, sublist_filter. Qed.

Lemma delete_occurrences_inv gone db : ledger_inv db → ledger_inv (delete_occurrences gone db).
Proof.
  intros []. rewrite Forall_forall in li_owner_of0, li_occurrence_of0.
  split; try done; simpl; rewrite ?fmap_update_rows by done; try done.
  - apply Forall_forall. intros o (o' & Ho & ->)%elem_of_update_rows.
    destruct (match ol_OccurrenceID o' with Some _ => _ | None => _ end); exact (li_owner_of0 o' Ho).
  - by apply NoDup_fmap_select.
  - apply Forall_forall. intros o (o' & Ho & ->)%elem_of_update_rows id Hid.
    destruct (ol_OccurrenceID o') as [i|] eqn:Ei; [|congruence]. case_bool_decide as Hin; [done|]. simplify_eq.
    destruct (li_occurrence_of0 o' Ho i Ei) as (c & Hc & Ec & ?). exists c. repeat split; [|done..].
    apply elem_of_select_rows. split; [|done]. destruct (gone c) eqn:Eg; [|done]. destruct Hin. rewrite <- Ec.
    apply list_elem_of_fmap_2, elem_of_select_rows. done.
Qed.

Lemma prune_inv fuel db before batch n db' : ledger_inv db → PruneOccurrences fuel db before batch = Some (n, db') → ledger_inv db'.
Proof.
  unfold PruneOccurrences. generalize (Z.to_nat (if (batch <=? 0)%Z then defaultPruneBatch else batch)) as b. intros b.
  revert db n. induction fuel as [|f IH]; intros db n Hinv; simpl; [done|]. case_match; intros; simplify_eq/=.
  - by apply delete_occurrences_inv.
  - destruct (prune_loop f _ _ _) as [[n1 db1]|] eqn:E; [|done]. simplify_eq/=. eapply IH; [|exact E]. by apply delete_occurrences_inv.
Qed.

Lemma le_next_rowid l o : o ∈ l → (oc_ID o < next_rowid l)%Z.
Proof. unfold next_rowid. induction l as [|a l IH]; [set_solver|]. intros [->|H]%elem_of_cons; csimpl; [lia|]. specialize (IH H). lia. Qed.

Lemma occurrence_inv db id o at_ occ db' :
  ledger_inv db → (∀ o', o = Some o' → oc_IncidentID o' = id) →
  applyCorrelatedOccurrenceTx db id o at_ = Ok (occ, db') →
  ledger_inv db' ∧ d_owners db' = d_owners db ∧ d_outbox db' = d_outbox db ∧ d_dispatches db' = d_dispatches db
  ∧ d_deliveries db' = d_deliveries db ∧ d_incidents db' = d_incidents db ∧ d_members db' = d_members db
  ∧ (∀ i, occ = Some i → ∃ c, c ∈ d_occurrences db' ∧ oc_ID c = i ∧ oc_IncidentID c = id).
Proof.
  intros Hinv Hid. pose proof Hinv as []. destruct o as [o|]; simpl; [|by intros [= <- <-]].
  rewrite Forall_forall in li_occurrence_of0. destruct (oc_ID o =? 0)%Z.
  - unfold insertCorrelatedOccurrenceTx. destruct (check _ _); [|done]. simpl. intros [= <- <-]. split; [|repeat split].
    + split; try done; simpl.
      * rewrite fmap_app. apply NoDup_app. split; [done|]. split; [|apply NoDup_singleton].
        intros x (c & -> & Hc)%list_elem_of_fmap Hx. apply le_next_rowid in Hc. set_solver by lia.
      * apply Forall_forall. intros w Hw i Hi. destruct (li_occurrence_of0 w Hw i Hi) as (c & ? & ?). exists c.
        rewrite elem_of_app. auto.
    + intros i [= <-]. eexists. split; [apply elem_of_app; right; by apply list_elem_of_singleton|]. simpl. auto.
  - unfold touchCorrelatedOccurrenceTx. case_match eqn:E; [|done]. simpl. intros [= <- <-]. split; [|repeat split].
    + split; try done; simpl.
      * by rewrite fmap_update_rows.
      * apply Forall_forall. intros w Hw i Hi. destruct (li_occurrence_of0 w Hw i Hi) as (c & Hc & ? & ?).
        eexists. split; [apply elem_of_update_rows; by exists c|]. by case_match.
    + intros i [= <-]. apply existsb_exists in E as (c & Hc & E). rewrite <- list_elem_of_In in Hc.
      eexists. split; [apply elem_of_update_rows; by exists c|]. rewrite E. unfold occurrence_of in E. go_bool. done.
Qed.

(** ** Applying *)

Lemma find_incident_in db id i : find_incident db id = Some i → i ∈ d_incidents db ∧ ic_ID i = id.
Proof. apply (find_key ic_ID). Qed.

Lemma find_incident_none db id : find_incident db id = None ↔ id ∉ ic_ID <$> d_incidents db.
Proof. apply (find_key_none ic_ID). Qed.

Lemma find_incident_some db i : ledger_inv db → i ∈ d_incidents db → find_incident db (ic_ID i) = Some i.
Proof.
  intros [] Hi. destruct (find_incident db (ic_ID i)) as [j|] eqn:E.
  - apply find_incident_in in E as [Hj Ej]. f_equal. by eapply (NoDup_fmap_inj ic_ID).
  - apply find_incident_none in E. destruct E. by apply list_elem_of_fmap_2.
Qed.

Lemma collecting_in_group db g i :
  i ∈ select_rows (λ i, in_group g i && has_status StatusCollecting i) (d_incidents db) ↔
  i ∈ d_incidents db ∧ ic_GroupKey i = g ∧ ic_Status i = StatusCollecting.
Proof.
  rewrite elem_of_select_rows, andb_true_iff. unfold in_group, has_status, str_eqb. rewrite bool_decide_eq_true, String.eqb_eq. tauto.
Qed.

Lemma member_count_none l id : id ∉ l.*1 → member_count l id = 0%nat.
Proof.
  intros H. unfold member_count. rewrite filter_none; [done|]. intros m Hm E. destruct H. rewrite <- E.
  by apply list_elem_of_fmap_2.
Qed.

(** The Incident the transaction goes on with. *)
Lemma ensure_inv db inc reuse now created st id db' :
  ledger_inv db → ensureCorrelatedIncidentTx db inc reuse now = Ok (created, st, id, db') →
  ledger_inv db' ∧ d_owners db' = d_owners db ∧ d_outbox db' = d_outbox db ∧ d_dispatches db' = d_dispatches db
  ∧ d_deliveries db' = d_deliveries db ∧ d_members db' = d_members db
  ∧ d_triage db' = d_triage db ∧ d_lifecycles db' = d_lifecycles db
  ∧ (id = ic_ID inc ∨ reuse = true)
  ∧ ∃ i, i ∈ d_incidents db' ∧ ic_ID i = id ∧ ic_GroupKey i = ic_GroupKey inc ∧ ic_Status i = st.
Proof.
  intros Hinv. pose proof Hinv as []. unfold ensureCorrelatedIncidentTx.
  set (coll := select_rows _ _). destruct (find_incident db (ic_ID inc)) as [i|] eqn:Ef.
  - case_match eqn:Eg; [|done]. intros [= <- <- <- <-]. apply find_incident_in in Ef as [Hi E]. unfold in_group in Eg. go_bool.
    split; [done|]. repeat split; [by left|]. by exists i.
  - apply find_incident_none in Ef. destruct (if reuse then _ else _) as [i|] eqn:Er.
    + intros [= <- <- <- <-]. destruct reuse; [|done]. apply head_Some_elem_of in Er.
      assert (Hin : i ∈ coll) by (by rewrite <- (SliceStable_perm incident_age coll)).
      apply collecting_in_group in Hin as (? & ? & ?). split; [done|]. repeat split; [by right|]. by exists i.
    + case_bool_decide as Ec; [|done]. intros [= <- <- <- <-]. split; [|repeat split].
      * split; try done; simpl.
        -- rewrite fmap_app. apply NoDup_app. split; [done|]. split; [|apply NoDup_singleton]. set_solver.
        -- assert (Hno : ∀ j, j ∈ d_incidents db → ic_GroupKey j = ic_GroupKey inc → ic_Status j ≠ StatusCollecting).
           { intros j Hj Hg Hs. assert (Hin : j ∈ coll) by (by apply collecting_in_group). rewrite Ec in Hin. set_solver. }
           intros x y Hx Hy Hg Hsx Hsy. apply elem_of_app in Hx as [Hx|Hx], Hy as [Hy|Hy].
           ++ eauto.
           ++ apply list_elem_of_singleton in Hy as ->. by destruct (Hno x Hx Hg).
           ++ apply list_elem_of_singleton in Hx as ->. by destruct (Hno y Hy (eq_sym Hg)).
           ++ apply list_elem_of_singleton in Hx as ->. by apply list_elem_of_singleton in Hy as ->.
        -- eapply Forall_impl; [exact li_member_of0|]. intros m. rewrite fmap_app, elem_of_app. auto.
        -- apply Forall_app. split; [done|]. constructor; [|done]. simpl. rewrite member_count_none; [done|].
           intros (m & E & Hm)%list_elem_of_fmap. rewrite Forall_forall in li_member_of0. apply li_member_of0 in Hm.
           by rewrite <- E in Hm.
      * by left.
      * exists (new_incident inc now). split; [apply elem_of_app; right; by apply list_elem_of_singleton|done].
Qed.

Lemma member_count_app l m id : member_count (l ++ [m]) id = (member_count l id + if decide (m.1 = id) then 1 else 0)%nat.
Proof. unfold member_count. rewrite filter_app, length_app. f_equal. rewrite filter_cons. by case_decide. Qed.

Lemma is_member_in l id a : existsb (is_member id a) l = true ↔ (id, a) ∈ l.
Proof.
  rewrite existsb_exists. unfold is_member, str_eqb. split.
  - intros ([x y] & Hin & E). apply andb_true_iff in E as [E1 E2]. simpl in *. apply String.eqb_eq in E1, E2. subst. by apply list_elem_of_In.
  - intros H. exists (id, a). split; [by apply list_elem_of_In|]. by rewrite !String.eqb_refl.
Qed.

Lemma joined_update_ids id n at_ l : ic_ID <$> update_rows (incident_is id) (joined n at_) l = ic_ID <$> l.
Proof. by apply fmap_update_rows. Qed.

(** The membership and the count of its Incident; the links of the owners
    wait for the end of the transaction. *)
Lemma attach_inv db id dl al occ at_ db' :
  ledger_inv db → id ∈ ic_ID <$> d_incidents db → attachCorrelatedDeliveryTx db id dl al occ at_ = Ok db' →
  (dl ∉ (ol_DeliveryID <$> d_owners db))
  ∧ d_owners db' = d_owners db ++ [{| ol_IncidentID := id; ol_DeliveryID := dl; ol_OccurrenceID := occ |}]
  ∧ (id, al) ∈ d_members db' ∧ d_occurrences db' = d_occurrences db
  ∧ d_outbox db' = d_outbox db ∧ d_dispatches db' = d_dispatches db ∧ d_deliveries db' = d_deliveries db
  ∧ d_triage db' = d_triage db ∧ d_lifecycles db' = d_lifecycles db
  ∧ ledger_inv (set_owners (d_owners db) db').
Proof.
  intros Hinv Hid. pose proof Hinv as []. unfold attachCorrelatedDeliveryTx.
  destruct (existsb (owns_delivery dl) _) eqn:Eo; [done|]. simpl. intros [= <-]. simpl.
  assert (dl ∉ (ol_DeliveryID <$> d_owners db)).
  { intros H%(existsb_key ol_DeliveryID). unfold owns_delivery in Eo. by rewrite H in Eo. }
  set (known := existsb (is_member id al) (d_members db)).
  assert (Hm : (id, al) ∈ d_members db ↔ known = true) by (symmetry; apply is_member_in).
  repeat split; simpl; rewrite ?joined_update_ids; try done.
  - destruct known; [by apply Hm|]. set_solver.
  - intros i j (i0 & Hi & ->)%elem_of_update_rows (j0 & Hj & ->)%elem_of_update_rows. repeat case_match; simpl; eauto.
  - destruct known; [done|]. apply NoDup_app. split; [done|]. split; [|apply NoDup_singleton].
    intros m Hin ->%list_elem_of_singleton. by apply Hm in Hin.
  - destruct known; [done|]. apply Forall_app. split; [done|]. by constructor.
  - apply Forall_forall. intros i (i0 & Hi & ->)%elem_of_update_rows. rewrite Forall_forall in li_counts0.
    specialize (li_counts0 i0 Hi). destruct (incident_is id i0) eqn:E; unfold incident_is in E; go_bool.
    + simpl. destruct known; [lia|]. rewrite member_count_app, decide_True by done. lia.
    + destruct known; [done|]. rewrite member_count_app, decide_False by done. lia.
  - eapply Forall_impl; [exact li_owner_of0|]. intros o (d & ? & ? & Hin). exists d. repeat split; [done..|].
    destruct known; [done|]. rewrite elem_of_app. auto.
Qed.

Lemma valid_occurrence m :
  is_ok (validateCorrelatedDeliveryMutation m) = true →
  ∀ o, cm_Occurrence m = Some o → oc_IncidentID o = ic_ID (cm_Incident m).
Proof.
  unfold validateCorrelatedDeliveryMutation, check. intros H o Ho. rewrite Ho in H.
  repeat (case_match; simplify_eq/=). by go_bool.
Qed.

Lemma claim_held db id owner token :
  is_ok (verifyCorrelatedDispatchClaimTx db id owner token) = true ↔
  ∃ d, d ∈ d_dispatches db ∧ holds_claim id owner token d = true.
Proof.
  unfold verifyCorrelatedDispatchClaimTx. destruct (existsb _ _) eqn:E; simpl.
  - apply existsb_exists in E as (d & ? & ?). split; [|done]. exists d. by rewrite list_elem_of_In.
  - split; [done|]. intros (d & Hd & H). exfalso. apply not_true_iff_false in E. destruct E. apply existsb_exists. exists d.
    by rewrite <- list_elem_of_In.
Qed.

(** A delivery whose dispatch is claimed has no owner: applying it again never
    gets past the claim. *)
Lemma claimed_not_owned db id owner token :
  ledger_inv db → is_ok (verifyCorrelatedDispatchClaimTx db id owner token) = true → id ∉ ol_DeliveryID <$> d_owners db.
Proof.
  intros [] (d & Hd & (<- & Hs & _)%holds_claim_spec)%claim_held Ho. rewrite Forall_forall in li_applied0.
  apply (li_applied0 d Hd) in Ho. congruence.
Qed.

(** The transaction of a delivery without an owner, step by step. *)
Lemma apply_new_steps db m d opened now r db' :
  applyNewCorrelatedDelivery db m d opened now = Ok (r, db') →
  ∃ created st id db1 occ db2 db3 requested kind resolved db4 db5 n,
    ensureCorrelatedIncidentTx db (cm_Incident m)
      (str_eqb (si_Kind (cm_Input m)) "incident_created" && bool_decide (cm_Occurrence m = None)) opened = Ok (created, st, id, db1)
    ∧ owner_permits db1 m id st = true
    ∧ applyCorrelatedOccurrenceTx db1 id (cm_Occurrence m) (ad_ReceivedAt d) = Ok (occ, db2)
    ∧ attachCorrelatedDeliveryTx db2 id (cm_DeliveryID m) (al_ID (ad_Alert d)) occ (ad_ReceivedAt d) = Ok db3
    ∧ correlatedSituationInputKindTx db3 requested id (al_Status (ad_Alert d)) st created = Ok (kind, resolved, db4)
    ∧ db5 = (if str_eqb (al_Status (ad_Alert d)) "resolved"
             then reconcileResolvedMembershipsTx db4 (cm_DeliveryID m) (al_ID (ad_Alert d)) id (ad_ReceivedAt d) else db4)
    ∧ n = input_at (cm_Input m) id (cm_DeliveryID m) kind (ic_GroupKey (cm_Incident m)) (ad_ReceivedAt d)
    ∧ outbox_takes n db5 = true
    ∧ existsb (holds_claim (cm_DeliveryID m) (cm_DispatchOwner m) (cm_DispatchClaimToken m)) (d_dispatches db5) = true
    ∧ db' = set_dispatches (update_rows (holds_claim (cm_DeliveryID m) (cm_DispatchOwner m) (cm_DispatchClaimToken m))
              (applied_dispatch now) (d_dispatches db5)) (set_outbox (d_outbox db5 ++ [n]) db5)
    ∧ find_incident db' id = Some (cr_Incident r)
    ∧ cr_Created r = created ∧ cr_Resolved r = resolved ∧ cr_Duplicate r = false
    ∧ cr_Occurrence r = occurrence_result m id occ
    ∧ requested = (if str_eqb id (ic_ID (cm_Incident m)) then si_Kind (cm_Input m) else "membership_changed").
Proof.
  unfold applyNewCorrelatedDelivery. set (reuse := _ && bool_decide (cm_Occurrence m = None)).
  destruct (ensureCorrelatedIncidentTx db _ _ _) as [[[[created st] id] db1]|] eqn:E1; [|done]. simpl.
  destruct (owner_permits db1 m id st) eqn:Ep; [|done].
  destruct (applyCorrelatedOccurrenceTx _ _ _ _) as [[occ db2]|] eqn:E2; [|done]. simpl.
  destruct (attachCorrelatedDeliveryTx _ _ _ _ _ _) as [db3|] eqn:E3; [|done]. simpl.
  destruct (correlatedSituationInputKindTx _ _ _ _ _ _) as [[[kind resolved] db4]|] eqn:E4; [|done]. simpl.
  set (db5 := if str_eqb _ "resolved" then _ else db4).
  destruct (enqueue _ db5) as [db6|] eqn:E6; [|done]. simpl. apply enqueue_ok in E6 as [Htake ->].
  unfold markCorrelatedDispatchAppliedTx. simpl. destruct (existsb _ (d_dispatches db5)) eqn:Eh; [|done]. simpl.
  destruct (find_incident _ id) as [i|] eqn:Ef; [|done]. intros [= <- <-].
  eexists created, st, id, db1, occ, db2, db3, _, kind, resolved, db4, db5, _. repeat split; done.
Qed.

Lemma others_keep_owners o db db' : others_keep db db' → others_keep (set_owners o db) (set_owners o db').
Proof. intros []. by split. Qed.

Lemma applied_ok now d : dispatch_ok d → dispatch_ok (applied_dispatch now d).
Proof. intros []. split; unfold opt_iff; simpl; try done; by (split; [|intros []]). Qed.

(** The end of the transaction: the link, the input and the dispatch. *)
Lemma finish_inv db m d id occ n now :
  ledger_inv db → let dl := cm_DeliveryID m in
  dl ∉ ol_DeliveryID <$> d_owners db →
  (∃ x, x ∈ d_dispatches db ∧ holds_claim dl (cm_DispatchOwner m) (cm_DispatchClaimToken m) x = true) →
  d ∈ d_deliveries db → ad_ID d = dl → (id, al_ID (ad_Alert d)) ∈ d_members db →
  (∀ i, occ = Some i → ∃ c, c ∈ d_occurrences db ∧ oc_ID c = i ∧ oc_IncidentID c = id) →
  si_DeliveryID n = Some dl → si_IncidentID n = id →
  ledger_inv (set_dispatches (update_rows (holds_claim dl (cm_DispatchOwner m) (cm_DispatchClaimToken m)) (applied_dispatch now)
                                (d_dispatches db))
             (set_outbox (d_outbox db ++ [n])
                (set_owners (d_owners db ++ [{| ol_IncidentID := id; ol_DeliveryID := dl; ol_OccurrenceID := occ |}]) db))).
Proof.
  intros Hinv dl Hno (x & Hx & Hhold) Hd Edl Hm Hocc Hn Hnid. pose proof (dispatch_ids_nodup db Hinv) as Hnd.
  destruct Hinv. split; try done; simpl.
  - by rewrite fmap_update_rows.
  - apply Forall_update_rows; [done|]. intros. by apply applied_ok.
  - rewrite fmap_app. apply NoDup_app. split; [done|]. split; [|apply NoDup_singleton]. set_solver.
  - apply Forall_app. split; [done|]. constructor; [|done]. by exists d.
  - rewrite Forall_forall in li_applied0. apply Forall_forall. intros y (y0 & Hy & ->)%elem_of_update_rows.
    rewrite fmap_app, elem_of_app. simpl. rewrite list_elem_of_singleton. pose proof (li_applied0 y0 Hy) as Hiff.
    destruct (holds_claim _ _ _ y0) eqn:E; simpl.
    + apply holds_claim_spec in E as (-> & _). split; [by right|done].
    + rewrite Hiff. split; [by left|]. intros [?|Ey]; [done|]. exfalso. pose proof Hhold as (Ex & _)%holds_claim_spec.
      rewrite (NoDup_fmap_inj dp_DeliveryID _ y0 x Hnd Hy Hx) in E; congruence.
  - rewrite journal_app, fmap_app, li_inputs0. f_equal. unfold journal. simpl. by rewrite Hn, Hnid.
  - apply Forall_app. split; [done|]. by constructor.
Qed.

Lemma apply_new_inv db m d opened now r db' :
  ledger_inv db → is_ok (validateCorrelatedDeliveryMutation m) = true →
  find_delivery db (cm_DeliveryID m) = Some d →
  applyNewCorrelatedDelivery db m d opened now = Ok (r, db') → ledger_inv db'.
Proof.
  intros Hinv Hv Hd Happ.
  apply apply_new_steps in Happ as (created&st&id&db1&occ&db2&db3&req&kind&res&db4&db5&n&E1&_&E2&E3&E4&E5&En&_&Eh&->&_).
  destruct (ensure_inv _ _ _ _ _ _ _ _ Hinv E1) as (Hinv1&Eo1&_&_&Ed1&_&_&_&Hid&(i&Hi&Ei&_)).
  assert (Hoid : ∀ o, cm_Occurrence m = Some o → oc_IncidentID o = id).
  { intros o Ho. rewrite (valid_occurrence m Hv o Ho). destruct Hid as [->|Hr]; [done|].
    rewrite Ho, andb_comm in Hr. by case_bool_decide. }
  destruct (occurrence_inv _ _ _ _ _ _ Hinv1 Hoid E2) as (Hinv2&Eo2&_&_&Ed2&Ei2&_&Hocc).
  assert (Hid2 : id ∈ ic_ID <$> d_incidents db2). { rewrite Ei2, <- Ei. by apply list_elem_of_fmap_2. }
  destruct (attach_inv _ _ _ _ _ _ _ Hinv2 Hid2 E3) as (Hno&Eo3&Hm&Ec3&_&_&Ed3&_&_&Hinv3).
  assert (Hk : others_keep db3 db5).
  { etrans; [by eapply kind_keep|]. subst db5. case_match; [apply reconcile_keep|reflexivity]. }
  pose proof (others_keep_inv _ _ Hinv3 (others_keep_owners (d_owners db2) _ _ Hk)) as Hinv5.
  pose proof Hk as [_ Ed5 _ Em5 Eo5 Ec5 _ _]. apply (find_key ad_ID) in Hd as [Hd Edl].
  apply existsb_exists in Eh as (x & Hx & Hh). rewrite <- list_elem_of_In in Hx.
  set (l := {| ol_IncidentID := id; ol_DeliveryID := cm_DeliveryID m; ol_OccurrenceID := occ |}) in *.
  assert (Edb : set_owners (d_owners db2 ++ [l]) db5 = db5) by (rewrite <- Eo3, <- Eo5; by destruct db5).
  rewrite <- Edb at 3. apply (finish_inv (set_owners (d_owners db2) db5) m d id occ n now Hinv5); simpl;
    [done|eauto|by rewrite Ed5, Ed3, Ed2, Ed1|done|by rewrite Em5| |by subst n..].
  intros k Hk'. rewrite Ec5, Ec3. by apply Hocc.
Qed.

Lemma apply_inv db m opened now r db' :
  ledger_inv db → ApplyCorrelatedDelivery db m opened now = Ok (r, db') → ledger_inv db'.
Proof.
  intros Hinv. unfold ApplyCorrelatedDelivery. destruct (validateCorrelatedDeliveryMutation m) as [[]|] eqn:Ev; [|done]. simpl.
  destruct (verifyCorrelatedDispatchClaimTx _ _ _ _) eqn:Ec; [|done]. simpl.
  destruct (List.find _ _) as [o|] eqn:Eo.
  - exfalso. apply (find_key ol_DeliveryID) in Eo as [Ho Eo].
    eapply (claimed_not_owned db); [done|by rewrite Ec|]. rewrite <- Eo. by apply list_elem_of_fmap_2.
  - destruct (find_delivery _ _) as [d|] eqn:Ed; [|done]. eapply apply_new_inv; [done|by rewrite Ev|done].
Qed.

Lemma step_keeps_inv db db' : ledger_step db db' → ledger_inv db → ledger_inv db'.
Proof.
  intros [] Hinv; [by eapply accept_inv|by eapply dispatch_claim_inv|by eapply dispatch_retry_inv|by eapply apply_inv| |by eapply prune_inv|by apply dispatch_recover_inv|].
  - eapply others_keep_inv; [done|by eapply ready_keep].
  - by eapply others_keep_inv.
Qed.

(** C7. The transactions of the delivery ledger and the writes of the other
    workers keep its books: every accepted delivery has one dispatch row, whose
    columns agree with its status and whose attempts are its claims; a dispatch
    is applied exactly when its delivery has an owner, it has at most one, and
    the inputs that carry deliveries are these links, in their order; the owner
    contains the delivery's Alert, the Alert count of an Incident is the number
    of its members, a group has at most one window open, and an owner's
    occurrence is one of its own Incident. *)
Theorem ledger_inv_step db db' : ledger_inv db → ledger_step db db' → ledger_inv db'.
Proof. intros. by eapply step_keeps_inv. Qed.

Lemma ledger_inv_empty : ledger_inv empty_db.
Proof. split; simpl; try apply NoDup_nil_2; try done; set_solver. Qed.

Lemma ledger_inv_steps db db' : ledger_inv db → rtc ledger_step db db' → ledger_inv db'.
Proof.
  intros Hinv Hs. induction Hs as [|a b c Hab _ IH]; [done|]. apply IH. by eapply step_keeps_inv.
Qed.

(** ** Claims die *)

(** A dispatch moves on: under a new token, or out of its claim. *)
Definition advance (d e : AlertDispatch) : Prop :=
  dp_DeliveryID e = dp_DeliveryID d
  ∧ (e = d ∨ (dp_ClaimToken d < dp_ClaimToken e)%Z
     ∨ (dp_ClaimToken e = dp_ClaimToken d ∧ dp_Status e ≠ DispatchClaimed)).

Definition advances (db db' : delivery_db) : Prop :=
  ∃ l extra, d_dispatches db' = l ++ extra ∧ Forall2 advance (d_dispatches db) l.

#[export] Instance advance_preorder : PreOrder advance.
Proof.
  split; unfold advance; [by intros d; auto|]. intros a b c [E1 H1] [E2 H2]. split; [congruence|].
  destruct H1 as [->|[?|[? ?]]], H2 as [->|[?|[? ?]]]; auto; right; first [by left; lia|right; split; [lia|done]].
Qed.

Lemma advances_refl db db' : d_dispatches db' = d_dispatches db → advances db db'.
Proof. intros E. exists (d_dispatches db), []. rewrite app_nil_r, E. by split. Qed.

Lemma advances_trans a b c : advances a b → advances b c → advances a c.
Proof.
  intros (l & x & Hl & F) (l' & y & Hl' & F'). rewrite Hl in F'. apply Forall2_app_inv_l in F' as (l1 & l2 & F1 & F2 & ->).
  exists l1, (l2 ++ y). rewrite Hl', app_assoc. split; [done|]. by etrans.
Qed.

Lemma update_rows_advance P f l : (∀ d, P d = true → advance d (f d)) → Forall2 advance l (update_rows P f l).
Proof. intros Hf. induction l as [|d l IH]; constructor; [destruct (P d) eqn:E; [by apply Hf|reflexivity]|done]. Qed.

Lemma update_rows_advances db db' P f :
  d_dispatches db' = update_rows P f (d_dispatches db) → (∀ d, P d = true → advance d (f d)) → advances db db'.
Proof. intros E Hf. eexists _, []. rewrite app_nil_r. split; [exact E|by apply update_rows_advance]. Qed.

Lemma accept_one_advances db p d db' : ledger_inv db → acceptDelivery db p = Ok (d, db') → advances db db'.
Proof.
  intros Hinv. unfold acceptDelivery. destruct (find_delivery db (di_ID p)) eqn:E; [by intros [= <- <-]; apply advances_refl|].
  destruct (upsertDeliveryAlertTx db p) as [[a db1]|] eqn:E1; [|done]. simpl.
  destruct (upsert_inv _ _ _ _ Hinv E1) as (_ & _ & Ep & _).
  unfold insertDeliveryTx. case_match; [|done]. simpl. intros [= <- <-]. eexists _, _. simpl. rewrite Ep. split; [done|].
  reflexivity.
Qed.

Lemma accept_advances db l ds db' : ledger_inv db → AcceptDeliveries db l = Ok (ds, db') → advances db db'.
Proof.
  unfold AcceptDeliveries. destruct (prepareDeliveries l) as [ps|]; [|done]. simpl. clear l. revert db ds.
  induction ps as [|p ps IH]; intros db ds Hinv; simpl; [by intros [= <- <-]; apply advances_refl|].
  destruct (acceptDelivery db p) as [[d db1]|] eqn:E1; [|done]. simpl.
  destruct (accept_all db1 ps) as [[ds1 db2]|] eqn:E2; [|done]. simpl. intros [= <- <-].
  eapply advances_trans; [by eapply accept_one_advances|]. eapply IH; [by eapply accept_one_inv|done].
Qed.

Lemma claimed_advance owner u d : advance d (claimed_dispatch owner u d).
Proof. split; [done|]. right. left. simpl. lia. Qed.

Lemma unclaimed_advance d e :
  dp_DeliveryID e = dp_DeliveryID d → dp_ClaimToken e = dp_ClaimToken d → dp_Status e ≠ DispatchClaimed → advance d e.
Proof. split; auto. Qed.

Lemma prune_dispatches fuel db before batch n db' :
  PruneOccurrences fuel db before batch = Some (n, db') → d_dispatches db' = d_dispatches db.
Proof.
  unfold PruneOccurrences. generalize (Z.to_nat (if (batch <=? 0)%Z then defaultPruneBatch else batch)) as b. intros b.
  revert db n. induction fuel as [|f IH]; intros db n; simpl; [done|]. case_match; intros; simplify_eq/=; [done|].
  destruct (prune_loop f _ _ _) as [[n1 db1]|] eqn:E; [|done]. simplify_eq/=. by rewrite (IH _ _ E).
Qed.

(** Up to its last write the transaction leaves the dispatches alone. *)
Lemma unmarked db inc reuse opened created st id db1 o at_ occ db2 dl al db3 req status kind res db4 :
  ensureCorrelatedIncidentTx db inc reuse opened = Ok (created, st, id, db1) →
  applyCorrelatedOccurrenceTx db1 id o at_ = Ok (occ, db2) →
  attachCorrelatedDeliveryTx db2 id dl al occ at_ = Ok db3 →
  correlatedSituationInputKindTx db3 req id status st created = Ok (kind, res, db4) →
  d_dispatches (if str_eqb status "resolved" then reconcileResolvedMembershipsTx db4 dl al id at_ else db4) = d_dispatches db.
Proof.
  intros E1 E2 E3 E4. assert (Hk : others_keep db3 (if str_eqb status "resolved" then reconcileResolvedMembershipsTx db4 dl al id at_ else db4)).
  { etrans; [by eapply kind_keep|]. case_match; [apply reconcile_keep|reflexivity]. }
  rewrite (ok_dispatches _ _ Hk). clear -E1 E2 E3. unfold ensureCorrelatedIncidentTx, applyCorrelatedOccurrenceTx,
    insertCorrelatedOccurrenceTx, touchCorrelatedOccurrenceTx, check, attachCorrelatedDeliveryTx, negb in *.
  repeat (case_match; simplify_eq/=; try done).
Qed.

Lemma apply_dispatches db m opened now r db' :
  ledger_inv db → ApplyCorrelatedDelivery db m opened now = Ok (r, db') →
  d_dispatches db' = update_rows (holds_claim (cm_DeliveryID m) (cm_DispatchOwner m) (cm_DispatchClaimToken m))
                       (applied_dispatch now) (d_dispatches db).
Proof.
  intros Hinv. unfold ApplyCorrelatedDelivery. destruct (validateCorrelatedDeliveryMutation m) as [[]|] eqn:Ev; [|done]. simpl.
  destruct (verifyCorrelatedDispatchClaimTx _ _ _ _) eqn:Ec; [|done]. simpl. destruct (List.find _ _) as [o|] eqn:Eo.
  { unfold applyDuplicateCorrelatedDeliveryTx, markCorrelatedDispatchAppliedTx, enqueue_ignoring. intros H.
    repeat (case_match; simplify_eq/=; try done). }
  destruct (find_delivery _ _) as [d|] eqn:Ed; [|done]. intros Happ.
  apply apply_new_steps in Happ as (created&st&id&db1&occ&db2&db3&req&kind&res&db4&db5&n&E1&_&E2&E3&E4&->&En&_&Eh&->&_). simpl.
  f_equal. by eapply unmarked.
Qed.

Lemma step_advances db db' : ledger_step db db' → ledger_inv db → advances db db'.
Proof.
  intros [] Hinv; [by eapply accept_advances|..].
  - revert H. unfold ClaimAlertDispatches. destruct (check _ _); [|done]. simpl. intros [= _ <-].
    eapply update_rows_advances; [done|]. intros. apply claimed_advance.
  - revert H. unfold RetryAlertDispatch. destruct (match dp_LeaseOwner _ with Some _ => _ | None => _ end); [|done]. simpl.
    destruct (validateErrorClass class); [|done]. simpl. destruct (check _ _); [|done]. simpl. case_match; [|done]. intros [= <-].
    eapply update_rows_advances; [done|]. intros. apply unclaimed_advance; [done..|]. by destruct terminal.
  - eapply update_rows_advances; [by eapply apply_dispatches|]. intros. by apply unclaimed_advance.
  - apply advances_refl, (ok_dispatches _ _ (ready_keep _ _ _ _ H)).
  - by eapply advances_refl, prune_dispatches.
  - eapply update_rows_advances; [done|]. intros. by apply unclaimed_advance.
  - apply advances_refl, (ok_dispatches _ _ H).
Qed.

Lemma steps_advance db db' : rtc ledger_step db db' → ledger_inv db → advances db db'.
Proof.
  induction 1 as [|a b c Hab _ IH]; intros Hinv; [by apply advances_refl|].
  eapply advances_trans; [by apply step_advances|]. apply IH. by eapply step_keeps_inv.
Qed.

(** A claim: the delivery, the owner of its lease and the token. *)
Definition held (db : delivery_db) (id owner : string) (token : Z) : bool :=
  is_ok (verifyCorrelatedDispatchClaimTx db id owner token).

Lemma held_row db id owner token :
  held db id owner token = true ↔ ∃ d, d ∈ d_dispatches db ∧ holds_claim id owner token d = true.
Proof. apply claim_held. Qed.

(** A claim that was lost - applied, released, or taken over when its lease
    ran out - never comes back: whatever the workers do afterwards, neither
    applying the delivery nor releasing it under that claim succeeds. *)
Theorem lost_claim_never_returns db db1 db2 id owner token :
  ledger_inv db → held db id owner token = true → rtc ledger_step db db1 → held db1 id owner token = false →
  rtc ledger_step db1 db2 →
  (∀ m opened now, cm_DeliveryID m = id → cm_DispatchOwner m = owner → cm_DispatchClaimToken m = token →
     is_ok (ApplyCorrelatedDelivery db2 m opened now) = false)
  ∧ (∀ claim class at_ terminal, ad_ID claim.1 = id → dp_LeaseOwner claim.2 = Some owner → dp_ClaimToken claim.2 = token →
     is_ok (RetryAlertDispatch db2 claim class at_ terminal) = false).
Proof.
  intros Hinv Hh H1 Hl H2. enough (Hd : held db2 id owner token = false).
  { split.
    - intros m opened now <- <- <-. unfold ApplyCorrelatedDelivery. destruct (validateCorrelatedDeliveryMutation m); [|done]. simpl.
      unfold held in Hd. by destruct (verifyCorrelatedDispatchClaimTx _ _ _ _).
    - intros claim class at_ terminal <- E <-. unfold RetryAlertDispatch. rewrite E.
      destruct (negb _ && _ && _); [|done]. simpl. destruct (validateErrorClass class); [|done]. simpl.
      destruct (check _ _); [|done]. simpl. unfold held, verifyCorrelatedDispatchClaimTx in Hd.
      by destruct (existsb _ _). }
  pose proof (ledger_inv_steps _ _ Hinv H1) as Hinv1. pose proof (ledger_inv_steps _ _ Hinv1 H2) as Hinv2.
  apply held_row in Hh as (d & Hd & Hh). apply holds_claim_spec in Hh as (Eid & Es & Eo & Et).
  destruct (steps_advance _ _ H1 Hinv) as (l1 & x1 & El1 & F1). destruct (steps_advance _ _ H2 Hinv1) as (l2 & x2 & El2 & F2).
  apply list_elem_of_lookup in Hd as [k Hk]. destruct (Forall2_lookup_l _ _ _ _ _ F1 Hk) as (d1 & Hk1 & A1).
  assert (Hk1' : d_dispatches db1 !! k = Some d1) by (rewrite El1; by apply lookup_app_l_Some).
  destruct (Forall2_lookup_l _ _ _ _ _ F2 Hk1') as (d2 & Hk2 & A2).
  apply not_true_is_false. intros (e & He & Hhe)%held_row. apply holds_claim_spec in Hhe as (Eid2 & Es2 & Eo2 & Et2).
  assert (e = d2) as ->.
  { apply (NoDup_fmap_inj dp_DeliveryID (d_dispatches db2)); [by apply dispatch_ids_nodup|done| |].
    - rewrite El2. apply elem_of_app. left. by eapply list_elem_of_lookup_2.
    - destruct A1 as [? _], A2 as [? _]. congruence. }
  assert (Hn : holds_claim id owner token d1 = false).
  { apply not_true_is_false. intros Hy. apply not_true_iff_false in Hl. destruct Hl. apply held_row. exists d1.
    split; [by eapply list_elem_of_lookup_2|done]. }
  destruct A1 as [Ea1 A1], A2 as [Ea2 A2]. destruct A2 as [->|[?|[? ?]]]; [|destruct A1 as [->|[?|[? ?]]]; lia|done].
  apply not_true_iff_false in Hn. destruct Hn. apply holds_claim_spec. done.
Qed.

(** ** Recovery *)

Lemma member_status_ext db db' a :
  d_deliveries db' = d_deliveries db → d_owners db' = d_owners db → member_status db' a = member_status db a.
Proof. intros Ed Eo. unfold member_status, applied_deliveries, owned. by rewrite Ed, Eo. Qed.

Lemma unresolved_zero db id :
  unresolvedIncidentMembersTx db id = 0%nat ↔ ∀ a, (id, a) ∈ d_members db → member_status db a = "resolved".
Proof.
  unfold unresolvedIncidentMembersTx. rewrite length_zero_iff_nil. split.
  - intros E a Ha. destruct (str_eqb (member_status db a) "resolved") eqn:Es; [by go_bool|].
    assert (Hin : (id, a) ∈ select_rows (λ m : string * string, str_eqb m.1 id && negb (str_eqb (member_status db m.2) "resolved"))
                          (d_members db)).
    { apply elem_of_select_rows. simpl. by rewrite str_eqb_refl, Es. }
    rewrite E in Hin. set_solver.
  - intros H. apply filter_none. intros [i a] Hin. simpl. intros [E1 E2]%andb_true_iff. go_bool. subst.
    rewrite (H a Hin) in E2. done.
Qed.

Lemma move_incident_ok db id i from to :
  i ∈ d_incidents db → ic_ID i = id → ic_Status i ∈ from → is_Some (move_incident db id from to).
Proof.
  intros Hi E Hs. unfold move_incident. case_match eqn:Ex; [done|]. apply not_true_iff_false in Ex. destruct Ex.
  apply existsb_exists. exists i. rewrite <- list_elem_of_In. split; [done|]. unfold incident_is, among_statuses.
  rewrite E, str_eqb_refl. by apply bool_decide_eq_true.
Qed.

Lemma resolve_incident_ok db id i :
  i ∈ d_incidents db → ic_ID i = id → ic_Status i ∈ settled → is_Some (resolve_incident db id).
Proof. intros. unfold resolve_incident. apply fmap_is_Some. by eapply move_incident_ok. Qed.

(** Whether the transaction resolves its Incident. *)
Lemma kind_resolved db req id ds st cr kind res db' i :
  correlatedSituationInputKindTx db req id ds st cr = Ok (kind, res, db') →
  i ∈ d_incidents db → ic_ID i = id → ic_Status i = st →
  (res = true ↔ cr = false ∧ ds = "resolved" ∧ st ∈ settled ∧ unresolvedIncidentMembersTx db id = 0%nat)
  ∧ (res = true → resolve_incident db id = Some db').
Proof.
  unfold correlatedSituationInputKindTx. intros H Hi Ei Es. destruct cr; simplify_eq/=; [naive_solver|].
  destruct (str_eqb ds "firing" && _) eqn:Ef.
  { destruct (move_incident _ _ _ _); [|done]. go_bool. simplify_eq/=. naive_solver. }
  destruct (negb (str_eqb ds "resolved") || _) eqn:Er.
  { simplify_eq/=. apply orb_true_iff in Er as [Er|Er]; apply negb_true_iff in Er; go_bool; case_bool_decide; naive_solver. }
  apply orb_false_iff in Er as [Er1 Er2]. apply negb_false_iff in Er1, Er2. apply bool_decide_eq_true in Er2. go_bool.
  destruct (unresolvedIncidentMembersTx db _ =? 0)%nat eqn:Eu; simplify_eq/=.
  - apply Nat.eqb_eq in Eu. destruct (resolve_incident_ok db (ic_ID i) i Hi eq_refl Er2) as [db1 E1]. rewrite E1 in H. by simplify_eq/=.
  - apply Nat.eqb_neq in Eu. naive_solver.
Qed.

Lemma status_of_resolved db id db' i :
  resolve_incident db id = Some db' → i ∈ d_incidents db' → ic_ID i = id →
  NoDup (ic_ID <$> d_incidents db) → ic_Status i = StatusResolved.
Proof.
  unfold resolve_incident, move_incident. case_match eqn:Ex; [|done]. intros [= <-] Hi Ei Hnd.
  assert (Hi' : i ∈ d_incidents (clear_triage id (set_incidents (update_rows (λ i, incident_is id i && among_statuses settled i)
                  (with_ic_status StatusResolved) (d_incidents db)) db))) by done.
  replace (d_incidents (clear_triage _ _)) with
    (update_rows (λ i, incident_is id i && among_statuses settled i) (with_ic_status StatusResolved) (d_incidents db)) in Hi'
    by (unfold clear_triage; by case_match).
  apply elem_of_update_rows in Hi' as (j & Hj & ->). apply existsb_exists in Ex as (k & Hk & Ek). rewrite <- list_elem_of_In in Hk.
  assert (Ekid : ic_ID k = id). { apply andb_true_iff in Ek as [E1 _]. unfold incident_is in E1. by go_bool. }
  assert (j = k) as ->; [|by rewrite Ek].
  apply (NoDup_fmap_inj ic_ID (d_incidents db)); [done..|]. rewrite Ekid, <- Ei. by case_match.
Qed.

Lemma cleared_triage db id db' :
  resolve_incident db id = Some db' → d_triage db' !! id = None ∨ d_triage db' !! id = Some TriageExhausted.
Proof.
  unfold resolve_incident. intros (db1 & _ & ->)%fmap_Some. unfold clear_triage. case_bool_decide; [by right|].
  left. simpl. apply lookup_delete_eq.
Qed.

(** The recovery of the other memberships only resolves. *)
Definition only_resolves (db db' : delivery_db) : Prop :=
  (∀ j, j ∈ d_incidents db' → ic_Status j = StatusResolved ∨ j ∈ d_incidents db)
  ∧ (∀ id, d_triage db' !! id = None ∨ d_triage db' !! id = d_triage db !! id).

#[export] Instance only_resolves_preorder : PreOrder only_resolves.
Proof.
  split; unfold only_resolves; [by split; auto|]. intros a b c [H1 T1] [H2 T2]. split.
  - intros j Hj. destruct (H2 j Hj); auto.
  - intros id. destruct (T2 id) as [E | E]; rewrite E; auto.
Qed.

Lemma resolve_only_resolves db id db' : resolve_incident db id = Some db' → only_resolves db db'.
Proof.
  unfold resolve_incident, move_incident. case_match; [|done]. intros [= <-]. split.
  - intros j Hj. unfold clear_triage in Hj.
    assert (Hj' : j ∈ update_rows (λ i, incident_is id i && among_statuses settled i) (with_ic_status StatusResolved) (d_incidents db))
      by (by case_match).
    apply elem_of_update_rows in Hj' as (k & Hk & ->). case_match; [by left|by right].
  - intros k. unfold clear_triage. case_bool_decide; [by right|]. simpl. destruct (decide (k = id)) as [->|].
    + left. apply lookup_delete_eq.
    + right. by apply lookup_delete_ne.
Qed.

Lemma enqueue_ignoring_only n db : only_resolves db (enqueue_ignoring n db).
Proof. unfold enqueue_ignoring. case_match; [|reflexivity]. by split; auto. Qed.

Lemma reconcile_one_only id at_ db i : only_resolves db (reconcile_one id at_ db i).
Proof.
  unfold reconcile_one, reconcileResolvedMembershipTx.
  repeat (case_match; simplify_eq/=); (etrans; [|apply enqueue_ignoring_only]); eauto using resolve_only_resolves; reflexivity.
Qed.

Lemma reconcile_one_keep id at_ db i : others_keep db (reconcile_one id at_ db i).
Proof.
  unfold reconcile_one, reconcileResolvedMembershipTx.
  repeat (case_match; simplify_eq/=); (etrans; [|by apply enqueue_ignoring_keep]); eauto using resolve_incident_keep; reflexivity.
Qed.

Lemma reconcile_fold_only id at_ l db : only_resolves db (foldl (reconcile_one id at_) db l).
Proof. revert db. induction l as [|i l IH]; intros db; [reflexivity|]. simpl. etrans; [apply reconcile_one_only|apply IH]. Qed.

Lemma reconcile_fold_keep id at_ l db : others_keep db (foldl (reconcile_one id at_) db l).
Proof. revert db. induction l as [|i l IH]; intros db; [reflexivity|]. simpl. etrans; [apply reconcile_one_keep|apply IH]. Qed.

(** The rows of the other Incidents stay. *)
Lemma resolve_elsewhere db id db' j :
  resolve_incident db id = Some db' → j ∈ d_incidents db → ic_ID j ≠ id → j ∈ d_incidents db'.
Proof.
  unfold resolve_incident, move_incident. case_match; [|done]. intros [= <-] Hj Hne.
  assert (Hin : j ∈ update_rows (λ i, incident_is id i && among_statuses settled i) (with_ic_status StatusResolved) (d_incidents db)).
  { apply elem_of_update_rows. exists j. split; [done|]. unfold incident_is. destruct (str_eqb (ic_ID j) id) eqn:E; [by go_bool|done]. }
  unfold clear_triage. by case_match.
Qed.

Lemma reconcile_one_elsewhere id at_ db i j : j ∈ d_incidents db → ic_ID j ≠ ic_ID i → j ∈ d_incidents (reconcile_one id at_ db i).
Proof.
  intros Hj Hne. unfold reconcile_one, reconcileResolvedMembershipTx, enqueue_ignoring.
  repeat (case_match; simplify_eq/=); eauto using resolve_elsewhere.
Qed.

Definition related_key (id : string) (i : Incident) : string := "delivery:" +:+ id +:+ ":membership:" +:+ ic_ID i.

Lemma enqueue_ignoring_there n db :
  existsb (str_eqb (si_Kind n)) input_kinds = true →
  ∃ n', n' ∈ d_outbox (enqueue_ignoring n db) ∧ (si_ID n' = si_ID n ∨ si_IdempotencyKey n' = si_IdempotencyKey n).
Proof.
  intros Hk. unfold enqueue_ignoring. destruct (outbox_takes n db) eqn:E.
  - exists n. split; [|by left]. simpl. apply elem_of_app. right. by apply list_elem_of_singleton.
  - unfold outbox_takes in E. rewrite Hk in E. simpl in E. apply negb_false_iff, existsb_exists in E as (n' & Hn' & E).
    rewrite <- list_elem_of_In in Hn'. exists n'. split; [done|]. unfold input_clashes in E.
    apply orb_true_iff in E as [E|E]; go_bool; auto.
Qed.

Lemma reconcile_one_input id at_ db i :
  ∃ n, n ∈ d_outbox (reconcile_one id at_ db i) ∧ (si_ID n = related_key id i ∨ si_IdempotencyKey n = related_key id i).
Proof.
  unfold reconcile_one. destruct (reconcileResolvedMembershipTx _ _ _) as [kind db1] eqn:E.
  destruct (enqueue_ignoring_there (membership_input id i kind at_) db1) as (n & Hn & H); [|by exists n].
  unfold reconcileResolvedMembershipTx in E. repeat (case_match; simplify_eq/=; try done).
Qed.

Lemma reconcile_one_resolves db i id at_ :
  NoDup (ic_ID <$> d_incidents db) → i ∈ d_incidents db → ic_Status i ∈ settled →
  unresolvedIncidentMembersTx db (ic_ID i) = 0%nat →
  ∀ j, j ∈ d_incidents (reconcile_one id at_ db i) → ic_ID j = ic_ID i → ic_Status j = StatusResolved.
Proof.
  intros Hnd Hi Hs Hu j Hj Ej. destruct (resolve_incident_ok db (ic_ID i) i Hi eq_refl Hs) as [db1 E1].
  unfold reconcile_one, reconcileResolvedMembershipTx in Hj. rewrite bool_decide_eq_true_2 in Hj by done.
  rewrite Hu, E1 in Hj. simpl in Hj. unfold enqueue_ignoring in Hj.
  eapply status_of_resolved; [exact E1| |exact Ej|done]. by case_match.
Qed.

(** A recovery at a membership: its input, and its end when nobody is left. *)
Lemma reconcile_carried db l id at_ i :
  NoDup (ic_ID <$> d_incidents db) → NoDup (ic_ID <$> l) → (∀ j, j ∈ l → j ∈ d_incidents db) → i ∈ l →
  let db' := foldl (reconcile_one id at_) db l in
  (∃ n, n ∈ d_outbox db' ∧ (si_ID n = related_key id i ∨ si_IdempotencyKey n = related_key id i))
  ∧ (ic_Status i ∈ settled → unresolvedIncidentMembersTx db' (ic_ID i) = 0%nat →
     ∀ j, j ∈ d_incidents db' → ic_ID j = ic_ID i → ic_Status j = StatusResolved).
Proof.
  intros Hnd Hl Hsub Hi db'. apply list_elem_of_split in Hi as (l1 & l2 & ->).
  subst db'. rewrite foldl_app. simpl. set (mid := foldl _ db l1).
  assert (Hmid : i ∈ d_incidents mid).
  { rewrite fmap_app in Hl. assert (Hne : ∀ j, j ∈ l1 → ic_ID i ≠ ic_ID j).
    { intros j Hj E. apply NoDup_app in Hl as (_ & Hd & _). apply (Hd (ic_ID j)); [by apply list_elem_of_fmap_2|].
      rewrite <- E. rewrite fmap_cons. by left. }
    assert (Hi0 : i ∈ d_incidents db) by (apply Hsub; set_solver).
    subst mid. clear -Hne Hi0. revert db Hi0. induction l1 as [|j l1 IH]; intros db Hi0; [done|]. simpl. apply IH; [set_solver|].
    apply reconcile_one_elsewhere; [done|]. apply Hne. by left. }
  pose proof (reconcile_fold_keep id at_ l1 db : others_keep db mid) as Hk1.
  pose proof (reconcile_one_keep id at_ mid i) as Hk2. pose proof (reconcile_fold_keep id at_ l2 (reconcile_one id at_ mid i)) as Hk3.
  assert (Hndm : NoDup (ic_ID <$> d_incidents mid)) by (by rewrite (kept_ids _ _ (ok_incidents _ _ Hk1))).
  split.
  - destruct (reconcile_one_input id at_ mid i) as (n & Hn & ?). exists n. split; [|done].
    destruct (ok_outbox _ _ Hk3) as (x & -> & _). apply elem_of_app. by left.
  - intros Hs Hu j Hj Ej. destruct (proj1 (reconcile_fold_only id at_ l2 (reconcile_one id at_ mid i)) j Hj) as [?|Hj']; [done|].
    eapply (reconcile_one_resolves mid i); [done..| |exact Hj'|done].
    apply unresolved_zero. intros a Ha. rewrite unresolved_zero in Hu. pose proof (transitivity Hk2 Hk3) as Hk.
    rewrite <- (Hu a); [symmetry; apply member_status_ext; by destruct Hk|]. by rewrite (ok_members _ _ Hk).
Qed.

Lemma kind_elsewhere db req id ds st cr kind res db' j :
  correlatedSituationInputKindTx db req id ds st cr = Ok (kind, res, db') → j ∈ d_incidents db → ic_ID j ≠ id →
  j ∈ d_incidents db'.
Proof.
  unfold correlatedSituationInputKindTx. intros H Hj Hne.
  repeat (case_match; simplify_eq/=; try done); [|by eapply resolve_elsewhere].
  match goal with E : move_incident _ _ _ _ = Some _ |- _ => revert E end. unfold move_incident. case_match; [|done]. intros [= <-].
  apply elem_of_update_rows. exists j. split; [done|]. unfold incident_is. destruct (str_eqb (ic_ID j) id) eqn:E; [by go_bool|done].
Qed.

Lemma kind_lifecycles db req id ds st cr kind res db' :
  correlatedSituationInputKindTx db req id ds st cr = Ok (kind, res, db') → d_lifecycles db' = d_lifecycles db.
Proof.
  unfold correlatedSituationInputKindTx, resolve_incident, move_incident, clear_triage. intros H.
  repeat (case_match; simplify_eq/=; try done).
Qed.

Lemma ensure_found db inc reuse now st id db' :
  ledger_inv db → ensureCorrelatedIncidentTx db inc reuse now = Ok (false, st, id, db') →
  ∃ i, find_incident db id = Some i ∧ ic_Status i = st.
Proof.
  intros Hinv. unfold ensureCorrelatedIncidentTx. set (coll := select_rows _ _). destruct (find_incident db (ic_ID inc)) as [j|] eqn:Ef.
  - case_match; [|done]. intros [= <- <- _]. by exists j.
  - destruct (if reuse then _ else _) as [j|] eqn:Er; [|by case_bool_decide]. intros [= <- <- _]. exists j. split; [|done].
    destruct reuse; [|done]. apply head_Some_elem_of, elem_of_SliceStable in Er.
    apply find_incident_some; [done|]. by apply collecting_in_group in Er as [? _].
Qed.

Lemma ensure_created db inc reuse now st id db' :
  ensureCorrelatedIncidentTx db inc reuse now = Ok (true, st, id, db') → find_incident db id = None ∧ id = ic_ID inc ∧ st = StatusCollecting.
Proof.
  unfold ensureCorrelatedIncidentTx. destruct (find_incident db (ic_ID inc)) as [j|] eqn:Ef; [by case_match|].
  destruct (if reuse then _ else _); [done|]. case_match; [|done]. intros [= <- <- _]. done.
Qed.

(** What the transaction has done when it comes to the recovery. *)
Lemma before_recovery db m d created st id db1 occ db2 db3 opened :
  ledger_inv db →
  ensureCorrelatedIncidentTx db (cm_Incident m)
    (str_eqb (si_Kind (cm_Input m)) "incident_created" && bool_decide (cm_Occurrence m = None)) opened = Ok (created, st, id, db1) →
  applyCorrelatedOccurrenceTx db1 id (cm_Occurrence m) (ad_ReceivedAt d) = Ok (occ, db2) →
  attachCorrelatedDeliveryTx db2 id (cm_DeliveryID m) (al_ID (ad_Alert d)) occ (ad_ReceivedAt d) = Ok db3 →
  (∀ i, i ∈ d_incidents db → ic_ID i ≠ id → i ∈ d_incidents db3)
  ∧ (∀ x, x ∈ d_members db → x ∈ d_members db3)
  ∧ d_lifecycles db3 = d_lifecycles db
  ∧ (∃ i, i ∈ d_incidents db3 ∧ ic_ID i = id ∧ ic_Status i = st)
  ∧ (created = false → ∃ i, find_incident db id = Some i ∧ ic_Status i = st)
  ∧ (created = true → find_incident db id = None).
Proof.
  intros Hinv E1 E2 E3. destruct (ensure_inv _ _ _ _ _ _ _ _ Hinv E1) as (Hinv1&_&_&_&_&Em1&_&El1&_&(i&Hi&Ei&_&Es)).
  assert (H2 : d_incidents db2 = d_incidents db1 ∧ d_members db2 = d_members db1 ∧ d_lifecycles db2 = d_lifecycles db1).
  { clear -E2. unfold applyCorrelatedOccurrenceTx, insertCorrelatedOccurrenceTx, touchCorrelatedOccurrenceTx, check in E2.
    repeat (case_match; simplify_eq/=; try done). }
  destruct H2 as (Ei2 & Em2 & El2). unfold attachCorrelatedDeliveryTx in E3. case_match; [|done]. injection E3 as <-. simpl.
  split; [|split; [|split; [|split; [|split]]]].
  - intros j Hj Hne. apply elem_of_update_rows. exists j. rewrite Ei2. split.
    + unfold ensureCorrelatedIncidentTx in E1. repeat (case_match; simplify_eq/=; try done); apply elem_of_app; by left.
    + unfold incident_is. destruct (str_eqb (ic_ID j) id) eqn:E; [by go_bool|done].
  - intros x Hx. rewrite Em2, Em1. case_match; [done|]. apply elem_of_app. by left.
  - by rewrite El2.
  - eexists. split; [apply elem_of_update_rows; exists i; by rewrite Ei2|]. unfold incident_is. rewrite Ei, str_eqb_refl. simpl. by rewrite <- Ei.
  - intros ->. by eapply ensure_found.
  - intros ->. by eapply ensure_created.
Qed.

(** What the end of the transaction leaves alone. *)
Lemma finish_same db n P f id a :
  let db' := set_dispatches (update_rows P f (d_dispatches db)) (set_outbox (d_outbox db ++ [n]) db) in
  member_status db' a = member_status db a ∧ unresolvedIncidentMembersTx db' id = unresolvedIncidentMembersTx db id.
Proof. done. Qed.

Lemma unresolved_ext db db' id :
  others_keep db db' → unresolvedIncidentMembersTx db' id = unresolvedIncidentMembersTx db id.
Proof.
  intros Hk. unfold unresolvedIncidentMembersTx. rewrite (ok_members _ _ Hk). f_equal. apply list_filter_iff. intros m.
  by rewrite (member_status_ext db db') by (by destruct Hk).
Qed.

Lemma related_spec db al owner i :
  i ∈ related_memberships db al owner ↔
  i ∈ d_incidents db ∧ (ic_ID i, al) ∈ d_members db ∧ ic_ID i ≠ owner ∧ (ic_Status i ∉ [StatusResolved; StatusFailed])
  ∧ terminalSituationOwnerTx db (ic_ID i) = false.
Proof.
  unfold related_memberships. rewrite SliceStable_perm, elem_of_select_rows, !andb_true_iff, !negb_true_iff, is_member_in.
  unfold incident_is, among_statuses, str_eqb. rewrite String.eqb_neq, bool_decide_eq_false. tauto.
Qed.

(** The Incident a successful transaction answers with. *)
Lemma apply_result_id db m d opened now r db' :
  applyNewCorrelatedDelivery db m d opened now = Ok (r, db') → find_incident db' (ic_ID (cr_Incident r)) = Some (cr_Incident r).
Proof.
  intros H. apply apply_new_steps in H as (?&?&id&?&?&?&?&?&?&?&?&?&?&_&_&_&_&_&_&_&_&_&_&Hf&_).
  pose proof (find_incident_in _ _ _ Hf) as [_ E]. by rewrite E.
Qed.

Lemma apply_new_of db m opened now r db' d :
  ledger_inv db → ApplyCorrelatedDelivery db m opened now = Ok (r, db') → find_delivery db (cm_DeliveryID m) = Some d →
  is_ok (validateCorrelatedDeliveryMutation m) = true ∧ held db (cm_DeliveryID m) (cm_DispatchOwner m) (cm_DispatchClaimToken m) = true
  ∧ applyNewCorrelatedDelivery db m d opened now = Ok (r, db').
Proof.
  intros Hinv. unfold ApplyCorrelatedDelivery, held. destruct (validateCorrelatedDeliveryMutation m); [|done]. simpl.
  destruct (verifyCorrelatedDispatchClaimTx _ _ _ _) eqn:Ec; [|done]. simpl. intros H Hd. split; [done|]. split; [done|].
  destruct (List.find _ _) as [o|] eqn:Eo.
  - exfalso. apply (find_key ol_DeliveryID) in Eo as [Ho Eo].
    eapply (claimed_not_owned db); [done|by rewrite Ec|]. rewrite <- Eo. by apply list_elem_of_fmap_2.
  - by rewrite Hd in H.
Qed.

(** C12. A delivery resolves the Incident it joins exactly when it is a recovery,
    the Incident was ready or analyzed, and the latest applied delivery of
    every member, the joining one included, is a recovery; the schedule of
    Acute Triage is then gone unless it was exhausted.  A recovery also reaches
    every other open Incident that contains its Alert: an input is queued
    there, and it too is resolved when it was settled and nobody is left. *)
Theorem recovery_carried db m opened now r db' d :
  ledger_inv db → ApplyCorrelatedDelivery db m opened now = Ok (r, db') → find_delivery db (cm_DeliveryID m) = Some d →
  let id := ic_ID (cr_Incident r) in
  (cr_Resolved r = true ↔
     al_Status (ad_Alert d) = "resolved" ∧ (∃ i, find_incident db id = Some i ∧ ic_Status i ∈ settled)
     ∧ ∀ a, (id, a) ∈ d_members db' → member_status db' a = "resolved")
  ∧ (cr_Resolved r = true → ic_Status (cr_Incident r) = StatusResolved ∧ d_triage db' !! id ∈ [None; Some TriageExhausted])
  ∧ (al_Status (ad_Alert d) = "resolved" → ∀ i, i ∈ d_incidents db → ic_ID i ≠ id →
     (ic_ID i, al_ID (ad_Alert d)) ∈ d_members db → ic_Status i ∉ [StatusResolved; StatusFailed] →
     terminalSituationOwnerTx db (ic_ID i) = false →
     (∃ n, n ∈ d_outbox db' ∧ (si_ID n = related_key (cm_DeliveryID m) i ∨ si_IdempotencyKey n = related_key (cm_DeliveryID m) i))
     ∧ (ic_Status i ∈ settled → (∀ a, (ic_ID i, a) ∈ d_members db' → member_status db' a = "resolved") →
        ∀ j, j ∈ d_incidents db' → ic_ID j = ic_ID i → ic_Status j = StatusResolved)).
Proof.
  intros Hinv Happ Hd id. destruct (apply_new_of _ _ _ _ _ _ _ Hinv Happ Hd) as (Hv & _ & Hnew). clear Happ.
  pose proof (apply_new_inv _ _ _ _ _ _ _ Hinv Hv Hd Hnew) as Hinv'. pose proof (apply_result_id _ _ _ _ _ _ _ Hnew) as Hr.
  apply apply_new_steps in Hnew as (cr&st&id'&db1&occ&db2&db3&req&kind&res&db4&db5&n&E1&_&E2&E3&E4&E5&En&_&_&Edb&Ef&Ecr&Eres&_).
  assert (id' = id) as -> by (by apply find_incident_in in Ef as [_ <-]).
  destruct (before_recovery _ _ _ _ _ _ _ _ _ _ _ Hinv E1 E2 E3) as (Hi3&Hm3&Hl3&(i3&Hi3'&Eid3&Est3)&Hfound&Hcreated).
  destruct (kind_resolved _ _ _ _ _ _ _ _ _ _ E4 Hi3' Eid3 Est3) as [Hres Hdb4]. pose proof (kind_keep _ _ _ _ _ _ _ _ _ E4) as Hk4.
  assert (Hk5 : others_keep db4 db5) by (rewrite E5; case_match; [apply reconcile_keep|reflexivity]).
  assert (Hon : only_resolves db4 db5) by (rewrite E5; case_match; [apply reconcile_fold_only|reflexivity]).
  pose proof (li_incidents _ Hinv') as Hnd. rewrite Edb in Hnd. simpl in Hnd. rewrite (kept_ids _ _ (ok_incidents _ _ Hk5)) in Hnd.
  assert (Hu : unresolvedIncidentMembersTx db' id = unresolvedIncidentMembersTx db3 id).
  { rewrite Edb. change (unresolvedIncidentMembersTx db5 id = unresolvedIncidentMembersTx db3 id). by rewrite (unresolved_ext _ _ id Hk5), (unresolved_ext _ _ id Hk4). }
  rewrite <- unresolved_zero, Eres, Hres, Hu. split; [|split].
  - split.
    + intros (-> & ? & ? & ?). split; [done|]. split; [|done]. destruct (Hfound eq_refl) as (i & ? & Es). exists i. by rewrite Es.
    + intros (? & (i & Hi & Hs) & ?). destruct cr; [by rewrite Hcreated in Hi|]. destruct (Hfound eq_refl) as (i' & Hi' & <-).
      rewrite Hi in Hi'. injection Hi' as ->. done.
  - intros Hall. destruct (proj2 Hres Hall). pose proof (Hdb4 eq_refl) as Hdb. split.
    + apply find_incident_in in Hr as [Hr _]. rewrite Edb in Hr. simpl in Hr. destruct (proj1 Hon _ Hr) as [?|Hr4]; [done|].
      eapply status_of_resolved; [exact Hdb|exact Hr4|done|]. by rewrite <- (kept_ids _ _ (ok_incidents _ _ Hk4)).
    + rewrite Edb. simpl. rewrite !elem_of_cons. destruct (proj2 Hon id) as [->|E']; [by left|]. rewrite E'.
      destruct (cleared_triage _ _ _ Hdb); auto.
  - intros Es i Hi Hne Hmem Hst Hterm. rewrite Es, str_eqb_refl in E5.
    assert (Hrel : i ∈ related_memberships db4 (al_ID (ad_Alert d)) id).
    { apply related_spec. split; [eapply kind_elsewhere; eauto|]. rewrite (ok_members _ _ Hk4). split; [by apply Hm3|].
      split; [done|]. split; [done|]. unfold terminalSituationOwnerTx in *. by rewrite (kind_lifecycles _ _ _ _ _ _ _ _ _ E4), Hl3. }
    assert (Hndl : NoDup (ic_ID <$> related_memberships db4 (al_ID (ad_Alert d)) id)).
    { unfold related_memberships. rewrite SliceStable_perm. by apply NoDup_fmap_select. }
    assert (Hsub : ∀ j, j ∈ related_memberships db4 (al_ID (ad_Alert d)) id → j ∈ d_incidents db4).
    { intros j Hj. by apply related_spec in Hj as [? _]. }
    pose proof (reconcile_carried db4 _ (cm_DeliveryID m) (ad_ReceivedAt d) i Hnd Hndl Hsub Hrel) as [Hin Hrs].
    change (foldl _ _ _) with (reconcileResolvedMembershipsTx db4 (cm_DeliveryID m) (al_ID (ad_Alert d)) id (ad_ReceivedAt d)) in Hin, Hrs.
    rewrite <- E5 in Hin, Hrs. rewrite Edb. simpl. split.
    + destruct Hin as (x & Hx & ?). exists x. rewrite elem_of_app. auto.
    + intros Hs Hall. apply Hrs; [done|]. by apply unresolved_zero.
Qed.

(** ** Order *)

#[export] Instance later_delivery_sw : StrictWeak later_delivery.
Proof.
  apply lex_less_sw; [apply (flip_sw (key_ltb episode_start)), _|].
  apply lex_less_sw; [apply (flip_sw (key_ltb ad_ReceivedAt)), _|apply (flip_sw (skey_ltb ad_ID)), _].
Qed.

Lemma later_delivery_ties x y : later_delivery x y = false → later_delivery y x = false → ad_ID x = ad_ID y.
Proof.
  unfold later_delivery. intros [H1 H2]%lex_less_false [H3 H4]%lex_less_false.
  destruct H2 as [H2|H2]; [congruence|]. destruct H4 as [H4|H4]; [congruence|].
  apply lex_less_false in H2 as [H5 H6], H4 as [H7 H8].
  destruct H6 as [H6|H6]; [congruence|]. destruct H8 as [H8|H8]; [congruence|]. by apply str_ltb_total.
Qed.

Lemma owned_in db id : owned db id = true ↔ id ∈ ol_DeliveryID <$> d_owners db.
Proof. apply (existsb_key ol_DeliveryID). Qed.

Lemma applied_deliveries_in db a d :
  d ∈ applied_deliveries db a ↔ d ∈ d_deliveries db ∧ al_ID (ad_Alert d) = a ∧ (ad_ID d ∈ ol_DeliveryID <$> d_owners db).
Proof.
  unfold applied_deliveries. rewrite elem_of_select_rows, andb_true_iff, owned_in. unfold alert_is, str_eqb. rewrite String.eqb_eq. tauto.
Qed.

(** The status an Alert counts with is that of its latest applied delivery,
    by the start of the episode and then by receipt: neither the order in which
    the deliveries arrived nor the order in which they were applied matters, so
    a late recovery of an older episode closes nothing. *)
Theorem member_status_latest db db' a :
  NoDup (ad_ID <$> d_deliveries db) →
  d_deliveries db' ≡ₚ d_deliveries db → (ol_DeliveryID <$> d_owners db') ≡ₚ (ol_DeliveryID <$> d_owners db) →
  member_status db' a = member_status db a
  ∧ (applied_deliveries db a = [] ∧ member_status db a = "firing"
     ∨ ∃ d, d ∈ applied_deliveries db a ∧ member_status db a = al_Status (ad_Alert d)
            ∧ ∀ e, e ∈ applied_deliveries db a → e = d ∨ later_delivery d e = true).
Proof.
  intros Hnd Hp Ho. split.
  - unfold member_status. replace (SliceStable later_delivery (applied_deliveries db' a)) with
      (SliceStable later_delivery (applied_deliveries db a)); [done|]. apply SliceStable_unique; [apply _|..].
    + intros x y [Hx _]%applied_deliveries_in [Hy _]%applied_deliveries_in H1 H2.
      eapply (NoDup_fmap_inj ad_ID); [done..|]. by apply later_delivery_ties.
    + unfold applied_deliveries, select_rows. rewrite Hp. apply Permutation_refl', list_filter_iff. intros d.
      rewrite !andb_true_iff, !owned_in. by rewrite Ho.
  - unfold member_status. pose proof (SliceStable_perm later_delivery (applied_deliveries db a)) as Hs.
    pose proof (SliceStable_sorted later_delivery (applied_deliveries db a)) as Hsort.
    destruct (SliceStable later_delivery _) as [|d l] eqn:E.
    + left. by apply Permutation_nil_l in Hs.
    + right. exists d. assert (Hd : d ∈ applied_deliveries db a) by (rewrite <- Hs; by left). split; [done|]. split; [done|].
      intros e He. assert (Hel : e ∈ d :: l) by (by rewrite Hs). apply elem_of_cons in Hel as [->|Hel]; [by left|].
      inversion_clear Hsort as [|? ? _ Hall]. rewrite Forall_forall in Hall. specialize (Hall e Hel).
      destruct (later_delivery d e) eqn:Ed; [by right|left].
      apply applied_deliveries_in in Hd as [Hd _], He as [He _]. eapply (NoDup_fmap_inj ad_ID); [done..|]. by apply later_delivery_ties.
Qed.

(** ** Pruning *)

Lemma delete_occurrences_ext g h db :
  (∀ o, o ∈ d_occurrences db → g o = h o) → delete_occurrences g db = delete_occurrences h db.
Proof.
  intros H. unfold delete_occurrences, select_rows.
  rewrite (filter_ext_in (λ o, g o = true) (λ o, h o = true)) by (intros o Ho; by rewrite H).
  by rewrite (filter_ext_in (λ o, negb (g o) = true) (λ o, negb (h o) = true)) by (intros o Ho; by rewrite H).
Qed.

Lemma select_select {A} (P Q : A → bool) l : select_rows P (select_rows Q l) = select_rows (λ a, P a && Q a) l.
Proof.
  unfold select_rows. rewrite list_filter_filter. apply list_filter_iff. intros a. by rewrite andb_true_iff.
Qed.

Definition names (ids : list Z) (o : owner_link) : bool :=
  match ol_OccurrenceID o with Some i => bool_decide (i ∈ ids) | None => false end.

Lemma delete_delete g h db :
  delete_occurrences h (delete_occurrences g db) = delete_occurrences (λ o, g o || h o) db.
Proof.
  unfold delete_occurrences. simpl. rewrite select_select. unfold set_owners, set_occurrences. simpl. f_equal.
  - unfold update_rows. rewrite <- list_fmap_compose. apply list_fmap_ext. intros k o _. simpl.
    fold (names (oc_ID <$> select_rows g (d_occurrences db)) o).
    fold (names (oc_ID <$> select_rows (λ a, h a && negb (g a)) (d_occurrences db)) o).
    fold (names (oc_ID <$> select_rows (λ a, g a || h a) (d_occurrences db)) o).
    destruct o as [inc dl occ]. unfold names. simpl. destruct occ as [i|]; [|done]. simpl.
    assert (Hiff : (i ∈ oc_ID <$> select_rows (λ a, g a || h a) (d_occurrences db)) ↔
                   (i ∈ oc_ID <$> select_rows g (d_occurrences db))
                   ∨ (i ∈ oc_ID <$> select_rows (λ a, h a && negb (g a)) (d_occurrences db))).
    { rewrite !list_elem_of_fmap. split.
      - intros (a & -> & [Ha Hin]%elem_of_select_rows). destruct (g a) eqn:Eg.
        + left. exists a. by rewrite elem_of_select_rows.
        + right. exists a. rewrite elem_of_select_rows, Eg. simpl in Ha. by rewrite Ha.
      - intros [(a & -> & [Ha Hin]%elem_of_select_rows)|(a & -> & [Ha Hin]%elem_of_select_rows)]; exists a; rewrite elem_of_select_rows.
        + by rewrite Ha.
        + apply andb_true_iff in Ha as [-> _]. by rewrite orb_true_r. }
    repeat case_bool_decide; simpl; try done; try case_bool_decide; naive_solver.
  - rewrite select_select. unfold select_rows. apply list_filter_iff. intros o. destruct (g o), (h o); simpl; naive_solver.
Qed.

Lemma length_select_ids (ids : list Z) l :
  NoDup (oc_ID <$> l) → NoDup ids → (∀ i, i ∈ ids → i ∈ oc_ID <$> l) →
  length (select_rows (λ o, bool_decide (oc_ID o ∈ ids)) l) = length ids.
Proof.
  intros Hl Hids Hsub. rewrite <- (length_fmap oc_ID). apply Permutation_length, NoDup_Permutation; [by apply NoDup_fmap_select|done|].
  intros i. rewrite list_elem_of_fmap. split.
  - intros (o & -> & [Ho _]%elem_of_select_rows). by apply bool_decide_eq_true in Ho.
  - intros Hi. pose proof (Hsub i Hi) as (o & -> & Ho)%list_elem_of_fmap. exists o. split; [done|]. apply elem_of_select_rows.
    by rewrite bool_decide_eq_true.
Qed.

Lemma length_select_split {A} (P Q : A → bool) l :
  length (select_rows P l) = (length (select_rows (λ a, P a && negb (Q a)) l) + length (select_rows (λ a, P a && Q a) l))%nat.
Proof.
  unfold select_rows. induction l as [|a l IH]; [done|]. rewrite !filter_cons.
  destruct (P a), (Q a); simpl; repeat case_decide; simpl; try done; lia.
Qed.

Definition old_occurrence (cutoff : Time) (o : Occurrence) : bool := occ_before (oc_OccurredAt o) cutoff.

Lemma prune_batch_spec cutoff batch db :
  NoDup (oc_ID <$> d_occurrences db) →
  let '(n, db') := prune_batch cutoff batch db in
  let total := length (select_rows (old_occurrence cutoff) (d_occurrences db)) in
  n = min batch total
  ∧ (n = total → db' = delete_occurrences (old_occurrence cutoff) db)
  ∧ delete_occurrences (old_occurrence cutoff) db' = delete_occurrences (old_occurrence cutoff) db
  ∧ (n + length (select_rows (old_occurrence cutoff) (d_occurrences db')) = total)%nat
  ∧ NoDup (oc_ID <$> d_occurrences db').
Proof.
  intros Hnd. unfold prune_batch. change (λ o : Occurrence, occ_before (oc_OccurredAt o) cutoff) with (old_occurrence cutoff).
  set (gone := select_rows (old_occurrence cutoff) (d_occurrences db)).
  set (ids := take batch (oc_ID <$> SliceStable (key_ltb oc_ID) gone)). simpl.
  assert (Hg : NoDup (oc_ID <$> gone)) by (by apply NoDup_fmap_select).
  assert (Hperm : (oc_ID <$> SliceStable (key_ltb oc_ID) gone) ≡ₚ (oc_ID <$> gone)) by (by rewrite SliceStable_perm).
  assert (Hsub : ∀ i, i ∈ ids → i ∈ oc_ID <$> gone).
  { intros i Hi. rewrite <- Hperm. apply elem_of_take in Hi as (k & Hk & _). by eapply list_elem_of_lookup_2. }
  assert (Hids : NoDup ids). { eapply sublist_NoDup; [|apply sublist_take]. by rewrite Hperm. }
  assert (Hlen : length ids = min batch (length gone)). { unfold ids. by rewrite length_take, length_fmap, (Permutation_length (SliceStable_perm _ gone)). }
  set (g := λ o, bool_decide (oc_ID o ∈ ids)).
  assert (Hgo : ∀ o, o ∈ d_occurrences db → g o = true → old_occurrence cutoff o = true).
  { intros o Ho Hgo. apply bool_decide_eq_true, Hsub, list_elem_of_fmap in Hgo as (o' & E & [Hold Hin]%elem_of_select_rows).
    by rewrite (NoDup_fmap_inj oc_ID _ o o' Hnd Ho Hin E). }
  assert (Hcount : length (select_rows (λ o, old_occurrence cutoff o && g o) (d_occurrences db)) = length ids).
  { rewrite <- (length_select_ids ids gone Hg Hids Hsub). unfold gone. rewrite select_select. f_equal.
    unfold select_rows. apply list_filter_iff. intros o. by rewrite andb_comm. }
  pose proof (length_select_split (old_occurrence cutoff) g (d_occurrences db)) as Hsplit. rewrite Hcount in Hsplit. fold gone in Hsplit.
  split; [done|]. split; [|split; [|split]].
  - intros En. apply delete_occurrences_ext. intros o Ho. destruct (old_occurrence cutoff o) eqn:Eo.
    + apply bool_decide_eq_true. assert (Hall : ids = oc_ID <$> SliceStable (key_ltb oc_ID) gone).
      { unfold ids. apply take_ge. rewrite length_fmap, (Permutation_length (SliceStable_perm _ gone)). lia. }
      rewrite Hall, Hperm. apply list_elem_of_fmap_2, elem_of_select_rows. done.
    + destruct (g o) eqn:Eg; [|done]. rewrite (Hgo o Ho Eg) in Eo. done.
  - rewrite delete_delete. apply delete_occurrences_ext. intros o Ho. fold g. destruct (g o) eqn:Eg; [|done]. by rewrite (Hgo o Ho Eg).
  - simpl. rewrite select_select.
    change (length ids + length (select_rows (λ a, old_occurrence cutoff a && negb (g a)) (d_occurrences db)) = length gone)%nat. lia.
  - simpl. by apply NoDup_fmap_select.
Qed.

Lemma occurrence_prune_loop fuel cutoff batch db :
  (0 < batch)%nat → NoDup (oc_ID <$> d_occurrences db) →
  (length (select_rows (old_occurrence cutoff) (d_occurrences db)) < fuel)%nat →
  prune_loop fuel cutoff batch db =
    Some (length (select_rows (old_occurrence cutoff) (d_occurrences db)), delete_occurrences (old_occurrence cutoff) db).
Proof.
  intros Hb. revert db. induction fuel as [|f IH]; intros db Hnd Hf; [lia|]. cbn [prune_loop].
  pose proof (prune_batch_spec cutoff batch db Hnd) as Hspec. destruct (prune_batch cutoff batch db) as [n db'].
  destruct Hspec as (Hn & Hall & Hdel & Hsum & Hnd'). destruct (n <? batch)%nat eqn:E.
  - apply Nat.ltb_lt in E. rewrite Hall by lia. repeat f_equal. lia.
  - apply Nat.ltb_ge in E. rewrite IH by (done || lia). simpl. rewrite Hdel. repeat f_equal. lia.
Qed.

(** Pruning returns, whatever the batch, and does what one DELETE would:
    the occurrences before the cutoff go, each is counted once, the owners that
    named one keep their link without it, and nothing else changes. *)
Theorem PruneOccurrences_spec db cutoff batch fuel :
  NoDup (oc_ID <$> d_occurrences db) → (length (d_occurrences db) < fuel)%nat →
  PruneOccurrences fuel db cutoff batch =
    Some (length (select_rows (old_occurrence cutoff) (d_occurrences db)), delete_occurrences (old_occurrence cutoff) db).
Proof.
  intros Hnd Hf. apply occurrence_prune_loop; [|done|].
  - unfold defaultPruneBatch. destruct (batch <=? 0)%Z eqn:E; [lia|]. go_bool. lia.
  - eapply Nat.le_lt_trans; [|exact Hf]. apply length_filter.
Qed.

(** ** A plan lands *)

(** The identity of the plan's input is new, also to the inputs a recovery
    queues on the way. *)
Definition input_fresh (db : delivery_db) (m : CorrelatedDeliveryMutation) : Prop :=
  (∀ x, x ∈ d_outbox db → si_ID x ≠ si_ID (cm_Input m) ∧ si_IdempotencyKey x ≠ si_IdempotencyKey (cm_Input m))
  ∧ (∀ i, related_key (cm_DeliveryID m) i ≠ si_ID (cm_Input m) ∧ related_key (cm_DeliveryID m) i ≠ si_IdempotencyKey (cm_Input m)).

Lemma reconcile_fold_outbox id at_ l db :
  ∃ extra, d_outbox (foldl (reconcile_one id at_) db l) = d_outbox db ++ extra
    ∧ Forall (λ n, ∃ i, si_ID n = related_key id i ∧ si_IdempotencyKey n = related_key id i) extra.
Proof.
  revert db. induction l as [|i l IH]; intros db; simpl; [exists []; by rewrite app_nil_r|].
  destruct (IH (reconcile_one id at_ db i)) as (x & -> & Fx).
  unfold reconcile_one. destruct (reconcileResolvedMembershipTx _ _ _) as [kind db1] eqn:E.
  assert (Eo : d_outbox db1 = d_outbox db).
  { unfold reconcileResolvedMembershipTx, resolve_incident, move_incident, clear_triage in E. repeat (case_match; simplify_eq/=; try done). }
  unfold enqueue_ignoring. case_match; simpl; rewrite Eo; [|by exists x].
  rewrite <- app_assoc. eexists. split; [done|]. constructor; [by exists i|done].
Qed.

Lemma kind_total db req id ds st cr i :
  i ∈ d_incidents db → ic_ID i = id → ic_Status i = st →
  ∃ kind res db', correlatedSituationInputKindTx db req id ds st cr = Ok (kind, res, db')
    ∧ (kind = req ∨ kind ∈ ["incident_created"; "incident_resolved"]) ∧ d_outbox db' = d_outbox db.
Proof.
  intros Hi Ei Es. unfold correlatedSituationInputKindTx. destruct cr; [eexists _, _, _; split; [done|]; split; [set_solver|done]|].
  destruct (str_eqb ds "firing" && bool_decide (st = StatusResolved)) eqn:Ef.
  { apply andb_true_iff in Ef as [_ Ef]. apply bool_decide_eq_true in Ef.
    destruct (move_incident_ok db id i [StatusResolved] StatusAnalyzed Hi Ei) as [db1 E1]; [set_solver|]. rewrite E1.
    eexists _, _, _. split; [done|]. split; [by left|]. unfold move_incident in E1. case_match; [|done]. by simplify_eq. }
  case_match; [eexists _, _, _; split; [done|]; auto|]. case_match; [eexists _, _, _; split; [done|]; auto|].
  case_match eqn:Er; eexists _, _, _; (split; [done|]); [|by auto]. split; [set_solver|].
  unfold resolve_incident, move_incident, clear_triage in Er. repeat (case_match; simplify_eq/=; try done).
Qed.

Lemma input_kinds_in k : k ∈ input_kinds → existsb (str_eqb k) input_kinds = true.
Proof. intros H. apply existsb_exists. exists k. rewrite <- list_elem_of_In, str_eqb_refl. done. Qed.

Lemma answered_kind k : k ∈ ["incident_created"; "incident_resolved"] → k ∈ input_kinds.
Proof. set_solver. Qed.

Lemma membership_kind : "membership_changed" ∈ input_kinds.
Proof. set_solver. Qed.

Lemma takes_fresh n db : si_Kind n ∈ input_kinds →
  (∀ x, x ∈ d_outbox db → si_ID x ≠ si_ID n ∧ si_IdempotencyKey x ≠ si_IdempotencyKey n) → outbox_takes n db = true.
Proof.
  intros Hk Hx. unfold outbox_takes. rewrite input_kinds_in by done. simpl. apply negb_true_iff, not_true_is_false.
  intros (x & Hin & Hc)%existsb_exists. rewrite <- list_elem_of_In in Hin. destruct (Hx x Hin) as [H1 H2].
  unfold input_clashes in Hc. apply orb_true_iff in Hc as [Hc|Hc]; go_bool; congruence.
Qed.

(** When the Incident is settled on, its owner permits the plan and the
    occurrence can be written, the rest of the transaction cannot fail. *)
Lemma apply_lands db m d opened now created st id db1 occ db2 :
  ledger_inv db → is_ok (validateCorrelatedDeliveryMutation m) = true →
  held db (cm_DeliveryID m) (cm_DispatchOwner m) (cm_DispatchClaimToken m) = true →
  find_delivery db (cm_DeliveryID m) = Some d →
  ensureCorrelatedIncidentTx db (cm_Incident m)
    (str_eqb (si_Kind (cm_Input m)) "incident_created" && bool_decide (cm_Occurrence m = None)) opened = Ok (created, st, id, db1) →
  owner_permits db1 m id st = true →
  applyCorrelatedOccurrenceTx db1 id (cm_Occurrence m) (ad_ReceivedAt d) = Ok (occ, db2) →
  si_Kind (cm_Input m) ∈ input_kinds → input_fresh db m →
  ∃ r db', ApplyCorrelatedDelivery db m opened now = Ok (r, db') ∧ ic_ID (cr_Incident r) = id ∧ cr_Created r = created
           ∧ cr_Occurrence r = occurrence_result m id occ.
Proof.
  intros Hinv Hv Hh Hd E1 Hp E2 Hkind [Hf1 Hf2]. unfold ApplyCorrelatedDelivery.
  destruct (validateCorrelatedDeliveryMutation m) eqn:Ev; [|done]. simpl.
  pose proof (claimed_not_owned _ _ _ _ Hinv Hh) as Hno.
  unfold held in Hh. pose proof Hh as (x & Hx & Hhx)%claim_held. destruct (verifyCorrelatedDispatchClaimTx _ _ _ _); [|done]. simpl.
  pose proof (proj2 (find_key_none ol_DeliveryID (cm_DeliveryID m) (d_owners db)) Hno) as Hfo.
  change (λ a, str_eqb (ol_DeliveryID a) (cm_DeliveryID m)) with (owns_delivery (cm_DeliveryID m)) in Hfo. rewrite Hfo, Hd.
  destruct (ensure_inv _ _ _ _ _ _ _ _ Hinv E1) as (Hinv1&Eo1&Ex1&Ep1&_&_&_&_&Hid&(i&Hi&Ei&_&Es)).
  assert (Hoid : ∀ o, cm_Occurrence m = Some o → oc_IncidentID o = id).
  { intros o Ho. rewrite (valid_occurrence m) by (rewrite ?Ev; done). destruct Hid as [->|Hr]; [done|].
    rewrite Ho, andb_comm in Hr. by case_bool_decide. }
  destruct (occurrence_inv _ _ _ _ _ _ Hinv1 Hoid E2) as (Hinv2&Eo2&Ex2&Ep2&_&Ei2&_&_).
  unfold applyNewCorrelatedDelivery. rewrite E1. simpl. rewrite Hp, E2. simpl.
  assert (Hna : existsb (owns_delivery (cm_DeliveryID m)) (d_owners db2) = false).
  { apply not_true_is_false. intros H%(existsb_key ol_DeliveryID). by rewrite Eo2, Eo1 in H. }
  destruct (attachCorrelatedDeliveryTx db2 id (cm_DeliveryID m) (al_ID (ad_Alert d)) occ (ad_ReceivedAt d)) as [db3|] eqn:E3.
  2: { unfold attachCorrelatedDeliveryTx in E3. by rewrite Hna in E3. }
  assert (Hid2 : id ∈ ic_ID <$> d_incidents db2). { rewrite Ei2, <- Ei. by apply list_elem_of_fmap_2. }
  destruct (attach_inv _ _ _ _ _ _ _ Hinv2 Hid2 E3) as (_&_&_&_&Ex3&Ep3&_&_&_&Hinv3). simpl.
  destruct (before_recovery _ _ _ _ _ _ _ _ _ _ _ Hinv E1 E2 E3) as (_&_&_&(i3&Hi3&Eid3&Est3)&_&_).
  destruct (kind_total db3 (if str_eqb id (ic_ID (cm_Incident m)) then si_Kind (cm_Input m) else "membership_changed") id
              (al_Status (ad_Alert d)) st created i3 Hi3 Eid3 Est3) as (kind & res & db4 & E4 & Hk & Ex4).
  rewrite E4. simpl. set (db5 := if str_eqb (al_Status (ad_Alert d)) "resolved" then _ else db4).
  set (n := input_at _ _ _ _ _ _).
  assert (Hk5 : others_keep db3 db5).
  { etrans; [by eapply kind_keep|]. unfold db5. destruct (str_eqb (al_Status _) _); [apply reconcile_keep|reflexivity]. }
  assert (Htake : outbox_takes n db5 = true).
  { apply takes_fresh.
    - simpl. destruct Hk as [->|Hk]; [|by apply answered_kind]. destruct (str_eqb id _); [done|apply membership_kind].
    - assert (Hout : ∃ extra, d_outbox db5 = d_outbox db ++ extra ∧
        Forall (λ n, ∃ i, si_ID n = related_key (cm_DeliveryID m) i ∧ si_IdempotencyKey n = related_key (cm_DeliveryID m) i) extra).
      { rewrite <- Ex1, <- Ex2, <- Ex3, <- Ex4. unfold db5. destruct (str_eqb (al_Status _) _); [apply reconcile_fold_outbox|]. exists []. by rewrite app_nil_r. }
      destruct Hout as (extra & -> & Fx). intros y [Hy|Hy]%elem_of_app; [by apply Hf1|].
      rewrite Forall_forall in Fx. destruct (Fx y Hy) as (j & -> & ->). apply Hf2. }
  unfold enqueue. rewrite Htake. simpl. unfold markCorrelatedDispatchAppliedTx. simpl.
  assert (Hex : existsb (holds_claim (cm_DeliveryID m) (cm_DispatchOwner m) (cm_DispatchClaimToken m)) (d_dispatches db5) = true).
  { apply existsb_exists. exists x. rewrite <- list_elem_of_In. split; [|done].
    by rewrite (ok_dispatches _ _ Hk5), Ep3, Ep2, Ep1. }
  rewrite Hex. simpl. set (db7 := set_dispatches _ _). destruct (find_incident db7 id) as [j|] eqn:Ej.
  - eexists _, _. split; [done|]. simpl. repeat split. by apply find_incident_in in Ej as [_ Ej].
  - exfalso. apply find_incident_none in Ej. apply Ej. simpl.
    rewrite (kept_ids _ _ (ok_incidents _ _ Hk5)). rewrite <- Eid3. by apply list_elem_of_fmap_2.
Qed.

(** ** Incidents stay *)

Definition persists (db db' : delivery_db) : Prop :=
  ∀ i, i ∈ d_incidents db → ∃ j, j ∈ d_incidents db' ∧ ic_ID j = ic_ID i ∧ ic_GroupKey j = ic_GroupKey i.

#[export] Instance persists_preorder : PreOrder persists.
Proof.
  split; unfold persists; [by intros db i Hi; exists i|]. intros a b c H1 H2 i Hi.
  destruct (H1 i Hi) as (j & Hj & Ej & Gj). destruct (H2 j Hj) as (k & Hk & Ek & Gk). exists k. split; [done|]. split; congruence.
Qed.

Lemma persists_same db db' : d_incidents db' = d_incidents db → persists db db'.
Proof. intros E i Hi. exists i. by rewrite E. Qed.

Lemma persists_kept db db' : Forall2 kept (d_incidents db) (d_incidents db') → persists db db'.
Proof.
  intros H i [k Hk]%list_elem_of_lookup. destruct (Forall2_lookup_l _ _ _ _ _ H Hk) as (j & Hj & E1 & E2 & _).
  exists j. by split; [eapply list_elem_of_lookup_2|].
Qed.

Lemma ensure_persists db inc reuse now x db' : ensureCorrelatedIncidentTx db inc reuse now = Ok (x, db') → persists db db'.
Proof.
  unfold ensureCorrelatedIncidentTx. intros H i Hi. exists i. split; [|done].
  repeat (case_match; simplify_eq/=; try done); apply elem_of_app; by left.
Qed.

Lemma occurrence_incidents db id o at_ occ db' :
  applyCorrelatedOccurrenceTx db id o at_ = Ok (occ, db') → d_incidents db' = d_incidents db.
Proof.
  unfold applyCorrelatedOccurrenceTx, insertCorrelatedOccurrenceTx, touchCorrelatedOccurrenceTx, check. intros H.
  repeat (case_match; simplify_eq/=; try done).
Qed.

Lemma attach_persists db id dl al occ at_ db' : attachCorrelatedDeliveryTx db id dl al occ at_ = Ok db' → persists db db'.
Proof.
  unfold attachCorrelatedDeliveryTx. case_match; [|done]. intros [= <-] i Hi. eexists.
  split; [apply elem_of_update_rows; by exists i|]. by case_match.
Qed.

Lemma apply_new_persists db m d opened now r db' : applyNewCorrelatedDelivery db m d opened now = Ok (r, db') → persists db db'.
Proof.
  intros (created&st&id&db1&occ&db2&db3&req&kind&res&db4&db5&n&E1&_&E2&E3&E4&E5&_&_&_&->&_)%apply_new_steps.
  etrans; [by eapply ensure_persists|]. etrans; [by eapply persists_same, occurrence_incidents|].
  etrans; [by eapply attach_persists|]. etrans; [eapply persists_kept, ok_incidents; by eapply kind_keep|].
  etrans; [|by apply (persists_same db5)]. subst db5. destruct (str_eqb _ "resolved"); [|reflexivity].
  eapply persists_kept, ok_incidents, reconcile_keep.
Qed.

Lemma accept_all_incidents ps db ds db' : accept_all db ps = Ok (ds, db') → d_incidents db' = d_incidents db.
Proof.
  revert db ds db'. induction ps as [|p ps IH]; intros db ds db'; simpl; [by intros [= _ <-]|].
  destruct (acceptDelivery db p) as [[d db1]|] eqn:E1; [|done]. simpl.
  destruct (accept_all db1 ps) as [[ds1 db2]|] eqn:E2; [|done]. simpl. intros [= _ <-]. rewrite (IH _ _ _ E2).
  unfold acceptDelivery, upsertDeliveryAlertTx, insertDeliveryTx in E1. repeat (case_match; simplify_eq/=; try done).
Qed.

Lemma prune_incidents fuel db before batch n db' :
  PruneOccurrences fuel db before batch = Some (n, db') → d_incidents db' = d_incidents db.
Proof.
  unfold PruneOccurrences. generalize (Z.to_nat (if (batch <=? 0)%Z then defaultPruneBatch else batch)) as b. intros b.
  revert db n. induction fuel as [|f IH]; intros db n; simpl; [done|]. case_match; intros; simplify_eq/=; [done|].
  destruct (prune_loop f _ _ _) as [[n1 db1]|] eqn:E; [|done]. simplify_eq/=. by rewrite (IH _ _ E).
Qed.

(** A transaction that succeeds found its delivery, without an owner. *)
Lemma apply_found db m opened now r db' :
  ledger_inv db → ApplyCorrelatedDelivery db m opened now = Ok (r, db') →
  ∃ d, find_delivery db (cm_DeliveryID m) = Some d ∧ is_ok (validateCorrelatedDeliveryMutation m) = true
       ∧ applyNewCorrelatedDelivery db m d opened now = Ok (r, db').
Proof.
  intros Hinv Happ. destruct (find_delivery db (cm_DeliveryID m)) as [d|] eqn:Hd.
  - exists d. destruct (apply_new_of _ _ _ _ _ _ _ Hinv Happ Hd) as (? & _ & ?). done.
  - exfalso. revert Happ. unfold ApplyCorrelatedDelivery. destruct (validateCorrelatedDeliveryMutation m); [|done]. simpl.
    destruct (verifyCorrelatedDispatchClaimTx _ _ _ _) eqn:Ec; [|done]. simpl. destruct (List.find _ _) as [o|] eqn:Eo; [|by rewrite Hd].
    apply (find_key ol_DeliveryID) in Eo as [Ho Eo]. exfalso. eapply (claimed_not_owned db); [done|by rewrite Ec|].
    rewrite <- Eo. by apply list_elem_of_fmap_2.
Qed.

Lemma apply_persists db m opened now r db' :
  ledger_inv db → ApplyCorrelatedDelivery db m opened now = Ok (r, db') → persists db db'.
Proof. intros Hinv (d & _ & _ & H)%apply_found; [|done]. by eapply apply_new_persists. Qed.

(** What a transaction that succeeds says of its Incident. *)
Lemma apply_answer db m opened now r db' :
  ledger_inv db → ApplyCorrelatedDelivery db m opened now = Ok (r, db') →
  let id := ic_ID (cr_Incident r) in
  let reuse := str_eqb (si_Kind (cm_Input m)) "incident_created" && bool_decide (cm_Occurrence m = None) in
  ic_GroupKey (cr_Incident r) = ic_GroupKey (cm_Incident m)
  ∧ cr_Incident r ∈ d_incidents db'
  ∧ (cr_Created r = true ∧ find_incident db id = None ∧ id = ic_ID (cm_Incident m)
     ∨ cr_Created r = false ∧ ∃ i, find_incident db id = Some i
       ∧ (id = ic_ID (cm_Incident m) ∨ reuse = true ∧ ic_GroupKey i = ic_GroupKey (cm_Incident m) ∧ ic_Status i = StatusCollecting)
       ∧ owner_permits db m id (ic_Status i) = true).
Proof.
  intros Hinv Happ id reuse. pose proof (apply_inv _ _ _ _ _ _ Hinv Happ) as Hinv'.
  apply apply_found in Happ as (d & Hd & Hv & Hnew); [|done]. pose proof (apply_result_id _ _ _ _ _ _ _ Hnew) as Hr.
  apply apply_new_steps in Hnew as (cr&st&id'&db1&occ&db2&db3&req&kind&res&db4&db5&n&E1&Hp&E2&E3&E4&E5&_&_&_&Edb&Ef&Ecr&_).
  assert (id' = id) as -> by (by apply find_incident_in in Ef as [_ <-]).
  destruct (ensure_inv _ _ _ _ _ _ _ _ Hinv E1) as (Hinv1&_&_&_&_&_&Et1&El1&_&(i&Hi&Ei&Eg&Es)).
  assert (Hpers : persists db1 db').
  { etrans; [by eapply persists_same, occurrence_incidents|]. etrans; [by eapply attach_persists|].
    etrans; [eapply persists_kept, ok_incidents; by eapply kind_keep|]. rewrite Edb.
    etrans; [|by apply (persists_same db5)]. subst db5. destruct (str_eqb _ "resolved"); [|reflexivity].
    eapply persists_kept, ok_incidents, reconcile_keep. }
  pose proof (find_incident_in _ _ _ Hr) as [Hin _]. split; [|split; [done|]].
  - destruct (Hpers i Hi) as (j & Hj & Ej & Gj). rewrite <- Eg, <- Gj. f_equal.
    apply (NoDup_fmap_inj ic_ID _ _ _ (li_incidents _ Hinv') Hin Hj). by rewrite Ej, Ei.
  - rewrite Ecr. destruct cr.
    + left. destruct (ensure_created _ _ _ _ _ _ _ E1) as (? & ? & _). done.
    + right. split; [done|]. destruct (ensure_found _ _ _ _ _ _ _ Hinv E1) as (k & Hk & Esk). exists k. split; [done|].
      unfold ensureCorrelatedIncidentTx in E1. split.
      * destruct (find_incident db (ic_ID (cm_Incident m))) as [x|] eqn:Ex.
        -- case_match; [|done]. left. by simplify_eq/=.
        -- fold reuse in E1. destruct reuse; [|by case_bool_decide]. destruct (head _) as [x|] eqn:Eh; [|by case_bool_decide].
           injection E1 as _ Eid _. apply head_Some_elem_of, elem_of_SliceStable, collecting_in_group in Eh as (Hx & Gx & Sx).
           rewrite <- Eid, (find_incident_some db x Hinv Hx) in Hk. injection Hk as <-. by right.
      * unfold owner_permits, terminalSituationOwnerTx, triageInBackoffTx in *. by rewrite Esk, <- Et1, <- El1.
Qed.

Lemma step_persists db db' : ledger_step db db' → ledger_inv db → persists db db'.
Proof.
  intros [] Hinv.
  - revert H. unfold AcceptDeliveries. destruct (prepareDeliveries l); [|done]. simpl. intros H.
    by eapply persists_same, accept_all_incidents.
  - revert H. unfold ClaimAlertDispatches. destruct (check _ _); [|done]. simpl. intros [= _ <-]. by apply persists_same.
  - revert H. unfold RetryAlertDispatch. destruct (match dp_LeaseOwner _ with Some _ => _ | None => _ end); [|done]. simpl.
    destruct (validateErrorClass class); [|done]. simpl. destruct (check _ _); [|done]. simpl. case_match; [|done]. intros [= <-]. by apply persists_same.
  - by eapply apply_persists.
  - eapply persists_kept, ok_incidents. by eapply ready_keep.
  - by eapply persists_same, prune_incidents.
  - by apply persists_same.
  - by eapply persists_kept, ok_incidents.
Qed.

Lemma steps_persist db db' : rtc ledger_step db db' → ledger_inv db → persists db db'.
Proof.
  induction 1 as [|a b c Hab _ IH]; intros Hinv; [reflexivity|]. etrans; [by apply step_persists|]. apply IH. by eapply step_keeps_inv.
Qed.

(** A transaction that succeeds gives its delivery one owner. *)
Lemma apply_owns db m opened now r db' :
  ledger_inv db → ApplyCorrelatedDelivery db m opened now = Ok (r, db') →
  ∃ occ, d_owners db' = d_owners db ++
    [{| ol_IncidentID := ic_ID (cr_Incident r); ol_DeliveryID := cm_DeliveryID m; ol_OccurrenceID := occ |}].
Proof.
  intros Hinv (d & _ & _ & Hnew)%apply_found; [|done]. pose proof (apply_result_id _ _ _ _ _ _ _ Hnew) as Hr.
  apply apply_new_steps in Hnew as (cr&st&id&db1&occ&db2&db3&req&kind&res&db4&db5&n&E1&_&E2&E3&E4&E5&_&_&_&Edb&Ef&_).
  apply find_incident_in in Ef as [_ Eid]. exists occ. rewrite Edb, Eid. simpl.
  assert (O1 : d_owners db1 = d_owners db).
  { clear -E1. unfold ensureCorrelatedIncidentTx in E1. repeat (case_match; simplify_eq/=; try done). }
  assert (O2 : d_owners db2 = d_owners db1).
  { clear -E2. unfold applyCorrelatedOccurrenceTx, insertCorrelatedOccurrenceTx, touchCorrelatedOccurrenceTx, check in E2.
    repeat (case_match; simplify_eq/=; try done). }
  assert (O3 : d_owners db3 = d_owners db2 ++ [{| ol_IncidentID := id; ol_DeliveryID := cm_DeliveryID m; ol_OccurrenceID := occ |}]).
  { clear -E3. unfold attachCorrelatedDeliveryTx in E3. case_match; [|done]. by injection E3 as <-. }
  assert (O5 : d_owners db5 = d_owners db4).
  { clear -E5. subst db5. destruct (str_eqb _ "resolved"); [|reflexivity]. apply (ok_owners _ _ (reconcile_keep _ _ _ _ _)). }
  by rewrite O5, (ok_owners _ _ (kind_keep _ _ _ _ _ _ _ _ _ E4)), O3, O2, O1.
Qed.
