(* ===== verification/Correlator.v ===== *)
(** * The correlator (internal/correlator: attach.go, correlator.go, dispatch.go)

    Where a delivery goes: the recurrence matrix, the chain of plans of
    [ApplyDelivery], each one a transaction of [Deliveries], the windows that
    close, and the worker that drains the dispatches.

    The other workers write between any two calls of the store, and any call
    may fail: [env] is what happened to the tables before the call of a given
    number, [fails] whether it fails.  The identities drawn at random and the
    clock are functions of that number.  The in-memory path of the package
    ([handleAlert]) is reached by no Receiver and is left out, as are the
    notifiers, which production does not set, and the log. *)

From stdpp Require Import prelude strings list gmap sorting.
From S2P Require Import Prelude Severity Grouping SituationModel TriageStore ErrorClass Deliveries DeliveryLedger.

(** ** Configuration *)

Record Config : Type := {
  cfg_WindowSeconds : Z;
  cfg_TickInterval : Duration;
  cfg_GroupLabels : list string;
  cfg_AttachWindow : Duration;
  cfg_JudgmentCeiling : Duration;
  cfg_OccurrenceCap : Z;
  cfg_Lookback : Duration
}.

Definition positive_or (d z : Z) : Z := if (z <=? 0)%Z then d else z.

Definition defaults (c : Config) : Config :=
  {| cfg_WindowSeconds := positive_or 60 (cfg_WindowSeconds c);
     cfg_TickInterval := positive_or (5 * Second) (cfg_TickInterval c);
     cfg_GroupLabels := cfg_GroupLabels c;
     cfg_AttachWindow := positive_or (30 * Minute) (cfg_AttachWindow c);
     cfg_JudgmentCeiling := positive_or (4 * Hour) (cfg_JudgmentCeiling c);
     cfg_OccurrenceCap := positive_or 100 (cfg_OccurrenceCap c);
     cfg_Lookback := positive_or (90 * 24 * Hour) (cfg_Lookback c) |}%Z.

(** ** Recurrence *)

Inductive attachAction : Set := actionNewIncident | actionRepeatTouch | actionAttach | actionEscalate.

#[export] Instance attachAction_eq_dec : EqDecision attachAction.
Proof. solve_decision. Defined.

Record attachInputs : Type := {
  ai_now : Time;
  ai_lastJudgedAt : Time;
  ai_lastActivity : Time;
  ai_occurrencesSinceJudged : Z;
  ai_isNewEpisode : bool;
  ai_incomingSeverityRank : Z;
  ai_incomingAlertname : string;
  ai_baselineSeverityRank : Z;
  ai_knownAlertnames : gset string;
  ai_episodeTimes : list Time;
  ai_attachWindow : Duration;
  ai_judgmentCeiling : Duration;
  ai_occurrenceCap : Z
}.

Record attachDecision : Type := {
  de_action : attachAction;
  de_trigger : string;
  de_cadenceInterval : Duration;
  de_cadenceMedian : Duration
}.

Definition verdict (a : attachAction) (t : string) : attachDecision :=
  {| de_action := a; de_trigger := t; de_cadenceInterval := 0; de_cadenceMedian := 0 |}%Z.

Definition medianDuration (ds : list Duration) : Duration :=
  match ds with
  | [] => 0%Z
  | _ =>
      let cp := SliceStable Z.ltb ds in
      let n := length cp in
      let nth k := default 0%Z (cp !! k) in
      if (n mod 2 =? 1)%nat then nth (n / 2)%nat
      else (Z.quot (dur_add (nth (n / 2 - 1)%nat) (nth (n / 2)%nat)) 2)%Z
  end.

Fixpoint intervals (ts : list Time) : list Duration :=
  match ts with
  | t :: ((u :: _) as ts') => Sub u t :: intervals ts'
  | _ => []
  end.

Definition last_n {A} (n : nat) (l : list A) : list A := drop (length l - n) l.

(** The newest interval and the median, and whether the trigger fires. *)
Definition cadenceDelta (now : Time) (episodeTimes : list Time) : Duration * Duration * bool :=
  if (length episodeTimes <? 4)%nat then (0, 0, false)%Z
  else
    let median := medianDuration (last_n 20 (intervals episodeTimes)) in
    if (median <=? 0)%Z then (0, 0, false)%Z
    else
      let newInterval := Sub now (default 0%Z (last episodeTimes)) in
      (newInterval, median, (dur_mul newInterval 8 <? median)%Z).

Definition decideAttach (i : attachInputs) : attachDecision :=
  if negb (ai_isNewEpisode i) then verdict actionRepeatTouch ""
  else if (ai_attachWindow i <? Sub (ai_now i) (ai_lastActivity i))%Z then verdict actionNewIncident ""
  else if (ai_baselineSeverityRank i <? ai_incomingSeverityRank i)%Z then verdict actionEscalate "severity"
  else if negb (str_eqb (ai_incomingAlertname i) "") && negb (bool_decide (ai_incomingAlertname i ∈ ai_knownAlertnames i))
  then verdict actionEscalate "new_alertname"
  else match cadenceDelta (ai_now i) (ai_episodeTimes i) with
       | (newInterval, median, true) =>
           {| de_action := actionEscalate; de_trigger := "cadence"; de_cadenceInterval := newInterval; de_cadenceMedian := median |}
       | _ =>
           if (ai_occurrenceCap i <=? wrap64 (ai_occurrencesSinceJudged i + 1))%Z then verdict actionEscalate "cap"
           else if (ai_judgmentCeiling i <? Sub (ai_now i) (ai_lastJudgedAt i))%Z then verdict actionEscalate "ceiling"
           else verdict actionAttach "none"
       end.

Record baselines : Type := {
  mb_maxSev : Z;
  mb_maxSevLabel : string;
  mb_known : gset string;
  mb_isMember : bool;
  mb_isDrill : bool
}.

Definition severity_of (a : Alert) : string := map_get (al_Labels a) "severity".
Definition alertname_of (a : Alert) : string := map_get (al_Labels a) "alertname".

Definition memberBaselines (members : list Alert) (incomingFP : string) : baselines :=
  foldl (λ b m,
    let louder := (mb_maxSev b <? Rank (severity_of m))%Z in
    {| mb_maxSev := if louder then Rank (severity_of m) else mb_maxSev b;
       mb_maxSevLabel := if louder then severity_of m else mb_maxSevLabel b;
       mb_known := if str_eqb (alertname_of m) "" then mb_known b else mb_known b ∪ {[ alertname_of m ]};
       mb_isMember := mb_isMember b || str_eqb (al_Fingerprint m) incomingFP;
       mb_isDrill := mb_isDrill b || IsDrillAlert m |})
    {| mb_maxSev := 0; mb_maxSevLabel := ""; mb_known := ∅; mb_isMember := false; mb_isDrill := false |}%Z members.

(** The explicit labels, else the Receiver's identity; whether they missed. *)
Definition groupKeySelection (c : Config) (a : Alert) : string * bool :=
  let selected := match cfg_GroupLabels c with [] => None | ls => Some (RenderSelectedLabels (al_Labels a) ls) end in
  let identity := default (al_GroupingIdentity a) selected in
  (Ensure identity (al_Labels a) (al_Fingerprint a), bool_decide (selected = Some "")).

(** ** The store and the other workers *)

(** The calls made, the tables, and the audit rows appended. *)
Record run : Type := { rn_calls : nat; rn_db : delivery_db; rn_audit : list (string * string) }.

(** A call that fails: its context ended, or anything else. *)
Inductive call_failure : Set := Cancelled | Unavailable.

#[export] Instance call_failure_eq_dec : EqDecision call_failure.
Proof. solve_decision. Defined.

Inductive correlate_error : Set :=
| ErrInvalidDelivery
| ErrCall (f : call_failure)
| ErrStore (e : delivery_error).

#[export] Instance correlate_error_eq_dec : EqDecision correlate_error.
Proof. solve_decision. Defined.

Definition C (A : Type) : Type := run → result correlate_error A * run.

#[export] Instance C_ret : MRet C := λ A a s, (Ok a, s).
#[export] Instance C_bind : MBind C := λ A B k m s,
  match m s with
  | (Ok a, s') => k a s'
  | (Err e, s') => (Err e, s')
  end.
Definition throw {A} (e : correlate_error) : C A := λ s, (Err e, s).

(** The source tests the errors of a commit it can do without. *)
Definition try_ {A} (m : C A) : C (result correlate_error A) := λ s, let '(r, s') := m s in (Ok r, s').

Inductive answer (A : Type) : Type := Found (a : A) | NotFound | Failed (f : call_failure).
Arguments Found {A} a.
Arguments NotFound {A}.
Arguments Failed {A} f.

Definition found {A} (o : option A) : answer A := match o with Some a => Found a | None => NotFound end.

Section correlator.
Context (cfg : Config) (env : nat → delivery_db → delivery_db) (fails : nat → option call_failure)
  (input_id incident_id : nat → string) (clock : nat → Time).

Definition called (s : run) : run := {| rn_calls := S (rn_calls s); rn_db := env (rn_calls s) (rn_db s); rn_audit := rn_audit s |}.

Definition query {A} (q : delivery_db → answer A) : C (answer A) := λ s,
  (Ok (match fails (rn_calls s) with Some f => Failed f | None => q (rn_db (called s)) end), called s).

Definition commit {A} (t : Time → delivery_db → result delivery_error (A * delivery_db)) : C A := λ s,
  match fails (rn_calls s) with
  | Some f => (Err (ErrCall f), called s)
  | None =>
      match t (clock (rn_calls s)) (rn_db (called s)) with
      | Ok (a, db') => (Ok a, {| rn_calls := rn_calls (called s); rn_db := db'; rn_audit := rn_audit s |})
      | Err e => (Err (ErrStore e), called s)
      end
  end.

Definition fresh_number : C nat := λ s, (Ok (rn_calls s), s).
Definition audit (kind incidentID : string) : C unit := λ s,
  (Ok tt, {| rn_calls := rn_calls s; rn_db := rn_db s; rn_audit := rn_audit s ++ [(kind, incidentID)] |}).

(** ** Plans *)

Definition correlatedDeliveryMutation (claim : claim_row) (inc : Incident) (occ : option Occurrence) (kind : string)
    (requireNonterminalOwner : bool) : C CorrelatedDeliveryMutation :=
  match dp_LeaseOwner claim.2 with
  | Some owner =>
      if str_eqb owner "" then throw ErrInvalidDelivery
      else
        let d := claim.1 in
        n ← fresh_number;
        mret {| cm_DeliveryID := ad_ID d; cm_DispatchOwner := owner; cm_DispatchClaimToken := dp_ClaimToken claim.2;
                cm_Incident := inc; cm_Occurrence := occ;
                cm_Input := {| si_ID := input_id n; si_IdempotencyKey := "delivery:" +:+ ad_ID d; si_IncidentID := ic_ID inc;
                               si_DeliveryID := Some (ad_ID d); si_Kind := kind; si_GroupKey := ic_GroupKey inc;
                               si_OccurredAt := ad_ReceivedAt d |};
                cm_RequireNonterminalOwner := requireNonterminalOwner; cm_RequireTriageBackoff := false |}
  | None => throw ErrInvalidDelivery
  end.

Definition requiring_backoff (m : CorrelatedDeliveryMutation) : CorrelatedDeliveryMutation :=
  {| cm_DeliveryID := cm_DeliveryID m; cm_DispatchOwner := cm_DispatchOwner m; cm_DispatchClaimToken := cm_DispatchClaimToken m;
     cm_Incident := cm_Incident m; cm_Occurrence := cm_Occurrence m; cm_Input := cm_Input m;
     cm_RequireNonterminalOwner := cm_RequireNonterminalOwner m; cm_RequireTriageBackoff := true |}.

Definition apply_plan (m : CorrelatedDeliveryMutation) : C CorrelatedDeliveryResult :=
  commit (λ now db, ApplyCorrelatedDelivery db m now now).

Definition applyExistingIncidentDeliveryPlan (claim : claim_row) (inc : Incident) (kind : string) (requireNonterminalOwner : bool)
    : C CorrelatedDeliveryResult :=
  m ← correlatedDeliveryMutation claim inc None kind requireNonterminalOwner; apply_plan m.

(** Whether a plan was taken: the owner may refuse it at the commit. *)
Definition unless_refused (m : C bool) : C bool :=
  r ← try_ m;
  match r with
  | Ok b => mret b
  | Err (ErrStore ErrIncidentOwnerNotCollapsible) => mret false
  | Err e => throw e
  end.

Definition applyResolvedMembershipDeliveryPlan (claim : claim_row) (a : Alert) : C bool :=
  i ← query (λ db, found (GetCurrentIncidentByAlertID db (al_ID a)));
  match i with
  | NotFound => mret false
  | Failed f => throw (ErrCall f)
  | Found inc =>
      unless_refused (_ ← applyExistingIncidentDeliveryPlan claim inc "membership_changed" true; mret true)
  end.

Definition fresh_incident (id gk : string) (a : Alert) : Incident :=
  {| ic_ID := id; ic_GroupKey := gk; ic_Status := StatusCollecting; ic_FirstAlertAt := al_ReceivedAt a;
     ic_LastAlertAt := al_ReceivedAt a; ic_ReadyAt := Add (al_ReceivedAt a) (dur_mul (cfg_WindowSeconds cfg) Second);
     ic_AlertCount := 0; ic_CreatedAt := 0; ic_LastJudgedAt := None |}%Z.

Definition applyFreshIncidentDeliveryPlan (claim : claim_row) (a : Alert) (gk : string) : C unit :=
  n ← fresh_number;
  _ ← applyExistingIncidentDeliveryPlan claim (fresh_incident (incident_id n) gk a) "incident_created" false;
  mret tt.

Definition applyResolvedDeliveryPlan (claim : claim_row) (a : Alert) (gk : string) : C unit :=
  i ← query (λ db, found (GetRecentIncidentByGroupKey db gk));
  match i with
  | NotFound => applyFreshIncidentDeliveryPlan claim a gk
  | Failed f => throw (ErrCall f)
  | Found inc => _ ← applyExistingIncidentDeliveryPlan claim inc "membership_changed" false; mret tt
  end.

Definition applyRetryAttachDeliveryPlan (claim : claim_row) (a : Alert) (gk : string) : C bool :=
  i ← query (λ db, found (GetBackoffIncidentByGroupKey db gk));
  match i with
  | NotFound | Failed _ => mret false
  | Found candidate =>
      ms ← query (λ db, Found (GetIncidentAlerts db (ic_ID candidate)));
      match ms with
      | NotFound | Failed _ => mret false
      | Found members =>
          if negb (eqb (IsDrillAlert a) (existsb IsDrillAlert members)) then mret false
          else
            m ← correlatedDeliveryMutation claim candidate None "membership_changed" true;
            unless_refused (
              r ← apply_plan (requiring_backoff m);
              _ ← (if existsb (has_fingerprint (al_Fingerprint a)) members then mret tt
                   else audit "incident.triage_member_attached" (ic_ID (cr_Incident r)));
              mret true)
      end
  end.

Record deliveryRecurrencePlan : Type := {
  pl_incident : Incident;
  pl_occurrence : option Occurrence;
  pl_isNewOccurrence : bool
}.

Definition seen_again (now : Time) (o : Occurrence) : Occurrence :=
  {| oc_ID := oc_ID o; oc_IncidentID := oc_IncidentID o; oc_OccurredAt := oc_OccurredAt o; oc_LastSeen := now;
     oc_Fingerprints := oc_Fingerprints o; oc_Payload := oc_Payload o; oc_TriggerKind := oc_TriggerKind o |}.

Definition new_occurrence (incidentID : string) (a : Alert) (trigger : string) : Occurrence :=
  {| oc_ID := 0; oc_IncidentID := incidentID; oc_OccurredAt := al_ReceivedAt a; oc_LastSeen := al_ReceivedAt a;
     oc_Fingerprints := [al_Fingerprint a]; oc_Payload := [(al_Fingerprint a, al_Labels a, al_Annotations a)];
     oc_TriggerKind := trigger |}%Z.

(** The facts of the decision, read off the candidate. *)
Definition recurrence_inputs (a : Alert) (candidate : Incident) (b : baselines) (latest : option Occurrence)
    (occSince : Z) (episodes : list Time) : attachInputs :=
  {| ai_now := al_ReceivedAt a;
     ai_lastJudgedAt := default (ic_FirstAlertAt candidate) (ic_LastJudgedAt candidate);
     ai_lastActivity := match latest with Some o => oc_LastSeen o | None => ic_LastAlertAt candidate end;
     ai_occurrencesSinceJudged := occSince; ai_isNewEpisode := true;
     ai_incomingSeverityRank := Rank (severity_of a); ai_incomingAlertname := alertname_of a;
     ai_baselineSeverityRank := mb_maxSev b; ai_knownAlertnames := mb_known b; ai_episodeTimes := episodes;
     ai_attachWindow := cfg_AttachWindow cfg; ai_judgmentCeiling := cfg_JudgmentCeiling cfg;
     ai_occurrenceCap := cfg_OccurrenceCap cfg |}.

Definition planned_recurrence (a : Alert) (candidate : Incident) (b : baselines) (latest : option Occurrence)
    (occSince : Z) (episodes : list Time) : option deliveryRecurrencePlan :=
  let d := decideAttach (recurrence_inputs a candidate b latest occSince episodes) in
  match de_action d with
  | actionNewIncident | actionRepeatTouch => None
  | actionAttach | actionEscalate =>
      Some {| pl_incident := candidate; pl_occurrence := Some (new_occurrence (ic_ID candidate) a (de_trigger d));
              pl_isNewOccurrence := true |}
  end.

Definition is_new_episode (candidate : Incident) (b : baselines) : bool :=
  has_status StatusResolved candidate || negb (mb_isMember b).

(** The rest of the plan, once the candidate, its members and its latest
    occurrence are read. *)
Definition judge_recurrence (a : Alert) (gk : string) (candidate : Incident) (b : baselines) (latest : option Occurrence)
    : C (option deliveryRecurrencePlan) :=
  let now := al_ReceivedAt a in
  if negb (is_new_episode candidate b) then
    mret (Some {| pl_incident := candidate; pl_occurrence := seen_again now <$> latest; pl_isNewOccurrence := false |})
  else
    let lastJudged := default (ic_FirstAlertAt candidate) (ic_LastJudgedAt candidate) in
    n ← query (λ db, Found (CountOccurrencesSince db (ic_ID candidate) lastJudged));
    match n with
    | NotFound | Failed _ => mret None
    | Found occSince =>
        ts ← query (λ db, Found (KeyEpisodeTimes db gk (Add now (- cfg_Lookback cfg)%Z)));
        match ts with
        | NotFound | Failed _ => mret None
        | Found episodes => mret (planned_recurrence a candidate b latest (Z.of_nat occSince) episodes)
        end
    end.

Definition planDeliveryRecurrence (a : Alert) (gk : string) : C (option deliveryRecurrencePlan) :=
  c ← query (λ db, found (GetRecentJudgedIncidentByGroupKey db gk));
  match c with
  | NotFound | Failed _ => mret None
  | Found candidate =>
      ms ← query (λ db, Found (GetIncidentAlerts db (ic_ID candidate)));
      match ms with
      | NotFound | Failed _ => mret None
      | Found members =>
          let b := memberBaselines members (al_Fingerprint a) in
          if negb (eqb (IsDrillAlert a) (mb_isDrill b)) then mret None
          else
            l ← query (λ db, found (LatestOccurrence db (ic_ID candidate)));
            match l with
            | Failed _ => mret None
            | NotFound => judge_recurrence a gk candidate b None
            | Found o => judge_recurrence a gk candidate b (Some o)
            end
      end
  end.

Definition applyRecurrenceDeliveryPlan (claim : claim_row) (a : Alert) (gk : string) : C bool :=
  p ← planDeliveryRecurrence a gk;
  match p with
  | None => mret false
  | Some plan =>
      m ← correlatedDeliveryMutation claim (pl_incident plan) (pl_occurrence plan) "membership_changed" true;
      unless_refused (
        r ← apply_plan m;
        _ ← (if pl_isNewOccurrence plan && bool_decide (is_Some (cr_Occurrence r))
             then audit "incident.occurrence_attached" (ic_ID (cr_Incident r)) else mret tt);
        mret true)
  end.

Definition applyDeliveryPlan (claim : claim_row) (a : Alert) (gk : string) : C unit :=
  let resolved := str_eqb (al_Status a) "resolved" in
  let firing := str_eqb (al_Status a) "firing" in
  handled ← (if resolved then applyResolvedMembershipDeliveryPlan claim a else mret false);
  if (handled : bool) then mret tt
  else
    i ← query (λ db, found (GetCollectingIncident db gk));
    match i with
    | Failed f => throw (ErrCall f)
    | Found inc => _ ← applyExistingIncidentDeliveryPlan claim inc "membership_changed" false; mret tt
    | NotFound =>
        if resolved then applyResolvedDeliveryPlan claim a gk
        else
          retried ← (if firing then applyRetryAttachDeliveryPlan claim a gk else mret false);
          if (retried : bool) then mret tt
          else
            recurred ← (if firing then applyRecurrenceDeliveryPlan claim a gk else mret false);
            if (recurred : bool) then mret tt else applyFreshIncidentDeliveryPlan claim a gk
    end.

Definition received_alert (d : AlertDelivery) : Alert :=
  let a := ad_Alert d in
  {| al_ID := al_ID a; al_Fingerprint := al_Fingerprint a; al_Status := al_Status a; al_Labels := al_Labels a;
     al_Annotations := al_Annotations a; al_StartsAt := al_StartsAt a; al_EndsAt := al_EndsAt a;
     al_ReceivedAt := ad_ReceivedAt d; al_GroupingIdentity := ad_GroupingIdentity d |}.

Definition ApplyDelivery (claim : claim_row) : C unit :=
  let d := claim.1 in
  if str_eqb (ad_ID d) "" || str_eqb (al_ID (ad_Alert d)) "" || str_eqb (al_Fingerprint (ad_Alert d)) "" || IsZero (ad_ReceivedAt d)
  then throw ErrInvalidDelivery
  else let a := received_alert d in applyDeliveryPlan claim a (groupKeySelection cfg a).1.

(** ** Windows *)

(** The windows whose deadline has passed, each in a transaction of its own. *)
Definition flush_one (now : Time) (i : Incident) : C unit :=
  if Before now (ic_ReadyAt i) then mret tt
  else
    _ ← try_ (commit (λ _ db, let? db' := MarkIncidentReadyWithSituationInput db (ic_ID i) now in Ok (tt, db')));
    mret tt.

Fixpoint flush_all (now : Time) (l : list Incident) : C unit :=
  match l with [] => mret tt | i :: l' => _ ← flush_one now i; flush_all now l' end.

(** Each DELETE is a transaction of its own; nothing writes to the occurrences
    between them that could keep the loop going, so they are one commit here. *)
Definition pruneOldOccurrences : C unit :=
  _ ← try_ (commit (λ now db,
        match PruneOccurrences (S (length (d_occurrences db))) db (Add now (- cfg_Lookback cfg)%Z) 0 with
        | Some (n, db') => Ok (n, db')
        | None => Err ErrDeliveryConstraint
        end));
  mret tt.

(** The count of the flushes and how many pass between two prunes. *)
Definition pruneEvery : Z := Z.max 1 (Z.quot Hour (cfg_TickInterval cfg)).

(** The next count of the flushes. *)
Definition flushExpired (flushCount : Z) (now : Time) : C Z :=
  l ← query (λ db, Found (ListCollectingIncidents db));
  match l with
  | Failed f => throw (ErrCall f)
  | NotFound => mret flushCount
  | Found incs =>
      _ ← flush_all now incs;
      let flushCount := wrap64 (flushCount + 1) in
      _ ← (if ((0 <? pruneEvery) && (Z.rem flushCount pruneEvery =? 0))%Z then pruneOldOccurrences else mret tt);
      mret flushCount
  end.

(** ** The dispatch worker *)

Record WorkerConfig : Type := {
  wc_Owner : string;
  wc_Lease : Duration;
  wc_Interval : Duration;
  wc_Batch : Z;
  wc_MaxAttempts : Z
}.

Definition withDefaults (c : WorkerConfig) : WorkerConfig :=
  {| wc_Owner := wc_Owner c; wc_Lease := positive_or (60 * Second) (wc_Lease c);
     wc_Interval := positive_or (2 * Second) (wc_Interval c); wc_Batch := positive_or 16 (wc_Batch c);
     wc_MaxAttempts := positive_or 8 (wc_MaxAttempts c) |}%Z.

Definition dispatchRetryBase : Duration := Second.
Definition dispatchRetryCap : Duration := (5 * Minute)%Z.

Definition dispatchRetryBackoff (attempt : Z) : Duration :=
  let attempt := if (attempt <? 1)%Z then 1%Z else attempt in
  if (32 <? attempt)%Z then dispatchRetryCap
  else
    let d := dur_mul dispatchRetryBase (Z.shiftl 1 (attempt - 1)) in
    if ((d <=? 0) || (dispatchRetryCap <? d))%Z then dispatchRetryCap else d.

(** The class kept with the row, and whether the failure is final. *)
Definition dispatchErrorClass (e : correlate_error) : string * bool :=
  match e with
  | ErrInvalidDelivery | ErrStore ErrDeliveryNotFound => ("invalid_delivery", true)
  | _ => ("transient", false)
  end.

Definition stops_round (e : correlate_error) : bool :=
  match e with ErrCall Cancelled | ErrStore ErrAlertDispatchLeaseLost => true | _ => false end.

Context (wcfg : WorkerConfig).

(** The error that stops the round. A context that ended fails the next claim,
    which is where [Drain] notices it. *)
Definition applyOne (claim : claim_row) : C (option correlate_error) :=
  r ← try_ (ApplyDelivery claim);
  match r with
  | Ok _ => mret None
  | Err e =>
      if stops_round e then mret (Some e)
      else
        let '(class, final) := dispatchErrorClass e in
        let terminal := final || (wc_MaxAttempts wcfg <=? dp_AttemptCount claim.2)%Z in
        n ← fresh_number;
        let now := clock n in
        let retryAt := if terminal then now else Add now (dispatchRetryBackoff (dp_AttemptCount claim.2)) in
        _ ← try_ (commit (λ _ db, let? db' := RetryAlertDispatch db claim class retryAt terminal in Ok (tt, db')));
        mret None
  end.

(** How many were handled, and the error that stopped the round. *)
Fixpoint apply_each (claims : list claim_row) : C (nat * option correlate_error) :=
  match claims with
  | [] => mret (0%nat, None)
  | c :: cs =>
      stop ← applyOne c;
      match stop with
      | Some e => mret (0%nat, Some e)
      | None => '(n, e) ← apply_each cs; mret (S n, e)
      end
  end.

Definition RunOnce : C (nat * option correlate_error) :=
  r ← try_ (commit (λ now db, ClaimAlertDispatches db (wc_Owner wcfg) now (wc_Lease wcfg) (wc_Batch wcfg)));
  match r with
  | Err e => mret (0%nat, Some e)
  | Ok claims => apply_each claims
  end.

(** Rounds until one handles nothing; [fuel] counts them. *)
Fixpoint Drain (fuel : nat) : C (option (nat * option correlate_error)) :=
  match fuel with
  | O => mret None
  | S f =>
      '(n, e) ← RunOnce;
      match e with
      | Some e => mret (Some (n, Some e))
      | None =>
          if (n =? 0)%nat then mret (Some (0%nat, None))
          else
            r ← Drain f;
            mret ((λ x : nat * option correlate_error, ((n + x.1)%nat, x.2)) <$> r)
      end
  end.
End correlator.

(** ** The recurrence matrix *)

(** The cadence of a key broke: its episodes came at a known pace, and this one
    came more than eight times as fast. *)
Definition cadence_broke (i : attachInputs) : Prop :=
  (4 ≤ length (ai_episodeTimes i))%nat
  ∧ (0 < medianDuration (last_n 20 (intervals (ai_episodeTimes i))))%Z
  ∧ ((Sub (ai_now i) (default 0 (last (ai_episodeTimes i)))) * 8 < medianDuration (last_n 20 (intervals (ai_episodeTimes i))))%Z.

(** An eighth of the span of an [int64]: 36 years. *)
Definition sane_interval (d : Duration) : Prop := in_int64 (d * 8)%Z.

Lemma cadenceDelta_spec i :
  sane_interval (Sub (ai_now i) (default 0%Z (last (ai_episodeTimes i)))) →
  (cadenceDelta (ai_now i) (ai_episodeTimes i)).2 = true ↔ cadence_broke i.
Proof.
  intros Hs. unfold cadenceDelta, cadence_broke. destruct (length (ai_episodeTimes i) <? 4)%nat eqn:El.
  { apply Nat.ltb_lt in El. split; [done|]. intros [? _]. lia. }
  apply Nat.ltb_ge in El. destruct (medianDuration _ <=? 0)%Z eqn:Em; go_bool; simpl.
  { split; [done|]. intros (_ & ? & _). lia. }
  unfold dur_mul. rewrite wrap64_id by done. rewrite Z.ltb_lt. tauto.
Qed.

Definition in_horizon (i : attachInputs) : Prop := (Sub (ai_now i) (ai_lastActivity i) ≤ ai_attachWindow i)%Z.
Definition louder (i : attachInputs) : Prop := (ai_baselineSeverityRank i < ai_incomingSeverityRank i)%Z.
Definition newcomer (i : attachInputs) : Prop :=
  ai_incomingAlertname i ≠ "" ∧ ai_incomingAlertname i ∉ ai_knownAlertnames i.
Definition capped (i : attachInputs) : Prop := (ai_occurrenceCap i ≤ ai_occurrencesSinceJudged i + 1)%Z.
Definition overdue (i : attachInputs) : Prop := (ai_judgmentCeiling i < Sub (ai_now i) (ai_lastJudgedAt i))%Z.

(** The triggers, in the order of their priority. *)
Definition triggers (i : attachInputs) : list (Prop * string) :=
  [(louder i, "severity"); (newcomer i, "new_alertname"); (cadence_broke i, "cadence"); (capped i, "cap"); (overdue i, "ceiling")].

(** [t] is the name of the first trigger that holds. *)
Fixpoint first_trigger (l : list (Prop * string)) (t : string) : Prop :=
  match l with
  | [] => False
  | (P, n) :: l' => (P ∧ t = n) ∨ (¬ P ∧ first_trigger l' t)
  end.

Lemma first_trigger_unique l t u : first_trigger l t → first_trigger l u → t = u.
Proof. induction l as [|[P n] l IH]; simpl; [done|]. intros [[? ->]|[? ?]] [[? ->]|[? ?]]; try done. by apply IH. Qed.

Lemma first_trigger_some l t : first_trigger l t → ¬ Forall (λ p : Prop * string, ¬ p.1) l.
Proof. induction l as [|[P n] l IH]; simpl; [done|]. intros [[? _]|[? ?]] [? ?]%Forall_cons; [done|by apply IH]. Qed.

Lemma decide_in_horizon i :
  sane_interval (Sub (ai_now i) (default 0%Z (last (ai_episodeTimes i)))) → in_int64 (ai_occurrencesSinceJudged i + 1)%Z →
  ai_isNewEpisode i = true → in_horizon i →
  (de_action (decideAttach i) = actionEscalate ∧ first_trigger (triggers i) (de_trigger (decideAttach i)))
  ∨ (de_action (decideAttach i) = actionAttach ∧ de_trigger (decideAttach i) = "none"
     ∧ Forall (λ p : Prop * string, ¬ p.1) (triggers i)).
Proof.
  intros Hs Ho Hn Hh. pose proof (cadenceDelta_spec i Hs) as Hc. unfold decideAttach, triggers, in_horizon, louder in *.
  rewrite Hn. simpl. rewrite (proj2 (Z.ltb_ge _ _) Hh).
  destruct (_ <? ai_incomingSeverityRank i)%Z eqn:E1; go_bool; [left; simpl; auto|].
  assert (H1 : ¬ (ai_baselineSeverityRank i < ai_incomingSeverityRank i)%Z) by lia.
  destruct (negb _ && negb _) eqn:E2.
  { left. split; [done|]. right. split; [done|]. left. split; [|done]. unfold newcomer, str_eqb in *.
    by rewrite andb_true_iff, !negb_true_iff, bool_decide_eq_false, String.eqb_neq in E2. }
  assert (H2 : ¬ newcomer i).
  { intros [Ha Hb]. apply not_true_iff_false in E2. destruct E2. unfold str_eqb.
    by rewrite andb_true_iff, !negb_true_iff, bool_decide_eq_false, String.eqb_neq. }
  destruct (cadenceDelta _ _) as [[n m] []]; simpl in Hc.
  { left. split; [done|]. do 2 (right; split; [done|]). left. split; [by apply Hc|done]. }
  assert (H3 : ¬ cadence_broke i) by (intros ?%Hc; done).
  rewrite wrap64_id by done. destruct (ai_occurrenceCap i <=? _)%Z eqn:E4; go_bool.
  { left. split; [done|]. do 3 (right; split; [done|]). left. done. }
  assert (H4 : ¬ capped i) by (unfold capped; lia).
  destruct (ai_judgmentCeiling i <? _)%Z eqn:E5; go_bool.
  { left. split; [done|]. do 4 (right; split; [done|]). left. done. }
  right. split; [done|]. split; [done|]. repeat constructor; simpl; try done. unfold overdue. lia.
Qed.

(** The recurrence matrix: an unchanged repeat only slides a time; a new
    episode outside the window opens an Incident; inside it, it is judged again
    exactly when a trigger holds - a louder severity, a new alertname, a broken
    cadence, the cap of occurrences, a judgment past its ceiling - and the row
    keeps the first of them; only when none holds does it collapse unseen. *)
Theorem decideAttach_spec i :
  sane_interval (Sub (ai_now i) (default 0%Z (last (ai_episodeTimes i)))) → in_int64 (ai_occurrencesSinceJudged i + 1)%Z →
  let d := decideAttach i in
  (de_action d = actionRepeatTouch ↔ ai_isNewEpisode i = false)
  ∧ (de_action d = actionNewIncident ↔ ai_isNewEpisode i = true ∧ ¬ in_horizon i)
  ∧ (de_action d = actionAttach ↔ ai_isNewEpisode i = true ∧ in_horizon i ∧ Forall (λ p : Prop * string, ¬ p.1) (triggers i))
  ∧ (∀ t, de_action d = actionEscalate ∧ de_trigger d = t ↔
          ai_isNewEpisode i = true ∧ in_horizon i ∧ first_trigger (triggers i) t)
  ∧ (de_action d = actionAttach → de_trigger d = "none").
Proof.
  intros Hs Ho d. destruct (ai_isNewEpisode i) eqn:En.
  - destruct (decide (Sub (ai_now i) (ai_lastActivity i) ≤ ai_attachWindow i)%Z) as [Hh|Hh].
    + destruct (decide_in_horizon i Hs Ho En Hh) as [[Ha Hf]|(Ha & Ht & Hf)]; fold d in Ha; fold d in Hf; try fold d in Ht;
        rewrite Ha; (split; [done|]); (split; [by split; [|intros [_ []]]|]); (split; [|split; [|done]]).
      * split; [done|]. intros (_ & _ & H). by apply first_trigger_some in Hf.
      * intros t. split; [intros [_ <-]; done|]. intros (_ & _ & Hf'). split; [done|]. by eapply first_trigger_unique.
      * done.
      * intros t. split; [by intros [? _]|]. intros (_ & _ & Hf'). by apply first_trigger_some in Hf'.
    + assert (Ed : d = verdict actionNewIncident "").
      { unfold d, decideAttach. rewrite En. simpl. by rewrite (proj2 (Z.ltb_lt _ _)) by (unfold Duration in *; lia). }
      rewrite Ed. unfold in_horizon. simpl. repeat split; try done; intros; destruct_and?; done.
  - assert (Ed : d = verdict actionRepeatTouch "") by (unfold d, decideAttach; by rewrite En).
    rewrite Ed. simpl. repeat split; try done; intros; destruct_and?; done.
Qed.

(** ** Backoff *)

Lemma backoff_small k : (1 ≤ k ≤ 9)%Z → dispatchRetryBackoff k = (Second * 2 ^ (k - 1))%Z.
Proof.
  intros H. assert (Hk : k ∈ [1; 2; 3; 4; 5; 6; 7; 8; 9]%Z) by (rewrite !elem_of_cons, elem_of_nil; lia).
  repeat (apply elem_of_cons in Hk as [->|Hk]; [by vm_compute|]). set_solver.
Qed.

Lemma backoff_large k : (10 ≤ k)%Z → dispatchRetryBackoff k = dispatchRetryCap.
Proof.
  intros H. unfold dispatchRetryBackoff. rewrite (proj2 (Z.ltb_ge k 1)) by lia. destruct (32 <? k)%Z eqn:E; [done|]. go_bool.
  assert (Hk : (512 ≤ 2 ^ (k - 1) ≤ 2 ^ 31)%Z).
  { split; [change 512%Z with (2 ^ 9)%Z|]; apply Z.pow_le_mono_r; lia. }
  assert (H31 : (2 ^ 31 = 2147483648)%Z) by done. rewrite H31 in Hk.
  rewrite Z.shiftl_1_l. unfold dur_mul. rewrite wrap64_id by (unfold in_int64, int64_min, int64_max, dispatchRetryBase, Second; lia).
  rewrite (proj2 (Z.leb_gt _ _)) by (unfold dispatchRetryBase, Second; lia).
  by rewrite (proj2 (Z.ltb_lt _ _)) by (unfold dispatchRetryCap, dispatchRetryBase, Second, Minute; lia).
Qed.

(** A second doubled with each attempt, five minutes at most. *)
Lemma dispatchRetryBackoff_spec k :
  dispatchRetryBackoff k = Z.min (5 * Minute) (Second * 2 ^ (Z.max 1 k - 1))%Z.
Proof.
  destruct (Z_lt_le_dec k 1).
  - unfold dispatchRetryBackoff. rewrite (proj2 (Z.ltb_lt k 1)) by lia. rewrite Z.max_l by lia. by vm_compute.
  - rewrite Z.max_r by lia. destruct (Z_le_gt_dec k 9) as [H9|H9].
    + rewrite backoff_small by lia. rewrite Z.min_r; [done|].
      assert (2 ^ (k - 1) ≤ 2 ^ 8)%Z by (apply Z.pow_le_mono_r; lia). change (2 ^ 8)%Z with 256%Z in *.
      unfold Second, Minute. lia.
    + rewrite backoff_large by lia. rewrite Z.min_l; [done|].
      assert (2 ^ 9 ≤ 2 ^ (k - 1))%Z by (apply Z.pow_le_mono_r; lia). change (2 ^ 9)%Z with 512%Z in *.
      unfold Second, Minute. lia.
Qed.

Lemma backoff_bounds k : (Second ≤ dispatchRetryBackoff k ≤ dispatchRetryCap)%Z.
Proof.
  rewrite dispatchRetryBackoff_spec. assert (1 ≤ 2 ^ (Z.max 1 k - 1))%Z by (apply (Z.pow_le_mono_r 2 0); lia).
  unfold dispatchRetryCap, Second, Minute. lia.
Qed.

(** ** Runs *)

(** The transactions of the correlator and its worker. *)
Inductive transaction (db : delivery_db) : delivery_db → Prop :=
| tx_claim owner now lease limit rows db' : ClaimAlertDispatches db owner now lease limit = Ok (rows, db') → transaction db db'
| tx_retry claim class at_ terminal db' : RetryAlertDispatch db claim class at_ terminal = Ok db' → transaction db db'
| tx_apply m opened now r db' : ApplyCorrelatedDelivery db m opened now = Ok (r, db') → transaction db db'
| tx_ready id now db' : MarkIncidentReadyWithSituationInput db id now = Ok db' → transaction db db'
| tx_prune fuel before batch n db' : PruneOccurrences fuel db before batch = Some (n, db') → transaction db db'.

Lemma transaction_step db db' : transaction db db' → ledger_step db db'.
Proof. intros []; [by eapply ls_claim|by eapply ls_retry|by eapply ls_apply|by eapply ls_ready|by eapply ls_prune]. Qed.

Section steps.
Context (cfg : Config) (env : nat → delivery_db → delivery_db) (fails : nat → option call_failure)
  (input_id incident_id : nat → string) (clock : nat → Time).
(** A relation that has the transactions, and what the others do is steps of it. *)
Context (R : delivery_db → delivery_db → Prop) (Hown : ∀ db db', transaction db db' → R db db').
Context (Henv : ∀ n db, rtc R db (env n db)).

Abbreviation query := (query env fails).
Abbreviation commit := (commit env fails clock).
Abbreviation correlatedDeliveryMutation := (correlatedDeliveryMutation input_id).
Abbreviation applyExistingIncidentDeliveryPlan := (applyExistingIncidentDeliveryPlan env fails input_id clock).
Abbreviation apply_plan := (apply_plan env fails clock).
Abbreviation ApplyDelivery := (ApplyDelivery cfg env fails input_id incident_id clock).

Definition follows (s s' : run) : Prop := rtc R (rn_db s) (rn_db s').

#[local] Instance follows_preorder : PreOrder follows.
Proof. split; unfold follows; [intros s; apply rtc_refl|]. intros a b c ??. by etrans. Qed.

(** A computation whose writes are such steps. *)
Definition Steps {A} (m : C A) : Prop := ∀ s r s', m s = (r, s') → follows s s'.

Lemma called_follows s : follows s (called env s).
Proof. apply Henv. Qed.

Lemma follows_ret {A} (a : A) : Steps (mret a).
Proof. intros s r s' [= _ <-]. reflexivity. Qed.
Lemma follows_throw {A} e : Steps (throw (A := A) e).
Proof. intros s r s' [= _ <-]. reflexivity. Qed.
Lemma follows_fresh : Steps fresh_number.
Proof. intros s r s' [= _ <-]. reflexivity. Qed.
Lemma follows_audit k i : Steps (audit k i).
Proof. intros s r s' [= _ <-]. unfold follows. simpl. apply rtc_refl. Qed.
Lemma follows_query {A} (q : delivery_db → answer A) : Steps (query q).
Proof. intros s r s' [= _ <-]. apply called_follows. Qed.

Lemma follows_bind {A B} (m : C A) (k : A → C B) : Steps m → (∀ a, Steps (k a)) → Steps (m ≫= k).
Proof.
  intros Hm Hk s r s'. unfold mbind, C_bind. destruct (m s) as [[a|e] s1] eqn:E; [|by intros [= _ <-]; eapply Hm].
  intros H. etrans; [by eapply Hm|by eapply Hk].
Qed.

Lemma follows_try {A} (m : C A) : Steps m → Steps (try_ m).
Proof. intros Hm s r s'. unfold try_. destruct (m s) as [r1 s1] eqn:E. intros [= _ <-]. by eapply Hm. Qed.

Lemma follows_commit {A} (t : Time → delivery_db → result delivery_error (A * delivery_db)) :
  (∀ now db a db', t now db = Ok (a, db') → R db db') → Steps (commit t).
Proof.
  intros Ht s r s'. unfold Correlator.commit. destruct (fails (rn_calls s)); [intros [= _ <-]; apply called_follows|].
  destruct (t _ _) as [[a db']|e] eqn:E; intros [= _ <-]; [|apply called_follows].
  etrans; [apply called_follows|]. unfold follows. simpl. eapply rtc_once, Ht, E.
Qed.

Lemma follows_apply m : Steps (apply_plan m).
Proof. apply follows_commit. intros now db a db' H. by eapply Hown, tx_apply. Qed.

Lemma follows_mutation claim inc occ kind req : Steps (correlatedDeliveryMutation claim inc occ kind req).
Proof.
  unfold Correlator.correlatedDeliveryMutation. destruct (dp_LeaseOwner _); [|apply follows_throw]. case_match; [apply follows_throw|].
  apply follows_bind; [apply follows_fresh|]. intros. apply follows_ret.
Qed.

Lemma follows_existing claim inc kind req : Steps (applyExistingIncidentDeliveryPlan claim inc kind req).
Proof. apply follows_bind; [apply follows_mutation|]. intros. apply follows_apply. Qed.

Lemma follows_refused m : Steps m → Steps (unless_refused m).
Proof.
  intros H. apply follows_bind; [by apply follows_try|]. intros [b|[| |[]]]; first [apply follows_ret|apply follows_throw].
Qed.

Create HintDb follows.
#[local] Hint Resolve follows_ret follows_throw follows_fresh follows_audit follows_query follows_bind follows_try follows_apply
  follows_mutation follows_existing follows_refused : follows.

Ltac follows :=
  repeat first
    [ progress intros
    | progress eauto 2 with follows
    | apply follows_bind
    | apply follows_try
    | case_match ].

Lemma follows_ApplyDelivery claim : Steps (ApplyDelivery claim).
Proof.
  unfold Correlator.ApplyDelivery, applyDeliveryPlan, applyResolvedMembershipDeliveryPlan, applyResolvedDeliveryPlan,
    applyFreshIncidentDeliveryPlan, applyRetryAttachDeliveryPlan, applyRecurrenceDeliveryPlan, planDeliveryRecurrence, judge_recurrence.
  follows.
Qed.

(** The runs of the worker and of the windows are steps too. *)
Lemma follows_retry claim class at_ terminal :
  Steps (commit (λ _ db, let? db' := RetryAlertDispatch db claim class at_ terminal in Ok (tt, db'))).
Proof.
  apply follows_commit. intros now db a db' H. destruct (RetryAlertDispatch _ _ _ _ _) as [x|] eqn:E; [|done].
  injection H as _ <-. by eapply Hown, tx_retry.
Qed.

Lemma follows_applyOne w claim : Steps (applyOne cfg env fails input_id incident_id clock w claim).
Proof.
  unfold applyOne. apply follows_bind; [apply follows_try, follows_ApplyDelivery|]. intros [[]|e]; [apply follows_ret|].
  destruct (stops_round e); [apply follows_ret|]. destruct (dispatchErrorClass e). apply follows_bind; [apply follows_fresh|]. intros n.
  apply follows_bind; [apply follows_try, follows_retry|]. intros. apply follows_ret.
Qed.

Lemma follows_each w claims : Steps (apply_each cfg env fails input_id incident_id clock w claims).
Proof.
  induction claims as [|c cs IH]; simpl; [apply follows_ret|]. apply follows_bind; [apply follows_applyOne|]. intros [e|]; [apply follows_ret|].
  apply follows_bind; [exact IH|]. intros []. apply follows_ret.
Qed.

Lemma follows_RunOnce w : Steps (RunOnce cfg env fails input_id incident_id clock w).
Proof.
  apply follows_bind; [apply follows_try, follows_commit; intros now db a db' H; by eapply Hown, tx_claim|].
  intros [cs|e]; [apply follows_each|apply follows_ret].
Qed.

Lemma follows_Drain w fuel : Steps (Drain cfg env fails input_id incident_id clock w fuel).
Proof.
  induction fuel as [|f IH]; simpl; [apply follows_ret|]. apply follows_bind; [apply follows_RunOnce|]. intros [n [e|]]; [apply follows_ret|].
  case_match; [apply follows_ret|]. apply follows_bind; [exact IH|]. intros. apply follows_ret.
Qed.

Lemma follows_prune : Steps (pruneOldOccurrences cfg env fails clock).
Proof.
  apply follows_bind; [|intros; apply follows_ret]. apply follows_try, follows_commit. intros t db a db' H.
  destruct (PruneOccurrences _ _ _ _) as [[n x]|] eqn:E; [|done]. injection H as _ <-. by eapply Hown, tx_prune.
Qed.

Lemma follows_flush_all now l : Steps (flush_all env fails clock now l).
Proof.
  induction l as [|i l IH]; simpl; [apply follows_ret|]. apply follows_bind; [|intros; apply IH]. unfold flush_one.
  case_match; [apply follows_ret|]. apply follows_bind; [|intros; apply follows_ret]. apply follows_try, follows_commit.
  intros t db a db' H'. destruct (MarkIncidentReadyWithSituationInput _ _ _) as [x|] eqn:E; [|done]. injection H' as _ <-. by eapply Hown, tx_ready.
Qed.

Lemma follows_flush k now : Steps (flushExpired cfg env fails clock k now).
Proof.
  apply follows_bind; [apply follows_query|]. intros [l| |f]; [|apply follows_ret|apply follows_throw].
  apply follows_bind; [apply follows_flush_all|]. intros _. cbv zeta. apply follows_bind; [|intros; apply follows_ret].
  case_match; [apply follows_prune|apply follows_ret].
Qed.

Lemma follows_retry_plan claim a gk s b s' (c : bool) :
  (if c then applyRetryAttachDeliveryPlan env fails input_id clock claim a gk else mret false) s = (b, s') → follows s s'.
Proof. enough (H : Steps (if c then applyRetryAttachDeliveryPlan env fails input_id clock claim a gk else mret false)) by apply H.
  unfold applyRetryAttachDeliveryPlan. follows. Qed.

Lemma follows_recur claim a gk s b s' (c : bool) :
  (if c then applyRecurrenceDeliveryPlan cfg env fails input_id clock claim a gk else mret false) s = (b, s') → follows s s'.
Proof. enough (H : Steps (if c then applyRecurrenceDeliveryPlan cfg env fails input_id clock claim a gk else mret false)) by apply H.
  unfold applyRecurrenceDeliveryPlan, planDeliveryRecurrence, judge_recurrence. follows. Qed.

Lemma follows_member claim a s b s' (c : bool) :
  (if c then applyResolvedMembershipDeliveryPlan env fails input_id clock claim a else mret false) s = (b, s') → follows s s'.
Proof. enough (H : Steps (if c then applyResolvedMembershipDeliveryPlan env fails input_id clock claim a else mret false)) by apply H.
  unfold applyResolvedMembershipDeliveryPlan. follows. Qed.

End steps.

Section runs.
Context (cfg : Config) (env : nat → delivery_db → delivery_db) (fails : nat → option call_failure)
  (input_id incident_id : nat → string) (clock : nat → Time).
(** What the others do is steps of the ledger. *)
Context (Henv : ∀ n db, rtc ledger_step db (env n db)).

Abbreviation query := (query env fails).
Abbreviation commit := (commit env fails clock).
Abbreviation correlatedDeliveryMutation := (correlatedDeliveryMutation input_id).
Abbreviation applyExistingIncidentDeliveryPlan := (applyExistingIncidentDeliveryPlan env fails input_id clock).
Abbreviation apply_plan := (apply_plan env fails clock).
Abbreviation ApplyDelivery := (ApplyDelivery cfg env fails input_id incident_id clock).
Abbreviation reaches := (follows ledger_step).

#[local] Instance reaches_preorder : PreOrder reaches.
Proof. apply follows_preorder. Qed.

Lemma called_reaches s : reaches s (called env s).
Proof. by apply called_follows. Qed.

Lemma steps_query {A} (q : delivery_db → answer A) : Steps ledger_step (query q).
Proof. by apply follows_query. Qed.

Lemma Steps_retry claim a gk s b s' (c : bool) :
  (if c then applyRetryAttachDeliveryPlan env fails input_id clock claim a gk else mret false) s = (b, s') → reaches s s'.
Proof. apply follows_retry_plan; [apply transaction_step|done]. Qed.

Lemma Steps_recur claim a gk s b s' (c : bool) :
  (if c then applyRecurrenceDeliveryPlan cfg env fails input_id clock claim a gk else mret false) s = (b, s') → reaches s s'.
Proof. apply follows_recur; [apply transaction_step|done]. Qed.

Lemma Steps_member claim a s b s' (c : bool) :
  (if c then applyResolvedMembershipDeliveryPlan env fails input_id clock claim a else mret false) s = (b, s') → reaches s s'.
Proof. apply follows_member; [apply transaction_step|done]. Qed.

(** ** Routes *)

Lemma C_bind_ok {A B} (m : C A) (k : A → C B) s b s' :
  (m ≫= k) s = (Ok b, s') → ∃ a s1, m s = (Ok a, s1) ∧ k a s1 = (Ok b, s').
Proof. unfold mbind, C_bind. destruct (m s) as [[a|e] s1]; [|done]. intros H. by exists a, s1. Qed.

Lemma query_found {A} (q : delivery_db → answer A) s a s' :
  query q s = (Ok (Found a), s') → s' = called env s ∧ q (rn_db s') = Found a.
Proof. unfold Correlator.query. intros [= H <-]. split; [done|]. by destruct (fails (rn_calls s)). Qed.

Lemma found_some {A} (o : option A) a : found o = Found a → o = Some a.
Proof. destruct o; [|done]. by intros [= ->]. Qed.

(** The mutation of a plan for a claim. *)
Definition plan_of (claim : claim_row) (inc : Incident) (occ : option Occurrence) (kind : string) (req backoff : bool)
    (m : CorrelatedDeliveryMutation) : Prop :=
  cm_DeliveryID m = ad_ID claim.1 ∧ dp_LeaseOwner claim.2 = Some (cm_DispatchOwner m)
  ∧ cm_DispatchClaimToken m = dp_ClaimToken claim.2 ∧ cm_Incident m = inc ∧ cm_Occurrence m = occ
  ∧ si_Kind (cm_Input m) = kind ∧ cm_RequireNonterminalOwner m = req ∧ cm_RequireTriageBackoff m = backoff.

Lemma mutation_ok claim inc occ kind req s m s' :
  correlatedDeliveryMutation claim inc occ kind req s = (Ok m, s') → s' = s ∧ plan_of claim inc occ kind req false m.
Proof.
  unfold Correlator.correlatedDeliveryMutation, plan_of. destruct (dp_LeaseOwner _) as [o|]; [|done]. case_match; [done|].
  intros [= <- <-]. done.
Qed.

(** A commit that succeeds, seen from the start of the run. *)
Definition landed (claim : claim_row) (s s' : run) (inc : Incident) (occ : option Occurrence) (kind : string) (req backoff : bool)
    : Prop :=
  ∃ db m r now, rtc ledger_step (rn_db s) db ∧ ApplyCorrelatedDelivery db m now now = Ok (r, rn_db s')
                ∧ plan_of claim inc occ kind req backoff m.

Lemma apply_plan_ok m s r s' :
  apply_plan m s = (Ok r, s') →
  ∃ db now, rtc ledger_step (rn_db s) db ∧ ApplyCorrelatedDelivery db m now now = Ok (r, rn_db s').
Proof.
  unfold Correlator.apply_plan, Correlator.commit. destruct (fails _); [done|].
  destruct (ApplyCorrelatedDelivery _ m _ _) as [[r1 db']|] eqn:E; [|done]. intros [= <- <-].
  eexists _, _. split; [apply called_reaches|exact E].
Qed.

Lemma existing_ok claim inc kind req s r s' :
  applyExistingIncidentDeliveryPlan claim inc kind req s = (Ok r, s') → landed claim s s' inc None kind req false.
Proof.
  intros (m & s1 & Hm & Ha)%C_bind_ok. apply mutation_ok in Hm as [-> Hp]. apply apply_plan_ok in Ha as (db & now & Hs & Ha).
  by exists db, m, r, now.
Qed.

Lemma refused_true (m : C bool) s s' : unless_refused m s = (Ok true, s') → m s = (Ok true, s').
Proof.
  intros (r & s1 & Hr & Hk)%C_bind_ok. unfold try_ in Hr. destruct (m s) as [r1 s2] eqn:E. injection Hr as <- <-.
  destruct r1 as [b|e]; [by injection Hk as -> ->|]. by destruct e as [| |[]].
Qed.

Lemma landed_reaches claim s s1 s' inc occ kind req backoff :
  reaches s s1 → landed claim s1 s' inc occ kind req backoff → landed claim s s' inc occ kind req backoff.
Proof. intros H (db & m & r & now & ? & ?). exists db, m, r, now. split; [by etrans|done]. Qed.

(** [P] held of the tables at some moment between the start and the commit. *)
Definition seen_before (origin at_ : delivery_db) (P : delivery_db → Prop) : Prop :=
  ∃ dbr, rtc ledger_step origin dbr ∧ rtc ledger_step dbr at_ ∧ P dbr.

(** Where a commit of the run went, and what was read on the way. *)
Inductive route (a : Alert) (gk : string) (origin at_ : delivery_db) (m : CorrelatedDeliveryMutation) : Prop :=
| route_member :
    al_Status a = "resolved" → cm_RequireNonterminalOwner m = true →
    seen_before origin at_ (λ db, GetCurrentIncidentByAlertID db (al_ID a) = Some (cm_Incident m)) → route a gk origin at_ m
| route_window :
    seen_before origin at_ (λ db, GetCollectingIncident db gk = Some (cm_Incident m)) → route a gk origin at_ m
| route_recent :
    al_Status a = "resolved" →
    seen_before origin at_ (λ db, GetRecentIncidentByGroupKey db gk = Some (cm_Incident m)) → route a gk origin at_ m
| route_retry :
    al_Status a = "firing" → cm_RequireNonterminalOwner m = true → cm_RequireTriageBackoff m = true →
    seen_before origin at_ (λ db, GetBackoffIncidentByGroupKey db gk = Some (cm_Incident m)) →
    seen_before origin at_ (λ db, IsDrillAlert a = existsb IsDrillAlert (GetIncidentAlerts db (ic_ID (cm_Incident m)))) →
    route a gk origin at_ m
| route_recurrence :
    al_Status a = "firing" → cm_RequireNonterminalOwner m = true →
    seen_before origin at_ (λ db, GetRecentJudgedIncidentByGroupKey db gk = Some (cm_Incident m)) →
    seen_before origin at_ (λ db, IsDrillAlert a = existsb IsDrillAlert (GetIncidentAlerts db (ic_ID (cm_Incident m)))) →
    route a gk origin at_ m
| route_fresh :
    ic_GroupKey (cm_Incident m) = gk → (∃ n, ic_ID (cm_Incident m) = incident_id n) → route a gk origin at_ m.

Lemma seen_before_from a b c P : rtc ledger_step a b → seen_before b c P → seen_before a c P.
Proof. intros H (d & ? & ? & ?). exists d. split; [by etrans|done]. Qed.

Lemma route_from a gk o o' at_ m : rtc ledger_step o o' → route a gk o' at_ m → route a gk o at_ m.
Proof. intros H [| | | | |]; [eapply route_member|eapply route_window|eapply route_recent|eapply route_retry|eapply route_recurrence|eapply route_fresh]; eauto using seen_before_from. Qed.

Definition claimed_by (claim : claim_row) (m : CorrelatedDeliveryMutation) : Prop :=
  cm_DeliveryID m = ad_ID claim.1 ∧ dp_LeaseOwner claim.2 = Some (cm_DispatchOwner m)
  ∧ cm_DispatchClaimToken m = dp_ClaimToken claim.2.

(** The run committed the delivery along a route. *)
Definition routed (claim : claim_row) (a : Alert) (gk : string) (s s' : run) : Prop :=
  ∃ db m r now, rtc ledger_step (rn_db s) db ∧ ApplyCorrelatedDelivery db m now now = Ok (r, rn_db s')
                ∧ claimed_by claim m ∧ route a gk (rn_db s) db m.

Lemma routed_from claim a gk s s1 s' : reaches s s1 → routed claim a gk s1 s' → routed claim a gk s s'.
Proof.
  intros H (db & m & r & now & ? & ? & ? & ?). exists db, m, r, now. split; [by etrans|]. split; [done|]. split; [done|]. by eapply route_from.
Qed.

Lemma landed_routed claim a gk s s1 s' inc occ kind req backoff :
  reaches s s1 → landed claim s1 s' inc occ kind req backoff →
  (∀ db m, rtc ledger_step (rn_db s1) db → plan_of claim inc occ kind req backoff m → route a gk (rn_db s) db m) →
  routed claim a gk s s'.
Proof.
  intros H1 (db & m & r & now & Hs & Ha & Hp) Hr. exists db, m, r, now. split; [by etrans|]. split; [done|]. split; [|by apply Hr].
  by destruct Hp as (? & ? & ? & _).
Qed.

Lemma seen_here {A} (q : delivery_db → option A) s x s1 db :
  query (λ db, found (q db)) s = (Ok (Found x), s1) → rtc ledger_step (rn_db s1) db →
  seen_before (rn_db s) db (λ db, q db = Some x).
Proof.
  intros [-> Hq]%query_found Hs. exists (rn_db (called env s)). split; [apply Henv|]. split; [done|]. by apply found_some.
Qed.

Lemma mb_isDrill_members ms fp : mb_isDrill (memberBaselines ms fp) = existsb IsDrillAlert ms.
Proof.
  unfold memberBaselines. set (b0 := {| mb_maxSev := _ |}).
  enough (H : ∀ b, mb_isDrill (foldl (λ b m,
    {| mb_maxSev := if (mb_maxSev b <? Rank (severity_of m))%Z then Rank (severity_of m) else mb_maxSev b;
       mb_maxSevLabel := if (mb_maxSev b <? Rank (severity_of m))%Z then severity_of m else mb_maxSevLabel b;
       mb_known := if str_eqb (alertname_of m) "" then mb_known b else mb_known b ∪ {[ alertname_of m ]};
       mb_isMember := mb_isMember b || str_eqb (al_Fingerprint m) fp;
       mb_isDrill := mb_isDrill b || IsDrillAlert m |}) b ms) = mb_isDrill b || existsb IsDrillAlert ms) by apply H.
  induction ms as [|m ms IH]; intros b; simpl; [by rewrite orb_false_r|]. rewrite IH. simpl. by rewrite orb_assoc.
Qed.

Ltac ok_bind H := apply C_bind_ok in H as (? & ? & ?H & H).

Lemma member_route claim a gk s s' :
  al_Status a = "resolved" → applyResolvedMembershipDeliveryPlan env fails input_id clock claim a s = (Ok true, s') →
  routed claim a gk s s'.
Proof.
  intros Hst (i & s1 & Hq & Hk)%C_bind_ok. destruct i as [inc| |]; try done.
  apply refused_true, C_bind_ok in Hk as (r & s2 & Hk & [= <-]). apply existing_ok in Hk.
  eapply landed_routed; [by eapply steps_query|exact Hk|]. intros db m Hs (_ & _ & _ & <- & _ & _ & Hreq & _).
  eapply route_member; [done|done|]. by eapply (seen_here (λ db, GetCurrentIncidentByAlertID db (al_ID a))).
Qed.

Lemma fresh_route claim a gk s s' :
  applyFreshIncidentDeliveryPlan cfg env fails input_id incident_id clock claim a gk s = (Ok tt, s') → routed claim a gk s s'.
Proof.
  intros (n & s1 & [= <- <-] & Hk)%C_bind_ok. apply C_bind_ok in Hk as (r & s2 & Hk & [= <-]). apply existing_ok in Hk.
  eapply landed_routed; [reflexivity|exact Hk|]. intros db m Hs (_ & _ & _ & Hi & _).
  apply route_fresh; rewrite Hi; [done|by eexists].
Qed.

Lemma recent_route claim a gk s s' :
  al_Status a = "resolved" →
  applyResolvedDeliveryPlan cfg env fails input_id incident_id clock claim a gk s = (Ok tt, s') → routed claim a gk s s'.
Proof.
  intros Hst (i & s1 & Hq & Hk)%C_bind_ok. destruct i as [inc| |]; try done.
  - apply C_bind_ok in Hk as (r & s2 & Hk & [= <-]). apply existing_ok in Hk.
    eapply landed_routed; [by eapply steps_query|exact Hk|]. intros db m Hs (_ & _ & _ & <- & _).
    eapply route_recent; [done|]. by eapply (seen_here (λ db, GetRecentIncidentByGroupKey db gk)).
  - eapply routed_from; [by eapply steps_query|]. by apply fresh_route.
Qed.

(** The drill parity of the candidate, at the read of its members. *)
Lemma parity_seen (a : Alert) id s ms s1 db :
  query (λ db, Found (GetIncidentAlerts db id)) s = (Ok (Found ms), s1) →
  negb (eqb (IsDrillAlert a) (existsb IsDrillAlert ms)) = false → rtc ledger_step (rn_db s1) db →
  seen_before (rn_db s) db (λ db, IsDrillAlert a = existsb IsDrillAlert (GetIncidentAlerts db id)).
Proof.
  intros [-> Hq]%query_found Hb Hs. exists (rn_db (called env s)). split; [apply Henv|]. split; [done|].
  injection Hq as Hq. apply negb_false_iff, eqb_prop in Hb. by rewrite Hb, <- Hq.
Qed.

Lemma retry_route claim a gk s s' :
  al_Status a = "firing" → applyRetryAttachDeliveryPlan env fails input_id clock claim a gk s = (Ok true, s') →
  routed claim a gk s s'.
Proof.
  intros Hst (i & s1 & Hq & Hk)%C_bind_ok. destruct i as [inc| |]; try done.
  apply C_bind_ok in Hk as (ms & s2 & Hms & Hk). destruct ms as [ms| |]; try done. case_match eqn:Hpar; [done|].
  apply C_bind_ok in Hk as (m & s3 & Hm & Hk). apply mutation_ok in Hm as [-> Hp].
  apply refused_true, C_bind_ok in Hk as (r & s4 & Ha & Hk). apply apply_plan_ok in Ha as (db & now & Hs & Ha).
  assert (s' = s4 ∨ rn_db s' = rn_db s4) as Edb.
  { apply C_bind_ok in Hk as (u & s5 & Hk & [= <-]). case_match; [injection Hk as _ ->; by left|]. injection Hk as _ <-. by right. }
  assert (E4 : rn_db s' = rn_db s4) by (by destruct Edb as [-> |]). rewrite <- E4 in Ha.
  pose proof (steps_query _ _ _ _ Hq) as H1. pose proof (steps_query _ _ _ _ Hms) as H2.
  destruct Hp as (Ed & Eo & Et & Ei & _ & _ & Er & _).
  exists db, (requiring_backoff m), r, now. split; [etrans; [exact H1|]; by etrans|]. split; [done|]. split; [done|].
  apply route_retry; simpl; [done|done|done| |]; rewrite Ei.
  - eapply (seen_here (λ db, GetBackoffIncidentByGroupKey db gk)); [exact Hq|by etrans].
  - eapply seen_before_from; [exact H1|]. by eapply parity_seen.
Qed.

Lemma judged_plan a gk inc b latest s plan s' :
  judge_recurrence cfg env fails a gk inc b latest s = (Ok (Some plan), s') → pl_incident plan = inc ∧ reaches s s'.
Proof.
  unfold judge_recurrence. destruct (negb _); [by intros [= <- <-]|].
  intros (n & s1 & Hn & Hk)%C_bind_ok. destruct n as [n| |]; try done.
  apply C_bind_ok in Hk as (ts & s2 & Hts & Hk). destruct ts as [ts| |]; try done.
  pose proof (steps_query _ _ _ _ Hn) as H1. pose proof (steps_query _ _ _ _ Hts) as H2.
  injection Hk as Hp <-. split; [|by rewrite H1].
  unfold planned_recurrence in Hp. by case_match; try done; injection Hp as <-.
Qed.

(** A plan to join a recent Incident: the candidate was judged, of the key and
    of the parity of the alert, when it was read. *)
Lemma planned_seen a gk s plan s1 :
  planDeliveryRecurrence cfg env fails a gk s = (Ok (Some plan), s1) →
  reaches s s1
  ∧ ∀ db, rtc ledger_step (rn_db s1) db →
      seen_before (rn_db s) db (λ db, GetRecentJudgedIncidentByGroupKey db gk = Some (pl_incident plan))
      ∧ seen_before (rn_db s) db (λ db, IsDrillAlert a = existsb IsDrillAlert (GetIncidentAlerts db (ic_ID (pl_incident plan)))).
Proof.
  intros (i & s2 & Hq & Hk)%C_bind_ok. destruct i as [inc| |]; try done.
  apply C_bind_ok in Hk as (ms & s3 & Hms & Hk). destruct ms as [ms| |]; try done.
  cbv zeta in Hk. destruct (negb _) eqn:Hpar in Hk; [done|]. rewrite mb_isDrill_members in Hpar.
  apply C_bind_ok in Hk as (l & s4 & Hl & Hk). pose proof (steps_query _ _ _ _ Hl) as H3.
  assert (pl_incident plan = inc ∧ reaches s4 s1) as [-> H4] by (destruct l; try done; by eapply judged_plan).
  pose proof (steps_query _ _ _ _ Hq) as H1. pose proof (steps_query _ _ _ _ Hms) as H2.
  split; [by rewrite H1, H2, H3|]. intros db Hs.
  assert (H5 : rtc ledger_step (rn_db s3) db) by (etrans; [exact H3|]; by etrans). split.
  - eapply (seen_here (λ db, GetRecentJudgedIncidentByGroupKey db gk)); [exact Hq|]. by etrans.
  - eapply seen_before_from; [exact H1|]. eapply parity_seen; [exact Hms|exact Hpar|exact H5].
Qed.

Lemma recurrence_route claim a gk s s' :
  al_Status a = "firing" → applyRecurrenceDeliveryPlan cfg env fails input_id clock claim a gk s = (Ok true, s') →
  routed claim a gk s s'.
Proof.
  intros Hst (p & s1 & Hp & Hk)%C_bind_ok. destruct p as [plan|]; [|done]. apply planned_seen in Hp as [H1 Hseen].
  apply C_bind_ok in Hk as (m & s2 & Hm & Hk). apply mutation_ok in Hm as [-> (Ed & Eo & Et & Ei & _ & _ & Er & _)].
  apply refused_true, C_bind_ok in Hk as (r & s4 & Ha & Hk). apply apply_plan_ok in Ha as (db & now & Hs & Ha).
  assert (E4 : rn_db s' = rn_db s4).
  { apply C_bind_ok in Hk as (u & s5 & Hk & [= <-]). case_match; by injection Hk as _ <-. }
  rewrite <- E4 in Ha. destruct (Hseen _ Hs) as [Hc Hd].
  exists db, m, r, now. split; [by etrans|]. split; [done|]. split; [done|].
  apply route_recurrence; [done|done| |]; by rewrite Ei.
Qed.

Lemma window_route claim a gk inc s s1 s' :
  query (λ db, found (GetCollectingIncident db gk)) s = (Ok (Found inc), s1) →
  (_ ← applyExistingIncidentDeliveryPlan claim inc "membership_changed" false; mret tt) s1 = (Ok tt, s') →
  routed claim a gk s s'.
Proof.
  intros Hq (r & s2 & Hk & [= <-])%C_bind_ok. apply existing_ok in Hk.
  eapply landed_routed; [by eapply steps_query|exact Hk|]. intros db m Hs (_ & _ & _ & <- & _).
  apply route_window. by eapply (seen_here (λ db, GetCollectingIncident db gk)).
Qed.

(** A delivery that finds no open window. *)
Lemma closed_route claim a gk s s' (Ha : al_Status a = "firing" ∨ al_Status a = "resolved") :
  (if str_eqb (al_Status a) "resolved" then applyResolvedDeliveryPlan cfg env fails input_id incident_id clock claim a gk
   else
     retried ← (if str_eqb (al_Status a) "firing" then applyRetryAttachDeliveryPlan env fails input_id clock claim a gk else mret false);
     if (retried : bool) then mret tt
     else
       recurred ← (if str_eqb (al_Status a) "firing" then applyRecurrenceDeliveryPlan cfg env fails input_id clock claim a gk else mret false);
       if (recurred : bool) then mret tt else applyFreshIncidentDeliveryPlan cfg env fails input_id incident_id clock claim a gk) s
  = (Ok tt, s') → routed claim a gk s s'.
Proof.
  destruct Ha as [Ha|Ha]; rewrite Ha; simpl; [|by apply recent_route].
  intros (b1 & s1 & H1 & Hk)%C_bind_ok. destruct b1; [injection Hk as <-; by apply retry_route|].
  assert (S1 : reaches s s1) by (apply (Steps_retry claim a gk _ _ _ true H1)).
  apply C_bind_ok in Hk as (b2 & s2 & H2 & Hk). destruct b2; [injection Hk as <-; eapply routed_from; [exact S1|]; by apply recurrence_route|].
  assert (S2 : reaches s1 s2) by (apply (Steps_recur claim a gk _ _ _ true H2)).
  eapply routed_from; [by etrans|]. by apply fresh_route.
Qed.

(** Every delivery that was applied went along one of the routes. *)
Lemma ApplyDelivery_routed claim s s' :
  let a := received_alert claim.1 in
  al_Status a = "firing" ∨ al_Status a = "resolved" →
  ApplyDelivery claim s = (Ok tt, s') → routed claim a (groupKeySelection cfg a).1 s s'.
Proof.
  intros a Ha. unfold Correlator.ApplyDelivery. destruct (_ || _); [done|]. fold a. set (gk := (groupKeySelection cfg a).1).
  intros (b & s1 & Hb & Hk)%C_bind_ok. destruct b.
  { injection Hk as <-. destruct Ha as [Ha|Ha]; rewrite Ha in Hb; simpl in Hb; [done|]. by apply member_route. }
  assert (S1 : reaches s s1) by (by eapply Steps_member).
  eapply routed_from; [exact S1|]. apply C_bind_ok in Hk as (i & s2 & Hq & Hk). destruct i as [inc| |]; [|idtac|done].
  - by eapply window_route.
  - eapply routed_from; [by eapply steps_query|]. by apply closed_route.
Qed.

(** ** Where a firing delivery goes *)

Definition incident_seen (P : Incident → Prop) (id gk : string) (db : delivery_db) : Prop :=
  ∃ i, i ∈ d_incidents db ∧ ic_ID i = id ∧ ic_GroupKey i = gk ∧ P i.

(** An Incident a firing delivery may go to: a new one, one with its window
    open, or one whose owner still takes it, of its drill parity, waiting for a
    retry of its Triage or judged. *)
Definition joined_safely (a : Alert) (gk : string) (origin at_ : delivery_db) (id : string) : Prop :=
  (∃ n, id = incident_id n)
  ∨ seen_before origin at_ (incident_seen (λ i, ic_Status i = StatusCollecting) id gk)
  ∨ ((∃ i, find_incident at_ id = Some i ∧ ic_Status i ≠ StatusFailed) ∧ terminalSituationOwnerTx at_ id = false
     ∧ seen_before origin at_ (λ db, IsDrillAlert a = existsb IsDrillAlert (GetIncidentAlerts db id))
     ∧ (triageInBackoffTx at_ id = true
        ∨ seen_before origin at_ (incident_seen (λ i, ic_Status i ∈ [StatusAnalyzed; StatusResolved]) id gk))).

Lemma newest_in l i : newest l = Some i → i ∈ l.
Proof. unfold newest. intros H%head_Some_elem_of. by apply elem_of_SliceStable in H. Qed.

Lemma collecting_seen db gk i : GetCollectingIncident db gk = Some i → incident_seen (λ i, ic_Status i = StatusCollecting) (ic_ID i) gk db.
Proof. intros (? & ? & ?)%head_Some_elem_of%collecting_in_group. by exists i. Qed.

Lemma judged_seen db gk i :
  GetRecentJudgedIncidentByGroupKey db gk = Some i → incident_seen (λ i, ic_Status i ∈ [StatusAnalyzed; StatusResolved]) (ic_ID i) gk db.
Proof.
  intros [[Hg Hs]%andb_true_iff Hi]%newest_in%elem_of_select_rows. exists i. split; [done|]. split; [done|].
  split; [by apply String.eqb_eq|]. unfold among_statuses in Hs. by apply bool_decide_eq_true in Hs.
Qed.

Lemma backoff_seen db gk i : GetBackoffIncidentByGroupKey db gk = Some i → incident_seen (λ _, True) (ic_ID i) gk db.
Proof.
  intros [[[Hg _]%andb_true_iff _]%andb_true_iff Hi]%newest_in%elem_of_select_rows. exists i. split; [done|]. split; [done|].
  split; [by apply String.eqb_eq|done].
Qed.

Lemma backoff_group db gk i : GetBackoffIncidentByGroupKey db gk = Some i → ic_GroupKey i = gk.
Proof. intros [[[Hg _]%andb_true_iff _]%andb_true_iff _]%newest_in%elem_of_select_rows. by apply String.eqb_eq. Qed.

Lemma judged_group db gk i : GetRecentJudgedIncidentByGroupKey db gk = Some i → ic_GroupKey i = gk.
Proof. intros [[Hg _]%andb_true_iff _]%newest_in%elem_of_select_rows. by apply String.eqb_eq. Qed.

Lemma seen_mono o at_ (P Q : delivery_db → Prop) : (∀ db, P db → Q db) → seen_before o at_ P → seen_before o at_ Q.
Proof. intros H (d & ? & ? & ?). exists d. auto. Qed.

(** An Incident seen is still there, in its group. *)
Lemma seen_stays P id gk o at_ :
  ledger_inv o → seen_before o at_ (incident_seen P id gk) → ∃ i, find_incident at_ id = Some i ∧ ic_GroupKey i = gk.
Proof.
  intros Hinv (d & Hd & Ha & i & Hi & <- & <- & _). pose proof (ledger_inv_steps _ _ Hinv Hd) as Hinvd.
  destruct (steps_persist _ _ Ha Hinvd i Hi) as (j & Hj & Ej & Gj). exists j. split; [|done].
  rewrite <- Ej. apply find_incident_some; [|done]. by eapply ledger_inv_steps.
Qed.

(** What the owner of a plan permits, read off the plan. *)
Lemma permitted db m id st : owner_permits db m id st = true → cm_RequireNonterminalOwner m = true →
  st ≠ StatusFailed ∧ terminalSituationOwnerTx db id = false ∧ (cm_RequireTriageBackoff m = true → triageInBackoffTx db id = true).
Proof.
  unfold owner_permits. intros [H1 H2]%andb_true_iff Hn. rewrite Hn in H1. apply andb_true_iff in H1 as [H1 H3].
  apply negb_true_iff in H1, H3. apply bool_decide_eq_false in H1. split; [done|]. split; [done|]. intros Hb. by rewrite Hb in H2.
Qed.

(** The Incident a route ends in. *)
Lemma route_joins a gk o at_ m opened now r db' :
  ledger_inv o → rtc ledger_step o at_ → ApplyCorrelatedDelivery at_ m opened now = Ok (r, db') →
  al_Status a = "firing" → route a gk o at_ m →
  ic_GroupKey (cm_Incident m) = gk ∧ joined_safely a gk o at_ (ic_ID (cr_Incident r)).
Proof.
  intros Hinv Hs Happ Hst Hroute. pose proof (ledger_inv_steps _ _ Hinv Hs) as Hinv'.
  destruct (apply_answer _ _ _ _ _ _ Hinv' Happ) as (_ & _ & Hans). cbv zeta in Hans.
  assert (Hwin : ∀ i, find_incident at_ (ic_ID (cr_Incident r)) = Some i → ic_GroupKey i = gk → ic_Status i = StatusCollecting →
                 joined_safely a gk o at_ (ic_ID (cr_Incident r))).
  { intros i [Hi Ei]%find_incident_in Hg Hc. right. left. exists at_. split; [done|]. split; [done|]. by exists i. }
  assert (Hthere : ∀ P, seen_before o at_ (incident_seen P (ic_ID (cm_Incident m)) gk) →
            ic_GroupKey (cm_Incident m) = gk →
            (∃ i, find_incident at_ (ic_ID (cr_Incident r)) = Some i ∧ owner_permits at_ m (ic_ID (cr_Incident r)) (ic_Status i) = true
                  ∧ ic_ID (cr_Incident r) = ic_ID (cm_Incident m))
            ∨ joined_safely a gk o at_ (ic_ID (cr_Incident r))).
  { intros P Hseen Hg. destruct (seen_stays _ _ _ _ _ Hinv Hseen) as (j & Hj & _).
    destruct Hans as [(_ & Hn & Eid)|(_ & i & Hi & [Eid|(_ & Gi & Ci)] & Hp)]; [by rewrite Eid, Hj in Hn|left; by exists i|].
    right. eapply Hwin; [exact Hi| |done]. by rewrite Gi. }
  destruct Hroute as [Hr|Hseen|Hr|_ Hn Hb Hseen Hd|_ Hn Hseen Hd|Hg [n Hfresh]]; try by rewrite Hst in Hr.
  - assert (Hg : ic_GroupKey (cm_Incident m) = gk) by (by destruct Hseen as (d & _ & _ & (_ & ? & _)%head_Some_elem_of%collecting_in_group)).
    split; [done|]. apply (seen_mono _ _ _ _ (λ db, collecting_seen db gk _)) in Hseen.
    destruct (Hthere _ Hseen Hg) as [(i & _ & _ & ->)|?]; [by right; left|done].
  - assert (Hg : ic_GroupKey (cm_Incident m) = gk) by (destruct Hseen as (d & _ & _ & ?); by eapply backoff_group).
    split; [done|]. apply (seen_mono _ _ _ _ (λ db, backoff_seen db gk _)) in Hseen.
    destruct (Hthere _ Hseen Hg) as [(i & Hi & Hp & E)|?]; [|done]. rewrite E in *.
    destruct (permitted _ _ _ _ Hp Hn) as (? & ? & Hbk). right. right. eauto 10.
  - assert (Hg : ic_GroupKey (cm_Incident m) = gk) by (destruct Hseen as (d & _ & _ & ?); by eapply judged_group).
    split; [done|]. apply (seen_mono _ _ _ _ (λ db, judged_seen db gk _)) in Hseen.
    destruct (Hthere _ Hseen Hg) as [(i & Hi & Hp & E)|?]; [|done]. rewrite E in *.
    destruct (permitted _ _ _ _ Hp Hn) as (? & ? & _). right. right. eauto 10.
  - split; [done|]. destruct Hans as [(_ & _ & ->)|(_ & i & Hi & [->|(_ & Gi & Ci)] & _)]; [by left; exists n..|].
    eapply Hwin; [exact Hi|by rewrite Gi|done].
Qed.

(** C9. A firing delivery that is applied gets one owner, in its own group: an
    Incident new under a drawn identity, one seen with its window open, or - and
    only if, at the commit, the Incident is not failed and its Situation not
    over - one of the same drill parity that is waiting to retry its Triage
    or was judged already.  This holds whatever the other workers do between
    the reads of the plan and its commit. *)
Theorem firing_joins_safely claim s s' :
  let a := received_alert claim.1 in
  let gk := (groupKeySelection cfg a).1 in
  ledger_inv (rn_db s) → al_Status a = "firing" → ApplyDelivery claim s = (Ok tt, s') →
  ∃ at_ i occ, rtc ledger_step (rn_db s) at_ ∧ i ∈ d_incidents (rn_db s') ∧ ic_GroupKey i = gk
    ∧ d_owners (rn_db s') = d_owners at_ ++ [{| ol_IncidentID := ic_ID i; ol_DeliveryID := ad_ID claim.1; ol_OccurrenceID := occ |}]
    ∧ joined_safely a gk (rn_db s) at_ (ic_ID i).
Proof.
  intros a gk Hinv Hst Happ. destruct (ApplyDelivery_routed claim s s' (or_introl Hst) Happ) as (db & m & r & now & Hs & Hc & (Hid & _) & Hr).
  pose proof (ledger_inv_steps _ _ Hinv Hs) as Hinv'. destruct (apply_owns _ _ _ _ _ _ Hinv' Hc) as [occ Ho].
  destruct (apply_answer _ _ _ _ _ _ Hinv' Hc) as (Hg & Hin & _). destruct (route_joins _ _ _ _ _ _ _ _ _ Hinv Hs Hc Hst Hr) as [Hgk Hj].
  exists db, (cr_Incident r), occ. rewrite <- Hid. split; [done|]. split; [done|]. split; [by rewrite Hg|]. done.
Qed.
End runs.
