(* ===== verification/ControllerStore.v ===== *)
(** * The controller's durable work (internal/store/situation_controller.go)

    One Situation: its row, the ledger of Assessment calls and of their
    outcomes, and the transactions that claim it, advance its attempts, record
    calls, commit, recover and wake it ([situations.go], [situation_budget.go],
    [semantic_profiles.go], [situation_judgments.go]).  A transaction returns
    the new columns or an error, which rolls it back.

    SQL compares instants as texts ([text_ltb] of the prelude); a comparison of
    [time.Time] values is one of [Z].  Identities of calls are random UUIDs and
    arguments.  The columns of the row the transactions leave alone, the
    authoritative attempts, the history and the judgments of a commit are left
    out; the controller's decisions are those of [Controller]. *)

From stdpp Require Import prelude strings list gmap sorting relations.
From S2P Require Import Prelude SituationModel Snapshot Lifecycle Assessment.

(** ** The row *)

Record lease_columns : Type := {
  lease_owner : option string;
  lease_expires_at : option Time;
  claim_token : Z;
  supersede_streak : Z;
  lease_protected : bool
}.

Record schedule_columns : Type := {
  next_assessment_at : Time;
  retry_at : option Time;
  due_reasons : list string
}.

Record work_columns : Type := {
  current_material_fact_hash : option string;
  controller_retry_epoch : Z;
  controller_work_attempts : Z;
  controller_parked_reason : option string;
  last_consumed_recovery_generation : Z
}.

Record situation_row : Type := {
  input_version : Z;
  row_lifecycle : Lifecycle;
  row_lease : lease_columns;
  row_schedule : schedule_columns;
  row_work : work_columns
}.

(** A row of [situation_assessment_calls]. *)
Record call_row : Type := {
  call_id : string;
  call_version : Z;
  call_epoch : Z;
  call_attempt : Z;
  call_number : Z;
  call_hash : string;
  dispatched_at : Time
}.

#[export] Instance call_row_eq_dec : EqDecision call_row.
Proof. solve_decision. Defined.

(** A row of [situation_assessment_attempts] that a call is linked to. *)
Record outcome_row : Type := {
  outcome_call : string;
  outcome_status : string;
  request_started : string;
  error_codes : list string
}.

Record Claim : Type := {
  ClaimOwner : string;
  ClaimToken : Z;
  Claim_InputVersion : Z;
  Claim_DueReasons : list string;
  Claim_NextAssessmentAt : Time
}.

Inductive controller_error : Set :=
| ErrSituationLeaseLost
| ErrSituationVersionConflict
| ErrSituationProtected
| ErrControllerAttemptsExhausted
| ErrUniqueCall                     (* the UNIQUE index of the calls *)
| ErrImmutableConflict              (* another row under the same id *)
| ErrRefused.                       (* refused arguments, failed checks *)

(** ** Due reasons *)

Definition DueRetry : string := "retry_due".
Definition DueSemanticProfileChanged : string := "semantic_profile_changed".
Definition DueUpgradeReconstruction : string := "upgrade_reconstruction".
Definition DueOperatorJudgment : string := "operator_judgment".
Definition DueJudgmentBoundary : string := "judgment_boundary".
Definition DueEnvelopeBoundary : string := "envelope_boundary".

Definition mergeDueReason (reasons : list string) (reason : string) : list string :=
  if existsb (str_eqb reason) reasons then reasons else reasons ++ [reason].

Definition subtractDueReasonsStore (current consumed : list string) : list string :=
  filter (λ r, r ∉ consumed) current.

Definition earlierTime (a b : Time) : Time := if Before b a then b else a.

(** ** Leases *)

Definition set_lease (r : situation_row) (l : lease_columns) : situation_row :=
  {| input_version := input_version r; row_lifecycle := row_lifecycle r; row_lease := l;
     row_schedule := row_schedule r; row_work := row_work r |}.

Definition set_work (r : situation_row) (w : work_columns) : situation_row :=
  {| input_version := input_version r; row_lifecycle := row_lifecycle r; row_lease := row_lease r;
     row_schedule := row_schedule r; row_work := w |}.

Definition set_schedule (r : situation_row) (s : schedule_columns) : situation_row :=
  {| input_version := input_version r; row_lifecycle := row_lifecycle r; row_lease := row_lease r;
     row_schedule := s; row_work := row_work r |}.

(** [lease_owner = NULL, lease_expires_at = NULL]. *)
Definition no_lease (l : lease_columns) (streak : Z) (prot : bool) : lease_columns :=
  {| lease_owner := None; lease_expires_at := None; claim_token := claim_token l;
     supersede_streak := streak; lease_protected := prot |}.

Definition situationSupersedeGuardAfter : Z := 2%Z.

Definition complete_claim (c : Claim) : bool :=
  negb (str_eqb (TrimSpace (ClaimOwner c)) "") && (0 <? ClaimToken c)%Z.

Definition opt_is (o : option string) (s : string) : bool :=
  match o with Some x => str_eqb x s | None => false end.

(** [lease_owner = ? AND claim_token = ?]. *)
Definition verifyClaimTx (r : situation_row) (c : Claim) : bool :=
  opt_is (lease_owner (row_lease r)) (ClaimOwner c) && (claim_token (row_lease r) =? ClaimToken c)%Z.

(** [lease_owner IS NULL OR lease_expires_at <= now]. *)
Definition lease_free (l : lease_columns) (now : Time) : bool :=
  match lease_owner l with
  | None => true
  | Some _ => match lease_expires_at l with Some t => text_leb t now | None => false end
  end.

Definition opt_due (t : option Time) (now : Time) : bool :=
  match t with Some t => text_leb t now | None => false end.

(** The claim of this Situation when it is among the rows selected. *)
Definition ClaimDueSituations (r : situation_row) (owner : string) (now : Time) (lease : Duration)
    : result controller_error (option (situation_row * Claim)) :=
  guard! negb (str_eqb (TrimSpace owner) "") && (0 <? lease)%Z else ErrRefused in
  let l := row_lease r in
  let s := row_schedule r in
  if negb (Terminal (row_lifecycle r)) && lease_free l now
     && (text_leb (next_assessment_at s) now || opt_due (retry_at s) now) then
    let token := (claim_token l + 1)%Z in
    Ok (Some
      (set_lease r
         {| lease_owner := Some owner; lease_expires_at := Some (Add now lease); claim_token := token;
            supersede_streak := supersede_streak l;
            lease_protected := (situationSupersedeGuardAfter <=? supersede_streak l)%Z |},
       {| ClaimOwner := owner; ClaimToken := token; Claim_InputVersion := input_version r;
          Claim_DueReasons := due_reasons s; Claim_NextAssessmentAt := next_assessment_at s |}))
  else Ok None.

(** The lease is live: [LeaseOwner != nil && LeaseExpiresAt.After(now)]. *)
Definition lease_live (l : lease_columns) (now : Time) : bool :=
  match lease_owner l, lease_expires_at l with
  | Some _, Some t => After t now
  | _, _ => false
  end.

(** One more applied input. *)
Definition joinSituationTx (r : situation_row) (dueReason : string) (occurredAt now : Time)
    : result controller_error situation_row :=
  let l := row_lease r in
  let live := lease_live l now in
  guard! negb (live && lease_protected l) else ErrSituationProtected in
  let s := row_schedule r in
  Ok {| input_version := (input_version r + 1)%Z; row_lifecycle := row_lifecycle r;
        row_lease := no_lease l (if live then supersede_streak l + 1 else supersede_streak l)%Z false;
        row_schedule := {| next_assessment_at := earlierTime (next_assessment_at s) occurredAt;
                           retry_at := retry_at s;
                           due_reasons := mergeDueReason (due_reasons s) dueReason |};
        row_work := row_work r |}.

Definition wakeSituationForSemanticProfileChangeTx (r : situation_row) (now : Time) : situation_row :=
  let l := row_lease r in
  let s := row_schedule r in
  {| input_version := (input_version r + 1)%Z; row_lifecycle := row_lifecycle r;
     row_lease := no_lease l (supersede_streak l) (lease_protected l);
     row_schedule := {| next_assessment_at := earlierTime (next_assessment_at s) now;
                        retry_at := retry_at s;
                        due_reasons := mergeDueReason (due_reasons s) DueSemanticProfileChanged |};
     row_work := row_work r |}.

(** A Situation that a restart joins with the Incidents it had missed. *)
Definition joinSituationForReconstructionTx (r : situation_row) (now : Time) : situation_row :=
  let l := row_lease r in
  let s := row_schedule r in
  {| input_version := (input_version r + 1)%Z; row_lifecycle := row_lifecycle r;
     row_lease := no_lease l (supersede_streak l) (lease_protected l);
     row_schedule := {| next_assessment_at := earlierTime (next_assessment_at s) now;
                        retry_at := retry_at s;
                        due_reasons := mergeDueReason (due_reasons s) DueUpgradeReconstruction |};
     row_work := row_work r |}.

(** A lease that ran out is released at a restart; the token stays. *)
Definition lease_expired (now : Time) (l : lease_columns) : bool :=
  match lease_owner l, lease_expires_at l with Some _, Some t => text_leb t now | _, _ => false end.

Definition recover_lease (r : situation_row) (now : Time) : situation_row :=
  let l := row_lease r in
  if lease_expired now l then set_lease r (no_lease l (supersede_streak l) (lease_protected l)) else r.

(** The wake of an operator's judgment; that of an expected-behavior envelope
    writes the same columns with another reason. *)
Definition judgment_wake (r : situation_row) (version : Z) (now : Time)
    : result controller_error situation_row :=
  guard! (input_version r =? version)%Z && negb (Terminal (row_lifecycle r))
    else ErrSituationVersionConflict in
  let l := row_lease r in
  let s := row_schedule r in
  Ok {| input_version := (input_version r + 1)%Z; row_lifecycle := row_lifecycle r;
        row_lease := no_lease l (supersede_streak l) (lease_protected l);
        row_schedule := {| next_assessment_at := now; retry_at := None;
                           due_reasons := mergeDueReason (mergeDueReason (due_reasons s) DueOperatorJudgment)
                                            DueJudgmentBoundary |};
        row_work := row_work r |}.

Definition ExtendControllerLease (r : situation_row) (c : Claim) (now : Time) (lease : Duration)
    : result controller_error situation_row :=
  guard! complete_claim c else ErrRefused in
  guard! verifyClaimTx r c else ErrSituationLeaseLost in
  let l := row_lease r in
  Ok (set_lease r {| lease_owner := lease_owner l; lease_expires_at := Some (Add now lease);
                     claim_token := claim_token l; supersede_streak := supersede_streak l;
                     lease_protected := lease_protected l |}).

(** A checkpoint is persisted unless an earlier one was written since the claim. *)
Definition merge_checkpoint (claimed current proposed : Time) : Time :=
  if negb (current =? claimed)%Z && text_ltb current proposed then current else proposed.

Definition ReleaseControllerWork (r : situation_row) (c : Claim) (retryAt : option Time)
    : result controller_error situation_row :=
  guard! complete_claim c else ErrRefused in
  guard! verifyClaimTx r c else ErrSituationLeaseLost in
  let l := row_lease r in
  let s := row_schedule r in
  let r := set_lease r (no_lease l (supersede_streak l) false) in
  Ok match retryAt with
     | None => r
     | Some t =>
         set_schedule r {| next_assessment_at :=
                             merge_checkpoint (Claim_NextAssessmentAt c) (next_assessment_at s) t;
                           retry_at := Some t; due_reasons := due_reasons s |}
     end.

(** ** Attempts and calls *)

(** [ORDER BY dispatched_at, work_attempt, call_number, id]: the last is the
    latest. *)
Definition dispatched_ltb (c d : call_row) : bool := text_ltb (dispatched_at c) (dispatched_at d).

Definition call_ltb : call_row → call_row → bool :=
  lex_less dispatched_ltb
    (lex_less (key_ltb call_attempt) (lex_less (key_ltb call_number) (skey_ltb call_id))).

Definition latestDispatchedCallBasisTx (calls : list call_row) (inputVersion : Z) : option call_row :=
  best call_ltb (filter (λ c, call_version c = inputVersion) calls).

Definition maxControllerAttempts : Z := 5%Z.

(** The latest call of the input version, when the row never caught up with its
    basis: the cycle that dispatched it did not commit. *)
Definition stranded_call (w : work_columns) (calls : list call_row) (inputVersion : Z) : option call_row :=
  match latestDispatchedCallBasisTx calls inputVersion with
  | Some k => if opt_is (current_material_fact_hash w) (call_hash k) then None else Some k
  | None => None
  end.

(** The row as the commit of that cycle would have left it. *)
Definition repaired (w : work_columns) (stranded : option call_row) : option string * Z :=
  match stranded with
  | Some k => (Some (call_hash k), call_attempt k)
  | None => (current_material_fact_hash w, controller_work_attempts w)
  end.

(** [nextEpoch] and [nextAttempt]. *)
Definition next_coordinates (epoch : Z) (basis : option string * Z) (materialFactHash : string) : Z * Z :=
  match basis.1 with
  | Some h =>
      if str_eqb h materialFactHash then (epoch, (basis.2 + 1)%Z) else ((epoch + 1)%Z, 1%Z)
  | None => (epoch, 1%Z)
  end.

(** The new work columns, and the coordinates of the attempt. *)
Definition BeginControllerAttempt (r : situation_row) (calls : list call_row) (c : Claim)
    (materialFactHash : string) : result controller_error (work_columns * Z * Z) :=
  guard! complete_claim c && negb (str_eqb (TrimSpace materialFactHash) "") else ErrRefused in
  guard! verifyClaimTx r c else ErrSituationLeaseLost in
  let w := row_work r in
  let stranded := stranded_call w calls (Claim_InputVersion c) in
  let '(nextEpoch, nextAttempt) :=
    next_coordinates (controller_retry_epoch w) (repaired w stranded) materialFactHash in
  guard! (nextAttempt <=? maxControllerAttempts)%Z else ErrControllerAttemptsExhausted in
  Ok ({| current_material_fact_hash :=
           match stranded with Some k => Some (call_hash k) | None => current_material_fact_hash w end;
         controller_retry_epoch := nextEpoch; controller_work_attempts := nextAttempt;
         controller_parked_reason :=
           match stranded with Some _ => None | None => controller_parked_reason w end;
         last_consumed_recovery_generation := last_consumed_recovery_generation w |},
      nextEpoch, nextAttempt).

Definition validateAssessmentCall (k : call_row) : bool :=
  negb (str_eqb (TrimSpace (call_id k)) "") && negb (str_eqb (TrimSpace (call_hash k)) "")
  && (1 <=? call_version k)%Z && (0 <=? call_epoch k)%Z
  && (1 <=? call_attempt k)%Z && (call_attempt k <=? 5)%Z
  && ((call_number k =? 1)%Z || (call_number k =? 2)%Z) && negb (IsZero (dispatched_at k)).

Definition coordinates (k : call_row) : Z * Z * Z * Z :=
  (call_version k, call_epoch k, call_attempt k, call_number k).

(** An identical call is a replay, which changes nothing; another call under the
    same id is refused. *)
Definition insertAssessmentCallTx (calls : list call_row) (k : call_row) : result controller_error (list call_row) :=
  match filter (λ o, call_id o = call_id k) calls with
  | o :: _ => guard! bool_decide (o = k) else ErrImmutableConflict in Ok calls
  | [] => guard! negb (bool_decide (coordinates k ∈ coordinates <$> calls)) else ErrUniqueCall in Ok (calls ++ [k])
  end.

Definition RecordAssessmentCall (r : situation_row) (calls : list call_row) (c : Claim) (k : call_row)
    : result controller_error (situation_row * list call_row) :=
  guard! validateAssessmentCall k && complete_claim c else ErrRefused in
  guard! verifyClaimTx r c else ErrSituationLeaseLost in
  let? calls := insertAssessmentCallTx calls k in
  let l := row_lease r in
  Ok (set_lease r {| lease_owner := lease_owner l; lease_expires_at := lease_expires_at l;
                     claim_token := claim_token l; supersede_streak := supersede_streak l;
                     lease_protected := true |},
      calls).

(** Not fenced by the claim: only the call must exist. *)
Definition AppendAssessmentOutcome (calls : list call_row) (outcomes : list outcome_row) (o : outcome_row)
    : result controller_error (list outcome_row) :=
  guard! existsb (str_eqb (outcome_status o)) ["rejected"; "failed"; "stale"] else ErrRefused in
  guard! bool_decide (outcome_call o ∈ call_id <$> calls) else ErrRefused in
  Ok (outcomes ++ [o]).

(** ** The commit *)

Record ControllerCommit : Type := {
  cc_MaterialFactHash : string;
  cc_Lifecycle : Lifecycle;
  cc_NextAssessmentAt : Time;
  cc_RetryAt : option Time;
  (** [Parked.Touch] and [Parked.Reason]. *)
  cc_Parked : option string;
  cc_BudgetDeniedCallID : option string;
  (** [JudgmentApplicable], and an envelope evaluation that matched. *)
  cc_JudgmentApplicable : bool;
  cc_EnvelopeMatched : bool
}.

Definition ParkedReasonBudget : string := "budget_deferred".
Definition BudgetDeferralErrorClass : string := "budget_deferred".

Definition find_call (calls : list call_row) (id : string) : option call_row :=
  find (λ k, str_eqb (call_id k) id) calls.

(** Durable proof that the call was refused before it was sent. *)
Definition proved_unsent (outcomes : list outcome_row) (id : string) : bool :=
  existsb (λ o, str_eqb (outcome_call o) id && str_eqb (outcome_status o) "failed"
                && str_eqb (request_started o) "false"
                && existsb (str_eqb BudgetDeferralErrorClass) (error_codes o)) outcomes.

Definition refundBudgetDeniedAttemptTx (r : situation_row) (calls : list call_row)
    (outcomes : list outcome_row) (c : Claim) (cc : ControllerCommit)
    : result controller_error work_columns :=
  let w := row_work r in
  match cc_BudgetDeniedCallID cc with
  | None => Ok w
  | Some id =>
      guard! opt_is (cc_Parked cc) ParkedReasonBudget else ErrRefused in
      match find_call calls id with
      | None => Err ErrRefused
      | Some k =>
          guard! (call_version k =? Claim_InputVersion c)%Z && str_eqb (call_hash k) (cc_MaterialFactHash cc)
                 && (call_number k =? 1)%Z else ErrRefused in
          let other := existsb (λ k', (call_version k' =? call_version k)%Z
                         && (call_epoch k' =? call_epoch k)%Z && (call_attempt k' =? call_attempt k)%Z
                         && negb (str_eqb (call_id k') id)) calls in
          guard! proved_unsent outcomes id && negb other else ErrRefused in
          guard! (controller_retry_epoch w =? call_epoch k)%Z
                 && (controller_work_attempts w =? call_attempt k)%Z else ErrRefused in
          Ok {| current_material_fact_hash := current_material_fact_hash w;
                controller_retry_epoch := (controller_retry_epoch w + 1)%Z;
                controller_work_attempts := (controller_work_attempts w - 1)%Z;
                controller_parked_reason := controller_parked_reason w;
                last_consumed_recovery_generation := last_consumed_recovery_generation w |}
      end
  end.

Definition remaining_due (current consumed : list string) (cc : ControllerCommit) : list string :=
  let d := subtractDueReasonsStore current consumed in
  let d := if cc_JudgmentApplicable cc then mergeDueReason d DueJudgmentBoundary else d in
  if cc_EnvelopeMatched cc then mergeDueReason d DueEnvelopeBoundary else d.

Definition CommitController (r : situation_row) (calls : list call_row) (outcomes : list outcome_row)
    (c : Claim) (cc : ControllerCommit) : result controller_error situation_row :=
  guard! complete_claim c else ErrRefused in
  guard! verifyClaimTx r c else ErrSituationLeaseLost in
  guard! (input_version r =? Claim_InputVersion c)%Z else ErrSituationVersionConflict in
  let? w := refundBudgetDeniedAttemptTx r calls outcomes c cc in
  guard! legal_lifecycle_update (row_lifecycle r) (cc_Lifecycle cc) else ErrRefused in
  let s := row_schedule r in
  Ok {| input_version := input_version r; row_lifecycle := cc_Lifecycle cc;
        row_lease := no_lease (row_lease r) 0%Z false;
        row_schedule :=
          {| next_assessment_at :=
               merge_checkpoint (Claim_NextAssessmentAt c) (next_assessment_at s) (cc_NextAssessmentAt cc);
             retry_at := cc_RetryAt cc;
             due_reasons := remaining_due (due_reasons s) (Claim_DueReasons c) cc |};
        row_work :=
          {| current_material_fact_hash :=
               if str_eqb (cc_MaterialFactHash cc) "" then None else Some (cc_MaterialFactHash cc);
             controller_retry_epoch := controller_retry_epoch w;
             controller_work_attempts := controller_work_attempts w;
             controller_parked_reason :=
               match cc_Parked cc with
               | None => controller_parked_reason w
               | Some reason => if str_eqb reason "" then None else Some reason
               end;
             last_consumed_recovery_generation := last_consumed_recovery_generation w |} |}.

(** ** Wake and recovery *)

Definition WakeDependencyRecoveredSituations (r : situation_row) (outageGeneration : Z) (now : Time)
    : situation_row :=
  let w := row_work r in
  let s := row_schedule r in
  if (0 <? outageGeneration)%Z && negb (Terminal (row_lifecycle r))
     && opt_is (controller_parked_reason w) ParkedReasonDependency
     && (last_consumed_recovery_generation w <? outageGeneration)%Z then
    {| input_version := input_version r; row_lifecycle := row_lifecycle r; row_lease := row_lease r;
       row_schedule :=
         {| next_assessment_at := if text_ltb now (next_assessment_at s) then now else next_assessment_at s;
            retry_at := retry_at s; due_reasons := mergeDueReason (due_reasons s) DueRetry |};
       row_work :=
         {| current_material_fact_hash := current_material_fact_hash w;
            controller_retry_epoch := (controller_retry_epoch w + 1)%Z;
            controller_work_attempts := 0%Z; controller_parked_reason := None;
            last_consumed_recovery_generation := outageGeneration |} |}
  else r.

(** The calls without an outcome, each closed as interrupted. *)
Definition interrupted (calls : list call_row) (outcomes : list outcome_row) : list outcome_row :=
  (λ k, {| outcome_call := call_id k; outcome_status := "failed"; request_started := "unknown";
           error_codes := ["process_interrupted"] |})
    <$> filter (λ k, call_id k ∉ outcome_call <$> outcomes) calls.

Definition advanceControllerBasisForRecoveryTx (w : work_columns) (k : call_row) : work_columns :=
  {| current_material_fact_hash := Some (call_hash k);
     controller_retry_epoch := (controller_retry_epoch w + 1)%Z;
     controller_work_attempts := call_attempt k; controller_parked_reason := None;
     last_consumed_recovery_generation := last_consumed_recovery_generation w |}.

(** The latest call, when the row never caught up with its basis. *)
Definition loadStaleControllerBasisTx (w : work_columns) (calls : list call_row) : option call_row :=
  match best call_ltb calls with
  | Some k => if opt_is (current_material_fact_hash w) (call_hash k) then None else Some k
  | None => None
  end.

Definition RecoverInterruptedAssessmentCalls (r : situation_row) (calls : list call_row)
    (outcomes : list outcome_row) (now : Time) : situation_row * list outcome_row :=
  if negb (lease_free (row_lease r) now) then (r, outcomes)
  else
    let orphaned := interrupted calls outcomes in
    let stale := loadStaleControllerBasisTx (row_work r) calls in
    let r := match stale with
             | Some k => set_work r (advanceControllerBasisForRecoveryTx (row_work r) k)
             | None => r
             end in
    let s := row_schedule r in
    let touched := negb (bool_decide (orphaned = [])) || (match stale with Some _ => true | None => false end) in
    (if touched
     then set_schedule r {| next_assessment_at := next_assessment_at s; retry_at := retry_at s;
                            due_reasons := mergeDueReason (due_reasons s) DueRetry |}
     else r,
     outcomes ++ orphaned).

(** ** Cycles and steps

    What one [Reconcile] has read, and how far it is.  A cycle may stop at any
    point ([step_drop]) and outlive its lease; the store's fences decide what it
    can still write. *)

Record view : Type := {
  v_now : Time;
  v_version : Z;
  v_hash : string;
  v_parked : ControllerParkedState;
  v_retryAt : option Time
}.

Inductive cycle : Type :=
| Claimed (c : Claim)
| Loaded (c : Claim) (v : view)
| Working (c : Claim) (v : view) (epoch attempt : Z) (calls : list string).

Definition claim_of (cy : cycle) : Claim :=
  match cy with Claimed c | Loaded c _ | Working c _ _ _ _ => c end.

Record state : Type := {
  st_row : situation_row;
  st_calls : list call_row;
  st_outcomes : list outcome_row;
  st_cycles : gmap Z cycle;
  st_clock : Time
}.

Definition parked_state (r : situation_row) : ControllerParkedState :=
  {| Parked_Reason := default "" (controller_parked_reason (row_work r));
     Parked_MaterialFactHash := default "" (current_material_fact_hash (row_work r)) |}.

(** The two early returns before [BeginControllerAttempt]. *)
Definition dispatch_blocked (v : view) : bool :=
  str_eqb (Parked_Reason (v_parked v)) ParkedReasonBudget
    && match v_retryAt v with Some t => Before (v_now v) t | None => true end
  || controllerParkBlocksDispatch (v_parked v) (v_hash v).

Definition load (r : situation_row) (now : Time) (hash : string) : view :=
  {| v_now := now; v_version := input_version r; v_hash := hash; v_parked := parked_state r;
     v_retryAt := retry_at (row_schedule r) |}.

(** The [n]-th call of an attempt. *)
Definition new_call (v : view) (epoch attempt : Z) (earlier : list string) (id : string) : call_row :=
  {| call_id := id; call_version := v_version v; call_epoch := epoch; call_attempt := attempt;
     call_number := Z.of_nat (length earlier) + 1; call_hash := v_hash v; dispatched_at := v_now v |}.

Definition with_row (s : state) (r : situation_row) : state :=
  {| st_row := r; st_calls := st_calls s; st_outcomes := st_outcomes s; st_cycles := st_cycles s;
     st_clock := st_clock s |}.

Definition with_cycles (s : state) (m : gmap Z cycle) : state :=
  {| st_row := st_row s; st_calls := st_calls s; st_outcomes := st_outcomes s; st_cycles := m;
     st_clock := st_clock s |}.

(** The refunded call is the only one of the attempt. *)
Definition commit_from (cy : cycle) (cc : ControllerCommit) : Prop :=
  match cy with
  | Claimed _ => False
  | Loaded _ v => cc_MaterialFactHash cc = v_hash v ∧ cc_BudgetDeniedCallID cc = None
  | Working _ v _ _ ids =>
      cc_MaterialFactHash cc = v_hash v ∧
      (cc_BudgetDeniedCallID cc = None ∨ ∃ id, ids = [id] ∧ cc_BudgetDeniedCallID cc = Some id)
  end.

(** A cycle starts no earlier than any cycle before it: [step_load]. *)
Inductive step (s : state) : state → Prop :=
| step_join reason occurredAt now r :
    joinSituationTx (st_row s) reason occurredAt now = Ok r → step s (with_row s r)
| step_profile now :
    step s (with_row s (wakeSituationForSemanticProfileChangeTx (st_row s) now))
| step_judgment version now r :
    judgment_wake (st_row s) version now = Ok r → step s (with_row s r)
| step_claim owner now lease r c :
    ClaimDueSituations (st_row s) owner now lease = Ok (Some (r, c)) →
    step s (with_cycles (with_row s r) (<[ClaimToken c := Claimed c]> (st_cycles s)))
| step_load tok c now hash :
    st_cycles s !! tok = Some (Claimed c) → IsZero now = false → text_leb (st_clock s) now = true →
    step s {| st_row := st_row s; st_calls := st_calls s; st_outcomes := st_outcomes s;
              st_cycles := <[tok := Loaded c (load (st_row s) now hash)]> (st_cycles s);
              st_clock := now |}
| step_reload tok c v hash :
    st_cycles s !! tok = Some (Loaded c v) →
    step s (with_cycles s (<[tok := Loaded c (load (st_row s) (v_now v) hash)]> (st_cycles s)))
| step_begin tok c v w epoch attempt :
    st_cycles s !! tok = Some (Loaded c v) → dispatch_blocked v = false →
    BeginControllerAttempt (st_row s) (st_calls s) c (v_hash v) = Ok (w, epoch, attempt) →
    step s (with_cycles (with_row s (set_work (st_row s) w))
              (<[tok := Working c v epoch attempt []]> (st_cycles s)))
| step_record tok c v epoch attempt ids id r calls :
    st_cycles s !! tok = Some (Working c v epoch attempt ids) → (length ids < 2)%nat →
    RecordAssessmentCall (st_row s) (st_calls s) c (new_call v epoch attempt ids id) = Ok (r, calls) →
    step s {| st_row := r; st_calls := calls; st_outcomes := st_outcomes s;
              st_cycles := <[tok := Working c v epoch attempt (ids ++ [id])]> (st_cycles s);
              st_clock := st_clock s |}
| step_outcome o outcomes :
    AppendAssessmentOutcome (st_calls s) (st_outcomes s) o = Ok outcomes →
    step s {| st_row := st_row s; st_calls := st_calls s; st_outcomes := outcomes;
              st_cycles := st_cycles s; st_clock := st_clock s |}
| step_commit tok cy cc r :
    st_cycles s !! tok = Some cy → commit_from cy cc →
    CommitController (st_row s) (st_calls s) (st_outcomes s) (claim_of cy) cc = Ok r →
    step s (with_cycles (with_row s r) (delete tok (st_cycles s)))
| step_release tok cy retryAt r :
    st_cycles s !! tok = Some cy → ReleaseControllerWork (st_row s) (claim_of cy) retryAt = Ok r →
    step s (with_cycles (with_row s r) (delete tok (st_cycles s)))
| step_extend tok cy now lease r :
    st_cycles s !! tok = Some cy → ExtendControllerLease (st_row s) (claim_of cy) now lease = Ok r →
    step s (with_row s r)
| step_drop tok : step s (with_cycles s (delete tok (st_cycles s)))
| step_wake generation now :
    step s (with_row s (WakeDependencyRecoveredSituations (st_row s) generation now))
| step_restart now r outcomes :
    RecoverInterruptedAssessmentCalls (st_row s) (st_calls s) (st_outcomes s) now = (r, outcomes) →
    step s {| st_row := r; st_calls := st_calls s; st_outcomes := outcomes; st_cycles := ∅;
              st_clock := st_clock s |}
| step_reconstruct now : step s (with_row s (joinSituationForReconstructionTx (st_row s) now))
| step_recover now : step s (with_row s (recover_lease (st_row s) now)).

(** A Situation that no controller has worked on. *)
Definition initial (s : state) : Prop :=
  (1 ≤ input_version (st_row s))%Z ∧
  lease_owner (row_lease (st_row s)) = None ∧ claim_token (row_lease (st_row s)) = 0%Z ∧
  row_work (st_row s) =
    {| current_material_fact_hash := None; controller_retry_epoch := 0%Z;
       controller_work_attempts := 0%Z; controller_parked_reason := None;
       last_consumed_recovery_generation := 0%Z |} ∧
  st_calls s = [] ∧ st_outcomes s = [] ∧ st_cycles s = ∅.

Definition reachable (s : state) : Prop := ∃ s0, initial s0 ∧ rtc step s0 s.

(** ** Invariant *)

(** Lexicographic order of coordinates. *)
Definition coord_lt (p q : Z * Z * Z * Z) : Prop :=
  let '(v, e, a, n) := p in
  let '(v', e', a', n') := q in
  (v < v' ∨ v = v' ∧ (e < e' ∨ e = e' ∧ (a < a' ∨ a = a' ∧ n < n')))%Z.

Definition call_before (k k' : call_row) : Prop :=
  text_leb (dispatched_at k) (dispatched_at k') = true ∧ coord_lt (coordinates k) (coordinates k').

Definition permanent (reason : string) : bool :=
  str_eqb reason ParkedReasonPolicyRejected || str_eqb reason ParkedReasonCapabilityRejected.

(** The row carries a permanent park on the basis [h]. *)
Definition parked_on (w : work_columns) (h : string) : Prop :=
  permanent (default "" (controller_parked_reason w)) = true ∧ current_material_fact_hash w = Some h.

Definition view_ok (r : situation_row) (calls : list call_row) (v : view) : Prop :=
  v_version v = input_version r ∧ IsZero (v_now v) = false ∧
  Forall (λ k, text_leb (dispatched_at k) (v_now v) = true) calls.

Definition cycle_ok (r : situation_row) (calls : list call_row) (cy : cycle) : Prop :=
  Claim_InputVersion (claim_of cy) = input_version r ∧
  match cy with
  | Claimed _ => True
  | Loaded _ v =>
      view_ok r calls v ∧
      (∀ h, parked_on (row_work r) h → v_parked v = parked_state r)
  | Working _ v epoch attempt ids =>
      view_ok r calls v ∧ str_eqb (TrimSpace (v_hash v)) "" = false ∧
      (0 ≤ epoch ≤ controller_retry_epoch (row_work r))%Z ∧ (1 ≤ attempt ≤ 5)%Z ∧
      (epoch = controller_retry_epoch (row_work r) → attempt ≤ controller_work_attempts (row_work r))%Z ∧
      Forall (λ k, coord_lt (coordinates k)
                     (input_version r, epoch, attempt, Z.of_nat (length ids) + 1)%Z) calls ∧
      ¬ parked_on (row_work r) (v_hash v) ∧
      (ids ≠ [] → lease_protected (row_lease r) = true)
  end.

(** No cycle started after the clock. *)
Definition started_by (clock : Time) (cy : cycle) : Prop :=
  match cy with
  | Claimed _ => True
  | Loaded _ v | Working _ v _ _ _ => text_leb (v_now v) clock = true
  end.

Definition cycles_ok (clock : Time) (r : situation_row) (calls : list call_row) (m : gmap Z cycle) : Prop :=
  ∀ tok cy, m !! tok = Some cy →
    (tok = ClaimToken (claim_of cy) ∧ complete_claim (claim_of cy) = true ∧ started_by clock cy) ∧
    (tok ≤ claim_token (row_lease r))%Z ∧
    (verifyClaimTx r (claim_of cy) = true → cycle_ok r calls cy).

(** The calls, against the row's counters. *)
Record ledger_ok (r : situation_row) (calls : list call_row) : Prop := {
  lk_sorted : StronglySorted call_before calls;
  lk_valid : Forall (λ k, validateAssessmentCall k = true) calls;
  lk_version : Forall (λ k, call_version k ≤ input_version r)%Z calls;
  lk_epoch : Forall (λ k, call_epoch k ≤ controller_retry_epoch (row_work r))%Z calls;
  lk_attempt : Forall (λ k, call_version k = input_version r →
                 call_epoch k = controller_retry_epoch (row_work r) →
                 call_attempt k ≤ controller_work_attempts (row_work r))%Z calls
}.

Record inv (s : state) : Prop := {
  i_version : (1 ≤ input_version (st_row s))%Z;
  i_epoch : (0 ≤ controller_retry_epoch (row_work (st_row s)))%Z;
  i_attempts : (0 ≤ controller_work_attempts (row_work (st_row s)) ≤ 5)%Z;
  i_token : (0 ≤ claim_token (row_lease (st_row s)))%Z;
  i_ledger : ledger_ok (st_row s) (st_calls s);
  i_clock : Forall (λ k, text_leb (dispatched_at k) (st_clock s) = true) (st_calls s);
  i_cycles : cycles_ok (st_clock s) (st_row s) (st_calls s) (st_cycles s)
}.

(** ** The ledger of calls *)

Lemma sorted_pair {A} (R : A → A → Prop) l x y :
  StronglySorted R l → x ∈ l → y ∈ l → x = y ∨ R x y ∨ R y x.
Proof.
  induction 1 as [|z l _ IH Hz]; [by rewrite elem_of_nil|]. rewrite Forall_forall in Hz.
  rewrite !elem_of_cons. naive_solver.
Qed.

Lemma sorted_snoc {A} (R : A → A → Prop) l x :
  StronglySorted R l → Forall (λ y, R y x) l → StronglySorted R (l ++ [x]).
Proof.
  induction 1 as [|z l _ IH Hz]; [by repeat constructor|].
  intros [Hzx Hl]%Forall_cons. simpl. constructor; [by apply IH|].
  apply Forall_app. by repeat constructor.
Qed.

Lemma opt_is_some o s : opt_is o s = true ↔ o = Some s.
Proof.
  destruct o as [x|]; simpl; [|naive_solver]. unfold str_eqb. rewrite String.eqb_eq. naive_solver.
Qed.

#[local] Instance call_ltb_sw : StrictWeak call_ltb.
Proof.
  assert (StrictWeak dispatched_ltb)
    by (split; intros *; [apply (sw_asym (less:=text_ltb))|apply (sw_trans (less:=text_ltb))]).
  apply _.
Qed.

Lemma latest_call calls v k :
  latestDispatchedCallBasisTx calls v = Some k →
  k ∈ calls ∧ call_version k = v ∧
  ∀ k', k' ∈ calls → call_version k' = v → call_ltb k k' = false.
Proof.
  unfold latestDispatchedCallBasisTx. intros H.
  apply best_latest in H as [Hk Hmax]; [|apply _]. apply list_elem_of_filter in Hk as [Hv Hk].
  split_and!; [done|done|]. intros k' Hk' Hv'. apply Hmax, list_elem_of_filter. done.
Qed.

(** No call of the latest epoch is ahead of the latest call. *)
Lemma latest_dominates calls v e k k' :
  StronglySorted call_before calls → Forall (λ k, call_epoch k ≤ e)%Z calls →
  latestDispatchedCallBasisTx calls v = Some k →
  k' ∈ calls → call_version k' = v → call_epoch k' = e → (call_attempt k' ≤ call_attempt k)%Z.
Proof.
  intros Hs He (Hk & Hv & Hmax)%latest_call Hk' Hv' He'. rewrite Forall_forall in He.
  specialize (He _ Hk). specialize (Hmax _ Hk' Hv').
  apply lex_less_false in Hmax as [_ [Hlt|Hmax]].
  - destruct (sorted_pair _ _ _ _ Hs Hk' Hk) as [->|[[_ Hc]|[Hle _]]]; [done| |].
    + unfold coord_lt, coordinates in Hc. lia.
    + unfold dispatched_ltb in Hlt. unfold text_leb in Hle. by rewrite Hlt in Hle.
  - apply lex_less_false in Hmax as [Hmax _]. unfold key_ltb in Hmax. go_bool. lia.
Qed.

Lemma stranded_some w calls v k :
  stranded_call w calls v = Some k →
  latestDispatchedCallBasisTx calls v = Some k ∧ current_material_fact_hash w ≠ Some (call_hash k).
Proof.
  unfold stranded_call. destruct (latestDispatchedCallBasisTx calls v) as [k'|]; [|done].
  destruct (opt_is _ _) eqn:E; [done|]. intros [= ->]. split; [done|].
  intros H%opt_is_some. congruence.
Qed.

Lemma stranded_none w calls v k :
  stranded_call w calls v = None → latestDispatchedCallBasisTx calls v = Some k →
  current_material_fact_hash w = Some (call_hash k).
Proof.
  unfold stranded_call. intros H Hk. rewrite Hk in H. destruct (opt_is _ _) eqn:E; [|done].
  by apply opt_is_some.
Qed.

(** How an attempt's coordinates follow from the basis. *)
Lemma next_cases e b h e' a :
  next_coordinates e b h = (e', a) →
  b.1 = None ∧ e' = e ∧ a = 1%Z ∨ b.1 = Some h ∧ e' = e ∧ a = (b.2 + 1)%Z ∨
  (∃ h', b.1 = Some h' ∧ h' ≠ h) ∧ e' = (e + 1)%Z ∧ a = 1%Z.
Proof.
  unfold next_coordinates. destruct b as [[h'|] n]; simpl; [|naive_solver].
  unfold str_eqb. destruct (String.eqb_spec h' h); naive_solver.
Qed.

Lemma begin_cases r calls c h w e a :
  BeginControllerAttempt r calls c h = Ok (w, e, a) →
  let w0 := row_work r in
  let st := stranded_call w0 calls (Claim_InputVersion c) in
  str_eqb (TrimSpace h) "" = false ∧ verifyClaimTx r c = true ∧ (a ≤ 5)%Z ∧
  next_coordinates (controller_retry_epoch w0) (repaired w0 st) h = (e, a) ∧
  controller_retry_epoch w = e ∧ controller_work_attempts w = a ∧
  last_consumed_recovery_generation w = last_consumed_recovery_generation w0 ∧
  current_material_fact_hash w = (repaired w0 st).1 ∧
  controller_parked_reason w =
    match st with Some _ => None | None => controller_parked_reason w0 end.
Proof.
  unfold BeginControllerAttempt, maxControllerAttempts. intros H.
  destruct (complete_claim c && _) eqn:Hc; [|done]. apply andb_prop in Hc as [_ Hh%negb_true_iff].
  destruct (verifyClaimTx r c) eqn:Hv; [|done]. cbv zeta in *.
  destruct (next_coordinates _ _ _) as [e' a'] eqn:En. destruct (a' <=? 5)%Z eqn:E5; [|done].
  injection H as <- <- <-. apply Z.leb_le in E5. simpl. split_and!; try done.
  by destruct (stranded_call _ _ _).
Qed.

(** The coordinates of a new attempt are beyond every recorded call. *)
Lemma begin_beyond r calls c h w e a :
  ledger_ok r calls → Claim_InputVersion c = input_version r →
  (0 ≤ controller_work_attempts (row_work r))%Z →
  BeginControllerAttempt r calls c h = Ok (w, e, a) →
  (1 ≤ a)%Z ∧ (controller_retry_epoch (row_work r) ≤ e)%Z ∧
  Forall (λ k, coord_lt (coordinates k) (input_version r, e, a, 1%Z)) calls ∧
  Forall (λ k, call_version k = input_version r → call_epoch k = e → call_attempt k ≤ a)%Z calls.
Proof.
  intros Hlk Hcv H0 (_ & _ & _ & Hn & _)%begin_cases. destruct Hlk as [Hs Hval Hver Hep Hatt].
  apply next_cases in Hn. rewrite Hcv in Hn. rewrite !Forall_forall in *.
  assert (Hpos : ∀ k, k ∈ calls → (1 ≤ call_attempt k)%Z).
  { intros k Hk. specialize (Hval _ Hk). unfold validateAssessmentCall in Hval. go_bool. lia. }
  assert (Hgoal : (1 ≤ a)%Z ∧ (controller_retry_epoch (row_work r) ≤ e)%Z ∧
    ∀ k, k ∈ calls → call_version k = input_version r → call_epoch k = e → (call_attempt k < a)%Z).
  { destruct Hn as [(Hnone & -> & ->)|[(Hsame & -> & ->)|(_ & -> & ->)]]; (split_and!; [|lia|]); try lia.
    - intros k Hk Hv He. unfold repaired in Hnone.
      destruct (stranded_call _ _ _) as [k'|] eqn:Est; [done|]. simpl in Hnone.
      destruct (latestDispatchedCallBasisTx calls (input_version r)) as [k'|] eqn:El.
      + pose proof (stranded_none _ _ _ _ Est El). congruence.
      + unfold latestDispatchedCallBasisTx in El.
        destruct (best_nonempty call_ltb (filter (λ c, call_version c = input_version r) calls) k)
          as [? ?]; [by apply list_elem_of_filter|congruence].
    - unfold repaired. destruct (stranded_call _ _ _) as [k'|] eqn:Est; simpl; [|lia].
      apply stranded_some in Est as [(Hk' & _)%latest_call _]. specialize (Hpos _ Hk'). lia.
    - intros k Hk Hv He. unfold repaired. destruct (stranded_call _ _ _) as [k'|] eqn:Est; simpl.
      + apply stranded_some in Est as [Hl _].
        pose proof (latest_dominates calls (input_version r) (controller_retry_epoch (row_work r)) k' k Hs) as Hd.
        rewrite Forall_forall in Hd. specialize (Hd Hep Hl Hk Hv He). lia.
      + specialize (Hatt _ Hk Hv He). lia.
    - intros k Hk Hv He. specialize (Hep _ Hk). lia. }
  destruct Hgoal as (Ha & He & Hlt). split_and!; [done|done| |].
  - intros k Hk. specialize (Hver _ Hk). specialize (Hep _ Hk). specialize (Hlt _ Hk).
    unfold coord_lt, coordinates. lia.
  - intros k Hk Hv Hke. specialize (Hlt _ Hk Hv Hke). lia.
Qed.

(** ** Every step preserves the invariant *)

Lemma unleased_fence r c : lease_owner (row_lease r) = None → verifyClaimTx r c = false.
Proof. unfold verifyClaimTx. by intros ->. Qed.

Lemma cycles_unleased t r r' calls m :
  lease_owner (row_lease r') = None → claim_token (row_lease r') = claim_token (row_lease r) →
  cycles_ok t r calls m → cycles_ok t r' calls m.
Proof.
  intros Hl Ht Hm tok cy Hcy. destruct (Hm _ _ Hcy) as (? & ? & _). rewrite Ht.
  split; [done|]. split; [done|]. by rewrite unleased_fence.
Qed.

Lemma cycles_delete t r calls m tok : cycles_ok t r calls m → cycles_ok t r calls (delete tok m).
Proof. intros Hm tok' cy [_ Hcy]%lookup_delete_Some. by apply Hm. Qed.

(** Only the holder of the latest token passes the fence. *)
Lemma cycles_insert t r calls m tok cy :
  cycles_ok t r calls m →
  tok = ClaimToken (claim_of cy) ∧ complete_claim (claim_of cy) = true ∧ started_by t cy →
  (tok ≤ claim_token (row_lease r))%Z →
  (verifyClaimTx r (claim_of cy) = true → cycle_ok r calls cy) →
  cycles_ok t r calls (<[tok := cy]> m).
Proof.
  intros Hm Htok Hle Hok tok' cy' [[<- <-]|[_ H]]%lookup_insert_Some; [done|by apply Hm].
Qed.

(** A new input version: the same work, no lease. *)
Lemma bump_inv s r :
  inv s → input_version r = (input_version (st_row s) + 1)%Z →
  lease_owner (row_lease r) = None → claim_token (row_lease r) = claim_token (row_lease (st_row s)) →
  row_work r = row_work (st_row s) → inv (with_row s r).
Proof.
  intros [Hv He Ha Ht [Hs Hval Hver Hep Hatt] Hc Hm] Hv' Hl Ht' Hw.
  split; simpl; rewrite ?Hw, ?Ht', ?Hv'; try done; [lia| |by eapply cycles_unleased].
  split; simpl; rewrite ?Hw, ?Hv'; try done; rewrite !Forall_forall in *; intros k Hk.
  - specialize (Hver _ Hk). lia.
  - specialize (Hver _ Hk). lia.
Qed.

(** The same counters and version, no lease. *)
Lemma unlease_inv s r :
  inv s → input_version r = input_version (st_row s) →
  lease_owner (row_lease r) = None → claim_token (row_lease r) = claim_token (row_lease (st_row s)) →
  (0 ≤ controller_work_attempts (row_work r) ≤ 5)%Z →
  (controller_retry_epoch (row_work r) = controller_retry_epoch (row_work (st_row s)) ∧
   controller_work_attempts (row_work r) = controller_work_attempts (row_work (st_row s)) ∨
   controller_retry_epoch (row_work r) = (controller_retry_epoch (row_work (st_row s)) + 1)%Z) →
  inv (with_row s r).
Proof.
  intros [Hv He Ha Ht [Hs Hval Hver Hep Hatt] Hc Hm] Hv' Hl Ht' Ha' Hw.
  split; simpl; rewrite ?Ht', ?Hv'; try done; [lia| |by eapply cycles_unleased].
  split; simpl; rewrite ?Hv'; try done; rewrite !Forall_forall in *; intros k Hk.
  - specialize (Hep _ Hk). lia.
  - specialize (Hatt _ Hk). specialize (Hep _ Hk). lia.
Qed.

Lemma inv_cycles s m :
  inv s → cycles_ok (st_clock s) (st_row s) (st_calls s) m → inv (with_cycles s m).
Proof. by intros [] ?. Qed.

Lemma claim_spec r owner now lease r' c :
  ClaimDueSituations r owner now lease = Ok (Some (r', c)) →
  complete_claim c = (0 <? claim_token (row_lease r) + 1)%Z ∧
  ClaimToken c = (claim_token (row_lease r) + 1)%Z ∧ Claim_InputVersion c = input_version r ∧
  claim_token (row_lease r') = ClaimToken c ∧ lease_owner (row_lease r') = Some (ClaimOwner c) ∧
  input_version r' = input_version r ∧ row_work r' = row_work r ∧
  lease_free (row_lease r) now = true.
Proof.
  unfold ClaimDueSituations, complete_claim. destruct (negb _ && (0 <? lease)%Z) eqn:E; [|done].
  apply andb_prop in E as [E _]. destruct (_ && _ && _) eqn:E2; [|done].
  apply andb_prop in E2 as [E2 _]. apply andb_prop in E2 as [_ E2]. intros [= <- <-]. simpl.
  rewrite E. done.
Qed.

Lemma claim_inv s owner now lease r c :
  inv s → ClaimDueSituations (st_row s) owner now lease = Ok (Some (r, c)) →
  inv (with_cycles (with_row s r) (<[ClaimToken c := Claimed c]> (st_cycles s))).
Proof.
  intros [Hv He Ha Ht [Hs Hval Hver Hep Hatt] Hc Hm] (Hcc & Hct & Hcv & Htok & Hown & Hver' & Hw & _)%claim_spec.
  split; simpl; rewrite ?Hw, ?Hver', ?Htok; try done; [lia|by split; simpl; rewrite ?Hw, ?Hver'|].
  apply cycles_insert; simpl.
  - intros tok cy Hcy. destruct (Hm _ _ Hcy) as ((Hid & ? & ?) & Hle & _). rewrite Htok.
    split_and!; try done; [lia|]. unfold verifyClaimTx. rewrite Htok, Hct. intros Hf%andb_prop. destruct Hf as [_ Hf%Z.eqb_eq]. lia.
  - rewrite Hcc. split_and!; [done|apply Z.ltb_lt; lia|done].
  - lia.
  - intros _. split; simpl; [|done]. congruence.
Qed.

Lemma load_inv s tok c now hash :
  inv s → st_cycles s !! tok = Some (Claimed c) → IsZero now = false →
  text_leb (st_clock s) now = true →
  inv {| st_row := st_row s; st_calls := st_calls s; st_outcomes := st_outcomes s;
         st_cycles := <[tok := Loaded c (load (st_row s) now hash)]> (st_cycles s);
         st_clock := now |}.
Proof.
  intros [Hv He Ha Ht Hlk Hc Hm] Hcy Hz Hclk. destruct (Hm _ _ Hcy) as ((Hid & Hcc & _) & Hle & Hok).
  assert (Hc' : Forall (λ k, text_leb (dispatched_at k) now = true) (st_calls s)).
  { rewrite Forall_forall in *. intros k Hk. by eapply text_leb_trans; [apply Hc|]. }
  split; simpl; try done. apply cycles_insert; simpl; try done.
  - intros tok' cy Hcy'. destruct (Hm _ _ Hcy') as ((? & ? & Hst) & ? & ?). split_and!; try done.
    destruct cy as [?|? v'|? v' ???]; [done| |]; simpl in *; by eapply text_leb_trans.
  - split_and!; [done|done|apply text_leb_refl].
  - intros Hf. destruct (Hok Hf) as [Hcv _]. split; [done|]. split; [|done]. by split_and!.
Qed.

Lemma reload_inv s tok c v hash :
  inv s → st_cycles s !! tok = Some (Loaded c v) →
  inv (with_cycles s (<[tok := Loaded c (load (st_row s) (v_now v) hash)]> (st_cycles s))).
Proof.
  intros Hi Hcy. apply inv_cycles; [done|]. destruct (i_cycles _ Hi _ _ Hcy) as ((Hid & Hcc & Hst) & Hle & Hok).
  apply cycles_insert; simpl; try done; [apply Hi|].
  intros Hf. destruct (Hok Hf) as [Hcv [(_ & Hz & Hat) _]]. split; [done|]. split; [|done]. by split_and!.
Qed.

(** A park that is loaded blocks the dispatch on its basis. *)
Lemma parked_blocks v r h :
  str_eqb (TrimSpace h) "" = false → parked_on (row_work r) h → v_parked v = parked_state r → v_hash v = h →
  dispatch_blocked v = true.
Proof.
  intros Hh [Hp Hcur] Hv <-. unfold dispatch_blocked, controllerParkBlocksDispatch. rewrite Hv.
  unfold parked_state. simpl. rewrite Hcur. simpl. unfold permanent in Hp.
  rewrite <- negb_orb, Hp. simpl. rewrite str_eqb_refl, andb_true_r.
  destruct (str_eqb (v_hash v) "") eqn:E; [|by rewrite orb_true_r].
  apply String.eqb_eq in E. rewrite E in Hh. done.
Qed.

(** The holder of the lease moves on; the others stay fenced out. *)
Lemma cycles_advance t r r' calls calls' m tok cy cy' :
  cycles_ok t r calls m → m !! tok = Some cy → verifyClaimTx r (claim_of cy) = true →
  claim_of cy' = claim_of cy → started_by t cy' →
  claim_token (row_lease r') = claim_token (row_lease r) →
  cycle_ok r' calls' cy' → cycles_ok t r' calls' (<[tok := cy']> m).
Proof.
  intros Hm Hcy Hf Hsame Hst Ht Hok tok' cy0. destruct (Hm _ _ Hcy) as ((Hid & Hcc & _) & Hle & _).
  unfold verifyClaimTx in Hf. apply andb_prop in Hf as [_ Hf%Z.eqb_eq].
  intros [[<- <-]|[Hne H]]%lookup_insert_Some; [rewrite Hsame, Ht; by split_and!|].
  destruct (Hm _ _ H) as ((Hid' & Hcc' & Hst') & Hle' & _). rewrite Ht. split_and!; try done.
  unfold verifyClaimTx. rewrite Ht. intros [_ Hf'%Z.eqb_eq]%andb_prop. congruence.
Qed.

Lemma begin_inv s tok c v w e a :
  inv s → st_cycles s !! tok = Some (Loaded c v) → dispatch_blocked v = false →
  BeginControllerAttempt (st_row s) (st_calls s) c (v_hash v) = Ok (w, e, a) →
  inv (with_cycles (with_row s (set_work (st_row s) w)) (<[tok := Working c v e a []]> (st_cycles s))).
Proof.
  intros [Hv He Ha Ht Hlk Hc Hm] Hcy Hnb Hb. destruct (Hm _ _ Hcy) as ((Hid & Hcc & Hst) & Hle & Hok). simpl in *.
  pose proof (begin_cases _ _ _ _ _ _ _ Hb) as (Hh & Hf & Ha5 & _ & Hwe & Hwa & _ & Hwh & Hwp).
  destruct (Hok Hf) as [Hcv [(Hvv & Hz & Hat) Hseen]]. simpl in Hcv.
  destruct (begin_beyond _ _ _ _ _ _ _ Hlk Hcv (proj1 Ha) Hb) as (Ha1 & Hee & Hlt & Hat').
  assert (Hnp : ¬ parked_on w (v_hash v)).
  { intros [Hp Hcur]. rewrite Hwh in Hcur. rewrite Hwp in Hp.
    destruct (stranded_call _ _ _); [done|]. simpl in Hcur.
    assert (Hon : parked_on (row_work (st_row s)) (v_hash v)) by done.
    by rewrite (parked_blocks v (st_row s) (v_hash v) Hh Hon (Hseen _ Hon) eq_refl) in Hnb. }
  destruct Hlk as [Hs Hval Hver Hep Hatt].
  split; simpl; rewrite ?Hwe, ?Hwa; try done; [lia|lia| |].
  - split; simpl; rewrite ?Hwe, ?Hwa; try done.
    eapply Forall_impl; [exact Hep|]. simpl. intros. lia.
  - eapply cycles_advance; [exact Hm|exact Hcy|exact Hf|done|exact Hst|done|].
    split; simpl; [done|]. rewrite Hwe, Hwa. split_and!; try done; try lia.
Qed.

Lemma coord_lt_irrefl p : ¬ coord_lt p p.
Proof. destruct p as [[[v e] a] n]. unfold coord_lt. lia. Qed.

Lemma record_spec r calls c k r' calls' :
  RecordAssessmentCall r calls c k = Ok (r', calls') →
  validateAssessmentCall k = true ∧ verifyClaimTx r c = true ∧ (calls' = calls ++ [k] ∨ calls' = calls ∧ k ∈ calls) ∧
  input_version r' = input_version r ∧ row_work r' = row_work r ∧
  claim_token (row_lease r') = claim_token (row_lease r) ∧
  lease_owner (row_lease r') = lease_owner (row_lease r) ∧
  lease_expires_at (row_lease r') = lease_expires_at (row_lease r) ∧
  lease_protected (row_lease r') = true.
Proof.
  unfold RecordAssessmentCall. destruct (validateAssessmentCall k && _) eqn:E; [|done].
  apply andb_prop in E as [E _]. destruct (verifyClaimTx r c) eqn:Hf; [|done].
  destruct (insertAssessmentCallTx calls k) as [l|] eqn:Ei; [|done]. intros [= <- <-]. cbn [res_bind]. split_and!; try done.
  unfold insertAssessmentCallTx in Ei. destruct (filter _ calls) as [|o os] eqn:Ef.
  - destruct (negb _); [|done]. injection Ei as <-. by left.
  - right. destruct (bool_decide_reflect (o = k)) as [->|]; [|done]. injection Ei as <-. split; [done|].
    assert (k ∈ filter (λ o, call_id o = call_id k) calls) as [_ Hk]%list_elem_of_filter by (rewrite Ef; by left). done.
Qed.

Lemma record_inv s tok c v e a ids id r calls :
  inv s → st_cycles s !! tok = Some (Working c v e a ids) → (length ids < 2)%nat →
  RecordAssessmentCall (st_row s) (st_calls s) c (new_call v e a ids id) = Ok (r, calls) →
  inv {| st_row := r; st_calls := calls; st_outcomes := st_outcomes s;
         st_cycles := <[tok := Working c v e a (ids ++ [id])]> (st_cycles s); st_clock := st_clock s |}.
Proof.
  intros [Hv He Ha Ht Hlk Hc Hm] Hcy Hlen (Hval' & Hf & Hcalls & Hr1 & Hr2 & Hr3 & Hr4 & _ & Hr5)%record_spec.
  destruct (Hm _ _ Hcy) as ((Hid & Hcc & Hst) & Hle & Hok). simpl in *.
  destruct (Hok Hf) as [Hcv ((Hvv & Hz & Hat) & Hh & He' & Ha' & Hea & Hlt & Hnp & _)]. simpl in Hcv.
  assert (Hcoord : coordinates (new_call v e a ids id) = (input_version (st_row s), e, a, Z.of_nat (length ids) + 1)%Z)
    by (unfold coordinates; simpl; by rewrite Hvv).
  assert (calls = st_calls s ++ [new_call v e a ids id]) as ->.
  { destruct Hcalls as [->|[_ Hk]]; [done|]. rewrite Forall_forall in Hlt. specialize (Hlt _ Hk).
    rewrite Hcoord in Hlt. by apply coord_lt_irrefl in Hlt. }
  destruct Hlk as [Hs Hval Hver Hep Hatt].
  split; simpl; rewrite ?Hr1, ?Hr2, ?Hr3; try done.
  - split; simpl; rewrite ?Hr1, ?Hr2; try (apply Forall_app; split; [done|]; repeat constructor; simpl; try lia; done).
    apply sorted_snoc; [done|]. rewrite Forall_forall in *. intros k Hk. split; [by apply Hat|].
    rewrite Hcoord. by apply Hlt.
  - apply Forall_app. by repeat constructor.
  - eapply cycles_advance; [exact Hm|exact Hcy|exact Hf|done|exact Hst|done|].
    split; simpl; [congruence|]. unfold view_ok. rewrite Hr1, Hr2. split_and!; try done; try lia.
    + apply Forall_app. split; [done|]. repeat constructor. simpl. apply text_leb_refl.
    + apply Forall_app. split.
      * eapply Forall_impl; [exact Hlt|]. intros k. unfold coord_lt, coordinates. rewrite length_app. simpl. lia.
      * apply Forall_singleton. unfold coordinates, coord_lt. simpl. rewrite Hvv, length_app. simpl. lia.
Qed.

(** A fresh epoch without a park, under the same lease. *)
Lemma epoch_inv s r :
  inv s → input_version r = input_version (st_row s) → row_lease r = row_lease (st_row s) →
  controller_retry_epoch (row_work r) = (controller_retry_epoch (row_work (st_row s)) + 1)%Z →
  (0 ≤ controller_work_attempts (row_work r) ≤ 5)%Z →
  controller_parked_reason (row_work r) = None → inv (with_row s r).
Proof.
  intros [Hv He Ha Ht [Hs Hval Hver Hep Hatt] Hc Hm] Hv' Hl He' Ha' Hp.
  assert (Hnp : ∀ h, ¬ parked_on (row_work r) h) by (intros h [H _]; by rewrite Hp in H).
  split; simpl; rewrite ?Hv', ?Hl, ?He'; try done; [lia| |].
  - split; simpl; rewrite ?Hv', ?He'; try done; rewrite !Forall_forall in *; intros k Hk;
      specialize (Hep _ Hk); lia.
  - intros tok cy Hcy. destruct (Hm _ _ Hcy) as (Hid & Hle & Hok). rewrite Hl.
    split; [done|]. split; [done|]. unfold verifyClaimTx. rewrite Hl. intros [Hver' Hcy']%Hok.
    split; [congruence|]. destruct cy as [?|? v|? v e a ids]; [done| |].
    + destruct Hcy' as [Hview _]. split; [|by intros h Hh%Hnp]. unfold view_ok. by rewrite Hv'.
    + destruct Hcy' as (Hview & Hh & Hee & Ha1 & _ & Hlt & _ & Hprot).
      unfold view_ok. rewrite Hv', Hl, He'. split_and!; try done; try lia; apply Hview.
Qed.

Lemma wake_cases r g now :
  WakeDependencyRecoveredSituations r g now = r ∨
  let r' := WakeDependencyRecoveredSituations r g now in
  controller_parked_reason (row_work r) = Some ParkedReasonDependency ∧
  (last_consumed_recovery_generation (row_work r) < g)%Z ∧
  input_version r' = input_version r ∧ row_lease r' = row_lease r ∧
  controller_retry_epoch (row_work r') = (controller_retry_epoch (row_work r) + 1)%Z ∧
  controller_work_attempts (row_work r') = 0%Z ∧ controller_parked_reason (row_work r') = None ∧
  last_consumed_recovery_generation (row_work r') = g.
Proof.
  unfold WakeDependencyRecoveredSituations. destruct (_ && _ && _ && _) eqn:E; [|by left].
  right. simpl. apply andb_prop in E as [E Hg%Z.ltb_lt]. apply andb_prop in E as [_ Hp%opt_is_some]. done.
Qed.

Lemma wake_inv s g now : inv s → inv (with_row s (WakeDependencyRecoveredSituations (st_row s) g now)).
Proof.
  intros Hi. destruct (wake_cases (st_row s) g now) as [->|(_ & _ & H1 & H2 & H3 & H4 & H5 & _)].
  - by destruct s.
  - apply epoch_inv; try done. lia.
Qed.

Lemma recover_cases r calls os now r' os' :
  RecoverInterruptedAssessmentCalls r calls os now = (r', os') →
  row_lease r' = row_lease r ∧ input_version r' = input_version r ∧
  (row_work r' = row_work r ∨
   ∃ k, k ∈ calls ∧ current_material_fact_hash (row_work r) ≠ Some (call_hash k) ∧
     row_work r' = advanceControllerBasisForRecoveryTx (row_work r) k).
Proof.
  unfold RecoverInterruptedAssessmentCalls. destruct (negb _); [intros [= <- <-]; by auto|].
  unfold loadStaleControllerBasisTx. destruct (best call_ltb calls) as [k|] eqn:E.
  - apply best_latest in E as [Hk _]; [|apply _].
    destruct (opt_is _ _) eqn:E2; cbv zeta; intros [= <- <-]; destruct (_ || _); simpl;
      split_and!; try done; try (by left); right; exists k; split_and!; try done;
      intros H%opt_is_some; congruence.
  - cbv zeta. intros [= <- <-]. destruct (_ || _); simpl; by auto.
Qed.

Lemma restart_inv s now r os :
  inv s → RecoverInterruptedAssessmentCalls (st_row s) (st_calls s) (st_outcomes s) now = (r, os) →
  inv {| st_row := r; st_calls := st_calls s; st_outcomes := os; st_cycles := ∅; st_clock := st_clock s |}.
Proof.
  intros Hi (Hl & Hv & Hw)%recover_cases.
  assert (Hgoal : inv (with_cycles (with_row s r) ∅)).
  { destruct Hw as [Hw|(k & Hk & _ & Hw)].
    - destruct Hi as [? ? ? ? [] ? _]. split; simpl; rewrite ?Hl, ?Hv, ?Hw; try done.
      by split; simpl; rewrite ?Hv, ?Hw.
    - assert (Hk' : validateAssessmentCall k = true)
        by (destruct (i_ledger _ Hi) as [_ H]; rewrite Forall_forall in H; by apply H).
      unfold validateAssessmentCall in Hk'. go_bool.
      apply inv_cycles; [|by intros ??]. apply epoch_inv; rewrite ?Hw; simpl; try done. lia. }
  by destruct Hgoal.
Qed.

Lemma refund_cases r calls os c cc w :
  refundBudgetDeniedAttemptTx r calls os c cc = Ok w →
  w = row_work r ∧ cc_BudgetDeniedCallID cc = None ∨
  ∃ id k, cc_BudgetDeniedCallID cc = Some id ∧ cc_Parked cc = Some ParkedReasonBudget ∧
    find_call calls id = Some k ∧ proved_unsent os id = true ∧
    call_version k = Claim_InputVersion c ∧ call_hash k = cc_MaterialFactHash cc ∧ call_number k = 1%Z ∧
    call_epoch k = controller_retry_epoch (row_work r) ∧
    call_attempt k = controller_work_attempts (row_work r) ∧
    controller_retry_epoch w = (controller_retry_epoch (row_work r) + 1)%Z ∧
    controller_work_attempts w = (controller_work_attempts (row_work r) - 1)%Z ∧
    controller_parked_reason w = controller_parked_reason (row_work r) ∧
    last_consumed_recovery_generation w = last_consumed_recovery_generation (row_work r).
Proof.
  unfold refundBudgetDeniedAttemptTx. destruct (cc_BudgetDeniedCallID cc) as [id|]; [|intros [= <-]; by left].
  destruct (opt_is _ _) eqn:Hp; [|done]. apply opt_is_some in Hp. cbv zeta.
  destruct (find_call calls id) as [k|] eqn:Hk; [|done].
  destruct (_ && _ && (call_number k =? 1)%Z) eqn:E1; [|done].
  destruct (proved_unsent os id) eqn:Hu; [|done]. cbn [andb]. destruct (negb _); [|done].
  destruct (_ && (controller_work_attempts _ =? _)%Z) eqn:E2; [|done]. intros [= <-]. right.
  exists id, k. unfold str_eqb in E1.
  apply andb_prop in E1 as [E1 ?%Z.eqb_eq]. apply andb_prop in E1 as [?%Z.eqb_eq ?%String.eqb_eq].
  apply andb_prop in E2 as [?%Z.eqb_eq ?%Z.eqb_eq]. by split_and!.
Qed.

Lemma commit_cases r calls os c cc r' :
  CommitController r calls os c cc = Ok r' →
  complete_claim c = true ∧ verifyClaimTx r c = true ∧ input_version r = Claim_InputVersion c ∧
  legal_lifecycle_update (row_lifecycle r) (cc_Lifecycle cc) = true ∧
  input_version r' = input_version r ∧ lease_owner (row_lease r') = None ∧
  claim_token (row_lease r') = claim_token (row_lease r) ∧
  ∃ w, refundBudgetDeniedAttemptTx r calls os c cc = Ok w ∧
    controller_retry_epoch (row_work r') = controller_retry_epoch w ∧
    controller_work_attempts (row_work r') = controller_work_attempts w.
Proof.
  unfold CommitController. destruct (complete_claim c); [|done]. destruct (verifyClaimTx r c); [|done].
  destruct (input_version r =? _)%Z eqn:Hv; [|done]. apply Z.eqb_eq in Hv.
  destruct (refundBudgetDeniedAttemptTx r calls os c cc) as [w|]; [|done]. simpl.
  destruct (legal_lifecycle_update _ _); [|done]. intros [= <-]. simpl. split_and!; try done. by exists w.
Qed.

Lemma find_call_in calls id k : find_call calls id = Some k → k ∈ calls ∧ call_id k = id.
Proof.
  unfold find_call. intros [H1 H2]%find_some. split; [by apply list_elem_of_In|by apply String.eqb_eq].
Qed.

Lemma commit_inv s c cc r m :
  inv s → CommitController (st_row s) (st_calls s) (st_outcomes s) c cc = Ok r →
  m ⊆ st_cycles s → inv (with_cycles (with_row s r) m).
Proof.
  intros Hi (_ & _ & _ & _ & Hv & Hl & Ht & w & Hw & He & Ha)%commit_cases Hsub.
  assert (Hr : inv (with_row s r)).
  { apply unlease_inv; try done.
    - rewrite Ha. destruct (refund_cases _ _ _ _ _ _ Hw)
        as [[-> _]|(id & k & _ & _ & [Hk _]%find_call_in & _ & _ & _ & _ & _ & Hka & _ & -> & _)]; [apply Hi|].
      destruct (i_ledger _ Hi) as [_ Hval]. rewrite Forall_forall in Hval. specialize (Hval _ Hk).
      unfold validateAssessmentCall in Hval. pose proof (i_attempts _ Hi). go_bool. lia.
    - rewrite He, Ha. destruct (refund_cases _ _ _ _ _ _ Hw) as [[-> _]|(id & k & H)]; [by left|right]. naive_solver. }
  apply inv_cycles; [done|]. intros tok cy Hcy. apply (i_cycles _ Hr).
  by eapply lookup_weaken.
Qed.

Lemma release_inv s c t r m :
  inv s → ReleaseControllerWork (st_row s) c t = Ok r → m ⊆ st_cycles s →
  inv (with_cycles (with_row s r) m).
Proof.
  intros Hi. unfold ReleaseControllerWork. destruct (complete_claim c); [|done].
  destruct (verifyClaimTx _ c); [|done]. intros [= <-] Hsub.
  match goal with |- inv (with_cycles (with_row s ?r) m) => assert (Hr : inv (with_row s r)) end.
  { destruct t; apply unlease_inv; simpl; try done; try apply Hi; by left. }
  apply inv_cycles; [done|]. intros tok cy Hcy. apply (i_cycles _ Hr). by eapply lookup_weaken.
Qed.

Lemma extend_inv s c now lease r :
  inv s → ExtendControllerLease (st_row s) c now lease = Ok r → inv (with_row s r).
Proof.
  intros Hi. unfold ExtendControllerLease. destruct (complete_claim c); [|done].
  destruct (verifyClaimTx _ c); [|done]. intros [= <-].
  destruct Hi as [? ? ? ? [] ? Hm]. split; simpl; try done.
Qed.

Lemma step_inv s s' : inv s → step s s' → inv s'.
Proof.
  intros Hi Hstep. destruct Hstep.
  - unfold joinSituationTx in H. destruct (negb _); [|done]. injection H as <-. by apply bump_inv.
  - by apply bump_inv.
  - unfold judgment_wake in H. destruct (_ && _); [|done]. injection H as <-. by apply bump_inv.
  - by eapply claim_inv.
  - by eapply load_inv.
  - by apply reload_inv.
  - by eapply begin_inv.
  - by eapply record_inv.
  - by destruct Hi.
  - eapply commit_inv; [done|done|apply delete_subseteq].
  - eapply release_inv; [done|done|apply delete_subseteq].
  - by eapply extend_inv.
  - apply inv_cycles; [done|]. apply cycles_delete, Hi.
  - by apply wake_inv.
  - by eapply restart_inv.
  - by apply bump_inv.
  - unfold recover_lease. destruct (lease_expired now _); [|by destruct s]. apply unlease_inv; try done; [by destruct Hi|by left].
Qed.

Lemma initial_inv s : initial s → inv s.
Proof.
  intros (Hv & _ & Ht & Hw & Hc & _ & Hm).
  split; rewrite ?Hw, ?Hc, ?Hm, ?Ht; simpl; try done.
  split; constructor.
Qed.

Lemma reachable_inv s : reachable s → inv s.
Proof.
  intros (s0 & H0%initial_inv & H). induction H as [|s1 s2 s3 Hstep _ IH]; [done|].
  by apply IH, (step_inv s1).
Qed.

(** ** What the ledger guarantees *)

Lemma sorted_nodup calls : StronglySorted call_before calls → NoDup (coordinates <$> calls).
Proof.
  induction 1 as [|k l _ IH Hk]; [constructor|]. rewrite fmap_cons. constructor; [|done].
  intros (k' & Heq & Hk')%list_elem_of_fmap. rewrite Forall_forall in Hk.
  destruct (Hk _ Hk') as [_ Hlt]. rewrite <- Heq in Hlt. by apply coord_lt_irrefl in Hlt.
Qed.

(** The ten coordinates of one epoch. *)
Definition slots (v e : Z) : list (Z * Z * Z * Z) :=
  a ← [1; 2; 3; 4; 5]%Z; n ← [1; 2]%Z; [(v, e, a, n)].

Lemma valid_call k :
  validateAssessmentCall k = true →
  (1 ≤ call_attempt k ≤ 5)%Z ∧ (call_number k = 1 ∨ call_number k = 2)%Z ∧ str_eqb (TrimSpace (call_id k)) "" = false.
Proof.
  unfold validateAssessmentCall. intros H. apply andb_prop in H as [H _]. apply andb_prop in H as [H Hn].
  rewrite orb_true_iff, !Z.eqb_eq in Hn. apply andb_prop in H as [H H5%Z.leb_le].
  apply andb_prop in H as [H H1%Z.leb_le]. apply andb_prop in H as [H _]. apply andb_prop in H as [H _].
  apply andb_prop in H as [H _]. by apply negb_true_iff in H.
Qed.

Lemma slot_of k :
  validateAssessmentCall k = true → coordinates k ∈ slots (call_version k) (call_epoch k).
Proof.
  intros (Ha & Hn & _)%valid_call. unfold coordinates.
  assert (call_attempt k = 1 ∨ call_attempt k = 2 ∨ call_attempt k = 3 ∨ call_attempt k = 4 ∨ call_attempt k = 5)%Z
    as Ha' by lia.
  unfold slots. cbn. repeat setoid_rewrite elem_of_cons.
  destruct Ha' as [->|[->|[->|[->| ->]]]], Hn as [->| ->]; tauto.
Qed.

(** A cycle that still holds its claim can record each of its two calls: the
    coordinates it was given never meet a call already in the ledger, whatever
    cycles crashed, stalled, lost their lease or were woken before, as long as
    the texts of the cycles' start times do not go back. *)
Theorem dispatch_never_collides s tok c v e a ids id :
  reachable s → st_cycles s !! tok = Some (Working c v e a ids) →
  verifyClaimTx (st_row s) c = true → (length ids < 2)%nat →
  str_eqb (TrimSpace id) "" = false → id ∉ call_id <$> st_calls s →
  let k := new_call v e a ids id in
  coordinates k = (input_version (st_row s), e, a, Z.of_nat (length ids) + 1)%Z ∧
  ∃ r, RecordAssessmentCall (st_row s) (st_calls s) c k = Ok (r, st_calls s ++ [k]).
Proof.
  intros Hi%reachable_inv Hcy Hf Hlen Hid Hfresh k.
  destruct (i_cycles _ Hi _ _ Hcy) as ((_ & Hcc & _) & _ & Hok). simpl in *.
  destruct (Hok Hf) as [_ ((Hvv & Hz & _) & Hh & He & Ha & _ & Hlt & _)].
  assert (Hcoord : coordinates k = (input_version (st_row s), e, a, Z.of_nat (length ids) + 1)%Z)
    by (unfold k, coordinates; simpl; by rewrite Hvv).
  split; [done|]. unfold RecordAssessmentCall. rewrite Hcc, Hf.
  assert (Hval : validateAssessmentCall k = true).
  { unfold validateAssessmentCall, k. simpl. rewrite Hid, Hh, Hz, Hvv. pose proof (i_version _ Hi).
    rewrite !(proj2 (Z.leb_le _ _)) by lia. simpl. rewrite andb_true_r, orb_true_iff, !Z.eqb_eq. lia. }
  rewrite Hval. simpl. unfold insertAssessmentCallTx.
  rewrite filter_none by (intros o Ho Heq; apply Hfresh; apply list_elem_of_fmap; by exists o).
  rewrite bool_decide_eq_false_2; [by eexists|].
  intros (k' & Heq & Hk')%list_elem_of_fmap. rewrite Forall_forall in Hlt. specialize (Hlt _ Hk').
  change (coordinates k = coordinates k') in Heq. rewrite <- Heq, Hcoord in Hlt. by apply coord_lt_irrefl in Hlt.
Qed.

(** C30. The ledger holds at most ten calls of one input version and epoch, five
    attempts of two, and no coordinates twice. *)
Theorem dispatch_budget s v e :
  reachable s →
  NoDup (coordinates <$> st_calls s) ∧
  (length (filter (λ k, call_version k = v ∧ call_epoch k = e) (st_calls s)) ≤ 10)%nat.
Proof.
  intros [Hs Hval _ _ _]%reachable_inv%i_ledger. pose proof (sorted_nodup _ Hs) as Hnd. split; [done|].
  set (l := filter _ _). change 10%nat with (length (slots v e)). rewrite <- (length_fmap coordinates).
  apply submseteq_length, NoDup_submseteq.
  - eapply sublist_NoDup; [exact Hnd|]. apply fmap_sublist, sublist_filter.
  - intros p (k & -> & [[<- <-] Hk]%list_elem_of_filter)%list_elem_of_fmap.
    rewrite Forall_forall in Hval. by apply slot_of, Hval.
Qed.

(** A fresh budget of attempts opens for four reasons only: a newer outage
    generation wakes a Situation parked on the dependency, the basis of an
    attempt differs from the one worked on last, recovery repairs a dispatch
    whose cycle did not commit, or a refused call was proved unsent. *)
Theorem new_epoch_reasons s s' :
  step s s' →
  let w := row_work (st_row s) in
  let w' := row_work (st_row s') in
  controller_retry_epoch w' = controller_retry_epoch w ∨
  controller_retry_epoch w' = (controller_retry_epoch w + 1)%Z ∧
  (controller_parked_reason w = Some ParkedReasonDependency ∧
     (last_consumed_recovery_generation w < last_consumed_recovery_generation w')%Z ∨
   (∃ tok c v h, st_cycles s !! tok = Some (Loaded c v) ∧ h ≠ v_hash v ∧
      (repaired w (stranded_call w (st_calls s) (Claim_InputVersion c))).1 = Some h) ∨
   (∃ k, k ∈ st_calls s ∧ current_material_fact_hash w ≠ Some (call_hash k) ∧ st_cycles s' = ∅) ∨
   (∃ id, proved_unsent (st_outcomes s) id = true)).
Proof.
  intros Hstep. destruct Hstep; simpl; try by left.
  - unfold joinSituationTx in H. destruct (negb _); [|done]. injection H as <-. by left.
  - unfold judgment_wake in H. destruct (_ && _); [|done]. injection H as <-. by left.
  - apply claim_spec in H as (_ & _ & _ & _ & _ & _ & -> & _). by left.
  - apply begin_cases in H1 as (_ & _ & _ & Hn & -> & _).
    apply next_cases in Hn as [(_ & -> & _)|[(_ & -> & _)|((h & Hh & Hne) & -> & _)]]; [by left|by left|].
    right. split; [done|]. right. left. by exists tok, c, v, h.
  - apply record_spec in H1 as (_ & _ & _ & _ & -> & _). by left.
  - apply commit_cases in H1 as (_ & _ & _ & _ & _ & _ & _ & w & Hw & -> & _).
    apply refund_cases in Hw as [[-> _]|(id & k & _ & _ & _ & Hu & _ & _ & _ & _ & _ & -> & _)]; [by left|].
    right. split; [done|]. right. right. right. by exists id.
  - unfold ReleaseControllerWork in H0. destruct (complete_claim _); [|done].
    destruct (verifyClaimTx _ _); [|done]. injection H0 as <-. left. by destruct retryAt.
  - unfold ExtendControllerLease in H0. destruct (complete_claim _); [|done].
    destruct (verifyClaimTx _ _); [|done]. injection H0 as <-. by left.
  - destruct (wake_cases (st_row s) generation now) as [->|(Hp & Hg & _ & _ & -> & _ & _ & ->)]; [by left|].
    right. split; [done|]. by left.
  - apply recover_cases in H as (_ & _ & [->|(k & Hk & Hne & ->)]); [by left|].
    right. split; [done|]. right. right. left. by exists k.
  - unfold recover_lease. destruct (lease_expired now _); by left.
Qed.

(** A policy or capability rejection is final for its basis: while the row
    carries that park, no step of any cycle dispatches a call on the same
    material facts. *)
Theorem permanent_park_final s s' k :
  reachable s → step s s' → st_calls s' = st_calls s ++ [k] →
  ¬ parked_on (row_work (st_row s)) (call_hash k).
Proof.
  intros Hi%reachable_inv Hstep Hk.
  assert (Hsame : st_calls s ≠ st_calls s ++ [k])
    by (intros H%(f_equal length); rewrite length_app in H; simpl in H; lia).
  destruct Hstep; simpl in *; try done.
  apply record_spec in H1 as (_ & Hf & [->|[-> _]] & _); [|done]. apply (inj (app _)) in Hk as [= <-].
  destruct (i_cycles _ Hi _ _ H) as (_ & _ & Hok). destruct (Hok Hf) as [_ (_ & _ & _ & _ & _ & _ & Hnp & _)].
  done.
Qed.

(** C31. A paid call is not thrown away for a new input: from its first recorded
    call on, while its lease is live, a cycle that holds the claim cannot be
    superseded by an applied input, and the fence of its commit is open. *)
Theorem paid_call_protected s tok c v e a ids now cc :
  reachable s → st_cycles s !! tok = Some (Working c v e a ids) → ids ≠ [] →
  verifyClaimTx (st_row s) c = true → lease_live (row_lease (st_row s)) now = true →
  (∀ reason at_, joinSituationTx (st_row s) reason at_ now = Err ErrSituationProtected) ∧
  (legal_lifecycle_update (row_lifecycle (st_row s)) (cc_Lifecycle cc) = true →
   cc_BudgetDeniedCallID cc = None →
   ∃ r, CommitController (st_row s) (st_calls s) (st_outcomes s) c cc = Ok r).
Proof.
  intros Hi%reachable_inv Hcy Hids Hf Hlive. destruct (i_cycles _ Hi _ _ Hcy) as ((_ & Hcc & _) & _ & Hok).
  destruct (Hok Hf) as [Hcv (_ & _ & _ & _ & _ & _ & _ & Hprot)]. simpl in *. split.
  - intros reason at_. unfold joinSituationTx. by rewrite Hlive, (Hprot Hids).
  - intros Hleg Hb. unfold CommitController, refundBudgetDeniedAttemptTx.
    rewrite Hcc, Hf, Hb, (proj2 (Z.eqb_eq _ _)) by done. simpl. rewrite Hleg. by eexists.
Qed.

(** ** A concrete run *)

Definition ex_row0 : situation_row :=
  {| input_version := 1; row_lifecycle := LifecycleActive;
     row_lease := {| lease_owner := None; lease_expires_at := None; claim_token := 0;
                     supersede_streak := 0; lease_protected := false |};
     row_schedule := {| next_assessment_at := Second; retry_at := None; due_reasons := ["incident_created"] |};
     row_work := {| current_material_fact_hash := None; controller_retry_epoch := 0;
                    controller_work_attempts := 0; controller_parked_reason := None;
                    last_consumed_recovery_generation := 0 |} |}.

Definition ex_s0 : state :=
  {| st_row := ex_row0; st_calls := []; st_outcomes := []; st_cycles := ∅; st_clock := 0%Z |}.

Definition ex_claim : Claim :=
  {| ClaimOwner := "w"; ClaimToken := 1; Claim_InputVersion := 1; Claim_DueReasons := ["incident_created"];
     Claim_NextAssessmentAt := Second |}.

Definition ex_lease (prot : bool) : lease_columns :=
  {| lease_owner := Some "w"; lease_expires_at := Some (Add (2 * Second)%Z Minute); claim_token := 1;
     supersede_streak := 0; lease_protected := prot |}.

Definition ex_row1 : situation_row := set_lease ex_row0 (ex_lease false).
Definition ex_s1 : state := with_cycles (with_row ex_s0 ex_row1) (<[1%Z := Claimed ex_claim]> ∅).
Definition ex_view : view := load ex_row1 (2 * Second)%Z "m".

Definition ex_s2 : state :=
  {| st_row := ex_row1; st_calls := []; st_outcomes := [];
     st_cycles := <[1%Z := Loaded ex_claim ex_view]> (st_cycles ex_s1); st_clock := (2 * Second)%Z |}.

Definition ex_work : work_columns :=
  {| current_material_fact_hash := None; controller_retry_epoch := 0; controller_work_attempts := 1;
     controller_parked_reason := None; last_consumed_recovery_generation := 0 |}.

Definition ex_s3 : state :=
  with_cycles (with_row ex_s2 (set_work ex_row1 ex_work))
    (<[1%Z := Working ex_claim ex_view 0 1 []]> (st_cycles ex_s2)).

Definition ex_dispatched : call_row := new_call ex_view 0 1 [] "c1".

Definition ex_s4 : state :=
  {| st_row := set_lease (set_work ex_row1 ex_work) (ex_lease true); st_calls := [ex_dispatched];
     st_outcomes := []; st_cycles := <[1%Z := Working ex_claim ex_view 0 1 ["c1"]]> (st_cycles ex_s3);
     st_clock := (2 * Second)%Z |}.

Lemma ex_step1 : step ex_s0 ex_s1.
Proof. exact (step_claim ex_s0 "w" (2 * Second)%Z Minute ex_row1 ex_claim eq_refl). Qed.

Lemma ex_step2 : step ex_s1 ex_s2.
Proof. exact (step_load ex_s1 1%Z ex_claim (2 * Second)%Z "m" eq_refl eq_refl eq_refl). Qed.

Lemma ex_step3 : step ex_s2 ex_s3.
Proof. exact (step_begin ex_s2 1%Z ex_claim ex_view ex_work 0%Z 1%Z eq_refl eq_refl eq_refl). Qed.

Lemma ex_step4 : step ex_s3 ex_s4.
Proof.
  refine (step_record ex_s3 1%Z ex_claim ex_view 0%Z 1%Z [] "c1" _ _ eq_refl _ _); [simpl; lia|].
  vm_compute. reflexivity.
Qed.

Lemma ex_reachable3 : reachable ex_s3.
Proof.
  exists ex_s0. split; [by vm_compute|].
  eapply rtc_l; [exact ex_step1|]. eapply rtc_l; [exact ex_step2|]. by apply rtc_once, ex_step3.
Qed.

Lemma ex_reachable4 : reachable ex_s4.
Proof.
  destruct ex_reachable3 as (s0 & H0 & H). exists s0. split; [exact H0|].
  eapply rtc_r; [exact H|exact ex_step4].
Qed.

Lemma dispatch_never_collides_witness :
  ∃ r, RecordAssessmentCall (st_row ex_s4) (st_calls ex_s4) ex_claim (new_call ex_view 0 1 ["c1"] "c2")
       = Ok (r, [ex_dispatched; new_call ex_view 0 1 ["c1"] "c2"]).
Proof.
  assert (Hfresh : "c2" ∉ call_id <$> st_calls ex_s4).
  { intros H. apply list_elem_of_In in H as [H|[]]. vm_compute in H. discriminate. }
  exact (proj2 (dispatch_never_collides ex_s4 1%Z ex_claim ex_view 0%Z 1%Z ["c1"] "c2"
    ex_reachable4 eq_refl eq_refl ltac:(simpl; lia) eq_refl Hfresh)).
Defined.

Lemma dispatch_budget_witness : NoDup (coordinates <$> st_calls ex_s4).
Proof. exact (proj1 (dispatch_budget ex_s4 1%Z 0%Z ex_reachable4)). Defined.

Lemma new_epoch_reasons_witness : controller_retry_epoch (row_work (st_row ex_s3)) = 0%Z.
Proof.
  destruct (new_epoch_reasons ex_s2 ex_s3 ex_step3) as [H|[H _]]; [exact H|vm_compute in H; discriminate].
Defined.

Lemma permanent_park_final_witness : ¬ parked_on (row_work (st_row ex_s3)) "m".
Proof. exact (permanent_park_final ex_s3 ex_s4 ex_dispatched ex_reachable3 ex_step4 eq_refl). Defined.

Lemma paid_call_protected_witness :
  joinSituationTx (st_row ex_s4) "new_symptom" (3 * Second)%Z (3 * Second)%Z = Err ErrSituationProtected.
Proof.
  exact (proj1 (paid_call_protected ex_s4 1%Z ex_claim ex_view 0%Z 1%Z ["c1"] (3 * Second)%Z
    {| cc_MaterialFactHash := "m"; cc_Lifecycle := LifecycleActive; cc_NextAssessmentAt := Hour;
       cc_RetryAt := None; cc_Parked := None; cc_BudgetDeniedCallID := None;
       cc_JudgmentApplicable := false; cc_EnvelopeMatched := false |}
    ex_reachable4 eq_refl ltac:(discriminate) eq_refl eq_refl) "new_symptom" (3 * Second)%Z).
Defined.
