(* ===== verification/Controller.v ===== *)
(** * The controller (internal/situation/controller.go, controller_budget.go)

    One [Reconcile]: the pure derivations of a cycle ([Lifecycle], [Assessment],
    [TriageGate]) and the order in which it reads, begins an attempt, records a
    call, sends it, closes it and commits.  The store and the model's client are
    the classes [Store] and [Client], the interfaces [ControllerStore] and
    [AssessmentClient] of the source; the theorems are about their instances
    over the transition system of [ControllerStore], where other actors may take
    any steps between two operations.

    [BuildSnapshot] and the preparation of evidence are part of what
    [op_LoadReconciliationInput] returns; a failure to build the prompt or to
    append facts ends a cycle as a failed load or record does.  The operator's
    judgment and the evaluation of the envelopes are part of the reading too, and
    [commit] overlays them on the Assessment ([Judgment], [ExpectedBehavior]).
    The history of a commit, the audit log and usage are left out. *)

From stdpp Require Import prelude strings list gmap sorting relations pretty.
From S2P Require Import Prelude SituationModel Schedule ExpectedBehavior Judgment Snapshot Lifecycle.
From S2P Require Import Assessment TriageGate ControllerStore.

(** ** Configuration *)

Record RetryConfig : Type := {
  Retry_Min : Duration;
  Retry_Max : Duration;
  JitterPercent : Z
}.

Record Config : Type := {
  cfg_Lifecycle : Lifecycle.ControllerConfig;
  cfg_Cadence : CadenceTempo;
  MaxL2CallsPerAttempt : Z;
  MaxWorkAttemptsPerInput : Z;
  cfg_Retry : RetryConfig
}.

Definition or_default (z d : Z) : Z := if (z <=? 0)%Z then d else z.

Definition Config_withDefaults (c : Config) : Config :=
  {| cfg_Lifecycle :=
       {| WebhookRecoveryGrace := or_default (WebhookRecoveryGrace (cfg_Lifecycle c)) (120 * Second)%Z;
          PollingIntervalSeconds := PollingIntervalSeconds (cfg_Lifecycle c) |};
     cfg_Cadence := cfg_Cadence c;
     MaxL2CallsPerAttempt := or_default (MaxL2CallsPerAttempt c) 2%Z;
     MaxWorkAttemptsPerInput := or_default (MaxWorkAttemptsPerInput c) 5%Z;
     cfg_Retry :=
       {| Retry_Min := or_default (Retry_Min (cfg_Retry c)) (5 * Second)%Z;
          Retry_Max := or_default (Retry_Max (cfg_Retry c)) (300 * Second)%Z;
          JitterPercent := or_default (JitterPercent (cfg_Retry c)) 20%Z |} |}.

(** The backoff before the jitter. *)
Definition backoff_base (cfg : RetryConfig) (workAttempt : Z) : Duration :=
  let shift := Z.min 30 (Z.max workAttempt 1 - 1) in
  let d := dur_mul (Retry_Min cfg) (Z.shiftl 1 shift) in
  if (d <=? 0)%Z || (Retry_Max cfg <? d)%Z then Retry_Max cfg else d.

(** [jitter d] is the random part, drawn for the capped backoff [d]. *)
Definition retryBackoff (cfg : RetryConfig) (jitter : Duration → Duration) (workAttempt : Z) : Duration :=
  let d := backoff_base cfg workAttempt in
  let d := if (0 <? JitterPercent cfg)%Z then dur_add d (jitter d) else d in
  if (d <=? 0)%Z then Retry_Min cfg else d.

(** ** Attempts *)

Definition synthesizeSequence (inputVersion retryEpoch workAttempt callNumber : Z) : Z :=
  (inputVersion * 1000000 + retryEpoch * 10000 + workAttempt * 100 + callNumber)%Z.

(** [Derivation] is [None] where the source has the empty text. *)
Record AssessmentAttempt : Type := {
  At_CallID : option string;
  At_InputVersion : Z;
  At_RetryEpoch : Z;
  At_WorkAttempt : Z;
  At_Sequence : Z;
  At_Derivation : option AssessmentDerivation;
  At_Status : string;
  At_Validated : option Assessment;
  At_ValidationErrors : list string;
  At_RequestStarted : string;
  At_ReusedFrom : option string
}.

Definition buildAuthoritativeAttempt (result : AssessmentResult) (callID : option string)
    (retryEpoch workAttempt : Z) : AssessmentAttempt :=
  {| At_CallID := callID; At_InputVersion := AR_InputVersion result; At_RetryEpoch := retryEpoch;
     At_WorkAttempt := workAttempt; At_Sequence := 0; At_Derivation := Some (AR_Derivation result);
     At_Status := "authoritative"; At_Validated := Some (AR_Assessment result);
     At_ValidationErrors := [];
     At_RequestStarted := match callID with Some _ => "true" | None => "false" end;
     At_ReusedFrom := AR_ReusedFromAssessmentID result |}.

(** What [errors.Is] and [errors.As] find in the chain of a call's error;
    [ce_deferred] is the [RetryAt] of a [BudgetDeferredError]. *)
Record CallError : Type := {
  ce_schema_violation : bool;
  ce_response_truncated : bool;
  ce_response_invalid : bool;
  ce_retryable : option Z;
  ce_api : option Z;
  ce_budget_exhausted : bool;
  ce_request_not_sent : bool;
  ce_deferred : option (option Time)
}.

Definition transport_error (e : CallError) : TransportError :=
  {| is_decode_failure := ce_schema_violation e || ce_response_truncated e || ce_response_invalid e;
     retryable_status := ce_retryable e; api_status := ce_api e |}.

Definition sanitizeTransportError (e : CallError) : string :=
  if ce_budget_exhausted e && ce_request_not_sent e then BudgetDeferralErrorClass
  else if ce_schema_violation e then "schema_violation"
  else if ce_response_truncated e then "response_truncated"
  else if ce_response_invalid e then "response_invalid"
  else match ce_retryable e with
       | Some st => "retryable_http_" +:+ pretty st
       | None => match ce_api e with
                 | Some st => "api_http_" +:+ pretty st
                 | None => "transport_failure"
                 end
       end.

Definition outcomeErrorCodes (issues : list ValidationIssue) : list string := VI_Code <$> issues.

Definition buildOutcomeAttempt (callID : string) (inputVersion retryEpoch workAttempt sequence : Z)
    (vr : option ValidationResult) (transportErr : option CallError) (started : string)
    : AssessmentAttempt :=
  {| At_CallID := Some callID; At_InputVersion := inputVersion; At_RetryEpoch := retryEpoch;
     At_WorkAttempt := workAttempt; At_Sequence := sequence; At_Derivation := None;
     At_Status := match vr with Some _ => "rejected" | None => "failed" end;
     At_Validated := None;
     At_ValidationErrors :=
       match vr, transportErr with
       | Some v, _ => outcomeErrorCodes (VR_Errors v)
       | None, Some e => [sanitizeTransportError e]
       | None, None => []
       end;
     At_RequestStarted := started; At_ReusedFrom := None |}.

Definition buildStaleOutcome (a : AssessmentAttempt) (callID : string) : AssessmentAttempt :=
  {| At_CallID := Some callID; At_InputVersion := At_InputVersion a; At_RetryEpoch := At_RetryEpoch a;
     At_WorkAttempt := At_WorkAttempt a;
     At_Sequence := synthesizeSequence (At_InputVersion a) (At_RetryEpoch a) (At_WorkAttempt a) 3;
     At_Derivation := None; At_Status := "stale"; At_Validated := At_Validated a;
     At_ValidationErrors := At_ValidationErrors a; At_RequestStarted := At_RequestStarted a;
     At_ReusedFrom := None |}.

(** The columns of the store's row. *)
Definition outcome_of (a : AssessmentAttempt) : outcome_row :=
  {| outcome_call := default "" (At_CallID a); outcome_status := At_Status a;
     request_started := At_RequestStarted a; error_codes := At_ValidationErrors a |}.

(** ** The commit *)

(** [ControllerCommit] as the controller builds it.  [pc_Parked] is
    [Parked.Reason] when [Parked.Touch] is set. *)
Record commit_plan : Type := {
  pc_MaterialFactHash : string;
  pc_TriageDecisions : list TriageDecision;
  pc_Lifecycle : lifecycleResolution;
  pc_RetryAt : option Time;
  pc_LastErrorClass : option string;
  pc_Parked : option string;
  pc_BudgetDeniedCallID : option string;
  pc_Assessment : option Assessment;
  pc_Attempt : option AssessmentAttempt;
  pc_Coverage : list IncidentCoverage;
  pc_Attention : Attention;
  pc_NextAssessmentAt : Time;
  pc_JudgmentApplicable : bool;
  pc_Evaluation : option ExpectedBehaviorEvaluation
}.

(** The three changes a path makes to [base] before it derives an Assessment. *)
Definition with_outcome (p : commit_plan) (retryAt : option Time) (parked denied class : option string)
    : commit_plan :=
  {| pc_MaterialFactHash := pc_MaterialFactHash p; pc_TriageDecisions := pc_TriageDecisions p;
     pc_Lifecycle := pc_Lifecycle p; pc_RetryAt := retryAt; pc_LastErrorClass := class;
     pc_Parked := parked; pc_BudgetDeniedCallID := denied; pc_Assessment := pc_Assessment p;
     pc_Attempt := pc_Attempt p; pc_Coverage := pc_Coverage p; pc_Attention := pc_Attention p;
     pc_NextAssessmentAt := pc_NextAssessmentAt p; pc_JudgmentApplicable := pc_JudgmentApplicable p;
     pc_Evaluation := pc_Evaluation p |}.

Definition with_assessment (p : commit_plan) (a : Assessment) (attempt : option AssessmentAttempt)
    (coverage : list IncidentCoverage) : commit_plan :=
  {| pc_MaterialFactHash := pc_MaterialFactHash p; pc_TriageDecisions := pc_TriageDecisions p;
     pc_Lifecycle := pc_Lifecycle p; pc_RetryAt := pc_RetryAt p;
     pc_LastErrorClass := pc_LastErrorClass p; pc_Parked := pc_Parked p;
     pc_BudgetDeniedCallID := pc_BudgetDeniedCallID p; pc_Assessment := Some a;
     pc_Attempt := attempt; pc_Coverage := coverage; pc_Attention := pc_Attention p;
     pc_NextAssessmentAt := pc_NextAssessmentAt p; pc_JudgmentApplicable := pc_JudgmentApplicable p;
     pc_Evaluation := pc_Evaluation p |}.

Definition finalizeCheckpoint (p : commit_plan) (now : Time) : commit_plan :=
  {| pc_MaterialFactHash := pc_MaterialFactHash p; pc_TriageDecisions := pc_TriageDecisions p;
     pc_Lifecycle := pc_Lifecycle p; pc_RetryAt := pc_RetryAt p;
     pc_LastErrorClass := pc_LastErrorClass p; pc_Parked := pc_Parked p;
     pc_BudgetDeniedCallID := pc_BudgetDeniedCallID p; pc_Assessment := pc_Assessment p;
     pc_Attempt := pc_Attempt p; pc_Coverage := pc_Coverage p;
     pc_Attention := match pc_Assessment p with
                     | Some a => A_Attention a
                     | None => Attention_other ""
                     end;
     pc_NextAssessmentAt :=
       match pc_Assessment p ≫= λ a, AC_NextUpdateAt (A_ActionContract a) with
       | Some t => t
       | None => if Terminal (lr_Lifecycle (pc_Lifecycle p)) then now else Add now Minute
       end;
     pc_JudgmentApplicable := pc_JudgmentApplicable p; pc_Evaluation := pc_Evaluation p |}.

(** The columns the store writes. *)
Definition store_commit (p : commit_plan) : ControllerCommit :=
  {| cc_MaterialFactHash := pc_MaterialFactHash p; cc_Lifecycle := lr_Lifecycle (pc_Lifecycle p);
     cc_NextAssessmentAt := pc_NextAssessmentAt p; cc_RetryAt := pc_RetryAt p;
     cc_Parked := pc_Parked p; cc_BudgetDeniedCallID := pc_BudgetDeniedCallID p;
     cc_JudgmentApplicable := pc_JudgmentApplicable p;
     cc_EnvelopeMatched :=
       match pc_Evaluation p with
       | Some ev => bool_decide (ev_Disposition ev = DispositionMatched)
       | None => false
       end |}.

Definition set_semantic_retry (st : ControllerState) (phase : SemanticRetryPhase) (at_ : option Time)
    : ControllerState :=
  {| CS_Lifecycle := CS_Lifecycle st; CS_Attention := CS_Attention st;
     CS_OperatorActionRequired := CS_OperatorActionRequired st; CS_TriagePhase := CS_TriagePhase st;
     CS_SemanticRetry := phase; CS_Tempo := CS_Tempo st; TriageDueAt := TriageDueAt st;
     FutureTriageDueAt := FutureTriageDueAt st; SemanticRetryAt := at_;
     RecoveryGraceUntil := RecoveryGraceUntil st;
     LifecycleObservationDeadlineAt := LifecycleObservationDeadlineAt st;
     EarliestPersistedCheckpoint := EarliestPersistedCheckpoint st |}.

Definition set_snap_lifecycle (s : Snapshot) (l : Lifecycle) : Snapshot :=
  {| Snap_SituationID := Snap_SituationID s; Snap_Incidents := Snap_Incidents s;
     Snap_InputVersion := Snap_InputVersion s; Snap_Lifecycle := l;
     Snap_DurationClass := Snap_DurationClass s; Snap_Facts := Snap_Facts s;
     Snap_Symptoms := Snap_Symptoms s; EligibleReasons := EligibleReasons s;
     Snap_MaterialFactHash := Snap_MaterialFactHash s;
     Snap_AssessmentBasisHash := Snap_AssessmentBasisHash s; Snap_Observations := Snap_Observations s;
     CapabilityResults := CapabilityResults s; Deferred := Deferred s |}.

(** Retry or park, after a work attempt without an accepted result: [RetryAt]
    and [Parked]. *)
Definition conclude (cfg : Config) (jitter : Duration → Duration) (policy : L2RetryPolicy)
    (workAttempt : Z) (now : Time) : option Time * option string :=
  if negb (DurableRetry policy) || (MaxWorkAttemptsPerInput cfg <=? workAttempt)%Z then
    (None, Some (parkedReasonForOutcome (RP_Outcome policy)))
  else
    (Some (Add now (retryBackoff (cfg_Retry cfg) jitter workAttempt)),
     if (workAttempt =? 1)%Z then Some "" else None).

Definition outcome_text (o : L2Outcome) : string :=
  match o with
  | L2OutcomeAccepted => "accepted"
  | L2OutcomeContradicted => "contradicted"
  | L2OutcomeMalformed => "malformed"
  | L2OutcomeTransportFailure => "transport_failure"
  | L2OutcomeRateLimited => "rate_limited"
  | L2OutcomePolicyRejected => "policy_rejected"
  | L2OutcomeCapabilityRejected => "capability_rejected"
  | L2OutcomeStaleBasis => "stale_basis"
  end.

(** ** The store and the client

    A state and error monad over a world [W]: an error keeps what was done
    before it. *)

Definition M (W A : Type) : Type := W → result controller_error A * W.

#[export] Instance M_ret W : MRet (M W) := λ A a w, (Ok a, w).
#[export] Instance M_bind W : MBind (M W) := λ A B k m w,
  match m w with
  | (Ok a, w') => k a w'
  | (Err e, w') => (Err e, w')
  end.
Definition fail {W A} (e : controller_error) : M W A := λ w, (Err e, w).

(** What a cycle works on: the coherent read, the Snapshot and the source
    lifecycle derived from it. *)
Record Reading : Type := {
  rd_Input : SnapshotInput;
  rd_Snapshot : Snapshot;
  rd_SourceLifecycle : SourceLifecycle;
  rd_Current : option AuthoritativeAssessment;
  rd_CurrentReusedFrom : option string;
  rd_Parked : ControllerParkedState;
  rd_RetryAt : option Time;
  rd_SourceDefinitions : list SourceDefinition;
  rd_Judgment : option SituationJudgment;
  rd_JudgmentApplicability : JudgmentApplicability;
  rd_ExpectedBehavior : option ExpectedBehaviorEvaluation
}.

Record DispatchedCall : Type := {
  dc_ID : string;
  dc_MaterialFactHash : string;
  dc_InputVersion : Z;
  dc_RetryEpoch : Z;
  dc_WorkAttempt : Z;
  dc_CallNumber : Z;
  dc_DispatchedAt : Time
}.

Definition call_row_of (k : DispatchedCall) : call_row :=
  {| call_id := dc_ID k; call_version := dc_InputVersion k; call_epoch := dc_RetryEpoch k;
     call_attempt := dc_WorkAttempt k; call_number := dc_CallNumber k; call_hash := dc_MaterialFactHash k;
     dispatched_at := dc_DispatchedAt k |}.

Class Store (W : Type) : Type := {
  op_LoadReconciliationInput : Claim → Time → M W Reading;
  op_BeginControllerAttempt : Claim → string → M W (Z * Z);
  op_RecordAssessmentCall : Claim → DispatchedCall → M W unit;
  op_AppendAssessmentOutcome : AssessmentAttempt → M W unit;
  op_CommitController : Claim → commit_plan → M W unit
}.

(** [llm.OneShotCompletion] and the error beside it. *)
Record Reply (Raw : Type) : Type := {
  rp_Raw : Raw;
  rp_RequestStarted : string;
  rp_Err : option CallError
}.
Arguments rp_Raw {Raw} r.
Arguments rp_RequestStarted {Raw} r.
Arguments rp_Err {Raw} r.

Class Client (W Raw : Type) : Type := { op_CompleteOnce : M W (Reply Raw) }.

(** ** One cycle *)

Record dispatchResult : Type := {
  budgetDeniedBeforeDispatch : bool;
  dr_proposal : option AssessmentProposal;
  lastVR : option ValidationResult;
  lastCallID : string;
  correctionUsed : bool;
  dr_transportErr : option CallError
}.

Definition dispatch_zero : dispatchResult :=
  {| budgetDeniedBeforeDispatch := false; dr_proposal := None; lastVR := None; lastCallID := "";
     correctionUsed := false; dr_transportErr := None |}.

(** The commits built from the cycle's data. *)
Section plans.
Context (mdigest : membershipDigestDTO → string) (idigest : incidentInputDigestDTO → string)
        (rd : Reading) (snap : Snapshot) (now : Time).

(** [fallbackOrPreserve], with its attempt and coverage. *)
Definition preserve_into (p : commit_plan) (state : ControllerState) (retryEpoch workAttempt : Z)
    : commit_plan :=
  let inp := rd_Input rd in
  match revalidatedPreservedAssessment mdigest idigest snap inp (rd_Current rd) (rd_CurrentReusedFrom rd)
          state now with
  | Some a => with_assessment p a None []
  | None =>
      let r := DeterministicFallback mdigest idigest snap inp state now in
      with_assessment p (AR_Assessment r)
        (Some (buildAuthoritativeAttempt r None retryEpoch workAttempt)) (AR_Coverage r)
  end.

Definition result_plan (p : commit_plan) (r : AssessmentResult) (callID : option string)
    (retryEpoch workAttempt : Z) : commit_plan :=
  let p := with_assessment p (AR_Assessment r)
             (Some (buildAuthoritativeAttempt r callID retryEpoch workAttempt)) (AR_Coverage r) in
  finalizeCheckpoint (with_outcome p None (Some "") (pc_BudgetDeniedCallID p) None) now.

Definition blocked_plan (p : commit_plan) (state : ControllerState) : commit_plan :=
  finalizeCheckpoint
    (preserve_into p (set_semantic_retry state SemanticRetryPhaseBlocked (SemanticRetryAt state)) 0 1) now.

Definition deferred_plan (p : commit_plan) (state : ControllerState) (retryEpoch workAttempt : Z)
    : commit_plan :=
  let p := with_outcome p (pc_RetryAt p) (pc_Parked p) (pc_BudgetDeniedCallID p)
             (Some BudgetDeferralErrorClass) in
  let state := match pc_RetryAt p with
               | Some t => set_semantic_retry state SemanticRetryPhaseDue (Some t)
               | None => set_semantic_retry state SemanticRetryPhaseBlocked None
               end in
  finalizeCheckpoint (preserve_into p state retryEpoch workAttempt) now.

Definition failed_plan (p : commit_plan) (state : ControllerState) (outcome : L2Outcome)
    (verdict : option Time * option string) (retryEpoch workAttempt : Z) : commit_plan :=
  let p := with_outcome p verdict.1 verdict.2 (pc_BudgetDeniedCallID p) (Some (outcome_text outcome)) in
  let state := match verdict.1 with
               | Some t => set_semantic_retry state SemanticRetryPhaseDue (Some t)
               | None => set_semantic_retry state SemanticRetryPhaseBlocked (SemanticRetryAt state)
               end in
  finalizeCheckpoint (preserve_into p state retryEpoch workAttempt) now.
End plans.

(** [base], before a path fills it in. *)
Definition base_plan (snap : Snapshot) (decisions : list TriageDecision) (lc : lifecycleResolution)
    : commit_plan :=
  {| pc_MaterialFactHash := Snap_MaterialFactHash snap; pc_TriageDecisions := decisions;
     pc_Lifecycle := lc; pc_RetryAt := None; pc_LastErrorClass := None; pc_Parked := None;
     pc_BudgetDeniedCallID := None; pc_Assessment := None; pc_Attempt := None; pc_Coverage := [];
     pc_Attention := Attention_other ""; pc_NextAssessmentAt := time_zero; pc_JudgmentApplicable := false;
     pc_Evaluation := None |}.

(** The fields of the read a judgment is checked against. *)
Definition judgment_input (rd : Reading) : JudgmentInput :=
  let inp := rd_Input rd in
  {| ji_GroupKey := Situation_GroupKey (In_Situation inp);
     ji_Lifecycle := Situation_Lifecycle (In_Situation inp);
     ji_Attention := Situation_Attention (In_Situation inp); ji_Deliveries := Deliveries inp;
     ji_SourceDefinitions := rd_SourceDefinitions rd;
     ji_CurrentAssessment := AA_Assessment <$> rd_Current rd; ji_Judgment := rd_Judgment rd;
     ji_JudgmentApplicability := rd_JudgmentApplicability rd |}.

Definition with_overlay (p : commit_plan) (a : Assessment) (judged : bool)
    (ev : option ExpectedBehaviorEvaluation) : commit_plan :=
  {| pc_MaterialFactHash := pc_MaterialFactHash p; pc_TriageDecisions := pc_TriageDecisions p;
     pc_Lifecycle := pc_Lifecycle p; pc_RetryAt := pc_RetryAt p;
     pc_LastErrorClass := pc_LastErrorClass p; pc_Parked := pc_Parked p;
     pc_BudgetDeniedCallID := pc_BudgetDeniedCallID p; pc_Assessment := Some a;
     pc_Attempt := pc_Attempt p; pc_Coverage := pc_Coverage p; pc_Attention := pc_Attention p;
     pc_NextAssessmentAt := pc_NextAssessmentAt p; pc_JudgmentApplicable := judged; pc_Evaluation := ev |}.

(** What [commit] puts over the Assessment: the judgment first, the envelope
    over it.  The reasons the cycle consumed are those of the claim, which the
    store subtracts itself. *)
Definition overlaid (claim : Claim) (rd : Reading) (p : commit_plan) (checkedAt : Time) : commit_plan :=
  match pc_Assessment p with
  | None => p
  | Some a =>
      let c := applyExpectedJudgment
                 {| gc_Lifecycle := lr_Lifecycle (pc_Lifecycle p); gc_Attention := pc_Attention p;
                    gc_Assessment := a; gc_ConsumedDueReasons := Claim_DueReasons claim;
                    gc_JudgmentRevision := 0; gc_JudgmentApplicable := false;
                    gc_JudgmentApplicabilityReason := JudgmentUndecided |}
                 (judgment_input rd) checkedAt in
      let a := gc_Assessment c in
      let urgent := is_urgent (pc_Attention p) || is_urgent (A_Attention a) in
      let ev := (λ ev, RefreshExpectedBehaviorEvaluationForCommit ev urgent checkedAt) <$> rd_ExpectedBehavior rd in
      with_overlay p
        (ApplyExpectedBehaviorAuthority (lr_Lifecycle (pc_Lifecycle p)) (pc_Attention p) a ev)
        (gc_JudgmentApplicable c) ev
  end.

(** The permanent and the budget waits, before an attempt is begun. *)
Definition budget_waiting (p : ControllerParkedState) (retryAt : option Time) (now : Time) : bool :=
  str_eqb (Parked_Reason p) ParkedReasonBudget
    && match retryAt with Some t => Before now t | None => true end.

Section cycle.
Context {W Raw : Type} `{!Store W, !Client W Raw}
        (mdigest : membershipDigestDTO → string) (idigest : incidentInputDigestDTO → string)
        (objectKeys : Raw → option (list string)) (decodeProposal : Raw → option AssessmentProposal)
        (cfg : Config) (jitter : Duration → Duration) (uuid : Z → string).

(** One pass of the loop of [dispatchWorkBearing], and whether it goes on;
    [uuid n] is the identity of call [n]. *)
Definition one_call (claim : Claim) (snap : Snapshot) (retryEpoch workAttempt : Z) (now : Time)
    (callNumber : Z) (res : dispatchResult) : M W (dispatchResult * bool) :=
  let callID := uuid callNumber in
  op_RecordAssessmentCall claim
    {| dc_ID := callID; dc_MaterialFactHash := Snap_MaterialFactHash snap;
       dc_InputVersion := Snap_InputVersion snap; dc_RetryEpoch := retryEpoch;
       dc_WorkAttempt := workAttempt; dc_CallNumber := callNumber; dc_DispatchedAt := now |};;
  oneShot ← op_CompleteOnce;
  let callErr := rp_Err oneShot in
  let denied :=
    (callNumber =? 1)%Z && str_eqb (rp_RequestStarted oneShot) "false"
    && match callErr with
       | Some e => ce_request_not_sent e && ce_budget_exhausted e
       | None => false
       end in
  let vr := match callErr with
            | Some _ => None
            | None => Some (ValidateAssessmentProposal objectKeys decodeProposal (rp_Raw oneShot) snap
                              {| Call_InputVersion := Snap_InputVersion snap;
                                 Call_MaterialFactHash := Snap_MaterialFactHash snap |})
            end in
  let result proposal used :=
    {| budgetDeniedBeforeDispatch := denied; dr_proposal := proposal; lastVR := vr;
       lastCallID := callID; correctionUsed := used; dr_transportErr := callErr |} in
  let policy := ClassifyL2Outcome vr (transport_error <$> callErr) (correctionUsed res) in
  if bool_decide (RP_Outcome policy = L2OutcomeAccepted)
     || bool_decide (RP_Outcome policy = L2OutcomeContradicted) then
    mret (result (vr ≫= VR_Proposal) (correctionUsed res), false)
  else
    op_AppendAssessmentOutcome
      (buildOutcomeAttempt callID (Snap_InputVersion snap) retryEpoch workAttempt
         (synthesizeSequence (Snap_InputVersion snap) retryEpoch workAttempt callNumber)
         vr callErr (rp_RequestStarted oneShot));;
    let again := ImmediateCorrection policy && negb (correctionUsed res)
                 && (callNumber <? MaxL2CallsPerAttempt cfg)%Z in
    mret (result None (correctionUsed res || again), again).

Fixpoint dispatch_loop (fuel : nat) (claim : Claim) (snap : Snapshot) (retryEpoch workAttempt : Z)
    (now : Time) (callNumber : Z) (res : dispatchResult) : M W dispatchResult :=
  match fuel with
  | O => mret res
  | S fuel =>
      if (MaxL2CallsPerAttempt cfg <? callNumber)%Z then mret res
      else
        '(res, again) ← one_call claim snap retryEpoch workAttempt now callNumber res;
        if (again : bool)
        then dispatch_loop fuel claim snap retryEpoch workAttempt now (callNumber + 1)%Z res
        else mret res
  end.

(** The loop makes at most [MaxL2CallsPerAttempt] passes. *)
Definition dispatchWorkBearing (claim : Claim) (snap : Snapshot) (retryEpoch workAttempt : Z) (now : Time)
    : M W dispatchResult :=
  dispatch_loop (Z.to_nat (MaxL2CallsPerAttempt cfg)) claim snap retryEpoch workAttempt now 1 dispatch_zero.

(** [checkedAt] is the commit's own reading of the clock. *)
Definition commit (claim : Claim) (rd : Reading) (p : commit_plan) (checkedAt : Time) : M W unit :=
  op_CommitController claim (finalizeCheckpoint (overlaid claim rd p checkedAt) checkedAt).

(** A commit that fails after a call was answered keeps the answer as stale; a
    failure of that write is ignored. *)
Definition commitResult (claim : Claim) (rd : Reading) (p : commit_plan) (callID : option string) (checkedAt : Time)
    : M W unit :=
  λ w,
  match commit claim rd p checkedAt w, callID, pc_Attempt p with
  | (Err e, w'), Some id, Some a => (Err e, (op_AppendAssessmentOutcome (buildStaleOutcome a id) w').2)
  | r, _, _ => r
  end.

(** [errors.Is(err, ErrControllerAttemptsExhausted)] beside a result. *)
Definition catch_exhausted {A} (m : M W A) : M W (option A) :=
  λ w,
  match m w with
  | (Ok a, w') => (Ok (Some a), w')
  | (Err ErrControllerAttemptsExhausted, w') => (Ok None, w')
  | (Err e, w') => (Err e, w')
  end.

(** Step 6 of [reconcile]: the dispatch of a begun attempt, and its commit. *)
Definition work (claim : Claim) (rd : Reading) (snap : Snapshot) (base : commit_plan)
    (state : ControllerState) (retryEpoch workAttempt : Z) (now checkedAt : Time) : M W unit :=
  disp ← dispatchWorkBearing claim snap retryEpoch workAttempt now;
  match dr_proposal disp with
  | Some p =>
      let r := DeriveAssessment mdigest idigest p snap (rd_Input rd) state DerivationModelValidated None now in
      commitResult claim rd (result_plan now base r (Some (lastCallID disp)) retryEpoch workAttempt)
        (Some (lastCallID disp)) checkedAt
  | None =>
      if budgetDeniedBeforeDispatch disp then
        let retryAt := match dr_transportErr disp ≫= ce_deferred with
                       | Some t => t
                       | None => pc_RetryAt base
                       end in
        let base := with_outcome base retryAt (Some ParkedReasonBudget) (Some (lastCallID disp)) None in
        commit claim rd (deferred_plan mdigest idigest rd snap now base state retryEpoch workAttempt) checkedAt
      else
        let policy := ClassifyL2Outcome (lastVR disp) (transport_error <$> dr_transportErr disp)
                        (correctionUsed disp) in
        commit claim rd
          (failed_plan mdigest idigest rd snap now base state (RP_Outcome policy)
             (conclude cfg jitter policy workAttempt now) retryEpoch workAttempt) checkedAt
  end.

Definition reconcile (claim : Claim) (now checkedAt : Time) : M W unit :=
  rd ← op_LoadReconciliationInput claim now;
  let inp := rd_Input rd in
  let lc := resolveLifecycle (cfg_Lifecycle cfg) (In_Situation inp) inp (rd_Snapshot rd)
              (rd_SourceLifecycle rd) now in
  let snap := set_snap_lifecycle (rd_Snapshot rd) (lr_Lifecycle lc) in
  let decisions := DecideTriage mdigest idigest snap inp (rd_Current rd) now in
  let state := buildControllerState (cfg_Cadence cfg) snap inp lc decisions now in
  let base := base_plan snap decisions lc in
  let reuse := match rd_Current rd with
               | Some cur => match RevalidateReuse mdigest idigest cur snap inp state now with
                             | Ok r => Some r
                             | Err _ => None
                             end
               | None => None
               end in
  match reuse with
  | Some r => commitResult claim rd (result_plan now base r None 0 1) None checkedAt
  | None =>
  if budget_waiting (rd_Parked rd) (rd_RetryAt rd) now then
    let base := with_outcome base (rd_RetryAt rd) (pc_Parked base) None None in
    commit claim rd (deferred_plan mdigest idigest rd snap now base state 0 1) checkedAt
  else if controllerParkBlocksDispatch (rd_Parked rd) (Snap_MaterialFactHash snap) then
    commit claim rd (blocked_plan mdigest idigest rd snap now base state) checkedAt
  else
    attempt ← catch_exhausted (op_BeginControllerAttempt claim (Snap_MaterialFactHash snap));
    match attempt with
    | None =>
        let base := if str_eqb (Parked_Reason (rd_Parked rd)) "" then
                      with_outcome base None (Some ParkedReasonDependency) None None
                    else base in
        commit claim rd (blocked_plan mdigest idigest rd snap now base state) checkedAt
    | Some (retryEpoch, workAttempt) => work claim rd snap base state retryEpoch workAttempt now checkedAt
    end
  end.
End cycle.

(** ** The machine

    A world is a state of [ControllerStore]'s transition system, a counter and
    the log of what this cycle did.  Before every operation of the cycle other
    actors take any number of steps, [others]; [tok] is the cycle's claim
    token, [read] what it loads of a row, [answers] what the model replies. *)

Inductive event : Type :=
| EvRead (rd : Reading)
| EvBegin (retryEpoch workAttempt : Z)
| EvRecord (k : DispatchedCall)
| EvSend
| EvOutcome (a : AssessmentAttempt)
| EvCommit (p : commit_plan).

Record world : Type := { w_state : state; w_time : nat; w_log : list event }.

Definition set_version (s : Snapshot) (v : Z) : Snapshot :=
  {| Snap_SituationID := Snap_SituationID s; Snap_Incidents := Snap_Incidents s;
     Snap_InputVersion := v; Snap_Lifecycle := Snap_Lifecycle s;
     Snap_DurationClass := Snap_DurationClass s; Snap_Facts := Snap_Facts s;
     Snap_Symptoms := Snap_Symptoms s; EligibleReasons := EligibleReasons s;
     Snap_MaterialFactHash := Snap_MaterialFactHash s;
     Snap_AssessmentBasisHash := Snap_AssessmentBasisHash s; Snap_Observations := Snap_Observations s;
     CapabilityResults := CapabilityResults s; Deferred := Deferred s |}.

(** The columns of the row that a reading carries. *)
Definition reading_at (r : situation_row) (rd : Reading) : Reading :=
  {| rd_Input := rd_Input rd; rd_Snapshot := set_version (rd_Snapshot rd) (input_version r);
     rd_SourceLifecycle := rd_SourceLifecycle rd; rd_Current := rd_Current rd;
     rd_CurrentReusedFrom := rd_CurrentReusedFrom rd; rd_Parked := parked_state r;
     rd_RetryAt := retry_at (row_schedule r); rd_SourceDefinitions := rd_SourceDefinitions rd;
     rd_Judgment := rd_Judgment rd; rd_JudgmentApplicability := rd_JudgmentApplicability rd;
     rd_ExpectedBehavior := rd_ExpectedBehavior rd |}.

Definition view_of (rd : Reading) (now : Time) : view :=
  {| v_now := now; v_version := Snap_InputVersion (rd_Snapshot rd);
     v_hash := Snap_MaterialFactHash (rd_Snapshot rd); v_parked := rd_Parked rd;
     v_retryAt := rd_RetryAt rd |}.

Definition log (w : world) (s : state) (e : event) : world :=
  {| w_state := s; w_time := w_time w; w_log := w_log w ++ [e] |}.

Section machine.
Context {Raw : Type} (tok : Z) (others : nat → state → state)
        (read : nat → situation_row → option Reading) (answers : nat → Reply Raw).

Definition tick (w : world) : world :=
  {| w_state := others (w_time w) (w_state w); w_time := S (w_time w); w_log := w_log w |}.

(** The progress of the cycle itself. *)
Definition progress (f : cycle → cycle) (s : state) : gmap Z cycle :=
  match st_cycles s !! tok with Some cy => <[tok := f cy]> (st_cycles s) | None => st_cycles s end.

Definition begun (e a : Z) (cy : cycle) : cycle :=
  match cy with Loaded c v => Working c v e a [] | cy => cy end.
Definition recorded (id : string) (cy : cycle) : cycle :=
  match cy with Working c v e a ids => Working c v e a (ids ++ [id]) | cy => cy end.

#[export] Instance machine_store : Store world := {|
  op_LoadReconciliationInput c now w :=
    let w := tick w in
    let s := w_state w in
    match read (w_time w) (st_row s) with
    | None => (Err ErrRefused, w)
    | Some rd =>
        let rd := reading_at (st_row s) rd in
        (Ok rd,
         log w {| st_row := st_row s; st_calls := st_calls s; st_outcomes := st_outcomes s;
                  st_cycles := <[tok := Loaded c (view_of rd now)]> (st_cycles s); st_clock := now |}
           (EvRead rd))
    end;
  op_BeginControllerAttempt c h w :=
    let w := tick w in
    let s := w_state w in
    match BeginControllerAttempt (st_row s) (st_calls s) c h with
    | Err e => (Err e, w)
    | Ok (wc, e, a) =>
        (Ok (e, a),
         log w (with_cycles (with_row s (set_work (st_row s) wc)) (progress (begun e a) s)) (EvBegin e a))
    end;
  op_RecordAssessmentCall c k w :=
    let w := tick w in
    let s := w_state w in
    match RecordAssessmentCall (st_row s) (st_calls s) c (call_row_of k) with
    | Err e => (Err e, w)
    | Ok (r, calls) =>
        (Ok tt,
         log w {| st_row := r; st_calls := calls; st_outcomes := st_outcomes s;
                  st_cycles := progress (recorded (dc_ID k)) s; st_clock := st_clock s |} (EvRecord k))
    end;
  op_AppendAssessmentOutcome a w :=
    let w := tick w in
    let s := w_state w in
    match AppendAssessmentOutcome (st_calls s) (st_outcomes s) (outcome_of a) with
    | Err e => (Err e, w)
    | Ok outcomes =>
        (Ok tt,
         log w {| st_row := st_row s; st_calls := st_calls s; st_outcomes := outcomes;
                  st_cycles := st_cycles s; st_clock := st_clock s |} (EvOutcome a))
    end;
  op_CommitController c p w :=
    let w := tick w in
    let s := w_state w in
    match CommitController (st_row s) (st_calls s) (st_outcomes s) c (store_commit p) with
    | Err e => (Err e, w)
    | Ok r => (Ok tt, log w (with_cycles (with_row s r) (delete tok (st_cycles s))) (EvCommit p))
    end
|}.

#[export] Instance machine_client : Client world Raw := {|
  op_CompleteOnce w := let w := tick w in (Ok (answers (w_time w)), log w (w_state w) EvSend)
|}.
End machine.

(** ** The protocol of a cycle

    What a log may hold, in what order: a read; then one commit; or one begun
    attempt, its first call recorded, sent and closed, perhaps its second, and
    a commit, which rests on the last call when that call is still open. *)

Inductive phase : Type :=
| PStart
| PRead (rd : Reading)
| PBegun (rd : Reading) (e a : Z)
| PRecorded (rd : Reading) (e a n : Z) (id : string)
| PSent (rd : Reading) (e a n : Z) (id : string)
| PClosed (rd : Reading) (e a n : Z)
| PDone.

Definition attempt_call (p : commit_plan) : option string := pc_Attempt p ≫= At_CallID.

(** The committed Assessment is valid, urgent exactly under a floor, and the
    Situation is due again unless it ended. *)
Definition commit_core (now : Time) (rd : Reading) (p : commit_plan) : bool :=
  match pc_Assessment p with
  | None => false
  | Some a =>
      is_ok (Assessment_Validate a now)
      && bool_decide (A_Lifecycle a = lr_Lifecycle (pc_Lifecycle p))
      && bool_decide (pc_Attention p = A_Attention a)
      && Bool.eqb (bool_decide (A_Attention a = AttentionUrgent))
           (hasDeterministicFloor (EligibleReasons (rd_Snapshot rd)))
      && (Terminal (lr_Lifecycle (pc_Lifecycle p)) || After (pc_NextAssessmentAt p) now)
  end.

(** Nothing is asked of the operator until [until], and nothing is urgent. *)
Definition quiet_until (p : commit_plan) (a : Assessment) (until : Time) : bool :=
  bool_decide (AC_OperatorActionRequired (A_ActionContract a) = None)
  && negb (is_urgent (A_Attention a)) && (pc_NextAssessmentAt p <=? until)%Z.

(** A judgment or an envelope that carries authority quiets the Assessment up to
    its end. *)
Definition overlays_lawful (rd : Reading) (p : commit_plan) : bool :=
  match pc_Assessment p with
  | None => false
  | Some a =>
      (negb (pc_JudgmentApplicable p)
       || match rd_Judgment rd with
          | Some j => judgment_expected j && quiet_until p a (ValidUntil j)
          | None => false
          end)
      && match pc_Evaluation p with
         | Some ev =>
             match ev_Occurrence ev with
             | Some occ =>
                 negb (bool_decide (ev_Disposition ev = DispositionMatched))
                 || Terminal (lr_Lifecycle (pc_Lifecycle p)) || quiet_until p a (Boundary occ)
             | None => true
             end
         | None => true
         end
  end.

Definition commit_lawful (now : Time) (rd : Reading) (p : commit_plan) : bool :=
  commit_core now rd p && overlays_lawful rd p.
Arguments commit_lawful : simpl never.

(** A failed attempt leaves a time to retry or a park. *)
Definition retried_or_parked (p : commit_plan) : bool :=
  match pc_RetryAt p, pc_Parked p with
  | Some _, _ => true
  | None, Some reason => negb (str_eqb reason "")
  | None, None => false
  end.

Definition of_attempt (k : DispatchedCall) (e a n : Z) : bool :=
  (dc_RetryEpoch k =? e)%Z && (dc_WorkAttempt k =? a)%Z && (dc_CallNumber k =? n)%Z.

Definition closes (o : AssessmentAttempt) (e a : Z) (id : string) : bool :=
  bool_decide (At_CallID o = Some id) && (At_RetryEpoch o =? e)%Z && (At_WorkAttempt o =? a)%Z
  && negb (str_eqb (At_Status o) "authoritative").

Definition proto_step (now : Time) (ph : phase) (ev : event) : option phase :=
  match ph, ev with
  | PStart, EvRead rd => Some (PRead rd)
  | PRead rd, EvCommit p =>
      if commit_lawful now rd p && bool_decide (attempt_call p = None) then Some PDone else None
  | PRead rd, EvBegin e a => Some (PBegun rd e a)
  | PBegun rd e a, EvRecord k => if of_attempt k e a 1 then Some (PRecorded rd e a 1 (dc_ID k)) else None
  | PRecorded rd e a n id, EvSend => Some (PSent rd e a n id)
  | PSent rd e a n id, EvOutcome o => if closes o e a id then Some (PClosed rd e a n) else None
  | PSent rd e a n id, EvCommit p =>
      if commit_lawful now rd p && bool_decide (attempt_call p = Some id) then Some PDone else None
  | PClosed rd e a n, EvRecord k =>
      if (n =? 1)%Z && of_attempt k e a 2 then Some (PRecorded rd e a 2 (dc_ID k)) else None
  | PClosed rd e a n, EvCommit p =>
      if commit_lawful now rd p && bool_decide (attempt_call p = None) && retried_or_parked p
      then Some PDone else None
  | _, _ => None
  end.

Definition run_log (now : Time) (l : list event) : option phase :=
  foldl (λ o ev, o ≫= λ ph, proto_step now ph ev) (Some PStart) l.

(** ** Triples

    [triple P m Q E]: from a world of [P], [m] ends in one of [Q], or of [E]
    when it fails. *)

Definition triple {W A} (P : W → Prop) (m : M W A) (Q : A → W → Prop) (E : W → Prop) : Prop :=
  ∀ w, P w → match m w with (Ok a, w') => Q a w' | (Err _, w') => E w' end.

Section rules.
Context {W : Type}.

Lemma triple_ret {A} (a : A) (P : W → Prop) (Q : A → W → Prop) E :
  (∀ w, P w → Q a w) → triple P (mret a) Q E.
Proof. intros H w Hw. by apply H. Qed.

Lemma triple_bind {A B} (m : M W A) (k : A → M W B) (P : W → Prop) R (Q : B → W → Prop) E :
  triple P m R E → (∀ a, triple (R a) (k a) Q E) → triple P (m ≫= k) Q E.
Proof.
  intros Hm Hk w Hw. specialize (Hm w Hw). unfold mbind, M_bind.
  destruct (m w) as [[a|] w']; [|done]. by apply Hk.
Qed.

Lemma triple_weaken {A} (m : M W A) (P P' : W → Prop) (Q Q' : A → W → Prop) (E E' : W → Prop) :
  triple P m Q E → (∀ w, P' w → P w) → (∀ a w, Q a w → Q' a w) → (∀ w, E w → E' w) →
  triple P' m Q' E'.
Proof.
  intros H HP HQ HE w Hw%HP. specialize (H w Hw). destruct (m w) as [[a|] w']; auto.
Qed.

Lemma triple_catch {A} (m : M W A) (P : W → Prop) (Q : A → W → Prop) (E : W → Prop) :
  triple P m Q E →
  triple P (catch_exhausted m) (λ o w, match o with Some a => Q a w | None => E w end) E.
Proof.
  intros H w Hw. specialize (H w Hw). unfold catch_exhausted. by destruct (m w) as [[a|[]] w'].
Qed.

Lemma triple_pure {A} (φ : Prop) (m : M W A) (P : W → Prop) Q E :
  (φ → triple P m Q E) → triple (λ w, φ ∧ P w) m Q E.
Proof. intros H w [Hφ Hw]. by apply H. Qed.
End rules.

(** ** The operations, as triples *)

Section operations.
Context {Raw : Type} (tok : Z) (others : nat → state → state)
        (read : nat → situation_row → option Reading) (answers : nat → Reply Raw)
        (now : Time) (start : state).

(** Others take steps of the system and leave this cycle's own progress alone. *)
Definition fair_others : Prop :=
  ∀ n s, rtc step s (others n s) ∧ st_cycles (others n s) !! tok = st_cycles s !! tok.

Context (Hothers : fair_others).

#[local] Existing Instance machine_store.
#[local] Existing Instance machine_client.
#[local] Abbreviation St := (machine_store tok others read).
#[local] Abbreviation Cl := (machine_client others answers).

(** The cycle [cy] is at phase [ph]. *)
Record at_ (ph : phase) (cy : option cycle) (w : world) : Prop := {
  at_steps : rtc step start (w_state w);
  at_cycle : st_cycles (w_state w) !! tok = cy;
  at_log : run_log now (w_log w) = Some ph
}.

(** Where a failed cycle stops. *)
Definition stopped (w : world) : Prop :=
  rtc step start (w_state w) ∧ is_Some (run_log now (w_log w)).

Lemma at_stopped ph cy w : at_ ph cy w → stopped w.
Proof. intros []. split; eauto. Qed.

Lemma at_tick ph cy w : at_ ph cy w → at_ ph cy (tick others w).
Proof.
  intros []. destruct (Hothers (w_time w) (w_state w)) as [Hs Hc].
  split; simpl; [by etrans|by rewrite Hc|done].
Qed.

Lemma at_log_step ph ph' cy cy' w s ev :
  at_ ph cy w → step (w_state w) s → st_cycles s !! tok = cy' → proto_step now ph ev = Some ph' →
  at_ ph' cy' (log w s ev).
Proof.
  intros [Hr _ Hl] Hstep Hcy Hp. split; simpl; [by eapply rtc_r|done|].
  unfold run_log in *. rewrite foldl_app, Hl. done.
Qed.

Lemma load_triple c :
  triple
    (λ w, at_ PStart (Some (Claimed c)) w ∧
          text_leb (st_clock (others (w_time w) (w_state w))) now = true ∧ IsZero now = false)
    (@op_LoadReconciliationInput _ St c now)
    (λ rd w, at_ (PRead rd) (Some (Loaded c (view_of rd now))) w ∧
             ∃ n r rd0, read n r = Some rd0 ∧ rd = reading_at r rd0)
    stopped.
Proof.
  intros w (Hat%at_tick & Hclock & Hz). simpl.
  set (w' := tick others w) in *. change (others (w_time w) (w_state w)) with (w_state w') in *.
  change (S (w_time w)) with (w_time w').
  destruct (read (w_time w') (st_row (w_state w'))) as [rd0|] eqn:Er; [|by eapply at_stopped].
  split; [|by eauto]. eapply at_log_step; [exact Hat| | |done].
  - refine (step_load _ tok c now _ (at_cycle _ _ _ Hat) Hz Hclock).
  - simpl. by rewrite lookup_insert_eq.
Qed.

Lemma begin_triple rd c v :
  dispatch_blocked v = false →
  triple (at_ (PRead rd) (Some (Loaded c v)))
    (@op_BeginControllerAttempt _ St c (v_hash v))
    (λ '(e, a), at_ (PBegun rd e a) (Some (Working c v e a [])))
    (at_ (PRead rd) (Some (Loaded c v))).
Proof.
  intros Hb w Hat%at_tick. simpl. set (w' := tick others w) in *.
  change (others (w_time w) (w_state w)) with (w_state w') in *.
  destruct (BeginControllerAttempt _ _ _ _) as [[[wc e] a]|] eqn:E; [|done].
  pose proof (at_cycle _ _ _ Hat) as Hcy. unfold progress. rewrite Hcy.
  eapply at_log_step; [exact Hat| | |done].
  - by eapply step_begin.
  - simpl. by rewrite lookup_insert_eq.
Qed.

Lemma record_triple ph ph' c v e a ids k :
  call_row_of k = new_call v e a ids (dc_ID k) → (length ids < 2)%nat →
  proto_step now ph (EvRecord k) = Some ph' →
  triple (at_ ph (Some (Working c v e a ids)))
    (@op_RecordAssessmentCall _ St c k)
    (λ _, at_ ph' (Some (Working c v e a (ids ++ [dc_ID k]))))
    stopped.
Proof.
  intros Hk Hlen Hp w Hat%at_tick. simpl. set (w' := tick others w) in *.
  change (others (w_time w) (w_state w)) with (w_state w') in *.
  rewrite Hk. destruct (RecordAssessmentCall _ _ _ _) as [[r calls]|] eqn:E; [|by eapply at_stopped].
  pose proof (at_cycle _ _ _ Hat) as Hcy. unfold progress. rewrite Hcy.
  eapply at_log_step; [exact Hat| | |done].
  - by eapply step_record.
  - simpl. by rewrite lookup_insert_eq.
Qed.

Lemma send_triple ph ph' cy :
  proto_step now ph EvSend = Some ph' →
  triple (at_ ph cy) (@op_CompleteOnce _ _ Cl) (λ _, at_ ph' cy) stopped.
Proof.
  intros Hp w Hat%at_tick. simpl. set (w' := tick others w) in *.
  change (others (w_time w) (w_state w)) with (w_state w').
  destruct Hat as [Hr Hcy Hl]. split; simpl; [done|done|]. unfold run_log in *. simpl in Hl.
  by rewrite foldl_app, Hl.
Qed.

Lemma append_triple ph ph' cy o :
  proto_step now ph (EvOutcome o) = Some ph' →
  triple (at_ ph cy) (@op_AppendAssessmentOutcome _ St o) (λ _, at_ ph' cy) (at_ ph cy).
Proof.
  intros Hp w Hat%at_tick. simpl. set (w' := tick others w) in *.
  change (others (w_time w) (w_state w)) with (w_state w') in *.
  destruct (AppendAssessmentOutcome _ _ _) as [l|] eqn:E; [|done].
  eapply at_log_step; [exact Hat| | |done].
  - by eapply step_outcome.
  - apply Hat.
Qed.

Lemma commit_triple ph ph' c cy p :
  claim_of cy = c → commit_from cy (store_commit p) → proto_step now ph (EvCommit p) = Some ph' →
  triple (at_ ph (Some cy)) (@op_CommitController _ St c p) (λ _, at_ ph' None) (at_ ph (Some cy)).
Proof.
  intros Hc Hf Hp w Hat%at_tick. simpl. set (w' := tick others w) in *.
  change (others (w_time w) (w_state w)) with (w_state w') in *.
  destruct (CommitController _ _ _ _ _) as [r|] eqn:E; [|done].
  eapply at_log_step; [exact Hat| | |done].
  - eapply step_commit; [apply Hat|done|by rewrite Hc].
  - simpl. by rewrite lookup_delete_eq.
Qed.
End operations.

(** ** What a cycle commits *)

Lemma resolveLifecycle_valid cfg cur inp snap sl now :
  Lifecycle_Validate (Situation_Lifecycle cur) = Ok tt →
  Lifecycle_Validate (lr_Lifecycle (resolveLifecycle cfg cur inp snap sl now)) = Ok tt.
Proof.
  unfold resolveLifecycle. intros H.
  destruct (Situation_Lifecycle cur) eqn:E; repeat case_match; simpl; rewrite ?E; done.
Qed.

Lemma next_update_future a now :
  Assessment_Validate a now = Ok tt → Terminal (A_Lifecycle a) = false →
  ∃ t, AC_NextUpdateAt (A_ActionContract a) = Some t ∧ (now < t)%Z.
Proof.
  unfold Assessment_Validate. rewrite res_bind_unit. intros [Hs Hf] Ht.
  unfold Assessment_validateShape in Hs. rewrite !res_bind_unit in Hs.
  destruct Hs as (_ & _ & _ & _ & _ & _ & _ & _ & _ & _ & _ & _ & Hc).
  unfold ActionContract_validate in Hc. rewrite !res_bind_unit, Ht in Hc.
  destruct Hc as (_ & _ & _ & _ & _ & _ & _ & Hc). unfold requireFreshNextUpdateAt in Hf.
  destruct (AC_NextUpdateAt (A_ActionContract a)) as [t|]; [|done].
  exists t. split; [done|]. destruct (After t now) eqn:E; [|done]. unfold After in E. lia.
Qed.

Lemma commit_core_intro p a now checkedAt rd :
  pc_Assessment p = Some a → Assessment_Validate a now = Ok tt →
  A_Lifecycle a = lr_Lifecycle (pc_Lifecycle p) →
  (A_Attention a = AttentionUrgent ↔ hasDeterministicFloor (EligibleReasons (rd_Snapshot rd)) = true) →
  commit_core now rd (finalizeCheckpoint p checkedAt) = true.
Proof.
  intros Ha Hv Hl Hu. unfold commit_core. cbn [finalizeCheckpoint pc_Assessment pc_Lifecycle pc_Attention
    pc_NextAssessmentAt]. rewrite Ha, Hv. simpl. rewrite !bool_decide_eq_true_2 by done. simpl.
  rewrite !andb_true_iff, orb_true_iff. split.
  - apply eqb_true_iff. destruct (hasDeterministicFloor _); [by apply bool_decide_eq_true, Hu|].
    apply bool_decide_eq_false. naive_solver.
  - destruct (Terminal (lr_Lifecycle (pc_Lifecycle p))) eqn:Et; [by left|]. right. rewrite <- Hl in Et.
    destruct (next_update_future _ _ Hv Et) as (t & -> & Ht). unfold After. lia.
Qed.

Section commits.
Context (mdigest : membershipDigestDTO → string) (idigest : incidentInputDigestDTO → string)
        (rd : Reading) (snap : Snapshot) (now : Time).

(** The Snapshot of a cycle and the reading it comes from. *)
Record cycle_snapshot : Prop := {
  cs_valid : Lifecycle_Validate (Snap_Lifecycle snap) = Ok tt;
  cs_named : Forall (λ c, RC_ID c ≠ "" ∧ RC_Code c ≠ "") (EligibleReasons snap);
  cs_reasons : EligibleReasons snap = EligibleReasons (rd_Snapshot rd)
}.

Context (Hsnap : cycle_snapshot).

Lemma fallback_lifecycle inp current reused st :
  A_Lifecycle (fallbackOrPreserve mdigest idigest snap inp current reused st now) = Snap_Lifecycle snap.
Proof.
  unfold fallbackOrPreserve, revalidatedPreservedAssessment, DeterministicFallback, DeterministicAssessment.
  by repeat case_match; simplify_eq.
Qed.

(** The commit of a cycle that ends without a fresh result. *)
Definition preserved_plan (p : commit_plan) (st : ControllerState) (e a : Z) : commit_plan :=
  finalizeCheckpoint (preserve_into mdigest idigest rd snap now p st e a) now.

Lemma preserved_lawful p st e a checkedAt :
  lr_Lifecycle (pc_Lifecycle p) = Snap_Lifecycle snap →
  commit_core now rd (finalizeCheckpoint (preserved_plan p st e a) checkedAt) = true.
Proof.
  intros Hl. destruct Hsnap as [Hv Hn Hr].
  destruct (fallbackOrPreserve_valid mdigest idigest snap (rd_Input rd) (rd_Current rd)
              (rd_CurrentReusedFrom rd) st now Hv Hn) as [Hval Hu].
  eapply commit_core_intro; [|exact Hval| |by rewrite Hu, Hr].
  - unfold preserved_plan, preserve_into, fallbackOrPreserve.
    by destruct (revalidatedPreservedAssessment _ _ _ _ _ _ _ _).
  - rewrite fallback_lifecycle, <- Hl. unfold preserved_plan, preserve_into.
    by destruct (revalidatedPreservedAssessment _ _ _ _ _ _ _ _).
Qed.

(** It keeps what the path has put in the commit, and rests on no call. *)
Lemma preserved_spec p st e a checkedAt :
  let p' := preserved_plan p st e a in
  attempt_call (finalizeCheckpoint p' checkedAt) = None ∧
  retried_or_parked (finalizeCheckpoint p' checkedAt) = retried_or_parked p ∧
  pc_BudgetDeniedCallID p' = pc_BudgetDeniedCallID p ∧ pc_MaterialFactHash p' = pc_MaterialFactHash p.
Proof. unfold preserved_plan, preserve_into. by destruct (revalidatedPreservedAssessment _ _ _ _ _ _ _ _). Qed.

(** A fresh or reused result: a grounded proposal, raised to its floor. *)
Lemma derived_lawful p q inp st der reused callID e a checkedAt :
  lr_Lifecycle (pc_Lifecycle p) = Snap_Lifecycle snap →
  grounded q snap → AssessmentProposal_Validate q = Ok tt →
  commit_core now rd
    (finalizeCheckpoint
       (result_plan now p (DeriveAssessment mdigest idigest (raised q snap) snap inp st der reused now)
          callID e a) checkedAt) = true.
Proof.
  intros Hl Hg Hq. destruct Hsnap as [Hv _ Hr]. eapply commit_core_intro; [done| | |].
  - apply DeriveAssessment_valid; [by apply raised_valid|done].
  - done.
  - cbn. rewrite <- Hr. by apply raised_urgent.
Qed.
End commits.

(** *** The overlays *)

Lemma overlaid_attempt c rd p t :
  attempt_call (finalizeCheckpoint (overlaid c rd p t) t) = attempt_call p ∧
  retried_or_parked (finalizeCheckpoint (overlaid c rd p t) t) = retried_or_parked p.
Proof. unfold overlaid. by destruct (pc_Assessment p). Qed.

Lemma overlaid_from c rd p cy t :
  commit_from cy (store_commit p) → commit_from cy (store_commit (finalizeCheckpoint (overlaid c rd p t) t)).
Proof. unfold overlaid. by destruct (pc_Assessment p). Qed.

Lemma finalize_next p a t u :
  pc_Assessment p = Some a → AC_NextUpdateAt (A_ActionContract a) = Some u →
  pc_NextAssessmentAt (finalizeCheckpoint p t) = u.
Proof. intros Ha Hu. unfold finalizeCheckpoint. cbn. by rewrite Ha; cbn; rewrite Hu. Qed.

Lemma core_spec now rd p :
  commit_core now rd p = true →
  ∃ a, pc_Assessment p = Some a ∧ Assessment_Validate a now = Ok tt ∧
    A_Lifecycle a = lr_Lifecycle (pc_Lifecycle p) ∧ pc_Attention p = A_Attention a ∧
    (A_Attention a = AttentionUrgent ↔ hasDeterministicFloor (EligibleReasons (rd_Snapshot rd)) = true) ∧
    (Terminal (lr_Lifecycle (pc_Lifecycle p)) = false → (now < pc_NextAssessmentAt p)%Z).
Proof.
  unfold commit_core. destruct (pc_Assessment p) as [a|]; [|done].
  rewrite !andb_true_iff, orb_true_iff, !bool_decide_eq_true, eqb_true_iff.
  intros [[[[Hv Hl] Ha] Hu] Hn]. exists a. split_and!; [done| |done|done| |].
  - by destruct (Assessment_Validate a now) as [[]|].
  - by rewrite <- Hu, bool_decide_eq_true.
  - unfold After in Hn. destruct Hn; [congruence|lia].
Qed.

Lemma quiet_intro p a t v until :
  pc_Assessment p = Some a → AC_OperatorActionRequired (A_ActionContract a) = None →
  is_urgent (A_Attention a) = false → AC_NextUpdateAt (A_ActionContract a) = Some v → (v ≤ until)%Z →
  quiet_until (finalizeCheckpoint p t) a until = true.
Proof.
  intros Ha Ho Hu Hn Hv. unfold quiet_until. rewrite Ho, Hu, (finalize_next _ _ _ _ Ha Hn). simpl. lia.
Qed.

(** What the two overlays make of an Assessment [a]. *)
Record overlay_of (rd : Reading) (a a' : Assessment) (judged : bool)
    (ev : option ExpectedBehaviorEvaluation) : Prop := {
  ov_contract : a' = with_contract a (A_ActionContract a');
  ov_judged : judged = true → ∃ j v, rd_Judgment rd = Some j ∧ judgment_expected j = true ∧
    AC_OperatorActionRequired (A_ActionContract a') = None ∧ is_urgent (A_Attention a) = false ∧
    AC_NextUpdateAt (A_ActionContract a') = Some v ∧ (v ≤ ValidUntil j)%Z;
  ov_matched : ∀ e occ, ev = Some e → ev_Disposition e = DispositionMatched → ev_Occurrence e = Some occ →
    Terminal (A_Lifecycle a) = false → ∃ v,
    AC_OperatorActionRequired (A_ActionContract a') = None ∧ is_urgent (A_Attention a) = false ∧
    AC_NextUpdateAt (A_ActionContract a') = Some v ∧ (v ≤ Boundary occ)%Z
}.

Lemma overlaid_spec c rd p a now checkedAt :
  (now ≤ checkedAt)%Z → pc_Assessment p = Some a → A_Lifecycle a = lr_Lifecycle (pc_Lifecycle p) →
  Assessment_Validate a now = Ok tt →
  ∃ a' judged ev, overlaid c rd p checkedAt = with_overlay p a' judged ev ∧
    Assessment_Validate a' now = Ok tt ∧ overlay_of rd a a' judged ev.
Proof.
  intros Hle Ha Hl Hv. unfold overlaid. rewrite Ha.
  set (c0 := {| gc_Lifecycle := _ |}). set (c1 := applyExpectedJudgment c0 (judgment_input rd) checkedAt).
  pose proof (judged_valid c0 (judgment_input rd) now checkedAt Hle Hl Hv) as Hv1.
  destruct (judged_cases c0 (judgment_input rd) checkedAt) as (_ & _ & Hw1 & Hc). fold c1 in Hv1, Hw1, Hc.
  assert (Hl1 : A_Lifecycle (gc_Assessment c1) = lr_Lifecycle (pc_Lifecycle p)) by (rewrite Hw1; exact Hl).
  assert (Hat1 : A_Attention (gc_Assessment c1) = A_Attention a) by (by rewrite Hw1).
  assert (Hj : gc_JudgmentApplicable c1 = true → ∃ j v, rd_Judgment rd = Some j ∧ judgment_expected j = true ∧
    AC_OperatorActionRequired (A_ActionContract (gc_Assessment c1)) = None ∧ is_urgent (A_Attention a) = false ∧
    AC_NextUpdateAt (A_ActionContract (gc_Assessment c1)) = Some v ∧ (v ≤ ValidUntil j)%Z).
  { intros Hj. destruct Hc as [(_ & _ & Hf)|(j & v & Hrd & Hex & Hu & _ & _ & _ & Hop & Hn & Hvv)];
      [unfold c0 in Hf; simpl in Hf; congruence|].
    apply orb_false_iff in Hu as [_ Hu]. by exists j, v. }
  do 3 eexists. split; [reflexivity|]. rewrite <- Hl1.
  destruct (rd_ExpectedBehavior rd) as [ev|]; cbn [fmap option_fmap option_map].
  - fold (authority (pc_Attention p) (gc_Assessment c1) ev checkedAt). split; [by apply authority_valid|].
    destruct (authority_cases (pc_Attention p) (gc_Assessment c1) ev checkedAt)
      as [[-> Hno]|(_ & Hu & _ & Hw & Hop & occ & t & Ho' & _ & Hn & Hb & _ & Hmin)].
    + split; [exact Hw1|done|]. intros e occ [= <-] Hm Ho Ht. rewrite Hl, <- Hl1 in Ht.
      destruct (Hno Hm) as [?|?]; congruence.
    + apply orb_false_iff in Hu as [_ Hu]. rewrite Hat1 in Hu. split.
      * rewrite Hw, Hw1. done.
      * intros Hjd. destruct (Hj Hjd) as (j & v & ? & ? & _ & _ & Hnv & Hvv). exists j, t.
        split_and!; try done. specialize (Hmin v Hnv). lia.
      * intros e occ' [= <-] _ Ho Ht. rewrite Ho' in Ho. injection Ho as <-. by exists t.
  - split; [exact Hv1|]. by split.
Qed.

(** The overlays keep a commit lawful, and quiet it as far as they carry
    authority. *)
Lemma overlaid_lawful c rd p now checkedAt :
  (now ≤ checkedAt)%Z → commit_core now rd (finalizeCheckpoint p checkedAt) = true →
  commit_lawful now rd (finalizeCheckpoint (overlaid c rd p checkedAt) checkedAt) = true.
Proof.
  intros Hle (a & Ha & Hv & Hl & Hat & Hu & _)%core_spec. cbn [finalizeCheckpoint pc_Assessment pc_Lifecycle] in *.
  destruct (overlaid_spec c rd p a now checkedAt Hle Ha Hl Hv) as (a' & judged & ev & -> & Hv' & [Hw Hj Hm]).
  unfold commit_lawful. rewrite (commit_core_intro _ a'); [|done|exact Hv'|by rewrite Hw|by rewrite Hw].
  unfold overlays_lawful. cbn [finalizeCheckpoint with_overlay pc_Assessment pc_JudgmentApplicable pc_Evaluation
    pc_Lifecycle]. rewrite <- Hl. simpl. rewrite andb_true_iff. split.
  - destruct judged; [|done]. destruct (Hj eq_refl) as (j & v & -> & -> & Hop & Hnu & Hn & Hvv). simpl.
    eapply quiet_intro; [done|done|by rewrite Hw|done|done].
  - destruct ev as [e|]; [|done]. destruct (ev_Occurrence e) as [occ|] eqn:Eo; [|done].
    destruct (bool_decide_reflect (ev_Disposition e = DispositionMatched)) as [Hd|]; [|done].
    destruct (Terminal (A_Lifecycle a)) eqn:Et; [done|]. simpl.
    destruct (Hm e occ eq_refl Hd Eo eq_refl) as (v & Hop & Hnu & Hn & Hb).
    eapply quiet_intro; [done|done|by rewrite Hw|done|done].
Qed.

Lemma conclude_cases cfg jitter policy n now :
  let v := conclude cfg jitter policy n now in
  (v = (None, Some (parkedReasonForOutcome (RP_Outcome policy)))) ∨
  (∃ park, v = (Some (Add now (retryBackoff (cfg_Retry cfg) jitter n)), park) ∧
           (park = None ∨ park = Some "" ∧ n = 1%Z) ∧ (n < MaxWorkAttemptsPerInput cfg)%Z ∧
           DurableRetry policy = true).
Proof.
  unfold conclude. destruct (DurableRetry policy); [|by left]. simpl.
  destruct (MaxWorkAttemptsPerInput cfg <=? n)%Z eqn:E; [by left|]. right.
  eexists. split; [done|]. split; [|split; [lia|done]].
  destruct (n =? 1)%Z eqn:E1; [right; split; [done|lia]|by left].
Qed.

Lemma parked_nonempty o : str_eqb (parkedReasonForOutcome o) "" = false.
Proof. by destruct o. Qed.

(** ** A cycle, as a triple *)

Section run.
Context {Raw : Type} (tok : Z) (others : nat → state → state)
        (read : nat → situation_row → option Reading) (answers : nat → Reply Raw)
        (mdigest : membershipDigestDTO → string) (idigest : incidentInputDigestDTO → string)
        (objectKeys : Raw → option (list string)) (decodeProposal : Raw → option AssessmentProposal)
        (cfg : Config) (jitter : Duration → Duration) (uuid : Z → string)
        (now checkedAt : Time) (start : state).

#[local] Existing Instance machine_store.
#[local] Existing Instance machine_client.
#[local] Abbreviation St := (machine_store tok others read).
#[local] Abbreviation Cl := (machine_client others answers).
#[local] Abbreviation At := (at_ tok now start).
#[local] Abbreviation Stopped := (stopped now start).

Context (Hothers : fair_others tok others) (Hcalls : (1 ≤ MaxL2CallsPerAttempt cfg)%Z)
        (Hchecked : (now ≤ checkedAt)%Z).

(** The view of a cycle agrees with its Snapshot. *)
Definition views (v : view) (snap : Snapshot) : Prop :=
  v_now v = now ∧ v_version v = Snap_InputVersion snap ∧ v_hash v = Snap_MaterialFactHash snap.

(** Before the [n]-th call of an attempt. *)
Definition before_call (rd : Reading) (e a n : Z) (ids : list string) (used : bool) (ph : phase) : Prop :=
  n = 1%Z ∧ ids = [] ∧ used = false ∧ ph = PBegun rd e a ∨
  n = 2%Z ∧ (∃ id, ids = [id]) ∧ used = true ∧ ph = PClosed rd e a 1.

(** What a call leaves: an open call with its accepted proposal, or a closed one. *)
Definition after_call (rd : Reading) (c : Claim) (v : view) (snap : Snapshot) (e a n : Z)
    (ids : list string) (res : dispatchResult) (w : world) : Prop :=
  lastCallID res = uuid n ∧
  match dr_proposal res with
  | Some p =>
      (∃ q, p = raised q snap ∧ grounded q snap ∧ AssessmentProposal_Validate q = Ok tt) ∧
      At (PSent rd e a n (uuid n)) (Some (Working c v e a (ids ++ [uuid n]))) w
  | None =>
      (budgetDeniedBeforeDispatch res = true → n = 1%Z) ∧
      At (PClosed rd e a n) (Some (Working c v e a (ids ++ [uuid n]))) w
  end.

Lemma accepted_call vr err used (snap : Snapshot) raw call :
  let o := RP_Outcome (ClassifyL2Outcome vr err used) in
  (bool_decide (o = L2OutcomeAccepted) || bool_decide (o = L2OutcomeContradicted)) = true →
  (err = None → vr = Some (ValidateAssessmentProposal objectKeys decodeProposal raw snap call)) →
  ∃ q, vr ≫= VR_Proposal = Some (raised q snap) ∧ grounded q snap ∧ AssessmentProposal_Validate q = Ok tt.
Proof.
  intros o Ho Hvr. rewrite orb_true_iff, !bool_decide_eq_true in Ho.
  apply (ClassifyL2Outcome_policy vr err used) in Ho as (Herr & v & -> & Ha). specialize (Hvr Herr). simplify_eq.
  destruct (accepted_some _ _ _ _ _ Ha) as [p Hp].
  destruct (accepted_response _ _ _ _ _ _ Ha Hp) as (_ & _ & _ & q & _ & Hq & Hg & _ & ->).
  exists q. by simpl; rewrite Hp.
Qed.

Lemma outcome_closes e a id version vr err started seq :
  closes (buildOutcomeAttempt id version e a seq vr err started) e a id = true.
Proof.
  unfold closes. simpl. rewrite bool_decide_eq_true_2, !Z.eqb_refl by done. by destruct vr.
Qed.

Lemma one_call_triple rd c v snap e a n ids ph res :
  views v snap → before_call rd e a n ids (correctionUsed res) ph →
  triple (At ph (Some (Working c v e a ids)))
    (@one_call _ Raw St Cl objectKeys decodeProposal cfg uuid c snap e a now n res)
    (λ '(res', again) w,
       after_call rd c v snap e a n ids res' w ∧
       (again = true → dr_proposal res' = None ∧ n = 1%Z ∧ correctionUsed res' = true ∧
                       (1 < MaxL2CallsPerAttempt cfg)%Z))
    Stopped.
Proof.
  intros (Hnow & Hver & Hhash) Hb. unfold one_call. cbn zeta.
  set (k := {| dc_ID := uuid n; dc_MaterialFactHash := _ |}).
  assert (Hk : call_row_of k = new_call v e a ids (dc_ID k)).
  { unfold call_row_of, new_call, k. simpl. rewrite Hnow, Hver, Hhash.
    by destruct Hb as [(-> & -> & _)|(-> & (id & ->) & _)]. }
  assert (Hp : proto_step now ph (EvRecord k) = Some (PRecorded rd e a n (uuid n))).
  { unfold k, of_attempt. destruct Hb as [(-> & _ & _ & ->)|(-> & _ & _ & ->)]; simpl;
      unfold of_attempt; simpl; by rewrite !Z.eqb_refl. }
  assert (Hlen : (length ids < 2)%nat)
    by (destruct Hb as [(_ & -> & _)|(_ & (id & ->) & _)]; simpl; lia).
  eapply triple_bind; [by eapply record_triple|]. intros ?.
  eapply triple_bind; [by eapply send_triple|]. intros oneShot.
  set (vr := match rp_Err oneShot with Some _ => None | None => _ end).
  set (policy := ClassifyL2Outcome _ _ _).
  destruct (bool_decide _ || bool_decide _) eqn:Ho.
  - apply triple_ret. intros w Hw. split; [|done]. split; [done|]. cbn [dr_proposal].
    destruct (accepted_call vr (transport_error <$> rp_Err oneShot) (correctionUsed res) snap
      (rp_Raw oneShot) {| Call_InputVersion := Snap_InputVersion snap;
                          Call_MaterialFactHash := Snap_MaterialFactHash snap |} Ho) as (q & -> & Hg & Hq).
    { unfold vr. by destruct (rp_Err oneShot). }
    split; [by exists q|done].
  - eapply triple_bind.
    { eapply triple_weaken; [eapply append_triple; [done|]|done|done|intros w; by eapply at_stopped].
      cbn [proto_step]. by rewrite outcome_closes. }
    intros ?. apply triple_ret. intros w Hw. split; [split; [done|split; [|done]]|].
    + cbn [budgetDeniedBeforeDispatch]. intros H. apply andb_prop in H as [H _].
      apply andb_prop in H as [H _]. lia.
    + intros Hagain. split; [done|]. cbn [correctionUsed]. rewrite Hagain, orb_true_r.
      apply andb_prop in Hagain as [[_ Hu]%andb_prop Hlt]. apply Z.ltb_lt in Hlt.
      destruct Hb as [(-> & _)|(_ & _ & Hu' & _)]; [by split_and!|]. by rewrite Hu' in Hu.
Qed.

Lemma dispatch_triple rd c v snap e a :
  views v snap →
  triple (At (PBegun rd e a) (Some (Working c v e a [])))
    (@dispatchWorkBearing _ Raw St Cl objectKeys decodeProposal cfg uuid c snap e a now)
    (λ res w, ∃ n ids, (n = 1%Z → ids = []) ∧ after_call rd c v snap e a n ids res w)
    Stopped.
Proof.
  intros Hv. unfold dispatchWorkBearing.
  destruct (Z.to_nat (MaxL2CallsPerAttempt cfg)) as [|fuel] eqn:Ef; [lia|]. cbn [dispatch_loop].
  rewrite (proj2 (Z.ltb_ge _ _)) by lia.
  eapply triple_bind; [by apply one_call_triple; [done|left]|].
  intros [res []].
  - intros w [[Hid Hac] (Hn & _ & Hu & Hlt)]; [done|]. revert w Hid Hac.
    cut (triple (after_call rd c v snap e a 1 [] res)
           (@dispatch_loop _ Raw St Cl objectKeys decodeProposal cfg uuid fuel c snap e a now 2 res)
           (λ res w, ∃ n ids, (n = 1%Z → ids = []) ∧ after_call rd c v snap e a n ids res w) Stopped).
    { intros H w Hid Hac. by apply H. }
    destruct fuel as [|fuel]; [lia|]. cbn [dispatch_loop]. rewrite (proj2 (Z.ltb_ge _ _)) by lia.
    eapply triple_bind; [|intros [res' again]].
    + eapply triple_weaken;
        [apply (one_call_triple rd c v snap e a 2 [uuid 1] (PClosed rd e a 1)); [done|]|
         | |]; [right; by eauto| |intros ? ? H; exact H|done].
      intros w [_ Hac]. rewrite Hn in Hac. apply Hac.
    + destruct again; [intros w [_ H]; by destruct (H eq_refl) as (_ & ? & _)|].
      apply triple_ret. intros w [Hac _]. by exists 2%Z, [uuid 1].
  - apply triple_ret. intros w [Hac _]. by exists 1%Z, [].
Qed.

(** *** The commits *)

(** What a phase asks of the plan that is committed in it, before the overlays. *)
Definition commits_at (ph : phase) (rd : Reading) (p : commit_plan) : Prop :=
  commit_core now rd (finalizeCheckpoint p checkedAt) = true ∧
  match ph with
  | PRead rd' => rd = rd' ∧ attempt_call p = None
  | PSent rd' _ _ _ id => rd = rd' ∧ attempt_call p = Some id
  | PClosed rd' _ _ _ => rd = rd' ∧ attempt_call p = None ∧ retried_or_parked p = true
  | _ => False
  end.

Lemma commits_at_step ph rd c p :
  commits_at ph rd p →
  proto_step now ph (EvCommit (finalizeCheckpoint (overlaid c rd p checkedAt) checkedAt)) = Some PDone.
Proof.
  intros [Hcore Hph]. pose proof (overlaid_lawful c rd p now checkedAt Hchecked Hcore) as Hl.
  assert (Ha : attempt_call (finalizeCheckpoint (overlaid c rd p checkedAt) checkedAt) = attempt_call p)
    by apply overlaid_attempt.
  assert (Hr : retried_or_parked (finalizeCheckpoint (overlaid c rd p checkedAt) checkedAt) = retried_or_parked p)
    by apply overlaid_attempt.
  destruct ph; try done; cbn [proto_step].
  - destruct Hph as [<- Hid]. by rewrite Hl, Ha, Hid.
  - destruct Hph as [<- Hid]. rewrite Hl, Ha, Hid. by rewrite bool_decide_eq_true_2.
  - destruct Hph as (<- & Hid & Hp). by rewrite Hl, Ha, Hr, Hid, Hp.
Qed.

Lemma commit_end ph rd c cy p :
  claim_of cy = c → commit_from cy (store_commit p) → commits_at ph rd p →
  triple (At ph (Some cy)) (@commit _ St c rd p checkedAt) (λ _, At PDone None) (At ph (Some cy)).
Proof.
  intros Hc Hf Hp. apply commit_triple; try done; [by apply overlaid_from|by apply commits_at_step].
Qed.

Lemma commit_ends ph rd c cy p :
  claim_of cy = c → commit_from cy (store_commit p) → commits_at ph rd p →
  triple (At ph (Some cy)) (@commit _ St c rd p checkedAt) (λ _, At PDone None) Stopped.
Proof.
  intros. eapply triple_weaken; [by apply commit_end|done|done|]. intros w. by apply at_stopped.
Qed.

(** A call's answer that cannot be committed closes the call as stale. *)
Lemma commitResult_end rd e a n id c cy p :
  claim_of cy = c → commit_from cy (store_commit p) →
  commits_at (PSent rd e a n id) rd p →
  (∀ at0, pc_Attempt p = Some at0 → At_RetryEpoch at0 = e ∧ At_WorkAttempt at0 = a) →
  triple (At (PSent rd e a n id) (Some cy)) (@commitResult _ St c rd p (Some id) checkedAt)
    (λ _, At PDone None) Stopped.
Proof.
  intros Hc Hf Hp Hat w Hw. pose proof (commit_end _ _ _ _ _ Hc Hf Hp w Hw) as H.
  unfold commitResult. destruct (commit c rd p checkedAt w) as [[[]|err] w']; [done|].
  destruct (pc_Attempt p) as [at0|] eqn:Ea; [|by eapply at_stopped].
  destruct (Hat _ eq_refl) as [He Ha].
  assert (Hcl : proto_step now (PSent rd e a n id) (EvOutcome (buildStaleOutcome at0 id)) = Some (PClosed rd e a n)).
  { unfold proto_step, closes. simpl. by rewrite bool_decide_eq_true_2, He, Ha, !Z.eqb_refl. }
  pose proof (append_triple tok others read now start Hothers _ _ _ _ Hcl w' H) as H2.
  destruct (op_AppendAssessmentOutcome _ w') as [[[]|] w'']; simpl; by eapply at_stopped.
Qed.

(** *** The whole cycle *)

(** What the controller relies on in what it loads: the row's lifecycle is one
    of the table's, and the candidates of the Snapshot have identities. *)
Definition well_read : Prop :=
  ∀ n r rd, read n r = Some rd →
    Lifecycle_Validate (Situation_Lifecycle (In_Situation (rd_Input rd))) = Ok tt ∧
    Forall (λ c, RC_ID c ≠ "" ∧ RC_Code c ≠ "") (EligibleReasons (rd_Snapshot rd)).

Context (Hread : well_read).

Lemma read_commit rd c p :
  commit_core now rd (finalizeCheckpoint p checkedAt) = true → attempt_call p = None →
  pc_MaterialFactHash p = Snap_MaterialFactHash (rd_Snapshot rd) → pc_BudgetDeniedCallID p = None →
  triple (At (PRead rd) (Some (Loaded c (view_of rd now)))) (@commit _ St c rd p checkedAt)
    (λ _, At PDone None) Stopped.
Proof. intros Hl Hc Hh Hb. apply commit_ends; [done|by split|by split]. Qed.

Lemma closed_commit rd c v snap e a n ids p st :
  cycle_snapshot rd snap → Snap_MaterialFactHash snap = v_hash v →
  lr_Lifecycle (pc_Lifecycle p) = Snap_Lifecycle snap → retried_or_parked p = true →
  (pc_BudgetDeniedCallID p = None ∨ ∃ id, ids = [id] ∧ pc_BudgetDeniedCallID p = Some id) →
  pc_MaterialFactHash p = Snap_MaterialFactHash snap →
  triple (At (PClosed rd e a n) (Some (Working c v e a ids)))
    (@commit _ St c rd (preserved_plan mdigest idigest rd snap now p st e a) checkedAt)
    (λ _, At PDone None) Stopped.
Proof.
  intros Hs Hvh Hlc Hr Hb Hm.
  destruct (preserved_spec mdigest idigest rd snap now p st e a checkedAt) as (Hac & Hr' & Hb' & Hm').
  apply commit_ends; [done| |].
  - split; cbn [store_commit cc_MaterialFactHash cc_BudgetDeniedCallID]; [by rewrite Hm', Hm|by rewrite Hb'].
  - split; [by apply preserved_lawful|]. split; [done|]. split; [exact Hac|]. by rewrite <- Hr, <- Hr'.
Qed.

Lemma work_triple rd c v snap base st e a :
  views v snap → cycle_snapshot rd snap → Snap_MaterialFactHash snap = Snap_MaterialFactHash (rd_Snapshot rd) →
  (∃ decisions lc, base = base_plan snap decisions lc ∧ lr_Lifecycle lc = Snap_Lifecycle snap) →
  triple (At (PBegun rd e a) (Some (Working c v e a [])))
    (@work _ Raw St Cl mdigest idigest objectKeys decodeProposal cfg jitter uuid
       c rd snap base st e a now checkedAt)
    (λ _, At PDone None) Stopped.
Proof.
  intros Hv Hs Hh (ds & lc & -> & Hlc). unfold work.
  assert (Hvh : Snap_MaterialFactHash snap = v_hash v) by (by destruct Hv as (_ & _ & ->)).
  eapply triple_bind; [by apply dispatch_triple|]. intros disp w (n & ids & Hids & Hid & Hac). revert w Hac.
  destruct (dr_proposal disp) as [p|] eqn:Ep.
  - intros w [(q & -> & Hg & Hq) Hat]. rewrite Hid.
    eapply (commitResult_end rd e a n _ c (Working c v e a (ids ++ [uuid n]))); [done|by split; [|left]| | |exact Hat].
    + split; [by apply derived_lawful|done].
    + by intros at0 [= <-].
  - destruct (budgetDeniedBeforeDispatch disp) eqn:Ed; intros w [Hn Hat].
    + specialize (Hn eq_refl). rewrite (Hids Hn) in Hat. revert w Hat.
      apply (closed_commit rd c v snap e a n [uuid n] _ _ Hs Hvh); [done| |by right; exists (uuid n); rewrite <- Hid|done].
      unfold retried_or_parked. cbn. by case_match.
    + revert w Hat. apply (closed_commit rd c v snap e a n _ _ _ Hs Hvh); [done| |by left|done].
      unfold retried_or_parked. cbn.
      destruct (conclude_cases cfg jitter (ClassifyL2Outcome (lastVR disp)
        (transport_error <$> dr_transportErr disp) (correctionUsed disp)) a now) as [->|(pk & -> & _)];
        simpl; by rewrite ?parked_nonempty.
Qed.

Lemma read_preserved rd c snap p st :
  cycle_snapshot rd snap → Snap_MaterialFactHash snap = Snap_MaterialFactHash (rd_Snapshot rd) →
  lr_Lifecycle (pc_Lifecycle p) = Snap_Lifecycle snap → pc_BudgetDeniedCallID p = None →
  pc_MaterialFactHash p = Snap_MaterialFactHash snap →
  triple (At (PRead rd) (Some (Loaded c (view_of rd now))))
    (@commit _ St c rd (preserved_plan mdigest idigest rd snap now p st 0 1) checkedAt)
    (λ _, At PDone None) Stopped.
Proof.
  intros Hs Hh Hlc Hb Hm.
  destruct (preserved_spec mdigest idigest rd snap now p st 0 1 checkedAt) as (Hac & _ & Hb' & Hm').
  apply read_commit; [by apply preserved_lawful|exact Hac|by rewrite Hm', Hm|by rewrite Hb'].
Qed.

Lemma reconcile_triple c :
  triple
    (λ w, At PStart (Some (Claimed c)) w ∧
          text_leb (st_clock (others (w_time w) (w_state w))) now = true ∧ IsZero now = false)
    (@reconcile _ Raw St Cl mdigest idigest objectKeys decodeProposal cfg jitter uuid c now checkedAt)
    (λ _, At PDone None) Stopped.
Proof.
  unfold reconcile. eapply triple_bind; [by apply load_triple|]. intros rd w [Hat (n & r & rd0 & Hrd & ->)].
  destruct (Hread _ _ _ Hrd) as [Hlv Hnamed]. revert w Hat. set (rd := reading_at r rd0). cbv zeta.
  set (lc := resolveLifecycle _ _ _ _ _ _). set (snap := set_snap_lifecycle _ _).
  set (ds := DecideTriage _ _ _ _ _ _). set (st := buildControllerState _ _ _ _ _ _).
  assert (Hs : cycle_snapshot rd snap) by (split; [by apply resolveLifecycle_valid|done|done]).
  assert (Hh : Snap_MaterialFactHash snap = Snap_MaterialFactHash (rd_Snapshot rd)) by done.
  match goal with |- context [match ?o with Some r => commitResult _ _ _ _ _ | None => _ end] =>
    destruct o as [rr|] eqn:Ereuse end.
  - destruct (rd_Current rd) as [cur|]; [|done].
    destruct (RevalidateReuse _ _ cur snap _ st now) as [x|] eqn:Er; [|done]. injection Ereuse as <-.
    apply reuse_cases in Er as (_ & _ & q & Hg & Hq & ->); [|done].
    intros w Hw. unfold commitResult.
    match goal with |- context [commit c rd ?p checkedAt w] =>
      assert (H : triple (At (PRead rd) (Some (Loaded c (view_of rd now)))) (commit c rd p checkedAt)
                    (λ _, At PDone None) Stopped)
        by (apply read_commit; [by apply derived_lawful|done|done|done]);
      specialize (H w Hw); by destruct (commit c rd p checkedAt w) as [[[]|] ?] end.
  - destruct (budget_waiting _ _ _) eqn:Ebud; [by apply (read_preserved rd c snap)|].
    destruct (controllerParkBlocksDispatch _ _) eqn:Epark; [by apply (read_preserved rd c snap)|].
    eapply triple_bind.
    { eapply triple_weaken; [apply triple_catch, (begin_triple _ _ _ now start Hothers rd c (view_of rd now))|
        intros ? H; exact H|intros ? ? H; exact H|intros ?; by apply at_stopped].
      unfold dispatch_blocked. simpl. by apply orb_false_iff. }
    intros [[e a]|]; [|destruct (str_eqb (Parked_Reason (rd_Parked rd)) ""); by apply (read_preserved rd c snap)].
    apply work_triple; [done|done|done|by exists ds, lc].
Qed.
End run.

(** ** What a log that follows the protocol holds *)

Definition is_send (ev : event) : bool := match ev with EvSend => true | _ => false end.
Definition sends (l : list event) : nat := length (filter (λ ev, is_send ev = true) l).

(** The calls sent by a phase, at most. *)
Definition sent_by (ph : phase) : nat :=
  match ph with
  | PStart | PRead _ | PBegun _ _ _ => 0
  | PRecorded _ _ _ n _ => Z.to_nat n - 1
  | PSent _ _ _ n _ | PClosed _ _ _ n => Z.to_nat n
  | PDone => 2
  end.

Definition call_of_phase (ph : phase) : Prop :=
  match ph with
  | PRecorded _ _ _ n _ | PSent _ _ _ n _ | PClosed _ _ _ n => n = 1%Z ∨ n = 2%Z
  | _ => True
  end.

Definition read_of (ph : phase) : option Reading :=
  match ph with
  | PStart | PDone => None
  | PRead rd | PBegun rd _ _ | PRecorded rd _ _ _ _ | PSent rd _ _ _ _ | PClosed rd _ _ _ => Some rd
  end.

Lemma run_log_snoc now l ev :
  run_log now (l ++ [ev]) = run_log now l ≫= λ ph, proto_step now ph ev.
Proof. unfold run_log. by rewrite foldl_app. Qed.

(** One step of the protocol, case by case. *)
Ltac proto_cases H :=
  match type of H with
  | proto_step _ ?ph ?ev = Some _ =>
      destruct ph; (is_var ev; destruct ev) || idtac; simpl in H; try discriminate H;
      try match type of H with (if ?b then _ else _) = _ =>
        let E := fresh "Hlawful" in destruct b eqn:E; [|discriminate H] end;
      injection H as <-
  end.

Lemma proto_step_read now ph ev ph' rd :
  proto_step now ph ev = Some ph' → read_of ph' = Some rd → read_of ph = Some rd ∨ ev = EvRead rd.
Proof. intros H Hr. proto_cases H; simpl in *; try discriminate Hr; try injection Hr as <-; auto. Qed.

Lemma proto_step_commit now ph p ph' :
  proto_step now ph (EvCommit p) = Some ph' →
  ∃ rd, read_of ph = Some rd ∧ commit_lawful now rd p = true.
Proof.
  intros H. proto_cases H; rewrite !andb_true_iff in Hlawful; eexists; (split; [reflexivity|tauto]).
Qed.

Lemma proto_step_sends now ph ev ph' :
  call_of_phase ph → proto_step now ph ev = Some ph' →
  call_of_phase ph' ∧ (sent_by ph + (if is_send ev then 1 else 0) ≤ sent_by ph')%nat.
Proof.
  intros Hn H. proto_cases H; simpl in *; lia.
Qed.

Lemma run_log_facts now l ph :
  run_log now l = Some ph →
  call_of_phase ph ∧ (sends l ≤ sent_by ph)%nat ∧
  (∀ rd, read_of ph = Some rd → EvRead rd ∈ l) ∧
  (∀ p, EvCommit p ∈ l → ∃ rd, EvRead rd ∈ l ∧ commit_lawful now rd p = true).
Proof.
  revert ph. induction l as [|ev l IH] using rev_ind; intros ph H.
  { injection H as <-. split_and!; [done|unfold sends; simpl; lia|done|]. by intros p Hp%elem_of_nil. }
  rewrite run_log_snoc in H. destruct (run_log now l) as [ph0|]; [|done]. simpl in H.
  destruct (IH _ eq_refl) as (Hn & Hs & Hr & Hc). destruct (proto_step_sends _ _ _ _ Hn H) as [Hn' Hs'].
  split_and!; [done| | |].
  - unfold sends in *. rewrite filter_app, length_app, filter_cons. destruct (is_send ev); simpl; lia.
  - intros rd Hrd. apply elem_of_app.
    destruct (proto_step_read _ _ _ _ _ H Hrd) as [H0| ->]; [left; by apply Hr|right; by left].
  - intros p [Hp|Hp%list_elem_of_singleton]%elem_of_app.
    + destruct (Hc _ Hp) as (rd & Hrd & Hl). exists rd. split; [apply elem_of_app; by left|done].
    + subst ev. destruct (proto_step_commit _ _ _ _ H) as (rd & Hrd & Hl).
      exists rd. split; [apply elem_of_app; left; by apply Hr|done].
Qed.

Lemma lawful_core now rd p : commit_lawful now rd p = true → commit_core now rd p = true.
Proof. intros H. by apply andb_prop in H as [? _]. Qed.

(** What a plan that passed the check of its overlays promises. *)
Lemma quiet_spec p a until :
  quiet_until p a until = true →
  AC_OperatorActionRequired (A_ActionContract a) = None ∧ A_Attention a ≠ AttentionUrgent ∧
  (pc_NextAssessmentAt p ≤ until)%Z.
Proof.
  unfold quiet_until, is_urgent. rewrite !andb_true_iff, negb_true_iff, bool_decide_eq_false, bool_decide_eq_true.
  intros [[? ?] ?]. split_and!; try done. lia.
Qed.

Lemma lawful_overlays now rd p a :
  commit_lawful now rd p = true → pc_Assessment p = Some a →
  (pc_JudgmentApplicable p = true → ∃ j, rd_Judgment rd = Some j ∧ judgment_expected j = true ∧
     quiet_until p a (ValidUntil j) = true) ∧
  (∀ ev occ, pc_Evaluation p = Some ev → ev_Occurrence ev = Some occ → ev_Disposition ev = DispositionMatched →
     Terminal (lr_Lifecycle (pc_Lifecycle p)) = false → quiet_until p a (Boundary occ) = true).
Proof.
  unfold commit_lawful, overlays_lawful. intros [_ H]%andb_prop Ha. rewrite Ha in H.
  apply andb_prop in H as [Hj Hm]. split.
  - intros Hp. rewrite Hp in Hj. destruct (rd_Judgment rd) as [j|]; [|done].
    simpl in Hj. apply andb_prop in Hj as [? ?]. by exists j.
  - intros ev occ He Ho Hd Ht. rewrite He, Ho, Ht, bool_decide_eq_true_2 in Hm by done. done.
Qed.

(** ** Backoff *)

(** What [rand.Float64] gives: at most the configured share, up to the
    rounding of its product. *)
Definition jitter_bounded (cfg : RetryConfig) (jitter : Duration → Duration) : Prop :=
  ∀ d, (0 < d ≤ Retry_Max cfg)%Z → (Z.abs (jitter d) ≤ d * JitterPercent cfg / 100 + 1)%Z.

Lemma backoff_base_bounds cfg n :
  (0 < Retry_Max cfg)%Z → (0 < backoff_base cfg n ≤ Retry_Max cfg)%Z.
Proof.
  intros H. unfold backoff_base.
  destruct (dur_mul _ _ <=? 0)%Z eqn:E1; simpl; [lia|].
  destruct (Retry_Max cfg <? dur_mul _ _)%Z eqn:E2; lia.
Qed.

Lemma backoff_base_exact cfg n :
  (0 < Retry_Min cfg)%Z → (1 ≤ n ≤ 31)%Z → (Retry_Min cfg * 2 ^ (n - 1) ≤ int64_max)%Z →
  backoff_base cfg n = Z.min (Retry_Max cfg) (Retry_Min cfg * 2 ^ (n - 1)).
Proof.
  intros Hm Hn Hi. unfold backoff_base, dur_mul.
  rewrite Z.max_l, Z.min_r, Z.shiftl_1_l by lia.
  assert (0 < 2 ^ (n - 1))%Z by (apply Z.pow_pos_nonneg; lia).
  rewrite wrap64_id by (unfold in_int64, int64_min; nia).
  destruct (_ <=? 0)%Z eqn:E1; simpl; [nia|].
  destruct (Retry_Max cfg <? _)%Z eqn:E2; lia.
Qed.

Lemma retryBackoff_range cfg jitter n :
  (0 < Retry_Min cfg ≤ Retry_Max cfg)%Z → (Retry_Max cfg ≤ int64_max / 4)%Z →
  (0 ≤ JitterPercent cfg ≤ 100)%Z → jitter_bounded cfg jitter →
  (0 < retryBackoff cfg jitter n ≤ Retry_Max cfg + Retry_Max cfg * JitterPercent cfg / 100 + 1)%Z.
Proof.
  intros Hm Hi Hp Hj. pose proof (backoff_base_bounds cfg n ltac:(lia)) as Hb.
  specialize (Hj _ Hb). unfold retryBackoff. set (d := backoff_base cfg n) in *.
  assert (d * JitterPercent cfg / 100 ≤ Retry_Max cfg * JitterPercent cfg / 100)%Z
    by (apply Z.div_le_mono; nia).
  assert (Retry_Max cfg * JitterPercent cfg / 100 ≤ Retry_Max cfg)%Z by (apply Z.div_le_upper_bound; nia).
  assert (0 ≤ Retry_Max cfg * JitterPercent cfg / 100)%Z by (apply Z.div_pos; nia).
  assert (int64_max / 4 = 2305843009213693951)%Z as Hq by done. rewrite Hq in Hi.
  destruct (0 <? JitterPercent cfg)%Z.
  - unfold dur_add. rewrite wrap64_id by (unfold in_int64, int64_min, int64_max; lia).
    destruct (d + jitter d <=? 0)%Z eqn:E; lia.
  - destruct (d <=? 0)%Z eqn:E; lia.
Qed.

(** ** Theorems *)

(** One [Reconcile] on the machine. *)
Definition run_cycle {Raw} (tok : Z) (others : nat → state → state)
    (read : nat → situation_row → option Reading) (answers : nat → Reply Raw)
    (mdigest : membershipDigestDTO → string) (idigest : incidentInputDigestDTO → string)
    (objectKeys : Raw → option (list string)) (decodeProposal : Raw → option AssessmentProposal)
    (cfg : Config) (jitter : Duration → Duration) (uuid : Z → string) (c : Claim) (now checkedAt : Time)
    (s : state) : result controller_error unit * world :=
  @reconcile _ Raw (machine_store tok others read) (machine_client others answers) mdigest idigest
    objectKeys decodeProposal cfg jitter uuid c now checkedAt {| w_state := s; w_time := 0; w_log := [] |}.

(** What a cycle starts from: its claim, a clock that no later cycle has
    passed, and others that take steps of the system. *)
Record cycle_start (tok : Z) (others : nat → state → state) (read : nat → situation_row → option Reading)
    (cfg : Config) (c : Claim) (now checkedAt : Time) (s : state) : Prop := {
  start_claim : st_cycles s !! tok = Some (Claimed c);
  start_clock : text_leb (st_clock (others 0 s)) now = true;
  start_nonzero : IsZero now = false;
  start_checked : (now ≤ checkedAt)%Z;
  start_others : fair_others tok others;
  start_calls : (1 ≤ MaxL2CallsPerAttempt cfg)%Z;
  start_read : well_read read
}.

Lemma cycle_runs {Raw} tok others read (answers : nat → Reply Raw) md idg keys dec cfg jitter uuid c now
    checkedAt s :
  cycle_start tok others read cfg c now checkedAt s →
  let r := run_cycle tok others read answers md idg keys dec cfg jitter uuid c now checkedAt s in
  rtc step s (w_state r.2) ∧ is_Some (run_log now (w_log r.2)) ∧
  (r.1 = Ok tt → run_log now (w_log r.2) = Some PDone).
Proof.
  intros [Hc Hclk Hz Hchk Ho Hn Hr]. cbn zeta. unfold run_cycle.
  set (w := {| w_state := s; w_time := 0; w_log := [] |}).
  assert (Hw : at_ tok now s PStart (Some (Claimed c)) w ∧
               text_leb (st_clock (others (w_time w) (w_state w))) now = true ∧ IsZero now = false)
    by (split_and!; [split; [apply rtc_refl|done|done]|done|done]).
  pose proof (reconcile_triple tok others read answers md idg keys dec cfg jitter uuid now checkedAt s
                Ho Hn Hchk Hr c w Hw) as H.
  destruct (reconcile _ _ _ _ _ _ _ _ _ _ w) as [[[]|err] w']; simpl.
  - destruct H as [? _ Hl]. split_and!; [done|by eexists|done].
  - destruct H. by split_and!.
Qed.

(** C1. A [Reconcile], whatever the store, the model and the other actors
    answer it and wherever it stops, is a run of the transition system whose
    theorems bound and protect its calls: its operations come in an order the
    system allows, with the coordinates, the parks and the refunds it allows. *)
Theorem reconcile_refines {Raw} tok others read (answers : nat → Reply Raw) md idg keys dec cfg jitter uuid
    c now checkedAt s :
  cycle_start tok others read cfg c now checkedAt s →
  rtc step s (w_state (run_cycle tok others read answers md idg keys dec cfg jitter uuid c now checkedAt s).2).
Proof. intros H. by apply (cycle_runs tok others read answers md idg keys dec cfg jitter uuid). Qed.

(** C5. A cycle follows its protocol: it sends no request before the attempt and
    the call are recorded, closes every answered call before the next one or the
    commit unless the commit rests on it, sends two requests at most, and when it
    succeeds it ends in exactly one commit, which after a failed attempt carries a
    time to retry or a park. *)
Theorem reconcile_protocol {Raw} tok others read (answers : nat → Reply Raw) md idg keys dec cfg jitter uuid
    c now checkedAt s :
  cycle_start tok others read cfg c now checkedAt s →
  let r := run_cycle tok others read answers md idg keys dec cfg jitter uuid c now checkedAt s in
  is_Some (run_log now (w_log r.2)) ∧ (sends (w_log r.2) ≤ 2)%nat ∧
  (r.1 = Ok tt → run_log now (w_log r.2) = Some PDone).
Proof.
  intros H. destruct (cycle_runs tok others read answers md idg keys dec cfg jitter uuid c now checkedAt s H)
    as (_ & [ph Hl] & Hok).
  cbn zeta. split_and!; [by eexists| |done].
  destruct (run_log_facts _ _ _ Hl) as (Hn & Hs & _). etrans; [exact Hs|]. destruct ph; simpl in *; lia.
Qed.

(** C4. Whatever a cycle commits, on every one of its paths, is a valid
    Assessment of the lifecycle it resolved, urgent exactly when the Snapshot it
    read has a deterministic floor; and unless the Situation ended it is due
    again, in the future. *)
Theorem reconcile_commits_valid {Raw} tok others read (answers : nat → Reply Raw) md idg keys dec cfg jitter
    uuid c now checkedAt s p :
  cycle_start tok others read cfg c now checkedAt s →
  let r := run_cycle tok others read answers md idg keys dec cfg jitter uuid c now checkedAt s in
  EvCommit p ∈ w_log r.2 →
  ∃ rd a, EvRead rd ∈ w_log r.2 ∧ pc_Assessment p = Some a ∧ Assessment_Validate a now = Ok tt ∧
    A_Lifecycle a = lr_Lifecycle (pc_Lifecycle p) ∧ pc_Attention p = A_Attention a ∧
    (A_Attention a = AttentionUrgent ↔ hasDeterministicFloor (EligibleReasons (rd_Snapshot rd)) = true) ∧
    (Terminal (lr_Lifecycle (pc_Lifecycle p)) = false → (now < pc_NextAssessmentAt p)%Z).
Proof.
  intros H. destruct (cycle_runs tok others read answers md idg keys dec cfg jitter uuid c now checkedAt s H)
    as (_ & [ph Hl] & _).
  cbn zeta. intros Hp. destruct (run_log_facts _ _ _ Hl) as (_ & _ & _ & Hc).
  destruct (Hc _ Hp) as (rd & Hrd & (a & Ha)%lawful_core%core_spec). by exists rd, a.
Qed.

(** C6. What a cycle commits under an operator's authority: a commit that counts
    a judgment as applicable, or an envelope as matched while the Situation is
    open, is never urgent, asks nothing of the operator, and comes due again no
    later than the judgment ends or the occurrence's boundary; the judgment is
    the one the cycle read. *)
Theorem reconcile_authority {Raw} tok others read (answers : nat → Reply Raw) md idg keys dec cfg jitter
    uuid c now checkedAt s p :
  cycle_start tok others read cfg c now checkedAt s →
  let r := run_cycle tok others read answers md idg keys dec cfg jitter uuid c now checkedAt s in
  EvCommit p ∈ w_log r.2 →
  ∃ rd a, EvRead rd ∈ w_log r.2 ∧ pc_Assessment p = Some a ∧
    (pc_JudgmentApplicable p = true → ∃ j, rd_Judgment rd = Some j ∧ judgment_expected j = true ∧
       AC_OperatorActionRequired (A_ActionContract a) = None ∧ A_Attention a ≠ AttentionUrgent ∧
       (pc_NextAssessmentAt p ≤ ValidUntil j)%Z) ∧
    (∀ ev occ, pc_Evaluation p = Some ev → ev_Occurrence ev = Some occ →
       ev_Disposition ev = DispositionMatched → Terminal (lr_Lifecycle (pc_Lifecycle p)) = false →
       AC_OperatorActionRequired (A_ActionContract a) = None ∧ A_Attention a ≠ AttentionUrgent ∧
       (pc_NextAssessmentAt p ≤ Boundary occ)%Z).
Proof.
  intros H. destruct (cycle_runs tok others read answers md idg keys dec cfg jitter uuid c now checkedAt s H)
    as (_ & [ph Hl] & _).
  cbn zeta. intros Hp. destruct (run_log_facts _ _ _ Hl) as (_ & _ & _ & Hc).
  destruct (Hc _ Hp) as (rd & Hrd & Hlaw). destruct (core_spec _ _ _ (lawful_core _ _ _ Hlaw)) as (a & Ha & _).
  destruct (lawful_overlays _ _ _ _ Hlaw Ha) as [Hj Hm]. exists rd, a.
  split; [done|]. split; [done|]. split.
  - intros (j & ? & ? & Hq)%Hj. exists j. split; [done|]. split; [done|]. by apply quiet_spec.
  - intros ev occ He Ho Hd Ht. by apply quiet_spec, (Hm ev occ).
Qed.

(** After an attempt that ended without an accepted result the Situation is
    either retried, later than now and within the configured maximum and its
    jitter, or parked with a reason, never both and never neither: it is parked
    when the outcome is final for the basis or the attempts are spent, and it is
    the first attempt of an epoch alone that clears an older park. *)
Theorem conclude_spec cfg jitter policy n now :
  (0 < Retry_Min (cfg_Retry cfg) ≤ Retry_Max (cfg_Retry cfg))%Z →
  (Retry_Max (cfg_Retry cfg) ≤ int64_max / 4)%Z → (0 ≤ JitterPercent (cfg_Retry cfg) ≤ 100)%Z →
  jitter_bounded (cfg_Retry cfg) jitter →
  let '(retryAt, parked) := conclude cfg jitter policy n now in
  (DurableRetry policy = false ∨ (MaxWorkAttemptsPerInput cfg ≤ n)%Z →
   retryAt = None ∧ parked = Some (parkedReasonForOutcome (RP_Outcome policy)) ∧
   parkedReasonForOutcome (RP_Outcome policy) ≠ "") ∧
  (DurableRetry policy = true → (n < MaxWorkAttemptsPerInput cfg)%Z →
   parked = (if decide (n = 1%Z) then Some "" else None) ∧
   ∃ t, retryAt = Some t ∧
     (now < t ≤ now + Retry_Max (cfg_Retry cfg)
        + Retry_Max (cfg_Retry cfg) * JitterPercent (cfg_Retry cfg) / 100 + 1)%Z).
Proof.
  intros Hm Hi Hp Hj. pose proof (retryBackoff_range _ _ n Hm Hi Hp Hj) as Hr. unfold conclude.
  destruct (DurableRetry policy); simpl.
  - destruct (MaxWorkAttemptsPerInput cfg <=? n)%Z eqn:E.
    + split; [|lia]. intros _. split_and!; [done|done|]. by destruct (RP_Outcome policy).
    + split; [intros [?|?]; [done|lia]|]. intros _ _. split; [|eexists; split; [done|unfold Add; lia]].
      destruct (n =? 1)%Z eqn:E1; [rewrite decide_True by lia|rewrite decide_False by lia]; done.
  - split; [|done]. intros _. split_and!; [done|done|]. by destruct (RP_Outcome policy).
Qed.

(** The backoff doubles from its minimum up to its maximum, a product beyond
    the width of a duration included, and the jitter keeps it positive. *)
Theorem retryBackoff_bounds cfg jitter n :
  (0 < Retry_Min cfg ≤ Retry_Max cfg)%Z → (Retry_Max cfg ≤ int64_max / 4)%Z →
  (0 ≤ JitterPercent cfg ≤ 100)%Z → jitter_bounded cfg jitter →
  (0 < retryBackoff cfg jitter n ≤ Retry_Max cfg + Retry_Max cfg * JitterPercent cfg / 100 + 1)%Z ∧
  ((1 ≤ n ≤ 5)%Z → (Retry_Min cfg ≤ int64_max / 16)%Z → (∀ d, jitter d = 0%Z) →
   retryBackoff cfg jitter n = Z.min (Retry_Max cfg) (Retry_Min cfg * 2 ^ (n - 1))).
Proof.
  intros Hm Hi Hp Hj. split; [by apply retryBackoff_range|].
  intros Hn Hi' H0. pose proof (backoff_base_bounds cfg n ltac:(lia)) as Hb.
  assert (int64_max / 16 = 576460752303423487)%Z as Hq by done. rewrite Hq in Hi'.
  assert (2 ^ (n - 1) ≤ 16)%Z by (change 16%Z with (2 ^ 4)%Z; apply Z.pow_le_mono_r; lia).
  rewrite <- backoff_base_exact; [|lia|lia|unfold int64_max; nia].
  assert (int64_max / 4 = 2305843009213693951)%Z as Hq' by done. rewrite Hq' in Hi.
  unfold retryBackoff, dur_add. rewrite H0, Z.add_0_r, wrap64_id by (unfold in_int64, int64_min, int64_max; lia).
  destruct (0 <? JitterPercent cfg)%Z; by rewrite (proj2 (Z.leb_gt _ _)) by lia.
Qed.

(** ** Concrete runs *)

Definition ex_retry : RetryConfig :=
  {| Retry_Min := 5 * Second; Retry_Max := 300 * Second; JitterPercent := 20 |}%Z.

Definition ex_config : Config :=
  Config_withDefaults
    {| cfg_Lifecycle := ex_cfg; cfg_Cadence := {| Fast := 0; Normal := 0; Slow := 0 |};
       MaxL2CallsPerAttempt := 0; MaxWorkAttemptsPerInput := 0; cfg_Retry := ex_retry |}%Z.

Definition ex_reading : Reading :=
  {| rd_Input := ex_input [ex_firing]; rd_Snapshot := ex_snap; rd_SourceLifecycle := SourceLifecycle_zero;
     rd_Current := None; rd_CurrentReusedFrom := None;
     rd_Parked := {| Parked_Reason := ""; Parked_MaterialFactHash := "" |}; rd_RetryAt := None;
     rd_SourceDefinitions := []; rd_Judgment := None;
     rd_JudgmentApplicability := {| ja_Applicable := false; ja_Reason := JudgmentUndecided |};
     rd_ExpectedBehavior := None |}.

Definition ex_read (_ : nat) (_ : situation_row) : option Reading := Some ex_reading.
Definition ex_alone (_ : nat) (s : state) : state := s.
Definition ex_uuid (n : Z) : string := "call" +:+ pretty n.

(** A malformed first answer and a corrected second one. *)
Definition ex_answers (n : nat) : Reply (option AssessmentProposal) :=
  {| rp_Raw := if (n <=? 4)%nat then None else Some ex_proposal; rp_RequestStarted := "true";
     rp_Err := None |}.

(** A provider that refuses every request. *)
Definition ex_down (n : nat) : Reply (option AssessmentProposal) :=
  {| rp_Raw := None; rp_RequestStarted := "true";
     rp_Err := Some {| ce_schema_violation := false; ce_response_truncated := false;
                       ce_response_invalid := false; ce_retryable := Some 503%Z; ce_api := None;
                       ce_budget_exhausted := false; ce_request_not_sent := false; ce_deferred := None |} |}.

Definition ex_run (answers : nat → Reply (option AssessmentProposal)) : result controller_error unit * world :=
  run_cycle 1 ex_alone ex_read answers ex_sha ex_sha' (λ _, Some ["impact"]) id ex_config (λ _, 0%Z) ex_uuid
    ex_claim (31 * Second)%Z (32 * Second)%Z ex_s1.

Lemma ex_start : cycle_start 1 ex_alone ex_read ex_config ex_claim (31 * Second)%Z (32 * Second)%Z ex_s1.
Proof.
  split; [reflexivity|by vm_compute|reflexivity|by vm_compute| |by vm_compute|].
  - intros n s. split; [apply rtc_refl|reflexivity].
  - intros n r rd [= <-]. split; [reflexivity|]. by repeat constructor.
Qed.

(** The five kinds of entries of a log. *)
Definition kind_of (ev : event) : string :=
  match ev with
  | EvRead _ => "read" | EvBegin _ _ => "begin" | EvRecord _ => "record" | EvSend => "send"
  | EvOutcome o => "outcome " +:+ At_Status o
  | EvCommit p => "commit " +:+ default "cleared" (pc_LastErrorClass p)
  end.

Example ex_corrected :
  kind_of <$> w_log (ex_run ex_answers).2 =
  ["read"; "begin"; "record"; "send"; "outcome rejected"; "record"; "send"; "commit cleared"].
Proof. vm_compute. reflexivity. Qed.

Example ex_refused :
  kind_of <$> w_log (ex_run ex_down).2 =
  ["read"; "begin"; "record"; "send"; "outcome failed"; "commit transport_failure"].
Proof. vm_compute. reflexivity. Qed.

Lemma reconcile_refines_witness : rtc step ex_s1 (w_state (ex_run ex_answers).2).
Proof.
  exact (reconcile_refines 1 ex_alone ex_read ex_answers ex_sha ex_sha' (λ _, Some ["impact"]) id ex_config
    (λ _, 0%Z) ex_uuid ex_claim (31 * Second)%Z (32 * Second)%Z ex_s1 ex_start).
Defined.

Lemma reconcile_protocol_witness : run_log (31 * Second)%Z (w_log (ex_run ex_answers).2) = Some PDone.
Proof.
  apply (proj2 (proj2 (reconcile_protocol 1 ex_alone ex_read ex_answers ex_sha ex_sha' (λ _, Some ["impact"])
    id ex_config (λ _, 0%Z) ex_uuid ex_claim (31 * Second)%Z (32 * Second)%Z ex_s1 ex_start))).
  vm_compute. reflexivity.
Defined.

Lemma reconcile_commits_valid_witness :
  ∃ p a, EvCommit p ∈ w_log (ex_run ex_down).2 ∧ pc_Assessment p = Some a ∧
         Assessment_Validate a (31 * Second)%Z = Ok tt.
Proof.
  assert (H : ∃ p, EvCommit p ∈ w_log (ex_run ex_down).2).
  { destruct (w_log (ex_run ex_down).2) as [|e0 [|e1 [|e2 [|e3 [|e4 [|e5 l]]]]]] eqn:E;
      vm_compute in E; try discriminate. injection E as <- <- <- <- <- <- <-.
    eexists. do 5 right. left. }
  destruct H as [p Hp]. exists p.
  destruct (reconcile_commits_valid 1 ex_alone ex_read ex_down ex_sha ex_sha' (λ _, Some ["impact"]) id
    ex_config (λ _, 0%Z) ex_uuid ex_claim (31 * Second)%Z (32 * Second)%Z ex_s1 p ex_start Hp)
    as (rd & a & _ & Ha & Hv & _).
  by exists a.
Defined.

Lemma ex_jitter : jitter_bounded ex_retry (λ d, d / 10)%Z.
Proof.
  intros d [H0 H1]. unfold ex_retry. simpl.
  assert (0 ≤ d / 10)%Z by (apply Z.div_pos; lia).
  assert (d / 10 ≤ d * 20 / 100)%Z by (apply Z.div_le_lower_bound; [lia|];
    pose proof (Z.mul_div_le d 10 ltac:(lia)); lia). lia.
Qed.

Definition ex_policy : L2RetryPolicy :=
  {| RP_Outcome := L2OutcomeTransportFailure; ImmediateCorrection := false; DurableRetry := true |}.

Lemma conclude_spec_witness :
  (conclude ex_config (λ d, d / 10)%Z ex_policy 1%Z 0%Z).2 = Some "".
Proof.
  destruct (conclude_spec ex_config (λ d, d / 10)%Z ex_policy 1%Z 0%Z ltac:(split; by vm_compute)
    ltac:(by vm_compute) ltac:(split; by vm_compute) ex_jitter) as [_ H].
  exact (proj1 (H eq_refl eq_refl)).
Defined.

Lemma retryBackoff_bounds_witness : (0 < retryBackoff ex_retry (λ d, d / 10)%Z 7)%Z.
Proof.
  exact (proj1 (proj1 (retryBackoff_bounds ex_retry (λ d, d / 10)%Z 7%Z ltac:(split; by vm_compute)
    ltac:(by vm_compute) ltac:(split; by vm_compute) ex_jitter))).
Defined.

(** A calm reading with a judgment in force, under the same refusing provider. *)
Definition ex_calm_coverage : ExpectedJudgmentCoverage :=
  {| jc_Scope := "g"; jc_Impact := ImpactNoneObserved; jc_EvidenceRefs := [];
     jc_Symptoms := [covered_symptom (definitions []) (ex_warning "d1" 20)] |}.

Definition ex_calm_reading : Reading :=
  {| rd_Input := ex_input [ex_warning "d2" 25]; rd_Snapshot := ex_snapshot [ex_warning "d2" 25] [] [];
     rd_SourceLifecycle := SourceLifecycle_zero; rd_Current := None; rd_CurrentReusedFrom := None;
     rd_Parked := {| Parked_Reason := ""; Parked_MaterialFactHash := "" |}; rd_RetryAt := None;
     rd_SourceDefinitions := [];
     rd_Judgment := Some {| Revision := 1; Operation := JudgmentOperationRecord; j_AssertedOperator := "ada"; judgment_expected := true; ValidUntil := (60 * Second)%Z;
                            Coverage := ex_calm_coverage |};
     rd_JudgmentApplicability := {| ja_Applicable := true; ja_Reason := JudgmentApplicable |};
     rd_ExpectedBehavior := None |}.

Definition ex_calm_read (_ : nat) (_ : situation_row) : option Reading := Some ex_calm_reading.

Lemma ex_calm_start : cycle_start 1 ex_alone ex_calm_read ex_config ex_claim (31 * Second)%Z (32 * Second)%Z ex_s1.
Proof.
  split; [reflexivity|by vm_compute|reflexivity|by vm_compute| |by vm_compute|].
  - intros n s. split; [apply rtc_refl|reflexivity].
  - intros n r rd [= <-]. split; [reflexivity|]. constructor.
Qed.

Definition ex_calm_run : result controller_error unit * world :=
  run_cycle 1 ex_alone ex_calm_read ex_down ex_sha ex_sha' (λ _, Some ["impact"]) id ex_config (λ _, 0%Z) ex_uuid
    ex_claim (31 * Second)%Z (32 * Second)%Z ex_s1.

(** What the run commits. *)
Definition ex_calm_plan : option commit_plan :=
  match last (w_log ex_calm_run.2) with Some (EvCommit p) => Some p | _ => None end.

Lemma reconcile_authority_witness :
  ∃ p a, ex_calm_plan = Some p ∧ pc_JudgmentApplicable p = true ∧ pc_Assessment p = Some a ∧
         A_Attention a ≠ AttentionUrgent.
Proof.
  destruct ex_calm_plan as [p|] eqn:Ep; [|vm_compute in Ep; discriminate].
  assert (Hp : EvCommit p ∈ w_log ex_calm_run.2).
  { apply last_Some_elem_of. unfold ex_calm_plan in Ep. destruct (last _) as [[]|]; congruence. }
  assert (Hj : pc_JudgmentApplicable p = true).
  { assert (H : pc_JudgmentApplicable <$> ex_calm_plan = Some true) by (vm_compute; reflexivity).
    rewrite Ep in H. simpl in H. congruence. }
  destruct (reconcile_authority 1 ex_alone ex_calm_read ex_down ex_sha ex_sha' (λ _, Some ["impact"]) id
    ex_config (λ _, 0%Z) ex_uuid ex_claim (31 * Second)%Z (32 * Second)%Z ex_s1 p ex_calm_start Hp)
    as (rd & a & _ & Ha & Hq & _).
  destruct (Hq Hj) as (j & _ & _ & _ & Hu & _). exists p, a. by split_and!.
Defined.
