(* ===== verification/AuditLog.v ===== *)
(** * The audit log (internal/audit/audit.go, internal/audit/retention.go)

    The hash chain: appending, verifying, and the pruning of its oldest entries
    under an anchor.  The hex SHA-256 of a text, the canonical JSON of a
    payload, the members [json_extract] finds in it, and the text of an instant
    and its parser are arguments.  A failing database ends a call; usage
    statistics are left out. *)

From Stdlib Require Import Ascii.
From stdpp Require Import prelude strings list sorting relations.
From S2P Require Import Prelude.

(** ** Data *)

Record audit_row : Type := {
  seq : Z;
  ts : string;
  actor : string;
  kind : string;
  payload_json : string;
  prev_hash : option string;
  hash : string
}.

(** The rows in the order of [seq], and the next value of the sequence. *)
Record audit_log : Type := { rows : list audit_row; next_seq : Z }.

Definition empty_log : audit_log := {| rows := []; next_seq := 1 |}.

Inductive audit_error : Set :=
| ActorRequired
| KindRequired
| PayloadUnencodable
| EntryTime.                               (* [time.Parse] of a stored [ts] *)

Inductive verify_reason : Set :=
| NoReason
| NoAnchor
| PrevHashMismatch
| HashMismatch.

Record VerifyReport : Type := {
  RowsChecked : Z;
  VR_OK : bool;
  FailedSeq : Z;
  Reason : verify_reason;
  FirstSeq : Z;
  PrunedThroughSeq : Z;
  AnchorSeq : Z
}.

Record prunedAnchor : Type := {
  ThroughSeq : Z;
  ThroughHash : string;
  ThroughTS : string;
  Pruned : Z;
  Cutoff : string
}.

Definition KindAuditPruned : string := "storage.audit_pruned".
Definition auditPruneActor : string := "store.retention".
Definition auditPruneStep : nat := 2000.

(** The unit separator between the fields of the hash. *)
Definition fieldSep : Ascii.ascii := Ascii.ascii_of_nat 31.
Definition sep : string := String fieldSep EmptyString.

Section audit.
Context (sha256 : string → string) (format_time : Time → string) (parse_time : string → option Time)
        (anchor_json : prunedAnchor → string) (json_through : string → option (Z * string)).

Definition hash_input (ts actor kind canonical prevHash : string) : string :=
  ts +:+ sep +:+ actor +:+ sep +:+ kind +:+ sep +:+ canonical +:+ sep +:+ prevHash.

Definition computeHash (ts actor kind canonical prevHash : string) : string :=
  sha256 (hash_input ts actor kind canonical prevHash).

Definition validateAppendArgs (actor kind : string) : result audit_error unit :=
  guard! negb (str_eqb (TrimSpace actor) "") else ActorRequired in
  guard! negb (str_eqb (TrimSpace kind) "") else KindRequired in Ok tt.

Definition row_at (n : Z) (ts actor kind canonical : string) (prev : option string) : audit_row :=
  {| seq := n; ts := ts; actor := actor; kind := kind; payload_json := canonical; prev_hash := prev;
     hash := computeHash ts actor kind canonical (default "" prev) |}.

Definition insert_row (l : audit_log) (r : audit_row) : audit_log :=
  {| rows := rows l ++ [r]; next_seq := (next_seq l + 1)%Z |}.

(** [canonical] is the canonical JSON of the payload, when it has one. *)
Definition AppendTx (l : audit_log) (actor kind : string) (canonical : option string) (at_ : Time)
    : result audit_error audit_log :=
  let? _ := validateAppendArgs actor kind in
  match canonical with
  | None => Err PayloadUnencodable
  | Some c => Ok (insert_row l (row_at (next_seq l) (format_time at_) actor kind c (hash <$> last (rows l))))
  end.

(** The one transaction of [Append]: an error leaves the log alone. *)
Definition Append (l : audit_log) (actor kind : string) (canonical : option string) (at_ : Time) : audit_log :=
  match AppendTx l actor kind canonical at_ with Ok l' => l' | Err _ => l end.

(** ** Verification *)

Definition anchors_for (firstSeq : Z) (prev : string) (r : audit_row) : bool :=
  str_eqb (kind r) KindAuditPruned
  && match json_through (payload_json r) with
     | Some (through, h) => str_eqb h prev && (through <? firstSeq)%Z
     | None => false
     end.

(** The last such anchor, and what it went through. *)
Definition pruneAnchorFor (rs : list audit_row) (firstSeq : Z) (prev : string) : option (Z * Z) :=
  match last (filter (λ r, anchors_for firstSeq prev r = true) rs) with
  | Some r => (λ '(through, _), (seq r, through)) <$> json_through (payload_json r)
  | None => None
  end.

Definition failed (rep : VerifyReport) (n : Z) (reason : verify_reason) : VerifyReport :=
  {| RowsChecked := RowsChecked rep; VR_OK := false; FailedSeq := n; Reason := reason;
     FirstSeq := FirstSeq rep; PrunedThroughSeq := PrunedThroughSeq rep; AnchorSeq := AnchorSeq rep |}.

Definition checked (rep : VerifyReport) : VerifyReport :=
  {| RowsChecked := (RowsChecked rep + 1)%Z; VR_OK := VR_OK rep; FailedSeq := FailedSeq rep;
     Reason := Reason rep; FirstSeq := FirstSeq rep; PrunedThroughSeq := PrunedThroughSeq rep;
     AnchorSeq := AnchorSeq rep |}.

Fixpoint verify_rows (lastHash : string) (rep : VerifyReport) (rs : list audit_row) : VerifyReport :=
  match rs with
  | [] => rep
  | r :: rs =>
      let actualPrev := default "" (prev_hash r) in
      if negb (str_eqb actualPrev lastHash) then failed rep (seq r) PrevHashMismatch
      else if negb (str_eqb (computeHash (ts r) (actor r) (kind r) (payload_json r) actualPrev) (hash r))
      then failed rep (seq r) HashMismatch
      else verify_rows (hash r) (checked rep) rs
  end.

Definition report (first through anchor : Z) : VerifyReport :=
  {| RowsChecked := 0; VR_OK := true; FailedSeq := 0; Reason := NoReason; FirstSeq := first;
     PrunedThroughSeq := through; AnchorSeq := anchor |}.

Definition Verify (l : audit_log) : VerifyReport :=
  match rows l with
  | [] => report 0 0 0
  | r :: _ =>
      match prev_hash r with
      | None => verify_rows "" (report (seq r) 0 0) (rows l)
      | Some h =>
          match pruneAnchorFor (rows l) (seq r) h with
          | Some (anchor, through) => verify_rows h (report (seq r) through anchor) (rows l)
          | None => failed (report (seq r) 0 0) (seq r) NoAnchor
          end
      end
  end.

(** ** Retention *)

Definition anchor_zero : prunedAnchor :=
  {| ThroughSeq := 0; ThroughHash := ""; ThroughTS := ""; Pruned := 0; Cutoff := "" |}.

(** The loop over the oldest entries, up to the first that is not before the
    cutoff. *)
Fixpoint prunable (cutoff : Time) (through : prunedAnchor) (rs : list audit_row)
    : result audit_error prunedAnchor :=
  match rs with
  | [] => Ok through
  | r :: rs =>
      match parse_time (ts r) with
      | None => Err EntryTime
      | Some at_ =>
          if negb (Before at_ cutoff) then Ok through
          else prunable cutoff
                 {| ThroughSeq := seq r; ThroughHash := hash r; ThroughTS := ts r;
                    Pruned := (Pruned through + 1)%Z; Cutoff := Cutoff through |} rs
      end
  end.

Definition readPrunablePrefix (l : audit_log) (cutoff : Time) (lastSeq : Z) : result audit_error prunedAnchor :=
  prunable cutoff anchor_zero (take auditPruneStep (filter (λ r, seq r ≤ lastSeq)%Z (rows l))).

Definition with_cutoff (a : prunedAnchor) (cutoff : string) : prunedAnchor :=
  {| ThroughSeq := ThroughSeq a; ThroughHash := ThroughHash a; ThroughTS := ThroughTS a;
     Pruned := Pruned a; Cutoff := cutoff |}.

(** One step, one transaction: the anchor first, then the entries it covers. *)
Definition pruneStep (l : audit_log) (cutoff : Time) (lastSeq : Z) (now : Time)
    : result audit_error (Z * audit_log) :=
  let? through := readPrunablePrefix l cutoff lastSeq in
  if (Pruned through =? 0)%Z then Ok (0%Z, l)
  else
    let through := with_cutoff through (format_time cutoff) in
    let? l' := AppendTx l auditPruneActor KindAuditPruned (Some (anchor_json through)) now in
    Ok (Pruned through,
        {| rows := filter (λ r, ThroughSeq through < seq r)%Z (rows l'); next_seq := next_seq l' |}).

Inductive prune_outcome : Set :=
| PruneDone
| PruneCancelled
| PruneFailed (e : audit_error).

(** [env k] is what other transactions append after step [k], [now k] the clock
    of step [k], and [cancelled k] whether the context has ended by then; [None]
    is out of fuel. *)
Fixpoint prune_loop (fuel : nat) (env : nat → audit_log → audit_log) (now : nat → Time)
    (cancelled : nat → bool) (cutoff : Time) (lastSeq : Z) (k : nat) (total : Z) (l : audit_log)
    : option (prune_outcome * Z * audit_log) :=
  match fuel with
  | O => None
  | S fuel =>
      match pruneStep l cutoff lastSeq (now k) with
      | Err e => Some (PruneFailed e, total, l)
      | Ok (n, l') =>
          if (n =? 0)%Z then Some (PruneDone, total, l')
          else if cancelled k then Some (PruneCancelled, (total + n)%Z, l')
          else prune_loop fuel env now cancelled cutoff lastSeq (S k) (total + n)%Z (env k l')
      end
  end.

(** The entries there when it starts bound its steps. *)
Definition PruneBefore (env : nat → audit_log → audit_log) (now : nat → Time) (cancelled : nat → bool)
    (cutoff : Time) (l : audit_log) : option (prune_outcome * Z * audit_log) :=
  match last (rows l) with
  | None => Some (PruneDone, 0%Z, l)
  | Some r => prune_loop (S (length (rows l))) env now cancelled cutoff (seq r) 0 0 l
  end.

Definition OldestEntry (l : audit_log) : result audit_error (option Time) :=
  match rows l with
  | [] => Ok None
  | r :: _ => match parse_time (ts r) with Some t => Ok (Some t) | None => Err EntryTime end
  end.
End audit.

(** ** The chain *)

Section chain.
Context (sha256 : string → string) (format_time : Time → string) (parse_time : string → option Time)
        (anchor_json : prunedAnchor → string) (json_through : string → option (Z * string)).

#[local] Abbreviation hash_of := (computeHash sha256).
#[local] Abbreviation append := (Append sha256 format_time).
#[local] Abbreviation prune_step := (pruneStep sha256 format_time parse_time anchor_json).
#[local] Abbreviation verify := (Verify sha256 json_through).

(** What the JSON of an anchor gives back. *)
Definition anchors_readable : Prop :=
  ∀ a, json_through (anchor_json a) = Some (ThroughSeq a, ThroughHash a).

Definition sealed (r : audit_row) : Prop :=
  hash_of (ts r) (actor r) (kind r) (payload_json r) (default "" (prev_hash r)) = hash r.

(** The rows follow on from a hash. *)
Fixpoint linked (h : string) (rs : list audit_row) : Prop :=
  match rs with
  | [] => True
  | r :: rs => default "" (prev_hash r) = h ∧ sealed r ∧ linked (hash r) rs
  end.

Definition tip (h : string) (rs : list audit_row) : string := default h (hash <$> last rs).

Definition advanced (rep : VerifyReport) (n : Z) : VerifyReport :=
  {| RowsChecked := (RowsChecked rep + n)%Z; VR_OK := VR_OK rep; FailedSeq := FailedSeq rep;
     Reason := Reason rep; FirstSeq := FirstSeq rep; PrunedThroughSeq := PrunedThroughSeq rep;
     AnchorSeq := AnchorSeq rep |}.

Lemma tip_cons h r rs : tip h (r :: rs) = tip (hash r) rs.
Proof. unfold tip. rewrite last_cons. by destruct (last rs). Qed.

Lemma linked_app h rs rs' : linked h (rs ++ rs') ↔ linked h rs ∧ linked (tip h rs) rs'.
Proof using sha256.
  clear format_time parse_time anchor_json json_through.
  revert h. induction rs as [|r rs IH]; intros h; simpl; [by split; [|intros []]|].
  rewrite IH, tip_cons. tauto.
Qed.

(** A linked run of rows is passed over, whatever follows it. *)
Lemma verify_app h rep rs rs' :
  linked h rs →
  verify_rows sha256 h rep (rs ++ rs') = verify_rows sha256 (tip h rs) (advanced rep (Z.of_nat (length rs))) rs'.
Proof.
  revert h rep. induction rs as [|r rs IH]; intros h rep; cbn [verify_rows app length linked]; cbv zeta.
  - intros _. destruct rep. unfold advanced, tip. simpl. by rewrite Z.add_0_r.
  - intros (Hp & Hs & Hl). unfold sealed in Hs. rewrite Hp in Hs |- *. rewrite Hs, !str_eqb_refl. cbn [negb]. rewrite IH by done. rewrite tip_cons. f_equal. unfold advanced, checked. simpl. f_equal. lia.
Qed.

Lemma verify_linked h rep rs : linked h rs → verify_rows sha256 h rep rs = advanced rep (Z.of_nat (length rs)).
Proof. intros Hl. pose proof (verify_app h rep rs [] Hl) as H. by rewrite app_nil_r in H. Qed.

(** Some anchor of the rows accounts for the hash the first one follows. *)
Definition anchored (rs : list audit_row) (first : audit_row) : Prop :=
  match prev_hash first with
  | None => True
  | Some h => ∃ r through, r ∈ rs ∧ kind r = KindAuditPruned ∧
                json_through (payload_json r) = Some (through, h) ∧ (through < seq first)%Z
  end.

Record log_ok (l : audit_log) : Prop := {
  lo_sorted : StronglySorted (λ a b, seq a < seq b)%Z (rows l);
  lo_next : Forall (λ r, seq r < next_seq l)%Z (rows l);
  lo_linked : linked (default "" (head (rows l) ≫= prev_hash)) (rows l);
  lo_anchored : ∀ r, head (rows l) = Some r → anchored (rows l) r
}.

Lemma anchor_found rs first h :
  prev_hash first = Some h → anchored rs first →
  ∃ anchor through, pruneAnchorFor json_through rs (seq first) h = Some (anchor, through) ∧
                    (through < seq first)%Z.
Proof.
  unfold anchored, pruneAnchorFor. intros -> (r & t & Hr & Hk & Hj & Ht).
  set (P := λ r, anchors_for json_through (seq first) h r = true).
  assert (Hin : r ∈ filter P rs).
  { apply list_elem_of_filter. split; [|done]. unfold P, anchors_for. rewrite Hk, Hj, str_eqb_refl. simpl.
    rewrite str_eqb_refl. simpl. lia. }
  destruct (last (filter P rs)) as [r'|] eqn:El; [|apply last_None in El; rewrite El in Hin; by apply elem_of_nil in Hin].
  apply last_Some_elem_of, list_elem_of_filter in El as [Ha _]. unfold P, anchors_for in Ha.
  apply andb_prop in Ha as [_ Ha]. destruct (json_through (payload_json r')) as [[t' h']|]; [|done].
  apply andb_prop in Ha as [_ Ha]. exists (seq r'), t'. split; [done|lia].
Qed.

(** The report of a chain that holds. *)
Definition clean (rep : VerifyReport) (l : audit_log) : Prop :=
  VR_OK rep = true ∧ RowsChecked rep = Z.of_nat (length (rows l)) ∧ Reason rep = NoReason ∧ FailedSeq rep = 0%Z.

Lemma verify_ok l : log_ok l → clean (verify l) l.
Proof.
  intros [_ _ Hl Ha]. unfold Verify, clean. destruct (rows l) as [|r rs] eqn:E; [done|].
  specialize (Ha r eq_refl). cbn [head mbind option_bind] in Hl.
  destruct (prev_hash r) as [h|] eqn:Ep.
  - destruct (anchor_found _ _ _ Ep Ha) as (anchor & through & -> & _). rewrite verify_linked by exact Hl. done.
  - rewrite verify_linked by exact Hl. done.
Qed.

(** *** Appending *)

Lemma insert_ok l n ts actor kind canonical :
  log_ok l → n = next_seq l →
  log_ok (insert_row l (row_at sha256 n ts actor kind canonical (hash <$> last (rows l)))).
Proof.
  intros [Hs Hn Hl Ha] ->. set (r := row_at _ _ _ _ _ _ _).
  assert (Hr : sealed r) by done. split; cbn [insert_row rows next_seq].
  - apply StronglySorted_app_2; [|done|by repeat constructor].
    intros x y Hx ->%list_elem_of_singleton. rewrite Forall_forall in Hn. by apply Hn.
  - rewrite Forall_app. split; [eapply Forall_impl; [done|]; simpl; lia|]. constructor; [simpl; lia|done].
  - rewrite linked_app. destruct (rows l) as [|r0 rs] eqn:E; [done|]. split; [done|]. simpl. split; [|done].
    unfold tip. by destruct (last (r0 :: rs)) eqn:El; [|apply last_None in El].
  - intros r1 H1. unfold anchored. destruct (rows l) as [|r0 rs] eqn:E; simpl in H1; injection H1 as <-; [done|].
    specialize (Ha r0 eq_refl). unfold anchored in Ha. destruct (prev_hash r0); [|done].
    destruct Ha as (a & t & Hin & Hrest). exists a, t. split; [|done]. apply elem_of_app. by left.
Qed.

Lemma append_ok l actor kind canonical at_ : log_ok l → log_ok (append l actor kind canonical at_).
Proof.
  intros Hl. unfold Append, AppendTx. destruct (validateAppendArgs actor kind) as [[]|]; [|done]. simpl.
  destruct canonical as [c|]; [|done]. by apply insert_ok.
Qed.

Lemma empty_ok : log_ok empty_log.
Proof. by split; try constructor. Qed.
(** *** Pruning *)

Definition old (cutoff : Time) (r : audit_row) : Prop :=
  match parse_time (ts r) with Some t => (t < cutoff)%Z | None => False end.

Lemma prunable_spec cutoff thr rs a :
  prunable parse_time cutoff thr rs = Ok a →
  ∃ pre post, rs = pre ++ post ∧ Forall (old cutoff) pre ∧
    Pruned a = (Pruned thr + Z.of_nat (length pre))%Z ∧ (pre = [] → a = thr) ∧
    (∀ r, last pre = Some r → ThroughSeq a = seq r ∧ ThroughHash a = hash r) ∧
    (∀ r, head post = Some r → ¬ old cutoff r).
Proof.
  revert thr. induction rs as [|r rs IH]; intros thr; cbn [prunable].
  - intros [= <-]. exists [], []. split_and!; try done. simpl. lia.
  - destruct (parse_time (ts r)) as [t|] eqn:Et; [|done].
    destruct (negb (Before t cutoff)) eqn:Eb.
    + intros [= <-]. exists [], (r :: rs). split_and!; [done|done|simpl; lia|done|done|].
      intros r0 [= <-]. unfold old. rewrite Et. go_bool. lia.
    + intros (pre & post & -> & Hold & Hn & He & Hlast & Hhead)%IH. exists (r :: pre), post. simpl in Hn.
      assert (Hr : old cutoff r) by (unfold old; rewrite Et; go_bool; lia).
      split_and!; [done|by constructor|simpl; lia|done| |done].
      intros r0 H0. rewrite last_cons in H0. destruct (last pre) as [r1|] eqn:E1; simplify_eq; [by apply Hlast|].
      apply last_None in E1. by rewrite (He E1).
Qed.

#[local] Abbreviation seq_sorted := (StronglySorted (λ a b, seq a < seq b)%Z).

(** The rows up to a sequence number are the oldest ones. *)
Lemma upto_prefix n rs :
  seq_sorted rs → ∃ post, rs = filter (λ r, seq r ≤ n)%Z rs ++ post ∧ Forall (λ r, n < seq r)%Z post.
Proof.
  induction 1 as [|r rs Hs (post & Heq & Hpost) Hr]; [by exists []|].
  destruct (decide (seq r ≤ n)%Z) as [Hle|Hgt].
  - rewrite filter_cons_True by done. exists post. simpl. by rewrite <- Heq.
  - rewrite filter_cons_False, filter_none; [|intros r' Hr'|done].
    + exists (r :: rs). split; [done|]. constructor; [lia|]. eapply Forall_impl; [done|]. simpl. lia.
    + rewrite Forall_forall in Hr. specialize (Hr r' Hr'). lia.
Qed.

(** Cutting off the front of a sorted run of rows. *)
Lemma after_prefix pre r post :
  seq_sorted (pre ++ [r] ++ post) → filter (λ r', seq r < seq r')%Z (pre ++ [r] ++ post) = post.
Proof.
  intros Hs. rewrite !filter_app. apply StronglySorted_app in Hs as (Hpre & _ & Hs).
  rewrite filter_none, filter_none, filter_all; [done| | |].
  - intros r' Hr'. apply StronglySorted_app in Hs as (Hr & _). apply Hr; [by left|done].
  - intros r' ->%list_elem_of_singleton. lia.
  - intros r' Hr'. assert (seq r' < seq r)%Z; [apply Hpre; [done|by left]|lia].
Qed.
(** What the prunable prefix of a sorted log is. *)
Lemma readPrunablePrefix_spec l cutoff lastSeq a :
  seq_sorted (rows l) → readPrunablePrefix parse_time l cutoff lastSeq = Ok a →
  ∃ pre post, rows l = pre ++ post ∧ Forall (old cutoff) pre ∧ Forall (λ r, seq r ≤ lastSeq)%Z pre ∧
    Pruned a = Z.of_nat (length pre) ∧
    (∀ r, last pre = Some r → ThroughSeq a = seq r ∧ ThroughHash a = hash r) ∧
    (pre = [] → ∀ r, head post = Some r → (seq r ≤ lastSeq)%Z → ¬ old cutoff r).
Proof.
  unfold readPrunablePrefix. intros Hs Ha.
  destruct (upto_prefix lastSeq _ Hs) as (rest & Heq & Hrest).
  set (old_rows := filter _ (rows l)) in *.
  apply prunable_spec in Ha as (pre & post & Htake & Hold & Hn & _ & Hlast & Hhead).
  exists pre, (post ++ drop auditPruneStep old_rows ++ rest).
  assert (Hrows : rows l = pre ++ post ++ drop auditPruneStep old_rows ++ rest).
  { rewrite Heq at 1. rewrite <- (take_drop auditPruneStep old_rows) at 1. by rewrite Htake, <- !app_assoc. }
  assert (Hle : Forall (λ r, seq r ≤ lastSeq)%Z old_rows).
  { apply Forall_forall. intros r Hr. by apply list_elem_of_filter in Hr as [? _]. }
  split_and!; [done|done| |done|done|].
  - eapply Forall_take in Hle. erewrite Htake in Hle. by apply Forall_app in Hle as [? _].
  - intros -> r Hr Hseq. destruct post as [|r' post]; [|by apply Hhead].
    assert (He : old_rows = []).
    { destruct old_rows; [done|]. by vm_compute in Htake. }
    rewrite He in Hr. simpl in Hr. destruct rest as [|r' rest]; [done|]. injection Hr as <-.
    apply Forall_cons in Hrest as [? _]. lia.
Qed.

Lemma log_ok_seqs l r : log_ok l → r ∈ rows l → (seq r < next_seq l)%Z.
Proof. intros [_ Hn _ _] Hr. rewrite Forall_forall in Hn. by apply Hn. Qed.

(** A step that removes nothing changes nothing; another keeps the log's rows
    after the ones it removes, and anchors the last of those. *)
Lemma pruneStep_spec l cutoff lastSeq now n l' :
  log_ok l → prune_step l cutoff lastSeq now = Ok (n, l') →
  (n = 0%Z ∧ l' = l ∧ ∀ r, head (rows l) = Some r → (seq r ≤ lastSeq)%Z → ¬ old cutoff r) ∨
  (∃ pre r post a anchor, rows l = pre ++ [r] ++ post ∧ rows l' = post ++ [anchor] ∧ next_seq l' = (next_seq l + 1)%Z ∧
     n = Z.of_nat (length (pre ++ [r])) ∧ Forall (old cutoff) (pre ++ [r]) ∧
     Forall (λ r, seq r ≤ lastSeq)%Z (pre ++ [r]) ∧ ThroughSeq a = seq r ∧ ThroughHash a = hash r ∧
     anchor = row_at sha256 (next_seq l) (format_time now) auditPruneActor KindAuditPruned (anchor_json a)
                (hash <$> last (rows l))).
Proof.
  intros Hl. unfold pruneStep.
  destruct (readPrunablePrefix parse_time l cutoff lastSeq) as [a|] eqn:Ea; [|done]. cbn [res_bind].
  apply readPrunablePrefix_spec in Ea as (pre & post & Hrows & Hold & Hle & Hn & Hlast & Hhead); [|apply Hl].
  destruct pre as [|r pre _] using rev_ind.
  - rewrite Hn. simpl. intros [= <- <-]. left. split_and!; [done|done|]. rewrite Hrows. by apply Hhead.
  - rewrite (proj2 (Z.eqb_neq _ _)) by (rewrite Hn, length_app; simpl; lia).
    destruct (Hlast r) as [Hseq Hhash]; [by rewrite last_snoc|].
    set (b := with_cutoff a _). replace (ThroughSeq b) with (seq r) by done.
    replace (Pruned b) with (Pruned a) by done.
    unfold AppendTx. replace (validateAppendArgs auditPruneActor KindAuditPruned) with (@Ok audit_error unit tt) by (by vm_compute).
    cbn [res_bind rows insert_row next_seq].
    intros [= <- <-]. right. set (anchor := row_at _ _ _ _ _ _ _). exists pre, r, post, b, anchor.
    rewrite <- app_assoc in Hrows. split_and!; try done.
    assert (Hs : seq_sorted (rows l ++ [anchor])) by exact (lo_sorted _ (insert_ok l _ _ _ _ _ Hl eq_refl)).
    cbn [rows]. assert (Heq : rows l ++ [anchor] = pre ++ [r] ++ (post ++ [anchor])) by (by rewrite Hrows, <- !app_assoc).
    rewrite Heq in Hs |- *. by apply after_prefix.
Qed.

Lemma pruneStep_ok l cutoff lastSeq now n l' :
  anchors_readable → log_ok l → prune_step l cutoff lastSeq now = Ok (n, l') → log_ok l'.
Proof.
  intros Hj Hl Hp. destruct (pruneStep_spec _ _ _ _ _ _ Hl Hp)
    as [(_ & -> & _)|(pre & r & post & a & anchor & Hrows & Hrows' & Hnext & _ & _ & _ & Hseq & Hhash & Hanchor)]; [done|].
  assert (Hi : log_ok (insert_row l anchor)) by (subst anchor; by apply insert_ok).
  destruct Hi as [Hs Hn Hk _]. cbn [insert_row rows next_seq] in Hs, Hn, Hk.
  rewrite Hrows, <- !app_assoc in Hs, Hn, Hk.
  assert (Hlast : linked (hash r) (post ++ [anchor])).
  { rewrite app_assoc, linked_app in Hk. destruct Hk as [_ Hk]. unfold tip in Hk. by rewrite last_snoc in Hk. }
  assert (Hfirst : ∀ r0, head (post ++ [anchor]) = Some r0 → default "" (prev_hash r0) = hash r).
  { intros r0 E0. destruct (post ++ [anchor]) as [|r1 rs]; [done|]. injection E0 as ->. by destruct Hlast. }
  split; rewrite Hrows'.
  - apply StronglySorted_app in Hs as (_ & _ & Hs). by apply StronglySorted_app in Hs as (_ & _ & Hs).
  - rewrite Hnext. apply Forall_app in Hn as [_ Hn]. by apply Forall_app in Hn as [_ Hn].
  - destruct (head (post ++ [anchor])) as [r0|] eqn:E0; [|by destruct post]. cbn. by rewrite (Hfirst r0).
  - intros r0 E0. specialize (Hfirst r0 E0). unfold anchored. destruct (prev_hash r0) as [h|]; [|done].
    cbn in Hfirst. subst h.
    exists anchor, (seq r). subst anchor. cbn [row_at kind payload_json]. split_and!; [set_solver|done|by rewrite Hj, Hseq, Hhash|].
    apply StronglySorted_app in Hs as (_ & _ & (Hs & _)%StronglySorted_app). apply Hs; [by left|].
    destruct (post ++ _); [done|]. injection E0 as ->. by left.
Qed.
(** *** The log over its life *)

(** What the program does to the log. *)
Inductive log_step (l : audit_log) : audit_log → Prop :=
| StepAppend actor kind canonical at_ : log_step l (append l actor kind canonical at_)
| StepPrune cutoff lastSeq now n l' : prune_step l cutoff lastSeq now = Ok (n, l') → log_step l l'.

Lemma reachable_ok l : anchors_readable → rtc log_step empty_log l → log_ok l.
Proof.
  intros Hj. apply rtc_ind_r; [apply empty_ok|].
  intros l1 l2 _ [actor kind canonical at_|cutoff lastSeq now n l' Hp] IH; [by apply append_ok|by eapply pruneStep_ok].
Qed.

(** Whatever is appended and pruned, in whatever order, the log verifies:
    every row is checked, and a log whose oldest entries are gone has its
    anchor. *)
Theorem reachable_verifies l :
  anchors_readable → rtc log_step empty_log l →
  clean (verify l) l ∧
  (∀ r h, head (rows l) = Some r → prev_hash r = Some h →
     (0 < RowsChecked (verify l))%Z ∧ (PrunedThroughSeq (verify l) < FirstSeq (verify l))%Z ∧
     FirstSeq (verify l) = seq r).
Proof.
  intros Hj Hr. pose proof (reachable_ok l Hj Hr) as Hl. split; [by apply verify_ok|].
  intros r h Hh Hp. destruct (verify_ok l Hl) as (_ & Hc & _). rewrite Hc. clear Hc.
  unfold Verify. destruct (rows l) as [|r0 rs] eqn:E; [done|]. injection Hh as ->.
  destruct Hl as [_ _ Hl Ha]. rewrite E in Hl, Ha. specialize (Ha r eq_refl). cbn [head mbind option_bind] in Hl.
  rewrite Hp in Hl |- *. destruct (anchor_found _ _ _ Hp Ha) as (anchor & through & -> & Ht).
  rewrite verify_linked by exact Hl. simpl. split_and!; [lia|done|done].
Qed.
(** *** A whole pass of retention *)

Inductive append_step (l : audit_log) : audit_log → Prop :=
| AppendStep actor kind canonical at_ : append_step l (append l actor kind canonical at_).

Lemma appends_extend l l' :
  log_ok l → rtc append_step l l' →
  log_ok l' ∧ ∃ added, rows l' = rows l ++ added ∧ Forall (λ r, next_seq l ≤ seq r)%Z added ∧
    (next_seq l ≤ next_seq l')%Z.
Proof.
  intros Hl Hr. revert Hl. induction Hr as [l|l l1 l' [actor kind canonical at_] _ IH]; intros Hl.
  { split; [done|]. exists []. rewrite app_nil_r. by repeat constructor. }
  destruct (IH (append_ok _ _ _ _ _ Hl)) as (Hl' & added & Hrows & Hadded & Hnext). split; [done|]. clear IH.
  unfold Append, AppendTx in Hrows, Hadded, Hnext.
  destruct (validateAppendArgs actor kind) as [[]|]; [|by exists added]. cbn [res_bind] in Hrows, Hadded, Hnext.
  destruct canonical as [c|]; [|by exists added]. cbn [insert_row rows next_seq] in Hrows, Hadded, Hnext.
  exists (row_at sha256 (next_seq l) (format_time at_) actor kind c (hash <$> last (rows l)) :: added).
  split_and!; [by rewrite Hrows, <- app_assoc| |lia].
  constructor; [simpl; lia|]. eapply Forall_impl; [done|]. simpl. lia.
Qed.

Lemma split_below n post extra removed kept :
  post ++ extra = removed ++ kept → Forall (λ r, seq r ≤ n)%Z removed → Forall (λ r, n < seq r)%Z extra →
  ∃ rest, post = removed ++ rest ∧ kept = rest ++ extra.
Proof.
  intros Heq Hr He. apply app_eq_inv in Heq as [(k & -> & ->)|(k & -> & ->)]; [by exists k|].
  destruct k as [|r k]; [by exists []; rewrite !app_nil_r|].
  apply Forall_app in Hr as [_ [Hr _]%Forall_cons]. apply Forall_app in He as [[He _]%Forall_cons _]. lia.
Qed.

(** What a pass leaves: the rows it removed from the front, all of them old and
    there when it started, and the rows that were added meanwhile. *)
Record pruned (cutoff : Time) (lastSeq : Z) (l : audit_log) (out : prune_outcome) (n : Z) (l' : audit_log)
    (removed kept added : list audit_row) : Prop := {
  pr_before : rows l = removed ++ kept;
  pr_after : rows l' = kept ++ added;
  pr_count : n = Z.of_nat (length removed);
  pr_old : Forall (old cutoff) removed;
  pr_there : Forall (λ r, seq r ≤ lastSeq)%Z removed;
  pr_added : Forall (λ r, next_seq l ≤ seq r)%Z added;
  pr_done : out = PruneDone → ∀ r, head kept = Some r → (seq r ≤ lastSeq)%Z → ¬ old cutoff r
}.

Definition there (lastSeq : Z) (l : audit_log) : nat := length (filter (λ r, seq r ≤ lastSeq)%Z (rows l)).

Lemma there_app lastSeq n l rs rs' extra :
  rows l = (rs ++ rs') ++ extra → Forall (λ r, seq r ≤ lastSeq)%Z rs → Forall (λ r, n ≤ seq r)%Z extra → (lastSeq < n)%Z →
  there lastSeq l = length rs + length (filter (λ r, seq r ≤ lastSeq)%Z rs').
Proof.
  intros Hl Hrs Hextra Hn. unfold there. rewrite Hl, !filter_app, !length_app.
  rewrite (filter_all _ rs), (filter_none _ extra); [simpl; lia| |].
  - intros r Hr. rewrite Forall_forall in Hextra. specialize (Hextra r Hr). lia.
  - intros r Hr. rewrite Forall_forall in Hrs. by apply Hrs.
Qed.

Lemma prune_loop_spec env now cancelled cutoff lastSeq :
  anchors_readable → (∀ k l, rtc append_step l (env k l)) →
  ∀ fuel k total l, log_ok l → (lastSeq < next_seq l)%Z → (there lastSeq l < fuel)%nat →
  ∃ out n l' removed kept added,
    prune_loop sha256 format_time parse_time anchor_json fuel env now cancelled cutoff lastSeq k total l =
      Some (out, (total + n)%Z, l') ∧
    log_ok l' ∧ pruned cutoff lastSeq l out n l' removed kept added.
Proof.
  intros Hj Henv fuel. induction fuel as [|fuel IH]; intros k total l Hl Hlast Hfuel; [lia|]. cbn [prune_loop].
  destruct (prune_step l cutoff lastSeq (now k)) as [[n l1]|e] eqn:Ep; cycle 1.
  { exists (PruneFailed e), 0%Z, l, [], (rows l), []. rewrite Z.add_0_r. split_and!; [done|done|]. by split; rewrite ?app_nil_r. }
  pose proof (pruneStep_ok _ _ _ _ _ _ Hj Hl Ep) as Hl1.
  destruct (pruneStep_spec _ _ _ _ _ _ Hl Ep)
    as [(-> & -> & Hhead)|(pre & r & post & a & anchor & Hrows & Hrows1 & Hnext & Hn & Hold & Hle & _ & _ & Hanchor)].
  { exists PruneDone, 0%Z, l, [], (rows l), []. rewrite Z.add_0_r. split_and!; [done|done|]. by split; rewrite ?app_nil_r. }
  rewrite (proj2 (Z.eqb_neq _ _)) by (rewrite Hn, length_app; simpl; lia).
  assert (Hpre : rows l = (pre ++ [r]) ++ post) by (by rewrite Hrows, <- app_assoc).
  assert (Ha : seq anchor = next_seq l) by (by subst anchor).
  destruct (cancelled k).
  { exists PruneCancelled, n, l1, (pre ++ [r]), post, [anchor]. split_and!; [done|done|].
    split; try done. constructor; [lia|done]. }
  destruct (appends_extend _ _ Hl1 (Henv k l1)) as (Hl2 & more & Hrows2 & Hmore & Hnext2).
  rewrite Hrows1, <- app_assoc in Hrows2.
  assert (Hextra : Forall (λ r, next_seq l ≤ seq r)%Z ([anchor] ++ more)).
  { constructor; [lia|]. eapply Forall_impl; [exact Hmore|]. simpl. lia. }
  destruct (IH (S k) (total + n)%Z (env k l1) Hl2) as (out & n2 & l' & removed & kept & added & Heq & Hl' & Hp).
  { lia. }
  { rewrite (there_app lastSeq (next_seq l) _ [] post ([anchor] ++ more)) by done.
    rewrite (there_app lastSeq (next_seq l) _ (pre ++ [r]) post []) in Hfuel; [|by rewrite app_nil_r|done|done|done].
    rewrite length_app in Hfuel. simpl in *. lia. }
  destruct Hp as [Hb Haf Hc Ho Ht Had Hd]. rewrite Hrows2 in Hb.
  destruct (split_below lastSeq post ([anchor] ++ more) removed kept) as (rest & -> & ->); [done|done| |].
  { eapply Forall_impl; [exact Hextra|]. simpl. lia. }
  exists out, (n + n2)%Z, l', ((pre ++ [r]) ++ removed), rest, (([anchor] ++ more) ++ added).
  split_and!; [rewrite Heq; do 3 f_equal; lia|done|].
  split.
  - by rewrite Hpre, app_assoc.
  - by rewrite Haf, <- (app_assoc rest).
  - rewrite (length_app _ removed). lia.
  - by apply Forall_app.
  - by apply Forall_app.
  - apply Forall_app. split; [done|]. eapply Forall_impl; [exact Had|]. simpl. lia.
  - intros -> r0 Hr0. apply Hd; [done|]. by destruct rest.
Qed.

Lemma seq_le_last rs rl r : seq_sorted rs → last rs = Some rl → r ∈ rs → (seq r ≤ seq rl)%Z.
Proof.
  intros Hs (rs' & ->)%last_Some Hr. apply elem_of_app in Hr as [Hr|Hr%list_elem_of_singleton]; [|by subst].
  apply StronglySorted_app in Hs as (Hs & _). assert (seq r < seq rl)%Z; [apply Hs; [done|by left]|lia].
Qed.

(** A pass of retention returns, whatever the other transactions append
    while it runs: it removes, from the front of the log, only entries that were
    there when it started and are before the cutoff, counts them, keeps the rest
    and what was appended, and leaves a log that verifies.  When it is neither
    cancelled nor stopped by an unreadable time, the oldest entry it found and
    kept is not before the cutoff. *)
Theorem PruneBefore_spec env now cancelled cutoff l :
  anchors_readable → (∀ k l, rtc append_step l (env k l)) → rtc log_step empty_log l →
  ∃ out n l' removed kept added,
    PruneBefore sha256 format_time parse_time anchor_json env now cancelled cutoff l = Some (out, n, l') ∧
    rows l = removed ++ kept ∧ rows l' = kept ++ added ∧ n = Z.of_nat (length removed) ∧
    Forall (old cutoff) removed ∧ clean (verify l') l' ∧
    (out = PruneDone → ∀ r, head kept = Some r → ¬ old cutoff r).
Proof.
  intros Hj Henv Hl%reachable_ok; [|done]. unfold PruneBefore.
  destruct (last (rows l)) as [rl|] eqn:El.
  - pose proof (log_ok_seqs l rl Hl (last_Some_elem_of _ _ El)) as Hlast.
    destruct (prune_loop_spec env now cancelled cutoff (seq rl) Hj Henv (S (length (rows l))) 0 0 l Hl Hlast)
      as (out & n & l' & removed & kept & added & Heq & Hl' & [Hb Ha Hc Ho _ _ Hd]).
    { unfold there. pose proof (length_filter (λ r, seq r ≤ seq rl)%Z (rows l)). lia. }
    exists out, n, l', removed, kept, added. rewrite Heq. split_and!; try done; [by apply verify_ok|].
    intros -> r Hr. apply Hd; [done|done|]. apply (seq_le_last (rows l)); [apply Hl|done|]. rewrite Hb.
    destruct kept; [done|]. injection Hr as ->. set_solver.
  - apply last_None in El. exists PruneDone, 0%Z, l, [], [], []. rewrite El. split_and!; try done. by apply verify_ok.
Qed.
(** *** Tampering *)

(** The separators of a text. *)
Fixpoint seps (s : string) : nat :=
  match s with
  | EmptyString => 0
  | String c s => (if Ascii.eqb c fieldSep then 1 else 0) + seps s
  end.

Lemma str_app_cons c s t : String c s +:+ t = String c (s +:+ t).
Proof. done. Qed.

Lemma str_app_nil t : EmptyString +:+ t = t.
Proof. done. Qed.

Lemma seps_app s t : seps (s +:+ t) = seps s + seps t.
Proof. induction s as [|c s IH]; [done|]. rewrite str_app_cons. simpl. rewrite IH. lia. Qed.

(** Texts without the separator can be read back from around it. *)
Lemma split_at_sep s t s' t' :
  seps s = 0 → seps s' = 0 → s +:+ sep +:+ t = s' +:+ sep +:+ t' → s = s' ∧ t = t'.
Proof.
  revert s'. induction s as [|c s IH]; intros [|c' s'] Hs Hs'; unfold sep in *;
    rewrite ?str_app_cons, ?str_app_nil; intros [=]; subst; cbn [seps] in Hs, Hs'; [done|done|done|].
  destruct (IH s') as [-> ->]; [lia|lia|assumption|done].
Qed.

Definition hashed_fields (r : audit_row) : string * string * string * string * string :=
  (ts r, actor r, kind r, payload_json r, default "" (prev_hash r)).

Definition input_of (r : audit_row) : string :=
  hash_input (ts r) (actor r) (kind r) (payload_json r) (default "" (prev_hash r)).

(** The fields a row was written with do not hold the separator. *)
Definition separable (r : audit_row) : Prop :=
  seps (ts r) = 0 ∧ seps (actor r) = 0 ∧ seps (kind r) = 0 ∧ seps (payload_json r) = 0 ∧
  seps (default "" (prev_hash r)) = 0.

Lemma input_of_inj r r' : separable r → input_of r' = input_of r → hashed_fields r' = hashed_fields r.
Proof.
  unfold separable, input_of, hashed_fields, hash_input. intros (H1 & H2 & H3 & H4 & H5) Heq.
  assert (Hcount : seps (ts r') = 0 ∧ seps (actor r') = 0 ∧ seps (kind r') = 0 ∧ seps (payload_json r') = 0 ∧
                   seps (default "" (prev_hash r')) = 0).
  { apply (f_equal seps) in Heq. rewrite !seps_app in Heq. unfold sep, fieldSep in Heq. simpl in Heq. lia. }
  destruct Hcount as (K1 & K2 & K3 & K4 & K5).
  apply split_at_sep in Heq as [-> Heq]; [|done..]. apply split_at_sep in Heq as [-> Heq]; [|done..].
  apply split_at_sep in Heq as [-> Heq]; [|done..]. by apply split_at_sep in Heq as [-> ->].
Qed.

Lemma verify_rows_keeps h rep rs :
  FirstSeq (verify_rows sha256 h rep rs) = FirstSeq rep.
Proof.
  revert h rep. induction rs as [|r rs IH]; intros h rep; cbn [verify_rows]; [done|]. repeat case_match; [done|done|].
  by rewrite IH.
Qed.

Lemma verify_rows_linked h rep rs : VR_OK (verify_rows sha256 h rep rs) = true → linked h rs.
Proof.
  revert h rep. induction rs as [|r rs IH]; intros h rep; cbn [verify_rows linked]; [done|]. cbv zeta.
  destruct (negb (str_eqb _ h)) eqn:E1; [done|]. destruct (negb (str_eqb _ (hash r))) eqn:E2; [done|].
  go_bool. intros Hr. split_and!; [done|done|by eapply IH].
Qed.

(** The row that changed stops the walk. *)
Lemma verify_tampered h rep pre r r' post :
  linked h (pre ++ r :: post) → separable r → seq r' = seq r → hash r' = hash r →
  hashed_fields r' ≠ hashed_fields r → (sha256 (input_of r') = sha256 (input_of r) → input_of r' = input_of r) →
  ∀ h' , (pre ≠ [] → h' = h) →
  let rep' := verify_rows sha256 h' rep (pre ++ r' :: post) in VR_OK rep' = false ∧ FailedSeq rep' = seq r.
Proof using sha256.
  clear format_time parse_time anchor_json json_through.
  intros Hl Hsep Hseq Hhash Hfields Hres h' Hh'. apply linked_app in Hl as [Hpre (_ & Hs & _)].
  assert (Hbad : ∀ h'' rep'', let rep' := verify_rows sha256 h'' rep'' (r' :: post) in VR_OK rep' = false ∧ FailedSeq rep' = seq r).
  { intros h'' rep''. cbn [verify_rows]. cbv zeta. destruct (negb (str_eqb _ h'')); [done|].
    destruct (negb (str_eqb _ (hash r'))) eqn:E2; [done|]. exfalso. go_bool. apply Hfields, input_of_inj, Hres; [done|].
    unfold sealed, computeHash in *. unfold input_of. congruence. }
  destruct pre as [|r0 pre]; [apply Hbad|]. rewrite (Hh' ltac:(done)), verify_app by done. apply Hbad.
Qed.

(** C34. No stored field of a verified log can change unnoticed: when the
    fields a row was written with hold no separator and the hash does not
    collide on it, changing its time, actor, kind, payload or previous hash
    makes [Verify] fail, at that row, or at the first row when the change took
    away the anchor the first row needs. *)
Theorem tamper_evident l pre r post r' n :
  rows l = pre ++ r :: post → VR_OK (verify l) = true → separable r →
  seq r' = seq r → hash r' = hash r → hashed_fields r' ≠ hashed_fields r →
  (sha256 (input_of r') = sha256 (input_of r) → input_of r' = input_of r) →
  let rep := verify {| rows := pre ++ r' :: post; next_seq := n |} in
  VR_OK rep = false ∧
  (FailedSeq rep = seq r ∨ Reason rep = NoAnchor ∧ FailedSeq rep = FirstSeq rep).
Proof using sha256 json_through.
  clear format_time parse_time anchor_json.
  intros Hrows Hok Hsep Hseq Hhash Hfields Hres rep. subst rep. unfold Verify in *. cbn [rows]. rewrite Hrows in Hok.
  assert (Hl : linked (default "" (head (pre ++ r :: post) ≫= prev_hash)) (pre ++ r :: post)).
  { destruct (pre ++ r :: post) as [|r0 rs]; [done|]. cbn [head mbind option_bind].
    destruct (prev_hash r0) as [h|]; [|by eapply verify_rows_linked].
    destruct (pruneAnchorFor _ _ _ _) as [[anchor through]|]; [by eapply verify_rows_linked|done]. }
  clear Hok. pose proof (λ rep, verify_tampered _ rep pre r r' post Hl Hsep Hseq Hhash Hfields Hres) as Hbad.
  destruct pre as [|r0 pre]; cbn [app head mbind option_bind] in *.
  - destruct (prev_hash r') as [h|];
      [destruct (pruneAnchorFor _ _ _ _) as [[anchor through]|]; [|split; [done|by right]]|];
      (edestruct Hbad as [? ?]; [|split; [eassumption|left; eassumption]]; done).
  - destruct (prev_hash r0) as [h|];
      [destruct (pruneAnchorFor _ _ _ _) as [[anchor through]|]; [|split; [done|by right]]|];
      (edestruct Hbad as [? ?]; [|split; [eassumption|left; eassumption]]; done).
Qed.
End chain.

(** ** Concrete logs *)

(** Numbers in unary, a hash that is a length, and the two members of an
    anchor one after the other: enough to run the log. *)
Fixpoint ones (n : nat) : string := match n with O => "" | S n => String "1"%char (ones n) end.

Definition demo_hash (s : string) : string := ones (String.length s).

Fixpoint read_ones (s : string) : nat * string :=
  match s with
  | String c s' => if Ascii.eqb c "1"%char then let '(n, rest) := read_ones s' in (S n, rest) else (0, s)
  | EmptyString => (0, EmptyString)
  end.

Definition demo_json (a : prunedAnchor) : string :=
  String (if (ThroughSeq a <? 0)%Z then "-"%char else "+"%char)
    (ones (Z.abs_nat (ThroughSeq a)) +:+ String ","%char (ThroughHash a)).

Definition demo_through (s : string) : option (Z * string) :=
  match s with
  | String c s =>
      match read_ones s with
      | (n, String _ h) => Some ((if Ascii.eqb c "-"%char then - Z.of_nat n else Z.of_nat n)%Z, h)
      | _ => None
      end
  | EmptyString => None
  end.

Lemma read_ones_app n h : read_ones (ones n +:+ String ","%char h) = (n, String ","%char h).
Proof. induction n as [|n IH]; [done|]. cbn [ones]. rewrite str_app_cons. cbn [read_ones]. by rewrite IH. Qed.

Lemma demo_readable : anchors_readable demo_json demo_through.
Proof.
  intros a. unfold demo_json, demo_through. rewrite read_ones_app.
  destruct (ThroughSeq a <? 0)%Z eqn:E; go_bool; cbn; do 2 f_equal; lia.
Qed.

Definition demo_format (t : Time) : string := ones (Z.to_nat t).
Definition demo_parse (s : string) : option Time := Some (Z.of_nat (String.length s)).
Definition demo_append (l : audit_log) (kind : string) (at_ : Time) : audit_log :=
  Append demo_hash demo_format l "ingress" kind (Some "{}") at_.
Definition demo_log : audit_log := demo_append (demo_append (demo_append empty_log "a" 1%Z) "b" 3%Z) "c" 5%Z.

#[local] Abbreviation demo_step := (log_step demo_hash demo_format demo_parse demo_json).

Lemma demo_log_reachable : rtc demo_step empty_log demo_log.
Proof.
  unfold demo_log, demo_append. eapply rtc_r; [eapply rtc_r; [apply rtc_once|]|]; apply StepAppend.
Qed.

Definition demo_pruned : result audit_error (Z * audit_log) :=
  pruneStep demo_hash demo_format demo_parse demo_json demo_log 4%Z 3%Z 9%Z.

Lemma reachable_verifies_witness :
  ∃ l, demo_pruned = Ok (2%Z, l) ∧ clean (Verify demo_hash demo_through l) l ∧
       FirstSeq (Verify demo_hash demo_through l) = 3%Z.
Proof.
  eexists. split; [by vm_compute|].
  edestruct (reachable_verifies demo_hash demo_format demo_parse demo_json demo_through) as [Hc Hp];
    [apply demo_readable| |split; [exact Hc|destruct (Hp _ _ eq_refl eq_refl) as (_ & _ & H); exact H]].
  eapply rtc_r; [apply demo_log_reachable|]. apply (StepPrune _ _ _ _ _ 4%Z 3%Z 9%Z 2%Z). by vm_compute.
Defined.

Lemma PruneBefore_spec_witness :
  ∃ out n l' removed kept added,
    PruneBefore demo_hash demo_format demo_parse demo_json (λ k l, demo_append l "late" 2%Z) (λ _, 9%Z) (λ _, false) 4%Z demo_log
      = Some (out, n, l') ∧
    rows demo_log = removed ++ kept ∧ rows l' = kept ++ added ∧ n = Z.of_nat (length removed) ∧
    Forall (old demo_parse 4%Z) removed ∧ clean (Verify demo_hash demo_through l') l' ∧
    (out = PruneDone → ∀ r, head kept = Some r → ¬ old demo_parse 4%Z r).
Proof.
  apply PruneBefore_spec; [apply demo_readable| |apply demo_log_reachable].
  intros _ l. eapply rtc_once, AppendStep.
Defined.

Definition demo_row : audit_row := default (row_at demo_hash 0%Z "" "" "" "" None) (rows demo_log !! 1%nat).

(** The second row of the log, with another actor. *)
Definition demo_tampered : audit_row :=
  {| seq := seq demo_row; ts := ts demo_row; actor := "someone else"; kind := kind demo_row;
     payload_json := payload_json demo_row; prev_hash := prev_hash demo_row; hash := hash demo_row |}.

Lemma tamper_evident_witness :
  let rep := Verify demo_hash demo_through
               {| rows := take 1 (rows demo_log) ++ demo_tampered :: drop 2 (rows demo_log); next_seq := 4%Z |} in
  VR_OK rep = false ∧ (FailedSeq rep = 2%Z ∨ Reason rep = NoAnchor ∧ FailedSeq rep = FirstSeq rep).
Proof.
  apply (tamper_evident demo_hash demo_through demo_log _ demo_row); try by vm_compute.
Defined.
