(* ===== verification/NotificationModel.v ===== *)
(** * Notification intents (internal/situation/model/history.go)

    The durable Slack obligation, its classes, kinds, states and priorities,
    and its validation.  Instants are in UTC (the prelude's [Time] has no
    location), so the checks of a location always pass and are left out. *)

From stdpp Require Import prelude strings list.
From S2P Require Import Prelude BriefingModel.

(** ** Enumerations *)

Inductive InterruptionPriority : Set :=
| InterruptionLow
| InterruptionMedium
| InterruptionHigh
| InterruptionCritical.

Definition InterruptionPriority_rank (p : InterruptionPriority) : Z :=
  match p with
  | InterruptionLow => 0
  | InterruptionMedium => 1
  | InterruptionHigh => 2
  | InterruptionCritical => 3
  end.

Definition InterruptionPriority_Less (p other : InterruptionPriority) : bool :=
  (InterruptionPriority_rank p <? InterruptionPriority_rank other)%Z.

Inductive EffectClass : Set :=
| EffectRootSync
| EffectThreadAppend
| EffectBroadcastHandoff
| EffectInstallationGapRecovery.

Inductive NotificationReplyKind : Set :=
| ReplyLegacy
| ReplyCorrelationStarted
| ReplyInvestigationStarted
| ReplyAnalysisCompleted
| ReplyPartialClearance
| ReplyRecoveryObserved
| ReplyRecovered.

Inductive IntentStatus : Set :=
| IntentPending
| IntentDelivered
| IntentBlockedConfiguration
| IntentFailed
| IntentWithheld
| IntentSuperseded.

#[export] Instance InterruptionPriority_eq_dec : EqDecision InterruptionPriority.
Proof. solve_decision. Defined.
#[export] Instance EffectClass_eq_dec : EqDecision EffectClass.
Proof. solve_decision. Defined.
#[export] Instance NotificationReplyKind_eq_dec : EqDecision NotificationReplyKind.
Proof. solve_decision. Defined.
#[export] Instance IntentStatus_eq_dec : EqDecision IntentStatus.
Proof. solve_decision. Defined.

(** ** The intent *)

Record NotificationIntent : Type := {
  ni_ID : string;
  ni_IdempotencyKey : string;
  ni_EffectClass : EffectClass;
  ni_ReplyKind : NotificationReplyKind;
  ni_SituationID : option string;
  ni_TransitionID : option string;
  ni_TransitionSequence : option Z;
  ni_SummaryVersion : option Z;
  ni_GapGeneration : option string;
  ni_RequiresRoot : bool;
  ni_MainChannelPoke : bool;
  ni_InterruptionPriority : option InterruptionPriority;
  ni_ContractDeadlineAt : option Time;
  ni_ClientMessageID : string;
  ni_Status : IntentStatus;
  ni_ClaimOwner : option string;
  ni_ClaimToken : Z;
  ni_LeaseExpiresAt : option Time;
  ni_AttemptCount : Z;
  ni_LastErrorClass : option string;
  ni_RetryAt : option Time;
  ni_SupersessionReason : option string;
  ni_ReplacementIntentID : option string;
  ni_DeliveredAs : option string;
  ni_Channel : option string;
  ni_MessageTS : option string;
  ni_CreatedAt : Time;
  ni_DeliveredAt : option Time
}.

Definition maxIdentifierLength : Z := 200.

Inductive intent_error : Set :=
| IntentIDInvalid
| IntentKeyInvalid
| IntentClientMessageIDInvalid
| IntentAttemptNegative
| IntentRefInvalid
| IntentGapRefs                            (* references of a gap notice *)
| IntentSituationRefs                      (* references of the other classes *)
| IntentDeadlineClass
| IntentCreatedAt.

Definition text_length (s : string) : Z := Z.of_nat (String.length s).

(** Set, not blank, and within the bound. *)
Definition bounded_id (s : string) : bool :=
  negb (str_eqb (TrimSpace s) "") && (text_length s <=? maxIdentifierLength)%Z.

Definition validateBoundedRefs (n : NotificationIntent) : bool :=
  forallb (λ v, match v with Some s => bounded_id s | None => true end)
    [ ni_SituationID n; ni_TransitionID n; ni_GapGeneration n; ni_ClaimOwner n; ni_LastErrorClass n;
      ni_SupersessionReason n; ni_ReplacementIntentID n; ni_DeliveredAs n; ni_Channel n; ni_MessageTS n ].

Definition is_set {A} (o : option A) : bool := match o with Some _ => true | None => false end.

Definition validateEffectClassRefs (n : NotificationIntent) : result intent_error unit :=
  match ni_EffectClass n with
  | EffectInstallationGapRecovery =>
      guard! negb (is_set (ni_SituationID n) || is_set (ni_TransitionID n)
                   || is_set (ni_TransitionSequence n) || is_set (ni_SummaryVersion n))
             && is_set (ni_GapGeneration n) else IntentGapRefs in Ok tt
  | EffectRootSync =>
      guard! is_set (ni_SituationID n) && is_set (ni_TransitionID n) && negb (is_set (ni_GapGeneration n))
             && is_set (ni_SummaryVersion n) else IntentSituationRefs in Ok tt
  | EffectThreadAppend | EffectBroadcastHandoff =>
      guard! is_set (ni_SituationID n) && is_set (ni_TransitionID n) && negb (is_set (ni_GapGeneration n))
      else IntentSituationRefs in Ok tt
  end.

Definition NotificationIntent_Validate (n : NotificationIntent) : result intent_error unit :=
  guard! bounded_id (ni_ID n) else IntentIDInvalid in
  guard! bounded_id (ni_IdempotencyKey n) else IntentKeyInvalid in
  guard! bounded_id (ni_ClientMessageID n) else IntentClientMessageIDInvalid in
  guard! (0 <=? ni_AttemptCount n)%Z else IntentAttemptNegative in
  guard! validateBoundedRefs n else IntentRefInvalid in
  let? _ := validateEffectClassRefs n in
  guard! negb (is_set (ni_ContractDeadlineAt n)) || bool_decide (ni_EffectClass n = EffectRootSync)
  else IntentDeadlineClass in
  guard! negb (IsZero (ni_CreatedAt n)) else IntentCreatedAt in
  Ok tt.

(** A root comes before its replies, and only a reply waits for one. *)
Definition needs_root (c : EffectClass) : bool :=
  match c with EffectThreadAppend | EffectBroadcastHandoff => true | _ => false end.

(** ** Identities (internal/situation/history.go) *)

Definition maxHistoryIdentifier : nat := 200.

(** The notice of a gap; [intentIdentity] is the UUID of a text. *)
Definition GapRecoveryIntent (intentIdentity : string → string) (gapGeneration : string) (now : Time)
    : result intent_error NotificationIntent :=
  let key := boundedText ("installation_gap_recovery:" +:+ gapGeneration) maxHistoryIdentifier in
  let intent := {|
    ni_ID := intentIdentity ("intent:" +:+ key);
    ni_IdempotencyKey := key;
    ni_EffectClass := EffectInstallationGapRecovery;
    ni_ReplyKind := ReplyLegacy;
    ni_SituationID := None; ni_TransitionID := None; ni_TransitionSequence := None; ni_SummaryVersion := None;
    ni_GapGeneration := Some gapGeneration;
    ni_RequiresRoot := false; ni_MainChannelPoke := false; ni_InterruptionPriority := None;
    ni_ContractDeadlineAt := None;
    ni_ClientMessageID := intentIdentity ("client_message:" +:+ key);
    ni_Status := IntentPending;
    ni_ClaimOwner := None; ni_ClaimToken := 0; ni_LeaseExpiresAt := None; ni_AttemptCount := 0;
    ni_LastErrorClass := None; ni_RetryAt := None; ni_SupersessionReason := None; ni_ReplacementIntentID := None;
    ni_DeliveredAs := None; ni_Channel := None; ni_MessageTS := None;
    ni_CreatedAt := now; ni_DeliveredAt := None |} in
  let? _ := NotificationIntent_Validate intent in
  Ok intent.
