(* ===== verification/HistoryModel.v ===== *)
(** * Transitions and Episodes (internal/situation/model/history.go, observation_coverage.go)

    The immutable Transition, its journal entry and its projection, the folded
    Episode summary, and their validation.  An instant is in UTC (the prelude's
    [Time] has no location), so of the checks of an instant the one of the zero
    instant is left; the closed types without [_other] ([TerminalReason],
    [SourceTimeBasis], [InterruptionPriority]) have no value [Validate] refuses.
    [DetailExpired], which no new Transition sets, is left out. *)

From stdpp Require Import prelude strings list.
From S2P Require Import Prelude SituationModel ExpectedBehavior BriefingModel NotificationModel.

(** ** Texts of closed values *)

Definition Attention_text (a : Attention) : string :=
  match a with
  | AttentionObserve => "observe"
  | AttentionInvestigate => "investigate"
  | AttentionUrgent => "urgent"
  | Attention_other v => v
  end.

Definition Lifecycle_text (l : Lifecycle) : string :=
  match l with
  | LifecycleActive => "active"
  | LifecycleRecoveryPending => "recovery_pending"
  | LifecycleRecovered => "recovered"
  | LifecycleClosedUnknown => "closed_unknown"
  | Lifecycle_other v => v
  end.

Definition EvidenceQuality_text (q : EvidenceQuality) : string :=
  match q with
  | EvidenceQualityComplete => "complete"
  | EvidenceQualityDegraded => "degraded"
  | EvidenceQualityInsufficient => "insufficient"
  | EvidenceQuality_other v => v
  end.

Definition NextActor_text (a : NextActor) : string :=
  match a with
  | NextActorAlertINT => "alertint"
  | NextActorOperator => "operator"
  | NextActorNone => "none"
  | NextActor_other v => v
  end.

Definition AlertINTAction_text (a : AlertINTAction) : string :=
  match a with
  | AlertINTActionRunAcuteTriage => "run_acute_triage"
  | AlertINTActionRetrySituationAssessment => "retry_situation_assessment"
  | AlertINTActionMonitorSituation => "monitor_situation"
  | AlertINTActionVerifyRecovery => "verify_recovery"
  | AlertINTAction_other v => v
  end.

Definition AlertINTStatus_text (s : AlertINTStatus) : string :=
  match s with
  | AlertINTStatusPlanned => "planned"
  | AlertINTStatusRunning => "running"
  | AlertINTStatusWaiting => "waiting"
  | AlertINTStatusBlocked => "blocked"
  | AlertINTStatusExhausted => "exhausted"
  | AlertINTStatusComplete => "complete"
  | AlertINTStatus_other v => v
  end.

Definition OperatorAction_text (a : OperatorAction) : string :=
  match a with
  | OperatorActionInvestigateSituation => "investigate_situation"
  | OperatorAction_other v => v
  end.

Definition NextUpdateOn_text (u : NextUpdateOn) : string :=
  match u with
  | NextUpdateOnMaterialInput => "material_input"
  | NextUpdateOnTriageOutcome => "triage_outcome"
  | NextUpdateOnSourceResolution => "source_resolution"
  | NextUpdateOnSourceRefire => "source_refire"
  | NextUpdateOnDependencyRecovery => "dependency_recovery"
  | NextUpdateOnAssessmentRetryDue => "assessment_retry_due"
  | NextUpdateOnRecoveryGraceExpired => "recovery_grace_expired"
  | NextUpdateOnLifecycleObservationDeadline => "lifecycle_observation_deadline"
  | NextUpdateOn_other v => v
  end.

Definition WaitReason_text (r : WaitReason) : string :=
  match r with
  | WaitReasonAcuteTriageDecision => "acute_triage_decision"
  | WaitReasonAcuteTriageBackoff => "acute_triage_backoff"
  | WaitReasonAssessmentRetry => "assessment_retry"
  | WaitReasonAssessmentParked => "assessment_parked"
  | WaitReasonSourceChange => "source_change"
  | WaitReasonRecoveryGrace => "recovery_grace"
  | WaitReason_other v => v
  end.

Definition TerminalReason_text (r : TerminalReason) : string :=
  match r with
  | TerminalReasonObservationDeadline => "observation_deadline"
  | TerminalReasonResolutionMissing => "resolution_missing"
  | TerminalReasonSourceUnavailable => "source_unavailable"
  | TerminalReasonBudgetExhausted => "budget_exhausted"
  end.

(** [derefOperatorAction] and its like: the text of an optional value, empty for
    none. *)
Definition deref {A} (text : A → string) (o : option A) : string :=
  match o with Some a => text a | None => "" end.

(** ** Closed vocabularies *)

Inductive TransitionReason : Set :=
| ReasonFirstAuthoritativeState
| ReasonMaterialAssessmentChanged
| ReasonAttentionChanged
| ReasonOperatorContractChanged
| ReasonInvestigationStarted
| ReasonInvestigationConcluded
| ReasonRecoveryObserved
| ReasonRecoveryFailed
| ReasonRecovered
| ReasonClosedUnknown
| ReasonRecurrenceMilestone
| ReasonTriageStateChanged
| ReasonOperatorArtifactRecorded
| TransitionReason_other (v : string).

Inductive TransitionActor : Set :=
| ActorDeterministicController
| ActorLLM
| ActorAttributedOperator
| ActorOperatorPolicy
| TransitionActor_other (v : string).

Inductive JournalKind : Set :=
| JournalNone
| JournalPublication
| JournalInvestigationStarted
| JournalInvestigationChanged
| JournalEvidenceConclusion
| JournalOperatorContractChanged
| JournalRecoveryPending
| JournalRecoveryRefired
| JournalRecurrenceMilestone
| JournalRecovered
| JournalClosedUnknown
| JournalOperatorNote
| JournalCapturedVerdict
| JournalKind_other (v : string).

Inductive JudgmentChange : Set :=
| JudgmentChangeNone                       (* the empty text *)
| JudgmentChangeRecorded
| JudgmentChangeReplaced
| JudgmentChangeRevoked
| JudgmentChangeRestored
| JudgmentChangeExpired
| JudgmentChangeInvalidated
| JudgmentChange_other (v : string).

Inductive ExpectedBehaviorChange : Set :=
| ExpectedBehaviorChangeNone               (* the empty text *)
| ExpectedBehaviorChangeApplied
| ExpectedBehaviorChangeUpdated
| ExpectedBehaviorChangeWithdrawn
| ExpectedBehaviorChangeRestored
| ExpectedBehaviorChangeStopped
| ExpectedBehaviorChange_other (v : string).

#[export] Instance TransitionReason_eq_dec : EqDecision TransitionReason.
Proof. solve_decision. Defined.
#[export] Instance TransitionActor_eq_dec : EqDecision TransitionActor.
Proof. solve_decision. Defined.
#[export] Instance JournalKind_eq_dec : EqDecision JournalKind.
Proof. solve_decision. Defined.
#[export] Instance JudgmentChange_eq_dec : EqDecision JudgmentChange.
Proof. solve_decision. Defined.
#[export] Instance ExpectedBehaviorChange_eq_dec : EqDecision ExpectedBehaviorChange.
Proof. solve_decision. Defined.

Definition TransitionReason_text (r : TransitionReason) : string :=
  match r with
  | ReasonFirstAuthoritativeState => "first_authoritative_state"
  | ReasonMaterialAssessmentChanged => "material_assessment_changed"
  | ReasonAttentionChanged => "attention_changed"
  | ReasonOperatorContractChanged => "operator_contract_changed"
  | ReasonInvestigationStarted => "investigation_started"
  | ReasonInvestigationConcluded => "investigation_concluded"
  | ReasonRecoveryObserved => "recovery_observed"
  | ReasonRecoveryFailed => "recovery_failed"
  | ReasonRecovered => "recovered"
  | ReasonClosedUnknown => "closed_unknown"
  | ReasonRecurrenceMilestone => "recurrence_milestone"
  | ReasonTriageStateChanged => "triage_state_changed"
  | ReasonOperatorArtifactRecorded => "operator_artifact_recorded"
  | TransitionReason_other v => v
  end.

Definition TransitionReason_Validate (r : TransitionReason) : result string unit :=
  match r with
  | TransitionReason_other _ => Err "model: transition_reason: unknown value"
  | _ => Ok tt
  end.

(** The operator policy is a value of a later plan, always refused here. *)
Definition TransitionActor_Validate (a : TransitionActor) : result string unit :=
  match a with
  | ActorDeterministicController | ActorLLM | ActorAttributedOperator => Ok tt
  | ActorOperatorPolicy | TransitionActor_other _ => Err "model: transition_actor: unknown value"
  end.

Definition JournalKind_Validate (k : JournalKind) : result string unit :=
  match k with
  | JournalKind_other _ => Err "model: journal_kind: unknown value"
  | _ => Ok tt
  end.

(** ** Journal entries *)

Definition maxJournalHeadlineLength : Z := 200.
Definition maxJournalDetailLength : Z := 2000.
Definition maxEvidenceRefs : nat := 50.

Record JournalData : Type := {
  jd_Headline : string;
  jd_Detail : string;
  jd_AttributedActor : string;
  jd_ActionStatus : string;
  jd_RecurrenceCount : Z;
  jd_Delayed : bool;
  jd_NoLongerCurrent : bool;
  jd_OccurredAt : Time;
  jd_JudgmentChange : JudgmentChange;
  jd_JudgmentValidUntil : option Time;
  jd_ExpectedBehaviorChange : ExpectedBehaviorChange;
  jd_ExpectedBehaviorReason : ExpectedBehaviorReason;
  jd_ExpectedBehaviorBoundary : option Time
}.

Definition requireNonZero (field : string) (t : Time) : result string unit :=
  guard! negb (IsZero t) else field +:+ ": is required" in Ok tt.

Definition JournalData_Validate (j : JournalData) : result string unit :=
  guard! (text_length (jd_Headline j) <=? maxJournalHeadlineLength)%Z else "journal_data: headline exceeds the bound" in
  guard! (text_length (jd_Detail j) <=? maxJournalDetailLength)%Z else "journal_data: detail exceeds the bound" in
  guard! (text_length (jd_AttributedActor j) <=? maxIdentifierLength)%Z
  else "journal_data: attributed_actor exceeds the bound" in
  guard! (text_length (jd_ActionStatus j) <=? maxIdentifierLength)%Z
  else "journal_data: action_status exceeds the bound" in
  guard! (0 <=? jd_RecurrenceCount j)%Z else "journal_data: recurrence_count must be >= 0" in
  let? _ := requireNonZero "journal_data: occurred_at" (jd_OccurredAt j) in
  let? _ := opt_validate (requireNonZero "journal_data: judgment_valid_until") (jd_JudgmentValidUntil j) in
  let? _ := opt_validate (requireNonZero "journal_data: expected_behavior_boundary") (jd_ExpectedBehaviorBoundary j) in
  let? _ :=
    match jd_JudgmentChange j with
    | JudgmentChange_other _ => Err "journal_data: unknown judgment_change"
    | JudgmentChangeRecorded | JudgmentChangeReplaced | JudgmentChangeRestored =>
        guard! is_set (jd_JudgmentValidUntil j)
        else "journal_data: active expected judgment change requires valid_until" in Ok tt
    | _ => Ok tt
    end in
  match jd_ExpectedBehaviorChange j with
  | ExpectedBehaviorChange_other _ => Err "journal_data: unknown expected_behavior_change"
  | _ => Ok tt
  end.

(** ** The projection *)

Record AssessmentConclusion : Type := {
  co_Persistence : Persistence;
  co_Impact : Impact;
  co_Novelty : Novelty;
  co_Causality : Causality;
  co_EvidenceQuality : EvidenceQuality;
  co_LimitationCodes : list string;
  co_SufficientReasonCode : string;
  co_SufficientReasonSummary : string
}.

Definition AssessmentConclusion_Validate (a : AssessmentConclusion) : result string unit :=
  let? _ := Persistence_Validate (co_Persistence a) in
  let? _ := Impact_Validate (co_Impact a) in
  let? _ := Novelty_Validate (co_Novelty a) in
  let? _ := Causality_Validate (co_Causality a) in
  let? _ := EvidenceQuality_Validate (co_EvidenceQuality a) in
  guard! (text_length (co_SufficientReasonSummary a) <=? maxJournalDetailLength)%Z
  else "assessment_conclusion: sufficient_reason_summary exceeds the bound" in Ok tt.

Record CoverageLimitation : Type := {
  cl_RunID : string;
  cl_Capability : string;
  cl_Codes : list string;
  cl_Returned : Z;
  cl_Omitted : Z;
  cl_OmittedAtLeast : bool
}.

Definition CoverageLimitation_Validate (l : CoverageLimitation) : result string unit :=
  guard! negb (str_eqb (cl_RunID l) "" || (maxIdentifierLength <? text_length (cl_RunID l))%Z
               || negb (str_eqb (cl_Capability l) "prometheus_query")
               || (length (cl_Codes l) =? 0)%nat || (16 <? length (cl_Codes l))%nat
               || (cl_Returned l <? 0)%Z || (cl_Omitted l <? 0)%Z)
  else "coverage_limitation: invalid source-run metadata" in
  guard! forallb (λ code, negb (str_eqb code "" || (128 <? text_length code)%Z)) (cl_Codes l)
  else "coverage_limitation: invalid code" in Ok tt.

Record ProjectionFacts : Type := {
  pf_CoverageLimitations : list CoverageLimitation;
  pf_OperatorDelta : option OperatorDelta;
  pf_Briefing : option OperatorBriefing;
  pf_PublicHandle : option string;
  pf_EffectiveStartedAt : Time;
  pf_EffectiveStartedAtBasis : SourceTimeBasis;
  pf_RecoveryObservedAt : option Time;
  pf_GraceUntil : option Time;
  pf_TerminalAt : option Time;
  pf_TerminalReason : option TerminalReason;
  pf_Assessment : option AssessmentConclusion
}.

Definition not_blank_when_set (o : option string) : bool :=
  match o with Some s => negb (str_eqb (TrimSpace s) "") | None => true end.

Definition ProjectionFacts_Validate (p : ProjectionFacts) : result string unit :=
  guard! (length (pf_CoverageLimitations p) <=? 32)%nat else "projection_facts: too many coverage limitations" in
  let? _ := all_validate CoverageLimitation_Validate (pf_CoverageLimitations p) in
  guard! not_blank_when_set (pf_PublicHandle p) else "projection_facts: public_handle must not be empty when set" in
  let? _ := requireNonZero "projection_facts: effective_started_at" (pf_EffectiveStartedAt p) in
  guard! is_set (pf_TerminalAt p) || negb (is_set (pf_TerminalReason p))
  else "projection_facts: terminal_reason requires terminal_at" in
  opt_validate AssessmentConclusion_Validate (pf_Assessment p).

(** ** Transitions *)

Record Transition : Type := {
  tr_ID : string;
  tr_SituationID : string;
  tr_Sequence : Z;
  tr_InputVersion : Z;
  tr_MaterialFactHash : string;
  tr_AssessmentID : option string;
  tr_Lifecycle : Lifecycle;
  tr_Attention : Attention;
  tr_ActionContract : ActionContract;
  tr_SufficientReasonID : option string;
  tr_InterruptionPriority : option InterruptionPriority;
  tr_Reason : TransitionReason;
  tr_JournalKind : JournalKind;
  tr_Journal : JournalData;
  tr_Projection : ProjectionFacts;
  tr_OperatorArtifactInputID : option string;
  tr_EvidenceRefs : list string;
  tr_Actor : TransitionActor;
  tr_Drill : bool;
  tr_CreatedAt : Time
}.

Definition artifact_pairing (t : Transition) : result string unit :=
  match tr_OperatorArtifactInputID t with
  | None =>
      guard! negb (bool_decide (tr_Reason t = ReasonOperatorArtifactRecorded))
      else "transition: operator_artifact_input_id is required when reason is operator_artifact_recorded" in Ok tt
  | Some _ =>
      guard! bool_decide (tr_Reason t = ReasonOperatorArtifactRecorded)
      else "transition: operator_artifact_input_id must be unset unless reason is operator_artifact_recorded" in Ok tt
  end.

Definition Transition_Validate (t : Transition) : result string unit :=
  guard! negb (str_eqb (TrimSpace (tr_ID t)) "") else "transition: id is required" in
  guard! (text_length (tr_ID t) <=? maxIdentifierLength)%Z else "transition: id exceeds the bound" in
  guard! negb (str_eqb (TrimSpace (tr_SituationID t)) "") else "transition: situation_id is required" in
  guard! (1 <=? tr_Sequence t)%Z else "transition: sequence must be >= 1" in
  guard! (1 <=? tr_InputVersion t)%Z else "transition: input_version must be >= 1" in
  guard! negb (str_eqb (TrimSpace (tr_MaterialFactHash t)) "") else "transition: material_fact_hash is required" in
  guard! not_blank_when_set (tr_AssessmentID t) else "transition: assessment_id must not be empty when set" in
  let? _ := Lifecycle_Validate (tr_Lifecycle t) in
  let? _ := Attention_Validate (tr_Attention t) in
  let? _ := ActionContract_validate (tr_ActionContract t) (Terminal (tr_Lifecycle t)) in
  guard! not_blank_when_set (tr_SufficientReasonID t)
  else "transition: sufficient_reason_id must not be empty when set" in
  let? _ := TransitionReason_Validate (tr_Reason t) in
  let? _ := JournalKind_Validate (tr_JournalKind t) in
  let? _ := JournalData_Validate (tr_Journal t) in
  let? _ := ProjectionFacts_Validate (tr_Projection t) in
  let? _ := artifact_pairing t in
  guard! not_blank_when_set (tr_OperatorArtifactInputID t)
  else "transition: operator_artifact_input_id must not be empty when set" in
  guard! (length (tr_EvidenceRefs t) <=? maxEvidenceRefs)%nat else "transition: evidence_refs exceeds the bound" in
  let? _ := TransitionActor_Validate (tr_Actor t) in
  requireNonZero "transition: created_at" (tr_CreatedAt t).

(** ** Episode summaries *)

Record EpisodeSummary : Type := {
  es_Briefing : option OperatorBriefing;
  es_SituationID : string;
  es_PublicHandle : string;
  es_Version : Z;
  es_SourceTransitionSequence : Z;
  es_Title : string;
  es_InitialPublicationReason : string;
  es_LatestMaterialReason : string;
  es_EvidenceConclusion : string;
  es_ImpactSummary : string;
  es_InvestigationWork : list string;
  es_InvestigationStarted : bool;
  es_CurrentAttention : Attention;
  es_PeakAttention : Attention;
  es_ActionContract : ActionContract;
  es_RecordedOperatorContext : list string;
  es_EffectiveStartedAt : Time;
  es_RecoveryObservedAt : option Time;
  es_TerminalAt : option Time;
  es_DurationSeconds : option Z;
  es_RecurrenceCount : Z;
  es_FinalOutcome : string;
  es_RemainingUncertainty : string;
  es_UpdatedAt : Time
}.

Definition EpisodeSummary_Validate (e : EpisodeSummary) : result string unit :=
  guard! negb (str_eqb (TrimSpace (es_SituationID e)) "") else "episode_summary: situation_id is required" in
  guard! (1 <=? es_Version e)%Z else "episode_summary: version must be >= 1" in
  guard! (1 <=? es_SourceTransitionSequence e)%Z else "episode_summary: source_transition_sequence must be >= 1" in
  guard! negb (str_eqb (TrimSpace (es_Title e)) "") else "episode_summary: title is required" in
  let? _ := Attention_Validate (es_CurrentAttention e) in
  let? _ := Attention_Validate (es_PeakAttention e) in
  let? _ := ActionContract_validate (es_ActionContract e) (is_set (es_TerminalAt e)) in
  let? _ := requireNonZero "episode_summary: effective_started_at" (es_EffectiveStartedAt e) in
  guard! match es_DurationSeconds e with Some d => (0 <=? d)%Z | None => true end
  else "episode_summary: duration_seconds must be >= 0" in
  guard! (0 <=? es_RecurrenceCount e)%Z else "episode_summary: recurrence_count must be >= 0" in
  requireNonZero "episode_summary: updated_at" (es_UpdatedAt e).

(** ** Lemmas *)

Lemma requireNonZero_ok f t : requireNonZero f t = Ok tt ↔ IsZero t = false.
Proof. unfold requireNonZero. rewrite guard_ok, negb_true_iff. naive_solver. Qed.

#[local] Opaque requireNonZero Lifecycle_Validate Attention_Validate ActionContract_validate TransitionReason_Validate
  JournalKind_Validate JournalData_Validate ProjectionFacts_Validate artifact_pairing TransitionActor_Validate opt_validate
  all_validate AssessmentConclusion_Validate.

(** What a valid Transition carries. *)
Record transition_ok (t : Transition) : Prop := {
  tok_id : str_eqb (TrimSpace (tr_ID t)) "" = false ∧ (text_length (tr_ID t) ≤ maxIdentifierLength)%Z;
  tok_situation : str_eqb (TrimSpace (tr_SituationID t)) "" = false;
  tok_sequence : (1 ≤ tr_Sequence t)%Z;
  tok_version : (1 ≤ tr_InputVersion t)%Z;
  tok_hash : str_eqb (TrimSpace (tr_MaterialFactHash t)) "" = false;
  tok_assessment : not_blank_when_set (tr_AssessmentID t) = true;
  tok_lifecycle : Lifecycle_Validate (tr_Lifecycle t) = Ok tt;
  tok_attention : Attention_Validate (tr_Attention t) = Ok tt;
  tok_contract : ActionContract_validate (tr_ActionContract t) (Terminal (tr_Lifecycle t)) = Ok tt;
  tok_reason_id : not_blank_when_set (tr_SufficientReasonID t) = true;
  tok_reason : TransitionReason_Validate (tr_Reason t) = Ok tt;
  tok_kind : JournalKind_Validate (tr_JournalKind t) = Ok tt;
  tok_journal : JournalData_Validate (tr_Journal t) = Ok tt;
  tok_projection : ProjectionFacts_Validate (tr_Projection t) = Ok tt;
  tok_artifact : artifact_pairing t = Ok tt ∧ not_blank_when_set (tr_OperatorArtifactInputID t) = true;
  tok_refs : (length (tr_EvidenceRefs t) ≤ maxEvidenceRefs)%nat;
  tok_actor : TransitionActor_Validate (tr_Actor t) = Ok tt;
  tok_created : IsZero (tr_CreatedAt t) = false
}.

Lemma Transition_Validate_ok t : Transition_Validate t = Ok tt ↔ transition_ok t.
Proof.
  unfold Transition_Validate. ok_conj. rewrite !negb_true_iff, !Z.leb_le, Nat.leb_le, requireNonZero_ok.
  split; [intros; destruct_and!; by constructor|intros []; tauto].
Qed.

Lemma EpisodeSummary_Validate_ok e :
  EpisodeSummary_Validate e = Ok tt ↔
  str_eqb (TrimSpace (es_SituationID e)) "" = false ∧ (1 ≤ es_Version e)%Z ∧ (1 ≤ es_SourceTransitionSequence e)%Z
  ∧ str_eqb (TrimSpace (es_Title e)) "" = false
  ∧ Attention_Validate (es_CurrentAttention e) = Ok tt ∧ Attention_Validate (es_PeakAttention e) = Ok tt
  ∧ ActionContract_validate (es_ActionContract e) (is_set (es_TerminalAt e)) = Ok tt
  ∧ IsZero (es_EffectiveStartedAt e) = false
  ∧ match es_DurationSeconds e with Some d => (0 <=? d)%Z | None => true end = true
  ∧ (0 ≤ es_RecurrenceCount e)%Z ∧ IsZero (es_UpdatedAt e) = false.
Proof.
  unfold EpisodeSummary_Validate. ok_conj. rewrite !negb_true_iff, !Z.leb_le, !requireNonZero_ok. tauto.
Qed.

#[local] Transparent ProjectionFacts_Validate JournalData_Validate.

Lemma ProjectionFacts_ok_started p : ProjectionFacts_Validate p = Ok tt → IsZero (pf_EffectiveStartedAt p) = false.
Proof. unfold ProjectionFacts_Validate. ok_conj. rewrite requireNonZero_ok. tauto. Qed.

Lemma JournalData_ok_recurrence j : JournalData_Validate j = Ok tt → (0 ≤ jd_RecurrenceCount j)%Z.
Proof. unfold JournalData_Validate. ok_conj. rewrite !Z.leb_le. tauto. Qed.
