(* ===== verification/Material.v ===== *)
(** * Material change of a briefing (internal/situation/briefing.go)

    What a Transition changes for the operator against the one before it: the
    changed members, the findings whose evidence differs structurally, the work
    that ended, the abilities lost and regained, the required action and the
    ends of the Situation, as candidates for a reply and as an [OperatorDelta].
    [canonicalDigest] (the SHA-256 of a value's JSON) is an argument. *)

From stdpp Require Import prelude strings list gmap.
From S2P Require Import Prelude SituationModel ExpectedBehavior BriefingModel NotificationModel HistoryModel.

Class CanonicalDigest (A : Type) : Type := canonicalDigest : A → string.

(** ** Comparing briefings *)

(** The checkpoint ticks every cycle and never makes a briefing differ. *)
Definition without_checkpoint (w : WorkProjection) : WorkProjection :=
  {| WP_Phase := WP_Phase w; WP_ExecutionStarted := WP_ExecutionStarted w;
     WP_InvestigatedAlertIDs := WP_InvestigatedAlertIDs w; WP_InvestigatedNames := WP_InvestigatedNames w;
     WP_InvestigatedCount := WP_InvestigatedCount w; WP_InvestigatedCountKnown := WP_InvestigatedCountKnown w;
     WP_EndedWork := WP_EndedWork w; WP_EndedWorkKnown := WP_EndedWorkKnown w;
     WP_RemainingIncidents := WP_RemainingIncidents w; WP_SkipReason := WP_SkipReason w;
     WP_QueuedEligibleAt := WP_QueuedEligibleAt w; WP_QueuedEligibilityKnown := WP_QueuedEligibilityKnown w;
     WP_RetryEligibleAt := WP_RetryEligibleAt w; WP_SourceGraceUntil := WP_SourceGraceUntil w;
     WP_StatusCheckpointAt := None |}.

Definition briefingMaterialityView (b : option OperatorBriefing) : option OperatorBriefing :=
  (λ b, {| br_Flow := br_Flow b; br_BlockedReason := br_BlockedReason b;
           br_AssessmentRetryAt := br_AssessmentRetryAt b; br_Scope := br_Scope b;
           br_DisplayScope := br_DisplayScope b; br_Alerts := br_Alerts b;
           br_AlertsOmitted := br_AlertsOmitted b; br_RetryAt := br_RetryAt b; br_Symptoms := br_Symptoms b;
           br_Firing := br_Firing b; br_Resolved := br_Resolved b; br_Unknown := br_Unknown b;
           br_Total := br_Total b; br_Critical := br_Critical b; br_AnalysisCount := br_AnalysisCount b;
           br_Failed := br_Failed b; br_Pending := br_Pending b; br_Unavailable := br_Unavailable b;
           br_Analyses := br_Analyses b; br_Historical := br_Historical b;
           br_ExpectedJudgment := br_ExpectedJudgment b; br_ExpectedBehavior := br_ExpectedBehavior b;
           br_Work := without_checkpoint (br_Work b) |}) <$> b.

Definition operatorBriefingChanged `{!CanonicalDigest (option OperatorBriefing)} (a b : option OperatorBriefing) : bool :=
  negb (str_eqb (canonicalDigest (briefingMaterialityView a)) (canonicalDigest (briefingMaterialityView b))).

(** ** Findings *)

Definition findAnalysis (b : option OperatorBriefing) (incidentID : string) : option IncidentAnalysis :=
  b ← b; List.find (λ an, str_eqb (an_IncidentID an) incidentID) (br_Analyses b).

Definition analysisHypothesis (a : IncidentAnalysis) : string :=
  if str_eqb (an_Summary a) "" then an_Title a else an_Summary a.

Definition findingFactsOf (a : IncidentAnalysis) : FindingFacts :=
  {| ff_IncidentID := an_IncidentID a;
     ff_Hypothesis := analysisHypothesis a;
     ff_Observations := an_Findings a;
     ff_Unknowns := verificationUnknowns (an_VerificationLimit a) (an_VerificationGaps a);
     ff_AnalyzedAt := an_AnalyzedAt a;
     ff_EvidenceFingerprint := an_EvidenceFingerprint a |}.

Definition markedAsCut (short long : string) : bool :=
  match CutSuffix short "…" with
  | Some cut => negb (str_eqb cut "") && HasPrefix long cut
  | None => false
  end.

Definition sameDisplayedText (x y : string) : bool :=
  let x := normalizeEvidenceText x in
  let y := normalizeEvidenceText y in
  if str_eqb x y then true else markedAsCut x y || markedAsCut y x.

Definition displayBoundedLen (n : nat) : bool :=
  (n =? AnalysisFindingsBound)%nat || (n =? CompletionObservationsBound)%nat.

(** The entries of [short], each against the one of [long] at its index. *)
Fixpoint same_displayed (short long : list string) : bool :=
  match short, long with
  | [], _ => true
  | x :: short, y :: long => sameDisplayedText x y && same_displayed short long
  | _ :: _, [] => false
  end.

Definition sameDisplayedEvidence (old cur : list string) : bool :=
  let '(short, long) := if (length cur <? length old)%nat then (cur, old) else (old, cur) in
  if negb (length short =? length long)%nat && negb (displayBoundedLen (length short)) then false
  else same_displayed short long.

Definition findingStructurallyChanged (old f : option FindingFacts) : bool :=
  match old, f with
  | Some old, Some f =>
      if negb (str_eqb (ff_EvidenceFingerprint old) "") && negb (str_eqb (ff_EvidenceFingerprint f) "")
      then negb (str_eqb (ff_EvidenceFingerprint old) (ff_EvidenceFingerprint f))
      else negb (sameDisplayedEvidence (ff_Observations old) (ff_Observations f))
           || negb (sameDisplayedEvidence (ff_Unknowns old) (ff_Unknowns f))
  | _, _ => true
  end.

(** The finding of the Incident's ended work, else of its analysis. *)
Definition priorKnownFinding (a : option OperatorBriefing) (incidentID : string) : option FindingFacts :=
  a ← a;
  match List.find (λ o, str_eqb (WO_IncidentID o) incidentID && WO_EvidenceKnown o && is_set (WO_Finding o))
          (WP_EndedWork (br_Work a)) with
  | Some o => WO_Finding o
  | None => findingFactsOf <$> findAnalysis (Some a) incidentID
  end.

Definition analysis_changed (prior : option OperatorBriefing) (a : IncidentAnalysis) : bool :=
  negb (str_eqb (an_Summary a) "" && str_eqb (an_Title a) "")
  && findingStructurallyChanged (priorKnownFinding prior (an_IncidentID a)) (Some (findingFactsOf a)).

Definition usefulAnalysisChanged (prior current : option OperatorBriefing) : bool :=
  match current with
  | None => false
  | Some b => existsb (analysis_changed prior) (br_Analyses b)
  end.

Definition candidateFinding (f : FindingFacts) : FindingFacts :=
  {| ff_IncidentID := ff_IncidentID f; ff_Hypothesis := ff_Hypothesis f; ff_Observations := ff_Observations f;
     ff_Unknowns := ff_Unknowns f; ff_AnalyzedAt := ff_AnalyzedAt f; ff_EvidenceFingerprint := "" |}.

(** ** Candidates *)

Definition no_next : NextStepFacts := {| ns_Kind := None; ns_At := None |}.

Definition workNextStep (b : option OperatorBriefing) : NextStepFacts :=
  match b with
  | None => no_next
  | Some b =>
      match WP_RetryEligibleAt (br_Work b), WP_StatusCheckpointAt (br_Work b) with
      | Some t, _ => {| ns_Kind := Some NextStepRetryEligible; ns_At := Some t |}
      | None, Some t => {| ns_Kind := Some NextStepStatusCheck; ns_At := Some t |}
      | None, None => no_next
      end
  end.

Definition candidate (k : CandidateKind) (next : NextStepFacts) : MaterialCandidate :=
  {| mc_Kind := k; mc_Finding := None; mc_Members := None; mc_Limitation := None; mc_Action := None;
     mc_Next := next; mc_Outcome := None |}.
Definition finding_candidate (k : CandidateKind) (f : FindingFacts) (o : option IncidentWorkOutcome) (next : NextStepFacts)
    : MaterialCandidate :=
  {| mc_Kind := k; mc_Finding := Some f; mc_Members := None; mc_Limitation := None; mc_Action := None;
     mc_Next := next; mc_Outcome := o |}.
Definition members_candidate (k : CandidateKind) (m : MemberFacts) (next : NextStepFacts) : MaterialCandidate :=
  {| mc_Kind := k; mc_Finding := None; mc_Members := Some m; mc_Limitation := None; mc_Action := None;
     mc_Next := next; mc_Outcome := None |}.

Definition findingCandidates (a b : option OperatorBriefing) : list MaterialCandidate :=
  match b with
  | None => []
  | Some br =>
      omap (λ an,
        if str_eqb (an_Summary an) "" then None
        else if findingStructurallyChanged (priorKnownFinding a (an_IncidentID an)) (Some (findingFactsOf an))
             then Some (finding_candidate CandidateUsefulFinding (candidateFinding (findingFactsOf an)) None (workNextStep b))
             else None) (br_Analyses br)
  end.

Definition endedWorkKey (o : IncidentWorkOutcome) : string :=
  Join [WO_IncidentID o; WO_AttemptID o; WorkPhase_text (WO_Phase o); WO_ResultCode o; WO_SkipReason o] nul.

Definition without_finding (o : IncidentWorkOutcome) : IncidentWorkOutcome :=
  {| WO_IncidentID := WO_IncidentID o; WO_AttemptID := WO_AttemptID o; WO_Phase := WO_Phase o;
     WO_SkipReason := WO_SkipReason o; WO_ResultCode := WO_ResultCode o; WO_CompletedAt := WO_CompletedAt o;
     WO_EvidenceKnown := WO_EvidenceKnown o; WO_Finding := None |}.

Definition settledWorkCandidate (a b : option OperatorBriefing) (o : IncidentWorkOutcome) : option MaterialCandidate :=
  if negb (str_eqb (WO_ResultCode o) "success") || negb (WO_EvidenceKnown o) then None
  else match WO_Finding o with
       | None => None
       | Some f =>
           if str_eqb (ff_Hypothesis f) "" then
             Some (finding_candidate CandidateInconclusiveCompletion (candidateFinding f)
                     (Some (without_finding o)) (workNextStep b))
           else if is_set (findAnalysis b (WO_IncidentID o)) then None
           else if negb (findingStructurallyChanged (priorKnownFinding a (WO_IncidentID o)) (Some f)) then None
           else Some (finding_candidate CandidateUsefulFinding (candidateFinding f)
                        (Some (without_finding o)) (workNextStep b))
       end.

Definition endedWorkCandidate (a b : option OperatorBriefing) (o : IncidentWorkOutcome) : option MaterialCandidate :=
  match WO_Phase o with
  | WorkPhaseSettled => settledWorkCandidate a b o
  | WorkPhaseExhausted =>
      if existsb (str_eqb (WO_ResultCode o)) ["stale_membership"; "stale_incident_input"; "owner_terminal"] then None
      else Some (finding_candidate CandidateInconclusiveCompletion
                   {| ff_IncidentID := WO_IncidentID o; ff_Hypothesis := ""; ff_Observations := [];
                      ff_Unknowns := []; ff_AnalyzedAt := WO_CompletedAt o; ff_EvidenceFingerprint := "" |}
                   (Some (without_finding o)) (workNextStep b))
  | _ => None
  end.

Definition exhausted (b : OperatorBriefing) : bool := bool_decide (WP_Phase (br_Work b) = Some WorkPhaseExhausted).

Definition legacyExhaustionCandidate (a : option OperatorBriefing) (b : OperatorBriefing) : list MaterialCandidate :=
  if negb (exhausted b) then []
  else if match a with Some a => exhausted a | None => false end then []
  else [candidate CandidateInconclusiveCompletion {| ns_Kind := Some NextStepWorkEnded; ns_At := None |}].

Definition endedWorkCandidates (a b : option OperatorBriefing) : list MaterialCandidate :=
  match a, b with
  | _, None => []
  | Some pa, Some pb =>
      if negb (WP_EndedWorkKnown (br_Work pa)) || negb (WP_EndedWorkKnown (br_Work pb)) then legacyExhaustionCandidate a pb
      else
        let prior := endedWorkKey <$> WP_EndedWork (br_Work pa) in
        omap (λ o,
          if existsb (str_eqb (endedWorkKey o)) prior || negb (str_eqb (WO_SkipReason o) "")
             || str_eqb (WO_AttemptID o) "" || str_eqb (WO_ResultCode o) "" then None
          else endedWorkCandidate a b o) (WP_EndedWork (br_Work pb))
  | None, Some pb => legacyExhaustionCandidate a pb
  end.

Definition attentionRank (a : Attention) : Z :=
  match a with AttentionUrgent => 2 | AttentionInvestigate => 1 | _ => 0 end.

Definition stillFiringNames (b : OperatorBriefing) : list string :=
  al_Name <$> List.filter (λ al, str_eqb (al_State al) "firing") (br_Alerts b).

Definition alerts_by_id (l : list BriefingAlert) : gmap string BriefingAlert :=
  foldl (λ m al, <[al_ID al := al]> m) ∅ l.

Definition alert_delta_step (old : gmap string BriefingAlert) (omitted : Z)
    (acc : bool * list string * list string) (al : BriefingAlert) : bool * list string * list string :=
  let '(changed, cleared, firing) := acc in
  let before := old !! al_ID al in
  let was s := match before with Some p => str_eqb (al_State p) s | None => false end in
  if str_eqb (al_ID al) "" || (negb (is_set before) && (0 <? omitted)%Z) then acc
  else
    let changed := match before with Some p => changed || negb (str_eqb (al_State p) (al_State al)) | None => changed end in
    let cleared := if was "firing" && str_eqb (al_State al) "resolved" then cleared ++ [al_Name al] else cleared in
    if str_eqb (al_State al) "firing" && negb (was "firing") then (true, cleared, firing ++ [al_Name al])
    else (changed, cleared, firing).

Definition briefingAlertDelta (prior current : option OperatorBriefing) : bool * list string * list string :=
  match prior, current with
  | Some p, Some c =>
      match br_Alerts p with
      | [] => (false, [], [])
      | _ =>
          let '(changed, cleared, firing) :=
            foldl (alert_delta_step (alerts_by_id (br_Alerts p)) (br_AlertsOmitted p)) (false, [], []) (br_Alerts c) in
          (changed, sort_strings cleared, sort_strings firing)
      end
  | _, _ => (false, [], [])
  end.

Definition membersChangedCandidate (a : option OperatorBriefing) (b : OperatorBriefing) (priorAttention attention : Attention)
    : option MaterialCandidate :=
  let '(changed, cleared, firing) := briefingAlertDelta a (Some b) in
  let prior_scope := match a with
                     | Some a => if str_eqb (br_Scope a) (br_Scope b) then None else Some (br_Scope a)
                     | None => None
                     end in
  let urgencyIncreased := (attentionRank priorAttention <? attentionRank attention)%Z in
  if negb changed && negb (is_set prior_scope) && negb urgencyIncreased then None
  else Some (members_candidate CandidateMembersChanged
    {| mf_Cleared := cleared; mf_NowFiring := firing; mf_StillFiring := stillFiringNames b;
       mf_FiringCount := br_Firing b; mf_Total := br_Total b; mf_CountKnown := false;
       mf_PreviousScope := default "" prior_scope; mf_Scope := if is_set prior_scope then br_Scope b else "";
       mf_PreviousUrgency := if urgencyIncreased then Attention_text priorAttention else "";
       mf_Urgency := if urgencyIncreased then Attention_text attention else "" |}
    (workNextStep (Some b))).

Definition operatorBlocked (c : ActionContract) : bool :=
  match AC_AlertINTStatus c with
  | Some AlertINTStatusBlocked | Some AlertINTStatusExhausted => true
  | _ => false
  end.

Definition limitation_candidate (b : option OperatorBriefing) (code : string) (cleared : bool) : MaterialCandidate :=
  {| mc_Kind := CandidateAbilityChanged; mc_Finding := None; mc_Members := None;
     mc_Limitation := Some {| lf_Code := code; lf_Cleared := cleared |}; mc_Action := None;
     mc_Next := workNextStep b; mc_Outcome := None |}.

Definition abilityChangedCandidates (a b : option OperatorBriefing) (prior current : ActionContract) : list MaterialCandidate :=
  let priorCode := deref WaitReason_text (AC_WaitReason prior) in
  let code := deref WaitReason_text (AC_WaitReason current) in
  (match operatorBlocked current, operatorBlocked prior with
   | true, false => [limitation_candidate b code false]
   | true, true => if str_eqb code priorCode then [] else [limitation_candidate b code false]
   | false, true => [limitation_candidate b priorCode true]
   | false, false => []
   end) ++
  (match a, b with
   | Some pa, Some pb =>
       if (br_Unavailable pa <? br_Unavailable pb)%Z then [limitation_candidate b LimitationInvestigationUnavailable false]
       else if (0 <? br_Unavailable pa)%Z && (br_Unavailable pb =? 0)%Z
       then [limitation_candidate b LimitationInvestigationUnavailable true] else []
   | _, _ => []
   end).

Definition action_candidate (i r w : bool) (act : OperatorAction) : MaterialCandidate :=
  {| mc_Kind := CandidateActionChanged; mc_Finding := None; mc_Members := None; mc_Limitation := None;
     mc_Action := Some {| af_Introduced := i; af_Revised := r; af_Withdrawn := w; af_Action := act |};
     mc_Next := no_next; mc_Outcome := None |}.

Definition actionChangedCandidate (prior current : option OperatorAction) : option MaterialCandidate :=
  match prior, current with
  | None, Some c => Some (action_candidate true false false c)
  | Some p, None => Some (action_candidate false false true p)
  | Some p, Some c =>
      if str_eqb (OperatorAction_text p) (OperatorAction_text c) then None
      else Some (action_candidate false true false c)
  | None, None => None
  end.

Definition member_facts (cleared firing still : list string) (count : Z) (known : bool) (total : Z) : MemberFacts :=
  {| mf_Cleared := cleared; mf_NowFiring := firing; mf_StillFiring := still; mf_FiringCount := count;
     mf_Total := total; mf_CountKnown := known; mf_PreviousScope := ""; mf_Scope := "";
     mf_PreviousUrgency := ""; mf_Urgency := "" |}.

Definition investigatedInputCount (w : WorkProjection) : Z :=
  if WP_InvestigatedCountKnown w && (0 <? WP_InvestigatedCount w)%Z then WP_InvestigatedCount w else 0%Z.

(** The end of the Situation. *)
Definition terminal_candidates (priorLifecycle lifecycle : Lifecycle) : list MaterialCandidate :=
  if Terminal lifecycle && negb (bool_decide (priorLifecycle = lifecycle))
  then [candidate CandidateTerminalEnd
          {| ns_Kind := Some (if bool_decide (lifecycle = LifecycleClosedUnknown) then NextStepTrackingEnded else NextStepWorkEnded);
             ns_At := None |}]
  else [].

(** The members, by the step of the lifecycle. *)
Definition lifecycle_candidates (a : option OperatorBriefing) (b : OperatorBriefing) (priorLifecycle lifecycle : Lifecycle)
    (priorAttention attention : Attention) : list MaterialCandidate :=
  let '(_, cleared, firing) := briefingAlertDelta a (Some b) in
  if bool_decide (lifecycle = LifecycleRecoveryPending) && negb (bool_decide (priorLifecycle = LifecycleRecoveryPending)) then
    [members_candidate CandidateAllClear (member_facts cleared [] [] (br_Firing b) false (br_Total b))
       {| ns_Kind := Some NextStepGraceDeadline; ns_At := WP_SourceGraceUntil (br_Work b) |}]
  else if bool_decide (priorLifecycle = LifecycleRecoveryPending) && bool_decide (lifecycle = LifecycleActive) then
    [members_candidate CandidateRefire (member_facts [] firing (stillFiringNames b) (br_Firing b) false (br_Total b))
       (workNextStep (Some b))]
  else if bool_decide (lifecycle = LifecycleActive) && bool_decide (priorLifecycle = LifecycleActive) then
    option_list (membersChangedCandidate a b priorAttention attention)
  else [].

Definition first_execution (a : option OperatorBriefing) (b : OperatorBriefing) : list MaterialCandidate :=
  if WP_ExecutionStarted (br_Work b)
     && negb (match a with Some a => WP_ExecutionStarted (br_Work a) | None => false end)
  then let count := investigatedInputCount (br_Work b) in
       [members_candidate CandidateFirstExecutionAssurance
          (member_facts [] (WP_InvestigatedNames (br_Work b)) [] count (0 <? count)%Z (br_Total b))
          (workNextStep (Some b))]
  else [].

Definition MaterialCandidates (prior : option Transition) (tr : Transition) : list MaterialCandidate :=
  match prior, pf_Briefing (tr_Projection tr) with
  | Some p, Some b =>
      let a := pf_Briefing (tr_Projection p) in
      terminal_candidates (tr_Lifecycle p) (tr_Lifecycle tr)
      ++ lifecycle_candidates a b (tr_Lifecycle p) (tr_Lifecycle tr) (tr_Attention p) (tr_Attention tr)
      ++ findingCandidates a (Some b)
      ++ endedWorkCandidates a (Some b)
      ++ abilityChangedCandidates a (Some b) (tr_ActionContract p) (tr_ActionContract tr)
      ++ option_list (actionChangedCandidate (AC_OperatorActionRequired (tr_ActionContract p))
                        (AC_OperatorActionRequired (tr_ActionContract tr)))
      ++ first_execution a b
  | _, _ => []
  end.

(** ** The delta *)

Definition zero_delta : OperatorDelta :=
  {| od_StateChanged := false; od_PreviousFiring := 0; od_PreviousTotal := 0; od_ScopeChanged := false;
     od_PreviousScope := ""; od_SymptomsChanged := false; od_PreviousSymptoms := []; od_ClearedAlerts := [];
     od_NewFiringAlerts := []; od_Analyses := []; od_AnalysisFailed := false; od_AttentionIncreased := false;
     od_HumanRequestChanged := false; od_AbilityLost := false; od_Candidates := [] |}.

Definition state_differs (a b : OperatorBriefing) : bool :=
  negb (br_Firing a =? br_Firing b)%Z || negb (br_Total a =? br_Total b)%Z
  || negb (br_Resolved a =? br_Resolved b)%Z || negb (br_Unknown a =? br_Unknown b)%Z.

Definition human_request_changed (p t : ActionContract) : bool :=
  negb (str_eqb (deref OperatorAction_text (AC_OperatorActionRequired t))
                (deref OperatorAction_text (AC_OperatorActionRequired p))).

Definition ability_lost (p t : ActionContract) : bool := operatorBlocked t && negb (operatorBlocked p).

Definition buildOperatorDelta (prior : option Transition) (tr : Transition) : option OperatorDelta :=
  b ← pf_Briefing (tr_Projection tr);
  Some match prior with
  | None => zero_delta
  | Some p =>
      let oa := pf_Briefing (tr_Projection p) in
      let '(changed, cleared, firing) := briefingAlertDelta oa (Some b) in
      let scope := match oa with Some a => negb (str_eqb (br_Scope a) (br_Scope b)) | None => false end in
      let symptoms := match oa with Some a => negb (bool_decide (br_Symptoms a = br_Symptoms b)) | None => false end in
      {| od_StateChanged := match oa with Some a => state_differs a b || changed | None => false end;
         od_PreviousFiring := match oa with Some a => br_Firing a | None => 0 end;
         od_PreviousTotal := match oa with Some a => br_Total a | None => 0 end;
         od_ScopeChanged := scope;
         od_PreviousScope := match oa with Some a => if scope then br_Scope a else "" | None => "" end;
         od_SymptomsChanged := symptoms;
         od_PreviousSymptoms := match oa with Some a => if symptoms then br_Symptoms a else [] | None => [] end;
         od_ClearedAlerts := cleared;
         od_NewFiringAlerts := firing;
         od_Analyses := List.filter (analysis_changed oa) (br_Analyses b);
         od_AnalysisFailed := match oa with Some a => (br_Failed a <? br_Failed b)%Z | None => false end;
         od_AttentionIncreased := (attentionRank (tr_Attention p) <? attentionRank (tr_Attention tr))%Z;
         od_HumanRequestChanged := human_request_changed (tr_ActionContract p) (tr_ActionContract tr);
         od_AbilityLost := ability_lost (tr_ActionContract p) (tr_ActionContract tr)
                           || match oa with Some a => (br_Unavailable a <? br_Unavailable b)%Z | None => false end;
         od_Candidates := MaterialCandidates prior tr |}
  end.

Definition operatorReplyWarranted (prior : option Transition) (tr : Transition) : bool :=
  if bool_decide (tr_Reason tr = ReasonOperatorArtifactRecorded)
  then negb (str_eqb (TrimSpace (jd_Headline (tr_Journal tr) +:+ jd_Detail (tr_Journal tr))) "")
  else match prior with
  | None => false
  | Some p =>
      let a := pf_Briefing (tr_Projection p) in
      let b := pf_Briefing (tr_Projection tr) in
      negb (bool_decide (tr_Lifecycle tr = tr_Lifecycle p))
      || (attentionRank (tr_Attention p) <? attentionRank (tr_Attention tr))%Z
      || human_request_changed (tr_ActionContract p) (tr_ActionContract tr)
      || ability_lost (tr_ActionContract p) (tr_ActionContract tr)
      || (briefingAlertDelta a b).1.1
      || usefulAnalysisChanged a b
      || match a, b with
         | Some a, Some b =>
             negb (str_eqb (br_Scope a) (br_Scope b)) || negb (bool_decide (br_Symptoms a = br_Symptoms b))
             || state_differs a b
             || (br_Failed a <? br_Failed b)%Z || (br_Unavailable a <? br_Unavailable b)%Z
         | _, _ => false
         end
  end.
