(* ===== verification/Priority.v ===== *)
(** * Interruption priority (internal/situation/priority.go)

    How much a Transition may interrupt, whether it may publish, and which of
    them is a poke on the main channel.  The Slack floor is an [option]: the
    empty text, without a rank, is below every priority. *)

From stdpp Require Import prelude strings list.
From S2P Require Import Prelude SituationModel BriefingModel NotificationModel HistoryModel Material.

Definition reasonCodeCriticalAnchor : string := "critical_anchor".

Definition deterministicCriticalFloor (t : Transition) : bool :=
  match pf_Assessment (tr_Projection t) with
  | Some a => str_eqb (co_SufficientReasonCode a) reasonCodeCriticalAnchor
  | None => false
  end.

Definition urgent (a : Attention) : bool := bool_decide (a = AttentionUrgent).

Definition DeriveInterruptionPriority (t : Transition) : InterruptionPriority :=
  let terminal := Terminal (tr_Lifecycle t) in
  if negb terminal && deterministicCriticalFloor t then InterruptionCritical
  else if negb terminal && urgent (tr_Attention t) then InterruptionHigh
  else if negb terminal && is_set (AC_OperatorActionRequired (tr_ActionContract t)) then InterruptionHigh
  else if bool_decide (tr_Lifecycle t = LifecycleClosedUnknown) then InterruptionHigh
  else if negb terminal && bool_decide (tr_Attention t = AttentionInvestigate)
          && bool_decide (AC_NextActor (tr_ActionContract t) = NextActorAlertINT) then InterruptionMedium
  else InterruptionLow.

Definition PublicationAuthority (t : Transition) : bool :=
  if deterministicCriticalFloor t || urgent (tr_Attention t) then true
  else match pf_Assessment (tr_Projection t) with
       | Some a => negb (str_eqb (TrimSpace (co_SufficientReasonCode a)) "")
       | None => false
       end.

Definition MeetsSlackFloor (priority : InterruptionPriority) (floor : option InterruptionPriority) : bool :=
  match floor with
  | Some floor => negb (InterruptionPriority_Less priority floor)
  | None => true
  end.

Inductive PokeClass : Set :=
| PokeNone
| PokeFirstPublication
| PokeCriticalityCrossed
| PokeUrgentAttention
| PokeOperatorHandoff
| PokeRequiredActionChanged.

#[export] Instance PokeClass_eq_dec : EqDecision PokeClass.
Proof. solve_decision. Defined.

Definition CooldownApplies (c : PokeClass) : bool := bool_decide (c = PokeRequiredActionChanged).

Definition required_action (t : Transition) : option OperatorAction := AC_OperatorActionRequired (tr_ActionContract t).

Definition ClassifyPoke (prior : option Transition) (t : Transition) : PokeClass :=
  if bool_decide (tr_Reason t = ReasonOperatorArtifactRecorded) || bool_decide (tr_Reason t = ReasonRecurrenceMilestone)
  then PokeNone
  else match prior with
  | None => PokeFirstPublication
  | Some p =>
      if Terminal (tr_Lifecycle t) then PokeNone
      else if deterministicCriticalFloor t && negb (deterministicCriticalFloor p) then PokeCriticalityCrossed
      else if urgent (tr_Attention t) && negb (urgent (tr_Attention p)) then PokeUrgentAttention
      else match required_action t, required_action p with
           | Some _, None => PokeOperatorHandoff
           | Some x, Some y =>
               if str_eqb (OperatorAction_text x) (OperatorAction_text y) then PokeNone else PokeRequiredActionChanged
           | None, _ => PokeNone
           end
  end.

Definition HandoffStillCurrent (handoff : Transition) (summary : EpisodeSummary) : bool :=
  if (es_SourceTransitionSequence summary <? tr_Sequence handoff)%Z || is_set (es_TerminalAt summary) then false
  else if (attentionRank (es_CurrentAttention summary) <? attentionRank (tr_Attention handoff))%Z then false
  else match required_action handoff with
       | None => true
       | Some x =>
           match AC_OperatorActionRequired (es_ActionContract summary) with
           | Some y => str_eqb (OperatorAction_text y) (OperatorAction_text x)
           | None => false
           end
       end.
