(* ===== verification/History.v ===== *)
(** * Durable history (internal/situation/history.go)

    The Transitions one reconciliation records, the Episode summary folded over
    them and the orientation of the root.  [canonicalDigest] is an argument at
    each type it is applied to, and so is the name of a Transition (the
    version-5 UUID of the JSON of its identity). *)

From stdpp Require Import prelude strings list gmap pretty.
From S2P Require Import Prelude SituationModel ExpectedBehavior Snapshot Judgment BriefingModel TriageGate NotificationModel HistoryModel Material Priority.

Definition maxHistoryHeadline : nat := 200.
Definition maxHistoryDetail : nat := 2000.
Definition maxHistoryEvidenceRefs : nat := 50.
Definition maxHistoryListEntries : nat := 50.

Definition artifactKindAnnotation : string := "operator_annotation_recorded".
Definition artifactKindVerdict : string := "captured_verdict_recorded".
Definition triagePhaseSkipped : string := "skipped".
Definition DueTriageChanged : string := "triage_changed".

(** ** The change *)

Record OperatorArtifactInput : Type := {
  oa_InputID : string;
  oa_Kind : string;
  oa_AnnotationID : option string;
  oa_VerdictID : option string;
  oa_AppliedInputVersion : Z;
  oa_OccurredAt : Time;
  oa_AttributedActor : string;
  oa_Headline : string;
  oa_Detail : string
}.

(** [ch_Derivation] is [None] for the empty text; the expected-behavior
    evaluation, which no function of the file reads, is left out. *)
Record AuthoritativeChange : Type := {
  ch_Situation : Situation;
  ch_AssessmentID : option string;
  ch_Assessment : Assessment;
  ch_Derivation : option AssessmentDerivation;
  ch_Projection : ProjectionFacts;
  ch_PriorTransition : option Transition;
  ch_PriorSummary : option EpisodeSummary;
  ch_MaterialFactHash : string;
  ch_EvidenceRefs : list string;
  ch_Incidents : list IncidentState;
  ch_TriageDecisions : list TriageDecision;
  ch_RecurrenceCount : Z;
  ch_OperatorArtifacts : list OperatorArtifactInput;
  ch_Drill : bool;
  ch_Now : Time;
  ch_Judgment : option SituationJudgment;
  ch_JudgmentApplicabilityReason : JudgmentApplicabilityReason
}.

Definition validateChange (c : AuthoritativeChange) : result string unit :=
  let s := ch_Situation c in
  guard! negb (str_eqb (TrimSpace (Situation_ID s)) "") else "authoritative change: situation id is required" in
  guard! (1 <=? Situation_InputVersion s)%Z else "authoritative change: input version must be >= 1" in
  guard! negb (str_eqb (TrimSpace (ch_MaterialFactHash c)) "") else "authoritative change: material fact hash is required" in
  guard! negb (IsZero (ch_Now c)) else "authoritative change: now must be a non-zero UTC instant" in
  guard! (0 <=? ch_RecurrenceCount c)%Z else "authoritative change: recurrence count must be >= 0" in
  let? _ := Lifecycle_Validate (Situation_Lifecycle s) in
  let? _ := Attention_Validate (Situation_Attention s) in
  guard! Bool.eqb (Terminal (Situation_Lifecycle s)) (is_set (pf_TerminalAt (ch_Projection c)))
  else "authoritative change: lifecycle and projection terminal_at disagree" in
  let? _ :=
    match Situation_Lifecycle s with
    | LifecycleClosedUnknown =>
        guard! is_set (pf_TerminalReason (ch_Projection c))
        else "authoritative change: closed_unknown requires projection terminal_reason" in Ok tt
    | LifecycleRecovered =>
        guard! negb (is_set (pf_TerminalReason (ch_Projection c)))
        else "authoritative change: recovered must not set projection terminal_reason" in Ok tt
    | _ => Ok tt
    end in
  let? _ := ProjectionFacts_Validate (ch_Projection c) in
  match ch_PriorTransition c with
  | None => Ok tt
  | Some p =>
      guard! str_eqb (tr_SituationID p) (Situation_ID s) else "authoritative change: prior transition belongs to another situation" in
      match ch_PriorSummary c with
      | None => Err "authoritative change: a prior transition requires the prior episode summary"
      | Some e =>
          guard! str_eqb (es_SituationID e) (Situation_ID s) else "authoritative change: prior summary belongs to another situation" in
          Ok tt
      end
  end.

(** ** Texts *)

Definition contractActionStatus (c : ActionContract) : string := deref AlertINTStatus_text (AC_AlertINTStatus c).

Definition contractActionDetail (c : ActionContract) : string :=
  match AC_AlertINTAction c with
  | None => "Next actor: " +:+ NextActor_text (AC_NextActor c)
  | Some a => "AlertINT action: " +:+ AlertINTAction_text a +:+ " (" +:+ contractActionStatus c +:+ ")"
  end.

Definition investigationCurrent (c : ActionContract) : bool :=
  match AC_AlertINTAction c with
  | Some AlertINTActionRunAcuteTriage | Some AlertINTActionRetrySituationAssessment => true
  | _ => false
  end.

Definition journalKindFor (r : TransitionReason) : JournalKind :=
  match r with
  | ReasonFirstAuthoritativeState => JournalPublication
  | ReasonRecovered => JournalRecovered
  | ReasonClosedUnknown => JournalClosedUnknown
  | ReasonRecoveryFailed => JournalRecoveryRefired
  | ReasonRecoveryObserved => JournalRecoveryPending
  | ReasonInvestigationConcluded => JournalEvidenceConclusion
  | ReasonInvestigationStarted => JournalInvestigationStarted
  | ReasonAttentionChanged | ReasonOperatorContractChanged => JournalOperatorContractChanged
  | ReasonRecurrenceMilestone => JournalRecurrenceMilestone
  | _ => JournalInvestigationChanged
  end.

Definition triageJournalText (c : AuthoritativeChange) : string * string :=
  let decided d := List.find (λ t, str_eqb (TD_Decision t) d) (ch_TriageDecisions c) in
  let result a := "Attempt result: " +:+ AR_ResultCode a in
  match decided TriageDecisionSkip with
  | Some d => ("Acute Triage skipped", "Decision: " +:+ TD_DecisionReason d)
  | None =>
      match List.find (λ inc, str_eqb (TS_Phase (Incident_Triage inc)) triagePhaseSkipped) (ch_Incidents c) with
      | Some inc =>
          ("Acute Triage skipped",
           match TS_LatestAttempt (Incident_Triage inc) with
           | Some a => result a
           | None => "Closed as a clean skip before any attempt was claimed; no attempt was consumed."
           end)
      | None =>
          match decided TriageDecisionRequest with
          | Some d => ("Acute Triage requested", "Decision: " +:+ TD_DecisionReason d)
          | None =>
              match omap (λ inc, TS_LatestAttempt (Incident_Triage inc)) (ch_Incidents c) with
              | a :: _ => ("Acute Triage state changed", result a)
              | [] => ("Acute Triage state changed", "")
              end
          end
      end
  end.

Definition journalTextFor (c : AuthoritativeChange) (r : TransitionReason) : string * string :=
  let contract := A_ActionContract (ch_Assessment c) in
  let summary := match pf_Assessment (ch_Projection c) with Some a => co_SufficientReasonSummary a | None => "" end in
  match r with
  | ReasonFirstAuthoritativeState => ("Situation published", summary)
  | ReasonMaterialAssessmentChanged => ("Assessment conclusion changed", summary)
  | ReasonAttentionChanged => ("Attention changed to " +:+ Attention_text (Situation_Attention (ch_Situation c)), summary)
  | ReasonOperatorContractChanged =>
      match AC_OperatorActionRequired contract with
      | Some a => ("Operator action required: " +:+ OperatorAction_text a, summary)
      | None => ("Operator contract changed", summary)
      end
  | ReasonInvestigationStarted => ("AlertINT investigation started", contractActionDetail contract)
  | ReasonInvestigationConcluded => ("AlertINT investigation concluded", summary)
  | ReasonRecoveryObserved => ("Recovery observed; watching for sustained recovery", contractActionDetail contract)
  | ReasonRecoveryFailed => ("Recovery did not hold; the condition refired", contractActionDetail contract)
  | ReasonRecovered => ("Recovered", summary)
  | ReasonClosedUnknown =>
      ("Closed with uncertainty",
       match pf_TerminalReason (ch_Projection c) with
       | Some t => "Terminal reason: " +:+ TerminalReason_text t
       | None => summary
       end)
  | ReasonRecurrenceMilestone =>
      ("Recurrence milestone: " +:+ pretty (ch_RecurrenceCount c) +:+ " occurrences", summary)
  | ReasonTriageStateChanged => triageJournalText c
  | _ => ("Situation state changed", summary)
  end.

(** ** Evidence references *)

Fixpoint distinct_refs (seen : list string) (refs : list string) : list string :=
  match refs with
  | [] => []
  | r :: refs =>
      let r := boundedText (TrimSpace r) maxHistoryIdentifier in
      if str_eqb r "" || existsb (str_eqb r) seen then distinct_refs seen refs
      else r :: distinct_refs (r :: seen) refs
  end.

Definition canonicalRefs (refs : list string) : list string :=
  take maxHistoryEvidenceRefs (sort_strings (distinct_refs [] refs)).

Definition controllerEvidenceRefs (c : AuthoritativeChange) : list string :=
  canonicalRefs (ch_EvidenceRefs c ++ match A_SufficientReason (ch_Assessment c) with Some r => SR_EvidenceRefs r | None => [] end).

(** ** Materiality *)

Record contractTuple : Type := {
  ct_NextActor : string;
  ct_AlertINTAction : string;
  ct_AlertINTStatus : string;
  ct_OperatorAction : string;
  ct_NextUpdateOn : list string;
  ct_WaitReason : string
}.

Record materialTuple : Type := {
  mt_Lifecycle : string;
  mt_Attention : string;
  mt_Contract : string;
  mt_HasAssessment : bool;
  mt_Persistence : string;
  mt_Impact : string;
  mt_Novelty : string;
  mt_Causality : string;
  mt_EvidenceQuality : string;
  mt_LimitationCodes : list string;
  mt_SufficientReason : string;
  mt_RecurrenceMilestone : Z
}.

Definition recurrenceMilestone (count : Z) : Z :=
  if (100 <=? count)%Z then (count ÷ 100 * 100)%Z
  else if (50 <=? count)%Z then 50
  else if (25 <=? count)%Z then 25
  else if (10 <=? count)%Z then 10
  else if (5 <=? count)%Z then 5
  else 0.

Definition Persistence_text (p : Persistence) : string :=
  match p with
  | PersistenceTransient => "transient"
  | PersistenceSustained => "sustained"
  | PersistenceUnknown => "unknown"
  | Persistence_other v => v
  end.
Definition Impact_text (i : Impact) : string :=
  match i with
  | ImpactNoneObserved => "none_observed"
  | ImpactSuspected => "suspected"
  | ImpactConfirmed => "confirmed"
  | ImpactUnknown => "unknown"
  | Impact_other v => v
  end.
Definition Novelty_text (n : Novelty) : string :=
  match n with
  | NoveltyFamiliar => "familiar"
  | NoveltyChanged => "changed"
  | NoveltyNew => "new"
  | NoveltyInsufficientHistory => "insufficient_history"
  | Novelty_other v => v
  end.
Definition Causality_text (c : Causality) : string :=
  match c with
  | CausalitySupported => "supported"
  | CausalityCorrelated => "correlated"
  | CausalityContradicted => "contradicted"
  | CausalityUnknown => "unknown"
  | CausalityOperatorConfirmed => "operator_confirmed"
  | Causality_other v => v
  end.

(** [CoverageLimitationCodes] of observation_coverage.go: sorted, each once. *)
Fixpoint compact (l : list string) : list string :=
  match l with
  | x :: ((y :: _) as l') => if str_eqb x y then compact l' else x :: compact l'
  | _ => l
  end.
Definition CoverageLimitationCodes (p : ProjectionFacts) : list string :=
  compact (sort_strings (concat ((λ l, (λ code, cl_Capability l +:+ ":" +:+ code) <$> cl_Codes l)
                                   <$> pf_CoverageLimitations p))).

Definition triageStateChanged (c : AuthoritativeChange) : bool :=
  negb (length (ch_TriageDecisions c) =? 0)%nat
  || existsb (str_eqb DueTriageChanged) (Situation_DueReasons (ch_Situation c))
  || match ch_PriorTransition c with
     | None => false
     | Some p =>
         let after o := match o with Some t => After t (tr_CreatedAt p) | None => false end in
         existsb (λ inc, after (TS_DecidedAt (Incident_Triage inc))
                         || after (AR_CompletedAt <$> TS_LatestAttempt (Incident_Triage inc))) (ch_Incidents c)
     end.

Record transitionIdentityDTO : Type := {
  ti_SchemaVersion : Z;
  ti_SituationID : string;
  ti_InputVersion : Z;
  ti_Sequence : Z;
  ti_Reason : string;
  ti_Artifact : string
}.

Definition transitionIdentitySchemaVersion : Z := 1.

(** ** Journal entries *)

Definition zero_journal (c : AuthoritativeChange) : JournalData :=
  {| jd_Headline := ""; jd_Detail := ""; jd_AttributedActor := "";
     jd_ActionStatus := contractActionStatus (A_ActionContract (ch_Assessment c)); jd_RecurrenceCount := 0;
     jd_Delayed := false; jd_NoLongerCurrent := false; jd_OccurredAt := ch_Now c;
     jd_JudgmentChange := JudgmentChangeNone; jd_JudgmentValidUntil := None;
     jd_ExpectedBehaviorChange := ExpectedBehaviorChangeNone; jd_ExpectedBehaviorReason := ReasonNone;
     jd_ExpectedBehaviorBoundary := None |}.

Definition text_journal (c : AuthoritativeChange) (headline detail actor : string) (occurredAt : Time) : JournalData :=
  {| jd_Headline := boundedText headline maxHistoryHeadline; jd_Detail := boundedText detail maxHistoryDetail;
     jd_AttributedActor := actor;
     jd_ActionStatus := contractActionStatus (A_ActionContract (ch_Assessment c));
     jd_RecurrenceCount := ch_RecurrenceCount c; jd_Delayed := false; jd_NoLongerCurrent := false;
     jd_OccurredAt := occurredAt; jd_JudgmentChange := JudgmentChangeNone; jd_JudgmentValidUntil := None;
     jd_ExpectedBehaviorChange := ExpectedBehaviorChangeNone; jd_ExpectedBehaviorReason := ReasonNone;
     jd_ExpectedBehaviorBoundary := None |}.

Definition judgment_journal (c : AuthoritativeChange) (change : JudgmentChange) (headline detail actor : string)
    (until : option Time) : JournalData :=
  {| jd_Headline := headline; jd_Detail := detail; jd_AttributedActor := actor;
     jd_ActionStatus := contractActionStatus (A_ActionContract (ch_Assessment c)); jd_RecurrenceCount := 0;
     jd_Delayed := false; jd_NoLongerCurrent := false; jd_OccurredAt := ch_Now c;
     jd_JudgmentChange := change; jd_JudgmentValidUntil := until;
     jd_ExpectedBehaviorChange := ExpectedBehaviorChangeNone; jd_ExpectedBehaviorReason := ReasonNone;
     jd_ExpectedBehaviorBoundary := None |}.

Definition behavior_journal (c : AuthoritativeChange) (current : option ExpectedBehaviorProjection)
    (change : ExpectedBehaviorChange) (headline detail : string) : JournalData :=
  {| jd_Headline := headline; jd_Detail := detail;
     jd_AttributedActor := match current with Some b => bp_AssertedOperator b | None => "" end;
     jd_ActionStatus := contractActionStatus (A_ActionContract (ch_Assessment c)); jd_RecurrenceCount := 0;
     jd_Delayed := false; jd_NoLongerCurrent := false; jd_OccurredAt := ch_Now c;
     jd_JudgmentChange := JudgmentChangeNone; jd_JudgmentValidUntil := None;
     jd_ExpectedBehaviorChange := change;
     jd_ExpectedBehaviorReason := match current with Some b => bp_Reason b | None => ReasonNone end;
     jd_ExpectedBehaviorBoundary := current ≫= bp_Boundary |}.

Definition matched (b : ExpectedBehaviorProjection) : bool := bool_decide (bp_Disposition b = DispositionMatched).

Definition revoked (b : option ExpectedBehaviorProjection) : bool :=
  match b with Some b => bool_decide (bp_Reason b = ReasonRevoked) | None => false end.

Definition expectedBehaviorReasonDetail (r : ExpectedBehaviorReason) (source : string) : string :=
  let ruleName := if str_eqb source "alertmanager" then "Prometheus rule" else "Zabbix rule" in
  match r with
  | ReasonPrimaryDefinitionChanged | ReasonBindingDefinitionChanged => "The " +:+ ruleName +:+ " changed."
  | ReasonDefinitionUnavailable | ReasonObservationUnavailable | ReasonBudgetDeferred => "AlertINT cannot verify the " +:+ ruleName +:+ "."
  | ReasonOutsideSchedule | ReasonStartOutsideTolerance => "The condition is outside the scheduled time."
  | ReasonDurationExceeded => "The condition ran longer than the schedule allows."
  | ReasonRequiredMissing => "A required companion condition is missing."
  | ReasonPrimaryMissing => "Prometheus no longer reports this condition as active."
  | ReasonUnexpectedSymptom => "An unexpected alert is firing."
  | ReasonForbiddenPresent => "A forbidden condition is firing."
  | ReasonUrgent => "The Situation is critical or requires urgent attention."
  | ReasonInvalidated => "The schedule was invalidated by a source change."
  | _ => "The current condition no longer matches the schedule."
  end.

Definition expectedJudgmentInvalidationDetail (c : AuthoritativeChange) : string :=
  match ch_JudgmentApplicabilityReason c with
  | JudgmentUrgent =>
      if match pf_Briefing (ch_Projection c) with Some b => (0 <? br_Critical b)%Z | None => false end
      then "A critical alert is now firing." else "The Situation now requires urgent attention."
  | JudgmentScopeChanged => "The affected scope changed."
  | JudgmentSymptomsChanged => "The active symptoms changed."
  | JudgmentSeverityChanged => "The alert severity changed."
  | JudgmentImpactChanged => "The assessed impact changed."
  | JudgmentSourceSignatureChanged => "The source identity or version changed."
  | JudgmentSourceDefinitionUnavailable => "AlertINT can no longer verify the source rule definition."
  | JudgmentEvidenceMissing => "The evidence needed to keep the decision active is no longer available."
  | JudgmentSituationTerminal => "The Situation ended."
  | _ => "The current condition changed."
  end.

Definition operation_is (j : option SituationJudgment) (op : JudgmentOperation) : bool :=
  match j with Some j => bool_decide (Operation j = op) | None => false end.

(** The entry of an active expected judgment. *)
Definition judgment_active (c : AuthoritativeChange) (cur : ExpectedJudgmentProjection) : JournalData :=
  let entry change headline :=
    judgment_journal c change headline "Monitoring continues." (jp_AssertedOperator cur) (Some (jp_ValidUntil cur)) in
  if operation_is (ch_Judgment c) JudgmentOperationReplace then entry JudgmentChangeReplaced "Expected condition updated"
  else if operation_is (ch_Judgment c) JudgmentOperationRestore then entry JudgmentChangeRestored "Expected condition restored"
  else entry JudgmentChangeRecorded "Current condition marked expected".

(** The entry, and the actor, of one that is active no longer. *)
Definition judgment_ended (c : AuthoritativeChange) (prior : option ExpectedJudgmentProjection) : JournalData * TransitionActor :=
  let until := jp_ValidUntil <$> prior in
  let withdrawn :=
    match prior, ch_Judgment c with
    | Some p, Some j =>
        if bool_decide (Operation j = JudgmentOperationRevoke) && (jp_Revision p <? Revision j)%Z
        then Some (judgment_journal c JudgmentChangeRevoked "Expected-until decision ended" "Normal assessment resumes."
                     (j_AssertedOperator j) None, ActorAttributedOperator)
        else None
    | _, _ => None
    end in
  let lapsed :=
    if bool_decide (ch_JudgmentApplicabilityReason c = JudgmentExpired)
    then judgment_journal c JudgmentChangeExpired "Expected-until deadline reached" "The scheduled end time was reached." "" until
    else judgment_journal c JudgmentChangeInvalidated "Expected-until decision no longer applies"
           (expectedJudgmentInvalidationDetail c) "" until in
  default (lapsed, ActorDeterministicController) withdrawn.

(** The end of an expected schedule: withdrawn by an operator, or stopped. *)
Definition behavior_ended (c : AuthoritativeChange) (p : ExpectedBehaviorProjection) (current : option ExpectedBehaviorProjection)
    : JournalData * TransitionActor :=
  if revoked current
  then (behavior_journal c current ExpectedBehaviorChangeWithdrawn "Expected schedule withdrawn" "", ActorAttributedOperator)
  else
    let source := match current with
                  | Some b => if str_eqb (bp_Source b) "" then bp_Source p else bp_Source b
                  | None => bp_Source p
                  end in
    let reason := match current with Some b => bp_Reason b | None => ReasonNone end in
    (behavior_journal c current ExpectedBehaviorChangeStopped "Expected schedule no longer applies"
       (expectedBehaviorReasonDetail reason source), ActorDeterministicController).

Definition behavior_applied (c : AuthoritativeChange) (prior : option ExpectedBehaviorProjection) (cur : ExpectedBehaviorProjection)
    : JournalData :=
  let entry change headline := behavior_journal c (Some cur) change headline "Monitoring continues." in
  match prior with
  | None => entry ExpectedBehaviorChangeApplied "Expected schedule applied"
  | Some p =>
      if negb (matched p) then entry ExpectedBehaviorChangeRestored "Expected schedule restored"
      else entry ExpectedBehaviorChangeUpdated "Expected schedule updated"
  end.

Definition judgment_of (b : option OperatorBriefing) : option ExpectedJudgmentProjection := b ≫= br_ExpectedJudgment.
Definition behavior_of (b : option OperatorBriefing) : option ExpectedBehaviorProjection := b ≫= br_ExpectedBehavior.

(** ** Building the Transitions *)

Section transitions.
Context `{!CanonicalDigest contractTuple, !CanonicalDigest materialTuple,
          !CanonicalDigest (option ExpectedJudgmentProjection), !CanonicalDigest (option ExpectedBehaviorProjection),
          !CanonicalDigest (list string), !CanonicalDigest (option OperatorBriefing)}
        (identity : transitionIdentityDTO → string).

Definition differs {A} `{!CanonicalDigest A} (a b : A) : bool := negb (str_eqb (canonicalDigest a) (canonicalDigest b)).

Definition operatorContractTuple (c : ActionContract) : string :=
  canonicalDigest
    {| ct_NextActor := NextActor_text (AC_NextActor c);
       ct_AlertINTAction := deref AlertINTAction_text (AC_AlertINTAction c);
       ct_AlertINTStatus := deref AlertINTStatus_text (AC_AlertINTStatus c);
       ct_OperatorAction := deref OperatorAction_text (AC_OperatorActionRequired c);
       ct_NextUpdateOn := sort_strings (NextUpdateOn_text <$> AC_NextUpdateOn c);
       ct_WaitReason := deref WaitReason_text (AC_WaitReason c) |}.

Definition tupleOf (lifecycle attention : string) (contract : ActionContract) (concl : option AssessmentConclusion)
    (recurrence : Z) : materialTuple :=
  let get f := match concl with Some a => f a | None => "" end in
  {| mt_Lifecycle := lifecycle; mt_Attention := attention; mt_Contract := operatorContractTuple contract;
     mt_HasAssessment := is_set concl;
     mt_Persistence := get (λ a, Persistence_text (co_Persistence a));
     mt_Impact := get (λ a, Impact_text (co_Impact a));
     mt_Novelty := get (λ a, Novelty_text (co_Novelty a));
     mt_Causality := get (λ a, Causality_text (co_Causality a));
     mt_EvidenceQuality := get (λ a, EvidenceQuality_text (co_EvidenceQuality a));
     mt_LimitationCodes := match concl with Some a => sort_strings (co_LimitationCodes a) | None => [] end;
     mt_SufficientReason := get co_SufficientReasonCode;
     mt_RecurrenceMilestone := recurrenceMilestone recurrence |}.

Definition currentTuple (c : AuthoritativeChange) : materialTuple :=
  tupleOf (Lifecycle_text (Situation_Lifecycle (ch_Situation c))) (Attention_text (Situation_Attention (ch_Situation c)))
    (A_ActionContract (ch_Assessment c)) (pf_Assessment (ch_Projection c)) (ch_RecurrenceCount c).

Definition priorTuple (c : AuthoritativeChange) (p : Transition) : materialTuple :=
  tupleOf (Lifecycle_text (tr_Lifecycle p)) (Attention_text (tr_Attention p)) (tr_ActionContract p)
    (pf_Assessment (tr_Projection p))
    (match ch_PriorSummary c with Some e => es_RecurrenceCount e | None => 0 end).

Definition zero_contract : ActionContract :=
  {| AC_NextActor := NextActor_other ""; AC_AlertINTAction := None; AC_AlertINTStatus := None;
     AC_OperatorActionRequired := None; AC_NextUpdateAt := None; AC_NextUpdateOn := []; AC_WaitReason := None |}.

Definition conclusionContentChanged (c : AuthoritativeChange) : bool :=
  match ch_PriorTransition c with
  | None => true
  | Some p => differs (tupleOf "" "" zero_contract (pf_Assessment (ch_Projection c)) 0)
                      (tupleOf "" "" zero_contract (pf_Assessment (tr_Projection p)) 0)
  end.

Definition controllerActor (c : AuthoritativeChange) (r : TransitionReason) : TransitionActor :=
  if negb (bool_decide (ch_Derivation c = Some DerivationModelValidated)) then ActorDeterministicController
  else match r with
       | ReasonFirstAuthoritativeState | ReasonMaterialAssessmentChanged | ReasonAttentionChanged => ActorLLM
       | ReasonInvestigationConcluded => if conclusionContentChanged c then ActorLLM else ActorDeterministicController
       | _ => ActorDeterministicController
       end.

Definition expectedJudgmentProjectionChanged (prior current : option OperatorBriefing) : bool :=
  differs (judgment_of prior) (judgment_of current).
Definition expectedBehaviorProjectionChanged (prior current : option OperatorBriefing) : bool :=
  differs (behavior_of prior) (behavior_of current).

Definition expectedJudgmentJournal (c : AuthoritativeChange) : option (JournalData * TransitionActor) :=
  p ← ch_PriorTransition c;
  let pb := pf_Briefing (tr_Projection p) in
  let cb := pf_Briefing (ch_Projection c) in
  if negb (expectedJudgmentProjectionChanged pb cb) then None
  else match judgment_of cb with
       | Some cur => Some (judgment_active c cur, ActorAttributedOperator)
       | None => Some (judgment_ended c (judgment_of pb))
       end.

Definition expectedBehaviorJournal (c : AuthoritativeChange) : option (JournalData * TransitionActor) :=
  p ← ch_PriorTransition c;
  let pb := pf_Briefing (tr_Projection p) in
  let cb := pf_Briefing (ch_Projection c) in
  if negb (expectedBehaviorProjectionChanged pb cb) then None
  else
    let prior := behavior_of pb in
    let current := behavior_of cb in
    let is_matched o := match o with Some b => matched b | None => false end in
    if is_set prior && negb (is_matched prior) && negb (is_matched current) && negb (revoked current) then None
    else match current with
         | Some cur =>
             if matched cur then Some (behavior_applied c prior cur, ActorDeterministicController)
             else (λ p, behavior_ended c p current) <$> prior
         | None => (λ p, behavior_ended c p current) <$> prior
         end.

Definition investigation_starts (c : AuthoritativeChange) (p : Transition) : bool :=
  investigationCurrent (A_ActionContract (ch_Assessment c)) && negb (investigationCurrent (tr_ActionContract p))
  && negb (match ch_PriorSummary c with Some e => es_InvestigationStarted e | None => false end).

Definition lifecycle_is (l : Lifecycle) (x : Lifecycle) : bool := bool_decide (l = x).

(** The reason of the one controller Transition; [None] when nothing the
    operator sees differs. *)
Definition selectControllerReason (c : AuthoritativeChange) : option TransitionReason :=
  match ch_PriorTransition c with
  | None => Some ReasonFirstAuthoritativeState
  | Some p =>
      let current := currentTuple c in
      let previous := priorTuple c p in
      let pb := pf_Briefing (tr_Projection p) in
      let cb := pf_Briefing (ch_Projection c) in
      let triage := triageStateChanged c in
      let coverage := differs (CoverageLimitationCodes (tr_Projection p)) (CoverageLimitationCodes (ch_Projection c)) in
      let now := Situation_Lifecycle (ch_Situation c) in
      let before := tr_Lifecycle p in
      if negb (differs current previous) && negb triage && negb coverage && negb (operatorBriefingChanged pb cb) then None
      else Some (
        if lifecycle_is now LifecycleRecovered then ReasonRecovered
        else if lifecycle_is now LifecycleClosedUnknown then ReasonClosedUnknown
        else if lifecycle_is before LifecycleRecoveryPending && lifecycle_is now LifecycleActive then ReasonRecoveryFailed
        else if lifecycle_is now LifecycleRecoveryPending && negb (lifecycle_is before LifecycleRecoveryPending)
        then ReasonRecoveryObserved
        else if investigationCurrent (tr_ActionContract p) && negb (investigationCurrent (A_ActionContract (ch_Assessment c)))
                && is_set (A_SufficientReason (ch_Assessment c)) then ReasonInvestigationConcluded
        else if investigation_starts c p then ReasonInvestigationStarted
        else if negb (str_eqb (mt_Attention current) (mt_Attention previous)) then ReasonAttentionChanged
        else if expectedJudgmentProjectionChanged pb cb || expectedBehaviorProjectionChanged pb cb
        then ReasonOperatorContractChanged
        else if negb (str_eqb (mt_Contract current) (mt_Contract previous)) then ReasonOperatorContractChanged
        else if negb (mt_RecurrenceMilestone current =? mt_RecurrenceMilestone previous)%Z then ReasonRecurrenceMilestone
        else if triage then ReasonTriageStateChanged
        else ReasonMaterialAssessmentChanged)
  end.

Definition transitionIdentity (situationID : string) (inputVersion sequence : Z) (r : TransitionReason) (artifact : string)
    : string :=
  identity {| ti_SchemaVersion := transitionIdentitySchemaVersion; ti_SituationID := situationID;
              ti_InputVersion := inputVersion; ti_Sequence := sequence; ti_Reason := TransitionReason_text r;
              ti_Artifact := artifact |}.

Definition sufficient_reason_id (a : Assessment) : option string :=
  r ← A_SufficientReason a; if str_eqb (SR_CandidateID r) "" then None else Some (SR_CandidateID r).

Definition newTransition (c : AuthoritativeChange) (sequence : Z) (r : TransitionReason) (artifactInputID : string)
    (kind : JournalKind) (journal : JournalData) (evidence : list string) (actor : TransitionActor) : Transition :=
  {| tr_ID := transitionIdentity (Situation_ID (ch_Situation c)) (Situation_InputVersion (ch_Situation c)) sequence r artifactInputID;
     tr_SituationID := Situation_ID (ch_Situation c);
     tr_Sequence := sequence;
     tr_InputVersion := Situation_InputVersion (ch_Situation c);
     tr_MaterialFactHash := ch_MaterialFactHash c;
     tr_AssessmentID := ch_AssessmentID c;
     tr_Lifecycle := Situation_Lifecycle (ch_Situation c);
     tr_Attention := Situation_Attention (ch_Situation c);
     tr_ActionContract := A_ActionContract (ch_Assessment c);
     tr_SufficientReasonID := sufficient_reason_id (ch_Assessment c);
     tr_InterruptionPriority := None;
     tr_Reason := r;
     tr_JournalKind := kind;
     tr_Journal := journal;
     tr_Projection := ch_Projection c;
     tr_OperatorArtifactInputID := None;
     tr_EvidenceRefs := evidence;
     tr_Actor := actor;
     tr_Drill := ch_Drill c;
     tr_CreatedAt := ch_Now c |}.

Definition with_input_id (t : Transition) (inputID : string) : Transition :=
  {| tr_ID := tr_ID t; tr_SituationID := tr_SituationID t; tr_Sequence := tr_Sequence t;
     tr_InputVersion := tr_InputVersion t; tr_MaterialFactHash := tr_MaterialFactHash t;
     tr_AssessmentID := tr_AssessmentID t; tr_Lifecycle := tr_Lifecycle t; tr_Attention := tr_Attention t;
     tr_ActionContract := tr_ActionContract t; tr_SufficientReasonID := tr_SufficientReasonID t;
     tr_InterruptionPriority := tr_InterruptionPriority t; tr_Reason := tr_Reason t;
     tr_JournalKind := tr_JournalKind t; tr_Journal := tr_Journal t; tr_Projection := tr_Projection t;
     tr_OperatorArtifactInputID := Some inputID; tr_EvidenceRefs := tr_EvidenceRefs t; tr_Actor := tr_Actor t;
     tr_Drill := tr_Drill t; tr_CreatedAt := tr_CreatedAt t |}.

(** The delta against the prior Transition. *)
Definition with_delta (prior : option Transition) (t : Transition) : Transition :=
  let p := tr_Projection t in
  {| tr_ID := tr_ID t; tr_SituationID := tr_SituationID t; tr_Sequence := tr_Sequence t;
     tr_InputVersion := tr_InputVersion t; tr_MaterialFactHash := tr_MaterialFactHash t;
     tr_AssessmentID := tr_AssessmentID t; tr_Lifecycle := tr_Lifecycle t; tr_Attention := tr_Attention t;
     tr_ActionContract := tr_ActionContract t; tr_SufficientReasonID := tr_SufficientReasonID t;
     tr_InterruptionPriority := tr_InterruptionPriority t; tr_Reason := tr_Reason t;
     tr_JournalKind := tr_JournalKind t; tr_Journal := tr_Journal t;
     tr_Projection :=
       {| pf_CoverageLimitations := pf_CoverageLimitations p; pf_OperatorDelta := buildOperatorDelta prior t;
          pf_Briefing := pf_Briefing p; pf_PublicHandle := pf_PublicHandle p;
          pf_EffectiveStartedAt := pf_EffectiveStartedAt p; pf_EffectiveStartedAtBasis := pf_EffectiveStartedAtBasis p;
          pf_RecoveryObservedAt := pf_RecoveryObservedAt p; pf_GraceUntil := pf_GraceUntil p;
          pf_TerminalAt := pf_TerminalAt p; pf_TerminalReason := pf_TerminalReason p;
          pf_Assessment := pf_Assessment p |};
     tr_OperatorArtifactInputID := tr_OperatorArtifactInputID t; tr_EvidenceRefs := tr_EvidenceRefs t;
     tr_Actor := tr_Actor t; tr_Drill := tr_Drill t; tr_CreatedAt := tr_CreatedAt t |}.

(** The priority of a Transition that pokes. *)
Definition with_priority (prior : option Transition) (t : Transition) : Transition :=
  {| tr_ID := tr_ID t; tr_SituationID := tr_SituationID t; tr_Sequence := tr_Sequence t;
     tr_InputVersion := tr_InputVersion t; tr_MaterialFactHash := tr_MaterialFactHash t;
     tr_AssessmentID := tr_AssessmentID t; tr_Lifecycle := tr_Lifecycle t; tr_Attention := tr_Attention t;
     tr_ActionContract := tr_ActionContract t; tr_SufficientReasonID := tr_SufficientReasonID t;
     tr_InterruptionPriority :=
       if bool_decide (ClassifyPoke prior t = PokeNone) then tr_InterruptionPriority t
       else Some (DeriveInterruptionPriority t);
     tr_Reason := tr_Reason t; tr_JournalKind := tr_JournalKind t; tr_Journal := tr_Journal t;
     tr_Projection := tr_Projection t; tr_OperatorArtifactInputID := tr_OperatorArtifactInputID t;
     tr_EvidenceRefs := tr_EvidenceRefs t; tr_Actor := tr_Actor t; tr_Drill := tr_Drill t;
     tr_CreatedAt := tr_CreatedAt t |}.

(** The journal kind and the evidence of an artifact. *)
Definition artifact_evidence (a : OperatorArtifactInput) : result string (JournalKind * list string) :=
  if str_eqb (oa_Kind a) artifactKindAnnotation then
    match oa_AnnotationID a with
    | Some id =>
        guard! negb (str_eqb (TrimSpace id) "") else "operator_annotation_recorded requires an annotation id" in
        guard! negb (is_set (oa_VerdictID a)) else "operator_annotation_recorded must not carry a verdict id" in
        Ok (JournalOperatorNote, ["annotation:" +:+ id])
    | None => Err "operator_annotation_recorded requires an annotation id"
    end
  else if str_eqb (oa_Kind a) artifactKindVerdict then
    match oa_VerdictID a with
    | Some id =>
        guard! negb (str_eqb (TrimSpace id) "") else "captured_verdict_recorded requires a verdict id" in
        guard! negb (is_set (oa_AnnotationID a)) else "captured_verdict_recorded must not carry an annotation id" in
        Ok (JournalCapturedVerdict, ["verdict:" +:+ id])
    | None => Err "captured_verdict_recorded requires a verdict id"
    end
  else Err "unsupported operator artifact kind".

Definition artifactTransition (c : AuthoritativeChange) (a : OperatorArtifactInput) (sequence : Z) : result string Transition :=
  guard! negb (str_eqb (TrimSpace (oa_InputID a)) "") else "input id is required" in
  guard! negb (IsZero (oa_OccurredAt a)) else "occurred_at must be a non-zero UTC instant" in
  let? (kind, evidence) := artifact_evidence a in
  Ok (with_input_id
    (newTransition c sequence ReasonOperatorArtifactRecorded (oa_InputID a) kind
       (text_journal c (oa_Headline a) (oa_Detail a) (boundedText (oa_AttributedActor a) maxHistoryIdentifier) (oa_OccurredAt a))
       evidence ActorAttributedOperator)
    (oa_InputID a)).

(** An expected-behavior entry displaces a judgment's, which displaces the
    controller's own. *)
Definition controller_entry (c : AuthoritativeChange) (r : TransitionReason) : JournalData * TransitionActor :=
  let '(headline, detail) := journalTextFor c r in
  let own := (text_journal c headline detail "" (ch_Now c), controllerActor c r) in
  if bool_decide (r = ReasonOperatorContractChanged)
  then default (default own (expectedJudgmentJournal c)) (expectedBehaviorJournal c)
  else own.

Definition controllerTransition (c : AuthoritativeChange) (r : TransitionReason) (sequence : Z) : Transition :=
  let '(journal, actor) := controller_entry c r in
  with_priority (ch_PriorTransition c)
    (with_delta (ch_PriorTransition c)
       (newTransition c sequence r "" (journalKindFor r) journal (controllerEvidenceRefs c) actor)).

Definition steering_transition (c : AuthoritativeChange) (sequence : Z) (j : JournalData) (actor : TransitionActor) : Transition :=
  with_delta (ch_PriorTransition c)
    (newTransition c sequence ReasonOperatorContractChanged "" JournalOperatorContractChanged j (controllerEvidenceRefs c) actor).

Definition judgmentTransition (c : AuthoritativeChange) (e : JournalData * TransitionActor) (sequence : Z) : Transition :=
  with_priority (ch_PriorTransition c) (steering_transition c sequence e.1 e.2).
Definition expectedBehaviorTransition (c : AuthoritativeChange) (e : JournalData * TransitionActor) (sequence : Z) : Transition :=
  steering_transition c sequence e.1 e.2.

Fixpoint artifact_transitions (c : AuthoritativeChange) (l : list OperatorArtifactInput) (sequence : Z)
    : result string (list Transition) :=
  match l with
  | [] => Ok []
  | a :: l =>
      let? t := artifactTransition c a sequence in
      let? ts := artifact_transitions c l (sequence + 1) in
      Ok (t :: ts)
  end.

Definition base_sequence (c : AuthoritativeChange) : Z :=
  match ch_PriorTransition c with Some p => tr_Sequence p | None => 0 end.

(** The entries a controller Transition of another reason does not carry. *)
Definition steering_transitions (c : AuthoritativeChange) (r : TransitionReason) (sequence : Z) : list Transition :=
  if bool_decide (r = ReasonOperatorContractChanged) then []
  else match expectedBehaviorJournal c, expectedJudgmentJournal c with
       | Some eb, Some ej => [expectedBehaviorTransition c eb sequence; judgmentTransition c ej (sequence + 1)]
       | Some eb, None => [expectedBehaviorTransition c eb sequence]
       | None, Some ej => [judgmentTransition c ej sequence]
       | None, None => []
       end.

Definition controller_transitions (c : AuthoritativeChange) (sequence : Z) : list Transition :=
  match selectControllerReason c with
  | Some r => controllerTransition c r sequence :: steering_transitions c r (sequence + 1)
  | None => []
  end.

Definition BuildTransitions (c : AuthoritativeChange) : result string (list Transition) :=
  let? _ := validateChange c in
  let? artifacts := artifact_transitions c (ch_OperatorArtifacts c) (base_sequence c + 1) in
  let out := artifacts ++ controller_transitions c (base_sequence c + 1 + Z.of_nat (length artifacts)) in
  let? _ := all_validate Transition_Validate out in
  Ok out.
End transitions.
