(* ===== verification/Episode.v ===== *)
(** * Episodes (internal/situation/history.go)

    The Episode summary folded from the Transitions of a Situation in sequence
    order, and the orientation of its root. *)

From stdpp Require Import prelude strings list pretty.
From S2P Require Import Prelude SituationModel BriefingModel NotificationModel HistoryModel Material History.

#[local] Arguments TrimSpace _ : simpl never.
#[local] Arguments boundedText _ _ : simpl never.
#[local] Arguments str_eqb _ _ : simpl never.

(** ** Texts *)

Definition episodeTitle (publicHandle situationID : string) : string :=
  if str_eqb publicHandle "" then boundedText ("Situation " +:+ situationID) maxHistoryHeadline
  else boundedText ("Situation " +:+ publicHandle) maxHistoryHeadline.

Definition investigationEntry (t : Transition) : string :=
  let j := tr_Journal t in
  boundedText (if str_eqb (jd_Detail j) "" then jd_Headline j else jd_Headline j +:+ " — " +:+ jd_Detail j) maxHistoryDetail.

Definition operatorContextEntry (t : Transition) : string :=
  let j := tr_Journal t in
  boundedText (if str_eqb (jd_AttributedActor j) "" then jd_Headline j
               else jd_AttributedActor j +:+ ": " +:+ jd_Headline j) maxHistoryDetail.

(** The last [maxHistoryListEntries] entries; a repeat of the last may collapse. *)
Definition appendBounded (l : list string) (entry : string) (collapseRepeat : bool) : list string :=
  if str_eqb (TrimSpace entry) "" then l
  else if collapseRepeat && match last l with Some e => str_eqb e entry | None => false end then l
  else let l := l ++ [entry] in
       if (maxHistoryListEntries <? length l)%nat then drop (length l - maxHistoryListEntries) l else l.

Definition impactSummary (i : Impact) : string :=
  match i with
  | ImpactConfirmed => "Confirmed impact"
  | ImpactSuspected => "Suspected impact"
  | ImpactNoneObserved => "No impact observed"
  | _ => "Impact unknown"
  end.

Definition finalOutcome (t : Transition) (context : list string) : string :=
  match pf_TerminalReason (tr_Projection t) with
  | Some r => boundedText ("Closed with uncertainty (" +:+ TerminalReason_text r +:+ ")") maxHistoryDetail
  | None =>
      if (length context =? 0)%nat then "Recovered without recorded operator intervention"
      else "Recovered with recorded operator context"
  end.

Definition remainingUncertainty (t : Transition) : string :=
  match pf_TerminalReason (tr_Projection t) with
  | None => ""
  | Some r =>
      let out := "AlertINT could not confirm resolution: " +:+ TerminalReason_text r +:+ "." in
      boundedText
        (match pf_Assessment (tr_Projection t) with
         | Some a =>
             if bool_decide (co_EvidenceQuality a = EvidenceQualityComplete) then out
             else out +:+ " Evidence quality: " +:+ EvidenceQuality_text (co_EvidenceQuality a) +:+ "."
         | None => out
         end) maxHistoryDetail
  end.

(** ** The fold *)

(** A terminal Episode takes only the rest of the commit that ended it. *)
Definition sameTerminalCommit (prior : EpisodeSummary) (t : Transition) : bool :=
  match es_TerminalAt prior, pf_TerminalAt (tr_Projection t) with
  | Some a, Some b => Equal b a && Equal (tr_CreatedAt t) (es_UpdatedAt prior)
  | _, _ => false
  end.

Definition validateFold (prior : EpisodeSummary) (t : Transition) : result string unit :=
  guard! str_eqb (es_SituationID prior) (tr_SituationID t) else "project episode: transition belongs to another situation" in
  guard! negb (is_set (es_TerminalAt prior) && negb (sameTerminalCommit prior t))
  else "project episode: episode is terminal and never reopens" in
  guard! (tr_Sequence t =? es_SourceTransitionSequence prior + 1)%Z
  else "project episode: transition sequence is not contiguous with summary sequence" in
  guard! negb (Before (tr_CreatedAt t) (es_UpdatedAt prior))
  else "project episode: transition precedes summary" in
  Ok tt.

Definition first_summary (t : Transition) : EpisodeSummary :=
  {| es_Briefing := None; es_SituationID := tr_SituationID t; es_PublicHandle := ""; es_Version := 1;
     es_SourceTransitionSequence := 0; es_Title := ""; es_InitialPublicationReason := ""; es_LatestMaterialReason := "";
     es_EvidenceConclusion := ""; es_ImpactSummary := ""; es_InvestigationWork := []; es_InvestigationStarted := false;
     es_CurrentAttention := Attention_other ""; es_PeakAttention := tr_Attention t;
     es_ActionContract := zero_contract; es_RecordedOperatorContext := [];
     es_EffectiveStartedAt := time_zero; es_RecoveryObservedAt := None; es_TerminalAt := None;
     es_DurationSeconds := None; es_RecurrenceCount := 0; es_FinalOutcome := ""; es_RemainingUncertainty := "";
     es_UpdatedAt := time_zero |}.

(** The version and the peak the fold starts from. *)
Definition next_summary (prior : EpisodeSummary) (t : Transition) : EpisodeSummary :=
  {| es_Briefing := es_Briefing prior; es_SituationID := es_SituationID prior; es_PublicHandle := es_PublicHandle prior;
     es_Version := es_Version prior + 1; es_SourceTransitionSequence := es_SourceTransitionSequence prior;
     es_Title := es_Title prior; es_InitialPublicationReason := es_InitialPublicationReason prior;
     es_LatestMaterialReason := es_LatestMaterialReason prior; es_EvidenceConclusion := es_EvidenceConclusion prior;
     es_ImpactSummary := es_ImpactSummary prior; es_InvestigationWork := es_InvestigationWork prior;
     es_InvestigationStarted := es_InvestigationStarted prior; es_CurrentAttention := es_CurrentAttention prior;
     es_PeakAttention := if (attentionRank (es_PeakAttention prior) <? attentionRank (tr_Attention t))%Z
                         then tr_Attention t else es_PeakAttention prior;
     es_ActionContract := es_ActionContract prior; es_RecordedOperatorContext := es_RecordedOperatorContext prior;
     es_EffectiveStartedAt := es_EffectiveStartedAt prior; es_RecoveryObservedAt := es_RecoveryObservedAt prior;
     es_TerminalAt := es_TerminalAt prior; es_DurationSeconds := es_DurationSeconds prior;
     es_RecurrenceCount := es_RecurrenceCount prior; es_FinalOutcome := es_FinalOutcome prior;
     es_RemainingUncertainty := es_RemainingUncertainty prior; es_UpdatedAt := es_UpdatedAt prior |}.

Definition public_handle (base : EpisodeSummary) (t : Transition) : string :=
  match pf_PublicHandle (tr_Projection t) with
  | Some h => if str_eqb h "" then es_PublicHandle base else boundedText h maxHistoryIdentifier
  | None => es_PublicHandle base
  end.

Definition kind_is (t : Transition) (k : JournalKind) : bool := bool_decide (tr_JournalKind t = k).
Definition reason_is (t : Transition) (r : TransitionReason) : bool := bool_decide (tr_Reason t = r).

Definition investigation_work (base : EpisodeSummary) (t : Transition) : list string :=
  if kind_is t JournalInvestigationStarted || kind_is t JournalInvestigationChanged || kind_is t JournalEvidenceConclusion
  then appendBounded (es_InvestigationWork base) (investigationEntry t) true else es_InvestigationWork base.

Definition operator_context (base : EpisodeSummary) (t : Transition) : list string :=
  if kind_is t JournalOperatorNote || kind_is t JournalCapturedVerdict
  then appendBounded (es_RecordedOperatorContext base) (operatorContextEntry t) false else es_RecordedOperatorContext base.

(** Whole seconds, never negative. *)
Definition duration_seconds (started ended : Time) : Z := Z.max 0 (Sub ended started ÷ Second).

Definition fold_transition (base : EpisodeSummary) (t : Transition) : EpisodeSummary :=
  let p := tr_Projection t in
  let handle := public_handle base t in
  let context := operator_context base t in
  {| es_Briefing := match pf_Briefing p with Some b => Some b | None => es_Briefing base end;
     es_SituationID := es_SituationID base;
     es_PublicHandle := handle;
     es_Version := es_Version base;
     es_SourceTransitionSequence := tr_Sequence t;
     es_Title := if str_eqb (es_Title base) "" || reason_is t ReasonFirstAuthoritativeState || is_set (pf_PublicHandle p)
                 then episodeTitle handle (es_SituationID base) else es_Title base;
     es_InitialPublicationReason :=
       if negb (reason_is t ReasonOperatorArtifactRecorded) && str_eqb (es_InitialPublicationReason base) ""
       then TransitionReason_text (tr_Reason t) else es_InitialPublicationReason base;
     es_LatestMaterialReason := TransitionReason_text (tr_Reason t);
     es_EvidenceConclusion :=
       match pf_Assessment p with
       | Some a => if str_eqb (co_SufficientReasonSummary a) "" then es_EvidenceConclusion base
                   else boundedText (co_SufficientReasonSummary a) maxHistoryDetail
       | None => es_EvidenceConclusion base
       end;
     es_ImpactSummary := match pf_Assessment p with Some a => impactSummary (co_Impact a) | None => es_ImpactSummary base end;
     es_InvestigationWork := investigation_work base t;
     es_InvestigationStarted := es_InvestigationStarted base || reason_is t ReasonInvestigationConcluded
                                || kind_is t JournalInvestigationStarted;
     es_CurrentAttention := tr_Attention t;
     es_PeakAttention := es_PeakAttention base;
     es_ActionContract := tr_ActionContract t;
     es_RecordedOperatorContext := context;
     es_EffectiveStartedAt := pf_EffectiveStartedAt p;
     es_RecoveryObservedAt := pf_RecoveryObservedAt p;
     es_TerminalAt := pf_TerminalAt p;
     es_DurationSeconds :=
       match pf_TerminalAt p with
       | Some e => Some (duration_seconds (pf_EffectiveStartedAt p) e)
       | None => es_DurationSeconds base
       end;
     es_RecurrenceCount := Z.max (es_RecurrenceCount base) (jd_RecurrenceCount (tr_Journal t));
     es_FinalOutcome := if is_set (pf_TerminalAt p) then finalOutcome t context else es_FinalOutcome base;
     es_RemainingUncertainty := if is_set (pf_TerminalAt p) then remainingUncertainty t else es_RemainingUncertainty base;
     es_UpdatedAt := tr_CreatedAt t |}.

Definition ProjectEpisode (prior : option EpisodeSummary) (t : Transition) : result string EpisodeSummary :=
  let? _ := Transition_Validate t in
  let? base :=
    match prior with
    | None => Ok (first_summary t)
    | Some e => let? _ := validateFold e t in Ok (next_summary e t)
    end in
  let out := fold_transition base t in
  let? _ := EpisodeSummary_Validate out in
  Ok out.

(** The fold of one commit, and the last summary. *)
Fixpoint project_all (prior : option EpisodeSummary) (l : list Transition) : result string (option EpisodeSummary) :=
  match l with
  | [] => Ok prior
  | t :: l => let? e := ProjectEpisode prior t in project_all (Some e) l
  end.

(** ** Orientation *)

Inductive Orientation : Set :=
| OrientationObserved
| OrientationInvestigating
| OrientationMonitoring
| OrientationConfirmingRecovery
| OrientationRecovered
| OrientationClosedUncertain.

Definition legacyOrientation (summary : EpisodeSummary) (latest : Transition) : Orientation :=
  let c := tr_ActionContract latest in
  let monitoring :=
    match AC_AlertINTAction c, AC_AlertINTStatus c with
    | Some (AlertINTActionMonitorSituation | AlertINTActionVerifyRecovery),
      Some (AlertINTStatusWaiting | AlertINTStatusRunning | AlertINTStatusPlanned) => true
    | _, _ => false
    end in
  if monitoring then OrientationMonitoring
  else if es_InvestigationStarted summary || investigationCurrent c || is_set (AC_OperatorActionRequired c)
  then OrientationInvestigating
  else OrientationObserved.

Definition DeriveOrientation (summary : EpisodeSummary) (latest : Transition) : Orientation :=
  match tr_Lifecycle latest with
  | LifecycleRecovered => OrientationRecovered
  | LifecycleClosedUnknown => OrientationClosedUncertain
  | LifecycleRecoveryPending => OrientationConfirmingRecovery
  | _ =>
      match pf_Briefing (tr_Projection latest) with
      | None => legacyOrientation summary latest
      | Some b =>
          match WP_Phase (br_Work b) with
          | None => legacyOrientation summary latest
          | Some (WorkPhaseExecuting | WorkPhaseRetryWait) => OrientationInvestigating
          | Some (WorkPhaseQueued | WorkPhaseAwaitingDecision) =>
              if WP_ExecutionStarted (br_Work b) then OrientationInvestigating else OrientationObserved
          | Some (WorkPhaseSettled | WorkPhaseExhausted) => OrientationMonitoring
          | Some _ => OrientationObserved
          end
      end
  end.

(** ** Lemmas: the last entries of a list *)

(** The last [n] of a list. *)
Definition lastn {A} (n : nat) (l : list A) : list A := drop (length l - n) l.

Lemma lastn_all {A} n (l : list A) : length l ≤ n → lastn n l = l.
Proof. intros H. unfold lastn. replace (length l - n) with 0 by lia. done. Qed.

Lemma lastn_length {A} n (l : list A) : length (lastn n l) = Nat.min n (length l).
Proof. unfold lastn. rewrite length_drop. lia. Qed.

Lemma lastn_snoc {A} n (l : list A) x : 0 < n → lastn n (lastn n l ++ [x]) = lastn n (l ++ [x]).
Proof.
  intros Hn. unfold lastn. rewrite !length_app, length_drop. cbn [length].
  destruct (decide (length l < n)) as [H|H].
  - replace (length l - n) with 0 by lia. rewrite drop_0. f_equal. lia.
  - rewrite <- drop_app_le by lia. rewrite drop_drop. f_equal. lia.
Qed.

Lemma appendBounded_lastn l entry :
  appendBounded (lastn maxHistoryListEntries l) entry false
  = lastn maxHistoryListEntries (if str_eqb (TrimSpace entry) "" then l else l ++ [entry]).
Proof.
  unfold appendBounded. destruct (str_eqb _ _); [done|]. rewrite andb_false_l.
  rewrite <- (lastn_snoc _ l) by (unfold maxHistoryListEntries; lia).
  destruct (Nat.ltb_spec maxHistoryListEntries (length (lastn maxHistoryListEntries l ++ [entry]))) as [H|H]; [done|].
  symmetry. apply lastn_all. lia.
Qed.

Lemma appendBounded_length l entry b :
  length l ≤ maxHistoryListEntries → length (appendBounded l entry b) ≤ maxHistoryListEntries.
Proof.
  intros H. unfold appendBounded. destruct (str_eqb _ _); [done|]. destruct (_ && _); [done|].
  destruct (Nat.ltb_spec maxHistoryListEntries (length (l ++ [entry]))) as [Hl|Hl]; [|done].
  rewrite length_drop. lia.
Qed.

(** ** What an Episode says of a history

    The abstract specification of the fold: every field of the summary read off
    the whole list of Transitions. *)

Definition note (t : Transition) : bool := kind_is t JournalOperatorNote || kind_is t JournalCapturedVerdict.
Definition starts_investigation (t : Transition) : bool :=
  reason_is t ReasonInvestigationConcluded || kind_is t JournalInvestigationStarted.

(** The entries of the artifacts that say something. *)
Definition recorded_context (ts : list Transition) : list string :=
  omap (λ t, if note t && negb (str_eqb (TrimSpace (operatorContextEntry t)) "") then Some (operatorContextEntry t) else None) ts.

Definition publication_reason (ts : list Transition) : string :=
  match List.filter (λ t, negb (reason_is t ReasonOperatorArtifactRecorded)) ts with
  | t :: _ => TransitionReason_text (tr_Reason t)
  | [] => ""
  end.

(** The entries of the investigation that say something, without immediate
    repeats. *)
Definition works (t : Transition) : bool :=
  kind_is t JournalInvestigationStarted || kind_is t JournalInvestigationChanged || kind_is t JournalEvidenceConclusion.
Definition work_entries (ts : list Transition) : list string :=
  omap (λ t, if works t && negb (str_eqb (TrimSpace (investigationEntry t)) "") then Some (investigationEntry t) else None) ts.

Fixpoint collapsed (l : list string) : list string :=
  match l with
  | [] => []
  | x :: l' => if bool_decide (head l' = Some x) then collapsed l' else x :: collapsed l'
  end.

(** The last of what the Transitions say of something. *)
Definition latest {A} (f : Transition → option A) (ts : list Transition) : option A := last (omap f ts).

Definition named_handle (t : Transition) : option string :=
  match pf_PublicHandle (tr_Projection t) with
  | Some h => if str_eqb h "" then None else Some (boundedText h maxHistoryIdentifier)
  | None => None
  end.
Definition stated_conclusion (t : Transition) : option string :=
  match pf_Assessment (tr_Projection t) with
  | Some a => if str_eqb (co_SufficientReasonSummary a) "" then None else Some (boundedText (co_SufficientReasonSummary a) maxHistoryDetail)
  | None => None
  end.
Definition stated_impact (t : Transition) : option string := (λ a, impactSummary (co_Impact a)) <$> pf_Assessment (tr_Projection t).

(** What the end of a Situation settles, of its last Transition. *)
Record settled (t : Transition) (e : EpisodeSummary) : Prop := {
  st_duration : es_DurationSeconds e = duration_seconds (pf_EffectiveStartedAt (tr_Projection t)) <$> pf_TerminalAt (tr_Projection t);
  st_outcome : es_FinalOutcome e = if is_set (pf_TerminalAt (tr_Projection t)) then finalOutcome t (es_RecordedOperatorContext e) else "";
  st_uncertainty : es_RemainingUncertainty e = if is_set (pf_TerminalAt (tr_Projection t)) then remainingUncertainty t else ""
}.

Record represents (ts : list Transition) (e : EpisodeSummary) : Prop := {
  rp_version : es_Version e = Z.of_nat (length ts);
  rp_last : ∃ t, last ts = Some t ∧ es_SourceTransitionSequence e = tr_Sequence t ∧ es_UpdatedAt e = tr_CreatedAt t
            ∧ es_CurrentAttention e = tr_Attention t ∧ es_ActionContract e = tr_ActionContract t
            ∧ es_TerminalAt e = pf_TerminalAt (tr_Projection t);
  rp_now : ∃ t, last ts = Some t ∧ es_LatestMaterialReason e = TransitionReason_text (tr_Reason t)
           ∧ es_EffectiveStartedAt e = pf_EffectiveStartedAt (tr_Projection t)
           ∧ es_RecoveryObservedAt e = pf_RecoveryObservedAt (tr_Projection t) ∧ settled t e;
  rp_briefing : es_Briefing e = latest (λ t, pf_Briefing (tr_Projection t)) ts;
  rp_handle : es_PublicHandle e = default "" (latest named_handle ts);
  rp_title : es_Title e = episodeTitle (es_PublicHandle e) (es_SituationID e);
  rp_conclusion : es_EvidenceConclusion e = default "" (latest stated_conclusion ts);
  rp_impact : es_ImpactSummary e = default "" (latest stated_impact ts);
  rp_situation : Forall (λ t, tr_SituationID t = es_SituationID e) ts;
  rp_contiguous : ∀ i t, ts !! i = Some t →
                  tr_Sequence t = (es_SourceTransitionSequence e - Z.of_nat (length ts - 1 - i))%Z;
  rp_ordered : Forall (λ t, (tr_CreatedAt t ≤ es_UpdatedAt e)%Z) ts;
  rp_closed : ∀ i j t u a, ts !! i = Some t → ts !! j = Some u → i ≤ j → pf_TerminalAt (tr_Projection t) = Some a →
              pf_TerminalAt (tr_Projection u) = Some a ∧ tr_CreatedAt u = tr_CreatedAt t;
  rp_peak : Forall (λ t, (attentionRank (tr_Attention t) ≤ attentionRank (es_PeakAttention e))%Z) ts
            ∧ Exists (λ t, tr_Attention t = es_PeakAttention e) ts;
  rp_recurrence : (0 ≤ es_RecurrenceCount e)%Z ∧ Forall (λ t, (jd_RecurrenceCount (tr_Journal t) ≤ es_RecurrenceCount e)%Z) ts
                  ∧ (es_RecurrenceCount e = 0%Z ∨ Exists (λ t, jd_RecurrenceCount (tr_Journal t) = es_RecurrenceCount e) ts);
  rp_context : es_RecordedOperatorContext e = lastn maxHistoryListEntries (recorded_context ts);
  rp_work : es_InvestigationWork e = lastn maxHistoryListEntries (collapsed (work_entries ts));
  rp_started : es_InvestigationStarted e = existsb starts_investigation ts;
  rp_published : es_InitialPublicationReason e = publication_reason ts
}.

Lemma collapsed_snoc l x : collapsed (l ++ [x]) = if bool_decide (last l = Some x) then collapsed l else collapsed l ++ [x].
Proof.
  induction l as [|y l IH]; [done|]. change (collapsed ((y :: l) ++ [x])) with
    (if bool_decide (head (l ++ [x]) = Some y) then collapsed (l ++ [x]) else y :: collapsed (l ++ [x])). rewrite IH.
  destruct l as [|z l].
  - change (last [y]) with (Some y). cbn [app head collapsed].
    destruct (decide (x = y)) as [->|Hne]; repeat case_bool_decide; simplify_eq/=; done.
  - change (last (y :: z :: l)) with (last (z :: l)). change (collapsed (y :: z :: l)) with
      (if bool_decide (Some z = Some y) then collapsed (z :: l) else y :: collapsed (z :: l)).
    change (head ((z :: l) ++ [x])) with (Some z). by destruct (bool_decide (Some z = Some y)), (bool_decide (last (z :: l) = Some x)).
Qed.

Lemma last_collapsed l : last (collapsed l) = last l.
Proof.
  induction l as [|x l IH] using rev_ind; [done|]. rewrite collapsed_snoc, last_snoc.
  case_bool_decide as E; [congruence|by rewrite last_snoc].
Qed.

Lemma last_lastn {A} n (l : list A) : 0 < n → last (lastn n l) = last l.
Proof.
  intros Hn. destruct l as [|x l _] using rev_ind; [done|]. unfold lastn. rewrite drop_app_le by (rewrite length_app; cbn; lia).
  by rewrite !last_snoc.
Qed.

Lemma appendBounded_collapsed l entry :
  appendBounded (lastn maxHistoryListEntries (collapsed l)) entry true
  = lastn maxHistoryListEntries (collapsed (if str_eqb (TrimSpace entry) "" then l else l ++ [entry])).
Proof.
  destruct (str_eqb (TrimSpace entry) "") eqn:Eb; [unfold appendBounded; by rewrite Eb|]. rewrite collapsed_snoc.
  pose proof (appendBounded_lastn (collapsed l) entry) as Ha. rewrite Eb in Ha. unfold appendBounded in *. rewrite Eb in *.
  rewrite last_lastn, last_collapsed by (unfold maxHistoryListEntries; lia). cbn in Ha |- *.
  assert (match last l with Some e => str_eqb e entry | None => false end = bool_decide (last l = Some entry)) as ->; [|by case_bool_decide].
  destruct (last l) as [e|]; [|by rewrite bool_decide_eq_false_2]. unfold str_eqb.
  destruct (String.eqb_spec e entry) as [->|Hne]; [by rewrite bool_decide_eq_true_2|]. rewrite bool_decide_eq_false_2; [done|congruence].
Qed.

Lemma TransitionReason_text_set r : TransitionReason_Validate r = Ok tt → str_eqb (TransitionReason_text r) "" = false.
Proof. by destruct r. Qed.

Lemma ProjectEpisode_inv prior t e :
  ProjectEpisode prior t = Ok e →
  transition_ok t
  ∧ e = fold_transition (match prior with Some p => next_summary p t | None => first_summary t end) t
  ∧ match prior with Some p => validateFold p t = Ok tt | None => True end.
Proof.
  unfold ProjectEpisode. intros H. ok_inv H. injection H as <-. destruct a, a1.
  apply Transition_Validate_ok in B. split; [done|].
  destruct prior as [p|]; [|by injection B0 as <-].
  ok_inv B0. destruct a. by injection B0 as <-.
Qed.

Lemma validateFold_ok p t :
  validateFold p t = Ok tt ↔
  es_SituationID p = tr_SituationID t
  ∧ (∀ a, es_TerminalAt p = Some a → pf_TerminalAt (tr_Projection t) = Some a ∧ tr_CreatedAt t = es_UpdatedAt p)
  ∧ tr_Sequence t = (es_SourceTransitionSequence p + 1)%Z ∧ (es_UpdatedAt p ≤ tr_CreatedAt t)%Z.
Proof.
  unfold validateFold. ok_conj. unfold Before.
  rewrite negb_true_iff, negb_true_iff, Z.eqb_eq, Z.ltb_ge.
  assert (str_eqb (es_SituationID p) (tr_SituationID t) = true ↔ es_SituationID p = tr_SituationID t) as -> by apply String.eqb_eq.
  assert (is_set (es_TerminalAt p) && negb (sameTerminalCommit p t) = false ↔
          ∀ a, es_TerminalAt p = Some a → pf_TerminalAt (tr_Projection t) = Some a ∧ tr_CreatedAt t = es_UpdatedAt p) as ->;
    [|tauto].
  unfold sameTerminalCommit. destruct (es_TerminalAt p) as [a|], (pf_TerminalAt (tr_Projection t)) as [b|]; cbn; try naive_solver.
  rewrite negb_false_iff, andb_true_iff. unfold Equal. rewrite !Z.eqb_eq. naive_solver.
Qed.

Lemma settled_fold base t :
  (pf_TerminalAt (tr_Projection t) = None → es_DurationSeconds base = None ∧ es_FinalOutcome base = "" ∧ es_RemainingUncertainty base = "") →
  settled t (fold_transition base t).
Proof.
  intros H. destruct (pf_TerminalAt (tr_Projection t)) as [a|] eqn:E; [|destruct (H eq_refl) as (Hd & Ho & Hu)]; split; cbn; by rewrite E.
Qed.

Lemma represents_first t e : ProjectEpisode None t = Ok e → represents [t] e.
Proof.
  intros (Hok & -> & _)%ProjectEpisode_inv. pose proof (JournalData_ok_recurrence _ (tok_journal _ Hok)) as Hrec.
  pose proof (TransitionReason_text_set _ (tok_reason _ Hok)) as Hreason.
  constructor; try (cbn; done).
  - cbn. eauto 10.
  - exists t. do 4 (split; [done|]). by apply settled_fold.
  - unfold latest. cbn. by destruct (pf_Briefing _).
  - unfold latest, named_handle. cbn. unfold public_handle. destruct (pf_PublicHandle _) as [h|]; [|done]. by destruct (str_eqb h "").
  - unfold latest, stated_conclusion. cbn. destruct (pf_Assessment _) as [a|]; [|done]. by destruct (str_eqb (co_SufficientReasonSummary a) "").
  - unfold latest, stated_impact. cbn. by destruct (pf_Assessment _).
  - cbn. by constructor.
  - intros [|i] u; cbn; [intros [= ->]; lia|done].
  - cbn. by repeat constructor.
  - intros [|i] [|j] u v a; cbn; naive_solver.
  - cbn. split; [by repeat constructor|by left].
  - cbn. split; [lia|]. split; [repeat constructor; lia|]. destruct (Z.max_spec 0 (jd_RecurrenceCount (tr_Journal t))) as [[_ ->]|[_ ->]]; [right; by left|by left].
  - unfold recorded_context. cbn. unfold operator_context. fold (note t). destruct (note t); [|done]. cbn.
    etrans; [exact (appendBounded_lastn [] (operatorContextEntry t))|].
    by destruct (str_eqb (TrimSpace (operatorContextEntry t)) "").
  - unfold work_entries. cbn. unfold investigation_work. fold (works t). destruct (works t); [|done]. cbn.
    etrans; [exact (appendBounded_collapsed [] (investigationEntry t))|].
    by destruct (str_eqb (TrimSpace (investigationEntry t)) "").
  - cbn. unfold starts_investigation. by rewrite orb_false_r.
  - unfold publication_reason. cbn. by destruct (reason_is _ _).
Qed.

Lemma omap_snoc {A B} (f : A → option B) l x : omap f (l ++ [x]) = omap f l ++ option_list (f x).
Proof. induction l as [|y l IH]; cbn; [by destruct (f x)|]. destruct (f y); [|done]. by rewrite <- app_comm_cons, <- IH. Qed.

Lemma latest_snoc {A} (f : Transition → option A) ts t :
  latest f (ts ++ [t]) = match f t with Some x => Some x | None => latest f ts end.
Proof. unfold latest. rewrite omap_snoc. destruct (f t); cbn; [apply last_snoc|by rewrite app_nil_r]. Qed.

Lemma publication_reason_snoc ts t :
  Forall transition_ok ts →
  publication_reason (ts ++ [t]) =
  (if negb (reason_is t ReasonOperatorArtifactRecorded) && str_eqb (publication_reason ts) ""
   then TransitionReason_text (tr_Reason t) else publication_reason ts).
Proof.
  intros Hok. unfold publication_reason. rewrite List.filter_app.
  assert (Forall transition_ok (List.filter (λ t, negb (reason_is t ReasonOperatorArtifactRecorded)) ts)) as Hf.
  { apply Forall_forall. intros u Hu. apply list_elem_of_In, filter_In in Hu as [Hu _].
    rewrite Forall_forall in Hok. apply Hok. by apply list_elem_of_In. }
  destruct (List.filter _ ts) as [|u l]; cbn.
  - by destruct (reason_is t ReasonOperatorArtifactRecorded).
  - apply Forall_cons in Hf as [Hu _]. rewrite (TransitionReason_text_set _ (tok_reason _ Hu)). by rewrite andb_false_r.
Qed.

Lemma existsb_snoc {A} (f : A → bool) l x : existsb f (l ++ [x]) = existsb f l || f x.
Proof. rewrite existsb_app. cbn. by rewrite orb_false_r. Qed.

Section step.
Context (ts : list Transition) (p : EpisodeSummary) (t : Transition) (e : EpisodeSummary).
Context (Hts : Forall transition_ok ts) (Hp : represents ts p) (He : ProjectEpisode (Some p) t = Ok e).

Lemma represents_lookup i u : (ts ++ [t]) !! i = Some u → ts !! i = Some u ∨ i = length ts ∧ u = t.
Proof.
  intros Hi. apply lookup_app_Some in Hi as [Hi|[Hl Hi]]; [by left|right].
  destruct (i - length ts) eqn:E; cbn in Hi; [|done]. injection Hi as ->. split; [lia|done].
Qed.

Lemma represents_closed_step i j u v a :
  (ts ++ [t]) !! i = Some u → (ts ++ [t]) !! j = Some v → i ≤ j → pf_TerminalAt (tr_Projection u) = Some a →
  pf_TerminalAt (tr_Projection v) = Some a ∧ tr_CreatedAt v = tr_CreatedAt u.
Proof.
  intros Hi Hj Hij Ha. destruct (ProjectEpisode_inv _ _ _ He) as (_ & _ & Hv). apply validateFold_ok in Hv as (_ & Hterm & _ & _).
  destruct (rp_last _ _ Hp) as (l & Hl & _ & Hu & _ & _ & Ht).
  apply represents_lookup in Hj as [Hj|[Hj ->]], Hi as [Hi|[Hi ->]].
  - by eapply (rp_closed _ _ Hp i j).
  - apply lookup_lt_Some in Hj. lia.
  - rewrite last_lookup in Hl. destruct (rp_closed _ _ Hp i (pred (length ts)) u l a) as [Hc1 Hc2]; try done.
    { apply lookup_lt_Some in Hi. lia. }
    destruct (Hterm a) as [Hn1 Hn2]; [congruence|]. split; [done|congruence].
  - by split.
Qed.

(** What every Transition says anew, and what only some do. *)
Lemma represents_now_step : ∃ u, last (ts ++ [t]) = Some u ∧ es_LatestMaterialReason e = TransitionReason_text (tr_Reason u)
  ∧ es_EffectiveStartedAt e = pf_EffectiveStartedAt (tr_Projection u)
  ∧ es_RecoveryObservedAt e = pf_RecoveryObservedAt (tr_Projection u) ∧ settled u e.
Proof.
  destruct (ProjectEpisode_inv _ _ _ He) as (_ & -> & Hv). apply validateFold_ok in Hv as (_ & Hterm & _ & _).
  exists t. rewrite last_snoc. do 4 (split; [done|]). apply settled_fold. cbn. intros Ht.
  destruct (rp_now _ _ Hp) as (l & Hl & _ & _ & _ & [-> -> ->]). destruct (rp_last _ _ Hp) as (l' & Hl' & _ & _ & _ & _ & Hend).
  replace l' with l in Hend by congruence. destruct (pf_TerminalAt (tr_Projection l)) as [a|]; [|done].
  destruct (Hterm a Hend) as [? _]. congruence.
Qed.

Lemma represents_said_step :
  es_Briefing e = latest (λ t, pf_Briefing (tr_Projection t)) (ts ++ [t])
  ∧ es_PublicHandle e = default "" (latest named_handle (ts ++ [t]))
  ∧ es_Title e = episodeTitle (es_PublicHandle e) (es_SituationID e)
  ∧ es_EvidenceConclusion e = default "" (latest stated_conclusion (ts ++ [t]))
  ∧ es_ImpactSummary e = default "" (latest stated_impact (ts ++ [t])).
Proof.
  destruct (ProjectEpisode_inv _ _ _ He) as (_ & -> & _). rewrite !latest_snoc. destruct Hp. cbn. split_and!.
  - rewrite rp_briefing0. by destruct (pf_Briefing _).
  - unfold public_handle, named_handle. cbn. destruct (pf_PublicHandle _) as [h|]; [|done]. by destruct (str_eqb h "").
  - destruct (str_eqb (es_Title p) "" || _ || _) eqn:E; [done|]. apply orb_false_iff in E as [_ E]. rewrite rp_title0.
    unfold public_handle. by destruct (pf_PublicHandle _).
  - unfold stated_conclusion. destruct (pf_Assessment _) as [a|]; [|done]. by destruct (str_eqb (co_SufficientReasonSummary a) "").
  - unfold stated_impact. by destruct (pf_Assessment _).
Qed.

Lemma represents_step : represents (ts ++ [t]) e.
Proof.
  destruct represents_said_step as (? & ? & ? & ? & ?). pose proof represents_now_step.
  destruct (ProjectEpisode_inv _ _ _ He) as (Hok & Heq & Hv). apply validateFold_ok in Hv as (Hs & _ & Hseq & Hord).
  pose proof (JournalData_ok_recurrence _ (tok_journal _ Hok)) as Hrec.
  destruct (rp_last _ _ Hp) as (l & Hl & Hls & Hlu & _).
  assert (0 < length ts) as Hlen by (destruct ts; [done|cbn; lia]).
  constructor; try done.
  - rewrite Heq, length_app. cbn. rewrite (rp_version _ _ Hp). lia.
  - exists t. rewrite last_snoc, Heq. done.
  - rewrite Heq. cbn. apply Forall_app. split; [apply (rp_situation _ _ Hp)|by repeat constructor].
  - rewrite Heq, length_app. cbn. intros i u [Hi|[-> ->]]%represents_lookup; [|lia].
    pose proof (lookup_lt_Some _ _ _ Hi). rewrite (rp_contiguous _ _ Hp i u Hi). lia.
  - rewrite Heq. cbn. apply Forall_app. split; [|by repeat constructor].
    eapply Forall_impl; [apply (rp_ordered _ _ Hp)|]. cbn. intros. lia.
  - apply represents_closed_step.
  - rewrite Heq. cbn. destruct (rp_peak _ _ Hp) as [Hmax Hex].
    destruct (Z.ltb_spec (attentionRank (es_PeakAttention p)) (attentionRank (tr_Attention t))) as [Hlt|Hge].
    + split; [|apply Exists_app; right; by left]. apply Forall_app. split; [|by repeat constructor].
      eapply Forall_impl; [exact Hmax|]. cbn. intros. lia.
    + split; [|apply Exists_app; by left]. apply Forall_app. split; [done|by repeat constructor].
  - rewrite Heq. cbn. destruct (rp_recurrence _ _ Hp) as (Hnn & Hmax & Hat). split; [lia|]. split.
    + apply Forall_app. split; [|repeat constructor; lia]. eapply Forall_impl; [exact Hmax|]. cbn. intros. lia.
    + rewrite Exists_app. destruct (Z.max_spec (es_RecurrenceCount p) (jd_RecurrenceCount (tr_Journal t))) as [[_ ->]|[_ ->]]; [right; right; by left|tauto].
  - rewrite Heq. unfold recorded_context. rewrite omap_snoc. fold (recorded_context ts). cbn.
    unfold operator_context. fold (note t). cbn. rewrite (rp_context _ _ Hp).
    destruct (note t); cbn; [|by rewrite app_nil_r]. rewrite appendBounded_lastn.
    destruct (str_eqb _ _); cbn; [by rewrite app_nil_r|done].
  - rewrite Heq. unfold work_entries. rewrite omap_snoc. fold (work_entries ts). cbn.
    unfold investigation_work. fold (works t). cbn. rewrite (rp_work _ _ Hp).
    destruct (works t); cbn; [|by rewrite app_nil_r]. rewrite appendBounded_collapsed.
    destruct (str_eqb _ _); cbn; [by rewrite app_nil_r|done].
  - rewrite Heq, existsb_snoc. cbn. rewrite (rp_started _ _ Hp). unfold starts_investigation. by rewrite orb_assoc.
  - rewrite Heq, publication_reason_snoc by done. cbn. by rewrite (rp_published _ _ Hp).
Qed.
End step.

Lemma project_all_represents ts : ∀ before p e,
  Forall transition_ok before → represents before p → project_all (Some p) ts = Ok (Some e) → represents (before ++ ts) e.
Proof.
  induction ts as [|t ts IH]; cbn; intros before p e Hb Hp H; [injection H as <-; by rewrite app_nil_r|].
  ok_inv H. destruct (ProjectEpisode_inv _ _ _ B) as (Hok & _ & _).
  replace (before ++ t :: ts) with ((before ++ [t]) ++ ts) by (by rewrite <- app_assoc).
  eapply IH; [|by eapply represents_step|exact H]. apply Forall_app. split; [done|by constructor].
Qed.

(** C21. An Episode summary is a function of the Situation's whole history: the
    fold of any Transitions it accepts has as many versions as Transitions, in
    contiguous sequences and ordered instants; the sequence, instant, attention,
    contract, reason, start, recovery, end, duration, outcome and uncertainty of
    the last; the last briefing, handle, conclusion and impact that any of them
    gave, and the title of that handle; the highest attention and recurrence;
    the last fifty operator notes and, without immediate repeats, the last fifty
    entries of the investigation; whether one started, and the reason of the
    first publication.  Once a Transition is terminal every later one repeats
    its end at the same instant: it never reopens. *)
Theorem episode_refines ts e : project_all None ts = Ok (Some e) → represents ts e.
Proof.
  destruct ts as [|t ts]; cbn; [done|]. intros H. ok_inv H. destruct (ProjectEpisode_inv _ _ _ B) as (Hok & _ & _).
  apply (project_all_represents ts [t] a e); [by constructor|by apply represents_first|done].
Qed.

(** ** The fold never rejects a coherent history *)

Lemma episodeTitle_not_blank h sid : str_eqb (TrimSpace (episodeTitle h sid)) "" = false.
Proof.
  apply String.eqb_neq. unfold episodeTitle.
  assert (∀ r, ∃ m, boundedText ("Situation " +:+ r) maxHistoryHeadline = "Situation " +:+ m) as Hb.
  { intros r. apply boundedText_keeps; [reflexivity|]. cbn. unfold maxHistoryHeadline. lia. }
  destruct (str_eqb h ""); edestruct Hb as [m ->]; by apply TrimSpace_not_blank.
Qed.

Lemma str_eqb_blank s : str_eqb (TrimSpace s) "" = false → str_eqb s "" = false.
Proof. intros H. apply String.eqb_neq. intros ->. by vm_compute in H. Qed.

Definition coherent (t : Transition) : Prop := Terminal (tr_Lifecycle t) = is_set (pf_TerminalAt (tr_Projection t)).

Lemma fold_transition_valid base t :
  transition_ok t → coherent t →
  str_eqb (TrimSpace (es_SituationID base)) "" = false → (1 ≤ es_Version base)%Z →
  (es_Title base = "" ∨ str_eqb (TrimSpace (es_Title base)) "" = false) →
  Attention_Validate (es_PeakAttention base) = Ok tt → (0 ≤ es_RecurrenceCount base)%Z →
  match es_DurationSeconds base with Some d => (0 <=? d)%Z | None => true end = true →
  EpisodeSummary_Validate (fold_transition base t) = Ok tt.
Proof.
  intros Hok Hco Hs Hv Ht Hp Hr Hd. apply EpisodeSummary_Validate_ok. cbn.
  pose proof (tok_contract _ Hok) as Hc. rewrite Hco in Hc.
  pose proof (ProjectionFacts_ok_started _ (tok_projection _ Hok)). pose proof (tok_created _ Hok).
  pose proof (tok_sequence _ Hok). pose proof (tok_attention _ Hok).
  repeat split; try done; try lia.
  - destruct (str_eqb (es_Title base) "" || _ || _) eqn:E; [apply episodeTitle_not_blank|].
    destruct Ht as [Ht|Ht]; [|exact Ht]. rewrite Ht, str_eqb_refl in E. discriminate E.
  - destruct (pf_TerminalAt (tr_Projection t)) as [a|]; [|done]. unfold duration_seconds. apply Z.leb_le. lia.
Qed.

Lemma ProjectEpisode_ok prior t :
  transition_ok t → coherent t →
  match prior with Some p => validateFold p t = Ok tt ∧ EpisodeSummary_Validate p = Ok tt | None => True end →
  ∃ e, ProjectEpisode prior t = Ok e ∧ EpisodeSummary_Validate e = Ok tt
       ∧ es_SituationID e = tr_SituationID t ∧ es_SourceTransitionSequence e = tr_Sequence t
       ∧ es_UpdatedAt e = tr_CreatedAt t ∧ es_TerminalAt e = pf_TerminalAt (tr_Projection t)
       ∧ es_Version e = match prior with Some p => es_Version p + 1 | None => 1 end%Z.
Proof.
  intros Hok Hco Hprior.
  exists (fold_transition (match prior with Some p => next_summary p t | None => first_summary t end) t).
  assert (EpisodeSummary_Validate
    (fold_transition (match prior with Some p => next_summary p t | None => first_summary t end) t) = Ok tt) as Hvalid.
  { destruct prior as [p|]; apply fold_transition_valid; try done; cbn; try lia.
    - destruct Hprior as [_ Hp]. apply EpisodeSummary_Validate_ok in Hp. tauto.
    - destruct Hprior as [_ Hp]. apply EpisodeSummary_Validate_ok in Hp. lia.
    - destruct Hprior as [_ Hp]. apply EpisodeSummary_Validate_ok in Hp. tauto.
    - destruct Hprior as [_ Hp]. apply EpisodeSummary_Validate_ok in Hp.
      destruct (_ <? _)%Z; [apply (tok_attention _ Hok)|tauto].
    - destruct Hprior as [_ Hp]. apply EpisodeSummary_Validate_ok in Hp. lia.
    - destruct Hprior as [_ Hp]. apply EpisodeSummary_Validate_ok in Hp. tauto.
    - apply (tok_situation _ Hok).
    - by left.
    - apply (tok_attention _ Hok). }
  unfold ProjectEpisode. rewrite (proj2 (Transition_Validate_ok t) Hok). cbn [res_bind].
  destruct prior as [p|]; cbn [res_bind].
  - destruct Hprior as [Hf _]. rewrite Hf. cbn [res_bind]. rewrite Hvalid. cbn [res_bind].
    apply validateFold_ok in Hf as (Hs & _). done.
  - by rewrite Hvalid.
Qed.

(** What the Transitions of one commit share, and where they stand. *)
Record one_commit (sid : string) (now : Time) (terminal : option Time) (base : Z) (ts : list Transition) : Prop := {
  oc_ok : Forall transition_ok ts;
  oc_coherent : Forall coherent ts;
  oc_shared : Forall (λ t, tr_SituationID t = sid ∧ tr_CreatedAt t = now ∧ pf_TerminalAt (tr_Projection t) = terminal) ts;
  oc_sequence : ∀ i t, ts !! i = Some t → tr_Sequence t = (base + 1 + Z.of_nat i)%Z
}.

Lemma one_commit_tail sid now terminal base t ts :
  one_commit sid now terminal base (t :: ts) → one_commit sid now terminal (base + 1) ts.
Proof.
  intros [H1 H2 H3 H4]. apply Forall_cons in H1 as [_ H1], H2 as [_ H2], H3 as [_ H3]. split; try done.
  intros i u Hi. rewrite (H4 (S i) u Hi). lia.
Qed.

(** The summary a commit may be folded onto. *)
Definition summary_fits (prior : option EpisodeSummary) (sid : string) (now : Time) (terminal : option Time) (base : Z) : Prop :=
  match prior with
  | None => base = 0%Z
  | Some p => EpisodeSummary_Validate p = Ok tt ∧ es_SituationID p = sid ∧ es_SourceTransitionSequence p = base
              ∧ (es_UpdatedAt p ≤ now)%Z ∧ (∀ a, es_TerminalAt p = Some a → terminal = Some a ∧ es_UpdatedAt p = now)
  end.

Definition version_of (e : option EpisodeSummary) : Z := match e with Some e => es_Version e | None => 0 end.

Lemma project_all_total sid now terminal ts : ∀ prior base,
  summary_fits prior sid now terminal base → one_commit sid now terminal base ts →
  ∃ e, project_all prior ts = Ok e
       ∧ summary_fits e sid now terminal (base + Z.of_nat (length ts))
       ∧ version_of e = (version_of prior + Z.of_nat (length ts))%Z.
Proof.
  induction ts as [|t ts IH]; intros prior base Hp Hc.
  { exists prior. cbn. rewrite !Z.add_0_r. done. }
  pose proof (one_commit_tail _ _ _ _ _ _ Hc) as Hc'. destruct Hc as [H1 H2 H3 H4].
  apply Forall_cons in H1 as [H1 _], H2 as [H2 _], H3 as [(Hs & Hn & Ht) _].
  pose proof (H4 0 t eq_refl) as Hseq.
  destruct (ProjectEpisode_ok prior t H1 H2) as (e & He & Hv & Hes & Heq & Heu & Het & Hev).
  { destruct prior as [p|]; [|done]. destruct Hp as (Hpv & Hps & Hpq & Hpu & Hpt). split; [|done].
    apply validateFold_ok. rewrite Hps, Hs, Hn, Ht. repeat split; try done; try lia.
    - by destruct (Hpt a H).
    - by destruct (Hpt a H) as [_ ->]. }
  destruct (IH (Some e) (base + 1)%Z) as (e' & He' & Hf & Hver).
  { cbn. rewrite Hes, Heq, Heu, Het, Hn, Ht. repeat split; try done; lia. }
  { done. }
  exists e'. cbn [project_all length]. rewrite He. cbn [res_bind]. split; [done|]. split.
  - replace (base + Z.of_nat (S (length ts)))%Z with (base + 1 + Z.of_nat (length ts))%Z by lia. done.
  - rewrite Hver. cbn. rewrite Hev. destruct prior; cbn; lia.
Qed.
