(* ===== verification/HistoryFacts.v ===== *)
(** * What a reconciliation records (theorems about History.v)

    The Transitions of a commit are contiguous, valid and of one instant;
    exactly a change the operator could see makes one; and an operator's name
    over the bound stops the Situation's history. *)

From stdpp Require Import prelude strings list pretty sorting.
From S2P Require Import Prelude SituationModel ExpectedBehavior Snapshot Judgment BriefingModel TriageGate NotificationModel HistoryModel Material Priority History Episode.

#[local] Arguments TrimSpace _ : simpl never.
#[local] Arguments boundedText _ _ : simpl never.
#[local] Arguments str_eqb _ _ : simpl never.

(** ** Sorted texts *)

Lemma sort_strings_same l l' : sort_strings l = sort_strings l' ↔ l ≡ₚ l'.
Proof.
  split; [|apply sort_strings_perm]. intros H. rewrite <- (SliceStable_perm str_ltb l), <- (SliceStable_perm str_ltb l').
  unfold sort_strings in H. by rewrite H.
Qed.

Lemma elem_of_compact x l : x ∈ compact l ↔ x ∈ l.
Proof.
  induction l as [|y [|z l] IH]; [done..|].
  change (compact (y :: z :: l)) with (if str_eqb y z then compact (z :: l) else y :: compact (z :: l)). destruct (str_eqb y z) eqn:E.
  - apply String.eqb_eq in E as ->. rewrite IH, !elem_of_cons. tauto.
  - rewrite (elem_of_cons (compact _)), IH. by rewrite (elem_of_cons (z :: l)).
Qed.

Lemma compact_sorted l :
  StronglySorted (λ x y, str_ltb y x = false) l → NoDup (compact l) ∧ StronglySorted (λ x y, str_ltb y x = false) (compact l).
Proof.
  induction 1 as [|x l Hl [IH1 IH2] Hx]; [split; constructor|]. destruct l as [|y l]; [by split; cbn; [apply NoDup_singleton|repeat constructor]|].
  change (compact (x :: y :: l)) with (if str_eqb x y then compact (y :: l) else x :: compact (y :: l)). destruct (str_eqb x y) eqn:E; [done|]. apply String.eqb_neq in E. rewrite Forall_forall in Hx. split.
  - apply NoDup_cons. split; [|done]. rewrite elem_of_compact. intros [->|Hin]%elem_of_cons; [done|].
    apply E, str_ltb_total; [|apply Hx; by left]. apply StronglySorted_inv in Hl as [_ Hy]. rewrite Forall_forall in Hy. by apply Hy.
  - constructor; [done|]. apply Forall_forall. intros z. rewrite elem_of_compact. apply Hx.
Qed.

Lemma compact_same l l' : compact (sort_strings l) = compact (sort_strings l') ↔ ∀ x, x ∈ l ↔ x ∈ l'.
Proof.
  assert (He : ∀ l x, x ∈ compact (sort_strings l) ↔ x ∈ l) by (intros m x; by rewrite elem_of_compact; unfold sort_strings; rewrite SliceStable_perm).
  split; [intros E x; by rewrite <- He, E, He|]. intros H.
  destruct (compact_sorted (sort_strings l)) as [N1 S1]; [apply SliceStable_sorted; apply _|].
  destruct (compact_sorted (sort_strings l')) as [N2 S2]; [apply SliceStable_sorted; apply _|].
  apply (sorted_unique str_ltb); [|done..|].
  - intros x y _ _. apply str_ltb_total.
  - apply NoDup_Permutation; [done..|]. intros x. by rewrite !He.
Qed.

(** Two values the digest does not confuse. *)
Definition separates {A} (d : CanonicalDigest A) (a b : A) : Prop := d a = d b → a = b.

Section facts.
Context `{D1 : !CanonicalDigest contractTuple, D2 : !CanonicalDigest materialTuple,
          D3 : !CanonicalDigest (option ExpectedJudgmentProjection), D4 : !CanonicalDigest (option ExpectedBehaviorProjection),
          D5 : !CanonicalDigest (list string), D6 : !CanonicalDigest (option OperatorBriefing)}
        (identity : transitionIdentityDTO → string).

(** What every Transition of a change copies from it. *)
Record of_change (c : AuthoritativeChange) (sequence : Z) (t : Transition) : Prop := {
  of_id : tr_ID t = transitionIdentity identity (Situation_ID (ch_Situation c)) (Situation_InputVersion (ch_Situation c)) sequence
            (tr_Reason t) (default "" (tr_OperatorArtifactInputID t));
  of_assessment : tr_AssessmentID t = ch_AssessmentID c;
  of_situation : tr_SituationID t = Situation_ID (ch_Situation c);
  of_sequence : tr_Sequence t = sequence;
  of_version : tr_InputVersion t = Situation_InputVersion (ch_Situation c);
  of_lifecycle : tr_Lifecycle t = Situation_Lifecycle (ch_Situation c);
  of_attention : tr_Attention t = Situation_Attention (ch_Situation c);
  of_contract : tr_ActionContract t = A_ActionContract (ch_Assessment c);
  of_created : tr_CreatedAt t = ch_Now c;
  of_briefing : pf_Briefing (tr_Projection t) = pf_Briefing (ch_Projection c);
  of_terminal : pf_TerminalAt (tr_Projection t) = pf_TerminalAt (ch_Projection c)
}.

Lemma artifact_of_change c a s t :
  artifactTransition identity c a s = Ok t →
  of_change c s t ∧ tr_Reason t = ReasonOperatorArtifactRecorded ∧ tr_OperatorArtifactInputID t = Some (oa_InputID a).
Proof.
  unfold artifactTransition. intros H. ok_inv H. destruct a0 as [k ev]. injection H as <-. by repeat constructor.
Qed.

Lemma controllerTransition_of_change c r s :
  of_change c s (controllerTransition identity c r s) ∧ tr_Reason (controllerTransition identity c r s) = r
  ∧ tr_OperatorArtifactInputID (controllerTransition identity c r s) = None
  ∧ tr_Journal (controllerTransition identity c r s) = (controller_entry c r).1.
Proof. unfold controllerTransition. destruct (controller_entry c r) as [j a]. by repeat constructor. Qed.

Lemma steering_of_change c s j a :
  of_change c s (steering_transition identity c s j a)
  ∧ of_change c s (with_priority (ch_PriorTransition c) (steering_transition identity c s j a)).
Proof. by repeat constructor. Qed.

(** The [i]-th of a list, at the sequence [s + i]. *)
Definition numbered (P : Z → Transition → Prop) (s : Z) (ts : list Transition) : Prop :=
  ∀ i t, ts !! i = Some t → P (s + Z.of_nat i)%Z t.

Lemma numbered_cons P s t ts : P s t → numbered P (s + 1) ts → numbered P s (t :: ts).
Proof.
  intros Ht Hts [|i] u; cbn.
  - intros [= <-]. by rewrite Z.add_0_r.
  - intros Hi. replace (s + Z.of_nat (S i))%Z with (s + 1 + Z.of_nat i)%Z by lia. by apply Hts.
Qed.

Lemma numbered_nil P s : numbered P s [].
Proof. intros i t Hi. by rewrite lookup_nil in Hi. Qed.

Lemma numbered_app P s ts us : numbered P s ts → numbered P (s + Z.of_nat (length ts)) us → numbered P s (ts ++ us).
Proof.
  intros Ht Hu i t [Hi|[Hl Hi]]%lookup_app_Some; [by apply Ht|].
  replace (s + Z.of_nat i)%Z with (s + Z.of_nat (length ts) + Z.of_nat (i - length ts))%Z by lia. by apply Hu.
Qed.

Hint Resolve numbered_cons numbered_nil numbered_app : go.

Lemma artifact_transitions_spec c l : ∀ s ts,
  artifact_transitions identity c l s = Ok ts →
  numbered (of_change c) s ts
  ∧ (λ t, (tr_Reason t, tr_OperatorArtifactInputID t)) <$> ts = (λ a, (ReasonOperatorArtifactRecorded, Some (oa_InputID a))) <$> l.
Proof.
  induction l as [|a l IH]; intros s ts; cbn [artifact_transitions].
  { intros [= <-]. split; [apply numbered_nil|done]. }
  intros H. ok_inv H. injection H as <-. apply artifact_of_change in B as (Hc & Hr & Hi).
  destruct (IH _ _ B0) as [IH1 IH2]. split; [by apply numbered_cons|]. cbn. by rewrite Hr, Hi, IH2.
Qed.

Lemma selectControllerReason_not_artifact c r : selectControllerReason c = Some r → r ≠ ReasonOperatorArtifactRecorded.
Proof.
  unfold selectControllerReason. destruct (ch_PriorTransition c); [|by intros [= <-]].
  destruct (_ && _); [done|]. intros [= <-]. repeat case_match; done.
Qed.

Lemma controller_transitions_spec c s :
  numbered (of_change c) s (controller_transitions identity c s)
  ∧ Forall (λ t, tr_Reason t ≠ ReasonOperatorArtifactRecorded ∧ tr_OperatorArtifactInputID t = None) (controller_transitions identity c s)
  ∧ (length (controller_transitions identity c s) ≤ 3)%nat.
Proof.
  unfold controller_transitions. destruct (selectControllerReason c) as [r|] eqn:Er; [|split; [apply numbered_nil|split; [constructor|cbn; lia]]].
  apply selectControllerReason_not_artifact in Er. destruct (controllerTransition_of_change c r s) as (Hc & Hr & Hi & _).
  unfold steering_transitions, expectedBehaviorTransition, judgmentTransition.
  pose proof (λ s j a, proj1 (steering_of_change c s j a)). pose proof (λ s j a, proj2 (steering_of_change c s j a)).
  destruct (bool_decide _); [|destruct (expectedBehaviorJournal c), (expectedJudgmentJournal c)].
  all: split; [repeat apply numbered_cons; auto using numbered_nil|].
  all: split; [repeat constructor; rewrite ?Hr, ?Hi; done|cbn; lia].
Qed.

Lemma validateChange_coherent c :
  validateChange c = Ok tt →
  Terminal (Situation_Lifecycle (ch_Situation c)) = is_set (pf_TerminalAt (ch_Projection c)).
Proof. unfold validateChange. intros H. ok_inv H. by apply Bool.eqb_prop. Qed.

Lemma BuildTransitions_inv c ts :
  BuildTransitions identity c = Ok ts →
  validateChange c = Ok tt ∧ Forall transition_ok ts
  ∧ ∃ arts, artifact_transitions identity c (ch_OperatorArtifacts c) (base_sequence c + 1) = Ok arts
            ∧ ts = arts ++ controller_transitions identity c (base_sequence c + 1 + Z.of_nat (length arts)).
Proof.
  unfold BuildTransitions. intros H. ok_inv H. injection H as <-. destruct a, a1. split; [done|]. split; [|by eexists].
  apply all_validate_ok in B1. eapply Forall_impl; [exact B1|]. intros t. apply Transition_Validate_ok.
Qed.

Lemma BuildTransitions_numbered c ts :
  BuildTransitions identity c = Ok ts → numbered (of_change c) (base_sequence c + 1) ts.
Proof.
  intros (_ & _ & arts & Ha & ->)%BuildTransitions_inv. apply numbered_app.
  - by eapply artifact_transitions_spec.
  - apply controller_transitions_spec.
Qed.

Lemma BuildTransitions_one_commit c ts :
  BuildTransitions identity c = Ok ts →
  one_commit (Situation_ID (ch_Situation c)) (ch_Now c) (pf_TerminalAt (ch_Projection c)) (base_sequence c) ts.
Proof.
  intros H. pose proof (BuildTransitions_numbered _ _ H) as Hn. destruct (BuildTransitions_inv _ _ H) as (Hv & Hok & _).
  split; [done| | |].
  - apply Forall_lookup. intros i t Hi. destruct (Hn i t Hi) as []. red. rewrite of_lifecycle0, of_terminal0.
    by apply validateChange_coherent.
  - apply Forall_lookup. intros i t Hi. by destruct (Hn i t Hi) as [].
  - intros i t Hi. by destruct (Hn i t Hi) as [].
Qed.

Lemma BuildTransitions_artifacts c ts :
  BuildTransitions identity c = Ok ts → omap tr_OperatorArtifactInputID ts = oa_InputID <$> ch_OperatorArtifacts c.
Proof.
  intros (_ & _ & arts & Ha & ->)%BuildTransitions_inv. destruct (artifact_transitions_spec _ _ _ _ Ha) as [_ Hl].
  destruct (controller_transitions_spec c (base_sequence c + 1 + Z.of_nat (length arts))) as (_ & Hc & _).
  rewrite omap_app.
  assert (omap tr_OperatorArtifactInputID (controller_transitions identity c (base_sequence c + 1 + Z.of_nat (length arts))) = []) as ->.
  { clear -Hc. induction Hc as [|t l [_ Ht] _ IH]; cbn; [done|]. by rewrite Ht. }
  rewrite app_nil_r. clear -Hl. revert Hl. generalize (ch_OperatorArtifacts c). induction arts as [|t arts IH]; intros [|a l]; cbn; try done.
  intros [= _ Hi Hl]. rewrite Hi. f_equal. by apply IH.
Qed.

(** The pending artifacts, each once and in order, then the controller's own. *)
Record commit_shape (c : AuthoritativeChange) (ts : list Transition) : Prop := {
  cs_commit : one_commit (Situation_ID (ch_Situation c)) (ch_Now c) (pf_TerminalAt (ch_Projection c)) (base_sequence c) ts;
  cs_artifacts : omap tr_OperatorArtifactInputID ts = oa_InputID <$> ch_OperatorArtifacts c;
  cs_first : Forall (λ t, tr_Reason t = ReasonOperatorArtifactRecorded) (take (length (ch_OperatorArtifacts c)) ts);
  cs_then : Forall (λ t, tr_Reason t ≠ ReasonOperatorArtifactRecorded) (drop (length (ch_OperatorArtifacts c)) ts);
  cs_length : (length ts ≤ length (ch_OperatorArtifacts c) + 3)%nat
}.

(** The Transitions of a commit follow the prior one in contiguous sequences,
    are all valid and of one Situation and instant, and are first the pending
    operator artifacts, each exactly once and in order, then at most three of
    the controller's own, none of which names an artifact. *)
Theorem transitions_of_a_commit c ts : BuildTransitions identity c = Ok ts → commit_shape c ts.
Proof.
  intros H. pose proof (BuildTransitions_one_commit _ _ H) as Hone. pose proof (BuildTransitions_artifacts _ _ H) as Hart.
  destruct (BuildTransitions_inv _ _ H) as (_ & _ & arts & Ha & ->).
  destruct (artifact_transitions_spec _ _ _ _ Ha) as [_ Hl].
  destruct (controller_transitions_spec c (base_sequence c + 1 + Z.of_nat (length arts))) as (_ & Hc & Hlen).
  assert (length arts = length (ch_OperatorArtifacts c)) as Hla by (apply (f_equal length) in Hl; by rewrite !length_fmap in Hl).
  constructor; rewrite <- ?Hla, ?take_app_length, ?drop_app_length, ?length_app; [done|..].
  - exact Hart.
  - clear -Hl. revert Hl. generalize (ch_OperatorArtifacts c). induction arts as [|t arts IH]; intros [|a l]; cbn; try done.
    intros [= Hr _ Hl]. constructor; [done|]. by eapply IH.
  - eapply Forall_impl; [exact Hc|]. by intros ? [].
  - lia.
Qed.

(** ** Materiality *)

Lemma differs_false {A} `{d : !CanonicalDigest A} (a b : A) : separates d a b → differs a b = false ↔ a = b.
Proof.
  intros Hd. unfold differs. rewrite negb_false_iff. split; [|intros ->; apply str_eqb_refl].
  intros H%String.eqb_eq. by apply Hd.
Qed.

(** What the operator is told of a contract: all but when it is updated next. *)
Definition contract_texts (k : ActionContract) : contractTuple :=
  {| ct_NextActor := NextActor_text (AC_NextActor k); ct_AlertINTAction := deref AlertINTAction_text (AC_AlertINTAction k);
     ct_AlertINTStatus := deref AlertINTStatus_text (AC_AlertINTStatus k);
     ct_OperatorAction := deref OperatorAction_text (AC_OperatorActionRequired k);
     ct_NextUpdateOn := sort_strings (NextUpdateOn_text <$> AC_NextUpdateOn k);
     ct_WaitReason := deref WaitReason_text (AC_WaitReason k) |}.

(** No digest confuses what the change is with what the prior Transition says. *)
Record no_collision (c : AuthoritativeChange) (p : Transition) : Prop := {
  nc_tuple : separates D2 (currentTuple c) (priorTuple c p);
  nc_contract : separates D1 (contract_texts (A_ActionContract (ch_Assessment c))) (contract_texts (tr_ActionContract p));
  nc_coverage : separates D5 (CoverageLimitationCodes (tr_Projection p)) (CoverageLimitationCodes (ch_Projection c));
  nc_briefing : separates D6 (briefingMaterialityView (pf_Briefing (tr_Projection p)))
                             (briefingMaterialityView (pf_Briefing (ch_Projection c)))
}.

(** Contracts of the same texts, up to the order of the events waited for. *)
Record same_contract (k l : ActionContract) : Prop := {
  sk_actor : NextActor_text (AC_NextActor k) = NextActor_text (AC_NextActor l);
  sk_action : deref AlertINTAction_text (AC_AlertINTAction k) = deref AlertINTAction_text (AC_AlertINTAction l);
  sk_status : deref AlertINTStatus_text (AC_AlertINTStatus k) = deref AlertINTStatus_text (AC_AlertINTStatus l);
  sk_operator : deref OperatorAction_text (AC_OperatorActionRequired k) = deref OperatorAction_text (AC_OperatorActionRequired l);
  sk_events : NextUpdateOn_text <$> AC_NextUpdateOn k ≡ₚ NextUpdateOn_text <$> AC_NextUpdateOn l;
  sk_wait : deref WaitReason_text (AC_WaitReason k) = deref WaitReason_text (AC_WaitReason l)
}.

(** Conclusions of the same texts, up to the order of the limitations and the
    wording of the reason. *)
Record same_conclusion (a b : AssessmentConclusion) : Prop := {
  sc_persistence : Persistence_text (co_Persistence a) = Persistence_text (co_Persistence b);
  sc_impact : Impact_text (co_Impact a) = Impact_text (co_Impact b);
  sc_novelty : Novelty_text (co_Novelty a) = Novelty_text (co_Novelty b);
  sc_causality : Causality_text (co_Causality a) = Causality_text (co_Causality b);
  sc_quality : EvidenceQuality_text (co_EvidenceQuality a) = EvidenceQuality_text (co_EvidenceQuality b);
  sc_limitations : co_LimitationCodes a ≡ₚ co_LimitationCodes b;
  sc_reason : co_SufficientReasonCode a = co_SufficientReasonCode b
}.

Definition same_optional {A} (R : A → A → Prop) (a b : option A) : Prop :=
  match a, b with Some a, Some b => R a b | None, None => True | _, _ => False end.

(** The counts at which a recurrence is worth telling. *)
Definition milestone (m : Z) : Prop := m ∈ [5; 10; 25; 50]%Z ∨ ∃ k, (1 ≤ k)%Z ∧ m = (100 * k)%Z.
Definition same_milestones (a b : Z) : Prop := ∀ m, milestone m → (m ≤ a ↔ m ≤ b)%Z.

(** Nothing of Acute Triage since the prior Transition. *)
Record triage_at_rest (c : AuthoritativeChange) (p : Transition) : Prop := {
  tr_no_decision : ch_TriageDecisions c = [];
  tr_not_due : DueTriageChanged ∉ Situation_DueReasons (ch_Situation c);
  tr_no_news : ∀ inc, inc ∈ ch_Incidents c →
    (∀ t, TS_DecidedAt (Incident_Triage inc) = Some t → t ≤ tr_CreatedAt p)%Z
    ∧ (∀ a, TS_LatestAttempt (Incident_Triage inc) = Some a → AR_CompletedAt a ≤ tr_CreatedAt p)%Z
}.

(** A limitation code of a capability. *)
Definition limited (f : ProjectionFacts) (s : string) : Prop :=
  ∃ l code, l ∈ pf_CoverageLimitations f ∧ code ∈ cl_Codes l ∧ s = cl_Capability l +:+ ":" +:+ code.

(** A briefing with another checkpoint. *)
Definition with_checkpoint (t : option Time) (b : OperatorBriefing) : OperatorBriefing :=
  let w := br_Work b in
  {| br_Flow := br_Flow b; br_BlockedReason := br_BlockedReason b; br_AssessmentRetryAt := br_AssessmentRetryAt b;
     br_Scope := br_Scope b; br_DisplayScope := br_DisplayScope b; br_Alerts := br_Alerts b;
     br_AlertsOmitted := br_AlertsOmitted b; br_RetryAt := br_RetryAt b; br_Symptoms := br_Symptoms b;
     br_Firing := br_Firing b; br_Resolved := br_Resolved b; br_Unknown := br_Unknown b; br_Total := br_Total b;
     br_Critical := br_Critical b; br_AnalysisCount := br_AnalysisCount b; br_Failed := br_Failed b;
     br_Pending := br_Pending b; br_Unavailable := br_Unavailable b; br_Analyses := br_Analyses b;
     br_Historical := br_Historical b; br_ExpectedJudgment := br_ExpectedJudgment b;
     br_ExpectedBehavior := br_ExpectedBehavior b;
     br_Work := {| WP_Phase := WP_Phase w; WP_ExecutionStarted := WP_ExecutionStarted w;
       WP_InvestigatedAlertIDs := WP_InvestigatedAlertIDs w; WP_InvestigatedNames := WP_InvestigatedNames w;
       WP_InvestigatedCount := WP_InvestigatedCount w; WP_InvestigatedCountKnown := WP_InvestigatedCountKnown w;
       WP_EndedWork := WP_EndedWork w; WP_EndedWorkKnown := WP_EndedWorkKnown w;
       WP_RemainingIncidents := WP_RemainingIncidents w; WP_SkipReason := WP_SkipReason w;
       WP_QueuedEligibleAt := WP_QueuedEligibleAt w; WP_QueuedEligibilityKnown := WP_QueuedEligibilityKnown w;
       WP_RetryEligibleAt := WP_RetryEligibleAt w; WP_SourceGraceUntil := WP_SourceGraceUntil w;
       WP_StatusCheckpointAt := t |} |}.

(** What the operator sees is as the prior Transition recorded it. *)
Record unchanged (c : AuthoritativeChange) (p : Transition) : Prop := {
  un_lifecycle : Lifecycle_text (Situation_Lifecycle (ch_Situation c)) = Lifecycle_text (tr_Lifecycle p);
  un_attention : Attention_text (Situation_Attention (ch_Situation c)) = Attention_text (tr_Attention p);
  un_contract : same_contract (A_ActionContract (ch_Assessment c)) (tr_ActionContract p);
  un_conclusion : same_optional same_conclusion (pf_Assessment (ch_Projection c)) (pf_Assessment (tr_Projection p));
  un_recurrence : same_milestones (ch_RecurrenceCount c) (match ch_PriorSummary c with Some e => es_RecurrenceCount e | None => 0%Z end);
  un_triage : triage_at_rest c p;
  un_coverage : ∀ s, limited (tr_Projection p) s ↔ limited (ch_Projection c) s;
  un_briefing : same_optional (λ b b', ∃ t, b = with_checkpoint t b') (pf_Briefing (tr_Projection p)) (pf_Briefing (ch_Projection c))
}.

Lemma contract_same k l :
  separates D1 (contract_texts k) (contract_texts l) → operatorContractTuple k = operatorContractTuple l ↔ same_contract k l.
Proof.
  intros Hd. change (operatorContractTuple k) with (D1 (contract_texts k)). change (operatorContractTuple l) with (D1 (contract_texts l)). split.
  - intros E%Hd. injection E as ? ? ? ? E ?. by split; [done..|apply sort_strings_same|done].
  - intros [? ? ? ? E%sort_strings_same ?]. f_equal. unfold contract_texts. congruence.
Qed.

Lemma rung_same a b : recurrenceMilestone a = recurrenceMilestone b ↔ same_milestones a b.
Proof.
  assert (Hr : ∀ n m, milestone m → (m ≤ n ↔ m ≤ recurrenceMilestone n)%Z).
  { intros n m Hm. unfold recurrenceMilestone.
    assert (Hv : m ∈ [5; 10; 25; 50]%Z ∨ ∃ k, (1 ≤ k)%Z ∧ m = (100 * k)%Z) by done. rewrite !elem_of_cons, elem_of_nil in Hv.
    destruct (100 <=? n)%Z eqn:E1; [apply Z.leb_le in E1; rewrite Z.quot_div_nonneg by lia; destruct Hv as [Hv|(k & Hk & ->)];
      [assert (1 ≤ n / 100)%Z by (apply Z.div_le_lower_bound; lia); lia|
       split; intros; [assert (k ≤ n / 100)%Z by (apply Z.div_le_lower_bound; lia); lia|pose proof (Z.mul_div_le n 100); lia]]|].
    apply Z.leb_gt in E1. repeat case_match; repeat match goal with H : (_ <=? _)%Z = _ |- _ => first [apply Z.leb_le in H|apply Z.leb_gt in H] end;
      destruct Hv as [Hv|(k & Hk & ->)]; lia. }
  assert (Hm : ∀ n, recurrenceMilestone n = 0%Z ∨ milestone (recurrenceMilestone n)).
  { intros n. unfold recurrenceMilestone. destruct (100 <=? n)%Z eqn:E; [right; right; exists (n ÷ 100)%Z|].
    - apply Z.leb_le in E. rewrite Z.quot_div_nonneg by lia. split; [apply Z.div_le_lower_bound; lia|lia].
    - repeat case_match; try (by left); right; left; rewrite !elem_of_cons; lia. }
  split; [intros E m Hm'; by rewrite (Hr a), (Hr b), E|]. intros Hs.
  assert (Hle : ∀ x y, same_milestones x y → (recurrenceMilestone x ≤ recurrenceMilestone y)%Z).
  { intros x y Hxy. destruct (Hm x) as [->|Hx]; [destruct (Hm y) as [->|[Hy|(k & ? & ->)]]; [lia|rewrite !elem_of_cons, elem_of_nil in Hy; lia|lia]|].
    apply (Hr y); [done|]. apply (Hxy _ Hx). by apply (Hr x). }
  apply Z.le_antisymm; apply Hle; [done|]. intros m Hm'. by rewrite (Hs m Hm').
Qed.

Lemma tuple_same l a k o n l' a' k' o' n' :
  separates D1 (contract_texts k) (contract_texts k') →
  tupleOf l a k o n = tupleOf l' a' k' o' n' ↔
  l = l' ∧ a = a' ∧ same_contract k k' ∧ same_optional same_conclusion o o' ∧ same_milestones n n'.
Proof.
  intros Hd. rewrite <- (contract_same k k' Hd), <- (rung_same n n'). split.
  - unfold tupleOf. intros E. injection E. intros Em Es El Eq Ec En Ei Ep Eh Ek Ea Elc. do 3 (split; [done|]). split; [|done].
    destruct o as [x|], o' as [y|]; cbn in *; try done. by split; [done..|apply sort_strings_same|].
  - intros (-> & -> & Ek & Ho & En). unfold tupleOf. rewrite Ek, En. destruct o as [x|], o' as [y|]; cbn in Ho |- *; try done.
    destruct Ho as [-> -> -> -> -> E%sort_strings_same ->]. by rewrite E.
Qed.

Lemma triage_same c p : ch_PriorTransition c = Some p → triageStateChanged c = false ↔ triage_at_rest c p.
Proof.
  intros Hp. unfold triageStateChanged. rewrite Hp, !orb_false_iff, negb_false_iff, Nat.eqb_eq.
  assert (existsb (str_eqb DueTriageChanged) (Situation_DueReasons (ch_Situation c)) = false
          ↔ DueTriageChanged ∉ Situation_DueReasons (ch_Situation c)) as ->.
  { rewrite <- not_true_iff_false, existsb_exists. f_equiv. split.
    - intros (x & Hx & ->%String.eqb_eq). by apply list_elem_of_In.
    - intros Hx. exists DueTriageChanged. split; [by apply list_elem_of_In|apply str_eqb_refl]. }
  rewrite <- (not_true_iff_false (existsb _ (ch_Incidents c))), existsb_exists. split.
  - intros [[Hl Hd] Hn]. split; [by apply length_zero_iff_nil|done|]. intros inc Hi%list_elem_of_In. split; intros t Ht.
    + apply Z.nlt_ge. intros Hlt. apply Hn. exists inc. rewrite Ht. split; [done|]. apply orb_true_iff. left. by apply Z.ltb_lt.
    + apply Z.nlt_ge. intros Hlt. apply Hn. exists inc. rewrite Ht. split; [done|]. apply orb_true_iff. right. by apply Z.ltb_lt.
  - intros [-> Hd Hn]. split; [by split|]. intros (inc & Hi%list_elem_of_In & H). destruct (Hn inc Hi) as [H1 H2].
    apply orb_true_iff in H as [H|H].
    + destruct (TS_DecidedAt _) as [t|]; [|done]. apply Z.ltb_lt in H. specialize (H1 t eq_refl). lia.
    + destruct (TS_LatestAttempt _) as [t|]; [|done]. cbn in H. apply Z.ltb_lt in H. specialize (H2 t eq_refl). lia.
Qed.

Lemma coverage_same f g : CoverageLimitationCodes f = CoverageLimitationCodes g ↔ ∀ s, limited f s ↔ limited g s.
Proof.
  assert (He : ∀ f s, s ∈ concat ((λ l, (λ code, cl_Capability l +:+ ":" +:+ code) <$> cl_Codes l) <$> pf_CoverageLimitations f) ↔ limited f s).
  { intros h s. rewrite list_elem_of_In, in_concat. unfold limited. split.
    - intros (x & Hx%list_elem_of_In & Hs%list_elem_of_In). apply list_elem_of_fmap in Hx as (l & -> & Hl).
      apply list_elem_of_fmap in Hs as (code & -> & Hc). by exists l, code.
    - intros (l & code & Hl & Hc & ->). eexists. rewrite <- !list_elem_of_In. split; [apply list_elem_of_fmap; by exists l|apply list_elem_of_fmap; by exists code]. }
  unfold CoverageLimitationCodes. rewrite compact_same. by setoid_rewrite He.
Qed.

Lemma briefing_same a b :
  briefingMaterialityView a = briefingMaterialityView b ↔ same_optional (λ b b', ∃ t, b = with_checkpoint t b') a b.
Proof.
  destruct a as [a|], b as [b|]; cbn; try done. split.
  - intros E. exists (WP_StatusCheckpointAt (br_Work a)). destruct a as [], b as []. cbn in *. injection E. intros. subst.
    by destruct br_Work, br_Work0; cbn in *; subst.
  - by intros [t ->].
Qed.

Lemma selectControllerReason_none c p :
  ch_PriorTransition c = Some p → no_collision c p → selectControllerReason c = None ↔ unchanged c p.
Proof.
  intros Hp [H2 H1 H5 H6]. unfold selectControllerReason. rewrite Hp.
  set (quiet := _ && _ && _ && _).
  assert (quiet = true ↔ unchanged c p) as Hq.
  { subst quiet. rewrite !andb_true_iff, !negb_true_iff, (triage_same c p Hp). unfold operatorBriefingChanged.
    rewrite (differs_false _ _ H2), (differs_false _ _ H5), negb_false_iff, coverage_same. unfold currentTuple, priorTuple.
    rewrite tuple_same by done. split.
    - intros [[[(? & ? & ? & ? & ?) ?] ?] E%String.eqb_eq%H6%briefing_same]. by constructor.
    - intros [? ? ? ? ? ? ? Hb%briefing_same]. split_and!; try done. rewrite Hb. apply str_eqb_refl. }
  destruct quiet; [split; [intros _; by apply Hq|done]|]. split; [done|]. intros Hu. by apply Hq in Hu.
Qed.

(** C22. A reconciliation of a Situation with a history adds nothing to it exactly
    when it has no pending operator artifact and nothing the operator sees
    differs from the prior Transition: the lifecycle and the attention; the
    texts of the contract, its deadline apart; the codes of the conclusion, the
    wording of its reason apart; the recurrence, up to the milestones 5, 10, 25,
    50 and the hundreds; the limitations of each capability; every field of the
    briefing but the checkpoint of its work; and Acute Triage, which has decided
    and completed nothing since. *)
Theorem no_history_iff c p :
  ch_PriorTransition c = Some p → no_collision c p → validateChange c = Ok tt →
  BuildTransitions identity c = Ok [] ↔ ch_OperatorArtifacts c = [] ∧ unchanged c p.
Proof.
  intros Hp Hd Hv. rewrite <- (selectControllerReason_none c p Hp Hd). split.
  - intros H. destruct (BuildTransitions_inv _ _ H) as (_ & _ & arts & Ha & Hn).
    symmetry in Hn. apply app_nil in Hn as [-> Hn]. apply artifact_transitions_spec in Ha as [_ Ha].
    split; [by destruct (ch_OperatorArtifacts c)|]. unfold controller_transitions in Hn. by destruct (selectControllerReason c).
  - intros [Ha Hr]. unfold BuildTransitions, controller_transitions. by rewrite Hv, Ha, Hr.
Qed.

(** ** A name over the bound *)

Lemma entry_too_long c r s :
  (maxIdentifierLength < text_length (jd_AttributedActor (controller_entry c r).1))%Z →
  ¬ transition_ok (controllerTransition identity c r s).
Proof.
  intros Hl Hok. destruct (controllerTransition_of_change c r s) as (_ & _ & _ & Hj).
  pose proof (tok_journal _ Hok) as Hv. rewrite Hj in Hv. unfold JournalData_Validate in Hv. ok_inv Hv.
  apply Z.leb_le in G1. lia.
Qed.

Lemma judgment_too_long c e s :
  (maxIdentifierLength < text_length (jd_AttributedActor e.1))%Z →
  ¬ transition_ok (judgmentTransition identity c e s).
Proof.
  intros Hl Hok. pose proof (tok_journal _ Hok) as Hv. cbn in Hv. unfold JournalData_Validate in Hv. ok_inv Hv.
  apply Z.leb_le in G1. lia.
Qed.

Lemma judgment_change_is_material c p :
  separates D6 (briefingMaterialityView (pf_Briefing (tr_Projection p))) (briefingMaterialityView (pf_Briefing (ch_Projection c))) →
  ch_PriorTransition c = Some p →
  expectedJudgmentProjectionChanged (pf_Briefing (tr_Projection p)) (pf_Briefing (ch_Projection c)) = true →
  is_Some (selectControllerReason c).
Proof.
  intros H6 Hp Hch. unfold selectControllerReason. rewrite Hp.
  assert (operatorBriefingChanged (pf_Briefing (tr_Projection p)) (pf_Briefing (ch_Projection c)) = true) as ->.
  { unfold operatorBriefingChanged. apply negb_true_iff, String.eqb_neq. intros He%H6.
    unfold expectedJudgmentProjectionChanged, differs in Hch. apply negb_true_iff, String.eqb_neq in Hch. apply Hch. f_equal.
    destruct (pf_Briefing (tr_Projection p)), (pf_Briefing (ch_Projection c)); cbn in He; try done. by injection He. }
  rewrite andb_false_r. by eexists.
Qed.

(** C25. The name of the operator of an expected judgment has no bound where it is
    recorded, but its journal entry has one: a reconciliation in which a
    judgment with a longer name becomes current fails to derive its history -
    unless the reason of its Transition is the change of the operator's contract
    and an expected-behavior change of the same cycle takes its only entry. *)
Theorem long_operator_blocks_history c p cur :
  separates D6 (briefingMaterialityView (pf_Briefing (tr_Projection p))) (briefingMaterialityView (pf_Briefing (ch_Projection c))) →
  ch_PriorTransition c = Some p →
  judgment_of (pf_Briefing (ch_Projection c)) = Some cur →
  expectedJudgmentProjectionChanged (pf_Briefing (tr_Projection p)) (pf_Briefing (ch_Projection c)) = true →
  expectedBehaviorJournal c = None ∨ selectControllerReason c ≠ Some ReasonOperatorContractChanged →
  (maxIdentifierLength < text_length (jp_AssertedOperator cur))%Z →
  ∃ e, BuildTransitions identity c = Err e.
Proof.
  intros H6 Hp Hcur Hch Hb Hl. destruct (BuildTransitions identity c) as [ts|e] eqn:E; [exfalso|by eexists].
  destruct (BuildTransitions_inv _ _ E) as (_ & Hok & arts & _ & ->).
  apply Forall_app in Hok as [_ Hok]. unfold controller_transitions in Hok.
  destruct (judgment_change_is_material c p H6 Hp Hch) as [r Hr]. rewrite Hr in Hok.
  assert (expectedJudgmentJournal c = Some (judgment_active c cur, ActorAttributedOperator)) as Hj.
  { unfold expectedJudgmentJournal. rewrite Hp. cbn. by rewrite Hch, Hcur. }
  assert (jd_AttributedActor (judgment_active c cur) = jp_AssertedOperator cur) as Ha by (unfold judgment_active; by repeat case_match).
  apply Forall_cons in Hok as [Hok Hrest]. unfold steering_transitions in Hrest. rewrite Hj in Hrest.
  destruct (decide (r = ReasonOperatorContractChanged)) as [->|Hn].
  - destruct Hb as [Hb|Hb]; [|done]. eapply entry_too_long; [|exact Hok]. unfold controller_entry. destruct (journalTextFor c _).
    rewrite bool_decide_true, Hb, Hj by done. cbn. by rewrite Ha.
  - rewrite bool_decide_false in Hrest by done.
    assert (∃ s, transition_ok (judgmentTransition identity c (judgment_active c cur, ActorAttributedOperator) s)) as [s Hs].
    { destruct (expectedBehaviorJournal c); [apply Forall_cons in Hrest as [_ Hrest]|]; apply Forall_cons in Hrest as [Hrest _]; by eexists. }
    eapply judgment_too_long; [|exact Hs]. cbn. by rewrite Ha.
Qed.
End facts.

(** ** An example

    A Situation is published, an operator leaves a note and the urgency of the
    conclusion changes, and it recovers. *)

#[local] Instance ex_contract_digest : CanonicalDigest contractTuple := λ t,
  Join [ct_NextActor t; ct_AlertINTAction t; ct_AlertINTStatus t; ct_OperatorAction t; Join (ct_NextUpdateOn t) ","; ct_WaitReason t] "|".
#[local] Instance ex_tuple_digest : CanonicalDigest materialTuple := λ t,
  Join [mt_Lifecycle t; mt_Attention t; mt_Contract t; mt_Impact t; mt_SufficientReason t; pretty (mt_RecurrenceMilestone t)] "|".
#[local] Instance ex_judgment_digest : CanonicalDigest (option ExpectedJudgmentProjection) := λ j,
  match j with Some j => jp_AssertedOperator j | None => "" end.
#[local] Instance ex_behavior_digest : CanonicalDigest (option ExpectedBehaviorProjection) := λ b,
  match b with Some b => bp_EnvelopeID b | None => "" end.
#[local] Instance ex_codes_digest : CanonicalDigest (list string) := λ l, Join l ",".
#[local] Instance ex_briefing_digest : CanonicalDigest (option OperatorBriefing) := λ b,
  match b with
  | Some b => Join [br_Scope b; pretty (br_Firing b); canonicalDigest (br_ExpectedJudgment b); canonicalDigest (br_ExpectedBehavior b)] "|"
  | None => "none"
  end.
Definition ex_identity (d : transitionIdentityDTO) : string := "transition-" +:+ pretty (ti_Sequence d).

Definition ex_work : WorkProjection :=
  {| WP_Phase := Some WorkPhaseSettled; WP_ExecutionStarted := true; WP_InvestigatedAlertIDs := []; WP_InvestigatedNames := [];
     WP_InvestigatedCount := 0; WP_InvestigatedCountKnown := false; WP_EndedWork := []; WP_EndedWorkKnown := true;
     WP_RemainingIncidents := 0; WP_SkipReason := ""; WP_QueuedEligibleAt := None; WP_QueuedEligibilityKnown := false;
     WP_RetryEligibleAt := None; WP_SourceGraceUntil := None; WP_StatusCheckpointAt := None |}.

Definition ex_briefing (firing : Z) (judgment : option ExpectedJudgmentProjection) : OperatorBriefing :=
  {| br_Flow := None; br_BlockedReason := ""; br_AssessmentRetryAt := None; br_Scope := "checkout"; br_DisplayScope := "checkout";
     br_Alerts := []; br_AlertsOmitted := 0; br_RetryAt := None; br_Symptoms := ["errors"]; br_Firing := firing;
     br_Resolved := 0; br_Unknown := 0; br_Total := 2; br_Critical := 0; br_AnalysisCount := 0; br_Failed := 0;
     br_Pending := 0; br_Unavailable := 0; br_Analyses := []; br_Historical := false; br_ExpectedJudgment := judgment;
     br_ExpectedBehavior := None; br_Work := ex_work |}.

Definition ex_contract (terminal : bool) (next : Time) : ActionContract :=
  {| AC_NextActor := NextActorAlertINT; AC_AlertINTAction := Some AlertINTActionMonitorSituation;
     AC_AlertINTStatus := Some AlertINTStatusWaiting; AC_OperatorActionRequired := None;
     AC_NextUpdateAt := if terminal then None else Some next; AC_NextUpdateOn := [];
     AC_WaitReason := if terminal then None else Some WaitReasonSourceChange |}.

Definition ex_change (lifecycle : Lifecycle) (attention : Attention) (now : Time) (briefing : OperatorBriefing)
    (artifacts : list OperatorArtifactInput) (p : option Transition) (e : option EpisodeSummary) : AuthoritativeChange :=
  let terminal := Terminal lifecycle in
  let contract := ex_contract terminal (now + Minute)%Z in
  {| ch_Situation := {| Situation_ID := "S"; Situation_GroupKey := "g"; Situation_Lifecycle := lifecycle;
       Situation_Attention := attention; Situation_InputVersion := 1; Situation_DueReasons := [];
       EffectiveStartedAt := Minute; EffectiveStartedAtBasis := SourceTimeBasisSourcePayload; RecoveryObservedAt := None;
       GraceUntil := None; TerminalAt := if terminal then Some now else None; Situation_TerminalReason := None |};
     ch_AssessmentID := Some "a1";
     ch_Assessment := {| A_SchemaVersion := 1; A_Persistence := PersistenceSustained; A_Impact := ImpactSuspected;
       A_Novelty := NoveltyNew; A_Causality := CausalityUnknown; A_Attention := attention; A_Lifecycle := lifecycle;
       A_EvidenceQuality := EvidenceQualityComplete; A_SufficientReason := None; A_ActionContract := contract;
       A_Limitations := []; A_Cadence := if terminal then CadenceNone else CadenceNormal |};
     ch_Derivation := Some DerivationModelValidated;
     ch_Projection := {| pf_CoverageLimitations := []; pf_OperatorDelta := None; pf_Briefing := Some briefing;
       pf_PublicHandle := Some "S-1"; pf_EffectiveStartedAt := Minute; pf_EffectiveStartedAtBasis := SourceTimeBasisSourcePayload;
       pf_RecoveryObservedAt := None; pf_GraceUntil := None; pf_TerminalAt := if terminal then Some now else None;
       pf_TerminalReason := None; pf_Assessment := None |};
     ch_PriorTransition := p; ch_PriorSummary := e; ch_MaterialFactHash := "h"; ch_EvidenceRefs := ["alert:1"; "alert:1"];
     ch_Incidents := []; ch_TriageDecisions := []; ch_RecurrenceCount := 0; ch_OperatorArtifacts := artifacts;
     ch_Drill := false; ch_Now := now; ch_Judgment := None; ch_JudgmentApplicabilityReason := JudgmentUndecided |}.

Definition ex_note (id : string) : OperatorArtifactInput :=
  {| oa_InputID := "input-" +:+ id; oa_Kind := artifactKindAnnotation; oa_AnnotationID := Some id; oa_VerdictID := None;
     oa_AppliedInputVersion := 1; oa_OccurredAt := Minute; oa_AttributedActor := "ana"; oa_Headline := "checked the logs";
     oa_Detail := "" |}.

Definition ok_list {E A} (r : result E (list A)) : list A := match r with Ok l => l | Err _ => [] end.
Definition ok_option {E A} (r : result E (option A)) : option A := match r with Ok o => o | Err _ => None end.

(** The commits of the example, each derived from the one before. *)
Definition ex_first : AuthoritativeChange :=
  ex_change LifecycleActive AttentionInvestigate (2 * Minute)%Z (ex_briefing 1 None) [] None None.
Definition ex_history_1 : list Transition := ok_list (BuildTransitions ex_identity ex_first).
Definition ex_summary_1 : option EpisodeSummary := ok_option (project_all None ex_history_1).
Definition ex_second : AuthoritativeChange :=
  ex_change LifecycleActive AttentionUrgent (3 * Minute)%Z (ex_briefing 2 None) [ex_note "n1"] (last ex_history_1) ex_summary_1.
Definition ex_history_2 : list Transition := ok_list (BuildTransitions ex_identity ex_second).
Definition ex_summary_2 : option EpisodeSummary := ok_option (project_all ex_summary_1 ex_history_2).
Definition ex_third : AuthoritativeChange :=
  ex_change LifecycleRecovered AttentionObserve (4 * Minute)%Z (ex_briefing 0 None) [] (last ex_history_2) ex_summary_2.
Definition ex_history_3 : list Transition := ok_list (BuildTransitions ex_identity ex_third).

Example ex_reasons :
  tr_Reason <$> (ex_history_1 ++ ex_history_2 ++ ex_history_3)
  = [ReasonFirstAuthoritativeState; ReasonOperatorArtifactRecorded; ReasonAttentionChanged; ReasonRecovered].
Proof. vm_compute. reflexivity. Qed.

Example transitions_of_a_commit_witness : commit_shape ex_second ex_history_2.
Proof. apply (transitions_of_a_commit ex_identity). vm_compute. reflexivity. Defined.

(** Another cycle that finds the Situation as the second left it. *)
Definition ex_quiet : AuthoritativeChange :=
  ex_change LifecycleActive AttentionUrgent (4 * Minute)%Z (ex_briefing 2 None) [] (last ex_history_2) ex_summary_2.
Definition ex_quiet_prior : Transition := default (controllerTransition ex_identity ex_first ReasonRecovered 1) (last ex_history_2).

Lemma ex_quiet_unchanged : unchanged ex_quiet ex_quiet_prior ∧ no_collision ex_quiet ex_quiet_prior.
Proof.
  assert (no_collision ex_quiet ex_quiet_prior) as Hn by (constructor; intros _; vm_compute; reflexivity).
  split; [|exact Hn]. by apply (selectControllerReason_none ex_quiet); [vm_compute| |vm_compute].
Qed.

Example no_history_iff_witness : BuildTransitions ex_identity ex_quiet = Ok [].
Proof.
  apply (no_history_iff ex_identity ex_quiet ex_quiet_prior).
  - vm_compute. reflexivity.
  - apply ex_quiet_unchanged.
  - vm_compute. reflexivity.
  - split; [vm_compute; reflexivity|apply ex_quiet_unchanged].
Defined.

Definition ex_long_name : string := String.concat "" (replicate 201 "x").
Definition ex_long_judgment : ExpectedJudgmentProjection :=
  {| jp_Revision := 1; jp_AssertedOperator := ex_long_name; jp_ValidUntil := Hour |}.
Definition ex_steered : AuthoritativeChange :=
  ex_change LifecycleActive AttentionUrgent (4 * Minute)%Z (ex_briefing 2 (Some ex_long_judgment)) [] (last ex_history_2) ex_summary_2.

Example long_operator_blocks_history_witness : ∃ e, BuildTransitions ex_identity ex_steered = Err e.
Proof.
  apply (long_operator_blocks_history ex_identity ex_steered ex_quiet_prior ex_long_judgment).
  - intros He. exfalso. vm_compute in He. discriminate He.
  - vm_compute. reflexivity.
  - vm_compute. reflexivity.
  - vm_compute. reflexivity.
  - left. vm_compute. reflexivity.
  - vm_compute. reflexivity.
Defined.

Definition ex_final : option EpisodeSummary :=
  ok_option (project_all None (ex_history_1 ++ ex_history_2 ++ ex_history_3)).

Example episode_refines_witness :
  match ex_final with Some e => represents (ex_history_1 ++ ex_history_2 ++ ex_history_3) e | None => False end.
Proof.
  destruct ex_final as [e|] eqn:E.
  - apply episode_refines. vm_compute. vm_compute in E. exact (f_equal Ok E).
  - vm_compute in E. discriminate E.
Defined.
