(* ===== verification/NotificationPlan.v ===== *)
(** * Notification planning (internal/situation/notification_plan.go)

    What a reconciliation owes Slack: the root, its refresh, the replies and the
    one poke of the main channel.  The name of an intent (a version-5 UUID) and
    the RFC 3339 text of a deadline are arguments. *)

From stdpp Require Import prelude strings list pretty.
From S2P Require Import Prelude SituationModel BriefingModel NotificationModel HistoryModel Material Priority History Episode.

(** ** What was delivered *)

Record DeliveredHistory : Type := {
  dh_LastDeliveredSequence : Z;
  dh_AssuranceConveyed : bool;
  dh_LiveAssuranceIntentID : option string;
  dh_CommunicatedLimitationCodes : list string;
  dh_CommunicatedAction : option OperatorAction;
  dh_ProjectedLimitationCodes : list string;
  dh_ProjectedAction : option OperatorAction;
  dh_AssuranceSuperseded : bool
}.

Definition limitationStanding (h : DeliveredHistory) (code : string) : bool :=
  existsb (λ c, str_eqb c code) (dh_ProjectedLimitationCodes h).
Definition requestStanding (h : DeliveredHistory) : bool := is_set (dh_ProjectedAction h).
Definition assuranceStale (h : DeliveredHistory) : bool := dh_AssuranceConveyed h || dh_AssuranceSuperseded h.

(** A candidate that still has something to say. *)
Definition eligible (h : DeliveredHistory) (c : MaterialCandidate) : bool :=
  match mc_Kind c with
  | CandidateFirstExecutionAssurance => negb (assuranceStale h)
  | CandidateAbilityChanged =>
      match mc_Limitation c with
      | None => false
      | Some l => if lf_Cleared l then limitationStanding h (lf_Code l) else negb (limitationStanding h (lf_Code l))
      end
  | CandidateActionChanged =>
      match mc_Action c with
      | None => false
      | Some a => negb (af_Withdrawn a && negb (requestStanding h))
      end
  | _ => true
  end.

Definition ReplyEligible (cands : list MaterialCandidate) (h : DeliveredHistory) (rootPublished : bool) : list MaterialCandidate :=
  if rootPublished then List.filter (eligible h) cands else [].

(** ** The input *)

Record PublicationInput : Type := {
  pi_Situation : Situation;
  pi_Transitions : list Transition;
  pi_Summary : option EpisodeSummary;      (* [None] is the zero summary *)
  pi_PriorTransition : option Transition;
  pi_ContractDeadlineAt : option Time;
  pi_RootPublished : bool;
  pi_LatestRootSyncVersion : option Z;
  pi_RootPublicationOwed : bool;
  pi_LastDeliveredRootDeadlineAt : option Time;
  pi_LastMainChannelPokeAt : option Time;
  pi_SlackFloor : option InterruptionPriority;
  pi_RepageCooldown : Duration;
  pi_RecurrenceRepliesOff : bool;
  pi_Drill : bool;
  pi_Now : Time;
  pi_DeliveredHistory : DeliveredHistory
}.

Definition summary_version (o : option EpisodeSummary) : Z := match o with Some e => es_Version e | None => 0 end.
Definition summary_situation (o : option EpisodeSummary) : string := match o with Some e => es_SituationID e | None => "" end.
Definition summary_sequence (o : option EpisodeSummary) : Z := match o with Some e => es_SourceTransitionSequence e | None => 0 end.

(** Every Transition of the Situation, in increasing sequences. *)
Fixpoint validate_sequence (sid : string) (previous : option Z) (l : list Transition) : result string unit :=
  match l with
  | [] => Ok tt
  | t :: l =>
      guard! str_eqb (tr_SituationID t) sid else "publication input: transition belongs to another situation" in
      guard! match previous with Some s => (s <? tr_Sequence t)%Z | None => true end
      else "publication input: transition sequence does not follow" in
      validate_sequence sid (Some (tr_Sequence t)) l
  end.

Definition validatePublicationInput (i : PublicationInput) : result string unit :=
  let sid := Situation_ID (pi_Situation i) in
  let s := pi_Summary i in
  guard! negb (str_eqb sid "") else "publication input: situation id is required" in
  guard! negb (IsZero (pi_Now i)) else "publication input: now must be a non-zero UTC instant" in
  guard! (0 <=? pi_RepageCooldown i)%Z else "publication input: repage cooldown must be >= 0" in
  guard! str_eqb (summary_situation s) "" || str_eqb (summary_situation s) sid
  else "publication input: summary belongs to another situation" in
  guard! match pi_LatestRootSyncVersion i with
         | Some v => (summary_version s =? 0)%Z || (v <=? summary_version s)%Z
         | None => true
         end else "publication input: summary version is older than the latest root sync version" in
  match last (pi_Transitions i) with
  | None => Ok tt
  | Some t =>
      guard! negb (str_eqb (summary_situation s) "") && (1 <=? summary_version s)%Z
      else "publication input: a commit with transitions requires the folded episode summary" in
      let? _ := validate_sequence sid None (pi_Transitions i) in
      guard! (summary_sequence s =? tr_Sequence t)%Z
      else "publication input: summary source sequence is not this commit's last transition" in
      Ok tt
  end.

(** ** Eligibility of a reply *)

Definition journal_steers (t : Transition) : bool :=
  negb (bool_decide (jd_JudgmentChange (tr_Journal t) = JudgmentChangeNone))
  || negb (bool_decide (jd_ExpectedBehaviorChange (tr_Journal t) = ExpectedBehaviorChangeNone)).

Definition delta_candidates (t : Transition) : list MaterialCandidate :=
  match pf_OperatorDelta (tr_Projection t) with Some d => od_Candidates d | None => [] end.

Definition briefing_of (t : Transition) : option OperatorBriefing := pf_Briefing (tr_Projection t).

Definition replyEligibleTransition (i : PublicationInput) (t : Transition) : bool :=
  if negb (pi_RootPublished i) then false
  else if journal_steers t then true
  else if negb (length (ReplyEligible (delta_candidates t) (pi_DeliveredHistory i) (pi_RootPublished i)) =? 0)%nat then true
  else match pi_PriorTransition i ≫= briefing_of, briefing_of t with
       | Some a, Some b => negb (bool_decide (br_Symptoms a = br_Symptoms b))
       | _, _ => false
       end.

(** ** Kinds of replies *)

Definition has_kind (ks : list CandidateKind) (t : Transition) : bool :=
  existsb (λ c, bool_decide (mc_Kind c ∈ ks)) (delta_candidates t).

Definition fact_assurance (t : Transition) : bool := has_kind [CandidateFirstExecutionAssurance] t.
Definition fact_analysis (t : Transition) : bool := has_kind [CandidateUsefulFinding; CandidateInconclusiveCompletion] t.
Definition fact_allClear (t : Transition) : bool := has_kind [CandidateAllClear] t.
Definition fact_terminal (t : Transition) : bool := has_kind [CandidateTerminalEnd] t.
Definition fact_canonical (t : Transition) : bool :=
  fact_assurance t || fact_analysis t || fact_allClear t || fact_terminal t.

Definition flow_of (t : Transition) : option OperatorFlow := briefing_of t ≫= br_Flow.

Definition partial_clearance (t : Transition) (b : OperatorBriefing) : bool :=
  match pf_OperatorDelta (tr_Projection t) with
  | Some d => od_StateChanged d && (0 <? br_Firing b)%Z && (br_Firing b <? od_PreviousFiring d)%Z
  | None => false
  end.

Definition one_if {A} (b : bool) (a : A) : list A := if b then [a] else [].

Definition canonicalReplyKinds (i : PublicationInput) (t : Transition) : list NotificationReplyKind :=
  match briefing_of t, flow_of t with
  | Some b, Some f =>
      if negb (pi_RootPublished i) && negb (pi_RootPublicationOwed i)
         && bool_decide (WP_Phase (br_Work b) = Some WorkPhaseCollecting)
         && negb (is_set (fl_InvestigationStartedAt f)) && (0 <? br_Firing b)%Z
      then [ReplyCorrelationStarted]
      else
        let recovered := bool_decide (tr_Lifecycle t = LifecycleRecovered) in
        let out :=
          one_if (pi_RootPublished i && fact_assurance t && negb (fact_analysis t) && negb (fact_allClear t)
                  && negb (fact_terminal t) && is_set (fl_InvestigationStartedAt f)) ReplyInvestigationStarted
          ++ one_if (fact_analysis t) ReplyAnalysisCompleted
          ++ one_if (partial_clearance t b) ReplyPartialClearance
          ++ one_if (fact_allClear t) ReplyRecoveryObserved
          ++ one_if (fact_terminal t && recovered) ReplyRecovered
          ++ one_if (fact_terminal t && negb recovered) ReplyLegacy in
        out ++ one_if ((length out =? 0)%nat && negb (fact_canonical t) && replyEligibleTransition i t) ReplyLegacy
  | _, _ => []
  end.

(** ** The poke *)

Definition cooldownElapsed (i : PublicationInput) : bool :=
  match pi_LastMainChannelPokeAt i with
  | None => true
  | Some t => negb (Before (pi_Now i) (Add t (pi_RepageCooldown i)))
  end.

Definition pokes (i : PublicationInput) (t : Transition) : bool :=
  let class := ClassifyPoke (pi_PriorTransition i) t in
  negb (is_set (briefing_of t) && negb (replyEligibleTransition i t))
  && negb (bool_decide (class = PokeNone))
  && negb (CooldownApplies class && negb (cooldownElapsed i)).

(** The first of the most pressing. *)
Definition selectPoke (i : PublicationInput) : option Transition :=
  best (λ cur t, InterruptionPriority_Less (DeriveInterruptionPriority cur) (DeriveInterruptionPriority t))
    (List.filter (pokes i) (pi_Transitions i)).

(** ** Intents *)

Definition EffectClass_text (c : EffectClass) : string :=
  match c with
  | EffectRootSync => "root_sync"
  | EffectThreadAppend => "thread_append"
  | EffectBroadcastHandoff => "broadcast_handoff"
  | EffectInstallationGapRecovery => "installation_gap_recovery"
  end.

Definition NotificationReplyKind_text (k : NotificationReplyKind) : string :=
  match k with
  | ReplyLegacy => ""
  | ReplyCorrelationStarted => "correlation_started"
  | ReplyInvestigationStarted => "investigation_started"
  | ReplyAnalysisCompleted => "analysis_completed"
  | ReplyPartialClearance => "partial_clearance"
  | ReplyRecoveryObserved => "recovery_observed"
  | ReplyRecovered => "recovered"
  end.

Definition threadKey (c : EffectClass) (sid : string) (sequence : Z) : string :=
  boundedText (EffectClass_text c +:+ ":" +:+ sid +:+ ":" +:+ pretty sequence) maxHistoryIdentifier.

Section plan.
Context (intentIdentity : string → string) (rfc3339 : Time → string).

Definition rootSyncKey (sid : string) (version : Z) (transitionID : string) (deadline : option Time) : string :=
  let stamp := match deadline with Some t => rfc3339 t | None => "none" end in
  boundedText ("root_sync:" +:+ sid +:+ ":v" +:+ pretty version +:+ ":" +:+ transitionID +:+ ":" +:+ stamp)
    maxHistoryIdentifier.

Definition newIntent (i : PublicationInput) (c : EffectClass) (subject : Transition) (key : string) : NotificationIntent :=
  {| ni_ID := intentIdentity ("intent:" +:+ key);
     ni_IdempotencyKey := key;
     ni_EffectClass := c;
     ni_ReplyKind := ReplyLegacy;
     ni_SituationID := Some (Situation_ID (pi_Situation i));
     ni_TransitionID := Some (tr_ID subject);
     ni_TransitionSequence := Some (tr_Sequence subject);
     ni_SummaryVersion := None; ni_GapGeneration := None;
     ni_RequiresRoot := needs_root c;
     ni_MainChannelPoke := false; ni_InterruptionPriority := None; ni_ContractDeadlineAt := None;
     ni_ClientMessageID := intentIdentity ("client_message:" +:+ key);
     ni_Status := IntentPending;
     ni_ClaimOwner := None; ni_ClaimToken := 0; ni_LeaseExpiresAt := None; ni_AttemptCount := 0;
     ni_LastErrorClass := None; ni_RetryAt := None; ni_SupersessionReason := None; ni_ReplacementIntentID := None;
     ni_DeliveredAs := None; ni_Channel := None; ni_MessageTS := None;
     ni_CreatedAt := pi_Now i; ni_DeliveredAt := None |}.

(** The fields the planner writes after [newIntent]. *)
Definition set_plan (n : NotificationIntent) (kind : NotificationReplyKind) (version : option Z) (deadline : option Time)
    (poke : bool) (priority : option InterruptionPriority) (status : IntentStatus) : NotificationIntent :=
  {| ni_ID := ni_ID n; ni_IdempotencyKey := ni_IdempotencyKey n; ni_EffectClass := ni_EffectClass n;
     ni_ReplyKind := kind; ni_SituationID := ni_SituationID n; ni_TransitionID := ni_TransitionID n;
     ni_TransitionSequence := ni_TransitionSequence n; ni_SummaryVersion := version;
     ni_GapGeneration := ni_GapGeneration n; ni_RequiresRoot := ni_RequiresRoot n;
     ni_MainChannelPoke := poke; ni_InterruptionPriority := priority; ni_ContractDeadlineAt := deadline;
     ni_ClientMessageID := ni_ClientMessageID n; ni_Status := status; ni_ClaimOwner := ni_ClaimOwner n;
     ni_ClaimToken := ni_ClaimToken n; ni_LeaseExpiresAt := ni_LeaseExpiresAt n;
     ni_AttemptCount := ni_AttemptCount n; ni_LastErrorClass := ni_LastErrorClass n; ni_RetryAt := ni_RetryAt n;
     ni_SupersessionReason := ni_SupersessionReason n; ni_ReplacementIntentID := ni_ReplacementIntentID n;
     ni_DeliveredAs := ni_DeliveredAs n; ni_Channel := ni_Channel n; ni_MessageTS := ni_MessageTS n;
     ni_CreatedAt := ni_CreatedAt n; ni_DeliveredAt := ni_DeliveredAt n |}.

Definition newReplyIntent (i : PublicationInput) (c : EffectClass) (subject : Transition) (kind : NotificationReplyKind)
    : NotificationIntent :=
  let key := threadKey c (Situation_ID (pi_Situation i)) (tr_Sequence subject) in
  let key := match kind with
             | ReplyLegacy => key
             | _ => boundedText (key +:+ ":" +:+ NotificationReplyKind_text kind) maxHistoryIdentifier
             end in
  set_plan (newIntent i c subject key) kind None None false None IntentPending.

Definition broadcast_intent (i : PublicationInput) (t : Transition) (kind : NotificationReplyKind) : NotificationIntent :=
  let priority := DeriveInterruptionPriority t in
  set_plan (newReplyIntent i EffectBroadcastHandoff t kind) kind None None true (Some priority)
    (if MeetsSlackFloor priority (pi_SlackFloor i) then IntentPending else IntentWithheld).

(** The poke of a reply: withheld under the floor, where the reply itself goes
    out unbroadcast. *)
Definition poke_intents (i : PublicationInput) (t : Transition) (kind : NotificationReplyKind) : list NotificationIntent :=
  if MeetsSlackFloor (DeriveInterruptionPriority t) (pi_SlackFloor i) then [broadcast_intent i t kind]
  else [newReplyIntent i EffectThreadAppend t kind; broadcast_intent i t kind].

(** One reply per kind; the last is the poke. *)
Fixpoint reply_intents (i : PublicationInput) (t : Transition) (poked : bool) (kinds : list NotificationReplyKind)
    : list NotificationIntent :=
  match kinds with
  | [] => []
  | [k] => if poked then poke_intents i t k else [newReplyIntent i EffectThreadAppend t k]
  | k :: ks => newReplyIntent i EffectThreadAppend t k :: reply_intents i t poked ks
  end.

Definition journal_intents (i : PublicationInput) (pokeSequence : Z) (t : Transition) : list NotificationIntent :=
  let kinds := canonicalReplyKinds i t in
  let poked := negb (pokeSequence =? 0)%Z && (tr_Sequence t =? pokeSequence)%Z in
  if is_set (briefing_of t) && negb (is_set (flow_of t)) && negb (replyEligibleTransition i t) then []
  else if is_set (flow_of t) && (length kinds =? 0)%nat then []
  else if kind_is t JournalNone && negb poked then []
  else if negb (is_set (briefing_of t)) && reason_is t ReasonRecurrenceMilestone && pi_RecurrenceRepliesOff i then []
  else reply_intents i t poked (match kinds with [] => [ReplyLegacy] | _ => kinds end).

Definition planJournalIntents (i : PublicationInput) (pokeSequence : Z) : list NotificationIntent :=
  concat (journal_intents i pokeSequence <$> pi_Transitions i).

Definition plan_error (e : intent_error) : string := "planned notification intent is invalid".

Definition validate_intents (l : list NotificationIntent) : result string unit :=
  all_validate (λ n, match NotificationIntent_Validate n with Ok _ => Ok tt | Err e => Err (plan_error e) end) l.

Definition planDeadlineRefresh (i : PublicationInput) : result string (list NotificationIntent) :=
  match pi_RootPublished i, pi_ContractDeadlineAt i, pi_LastDeliveredRootDeadlineAt i with
  | true, Some deadline, Some delivered =>
      if After delivered (pi_Now i) then Ok []
      else if Equal deadline delivered then Ok []
      else match pi_PriorTransition i with
           | None => Err "publication input: a published root requires its authority transition to refresh the promised update"
           | Some p =>
               let version := summary_version (pi_Summary i) in
               guard! (1 <=? version)%Z else "publication input: a deadline refresh requires the current episode summary" in
               let refresh :=
                 set_plan (newIntent i EffectRootSync p
                             (rootSyncKey (Situation_ID (pi_Situation i)) version (tr_ID p) (pi_ContractDeadlineAt i)))
                   ReplyLegacy (Some version) (pi_ContractDeadlineAt i) false None IntentPending in
               let? _ := validate_intents [refresh] in
               Ok [refresh]
           end
  | _, _, _ => Ok []
  end.

(** The root projection of a commit; the first is itself the poke. *)
Definition root_intent (i : PublicationInput) (authority : Transition) : NotificationIntent :=
  let version := summary_version (pi_Summary i) in
  let rootPoke := negb (pi_RootPublished i) in
  let priority := DeriveInterruptionPriority authority in
  set_plan (newIntent i EffectRootSync authority
              (rootSyncKey (Situation_ID (pi_Situation i)) version (tr_ID authority) (pi_ContractDeadlineAt i)))
    ReplyLegacy (Some version)
    (if Terminal (tr_Lifecycle authority) then None else pi_ContractDeadlineAt i)
    rootPoke (if rootPoke then Some priority else None)
    (if rootPoke && negb (MeetsSlackFloor priority (pi_SlackFloor i)) && negb (pi_RootPublicationOwed i)
     then IntentWithheld else IntentPending).

Definition poke_sequence (i : PublicationInput) : Z :=
  if pi_RootPublished i then match selectPoke i with Some t => tr_Sequence t | None => 0 end else 0.

Definition PlanNotificationIntents (i : PublicationInput) : result string (list NotificationIntent) :=
  let? _ := validatePublicationInput i in
  match last (pi_Transitions i) with
  | None => planDeadlineRefresh i
  | Some authority =>
      if negb (pi_RootPublished i) && negb (pi_RootPublicationOwed i) && negb (PublicationAuthority authority) then Ok []
      else
        let out := root_intent i authority :: planJournalIntents i (poke_sequence i) in
        let? _ := validate_intents out in
        Ok out
  end.
End plan.
