(* ===== verification/HistoryCommit.v ===== *)
(** * The history of a commit (internal/situation/history.go)

    [BuildHistoryCommit] puts the Transitions, their fold and the plan
    together; HistoryStore.v writes them. *)

From stdpp Require Import prelude strings list.
From S2P Require Import Prelude SituationModel BriefingModel NotificationModel HistoryModel Material Priority History Episode NotificationPlan.

Record HistoryCommit : Type := {
  hc_Transitions : list Transition;
  hc_Summary : option EpisodeSummary;
  hc_Intents : list NotificationIntent
}.

Section build.
Context `{!CanonicalDigest contractTuple, !CanonicalDigest materialTuple,
          !CanonicalDigest (option ExpectedJudgmentProjection), !CanonicalDigest (option ExpectedBehaviorProjection),
          !CanonicalDigest (list string), !CanonicalDigest (option OperatorBriefing)}
        (identity : transitionIdentityDTO → string) (intentIdentity : string → string) (rfc3339 : Time → string).

(** The input with what this commit derived. *)
Definition with_history (i : PublicationInput) (ts : list Transition) (s : option EpisodeSummary) (prior : option Transition)
    : PublicationInput :=
  {| pi_Situation := pi_Situation i; pi_Transitions := ts; pi_Summary := s;
     pi_PriorTransition := match pi_PriorTransition i with Some p => Some p | None => prior end;
     pi_ContractDeadlineAt := pi_ContractDeadlineAt i; pi_RootPublished := pi_RootPublished i;
     pi_LatestRootSyncVersion := pi_LatestRootSyncVersion i; pi_RootPublicationOwed := pi_RootPublicationOwed i;
     pi_LastDeliveredRootDeadlineAt := pi_LastDeliveredRootDeadlineAt i;
     pi_LastMainChannelPokeAt := pi_LastMainChannelPokeAt i; pi_SlackFloor := pi_SlackFloor i;
     pi_RepageCooldown := pi_RepageCooldown i; pi_RecurrenceRepliesOff := pi_RecurrenceRepliesOff i;
     pi_Drill := pi_Drill i; pi_Now := pi_Now i; pi_DeliveredHistory := pi_DeliveredHistory i |}.

Definition BuildHistoryCommit (c : AuthoritativeChange) (i : PublicationInput) : result string HistoryCommit :=
  guard! (length (pi_Transitions i) =? 0)%nat && str_eqb (summary_situation (pi_Summary i)) ""
         && (summary_version (pi_Summary i) =? 0)%Z
  else "build history commit: publication input must not carry transitions or a summary" in
  guard! str_eqb (Situation_ID (pi_Situation i)) (Situation_ID (ch_Situation c))
  else "build history commit: publication situation does not match change situation" in
  guard! Equal (pi_Now i) (ch_Now c) else "build history commit: publication now does not match change now" in
  guard! Bool.eqb (pi_Drill i) (ch_Drill c)
  else "build history commit: publication and change disagree about the Drill marker" in
  let? transitions := BuildTransitions identity c in
  let? folded := project_all (ch_PriorSummary c) transitions in
  let? intents := PlanNotificationIntents intentIdentity rfc3339 (with_history i transitions folded (ch_PriorTransition c)) in
  Ok {| hc_Transitions := transitions;
        hc_Summary := match transitions with [] => None | _ => folded end;
        hc_Intents := intents |}.

End build.
