(* ===== verification/NotificationStore.v ===== *)
(** * The notification queue and the delivery gaps
    (internal/store/situation_notifications.go, notification_gaps.go,
    situation_history.go)

    The ledger of notification intents: what a commit inserts and supersedes,
    what a worker may claim, the fenced acknowledgements, the way out of a
    configuration block or a failure, and the installation's delivery gaps with
    the gate they put on claiming.  A transaction returns the new tables or an
    error, which rolls it back; the constraints of the schema are those of
    migrations 0019, 0021, 0023 and 0025.

    SQL compares instants as texts ([text_ltb] of the prelude).  The UUID of a
    text and the identity of a gap generation are arguments.  Foreign keys to
    Transitions and to replacements are left out. *)

From stdpp Require Import prelude strings list gmap sorting relations.
From S2P Require Import Prelude ErrorClass NotificationModel.

(** ** The tables *)

Inductive GapStatus : Set := GapOpen | GapReplaying | GapComplete.

#[export] Instance GapStatus_eq_dec : EqDecision GapStatus.
Proof. solve_decision. Defined.

Record delivery_gap : Type := {
  gap_id : string;
  gap_status : GapStatus;
  opened_at : Time;
  affected_situation_count : Z;
  delayed_effect_count : Z;
  recovery_notice_intent_id : option string;
  recovered_at : option Time;
  completed_at : option Time
}.

Record slack_delivery_state : Type := {
  first_failure_at : option Time;
  last_success_at : option Time;
  open_gap_generation : option string;
  configuration_generation : Z;
  last_warning_at : option Time;
  updated_at : Time
}.

(** The rows of the Situations are their root coordinates. *)
Record notif_db : Type := {
  intents : list NotificationIntent;
  roots : gmap string (option (string * string));
  gaps : list delivery_gap;
  health : slack_delivery_state
}.

Record NotificationClaim : Type := {
  cl_Intent : NotificationIntent;
  cl_ClaimOwner : string;
  cl_ClaimToken : Z
}.

Record NotificationDelivery : Type := {
  nd_Channel : string;
  nd_MessageTS : string;
  nd_DeliveredAs : string
}.

Inductive notif_error : Set :=
| ErrNotifArguments
| ErrNotifNotFound
| ErrNotificationClaimLost
| ErrNotificationIntentSuperseded
| ErrNewerRootProjectionPending
| ErrNotifMoved                            (* no longer in the status it had *)
| ErrNotifInvalid (e : intent_error)
| ErrNotifConstraint.                      (* a constraint of the schema *)

Definition SupersessionReasonNewerRootProjection : string := "newer_root_projection".

(** ** Writing rows *)

Definition with_intents (db : notif_db) (l : list NotificationIntent) : notif_db :=
  {| intents := l; roots := roots db; gaps := gaps db; health := health db |}.
Definition with_roots (db : notif_db) (m : gmap string (option (string * string))) : notif_db :=
  {| intents := intents db; roots := m; gaps := gaps db; health := health db |}.
Definition with_gaps (db : notif_db) (l : list delivery_gap) : notif_db :=
  {| intents := intents db; roots := roots db; gaps := l; health := health db |}.
Definition with_health (db : notif_db) (h : slack_delivery_state) : notif_db :=
  {| intents := intents db; roots := roots db; gaps := gaps db; health := h |}.

(** The columns a worker or a supersession writes. *)
Definition set_columns (n : NotificationIntent) (status : IntentStatus) (owner : option string) (token : Z)
    (lease : option Time) (attempts : Z) (class : option string) (retry : option Time)
    (superseded : option (string * string)) (delivered : option (NotificationDelivery * Time)) : NotificationIntent :=
  {| ni_ID := ni_ID n; ni_IdempotencyKey := ni_IdempotencyKey n; ni_EffectClass := ni_EffectClass n;
     ni_ReplyKind := ni_ReplyKind n; ni_SituationID := ni_SituationID n; ni_TransitionID := ni_TransitionID n;
     ni_TransitionSequence := ni_TransitionSequence n; ni_SummaryVersion := ni_SummaryVersion n;
     ni_GapGeneration := ni_GapGeneration n; ni_RequiresRoot := ni_RequiresRoot n;
     ni_MainChannelPoke := ni_MainChannelPoke n; ni_InterruptionPriority := ni_InterruptionPriority n;
     ni_ContractDeadlineAt := ni_ContractDeadlineAt n; ni_ClientMessageID := ni_ClientMessageID n;
     ni_Status := status; ni_ClaimOwner := owner; ni_ClaimToken := token; ni_LeaseExpiresAt := lease;
     ni_AttemptCount := attempts; ni_LastErrorClass := class; ni_RetryAt := retry;
     ni_SupersessionReason := match superseded with Some (r, _) => Some r | None => ni_SupersessionReason n end;
     ni_ReplacementIntentID := match superseded with Some (_, i) => Some i | None => ni_ReplacementIntentID n end;
     ni_DeliveredAs := match delivered with Some (d, _) => Some (nd_DeliveredAs d) | None => ni_DeliveredAs n end;
     ni_Channel := match delivered with Some (d, _) => Some (nd_Channel d) | None => ni_Channel n end;
     ni_MessageTS := match delivered with Some (d, _) => Some (nd_MessageTS d) | None => ni_MessageTS n end;
     ni_CreatedAt := ni_CreatedAt n;
     ni_DeliveredAt := match delivered with Some (_, t) => Some t | None => ni_DeliveredAt n end |}.

Definition claimed_by (owner : string) (lease : Time) (n : NotificationIntent) : NotificationIntent :=
  set_columns n (ni_Status n) (Some owner) (ni_ClaimToken n + 1)%Z (Some lease) (ni_AttemptCount n + 1)%Z
    (ni_LastErrorClass n) (ni_RetryAt n) None None.
Definition delivered_row (d : NotificationDelivery) (now : Time) (n : NotificationIntent) : NotificationIntent :=
  set_columns n IntentDelivered None (ni_ClaimToken n) None (ni_AttemptCount n) (ni_LastErrorClass n) None None (Some (d, now)).
Definition retried_row (class : string) (retryAt : Time) (n : NotificationIntent) : NotificationIntent :=
  set_columns n (ni_Status n) None (ni_ClaimToken n) None (ni_AttemptCount n) (Some class) (Some retryAt) None None.
Definition stopped_row (status : IntentStatus) (class : string) (n : NotificationIntent) : NotificationIntent :=
  set_columns n status None (ni_ClaimToken n) None (ni_AttemptCount n) (Some class) None None None.
Definition extended_row (lease : Time) (n : NotificationIntent) : NotificationIntent :=
  set_columns n (ni_Status n) (ni_ClaimOwner n) (ni_ClaimToken n) (Some lease) (ni_AttemptCount n) (ni_LastErrorClass n)
    (ni_RetryAt n) None None.
Definition released_row (n : NotificationIntent) : NotificationIntent :=
  set_columns n (ni_Status n) None (ni_ClaimToken n) None (ni_AttemptCount n) (ni_LastErrorClass n) (ni_RetryAt n) None None.
Definition superseded_row (reason replacement : string) (n : NotificationIntent) : NotificationIntent :=
  set_columns n IntentSuperseded None (ni_ClaimToken n) None (ni_AttemptCount n) (ni_LastErrorClass n) None
    (Some (reason, replacement)) None.
Definition pending_row (now : Time) (n : NotificationIntent) : NotificationIntent :=
  set_columns n IntentPending None (ni_ClaimToken n) None (ni_AttemptCount n) (ni_LastErrorClass n) (Some now) None None.

(** [UPDATE ... SET f WHERE P]. *)
Definition update (P : NotificationIntent → bool) (f : NotificationIntent → NotificationIntent)
    (l : list NotificationIntent) : list NotificationIntent :=
  (λ n, if P n then f n else n) <$> l.

Definition select (P : NotificationIntent → bool) (l : list NotificationIntent) : list NotificationIntent :=
  filter (λ n, P n = true) l.

Definition has_id (id : string) (n : NotificationIntent) : bool := str_eqb (ni_ID n) id.
Definition find_intent (id : string) (l : list NotificationIntent) : option NotificationIntent :=
  head (select (has_id id) l).

Definition in_situation (sid : string) (n : NotificationIntent) : bool := bool_decide (ni_SituationID n = Some sid).
Definition is_class (c : EffectClass) (n : NotificationIntent) : bool := bool_decide (ni_EffectClass n = c).
Definition is_status (s : IntentStatus) (n : NotificationIntent) : bool := bool_decide (ni_Status n = s).

(** pending, blocked_configuration or failed *)
Definition live (n : NotificationIntent) : bool :=
  is_status IntentPending n || is_status IntentBlockedConfiguration n || is_status IntentFailed n.

(** ** The schema *)

(** The CHECK constraints of one row: on the columns that name the intent, and
    on those of its life. *)
Definition identity_check (n : NotificationIntent) : bool :=
  let notice := is_class EffectInstallationGapRecovery n in
  negb (str_eqb (ni_ID n) "") && negb (str_eqb (ni_IdempotencyKey n) "")
  && Bool.eqb notice (negb (is_set (ni_SituationID n))) && Bool.eqb notice (negb (is_set (ni_TransitionID n)))
  && Bool.eqb notice (negb (is_set (ni_TransitionSequence n))) && Bool.eqb notice (is_set (ni_GapGeneration n))
  && Bool.eqb (is_set (ni_SummaryVersion n)) (is_class EffectRootSync n)
  && implb (is_set (ni_ContractDeadlineAt n)) (is_class EffectRootSync n)
  && Bool.eqb (ni_RequiresRoot n) (needs_root (ni_EffectClass n))
  && Bool.eqb (ni_MainChannelPoke n) (is_set (ni_InterruptionPriority n))
  && match ni_TransitionSequence n with Some s => (1 <=? s)%Z | None => true end
  && match ni_SummaryVersion n with Some v => (1 <=? v)%Z | None => true end.

Definition delivery_modes : list string := ["root"; "thread"; "broadcast"; "delayed_thread"; "system"].

Definition life_check (n : NotificationIntent) : bool :=
  Bool.eqb (is_set (ni_ClaimOwner n)) (is_set (ni_LeaseExpiresAt n))
  && implb (is_set (ni_ClaimOwner n)) (is_status IntentPending n)
  && implb (is_status IntentFailed n) (negb (is_set (ni_RetryAt n)))
  && Bool.eqb (is_status IntentDelivered n)
       (is_set (ni_DeliveredAt n) && is_set (ni_Channel n) && is_set (ni_MessageTS n) && is_set (ni_DeliveredAs n))
  && implb (is_status IntentSuperseded n) (is_class EffectRootSync n || is_class EffectThreadAppend n)
  && Bool.eqb (is_status IntentSuperseded n) (is_set (ni_SupersessionReason n))
  && Bool.eqb (is_status IntentSuperseded n) (is_set (ni_ReplacementIntentID n))
  && match ni_ReplacementIntentID n with Some r => negb (str_eqb r (ni_ID n)) | None => true end
  && match ni_DeliveredAs n with Some d => existsb (str_eqb d) delivery_modes | None => true end
  && (0 <=? ni_ClaimToken n)%Z && (0 <=? ni_AttemptCount n)%Z.

Definition row_check (n : NotificationIntent) : bool := identity_check n && life_check n.

Definition pending_root (sid : string) (n : NotificationIntent) : bool :=
  in_situation sid n && is_class EffectRootSync n && is_status IntentPending n.

(** The columns of the unique index over the replies. *)
Definition reply_key (n : NotificationIntent) : option (option string * option Z * EffectClass * NotificationReplyKind) :=
  if needs_root (ni_EffectClass n)
  then Some (ni_SituationID n, ni_TransitionSequence n, ni_EffectClass n, ni_ReplyKind n) else None.

(** What the indexes and the foreign keys say of a row beside the others. *)
Definition fits (db : notif_db) (n : NotificationIntent) : bool :=
  let others := intents db in
  negb (existsb (has_id (ni_ID n)) others)
  && negb (existsb (λ o, str_eqb (ni_IdempotencyKey o) (ni_IdempotencyKey n)) others)
  && negb (is_class EffectRootSync n && is_status IntentPending n
           && match ni_SituationID n with Some sid => existsb (pending_root sid) others | None => false end)
  && negb (is_set (reply_key n) && existsb (λ o, bool_decide (reply_key o = reply_key n)) others)
  && match ni_SituationID n with Some sid => is_set (roots db !! sid) | None => true end
  && match ni_GapGeneration n with Some g => existsb (λ p, str_eqb (gap_id p) g) (gaps db) | None => true end.

Definition insertNotificationIntentTx (db : notif_db) (n : NotificationIntent) : result notif_error notif_db :=
  guard! row_check n && fits db n else ErrNotifConstraint in
  Ok (with_intents db (intents db ++ [n])).

(** ** What a commit inserts *)

Definition supersedeLiveRootSyncTx (db : notif_db) (sid replacementID : string) : notif_db :=
  with_intents db
    (update (λ n, in_situation sid n && is_class EffectRootSync n && live n && negb (has_id replacementID n))
       (superseded_row SupersessionReasonNewerRootProjection replacementID) (intents db)).

Fixpoint insert_all (db : notif_db) (l : list NotificationIntent) : result notif_error notif_db :=
  match l with
  | [] => Ok db
  | n :: l => let? db := insertNotificationIntentTx db n in insert_all db l
  end.

Definition insertNotificationIntentsTx (db : notif_db) (sid : string) (l : list NotificationIntent)
    : result notif_error notif_db :=
  let db := match head (select (is_class EffectRootSync) l) with
            | Some r => supersedeLiveRootSyncTx db sid (ni_ID r)
            | None => db
            end in
  insert_all db l.

(** [obsolete] are the intents the commit found to have been overtaken. *)
Definition supersedeNotificationIntentIDsTx (db : notif_db) (sid replacementID reason : string) (obsolete : list string)
    : notif_db :=
  with_intents db
    (update (λ n, in_situation sid n && is_class EffectThreadAppend n && live n && negb (has_id replacementID n)
                  && existsb (λ id, has_id id n) obsolete)
       (superseded_row reason replacementID) (intents db)).

(** ** Claiming *)

Definition root_first (n : NotificationIntent) : Z := if is_class EffectRootSync n then 0 else 1.
Definition class_rank (n : NotificationIntent) : Z :=
  match ni_EffectClass n with EffectRootSync => 0 | EffectThreadAppend => 1 | _ => 2 end.
Definition reply_rank (n : NotificationIntent) : Z :=
  match ni_ReplyKind n with
  | ReplyAnalysisCompleted => 10
  | ReplyPartialClearance => 20
  | ReplyRecoveryObserved => 30
  | ReplyRecovered => 40
  | _ => 0
  end.
Definition sequence_key (n : NotificationIntent) : Z := default 0%Z (ni_TransitionSequence n).

(** [notificationQueueOrder] *)
Definition reply_ltb : NotificationIntent → NotificationIntent → bool :=
  lex_less (key_ltb sequence_key) (lex_less (key_ltb reply_rank) (lex_less (key_ltb class_rank) (skey_ltb ni_ID))).
Definition queue_ltb : NotificationIntent → NotificationIntent → bool :=
  lex_less (key_ltb root_first) reply_ltb.

(** [notificationClaimOrder]; an absent text sorts first. *)
Definition no_gap (n : NotificationIntent) : Z := if is_set (ni_GapGeneration n) then 0 else 1.
Definition claim_ltb : NotificationIntent → NotificationIntent → bool :=
  lex_less (key_ltb no_gap)
    (lex_less (skey_ltb (λ n, default "" (ni_GapGeneration n)))
       (lex_less (skey_ltb (λ n, default "" (ni_SituationID n))) queue_ltb)).

Record deliveryGapGate : Type := { gate_blocked : bool; gate_noticeIDs : list string }.

Definition notice_owed (db : notif_db) (g : delivery_gap) : option string :=
  match recovery_notice_intent_id g with
  | Some id =>
      match find_intent id (intents db) with
      | Some n => if is_status IntentDelivered n then None else Some id
      | None => Some id
      end
  | None => None
  end.

Definition gap_is (s : GapStatus) (g : delivery_gap) : bool := bool_decide (gap_status g = s).
Definition gap_ltb : delivery_gap → delivery_gap → bool :=
  lex_less (λ g h, text_ltb (opened_at g) (opened_at h)) (skey_ltb gap_id).

Definition deliveryGapGateTx (db : notif_db) : deliveryGapGate :=
  if existsb (gap_is GapOpen) (gaps db) then {| gate_blocked := true; gate_noticeIDs := [] |}
  else {| gate_blocked := false;
          gate_noticeIDs := omap (notice_owed db)
                              (SliceStable (λ g h, text_ltb (opened_at g) (opened_at h))
                                 (filter (λ g, gap_is GapReplaying g = true) (gaps db))) |}.

Definition unleased (now : Time) (n : NotificationIntent) : bool :=
  match ni_ClaimOwner n, ni_LeaseExpiresAt n with
  | None, _ => true
  | _, Some t => text_leb t now
  | _, None => false
  end.
Definition retry_due (now : Time) (n : NotificationIntent) : bool :=
  match ni_RetryAt n with Some t => text_leb t now | None => true end.

Definition published (db : notif_db) (sid : string) : bool :=
  match roots db !! sid with Some (Some _) => true | _ => false end.
Definition root_ready (db : notif_db) (n : NotificationIntent) : bool :=
  negb (ni_RequiresRoot n) || match ni_SituationID n with Some sid => published db sid | None => false end.

(** Nothing live of its Situation comes before it in the queue ([rn = 1]). *)
Definition heads_queue (db : notif_db) (n : NotificationIntent) : bool :=
  match ni_SituationID n with
  | None => true
  | Some sid => forallb (λ o, negb (in_situation sid o && live o && queue_ltb o n)) (intents db)
  end.

Definition claimable (db : notif_db) (now : Time) (n : NotificationIntent) : bool :=
  heads_queue db n && is_status IntentPending n && unleased now n && retry_due now n && root_ready db n.

Definition created_ltb : NotificationIntent → NotificationIntent → bool :=
  lex_less (λ n o, text_ltb (ni_CreatedAt n) (ni_CreatedAt o)) (skey_ltb ni_ID).

Definition dueNotificationIntentIDsTx (db : notif_db) (gate : deliveryGapGate) (now : Time) (limit : nat) : list string :=
  match gate_noticeIDs gate with
  | [] => ni_ID <$> take limit (SliceStable claim_ltb (select (claimable db now) (intents db)))
  | ids => ni_ID <$> take limit (SliceStable created_ltb
             (select (λ n, existsb (λ id, has_id id n) ids && is_status IntentPending n && unleased now n && retry_due now n)
                (intents db)))
  end.

Definition ClaimNotificationIntents (db : notif_db) (owner : string) (now : Time) (lease : Duration) (limit : nat)
    : result notif_error (list NotificationClaim * notif_db) :=
  guard! negb (str_eqb (TrimSpace owner) "") && (0 <? lease)%Z && (0 <? limit)%nat else ErrNotifArguments in
  let gate := deliveryGapGateTx db in
  if gate_blocked gate then Ok ([], db)
  else
    let ids := dueNotificationIntentIDsTx db gate now limit in
    let mine n := existsb (λ id, has_id id n) ids in
    let rows := update mine (claimed_by owner (Add now lease)) (intents db) in
    Ok ((λ n, {| cl_Intent := n; cl_ClaimOwner := owner; cl_ClaimToken := ni_ClaimToken n |})
          <$> SliceStable claim_ltb (select (λ n, mine n && bool_decide (ni_ClaimOwner n = Some owner)) rows),
        with_intents db rows).

(** ** Acknowledging *)

Definition validateNotificationClaim (c : NotificationClaim) : bool :=
  negb (str_eqb (TrimSpace (ni_ID (cl_Intent c))) "") && negb (str_eqb (TrimSpace (cl_ClaimOwner c)) "")
  && (0 <? cl_ClaimToken c)%Z.

(** [^[a-z][a-z0-9_]*$], of bounded length *)
Definition validateNotificationErrorClass (class : string) : bool :=
  (String.length class <=? maxErrorClassLength)%nat && errorClassPattern class.

(** The fence: the row is this very claim's. *)
Definition fenced (c : NotificationClaim) (n : NotificationIntent) : bool :=
  has_id (ni_ID (cl_Intent c)) n && is_status IntentPending n
  && bool_decide (ni_ClaimOwner n = Some (cl_ClaimOwner c)) && (ni_ClaimToken n =? cl_ClaimToken c)%Z.

Definition classifyLostNotificationClaim (db : notif_db) (id : string) : notif_error :=
  match find_intent id (intents db) with
  | None => ErrNotifNotFound
  | Some n => if is_status IntentSuperseded n then ErrNotificationIntentSuperseded else ErrNotificationClaimLost
  end.

Definition fencedNotificationAck (db : notif_db) (c : NotificationClaim) (f : NotificationIntent → NotificationIntent)
    : result notif_error notif_db :=
  guard! validateNotificationClaim c else ErrNotifArguments in
  guard! existsb (fenced c) (intents db) else classifyLostNotificationClaim db (ni_ID (cl_Intent c)) in
  Ok (with_intents db (update (fenced c) f (intents db))).

Definition set_root (db : notif_db) (sid : string) (d : NotificationDelivery) : notif_db :=
  match roots db !! sid with
  | Some _ => with_roots db (<[sid := Some (nd_Channel d, nd_MessageTS d)]> (roots db))
  | None => db
  end.

(** A first post that a newer projection superseded while it was on its way is
    the root all the same; the transaction commits and reports the loss. *)
Definition acknowledgeSupersededDeliveryTx (db : notif_db) (c : NotificationClaim) (d : NotificationDelivery)
    : notif_db * notif_error :=
  match find_intent (ni_ID (cl_Intent c)) (intents db) with
  | None => (db, ErrNotifNotFound)
  | Some n =>
      if negb (is_status IntentSuperseded n) then (db, ErrNotificationClaimLost)
      else if negb (ni_ClaimToken n =? cl_ClaimToken c)%Z || negb (is_class EffectRootSync n)
      then (db, ErrNotificationIntentSuperseded)
      else match ni_SituationID n with
           | None => (db, ErrNotificationIntentSuperseded)
           | Some sid =>
               (if published db sid then db else set_root db sid d, ErrNotificationIntentSuperseded)
           end
  end.

Definition MarkNotificationDelivered (db : notif_db) (c : NotificationClaim) (d : NotificationDelivery) (now : Time)
    : notif_db * option notif_error :=
  if negb (validateNotificationClaim c)
     || str_eqb (TrimSpace (nd_Channel d)) "" || str_eqb (TrimSpace (nd_MessageTS d)) ""
     || negb (existsb (str_eqb (nd_DeliveredAs d)) delivery_modes)
  then (db, Some ErrNotifArguments)
  else if existsb (fenced c) (intents db) then
    let db' := with_intents db (update (fenced c) (delivered_row d now) (intents db)) in
    if is_class EffectRootSync (cl_Intent c) then
      match find_intent (ni_ID (cl_Intent c)) (intents db') with
      | Some n =>
          match ni_SituationID n with
          | Some sid => (if is_class EffectRootSync n then set_root db' sid d else db', None)
          | None => (db', None)
          end
      | None => (db', None)
      end
    else (db', None)
  else let '(db', e) := acknowledgeSupersededDeliveryTx db c d in (db', Some e).

Definition RetryNotificationIntent (db : notif_db) (c : NotificationClaim) (class : string) (retryAt : Time)
    : result notif_error notif_db :=
  guard! validateNotificationErrorClass class && negb (IsZero retryAt) else ErrNotifArguments in
  fencedNotificationAck db c (retried_row class retryAt).

Definition BlockNotificationConfiguration (db : notif_db) (c : NotificationClaim) (class : string)
    : result notif_error notif_db :=
  guard! validateNotificationErrorClass class else ErrNotifArguments in
  fencedNotificationAck db c (stopped_row IntentBlockedConfiguration class).

Definition FailNotificationIntent (db : notif_db) (c : NotificationClaim) (class : string) : result notif_error notif_db :=
  guard! validateNotificationErrorClass class else ErrNotifArguments in
  fencedNotificationAck db c (stopped_row IntentFailed class).

Definition HeartbeatNotificationClaim (db : notif_db) (c : NotificationClaim) (now : Time) (lease : Duration)
    : result notif_error notif_db :=
  guard! (0 <? lease)%Z else ErrNotifArguments in
  fencedNotificationAck db c (extended_row (Add now lease)).

Definition ReleaseNotificationClaim (db : notif_db) (c : NotificationClaim) : result notif_error notif_db :=
  fencedNotificationAck db c released_row.

Definition lease_expired (now : Time) (n : NotificationIntent) : bool :=
  is_status IntentPending n && is_set (ni_ClaimOwner n)
  && match ni_LeaseExpiresAt n with Some t => text_leb t now | None => false end.

Definition RecoverExpiredNotificationClaims (db : notif_db) (now : Time) : nat * notif_db :=
  (length (select (lease_expired now) (intents db)),
   with_intents db (update (lease_expired now) released_row (intents db))).

(** ** Back to the queue *)

(** The index over the pending roots, when a row becomes pending. *)
Definition setNotificationIntentPendingTx (db : notif_db) (id : string) (from : IntentStatus) (now : Time)
    : result notif_error notif_db :=
  match find_intent id (intents db) with
  | None => Err ErrNotifMoved
  | Some n =>
      guard! is_status from n else ErrNotifMoved in
      guard! negb (is_class EffectRootSync n
                   && match ni_SituationID n with
                      | Some sid => existsb (λ o, pending_root sid o && negb (has_id id o)) (intents db)
                      | None => false
                      end) else ErrNotifConstraint in
      Ok (with_intents db (update (λ n, has_id id n && is_status from n) (pending_row now) (intents db)))
  end.

Definition clearPendingRootForRedriveTx (db : notif_db) (sid id : string) (createdAt : Time)
    : result notif_error notif_db :=
  match head (select (pending_root sid) (intents db)) with
  | None => Ok db
  | Some p =>
      guard! negb (text_ltb createdAt (ni_CreatedAt p)
                   || Equal (ni_CreatedAt p) createdAt && str_ltb id (ni_ID p)) else ErrNewerRootProjectionPending in
      Ok (supersedeLiveRootSyncTx db sid id)
  end.

Definition RedriveFailedNotificationIntent (db : notif_db) (id : string) (now : Time) : result notif_error notif_db :=
  guard! negb (str_eqb (TrimSpace id) "") else ErrNotifArguments in
  match find_intent id (intents db) with
  | None => Err ErrNotifNotFound
  | Some n =>
      guard! is_status IntentFailed n else ErrNotifNotFound in
      let? db := match ni_SituationID n with
                 | Some sid => if is_class EffectRootSync n
                               then clearPendingRootForRedriveTx db sid id (ni_CreatedAt n) else Ok db
                 | None => Ok db
                 end in
      setNotificationIntentPendingTx db id IntentFailed now
  end.

Definition root_version_ltb : NotificationIntent → NotificationIntent → bool :=
  lex_less (key_ltb (λ n, default 0%Z (ni_SummaryVersion n))) created_ltb.

Definition reactivateBlockedRootSyncTx (db : notif_db) (sid : string) (now : Time) : result notif_error (nat * notif_db) :=
  match last (SliceStable root_version_ltb
                (select (λ n, in_situation sid n && is_class EffectRootSync n && (live n || is_status IntentDelivered n))
                   (intents db))) with
  | None => Ok (0, db)
  | Some keeper =>
      let db := supersedeLiveRootSyncTx db sid (ni_ID keeper) in
      if negb (is_status IntentBlockedConfiguration keeper) then Ok (0, db)
      else let? db := setNotificationIntentPendingTx db (ni_ID keeper) IntentBlockedConfiguration now in Ok (1, db)
  end.

Definition blocked_situations (l : list NotificationIntent) : list string :=
  SliceStable str_ltb (remove_dups (omap ni_SituationID
    (select (λ n, is_status IntentBlockedConfiguration n && is_class EffectRootSync n) l))).

Fixpoint reactivate_roots (db : notif_db) (sids : list string) (now : Time) (total : nat) : result notif_error (nat * notif_db) :=
  match sids with
  | [] => Ok (total, db)
  | sid :: sids =>
      let? p := reactivateBlockedRootSyncTx db sid now in
      reactivate_roots p.2 sids now (total + p.1)
  end.

Definition reactivateBlockedIntentsTx (db : notif_db) (now : Time) : result notif_error (nat * notif_db) :=
  let effects n := is_status IntentBlockedConfiguration n && negb (is_class EffectRootSync n) in
  let total := length (select effects (intents db)) in
  let db := with_intents db (update effects (pending_row now) (intents db)) in
  reactivate_roots db (blocked_situations (intents db)) now total.

Definition with_configuration (h : slack_delivery_state) (generation : Z) (now : Time) : slack_delivery_state :=
  {| first_failure_at := first_failure_at h; last_success_at := last_success_at h;
     open_gap_generation := open_gap_generation h; configuration_generation := generation;
     last_warning_at := last_warning_at h; updated_at := now |}.

Definition ReactivateConfigurationBlocked (db : notif_db) (generation : Z) (now : Time) : result notif_error (nat * notif_db) :=
  guard! (0 <? generation)%Z else ErrNotifArguments in
  if negb (configuration_generation (health db) <? generation)%Z then Ok (0, db)
  else reactivateBlockedIntentsTx (with_health db (with_configuration (health db) generation now)) now.

(** ** Delivery gaps *)

Definition ObserveSlackFailure (db : notif_db) (class : string) (now : Time) : result notif_error notif_db :=
  guard! validateNotificationErrorClass class else ErrNotifArguments in
  let h := health db in
  Ok (with_health db
        {| first_failure_at := Some (default now (first_failure_at h)); last_success_at := last_success_at h;
           open_gap_generation := open_gap_generation h; configuration_generation := configuration_generation h;
           last_warning_at := match first_failure_at h with None => Some now | Some _ => last_warning_at h end;
           updated_at := now |}).

Definition ObserveSlackSuccess (db : notif_db) (now : Time) : notif_db :=
  let h := health db in
  with_health db
    {| first_failure_at := None; last_success_at := Some now; open_gap_generation := open_gap_generation h;
       configuration_generation := configuration_generation h; last_warning_at := last_warning_at h; updated_at := now |}.

Definition with_open_gap (h : slack_delivery_state) (g : option string) (now : Time) : slack_delivery_state :=
  {| first_failure_at := first_failure_at h; last_success_at := last_success_at h; open_gap_generation := g;
     configuration_generation := configuration_generation h; last_warning_at := last_warning_at h; updated_at := now |}.

Definition owes_root (db : notif_db) (sid : string) : bool :=
  existsb (λ r, in_situation sid r && is_class EffectRootSync r && live r) (intents db).

Definition replayable (db : notif_db) (asOf : Time) (n : NotificationIntent) : bool :=
  is_status IntentPending n && text_leb (ni_CreatedAt n) asOf
  && match ni_SituationID n with
     | None => false
     | Some sid => negb (ni_RequiresRoot n) || published db sid || owes_root db sid
     end.

Definition replayableBacklogTx (db : notif_db) (asOf : Time) : Z * Z :=
  let backlog := select (replayable db asOf) (intents db) in
  (Z.of_nat (length (remove_dups (omap ni_SituationID backlog))), Z.of_nat (length backlog)).

Definition find_gap (id : string) (l : list delivery_gap) : option delivery_gap :=
  head (filter (λ g, str_eqb (gap_id g) id = true) l).

Definition OpenGapStatus (db : notif_db) : option GapStatus :=
  open_gap_generation (health db) ≫= λ id, gap_status <$> find_gap id (gaps db).

Definition update_gap (id : string) (from : GapStatus) (f : delivery_gap → delivery_gap) (l : list delivery_gap)
    : list delivery_gap :=
  (λ g, if str_eqb (gap_id g) id && gap_is from g then f g else g) <$> l.

Definition replaying_gap (now : Time) (backlog : Z * Z) (notice : string) (g : delivery_gap) : delivery_gap :=
  {| gap_id := gap_id g; gap_status := GapReplaying; opened_at := opened_at g;
     affected_situation_count := backlog.1; delayed_effect_count := backlog.2;
     recovery_notice_intent_id := Some notice; recovered_at := Some now; completed_at := completed_at g |}.

Definition completed_gap (now : Time) (g : delivery_gap) : delivery_gap :=
  {| gap_id := gap_id g; gap_status := GapComplete; opened_at := opened_at g;
     affected_situation_count := affected_situation_count g; delayed_effect_count := delayed_effect_count g;
     recovery_notice_intent_id := recovery_notice_intent_id g; recovered_at := recovered_at g; completed_at := Some now |}.

Definition notice_delivered (db : notif_db) (g : delivery_gap) : bool :=
  match recovery_notice_intent_id g with
  | Some id => match find_intent id (intents db) with Some n => is_status IntentDelivered n | None => false end
  | None => false
  end.

Section gaps.
Context (NewGapGenerationID : Time → string) (intentIdentity : string → string).

Definition OpenDueDeliveryGap (db : notif_db) (now : Time) (threshold : Duration) : result notif_error (bool * notif_db) :=
  guard! (0 <? threshold)%Z else ErrNotifArguments in
  match first_failure_at (health db) with
  | None => Ok (false, db)
  | Some first =>
      if (Sub now first <? threshold)%Z then Ok (false, db)
      else if bool_decide (OpenGapStatus db = Some GapOpen) then Ok (false, db)
      else
        let generation := NewGapGenerationID first in
        if existsb (λ g, str_eqb (gap_id g) generation) (gaps db) then Ok (false, db)
        else
          let backlog := replayableBacklogTx db now in
          Ok (true,
              with_health
                (with_gaps db (gaps db ++
                   [{| gap_id := generation; gap_status := GapOpen; opened_at := first;
                       affected_situation_count := backlog.1; delayed_effect_count := backlog.2;
                       recovery_notice_intent_id := None; recovered_at := None; completed_at := None |}]))
                (with_open_gap (health db) (Some generation) now))
  end.

Definition RecoverDeliveryGap (db : notif_db) (now : Time) : result notif_error (option string * notif_db) :=
  match best (flip gap_ltb) (filter (λ g, gap_is GapOpen g = true) (gaps db)) with
  | None => Ok (None, db)
  | Some g =>
      let backlog := replayableBacklogTx db now in
      match GapRecoveryIntent intentIdentity (gap_id g) now with
      | Err e => Err (ErrNotifInvalid e)
      | Ok notice =>
          let? db := if existsb (has_id (ni_ID notice)) (intents db) then Ok db else insertNotificationIntentTx db notice in
          Ok (Some (gap_id g), with_gaps db (update_gap (gap_id g) GapOpen (replaying_gap now backlog (ni_ID notice)) (gaps db)))
      end
  end.

Definition CompleteDeliveryGap (db : notif_db) (now : Time) : option string * notif_db :=
  match best (flip gap_ltb) (filter (λ g, gap_is GapReplaying g && notice_delivered db g = true) (gaps db)) with
  | None => (None, db)
  | Some g =>
      if existsb (replayable db (default time_zero (recovered_at g))) (intents db) then (None, db)
      else (Some (gap_id g),
            with_health (with_gaps db (update_gap (gap_id g) GapReplaying (completed_gap now) (gaps db)))
              (if bool_decide (open_gap_generation (health db) = Some (gap_id g))
               then with_open_gap (health db) None now else health db))
  end.
End gaps.

(** ** The system *)

(** What the planner of a commit gives the store: intents of one Situation, not
    yet attempted, at most one of them a root, whose replies belong to later
    Transitions than every reply there and whose identities are not those of
    gap notices. *)
Definition unattempted (n : NotificationIntent) : Prop :=
  (ni_Status n = IntentPending ∨ ni_Status n = IntentWithheld) ∧ ni_ClaimOwner n = None ∧ ni_ClaimToken n = 0%Z.

Definition reply (n : NotificationIntent) : bool := needs_root (ni_EffectClass n).

Record planned (intentIdentity : string → string) (db : notif_db) (sid : string) (l : list NotificationIntent) : Prop := {
  pl_situation : Forall (λ n, ni_SituationID n = Some sid) l;
  pl_unattempted : Forall unattempted l;
  pl_one_root : (length (select (is_class EffectRootSync) l) ≤ 1)%nat;
  pl_later : ∀ n o, n ∈ l → o ∈ intents db → reply n = true → reply o = true → ni_SituationID o = Some sid →
             (sequence_key o < sequence_key n)%Z;
  pl_not_notice : ∀ n g now i, n ∈ l → GapRecoveryIntent intentIdentity g now = Ok i → ni_ID n ≠ ni_ID i
}.

Inductive notif_event : Type :=
| EvOther
| EvFailure (now : Time)
| EvSuccess (now : Time)
| EvOpened (generation : string) (first now : Time) (threshold : Duration)
| EvClaimed (claims : list NotificationClaim)
| EvFinal (c : NotificationClaim).          (* an acknowledgement that ends a claim *)

Section system.
Context (NewGapGenerationID : Time → string) (intentIdentity : string → string).

(** One transaction of a delivery worker, of the health of Slack or of an
    operator; the acknowledgements may name any claim. *)
Inductive worker_step (db : notif_db) : notif_event → notif_db → Prop :=
| NClaim owner now lease limit cs db' :
    ClaimNotificationIntents db owner now lease limit = Ok (cs, db') → worker_step db (EvClaimed cs) db'
| NDelivered c d now db' : MarkNotificationDelivered db c d now = (db', None) → worker_step db (EvFinal c) db'
| NDeliveryLost c d now db' e : MarkNotificationDelivered db c d now = (db', Some e) → worker_step db EvOther db'
| NRetry c class retryAt db' : RetryNotificationIntent db c class retryAt = Ok db' → worker_step db (EvFinal c) db'
| NBlock c class db' : BlockNotificationConfiguration db c class = Ok db' → worker_step db (EvFinal c) db'
| NFail c class db' : FailNotificationIntent db c class = Ok db' → worker_step db (EvFinal c) db'
| NRelease c db' : ReleaseNotificationClaim db c = Ok db' → worker_step db (EvFinal c) db'
| NHeartbeat c now lease db' : HeartbeatNotificationClaim db c now lease = Ok db' → worker_step db EvOther db'
| NRecoverExpired now : worker_step db EvOther (RecoverExpiredNotificationClaims db now).2
| NRedrive id now db' : RedriveFailedNotificationIntent db id now = Ok db' → worker_step db EvOther db'
| NReactivate generation now n db' :
    ReactivateConfigurationBlocked db generation now = Ok (n, db') → worker_step db EvOther db'
| NFailure class now db' : ObserveSlackFailure db class now = Ok db' → worker_step db (EvFailure now) db'
| NSuccess now : worker_step db (EvSuccess now) (ObserveSlackSuccess db now)
| NOpen now threshold first db' :
    OpenDueDeliveryGap NewGapGenerationID db now threshold = Ok (true, db') → first_failure_at (health db) = Some first →
    worker_step db (EvOpened (NewGapGenerationID first) first now threshold) db'
| NRecover now g db' : RecoverDeliveryGap intentIdentity db now = Ok (g, db') → worker_step db EvOther db'
| NComplete now : worker_step db EvOther (CompleteDeliveryGap db now).2.

(** One transaction of any caller: a new Situation, a commit of a reconciliation
    or one of the workers. *)
Inductive notif_step (db : notif_db) : notif_event → notif_db → Prop :=
| NSituation sid : roots db !! sid = None → notif_step db EvOther (with_roots db (<[sid := None]> (roots db)))
| NCommit sid l db1 replacement reason obsolete :
    planned intentIdentity db sid l → insertNotificationIntentsTx db sid l = Ok db1 →
    notif_step db EvOther (supersedeNotificationIntentIDsTx db1 sid replacement reason obsolete)
| NWorker ev db' : worker_step db ev db' → notif_step db ev db'.

Definition initial (db : notif_db) : Prop :=
  intents db = [] ∧ gaps db = [] ∧ first_failure_at (health db) = None ∧ open_gap_generation (health db) = None.

Inductive trace : list notif_event → notif_db → Prop :=
| TraceNil db : initial db → trace [] db
| TraceStep evs db ev db' : trace evs db → notif_step db ev db' → trace (evs ++ [ev]) db'.
End system.

(** ** Rows and their updates *)

(** The columns the schema keeps as they were inserted. *)
Definition identity (n : NotificationIntent) :=
  (ni_ID n, ni_IdempotencyKey n, ni_EffectClass n, ni_ReplyKind n, ni_SituationID n, ni_TransitionID n,
   ni_TransitionSequence n, ni_SummaryVersion n, ni_GapGeneration n, ni_RequiresRoot n, ni_MainChannelPoke n,
   ni_InterruptionPriority n, ni_ContractDeadlineAt n, ni_ClientMessageID n, ni_CreatedAt n).

(** A row moves on without an attempt: it keeps its identity and its token,
    nothing settled comes back, and a claim can only go. *)
Record calm (n n' : NotificationIntent) : Prop := {
  calm_identity : identity n' = identity n;
  calm_live : live n' = true → live n = true;
  calm_token : ni_ClaimToken n' = ni_ClaimToken n;
  calm_owner : ni_ClaimOwner n' = None ∨ ni_ClaimOwner n' = ni_ClaimOwner n
}.

#[export] Instance calm_preorder : PreOrder calm.
Proof.
  split; [split; auto|]. intros n1 n2 n3 [I L T O] [I' L' T' O']. split; [congruence|auto|congruence|].
  destruct O' as [O'|O']; [by left|]. rewrite O'. destruct O; auto.
Qed.

#[export] Instance calm_rows_preorder : PreOrder (Forall2 calm).
Proof. apply _. Qed.

Lemma elem_of_update P f l n' : n' ∈ update P f l ↔ ∃ n, n ∈ l ∧ n' = if P n then f n else n.
Proof. unfold update. rewrite list_elem_of_fmap. naive_solver. Qed.

Lemma elem_of_select P l n : n ∈ select P l ↔ P n = true ∧ n ∈ l.
Proof. unfold select. by rewrite list_elem_of_filter. Qed.

(** An update whose rows stay calm. *)
Lemma update_calm P f l : (∀ n, n ∈ l → P n = true → calm n (f n)) → Forall2 calm l (update P f l).
Proof.
  intros Hf. unfold update. apply Forall2_fmap_r, Forall_Forall2_diag, Forall_forall. intros n Hn.
  change (calm n (if P n then f n else n)). destruct (P n) eqn:E; [by apply Hf|reflexivity].
Qed.

Lemma identity_ID n n' : identity n' = identity n → ni_ID n' = ni_ID n.
Proof. unfold identity. by intros [= ?]. Qed.

(** Everything that is read off the identity of a row. *)
Lemma identity_reads n n' :
  identity n' = identity n →
  identity_check n' = identity_check n ∧ ni_EffectClass n' = ni_EffectClass n ∧ ni_SituationID n' = ni_SituationID n ∧
  reply n' = reply n ∧ reply_key n' = reply_key n ∧ ni_IdempotencyKey n' = ni_IdempotencyKey n ∧
  (∀ m, reply_ltb n' m = reply_ltb n m) ∧ (∀ m, reply_ltb m n' = reply_ltb m n) ∧ sequence_key n' = sequence_key n.
Proof.
  intros H. unfold identity in H. simplify_eq.
  unfold identity_check, reply_key, reply, reply_ltb, lex_less, key_ltb, skey_ltb, sequence_key, reply_rank, class_rank, is_class.
  repeat match goal with E : _ n' = _ n |- _ => rewrite E; clear E end. done.
Qed.

(** Which updates keep a row calm and its constraints. *)
Lemma is_status_true s n : is_status s n = true ↔ ni_Status n = s.
Proof. apply bool_decide_eq_true. Qed.

Lemma live_cases n : live n = true ↔ ni_Status n = IntentPending ∨ ni_Status n = IntentBlockedConfiguration ∨ ni_Status n = IntentFailed.
Proof. unfold live. rewrite !orb_true_iff, !is_status_true. tauto. Qed.

Ltac calm_row :=
  split; [done|try (rewrite !live_cases; simpl; intuition (congruence || auto)); try done|done|simpl; auto].

Lemma delivered_calm d now n : calm n (delivered_row d now n).
Proof. calm_row. Qed.
Lemma retried_calm class t n : calm n (retried_row class t n).
Proof. calm_row. Qed.
Lemma stopped_calm status class n : live n = true → calm n (stopped_row status class n).
Proof. intros Hl. split; [done|done|done|simpl; auto]. Qed.
Lemma extended_calm t n : calm n (extended_row t n).
Proof. calm_row. Qed.
Lemma released_calm n : calm n (released_row n).
Proof. calm_row. Qed.
Lemma superseded_calm reason r n : calm n (superseded_row reason r n).
Proof. calm_row. Qed.
Lemma pending_calm now n : live n = true → calm n (pending_row now n).
Proof. intros Hl. split; [done|done|done|simpl; auto]. Qed.

#[export] Instance opened_ltb_sw : StrictWeak (λ g h, text_ltb (opened_at g) (opened_at h)).
Proof. apply (image_sw opened_at), _. Qed.
#[export] Instance gap_ltb_sw : StrictWeak gap_ltb.
Proof. apply _. Qed.
#[export] Instance first_gap_sw : StrictWeak (flip gap_ltb).
Proof. apply flip_sw, _. Qed.
#[export] Instance created_ltb_sw : StrictWeak created_ltb.
Proof. apply lex_less_sw; [apply (image_sw ni_CreatedAt), _|apply _]. Qed.

(** ** Transactions that leave the rows calm *)

Definition calm_db (db db' : notif_db) : Prop := Forall2 calm (intents db) (intents db').

#[export] Instance calm_db_preorder : PreOrder calm_db.
Proof. split; [intros db; unfold calm_db; reflexivity|intros a b c; unfold calm_db; etrans; eauto]. Qed.

Lemma find_intent_some id l n : find_intent id l = Some n → n ∈ l ∧ ni_ID n = id.
Proof.
  unfold find_intent. intros H%head_Some_elem_of. apply elem_of_select in H as [H1 H2].
  split; [done|]. unfold has_id in H1. by go_bool.
Qed.

Lemma fenced_spec c n :
  fenced c n = true ↔ ni_ID n = ni_ID (cl_Intent c) ∧ ni_Status n = IntentPending ∧
                      ni_ClaimOwner n = Some (cl_ClaimOwner c) ∧ ni_ClaimToken n = cl_ClaimToken c.
Proof.
  unfold fenced, has_id, is_status. rewrite !andb_true_iff, !bool_decide_eq_true, Z.eqb_eq.
  unfold str_eqb. rewrite String.eqb_eq. tauto.
Qed.

Lemma fenced_live c n : fenced c n = true → live n = true.
Proof. rewrite fenced_spec, live_cases. intuition. Qed.

Lemma supersedeLive_calm db sid r : calm_db db (supersedeLiveRootSyncTx db sid r).
Proof. apply update_calm. intros. apply superseded_calm. Qed.

Lemma supersedeIDs_calm db sid r reason ids : calm_db db (supersedeNotificationIntentIDsTx db sid r reason ids).
Proof. apply update_calm. intros. apply superseded_calm. Qed.

(** A fenced write that went through: the claim was valid, some row was its,
    and only that row changed. *)
Lemma fencedAck_inv db c f db' :
  fencedNotificationAck db c f = Ok db' →
  validateNotificationClaim c = true ∧ existsb (fenced c) (intents db) = true ∧
  db' = with_intents db (update (fenced c) f (intents db)).
Proof.
  unfold fencedNotificationAck. destruct (validateNotificationClaim c); [|done].
  destruct (existsb (fenced c) (intents db)); [|done]. by intros [= <-].
Qed.

Lemma fencedAck_calm db c f db' :
  (∀ n, fenced c n = true → calm n (f n)) → fencedNotificationAck db c f = Ok db' → calm_db db db'.
Proof. intros Hf (_ & _ & ->)%fencedAck_inv. apply update_calm. auto. Qed.

Lemma retry_inv db c class t db' :
  RetryNotificationIntent db c class t = Ok db' → fencedNotificationAck db c (retried_row class t) = Ok db'.
Proof. unfold RetryNotificationIntent. by destruct (_ && _). Qed.
Lemma block_inv db c class db' :
  BlockNotificationConfiguration db c class = Ok db' →
  fencedNotificationAck db c (stopped_row IntentBlockedConfiguration class) = Ok db'.
Proof. unfold BlockNotificationConfiguration. by destruct (validateNotificationErrorClass class). Qed.
Lemma fail_inv db c class db' :
  FailNotificationIntent db c class = Ok db' → fencedNotificationAck db c (stopped_row IntentFailed class) = Ok db'.
Proof. unfold FailNotificationIntent. by destruct (validateNotificationErrorClass class). Qed.
Lemma heartbeat_inv db c now lease db' :
  HeartbeatNotificationClaim db c now lease = Ok db' → fencedNotificationAck db c (extended_row (Add now lease)) = Ok db'.
Proof. unfold HeartbeatNotificationClaim. by destruct (0 <? lease)%Z. Qed.

Lemma set_root_intents db sid d : intents (set_root db sid d) = intents db.
Proof. unfold set_root. by destruct (roots db !! sid). Qed.
Lemma set_root_rest db sid d : gaps (set_root db sid d) = gaps db ∧ health (set_root db sid d) = health db.
Proof. unfold set_root. by destruct (roots db !! sid). Qed.

(** A delivery that counts is a fenced write; one that does not leaves the
    ledger alone. *)
Lemma delivered_inv db c d now db' :
  MarkNotificationDelivered db c d now = (db', None) →
  validateNotificationClaim c = true ∧ existsb (fenced c) (intents db) = true ∧
  intents db' = update (fenced c) (delivered_row d now) (intents db) ∧ gaps db' = gaps db ∧ health db' = health db.
Proof.
  unfold MarkNotificationDelivered. destruct (validateNotificationClaim c); [|done]. simpl.
  destruct (_ || _); [done|]. destruct (existsb (fenced c) (intents db)).
  - intros H. split_and!; [done|done|..]; revert H; repeat case_match; intros [= <-]; rewrite ?set_root_intents; try done;
      by destruct (set_root_rest (with_intents db (update (fenced c) (delivered_row d now) (intents db))) s d).
  - destruct (acknowledgeSupersededDeliveryTx db c d). done.
Qed.

Lemma delivery_lost_inv db c d now db' e :
  MarkNotificationDelivered db c d now = (db', Some e) →
  intents db' = intents db ∧ gaps db' = gaps db ∧ health db' = health db.
Proof.
  unfold MarkNotificationDelivered. destruct (negb _ || _ || _ || _); [by intros [= <- _]|].
  destruct (existsb (fenced c) (intents db)).
  - repeat case_match; done.
  - unfold acknowledgeSupersededDeliveryTx. repeat case_match; intros [= <- _]; subst; try done; simplify_eq;
      split_and!; rewrite ?set_root_intents; try done; apply set_root_rest.
Qed.

Lemma setPending_inv db id from now db' :
  setNotificationIntentPendingTx db id from now = Ok db' →
  db' = with_intents db (update (λ n, has_id id n && is_status from n) (pending_row now) (intents db)).
Proof.
  unfold setNotificationIntentPendingTx. destruct (find_intent id (intents db)); [|done].
  destruct (is_status from n); [|done]. destruct (negb _); [|done]. by intros [= <-].
Qed.

Lemma setPending_calm db id from now db' :
  from = IntentFailed ∨ from = IntentBlockedConfiguration →
  setNotificationIntentPendingTx db id from now = Ok db' → calm_db db db'.
Proof.
  intros Hfrom ->%setPending_inv. apply update_calm. intros n _ [_ Hs]%andb_true_iff. apply pending_calm.
  rewrite is_status_true in Hs. rewrite live_cases. destruct Hfrom; subst; auto.
Qed.

Lemma clear_inv db sid id t db' :
  clearPendingRootForRedriveTx db sid id t = Ok db' → db' = db ∨ db' = supersedeLiveRootSyncTx db sid id.
Proof.
  unfold clearPendingRootForRedriveTx. destruct (head _); [|intros [= <-]; by left].
  destruct (negb _); [|done]. intros [= <-]. by right.
Qed.

(** What a redrive and a reactivation do, as a relation between the tables:
    they supersede live roots and make rows pending. *)
Section back_to_the_queue.
Context (R : notif_db → notif_db → Prop) `{!PreOrder R}.
Hypothesis R_supersede : ∀ db sid r, R db (supersedeLiveRootSyncTx db sid r).
Hypothesis R_pending : ∀ db id from now db',
  from = IntentFailed ∨ from = IntentBlockedConfiguration →
  setNotificationIntentPendingTx db id from now = Ok db' → R db db'.

Lemma redrive_rel db id now db' : RedriveFailedNotificationIntent db id now = Ok db' → R db db'.
Proof using All.
  unfold RedriveFailedNotificationIntent. destruct (negb _); [|done]. destruct (find_intent id (intents db)) as [n|]; [|done].
  destruct (is_status IntentFailed n); [|done]. intros H.
  assert (∃ db1, R db db1 ∧ setNotificationIntentPendingTx db1 id IntentFailed now = Ok db') as (db1 & H1 & H2).
  { destruct (ni_SituationID n) as [sid|]; [|by exists db]. destruct (is_class EffectRootSync n); [|by exists db].
    destruct (clearPendingRootForRedriveTx db sid id (ni_CreatedAt n)) as [db1|] eqn:E; [|done].
    exists db1. split; [|done]. apply clear_inv in E as [->| ->]; [done|apply R_supersede]. }
  etrans; [exact H1|]. eapply R_pending, H2. by left.
Qed.

Lemma reactivateRoot_rel db sid now k db' : reactivateBlockedRootSyncTx db sid now = Ok (k, db') → R db db'.
Proof using All.
  unfold reactivateBlockedRootSyncTx. destruct (last _) as [keeper|]; [|by intros [= _ <-]].
  destruct (negb _); [intros [= _ <-]; apply R_supersede|].
  destruct (setNotificationIntentPendingTx _ _ _ _) as [db1|] eqn:E; [|done]. intros [= _ <-].
  etrans; [apply R_supersede|]. eapply R_pending, E. by right.
Qed.

Lemma reactivateRoots_rel sids db now total k db' : reactivate_roots db sids now total = Ok (k, db') → R db db'.
Proof using All.
  revert db total. induction sids as [|sid sids IH]; intros db total; cbn [reactivate_roots]; [by intros [= _ <-]|].
  destruct (reactivateBlockedRootSyncTx db sid now) as [[k1 db1]|] eqn:E; [|done]. simpl. intros H.
  etrans; [eapply reactivateRoot_rel, E|eauto].
Qed.

Hypothesis R_blocked : ∀ db g now,
  R db (with_intents (with_health db (with_configuration (health db) g now))
          (update (λ n, is_status IntentBlockedConfiguration n && negb (is_class EffectRootSync n)) (pending_row now) (intents db))).

Lemma reactivate_rel db g now k db' : ReactivateConfigurationBlocked db g now = Ok (k, db') → R db db'.
Proof using All.
  unfold ReactivateConfigurationBlocked. destruct (0 <? g)%Z; [|done]. destruct (negb _); [by intros [= _ <-]|].
  intros H%reactivateRoots_rel. etrans; [apply (R_blocked db g now)|exact H].
Qed.
End back_to_the_queue.

Lemma blocked_live s n : is_status IntentBlockedConfiguration n && s = true → live n = true.
Proof. intros [Hs _]%andb_true_iff. rewrite is_status_true in Hs. rewrite live_cases. auto. Qed.

Lemma redrive_calm db id now db' : RedriveFailedNotificationIntent db id now = Ok db' → calm_db db db'.
Proof. apply redrive_rel; [apply _|apply supersedeLive_calm|apply setPending_calm]. Qed.

Lemma reactivate_calm db g now k db' : ReactivateConfigurationBlocked db g now = Ok (k, db') → calm_db db db'.
Proof.
  apply reactivate_rel; [apply _|apply supersedeLive_calm|apply setPending_calm|].
  intros db0 g0 now0. apply update_calm. intros n _ Hn. by eapply pending_calm, blocked_live.
Qed.

Lemma recoverExpired_calm db now : calm_db db (RecoverExpiredNotificationClaims db now).2.
Proof. apply update_calm. intros. apply released_calm. Qed.

(** The gap tables and the health row of the transactions on the ledger. *)
Definition same_gaps (db db' : notif_db) : Prop := gaps db' = gaps db ∧ first_failure_at (health db') = first_failure_at (health db) ∧
  open_gap_generation (health db') = open_gap_generation (health db).

#[export] Instance same_gaps_preorder : PreOrder same_gaps.
Proof. split; [done|]. intros a b c (H1&H2&H3) (K1&K2&K3). split_and!; congruence. Qed.

Lemma redrive_gaps db id now db' : RedriveFailedNotificationIntent db id now = Ok db' → same_gaps db db'.
Proof. apply redrive_rel; [apply _|done|]. by intros db0 id0 from now0 db1 _ ->%setPending_inv. Qed.

Lemma reactivate_gaps db g now k db' : ReactivateConfigurationBlocked db g now = Ok (k, db') → same_gaps db db'.
Proof. apply reactivate_rel; [apply _|done| |done]. by intros db0 id0 from now0 db1 _ ->%setPending_inv. Qed.

(** ** Insertion *)

Lemma insert_inv db n db' :
  insertNotificationIntentTx db n = Ok db' →
  row_check n = true ∧ fits db n = true ∧ db' = with_intents db (intents db ++ [n]).
Proof.
  unfold insertNotificationIntentTx. destruct (row_check n), (fits db n); try done. by intros [= <-].
Qed.

Lemma fits_fresh db n : fits db n = true → ni_ID n ∉ (ni_ID <$> intents db).
Proof.
  unfold fits. rewrite !andb_true_iff, negb_true_iff. intros (((((H&_)&_)&_)&_)&_) Hin.
  apply list_elem_of_fmap in Hin as (o & Ho & Hin).
  assert (existsb (has_id (ni_ID n)) (intents db) = true); [|congruence].
  apply existsb_exists. exists o. split; [by apply list_elem_of_In|]. unfold has_id. rewrite Ho. apply str_eqb_refl.
Qed.

Lemma insert_all_inv db l db' :
  insert_all db l = Ok db' →
  intents db' = intents db ++ l ∧ same_gaps db db' ∧ roots db' = roots db ∧
  Forall (λ n, row_check n = true) l ∧
  (NoDup (ni_ID <$> intents db) → NoDup (ni_ID <$> intents db')).
Proof.
  revert db. induction l as [|n l IH]; intros db; cbn [insert_all].
  { intros [= <-]. rewrite app_nil_r. by repeat split. }
  destruct (insertNotificationIntentTx db n) as [db1|] eqn:E; [|done]. cbn [res_bind].
  apply insert_inv in E as (Hc & Hf & ->). intros (H1 & H2 & H3 & H4 & H5)%IH. cbn [with_intents intents] in *.
  split_and!; [by rewrite H1, <- app_assoc|etrans; [|exact H2]; done|done|by constructor|].
  intros Hnd. apply H5. rewrite fmap_app. apply NoDup_app. split_and!; [done| |apply NoDup_singleton].
  intros id Hin ->%list_elem_of_singleton. by apply (fits_fresh db n).
Qed.

(** ** The invariant of the queue *)

Definition live_root (sid : string) (n : NotificationIntent) : Prop :=
  ni_SituationID n = Some sid ∧ ni_EffectClass n = EffectRootSync ∧ live n = true.

Definition before (n o : NotificationIntent) : Prop :=
  reply n = true ∧ reply o = true ∧ (∃ sid, ni_SituationID n = Some sid ∧ ni_SituationID o = Some sid) ∧
  reply_ltb n o = true.

Record queue_ok (db : notif_db) : Prop := {
  qo_ids : NoDup (ni_ID <$> intents db);
  qo_one_root : ∀ sid n o, n ∈ intents db → o ∈ intents db → live_root sid n → live_root sid o → n = o;
  qo_ordered : ∀ n o, n ∈ intents db → o ∈ intents db → before n o → (0 < ni_ClaimToken o)%Z → live n = false
}.

(** The part of [calm] that a claim has too. *)
Definition keeps (n n' : NotificationIntent) : Prop := identity n' = identity n ∧ (live n' = true → live n = true).

Lemma calm_keeps l l' : Forall2 calm l l' → Forall2 keeps l l'.
Proof. intros H. eapply Forall2_impl; [exact H|]. intros n n' [I L _ _]. by split. Qed.

Lemma keeps_ids l l' : Forall2 keeps l l' → ni_ID <$> l' = ni_ID <$> l.
Proof. induction 1 as [|n n' l l' [Hn _] _ IH]; [done|]. cbn. by rewrite IH, (identity_ID _ _ Hn). Qed.

Lemma rows_back {R : NotificationIntent → NotificationIntent → Prop} l l' n' :
  Forall2 R l l' → n' ∈ l' → ∃ n, n ∈ l ∧ R n n'.
Proof.
  intros Hl Hn. apply list_elem_of_lookup in Hn as [i Hi]. eapply Forall2_lookup_r in Hl as (n & ? & ?); [|done].
  exists n. split; [by eapply list_elem_of_lookup_2|done].
Qed.

Lemma ids_inj db n o : NoDup (ni_ID <$> intents db) → n ∈ intents db → o ∈ intents db → ni_ID n = ni_ID o → n = o.
Proof.
  intros Hnd [i Hi]%list_elem_of_lookup [j Hj]%list_elem_of_lookup Hid.
  assert (i = j) as ->; [|congruence].
  eapply NoDup_lookup; [done| |]; rewrite list_lookup_fmap; [rewrite Hi|rewrite Hj]; simpl; [done|by rewrite Hid].
Qed.

(** What of the invariant does not look at tokens. *)
Record queue_shape (db : notif_db) : Prop := {
  qs_ids : NoDup (ni_ID <$> intents db);
  qs_one_root : ∀ sid n o, n ∈ intents db → o ∈ intents db → live_root sid n → live_root sid o → n = o
}.

Lemma queue_ok_shape db : queue_ok db → queue_shape db.
Proof. by intros [? ? _]. Qed.

Lemma keeps_shape db db' : Forall2 keeps (intents db) (intents db') → queue_shape db → queue_shape db'.
Proof.
  intros Hc [Hids Hone]. split; [by rewrite (keeps_ids _ _ Hc)|].
  intros sid n' o' Hn Ho (S1 & C1 & L1) (S2 & C2 & L2).
  destruct (rows_back _ _ _ Hc Hn) as (n & Hn0 & In & Ln), (rows_back _ _ _ Hc Ho) as (o & Ho0 & Io & Lo).
  destruct (identity_reads _ _ In) as (_ & E1 & E2 & _), (identity_reads _ _ Io) as (_ & F1 & F2 & _).
  assert (n = o) as ->.
  { apply (Hone sid); [done|done|split_and!|split_and!]; try congruence; auto. }
  apply (ids_inj db'); [by rewrite (keeps_ids _ _ Hc)|done|done|].
  by rewrite (identity_ID _ _ In), (identity_ID _ _ Io).
Qed.

(** A row comes before another as their originals did. *)
Lemma before_back n o n' o' :
  identity n' = identity n → identity o' = identity o → before n' o' → before n o.
Proof.
  intros In Io (R1 & R2 & (sid & S1 & S2) & Hlt).
  destruct (identity_reads _ _ In) as (_ & _ & E2 & E3 & _ & _ & E4 & _), (identity_reads _ _ Io) as (_ & _ & F2 & F3 & _ & _ & _ & F4 & _).
  split_and!; [by rewrite <- E3|by rewrite <- F3|exists sid; split; congruence|by rewrite <- E4, <- F4].
Qed.

Lemma calm_queue db db' : calm_db db db' → queue_ok db → queue_ok db'.
Proof.
  intros Hc Hq. destruct (keeps_shape db db') as [Hids Hone]; [by apply calm_keeps|by apply queue_ok_shape|].
  split; [done|done|]. intros n' o' Hn Ho Hb Ht.
  destruct (rows_back _ _ _ Hc Hn) as (n & Hn0 & [In Ln _ _]), (rows_back _ _ _ Hc Ho) as (o & Ho0 & [Io _ To _]).
  apply not_true_is_false. intros Hl%Ln. rewrite (qo_ordered _ Hq n o) in Hl; [done|done|done| |lia].
  by eapply before_back.
Qed.

Lemma select_one P l n o : (length (select P l) ≤ 1)%nat → n ∈ l → o ∈ l → P n = true → P o = true → n = o.
Proof.
  intros Hlen Hn Ho Pn Po. assert (n ∈ select P l) by (by apply elem_of_select). assert (o ∈ select P l) by (by apply elem_of_select).
  destruct (select P l) as [|x [|y r]]; simpl in *; [set_solver|set_solver|lia].
Qed.

Lemma class_true c n : is_class c n = true ↔ ni_EffectClass n = c.
Proof. apply bool_decide_eq_true. Qed.

(** No live root but its replacement is left. *)
Lemma supersedeLive_roots db sid r n :
  n ∈ intents (supersedeLiveRootSyncTx db sid r) → live_root sid n → ni_ID n = r.
Proof.
  intros (n0 & _ & ->)%elem_of_update (S & C & L). destruct (_ && _ && _ && _) eqn:E; [done|].
  unfold in_situation in E. rewrite bool_decide_eq_true_2, (proj2 (class_true _ _) C), L in E by done. simpl in E.
  apply negb_false_iff in E. unfold has_id in E. by go_bool.
Qed.

Definition committing (db : notif_db) (sid : string) (l : list NotificationIntent) : notif_db :=
  match head (select (is_class EffectRootSync) l) with
  | Some r => supersedeLiveRootSyncTx db sid (ni_ID r)
  | None => db
  end.

Lemma committing_calm db sid l : calm_db db (committing db sid l).
Proof. unfold committing. destruct (head _); [apply supersedeLive_calm|done]. Qed.

Lemma commit_queue ii db sid l db1 :
  planned ii db sid l → insertNotificationIntentsTx db sid l = Ok db1 → queue_ok db → queue_ok db1.
Proof.
  intros [Hsit Hun Hroot Hlater _] Hi Hq. unfold insertNotificationIntentsTx in Hi. fold (committing db sid l) in Hi.
  pose proof (committing_calm db sid l) as Hc. pose proof (calm_queue _ _ Hc Hq) as [Hids Hone Hord].
  apply insert_all_inv in Hi as (Hrows & _ & _ & _ & Hids'). specialize (Hids' Hids).
  rewrite Forall_forall in Hsit, Hun.
  split; [done| |].
  - rewrite Hrows in Hids' |- *. rewrite fmap_app in Hids'. apply NoDup_app in Hids' as (_ & Hdisj & _).
    assert (Hmix : ∀ sid' n o, n ∈ intents (committing db sid l) → o ∈ l → live_root sid' n → live_root sid' o → False).
    { intros sid' n o Hn Ho Ln (S & C & L). assert (sid' = sid) as -> by (specialize (Hsit o Ho); congruence).
      destruct (head (select (is_class EffectRootSync) l)) as [r|] eqn:Er; cycle 1.
      { apply head_None in Er. assert (o ∈ select (is_class EffectRootSync) l) as Hs by (by apply elem_of_select; rewrite class_true).
        rewrite Er in Hs. by apply not_elem_of_nil in Hs. }
      pose proof Er as Hr. apply head_Some_elem_of, elem_of_select in Hr as [Hr1 Hr2].
      assert (r = o) as -> by (eapply select_one; eauto; by apply class_true).
      unfold committing in Hn, Hdisj. rewrite Er in Hn, Hdisj. apply (Hdisj (ni_ID o)).
      + apply list_elem_of_fmap. exists n. split; [|done]. symmetry. by apply (supersedeLive_roots db sid).
      + apply list_elem_of_fmap. by exists o. }
    intros sid' n o [Hn|Hn]%elem_of_app [Ho|Ho]%elem_of_app Ln Lo; [by apply (Hone sid')|by destruct (Hmix sid' n o)|by destruct (Hmix sid' o n)|].
    eapply select_one; eauto; apply class_true; [apply Ln|apply Lo].
  - rewrite Hrows. intros n o Hn [Ho|Ho]%elem_of_app Hb Ht; [|destruct (Hun o Ho) as (_ & _ & Ht0); lia].
    apply elem_of_app in Hn as [Hn|Hn]; [by apply (Hord n o)|]. exfalso. destruct Hb as (Rn & Ro & (sid' & S1 & S2) & Hlt).
    destruct (rows_back _ _ _ Hc Ho) as (o0 & Ho0 & Ko).
    destruct (identity_reads _ _ (calm_identity _ _ Ko)) as (_ & _ & F2 & F3 & _ & _ & _ & _ & F5).
    assert (sequence_key o0 < sequence_key n)%Z.
    { apply Hlater; [done|done|done|congruence|]. rewrite <- F2, S2, <- S1. by apply Hsit. }
    unfold reply_ltb, lex_less in Hlt. unfold key_ltb at 1 2 in Hlt.
    rewrite (proj2 (Z.ltb_ge _ _)), (proj2 (Z.ltb_lt _ _)) in Hlt by lia. done.
Qed.

(** *** A claim *)

Definition mine (ids : list string) (n : NotificationIntent) : bool := existsb (λ id, has_id id n) ids.

Lemma mine_true ids n : mine ids n = true ↔ ni_ID n ∈ ids.
Proof.
  unfold mine. rewrite existsb_exists. split.
  - intros (id & Hin & Hid). unfold has_id in Hid. go_bool. subst. by apply list_elem_of_In.
  - intros Hin. exists (ni_ID n). split; [by apply list_elem_of_In|]. apply str_eqb_refl.
Qed.

(** The rows a claim takes: the heads of their queues, or the notices the gate
    lets through. *)
Definition takes (db : notif_db) (now : Time) (n : NotificationIntent) : Prop :=
  match gate_noticeIDs (deliveryGapGateTx db) with
  | [] => claimable db now n = true
  | ids => ni_ID n ∈ ids ∧ ni_Status n = IntentPending ∧ unleased now n = true ∧ retry_due now n = true
  end.

Lemma due_ids db now limit n :
  NoDup (ni_ID <$> intents db) → n ∈ intents db →
  ni_ID n ∈ dueNotificationIntentIDsTx db (deliveryGapGateTx db) now limit → takes db now n.
Proof.
  intros Hnd Hn. unfold dueNotificationIntentIDsTx, takes.
  destruct (gate_noticeIDs (deliveryGapGateTx db)) as [|i l] eqn:E.
  - intros (o & Ho & Hin)%list_elem_of_fmap. apply in_take_sorted in Hin.
    apply elem_of_select in Hin as [Hc Hin]. by rewrite (ids_inj db n o Hnd Hn Hin Ho).
  - intros (o & Ho & Hin)%list_elem_of_fmap. apply in_take_sorted in Hin.
    apply elem_of_select in Hin as [Hc Hin]. rewrite (ids_inj db n o Hnd Hn Hin Ho).
    apply andb_true_iff in Hc as [Hc Hd]. apply andb_true_iff in Hc as [Hc Hu]. apply andb_true_iff in Hc as [Hm Hs].
    apply mine_true in Hm. rewrite is_status_true in Hs. done.
Qed.

Lemma claimed_inv db owner now lease limit cs db' :
  ClaimNotificationIntents db owner now lease limit = Ok (cs, db') →
  (cs = [] ∧ db' = db ∧ existsb (gap_is GapOpen) (gaps db) = true) ∨
  ∃ ids, gate_blocked (deliveryGapGateTx db) = false ∧ ids = dueNotificationIntentIDsTx db (deliveryGapGateTx db) now limit ∧
    db' = with_intents db (update (mine ids) (claimed_by owner (Add now lease)) (intents db)) ∧
    cs = (λ n, {| cl_Intent := n; cl_ClaimOwner := owner; cl_ClaimToken := ni_ClaimToken n |})
           <$> SliceStable claim_ltb (select (λ n, mine ids n && bool_decide (ni_ClaimOwner n = Some owner)) (intents db')).
Proof.
  unfold ClaimNotificationIntents. destruct (_ && _ && _); [|done].
  destruct (gate_blocked (deliveryGapGateTx db)) eqn:E.
  - intros [= <- <-]. left. split_and!; [done|done|]. revert E. unfold deliveryGapGateTx. by destruct (existsb _ _).
  - intros [= <- <-]. right. eexists. split_and!; [done|done|done|done].
Qed.

(** The identities of gap notices are theirs alone. *)
Definition notices_apart (ii : string → string) (db : notif_db) : Prop :=
  ∀ n g now i, n ∈ intents db → GapRecoveryIntent ii g now = Ok i → ni_ID n = ni_ID i →
  ni_EffectClass n = EffectInstallationGapRecovery.

(** The rows the gate lets through are notices. *)
Definition gate_notices (db : notif_db) : Prop :=
  ∀ n, n ∈ intents db → ni_ID n ∈ gate_noticeIDs (deliveryGapGateTx db) → ni_EffectClass n = EffectInstallationGapRecovery.

Lemma claim_row ids owner t n :
  let n' := if mine ids n then claimed_by owner t n else n in
  identity n' = identity n ∧ live n' = live n.
Proof. simpl. by destruct (mine ids n). Qed.

Lemma claim_keeps ids owner t l : Forall2 keeps l (update (mine ids) (claimed_by owner t) l).
Proof.
  unfold update. apply Forall2_fmap_r, Forall_Forall2_diag, Forall_forall. intros n _.
  destruct (claim_row ids owner t n) as [I L]. split; [done|]. by rewrite L.
Qed.

Lemma claim_queue db owner now lease limit cs db' :
  gate_notices db → ClaimNotificationIntents db owner now lease limit = Ok (cs, db') → queue_ok db → queue_ok db'.
Proof.
  intros Hg [(_ & -> & _)|(ids & _ & -> & -> & _)]%claimed_inv Hq; [done|].
  set (ids := dueNotificationIntentIDsTx _ _ _ _). cbn [with_intents intents].
  pose proof (claim_keeps ids owner (Add now lease) (intents db)) as Hk.
  destruct (keeps_shape db (with_intents db (update (mine ids) (claimed_by owner (Add now lease)) (intents db))) Hk) as [Hids Hone];
    [by apply queue_ok_shape|]. split; [done|done|]. cbn [with_intents intents].
  intros n' o' Hn Ho Hb Ht.
  apply elem_of_update in Hn as (n & Hn & ->), Ho as (o & Ho & ->).
  destruct (claim_row ids owner (Add now lease) n) as [In Ln], (claim_row ids owner (Add now lease) o) as [Io _].
  rewrite Ln. pose proof (before_back _ _ _ _ In Io Hb) as Hb0.
  destruct (mine ids o) eqn:Em; [|by apply (qo_ordered _ Hq n o)].
  apply mine_true in Em. apply due_ids in Em as Hcl; [|apply Hq|done]. unfold takes in Hcl.
  destruct (gate_noticeIDs (deliveryGapGateTx db)) as [|i l] eqn:Egate; cycle 1.
  { destruct Hcl as [Hnotice _], Hb0 as (_ & Ro & _). unfold reply in Ro. rewrite <- Egate in Hnotice. by rewrite (Hg o Ho Hnotice) in Ro. }
  unfold claimable in Hcl. rewrite !andb_true_iff in Hcl. destruct Hcl as ((((Hh & _) & _) & _) & _).
  destruct Hb0 as (Rn & Ro & (sid & S1 & S2) & Hlt). unfold heads_queue in Hh. rewrite S2 in Hh.
  rewrite forallb_forall in Hh. apply list_elem_of_In in Hn. specialize (Hh n Hn). apply negb_true_iff in Hh.
  apply not_true_is_false. intros Hl. unfold in_situation in Hh. rewrite bool_decide_eq_true_2, Hl in Hh by done.
  unfold queue_ltb, lex_less at 1, key_ltb at 1 2 in Hh. unfold root_first, is_class, reply in *.
  destruct (ni_EffectClass n), (ni_EffectClass o); simpl in *; congruence.
Qed.

(** ** The invariant of the gaps *)

Lemma update_gap_ids id from f gs : (∀ g, gap_id (f g) = gap_id g) → gap_id <$> update_gap id from f gs = gap_id <$> gs.
Proof.
  intros Hf. unfold update_gap. rewrite <- list_fmap_compose. apply list_fmap_ext. intros _ g _. simpl.
  destruct (_ && _); [apply Hf|done].
Qed.

Section invariants.
Context (NewGapGenerationID : Time → string) (ii : string → string).

#[local] Abbreviation step := (notif_step NewGapGenerationID ii).

Definition is_notice_of (g id : string) : Prop := ∃ now i, GapRecoveryIntent ii g now = Ok i ∧ ni_ID i = id.

Record gaps_ok (gs : list delivery_gap) (open : option string) : Prop := {
  go_ids : NoDup (gap_id <$> gs);
  go_identity : Forall (λ g, gap_id g = NewGapGenerationID (opened_at g)) gs;
  go_open : Forall (λ g, gap_status g = GapOpen → open = Some (gap_id g)) gs;
  go_notice : Forall (λ g, ∀ id, recovery_notice_intent_id g = Some id → is_notice_of (gap_id g) id) gs
}.

Record notif_inv (db : notif_db) : Prop := {
  inv_queue : queue_ok db;
  inv_gaps : gaps_ok (gaps db) (open_gap_generation (health db));
  inv_notices : notices_apart ii db;
  inv_identity : Forall (λ n, identity_check n = true) (intents db)
}.

Lemma keeps_identity db db' :
  Forall2 keeps (intents db) (intents db') → Forall (λ n, identity_check n = true) (intents db) →
  Forall (λ n, identity_check n = true) (intents db').
Proof.
  intros Hk Hc. apply Forall_forall. intros n' Hn. destruct (rows_back _ _ _ Hk Hn) as (n & Hn0 & In & _).
  destruct (identity_reads _ _ In) as (-> & _). rewrite Forall_forall in Hc. by apply Hc.
Qed.

Lemma keeps_notices db db' : Forall2 keeps (intents db) (intents db') → notices_apart ii db → notices_apart ii db'.
Proof.
  intros Hk Ha n' g now i Hn Hg Hid. destruct (rows_back _ _ _ Hk Hn) as (n & Hn0 & In & _).
  destruct (identity_reads _ _ In) as (_ & -> & _). eapply Ha; [done|done|]. by rewrite <- (identity_ID _ _ In).
Qed.

Lemma inv_gate db : notif_inv db → gate_notices db.
Proof.
  intros [_ Hg Ha _] n Hn Hin. unfold deliveryGapGateTx in Hin. destruct (existsb _ _); [by apply not_elem_of_nil in Hin|].
  apply list_elem_of_omap in Hin as (g & Hin & Hid). rewrite SliceStable_perm in Hin. apply list_elem_of_filter in Hin as [_ Hin].
  unfold notice_owed in Hid. destruct (recovery_notice_intent_id g) as [id|] eqn:Eg; [|done].
  assert (id = ni_ID n) as ->. { destruct (find_intent id (intents db)) as [o|]; [destruct (is_status _ o)|]; by simplify_eq. }
  pose proof (go_notice _ _ Hg) as Hno. rewrite Forall_forall in Hno.
  destruct (Hno g Hin (ni_ID n) Eg) as (now & i & Hi & Heq). by eapply Ha.
Qed.

(** A transaction that leaves the rows calm and the gaps alone. *)
Lemma calm_inv db db' :
  calm_db db db' → gaps db' = gaps db → open_gap_generation (health db') = open_gap_generation (health db) →
  notif_inv db → notif_inv db'.
Proof.
  intros Hc Hg Ho [Hq Hgaps Ha Hi]. apply calm_keeps in Hc as Hk.
  split; [by eapply calm_queue|by rewrite Hg, Ho|by eapply keeps_notices|by eapply keeps_identity].
Qed.

Lemma ack_inv db c f db' :
  (∀ n, fenced c n = true → calm n (f n)) → fencedNotificationAck db c f = Ok db' → notif_inv db → notif_inv db'.
Proof.
  intros Hf Ha. pose proof (fencedAck_calm _ _ _ _ Hf Ha) as Hc. apply fencedAck_inv in Ha as (_ & _ & ->).
  by apply calm_inv.
Qed.

Lemma committed_inv db sid l db1 :
  planned ii db sid l → insertNotificationIntentsTx db sid l = Ok db1 → notif_inv db → notif_inv db1.
Proof.
  intros Hp Hi [Hq Hg Ha Hid]. pose proof (commit_queue _ _ _ _ _ Hp Hi Hq) as Hq1.
  unfold insertNotificationIntentsTx in Hi. fold (committing db sid l) in Hi.
  apply insert_all_inv in Hi as (Hrows & Hsame & _ & Hck & _).
  assert (same_gaps db db1) as (G1 & G2 & G3).
  { etrans; [|exact Hsame]. unfold committing. by destruct (head _). }
  pose proof (calm_keeps _ _ (committing_calm db sid l)) as Hk.
  split; [done|by rewrite G1, G3| |]; cycle 1.
  { rewrite Hrows. apply Forall_app. split; [by eapply keeps_identity|]. eapply Forall_impl; [exact Hck|].
    intros n [? _]%andb_true_iff. done. }
  intros n g now i Hn Hgi Heq. rewrite Hrows in Hn. apply elem_of_app in Hn as [Hn|Hn].
  - by eapply (keeps_notices db (committing db sid l)).
  - by destruct (pl_not_notice _ _ _ _ Hp n g now i Hn Hgi).
Qed.

Lemma claim_inv_step db owner now lease limit cs db' :
  ClaimNotificationIntents db owner now lease limit = Ok (cs, db') → notif_inv db → notif_inv db'.
Proof.
  intros Hc Hi. pose proof (claim_queue _ _ _ _ _ _ _ (inv_gate _ Hi) Hc (inv_queue _ Hi)) as Hq. destruct Hi as [_ Hg Ha Hid].
  apply claimed_inv in Hc as [(_ & -> & _)|(ids & _ & _ & -> & _)]; [done|].
  pose proof (claim_keeps ids owner (Add now lease) (intents db)) as Hk.
  split; [done|done|by eapply keeps_notices|by eapply (keeps_identity db)].
Qed.

(** *** The transactions on the gaps *)

Lemma find_gap_some gs id g : find_gap id gs = Some g → g ∈ gs ∧ gap_id g = id.
Proof.
  unfold find_gap. intros H%head_Some_elem_of. apply list_elem_of_filter in H as [H1 H2]. split; [done|]. by go_bool.
Qed.

Lemma find_gap_unique gs g : NoDup (gap_id <$> gs) → g ∈ gs → find_gap (gap_id g) gs = Some g.
Proof.
  intros Hnd. unfold find_gap. induction gs as [|h gs IH]; [set_solver|]. cbn in Hnd. apply NoDup_cons in Hnd as [Hh Hnd].
  intros [->|Hin]%elem_of_cons; rewrite filter_cons.
  - by rewrite decide_True by apply str_eqb_refl.
  - rewrite decide_False; [by apply IH|]. intros Heq. go_bool. apply Hh. apply list_elem_of_fmap. by exists g.
Qed.

(** While a generation is open the state names it, so none other is. *)
Lemma open_named db g :
  gaps_ok (gaps db) (open_gap_generation (health db)) → g ∈ gaps db → gap_status g = GapOpen → OpenGapStatus db = Some GapOpen.
Proof.
  intros [Hids _ Ho _] Hg Hs. rewrite Forall_forall in Ho. unfold OpenGapStatus. rewrite (Ho g Hg Hs). simpl.
  by rewrite (find_gap_unique _ _ Hids Hg), <- Hs.
Qed.

(** When a generation opens, and what it finds. *)
Lemma open_spec db now threshold db' :
  OpenDueDeliveryGap NewGapGenerationID db now threshold = Ok (true, db') →
  ∃ first, first_failure_at (health db) = Some first ∧ (0 < threshold ≤ Sub now first)%Z ∧
    OpenGapStatus db ≠ Some GapOpen ∧ (NewGapGenerationID first ∉ (gap_id <$> gaps db)) ∧
    intents db' = intents db ∧ first_failure_at (health db') = Some first ∧
    open_gap_generation (health db') = Some (NewGapGenerationID first) ∧
    ∃ g, gaps db' = gaps db ++ [g] ∧ gap_id g = NewGapGenerationID first ∧ opened_at g = first ∧ gap_status g = GapOpen ∧
         recovery_notice_intent_id g = None.
Proof.
  unfold OpenDueDeliveryGap. destruct (0 <? threshold)%Z eqn:E0; [|done].
  destruct (first_failure_at (health db)) as [first|] eqn:E1; [|done].
  destruct (Sub now first <? threshold)%Z eqn:E2; [done|]. destruct (bool_decide _) eqn:E3; [done|].
  destruct (existsb _ _) eqn:E4; [done|]. intros [= <-]. exists first. apply bool_decide_eq_false in E3.
  split_and!; try done; [go_bool; lia|go_bool; lia| |by eexists].
  intros (g & Hg & Hin)%list_elem_of_fmap. apply not_true_iff_false in E4. apply E4, existsb_exists.
  exists g. split; [by apply list_elem_of_In|]. rewrite <- Hg. apply str_eqb_refl.
Qed.

Lemma open_inv db now threshold db' :
  OpenDueDeliveryGap NewGapGenerationID db now threshold = Ok (true, db') → notif_inv db → notif_inv db'.
Proof.
  intros (first & _ & _ & Hno & Hnew & Hrows & _ & Ho & g & Hgaps & Hid & Hat & Hs & Hn)%open_spec [Hq Hg Ha Hck].
  split; [|split| |by rewrite Hrows].
  - destruct Hq as [? ? ?]. by split; rewrite ?Hrows.
  - rewrite Hgaps, fmap_app. apply NoDup_app. split_and!; [apply Hg| |apply NoDup_singleton].
    intros id Hin ->%list_elem_of_singleton. by rewrite Hid in Hin.
  - rewrite Hgaps. apply Forall_app. split; [apply Hg|]. constructor; [by rewrite Hid, Hat|done].
  - rewrite Hgaps, Ho. apply Forall_app. split; [|constructor; [by rewrite Hid|done]].
    apply Forall_forall. intros h Hh Hopen. destruct Hno. by eapply open_named.
  - rewrite Hgaps. apply Forall_app. split; [apply Hg|]. constructor; [by rewrite Hn|done].
  - intros n. rewrite Hrows. apply Ha.
Qed.

Lemma elem_of_update_gap id from f gs g' :
  g' ∈ update_gap id from f gs → g' ∈ gs ∨ ∃ g, g ∈ gs ∧ gap_id g = id ∧ gap_status g = from ∧ g' = f g.
Proof.
  unfold update_gap. intros (g & -> & Hg)%list_elem_of_fmap. destruct (_ && _) eqn:E; [|by left]. right.
  apply andb_true_iff in E as [E1 E2]. unfold gap_is in E2. apply bool_decide_eq_true in E2. go_bool. by exists g.
Qed.

(** Moving a generation on, when nothing it changes to is open. *)
Lemma update_gap_ok gs id from f open :
  (∀ g, gap_id (f g) = gap_id g ∧ opened_at (f g) = opened_at g ∧ gap_status (f g) ≠ GapOpen) →
  (∀ g i, gap_id g = id → recovery_notice_intent_id (f g) = Some i → is_notice_of id i ∨ recovery_notice_intent_id g = Some i) →
  gaps_ok gs open → gaps_ok (update_gap id from f gs) open.
Proof.
  intros Hf Hnot [Hids Hid Ho Hn]. rewrite !Forall_forall in Hid, Ho, Hn. split.
  - replace (gap_id <$> update_gap id from f gs) with (gap_id <$> gs); [done|]. unfold update_gap. rewrite <- list_fmap_compose.
    apply list_fmap_ext. intros _ g _. simpl. destruct (_ && _); [symmetry; apply Hf|done].
  - apply Forall_forall. intros g' [Hg|(g & Hg & _ & _ & ->)]%elem_of_update_gap; [by apply Hid|].
    destruct (Hf g) as (-> & -> & _). by apply Hid.
  - apply Forall_forall. intros g' [Hg|(g & Hg & _ & _ & ->)]%elem_of_update_gap; [by apply Ho|].
    destruct (Hf g) as (_ & _ & Hs). done.
  - apply Forall_forall. intros g' [Hg|(g & Hg & E & _ & ->)]%elem_of_update_gap i Hi; [by apply Hn|].
    destruct (Hf g) as (-> & _ & _). destruct (Hnot g i E Hi) as [Hi'|Hi']; [by rewrite E|by apply Hn].
Qed.

Lemma recover_inv db now g db' :
  RecoverDeliveryGap ii db now = Ok (g, db') → notif_inv db → notif_inv db'.
Proof.
  unfold RecoverDeliveryGap. destruct (best _ _) as [h|]; [|by intros [= _ <-]].
  destruct (GapRecoveryIntent ii (gap_id h) now) as [notice|] eqn:En; [|done].
  assert (Hcls : ni_EffectClass notice = EffectInstallationGapRecovery ∧ ni_ClaimToken notice = 0%Z).
  { revert En. unfold GapRecoveryIntent. destruct (NotificationIntent_Validate _); [|done]. by intros [= <-]. }
  destruct (if existsb _ _ then _ else _) as [db1|] eqn:E1; [|done]. cbn [res_bind]. intros [= _ <-] [Hq Hg Ha Hck].
  assert (H1 : queue_ok db1 ∧ notices_apart ii db1 ∧ same_gaps db db1 ∧ Forall (λ n, identity_check n = true) (intents db1)).
  { destruct (existsb _ _); [by injection E1 as <-|]. apply insert_inv in E1 as (Hn1 & Hf & ->). split_and!; [| |done|];
      [..|apply Forall_app; split; [done|]; constructor; [by apply andb_true_iff in Hn1 as [? _]|done]].
    - destruct Hq as [Hids Hone Hord]. split; cbn [with_intents intents].
      + rewrite fmap_app. apply NoDup_app. split_and!; [done| |apply NoDup_singleton].
        intros id Hin ->%list_elem_of_singleton. by apply (fits_fresh db notice).
      + intros sid n o [Hn|Hn%list_elem_of_singleton]%elem_of_app [Ho|Ho%list_elem_of_singleton]%elem_of_app Ln Lo;
          subst; [by apply (Hone sid)|destruct Hcls, Lo as (_ & ? & _); congruence|destruct Hcls, Ln as (_ & ? & _); congruence|done].
      + intros n o [Hn|Hn%list_elem_of_singleton]%elem_of_app [Ho|Ho%list_elem_of_singleton]%elem_of_app (R1 & R2 & S & Hlt) Ht;
          subst; [by apply (Hord n o)|unfold reply in *; destruct Hcls as [C _]; rewrite C in *; done..].
    - intros n g0 t i [Hn|Hn%list_elem_of_singleton]%elem_of_app Hi Hid; [by eapply Ha|subst; apply Hcls]. }
  destruct H1 as (Hq1 & Ha1 & (G1 & _ & G3) & Hck1). split; [| | |done].
  - destruct Hq1 as [? ? ?]. by split.
  - cbn [with_gaps gaps health]. rewrite G1, G3. apply update_gap_ok; [intros g0; by split_and!| |done].
    intros g0 i Hid [= <-]. left. by exists now, notice.
  - exact Ha1.
Qed.

Lemma complete_inv db now : notif_inv db → notif_inv (CompleteDeliveryGap db now).2.
Proof.
  unfold CompleteDeliveryGap. destruct (best _ _) as [h|] eqn:Eb; [|done]. destruct (existsb _ _); [done|].
  intros [Hq Hg Ha Hck]. split; [by destruct Hq; split| |exact Ha|done]. cbn [snd with_health with_gaps gaps health].
  assert (Hh : h ∈ gaps db ∧ gap_status h = GapReplaying).
  { apply (best_latest (flip gap_ltb)) in Eb as [Hin _]. apply list_elem_of_filter in Hin as [[Hs _]%andb_true_iff Hin].
    split; [done|]. unfold gap_is in Hs. by apply bool_decide_eq_true in Hs. }
  assert (Hok : gaps_ok (update_gap (gap_id h) GapReplaying (completed_gap now) (gaps db)) (open_gap_generation (health db))).
  { apply update_gap_ok; [intros g0; by split_and!| |done]. intros g0 i _ Hi. by right. }
  destruct (bool_decide _) eqn:E; [|exact Hok]. apply bool_decide_eq_true in E.
  destruct Hok as [H1 H2 H3 H4]. split; [done|done| |done]. apply Forall_forall. intros g' Hg' Hs.
  rewrite Forall_forall in H3. specialize (H3 g' Hg' Hs). exfalso. rewrite E in H3. injection H3 as H3.
  apply elem_of_update_gap in Hg' as [Hg'|(g0 & _ & _ & _ & ->)]; [|done].
  assert (g' = h) as ->; [|destruct Hh; congruence].
  destruct Hh as [Hh _]. pose proof (find_gap_unique _ _ (go_ids _ _ Hg) Hh) as F1.
  pose proof (find_gap_unique _ _ (go_ids _ _ Hg) Hg') as F2. rewrite <- H3 in F2. congruence.
Qed.

Lemma notif_step_inv db ev db' : step db ev db' → notif_inv db → notif_inv db'.
Proof.
  intros [sid _|sid l db1 r reason ids Hp Hi|? ? [owner now lease limit cs db1 Hc|c d now db1 Hd|c d now db1 e Hd|c class t db1 Ha%retry_inv
         |c class db1 Ha%block_inv|c class db1 Ha%fail_inv|c db1 Ha|c now lease db1 Ha%heartbeat_inv|now|id now db1 Hr|g now n db1 Hr
         |class now db1 Hf|now|now threshold first db1 Ho _|now g db1 Hr|now]] Hinv.
  - destruct Hinv as [[] ? ? ?]. by split.
  - eapply calm_inv; [apply supersedeIDs_calm|done|done|by eapply committed_inv].
  - by eapply claim_inv_step.
  - apply delivered_inv in Hd as (_ & _ & Hrows & G & H). eapply (calm_inv db); [|by rewrite G|by rewrite H|exact Hinv].
    unfold calm_db. rewrite Hrows. apply update_calm. intros. apply delivered_calm.
  - apply delivery_lost_inv in Hd as (Hrows & G & H). eapply (calm_inv db); [|by rewrite G|by rewrite H|exact Hinv].
    unfold calm_db. by rewrite Hrows.
  - eapply (ack_inv db); [|exact Ha|exact Hinv]. intros. apply retried_calm.
  - eapply (ack_inv db); [|exact Ha|exact Hinv]. intros n Hn. by eapply stopped_calm, fenced_live.
  - eapply (ack_inv db); [|exact Ha|exact Hinv]. intros n Hn. by eapply stopped_calm, fenced_live.
  - eapply (ack_inv db); [|exact Ha|exact Hinv]. intros. apply released_calm.
  - eapply (ack_inv db); [|exact Ha|exact Hinv]. intros. apply extended_calm.
  - eapply (calm_inv db); [apply recoverExpired_calm|done|done|exact Hinv].
  - pose proof (redrive_gaps _ _ _ _ Hr) as (G1 & _ & G3). eapply (calm_inv db); [by eapply redrive_calm|done|done|exact Hinv].
  - pose proof (reactivate_gaps _ _ _ _ _ Hr) as (G1 & _ & G3). eapply (calm_inv db); [by eapply reactivate_calm|done|done|exact Hinv].
  - unfold ObserveSlackFailure in Hf. destruct (validateNotificationErrorClass class); [|done]. injection Hf as <-.
    destruct Hinv as [[] ? ? ?]. by split.
  - destruct Hinv as [[] ? ? ?]. by split.
  - by eapply open_inv.
  - by eapply recover_inv.
  - by apply complete_inv.
Qed.

Lemma trace_inv evs db : trace NewGapGenerationID ii evs db → notif_inv db.
Proof.
  induction 1 as [db (Hi & Hg & _ & Ho)|evs db ev db' _ IH Hs]; [|by eapply notif_step_inv].
  split; [split|split| |]; rewrite ?Hi, ?Hg; try (by constructor); try set_solver.
  intros n g now i Hn. rewrite Hi in Hn. by apply not_elem_of_nil in Hn.
Qed.
End invariants.

(** ** Claims and their acknowledgements *)

(** The claims a history grants, and the ones it ends. *)
Definition granted_by (ev : notif_event) : list (string * string * Z) :=
  match ev with
  | EvClaimed cs => (λ c, (ni_ID (cl_Intent c), cl_ClaimOwner c, cl_ClaimToken c)) <$> cs
  | _ => []
  end.
Definition granted (evs : list notif_event) : list (string * string * Z) := evs ≫= granted_by.

Definition ended_by (ev : notif_event) : option (string * Z) :=
  match ev with EvFinal c => Some (ni_ID (cl_Intent c), cl_ClaimToken c) | _ => None end.
Definition ended (evs : list notif_event) : list (string * Z) := omap ended_by evs.

(** What a row shows of the history. *)
Record row_log (evs : list notif_event) (n : NotificationIntent) : Prop := {
  rl_owner : ∀ o, ni_ClaimOwner n = Some o → (ni_ID n, o, ni_ClaimToken n) ∈ granted evs;
  rl_ended : ∀ t, (ni_ID n, t) ∈ ended evs → (t < ni_ClaimToken n)%Z ∨ t = ni_ClaimToken n ∧ ni_ClaimOwner n = None;
  rl_granted : ∀ o t, (ni_ID n, o, t) ∈ granted evs → (t ≤ ni_ClaimToken n)%Z
}.

(** Every acknowledgement answers a claim granted before it. *)
Definition answered (evs : list notif_event) : Prop :=
  ∀ k c, evs !! k = Some (EvFinal c) → (ni_ID (cl_Intent c), cl_ClaimOwner c, cl_ClaimToken c) ∈ granted (take k evs).

Record log_inv (evs : list notif_event) (db : notif_db) : Prop := {
  li_rows : Forall (row_log evs) (intents db);
  li_ended : ∀ id t, (id, t) ∈ ended evs → id ∈ ni_ID <$> intents db;
  li_granted : ∀ id o t, (id, o, t) ∈ granted evs → id ∈ ni_ID <$> intents db;
  li_once : NoDup (ended evs);
  li_tokens : NoDup ((λ '(id, _, t), (id, t)) <$> granted evs);
  li_answered : answered evs
}.

Lemma granted_snoc evs ev : granted (evs ++ [ev]) = granted evs ++ granted_by ev.
Proof. unfold granted. rewrite bind_app. simpl. by rewrite app_nil_r. Qed.

Lemma ended_snoc evs ev : ended (evs ++ [ev]) = ended evs ++ option_list (ended_by ev).
Proof. unfold ended. rewrite omap_app. simpl. by destruct (ended_by ev). Qed.

Lemma answered_snoc evs ev :
  answered evs → (∀ c, ev = EvFinal c → (ni_ID (cl_Intent c), cl_ClaimOwner c, cl_ClaimToken c) ∈ granted evs) →
  answered (evs ++ [ev]).
Proof.
  intros Ha Hev k c Hk. destruct (decide (k < length evs)) as [Hlt|Hge].
  - rewrite lookup_app_l in Hk by lia. rewrite take_app_le by lia. by apply Ha.
  - rewrite lookup_app_r in Hk by lia. apply list_lookup_singleton_Some in Hk as [Hz Hc].
    replace k with (length evs) by lia. rewrite take_app_length. by apply Hev.
Qed.

(** An event that grants and ends nothing. *)
Definition quiet (ev : notif_event) : Prop := granted_by ev = [] ∧ ended_by ev = None.

Lemma quiet_snoc evs ev db : quiet ev → log_inv evs db → log_inv (evs ++ [ev]) db.
Proof.
  intros [Hg He] [Hrows Hend Hgr Honce Htok Hans].
  split; rewrite ?granted_snoc, ?ended_snoc, ?Hg, ?He, ?app_nil_r; try done.
  - eapply Forall_impl; [exact Hrows|]. intros n [R1 R2 R3].
    by split; rewrite ?granted_snoc, ?ended_snoc, ?Hg, ?He, ?app_nil_r.
  - apply answered_snoc; [done|]. by intros c ->.
Qed.

Lemma calm_log evs db db' : calm_db db db' → log_inv evs db → log_inv evs db'.
Proof.
  intros Hc [Hrows Hend Hgr Honce Htok Hans].
  assert (Hids : ni_ID <$> intents db' = ni_ID <$> intents db) by (by apply keeps_ids, calm_keeps).
  split; rewrite ?Hids; try done.
  apply Forall_forall. intros n' Hn'. destruct (rows_back _ _ _ Hc Hn') as (n & Hn & K).
  rewrite Forall_forall in Hrows. destruct (Hrows n Hn) as [R1 R2 R3].
  pose proof (identity_ID _ _ (calm_identity _ _ K)) as Hid.
  destruct (calm_owner _ _ K) as [Ho|Ho]; (split; rewrite ?Hid, ?Ho, ?(calm_token _ _ K); try done; auto).
  intros t Ht. destruct (R2 t Ht) as [?|[? _]]; auto.
Qed.

(** Rows that are new to the history. *)
Lemma insert_log evs db db' rows :
  intents db' = intents db ++ rows →
  (∀ n, n ∈ rows → ni_ClaimOwner n = None ∧ (ni_ID n ∉ (ni_ID <$> intents db))) →
  log_inv evs db → log_inv evs db'.
Proof.
  intros Heq Hnew [Hrows Hend Hgr Honce Htok Hans]. split; rewrite ?Heq, ?fmap_app; try done.
  - apply Forall_app. split; [done|]. apply Forall_forall. intros n Hn.
    destruct (Hnew n Hn) as (Ho & Hfresh). split; [by rewrite Ho| |].
    + intros t Hin. destruct Hfresh. by eapply Hend.
    + intros o t Hin. destruct Hfresh. by eapply Hgr.
  - intros id t Hin. apply elem_of_app. left. by eapply Hend.
  - intros id o t Hin. apply elem_of_app. left. by eapply Hgr.
Qed.

(** An acknowledgement of the row's own claim. *)
Lemma final_log evs c db f db' :
  NoDup (ni_ID <$> intents db) → existsb (fenced c) (intents db) = true →
  (∀ n, fenced c n = true → calm n (f n) ∧ ni_ClaimOwner (f n) = None) →
  intents db' = update (fenced c) f (intents db) → log_inv evs db → log_inv (evs ++ [EvFinal c]) db'.
Proof.
  intros Hnd Hex Hf Hrows' [Hrows Hend Hgr Honce Htok Hans]. rewrite Forall_forall in Hrows.
  apply existsb_exists in Hex as (r & Hr & Hfr). apply list_elem_of_In in Hr. pose proof Hfr as (Rid & _ & Rown & Rtok)%fenced_spec.
  destruct (Hrows r Hr) as [R1 R2 R3].
  assert (Hc : Forall2 calm (intents db) (intents db')) by (rewrite Hrows'; apply update_calm; intros; by apply Hf).
  assert (Hids : ni_ID <$> intents db' = ni_ID <$> intents db) by (by apply keeps_ids, calm_keeps).
  split; rewrite ?granted_snoc, ?ended_snoc; cbn [granted_by ended_by option_list]; rewrite ?app_nil_r, ?Hids; try done.
  - apply Forall_forall. intros n' Hn'. rewrite Hrows' in Hn'. apply elem_of_update in Hn' as (n & Hn & ->).
    destruct (Hrows n Hn) as [N1 N2 N3]. destruct (fenced c n) eqn:En.
    + destruct (Hf n En) as [[I _ T _] O]. pose proof (identity_ID _ _ I) as Hid.
      split; rewrite ?granted_snoc, ?ended_snoc; cbn [granted_by ended_by option_list]; rewrite ?app_nil_r, ?Hid, ?O, ?T; [done| |done].
      apply fenced_spec in En as (_ & _ & _ & Et). intros t [Ht|Ht%list_elem_of_singleton]%elem_of_app; [|injection Ht as _ ->; right; by split].
      destruct (N2 t Ht) as [?|[? _]]; auto.
    + split; rewrite ?granted_snoc, ?ended_snoc; cbn [granted_by ended_by option_list]; rewrite ?app_nil_r; [done| |done].
      intros t [Ht|Ht%list_elem_of_singleton]%elem_of_app; [by apply N2|]. injection Ht as Hid Ht.
      assert (n = r) as -> by (apply (ids_inj db); congruence). congruence.
  - intros id t [Hin|Hin%list_elem_of_singleton]%elem_of_app; [by eapply Hend|]. injection Hin as -> _.
    rewrite <- Rid. apply list_elem_of_fmap. by exists r.
  - apply NoDup_app. split_and!; [done| |apply NoDup_singleton]. intros p Hin ->%list_elem_of_singleton.
    rewrite <- Rid in Hin. destruct (R2 _ Hin) as [?|[_ ?]]; [lia|congruence].
  - apply answered_snoc; [done|]. intros c' [= <-]. rewrite <- Rid, <- Rtok. by apply R1.
Qed.

(** The claims of a round: the rows it took, as it left them. *)
Lemma claims_are db owner now lease limit cs db' :
  NoDup (ni_ID <$> intents db) → ClaimNotificationIntents db owner now lease limit = Ok (cs, db') →
  ∃ ids, (∀ n, n ∈ intents db → ni_ID n ∈ ids → existsb (gap_is GapOpen) (gaps db) = false ∧ takes db now n) ∧
    db' = with_intents db (update (mine ids) (claimed_by owner (Add now lease)) (intents db)) ∧
    (∀ c, c ∈ cs ↔ ∃ n, n ∈ intents db ∧ ni_ID n ∈ ids ∧
       c = {| cl_Intent := claimed_by owner (Add now lease) n; cl_ClaimOwner := owner; cl_ClaimToken := ni_ClaimToken n + 1 |}) ∧
    NoDup ((λ c, ni_ID (cl_Intent c)) <$> cs).
Proof.
  intros Hnd [(-> & -> & _)|(ids & Hg & -> & -> & ->)]%claimed_inv.
  { exists []. split_and!; [intros n _ Hn; by apply not_elem_of_nil in Hn| | |constructor].
    - unfold update. destruct db as [l r g h]. unfold with_intents. f_equal. simpl. rewrite <- (list_fmap_id l) at 1.
      by apply list_fmap_ext.
    - intros c. split; [intros Hc; by apply not_elem_of_nil in Hc|]. intros (n & _ & Hn & _). by apply not_elem_of_nil in Hn. }
  set (ids := dueNotificationIntentIDsTx _ _ _ _). exists ids.
  assert (Hopen : existsb (gap_is GapOpen) (gaps db) = false).
  { revert Hg. unfold deliveryGapGateTx. by destruct (existsb _ _). }
  split_and!; [|done| |].
  - intros n Hn Hid. split; [done|by eapply due_ids].
  - intros c. rewrite list_elem_of_fmap. setoid_rewrite SliceStable_perm. setoid_rewrite elem_of_select. cbn [with_intents intents].
    setoid_rewrite elem_of_update. split.
    + intros (n' & -> & Hm & n & Hn & ->). apply andb_true_iff in Hm as [Hm _]. exists n. destruct (mine ids n) eqn:E.
      * split_and!; [done|by apply mine_true|done].
      * congruence.
    + intros (n & Hn & Hid & ->). exists (claimed_by owner (Add now lease) n). apply mine_true in Hid as E. split; [done|]. split.
      * apply andb_true_iff. split; [exact E|by apply bool_decide_eq_true_2].
      * exists n. by rewrite E.
  - rewrite <- list_fmap_compose. unfold compose. cbn [cl_Intent]. rewrite SliceStable_perm.
    eapply sublist_NoDup; [exact Hnd|]. cbn [with_intents intents].
    replace (ni_ID <$> intents db) with (ni_ID <$> update (mine ids) (claimed_by owner (Add now lease)) (intents db)).
    + apply fmap_sublist, sublist_filter.
    + unfold update. rewrite <- list_fmap_compose. apply list_fmap_ext. intros _ n _. simpl. by destruct (mine ids n).
Qed.

Lemma claim_log evs db owner now lease limit cs db' :
  NoDup (ni_ID <$> intents db) → ClaimNotificationIntents db owner now lease limit = Ok (cs, db') →
  log_inv evs db → log_inv (evs ++ [EvClaimed cs]) db'.
Proof.
  intros Hnd Hc [Hrows Hend Hgr Honce Htok Hans]. rewrite Forall_forall in Hrows.
  destruct (claims_are _ _ _ _ _ _ _ Hnd Hc) as (ids & _ & -> & Hcs & Hdup). clear Hc.
  assert (Hids : ni_ID <$> update (mine ids) (claimed_by owner (Add now lease)) (intents db) = ni_ID <$> intents db).
  { unfold update. rewrite <- list_fmap_compose. apply list_fmap_ext. intros _ n _. simpl. by destruct (mine ids n). }
  assert (Hgb : ∀ id o t, (id, o, t) ∈ granted_by (EvClaimed cs) ↔
            o = owner ∧ ∃ n, n ∈ intents db ∧ ni_ID n ∈ ids ∧ ni_ID n = id ∧ t = (ni_ClaimToken n + 1)%Z).
  { intros id o t. cbn [granted_by]. rewrite list_elem_of_fmap. split.
    - intros (c & [= -> -> ->] & (n & Hn & Hid & ->)%Hcs). split; [done|]. by exists n.
    - intros (-> & n & Hn & Hid & <- & ->). eexists. split; [|apply Hcs; exists n; done]. done. }
  split; rewrite ?granted_snoc, ?ended_snoc; cbn [ended_by option_list with_intents intents]; rewrite ?app_nil_r, ?Hids; try done.
  - apply Forall_forall. intros n' (n & Hn & ->)%elem_of_update. destruct (Hrows n Hn) as [R1 R2 R3].
    destruct (mine ids n) eqn:E.
    + apply mine_true in E. split; rewrite ?granted_snoc, ?ended_snoc; cbn [ended_by option_list]; rewrite ?app_nil_r.
      * intros o [= <-]. apply elem_of_app. right. apply Hgb. split; [done|]. by exists n.
      * intros t Ht. left. cbn. destruct (R2 t Ht) as [?|[-> _]]; lia.
      * intros o t [Ht|Ht]%elem_of_app; cbn in *; [specialize (R3 o t Ht); lia|].
        apply Hgb in Ht as (_ & m & Hm & _ & Hid & ->). assert (m = n) as -> by (by apply (ids_inj db)). lia.
    + split; rewrite ?granted_snoc, ?ended_snoc; cbn [ended_by option_list]; rewrite ?app_nil_r.
      * intros o Ho. apply elem_of_app. left. by apply R1.
      * done.
      * intros o t [Ht|Ht]%elem_of_app; [by eapply R3|]. apply Hgb in Ht as (_ & m & Hm & Hin & Hid & _).
        rewrite Hid in Hin. apply mine_true in Hin. congruence.
  - intros id o t [Hin|Hin]%elem_of_app; [by eapply Hgr|]. apply Hgb in Hin as (_ & n & Hn & _ & <- & _).
    apply list_elem_of_fmap. by exists n.
  - rewrite fmap_app. apply NoDup_app. split_and!; [done| |].
    + intros [id t] Hin Hin'. apply list_elem_of_fmap in Hin as ([[? o] ?] & [= -> ->] & Hin).
      apply list_elem_of_fmap in Hin' as ([[? o'] ?] & [= -> ->] & Hin'). apply Hgb in Hin' as (_ & n & Hn & _ & <- & ->).
      destruct (Hrows n Hn) as [_ _ R3]. specialize (R3 _ _ Hin). lia.
    + cbn [granted_by]. rewrite <- list_fmap_compose. unfold compose.
      apply (NoDup_fmap_1 fst). rewrite <- list_fmap_compose. exact Hdup.
  - apply answered_snoc; [done|]. done.
Qed.

Section traces.
Context (NewGapGenerationID : Time → string) (ii : string → string).

#[local] Abbreviation step := (notif_step NewGapGenerationID ii).
#[local] Abbreviation trace := (trace NewGapGenerationID ii).

Lemma insert_all_fresh db l db' : insert_all db l = Ok db' → ∀ n, n ∈ l → ni_ID n ∉ (ni_ID <$> intents db).
Proof.
  revert db. induction l as [|m l IH]; intros db; cbn [insert_all]; [intros _ n Hn; by apply not_elem_of_nil in Hn|].
  destruct (insertNotificationIntentTx db m) as [db1|] eqn:E; [|done]. cbn [res_bind]. intros Hi n [->|Hn]%elem_of_cons.
  - apply insert_inv in E as (_ & Hf & _). by apply fits_fresh.
  - intros Hin. apply (IH _ Hi n Hn). apply insert_inv in E as (_ & _ & ->). cbn. rewrite fmap_app, elem_of_app. by left.
Qed.

Lemma step_log evs db ev db' : notif_inv NewGapGenerationID ii db → step db ev db' → log_inv evs db → log_inv (evs ++ [ev]) db'.
Proof.
  intros Hinv Hs Hlog. pose proof (qo_ids _ (inv_queue _ _ _ Hinv)) as Hnd.
  assert (Hcalm : ∀ ev' db2, quiet ev' → calm_db db db2 → log_inv (evs ++ [ev']) db2).
  { intros ev' db2 Hq Hc. apply quiet_snoc; [done|]. by eapply calm_log. }
  assert (Hrow : ∀ ev' db2, quiet ev' → intents db2 = intents db → log_inv (evs ++ [ev']) db2).
  { intros ev' db2 Hq Hi. apply Hcalm; [done|]. unfold calm_db. by rewrite Hi. }
  assert (Hack : ∀ c f db2, (∀ n, fenced c n = true → calm n (f n) ∧ ni_ClaimOwner (f n) = None) →
            fencedNotificationAck db c f = Ok db2 → log_inv (evs ++ [EvFinal c]) db2).
  { intros c f db2 Hf (_ & Hex & ->)%fencedAck_inv. by eapply final_log. }
  destruct Hs as [sid _|sid l db1 r reason ids Hp Hi|? ? [owner now lease limit cs db1 Hc|c d now db1 Hd|c d now db1 e Hd|c class t db1 Ha%retry_inv
         |c class db1 Ha%block_inv|c class db1 Ha%fail_inv|c db1 Ha|c now lease db1 Ha%heartbeat_inv|now|id now db1 Hr|g now n db1 Hr
         |class now db1 Hf|now|now threshold first db1 Ho _|now g db1 Hr|now]].
  - by apply Hrow.
  - apply quiet_snoc; [done|]. eapply calm_log; [apply supersedeIDs_calm|].
    unfold insertNotificationIntentsTx in Hi. fold (committing db sid l) in Hi.
    pose proof (insert_all_fresh _ _ _ Hi) as Hfresh. apply insert_all_inv in Hi as (Hrows & _).
    eapply insert_log; [exact Hrows| |eapply calm_log; [apply committing_calm|exact Hlog]].
    intros n Hn. split; [|by apply Hfresh]. pose proof (pl_unattempted _ _ _ _ Hp) as Hun. rewrite Forall_forall in Hun.
    by destruct (Hun n Hn) as (_ & ? & _).
  - by eapply claim_log.
  - apply delivered_inv in Hd as (_ & Hex & Hrows & _). eapply final_log; [done|exact Hex| |exact Hrows|done].
    intros n _. split; [apply delivered_calm|done].
  - apply delivery_lost_inv in Hd as (Hrows & _). by apply Hrow.
  - eapply Hack; [|exact Ha]. intros n _. split; [apply retried_calm|done].
  - eapply Hack; [|exact Ha]. intros n Hn. split; [by eapply stopped_calm, fenced_live|done].
  - eapply Hack; [|exact Ha]. intros n Hn. split; [by eapply stopped_calm, fenced_live|done].
  - eapply Hack; [|exact Ha]. intros n _. split; [apply released_calm|done].
  - apply Hcalm; [done|]. eapply fencedAck_calm; [|exact Ha]. intros. apply extended_calm.
  - apply Hcalm; [done|]. apply recoverExpired_calm.
  - apply Hcalm; [done|]. by eapply redrive_calm.
  - apply Hcalm; [done|]. by eapply reactivate_calm.
  - apply Hrow; [done|]. unfold ObserveSlackFailure in Hf. destruct (validateNotificationErrorClass class); [|done]. by injection Hf as <-.
  - by apply Hrow.
  - apply open_spec in Ho as (first' & _ & _ & _ & _ & Hrows & _). by apply Hrow.
  - apply quiet_snoc; [done|]. revert Hr. unfold RecoverDeliveryGap. destruct (best _ _) as [h|]; [|by intros [= _ <-]].
    destruct (GapRecoveryIntent ii (gap_id h) now) as [notice|] eqn:En; [|done].
    destruct (if existsb _ _ then _ else _) as [db2|] eqn:E; [|done]. cbn [res_bind]. intros [= _ <-].
    destruct (existsb _ _); [injection E as <-; apply (calm_log _ db); [unfold calm_db; cbn; reflexivity|done]|]. apply insert_inv in E as (_ & Hf & ->).
    eapply (insert_log _ db _ [notice]); [done| |done]. intros n ->%list_elem_of_singleton. split; [|by apply fits_fresh].
    revert En. unfold GapRecoveryIntent. destruct (NotificationIntent_Validate _); [|done]. by intros [= <-].
  - apply Hrow; [done|]. unfold CompleteDeliveryGap. destruct (best _ _); [|done]. by destruct (existsb _ _).
Qed.

Lemma trace_log evs db : trace evs db → log_inv evs db.
Proof.
  induction 1 as [db (Hi & _)|evs db ev db' Ht IH Hs]; [|eapply step_log; [by eapply trace_inv|done|done]].
  split; rewrite ?Hi; try constructor; intros *; try (intros H; by apply not_elem_of_nil in H). done.
Qed.
(** *** The window of failures *)

Definition window_after (ev : notif_event) (first : option Time) : option Time :=
  match ev with
  | EvFailure now => Some (default now first)
  | EvSuccess _ => None
  | _ => first
  end.

Lemma step_window db ev db' :
  step db ev db' →
  first_failure_at (health db') = window_after ev (first_failure_at (health db)) ∧
  (∀ id, id ∈ gap_id <$> gaps db → id ∈ gap_id <$> gaps db').
Proof.
  assert (Hsame : ∀ db2, same_gaps db db2 → first_failure_at (health db2) = first_failure_at (health db) ∧
            (∀ id, id ∈ gap_id <$> gaps db → id ∈ gap_id <$> gaps db2)).
  { intros db2 (-> & -> & _). done. }
  assert (Hack : ∀ c f db2, fencedNotificationAck db c f = Ok db2 → same_gaps db db2).
  { by intros c f db2 (_ & _ & ->)%fencedAck_inv. }
  intros [sid _|sid l db1 r reason ids Hp Hi|? ? [owner now lease limit cs db1 Hc|c d now db1 Hd|c d now db1 e Hd|c class t db1 Ha%retry_inv
         |c class db1 Ha%block_inv|c class db1 Ha%fail_inv|c db1 Ha|c now lease db1 Ha%heartbeat_inv|now|id now db1 Hr|g now n db1 Hr
         |class now db1 Hf|now|now threshold first db1 Ho Hfirst|now g db1 Hr|now]]; cbn [window_after].
  - done.
  - apply Hsame. unfold insertNotificationIntentsTx in Hi. fold (committing db sid l) in Hi.
    apply insert_all_inv in Hi as (_ & Hs & _). etrans; [|exact Hs]. unfold committing. by destruct (head _).
  - apply Hsame. by apply claimed_inv in Hc as [(_ & -> & _)|(ids & _ & _ & -> & _)].
  - apply Hsame. apply delivered_inv in Hd as (_ & _ & _ & G & H). split_and!; congruence.
  - apply Hsame. apply delivery_lost_inv in Hd as (_ & G & H). split_and!; congruence.
  - eauto.
  - eauto.
  - eauto.
  - eauto.
  - eauto.
  - done.
  - eauto using redrive_gaps.
  - eauto using reactivate_gaps.
  - unfold ObserveSlackFailure in Hf. destruct (validateNotificationErrorClass class); [|done]. by injection Hf as <-.
  - done.
  - apply open_spec in Ho as (first' & E1 & _ & _ & _ & _ & E2 & _ & h & -> & _). split; [congruence|].
    intros id Hid. rewrite fmap_app, elem_of_app. by left.
  - revert Hr. unfold RecoverDeliveryGap. destruct (best _ _) as [h|]; [|by intros [= _ <-]].
    destruct (GapRecoveryIntent ii (gap_id h) now) as [notice|]; [|done].
    destruct (if existsb _ _ then _ else _) as [db2|] eqn:E; [|done]. cbn [res_bind]. intros [= _ <-].
    assert (same_gaps db db2) as (G1 & G2 & _).
    { destruct (existsb _ _); [by injection E as <-|]. by apply insert_inv in E as (_ & _ & ->). }
    cbn [with_gaps gaps health]. rewrite update_gap_ids by done. by rewrite G1, G2.
  - unfold CompleteDeliveryGap. destruct (best _ _) as [h|]; [|done]. destruct (existsb _ _); [done|].
    cbn [snd with_health with_gaps gaps health]. rewrite update_gap_ids by done. split; [|done]. by destruct (bool_decide _).
Qed.

(** The window is anchored at a failure that nothing but failures followed, and
    the generations opened are on record. *)
Record window_inv (evs : list notif_event) (db : notif_db) : Prop := {
  wi_first : ∀ f, first_failure_at (health db) = Some f →
             ∃ p m, evs = p ++ EvFailure f :: m ∧ ∀ t, EvSuccess t ∉ m;
  wi_opened : ∀ g f n th, EvOpened g f n th ∈ evs → g = NewGapGenerationID f ∧ g ∈ gap_id <$> gaps db
}.

Lemma trace_window evs db : trace evs db → window_inv evs db.
Proof.
  induction 1 as [db (_ & _ & Hf & _)|evs db ev db' Ht [IH1 IH2] Hs].
  { split; [congruence|]. intros g f n th H. by apply not_elem_of_nil in H. }
  destruct (step_window _ _ _ Hs) as [Hw Hg]. split.
  - intros f Hf'. rewrite Hw in Hf'. destruct (first_failure_at (health db)) as [f0|] eqn:E.
    + destruct (IH1 f0 eq_refl) as (p & m & -> & Hm).
      assert (Hok : f = f0 ∧ ∀ t, ev ≠ EvSuccess t) by (destruct ev; simpl in Hf'; by simplify_eq).
      destruct Hok as [-> Hne]. exists p, (m ++ [ev]). split; [by rewrite <- app_assoc|].
      intros t [Hin|Hin%list_elem_of_singleton]%elem_of_app; [by eapply Hm|by eapply Hne].
    + destruct ev; simpl in Hf'; simplify_eq. exists evs, []. split; [done|]. intros t Hin. by apply not_elem_of_nil in Hin.
  - intros g f n th [Hin|Hin%list_elem_of_singleton]%elem_of_app.
    + destruct (IH2 _ _ _ _ Hin) as [-> Hid]. auto.
    + subst ev. inversion Hs as [| |? ? Hws]; subst. inversion Hws; subst. split; [done|].
      match goal with H : OpenDueDeliveryGap _ _ _ _ = Ok _ |- _ => apply open_spec in H as (f' & E & _ & _ & _ & _ & _ & _ & h & -> & Hid & _) end.
      rewrite fmap_app, elem_of_app. right. assert (f' = f) as -> by congruence. rewrite <- Hid. by apply list_elem_of_singleton.
Qed.

(** *** Queues and rounds *)

Lemma skey_total {A} (key : A → string) x y : skey_ltb key x y = false → skey_ltb key y x = false → key x = key y.
Proof. apply str_ltb_total. Qed.

Lemma queue_total n o : queue_ltb n o = false → queue_ltb o n = false → ni_ID n = ni_ID o.
Proof.
  unfold queue_ltb, reply_ltb. intros H1 H2.
  do 4 (apply lex_less_false in H1 as [? [H1|H1]], H2 as [? [H2|H2]]; try congruence). by apply (skey_total ni_ID).
Qed.

(** Two live rows of one Situation do not both head its queue. *)
Lemma heads_unique db sid n o :
  NoDup (ni_ID <$> intents db) → n ∈ intents db → o ∈ intents db → heads_queue db n = true → heads_queue db o = true →
  live n = true → live o = true → ni_SituationID n = Some sid → ni_SituationID o = Some sid → n = o.
Proof.
  intros Hnd Hn Ho. unfold heads_queue. intros Hhn Hho Ln Lo Sn So. rewrite Sn in Hhn. rewrite So in Hho.
  rewrite forallb_forall in Hhn, Hho. specialize (Hhn o (proj1 (list_elem_of_In _ _) Ho)). specialize (Hho n (proj1 (list_elem_of_In _ _) Hn)).
  unfold in_situation in *. rewrite Ln, bool_decide_eq_true_2 in Hho by done. rewrite Lo, bool_decide_eq_true_2 in Hhn by done.
  apply negb_true_iff in Hhn, Hho. apply (ids_inj db); [done|done|done|]. by apply queue_total.
Qed.

Lemma gate_no_notice db : existsb (gap_is GapOpen) (gaps db) = false →
  gate_noticeIDs (deliveryGapGateTx db) = [] ∨
  ∃ g id, g ∈ gaps db ∧ gap_status g = GapReplaying ∧ recovery_notice_intent_id g = Some id ∧
          id ∈ gate_noticeIDs (deliveryGapGateTx db).
Proof.
  intros Ho. destruct (gate_noticeIDs (deliveryGapGateTx db)) as [|id l] eqn:E; [by left|]. right.
  assert (Hin : id ∈ gate_noticeIDs (deliveryGapGateTx db)) by (rewrite E; left). rewrite <- E.
  pose proof Hin as Hin'. unfold deliveryGapGateTx in Hin'. rewrite Ho in Hin'. cbn [gate_noticeIDs] in Hin'.
  apply list_elem_of_omap in Hin' as (g & Hg & Hid). rewrite SliceStable_perm in Hg. apply list_elem_of_filter in Hg as [Hs Hg].
  exists g, id. split_and!; [done|unfold gap_is in Hs; by apply bool_decide_eq_true in Hs| |done].
  unfold notice_owed in Hid. destruct (recovery_notice_intent_id g) as [i|]; [|done].
  destruct (find_intent i (intents db)) as [o|]; [destruct (is_status _ o)|]; by simplify_eq.
Qed.

(** A queue head that is due is taken when the round has room for all of them. *)
Lemma head_taken db now limit n :
  gate_noticeIDs (deliveryGapGateTx db) = [] → n ∈ intents db → claimable db now n = true →
  (length (select (claimable db now) (intents db)) ≤ limit)%nat →
  ni_ID n ∈ dueNotificationIntentIDsTx db (deliveryGapGateTx db) now limit.
Proof.
  intros Hg Hn Hc Hlen. unfold dueNotificationIntentIDsTx. rewrite Hg. apply list_elem_of_fmap. exists n. split; [done|].
  rewrite take_ge; [|by rewrite SliceStable_perm]. rewrite SliceStable_perm. by apply elem_of_select.
Qed.

Lemma claimable_live db now n : claimable db now n = true → heads_queue db n = true ∧ live n = true.
Proof.
  unfold claimable. rewrite !andb_true_iff, is_status_true, live_cases. tauto.
Qed.

(** ** Theorems *)

(** C35. The journal of a Situation goes out in order: a reply that any worker
    was ever given to deliver has no live reply before it, by the sequence of
    their Transitions and the rank of their kinds, whatever the commits, the
    workers, the retries, the blocks and the redrives did. *)
Theorem replies_in_order evs db n o :
  trace evs db → n ∈ intents db → o ∈ intents db → before n o → (0 < ni_ClaimToken o)%Z → live n = false.
Proof. intros Ht%trace_inv. apply (qo_ordered _ (inv_queue _ _ _ Ht)). Qed.

(** No two claims carry one token of an intent, every acknowledgement that
    is accepted answers a claim granted before it to that owner, and no claim is
    answered twice. *)
Theorem claims_answered_once evs db :
  trace evs db →
  NoDup ((λ '(id, _, t), (id, t)) <$> granted evs) ∧ NoDup (ended evs) ∧
  ∀ k c, evs !! k = Some (EvFinal c) → (ni_ID (cl_Intent c), cl_ClaimOwner c, cl_ClaimToken c) ∈ granted (take k evs).
Proof. intros [_ _ _ H1 H2 H3]%trace_log. done. Qed.

(** A delivery gap opens only on a failure that is at least the threshold
    later than the first of an unbroken run of failures, while no other gap is
    open, and never twice for one run. *)
Theorem gap_opens_on_outage evs db g first now threshold db' :
  trace evs db → step db (EvOpened g first now threshold) db' →
  (∃ p m, evs = p ++ EvFailure first :: m ∧ ∀ t, EvSuccess t ∉ m) ∧ (0 < threshold ≤ Sub now first)%Z ∧
  (∀ h, h ∈ gaps db → gap_status h ≠ GapOpen) ∧
  (∀ g' first' now' threshold', EvOpened g' first' now' threshold' ∈ evs → g' ≠ g ∧ first' ≠ first).
Proof.
  intros Ht Hs. destruct (trace_window _ _ Ht) as [W1 W2]. pose proof (trace_inv _ _ _ _ Ht) as Hinv.
  inversion Hs as [| |? ? Hw]; subst. inversion Hw; subst.
  match goal with H : OpenDueDeliveryGap _ _ _ _ = Ok _ |- _ => apply open_spec in H as (f' & E & Hth & Hno & Hnew & _) end.
  assert (f' = first) as -> by congruence. split_and!; [by apply W1|lia|lia| |].
  - intros h Hh Hopen. apply Hno. eapply open_named; [apply Hinv|done|done].
  - intros g' first' now' th' [-> Hin]%W2. split; intros Heq; apply Hnew; [by rewrite <- Heq|by rewrite <- Heq].
Qed.

Lemma takes_notice db now n :
  notif_inv NewGapGenerationID ii db → n ∈ intents db → takes db now n → gate_noticeIDs (deliveryGapGateTx db) ≠ [] →
  ni_EffectClass n = EffectInstallationGapRecovery.
Proof.
  intros Hinv Hn Hk Hg. apply (inv_gate _ _ _ Hinv); [done|]. unfold takes in Hk.
  destruct (gate_noticeIDs (deliveryGapGateTx db)); [done|]. by destruct Hk.
Qed.

Lemma notice_no_situation db n :
  notif_inv NewGapGenerationID ii db → n ∈ intents db → ni_EffectClass n = EffectInstallationGapRecovery → ni_SituationID n = None.
Proof.
  intros Hinv Hn C. pose proof (inv_identity _ _ _ Hinv) as Hi. rewrite Forall_forall in Hi. specialize (Hi n Hn). revert Hi.
  unfold identity_check, is_class. rewrite bool_decide_eq_true_2 by done. destruct (ni_SituationID n); [|done].
  cbn. rewrite !andb_false_r. done.
Qed.

(** A round claims nothing while a gap is open, only the gap's notice while
    one is owed, and otherwise only intents that head the queue of their
    Situation, due, unleased and with their root published, at most one per
    Situation; and when it has room, all of those. *)
Theorem ClaimNotificationIntents_spec evs db owner now lease limit cs db' :
  trace evs db → ClaimNotificationIntents db owner now lease limit = Ok (cs, db') →
  (existsb (gap_is GapOpen) (gaps db) = true → cs = []) ∧
  (∀ c, c ∈ cs → ∃ n, n ∈ intents db ∧ takes db now n ∧ cl_ClaimOwner c = owner ∧
     cl_Intent c = claimed_by owner (Add now lease) n ∧
     (gate_noticeIDs (deliveryGapGateTx db) ≠ [] → ni_EffectClass n = EffectInstallationGapRecovery)) ∧
  (∀ c c' sid, c ∈ cs → c' ∈ cs → ni_SituationID (cl_Intent c) = Some sid → ni_SituationID (cl_Intent c') = Some sid → c = c') ∧
  (existsb (gap_is GapOpen) (gaps db) = false → gate_noticeIDs (deliveryGapGateTx db) = [] →
   (length (select (claimable db now) (intents db)) ≤ limit)%nat →
   ∀ n, n ∈ intents db → claimable db now n = true →
   ∃ c, c ∈ cs ∧ cl_Intent c = claimed_by owner (Add now lease) n).
Proof.
  intros Ht Hc. pose proof (trace_inv _ _ _ _ Ht) as Hinv. pose proof (qo_ids _ (inv_queue _ _ _ Hinv)) as Hnd.
  destruct (claims_are _ _ _ _ _ _ _ Hnd Hc) as (ids & Htake & _ & Hcs & _).
  split_and!.
  - intros Hopen. destruct cs as [|c cs]; [done|]. destruct (proj1 (Hcs c)) as (n & Hn & Hid & _); [left|].
    destruct (Htake n Hn Hid). congruence.
  - intros c (n & Hn & Hid & ->)%Hcs. exists n. destruct (Htake n Hn Hid) as [_ Hk]. split_and!; try done. intros Hg.
    by eapply takes_notice.
  - intros c c' sid (n & Hn & Hid & ->)%Hcs (n' & Hn' & Hid' & ->)%Hcs S1 S2. cbn in S1, S2.
    destruct (Htake n Hn Hid) as [_ Hk], (Htake n' Hn' Hid') as [_ Hk'].
    assert (n = n') as ->; [|done]. destruct (decide (gate_noticeIDs (deliveryGapGateTx db) = [])) as [Hg|Hg].
    + unfold takes in Hk, Hk'. rewrite Hg in Hk, Hk'. apply claimable_live in Hk as [H1 L1], Hk' as [H2 L2].
      by apply (heads_unique db sid).
    + pose proof (takes_notice _ _ _ Hinv Hn Hk Hg) as C. pose proof (notice_no_situation _ _ Hinv Hn C). congruence.
  - intros Hopen Hg Hlen n Hn Hcl. pose proof (head_taken _ _ _ _ Hg Hn Hcl Hlen) as Hin.
    exists {| cl_Intent := claimed_by owner (Add now lease) n; cl_ClaimOwner := owner; cl_ClaimToken := ni_ClaimToken n + 1 |}.
    split; [|done]. apply claimed_inv in Hc as [(_ & _ & Ho)|(ids' & _ & -> & -> & ->)]; [congruence|].
    apply list_elem_of_fmap. exists (claimed_by owner (Add now lease) n). split; [done|].
    apply mine_true in Hin as Em. rewrite SliceStable_perm. apply elem_of_select. split.
    + apply andb_true_iff. split; [exact Em|by apply bool_decide_eq_true_2].
    + cbn [with_intents intents]. apply elem_of_update. exists n. by rewrite Em.
Qed.
End traces.

(** ** A history *)

(** A Situation's first root and two replies are committed and delivered in
    their order, until Slack refuses the second reply. *)
Definition demo_generation (_ : Time) : string := "generation-1".
Definition demo_identity (s : string) : string := "uuid:" +:+ s.
Definition demo_start : Time := 63000000000000000000%Z.
Definition demo_at (minutes : Z) : Time := Add demo_start (minutes * Minute)%Z.

Definition demo_intent (id : string) (class : EffectClass) (kind : NotificationReplyKind) (sequence : Z) : NotificationIntent :=
  {| ni_ID := id; ni_IdempotencyKey := "key:" +:+ id; ni_EffectClass := class; ni_ReplyKind := kind;
     ni_SituationID := Some "S"; ni_TransitionID := Some "T"; ni_TransitionSequence := Some sequence;
     ni_SummaryVersion := if needs_root class then None else Some 1%Z;
     ni_GapGeneration := None; ni_RequiresRoot := needs_root class; ni_MainChannelPoke := false;
     ni_InterruptionPriority := None; ni_ContractDeadlineAt := None; ni_ClientMessageID := "message:" +:+ id;
     ni_Status := IntentPending; ni_ClaimOwner := None; ni_ClaimToken := 0; ni_LeaseExpiresAt := None;
     ni_AttemptCount := 0; ni_LastErrorClass := None; ni_RetryAt := None; ni_SupersessionReason := None;
     ni_ReplacementIntentID := None; ni_DeliveredAs := None; ni_Channel := None; ni_MessageTS := None;
     ni_CreatedAt := demo_start; ni_DeliveredAt := None |}.

Definition demo_plan : list NotificationIntent :=
  [ demo_intent "root" EffectRootSync ReplyLegacy 1;
    demo_intent "recovered" EffectThreadAppend ReplyRecovered 1;
    demo_intent "started" EffectThreadAppend ReplyInvestigationStarted 1 ].

Definition demo_empty : notif_db :=
  {| intents := []; roots := ∅; gaps := [];
     health := {| first_failure_at := None; last_success_at := None; open_gap_generation := None;
                  configuration_generation := 1; last_warning_at := None; updated_at := demo_start |} |}.

Definition or_else {E A} (d : A) (r : result E A) : A := match r with Ok a => a | Err _ => d end.
Definition demo_claim (db : notif_db) (t : Time) : list NotificationClaim * notif_db :=
  or_else ([], db) (ClaimNotificationIntents db "worker" t Minute 10).
Definition demo_first (db : notif_db) (t : Time) : NotificationClaim :=
  default {| cl_Intent := demo_intent "" EffectRootSync ReplyLegacy 1; cl_ClaimOwner := ""; cl_ClaimToken := 0 |}
    (head (demo_claim db t).1).
Definition demo_delivery : NotificationDelivery := {| nd_Channel := "C1"; nd_MessageTS := "1.1"; nd_DeliveredAs := "thread" |}.

Definition demo_1 : notif_db := with_roots demo_empty (<["S" := None]> ∅).
Definition demo_2 : notif_db := or_else demo_1 (insertNotificationIntentsTx demo_1 "S" demo_plan).
Definition demo_3 : notif_db := supersedeNotificationIntentIDsTx demo_2 "S" "" "" [].
Definition demo_4 : notif_db := (demo_claim demo_3 (demo_at 1)).2.
Definition demo_5 : notif_db := (MarkNotificationDelivered demo_4 (demo_first demo_3 (demo_at 1)) demo_delivery (demo_at 2)).1.
Definition demo_6 : notif_db := (demo_claim demo_5 (demo_at 3)).2.
Definition demo_7 : notif_db := (MarkNotificationDelivered demo_6 (demo_first demo_5 (demo_at 3)) demo_delivery (demo_at 4)).1.
Definition demo_8 : notif_db := (demo_claim demo_7 (demo_at 5)).2.
Definition demo_9 : notif_db := or_else demo_8 (ObserveSlackFailure demo_8 "invalid_auth" (demo_at 6)).
Definition demo_10 : notif_db :=
  or_else demo_9 (BlockNotificationConfiguration demo_9 (demo_first demo_7 (demo_at 5)) "invalid_auth").
Definition demo_11 : notif_db :=
  (or_else (false, demo_10) (OpenDueDeliveryGap demo_generation demo_10 (demo_at 17) (10 * Minute)%Z)).2.

Definition demo_delivering : list notif_event :=
  [EvOther; EvOther; EvClaimed (demo_claim demo_3 (demo_at 1)).1; EvFinal (demo_first demo_3 (demo_at 1));
   EvClaimed (demo_claim demo_5 (demo_at 3)).1; EvFinal (demo_first demo_5 (demo_at 3))].
Definition demo_blocking : list notif_event :=
  demo_delivering ++ [EvClaimed (demo_claim demo_7 (demo_at 5)).1; EvFailure (demo_at 6); EvFinal (demo_first demo_7 (demo_at 5))].

#[local] Abbreviation demo_step := (notif_step demo_generation demo_identity).
#[local] Abbreviation demo_trace := (trace demo_generation demo_identity).

Lemma demo_planned : planned demo_identity demo_1 "S" demo_plan.
Proof.
  split.
  - by repeat constructor.
  - repeat constructor; simpl; auto.
  - vm_compute. lia.
  - intros n o _ Ho. by apply not_elem_of_nil in Ho.
  - intros n g now i Hn Hi. assert (∃ s, ni_ID i = "uuid:" +:+ s) as [s ->].
    { revert Hi. unfold GapRecoveryIntent. destruct (NotificationIntent_Validate _); [|done]. intros [= <-]. by eexists. }
    unfold demo_plan in Hn. repeat (apply elem_of_cons in Hn as [->|Hn]; [discriminate|]). by apply not_elem_of_nil in Hn.
Qed.

Lemma demo_delivered : demo_trace demo_delivering demo_7.
Proof.
  assert (H0 : demo_trace [] demo_empty) by (constructor; by repeat split).
  pose proof (TraceStep _ _ _ _ _ _ H0 (NSituation _ _ demo_empty "S" eq_refl)) as H1.
  assert (H2 : demo_step demo_1 EvOther demo_3).
  { apply NCommit with (l := demo_plan); [apply demo_planned|vm_compute; reflexivity]. }
  pose proof (TraceStep _ _ _ _ _ _ H1 H2) as H3.
  assert (H4 : demo_step demo_3 (EvClaimed (demo_claim demo_3 (demo_at 1)).1) demo_4).
  { apply NWorker, NClaim with (owner := "worker") (now := demo_at 1) (lease := Minute) (limit := 10%nat). vm_compute. reflexivity. }
  pose proof (TraceStep _ _ _ _ _ _ H3 H4) as H5.
  assert (H6 : demo_step demo_4 (EvFinal (demo_first demo_3 (demo_at 1))) demo_5).
  { apply NWorker, NDelivered with (d := demo_delivery) (now := demo_at 2). vm_compute. reflexivity. }
  pose proof (TraceStep _ _ _ _ _ _ H5 H6) as H7.
  assert (H8 : demo_step demo_5 (EvClaimed (demo_claim demo_5 (demo_at 3)).1) demo_6).
  { apply NWorker, NClaim with (owner := "worker") (now := demo_at 3) (lease := Minute) (limit := 10%nat). vm_compute. reflexivity. }
  pose proof (TraceStep _ _ _ _ _ _ H7 H8) as H9.
  assert (H10 : demo_step demo_6 (EvFinal (demo_first demo_5 (demo_at 3))) demo_7).
  { apply NWorker, NDelivered with (d := demo_delivery) (now := demo_at 4). vm_compute. reflexivity. }
  exact (TraceStep _ _ _ _ _ _ H9 H10).
Qed.

Lemma demo_blocked : demo_trace demo_blocking demo_10.
Proof.
  assert (H1 : demo_step demo_7 (EvClaimed (demo_claim demo_7 (demo_at 5)).1) demo_8).
  { apply NWorker, NClaim with (owner := "worker") (now := demo_at 5) (lease := Minute) (limit := 10%nat). vm_compute. reflexivity. }
  pose proof (TraceStep _ _ _ _ _ _ demo_delivered H1) as H2.
  assert (H3 : demo_step demo_8 (EvFailure (demo_at 6)) demo_9).
  { apply NWorker, NFailure with (class := "invalid_auth"). vm_compute. reflexivity. }
  pose proof (TraceStep _ _ _ _ _ _ H2 H3) as H4.
  assert (H5 : demo_step demo_9 (EvFinal (demo_first demo_7 (demo_at 5))) demo_10).
  { apply NWorker, NBlock with (class := "invalid_auth"). vm_compute. reflexivity. }
  exact (TraceStep _ _ _ _ _ _ H4 H5).
Qed.

(** The two replies of the history that was delivered and claimed. *)
Definition demo_row (db : notif_db) (id : string) : NotificationIntent :=
  default (demo_intent "" EffectRootSync ReplyLegacy 1) (find_intent id (intents db)).

Lemma demo_row_in db id : is_set (find_intent id (intents db)) = true → demo_row db id ∈ intents db.
Proof. unfold demo_row. destruct (find_intent id (intents db)) eqn:E; [|done]. intros _. by apply find_intent_some in E as [? _]. Qed.

Lemma replies_in_order_witness :
  (0 < ni_ClaimToken (demo_row demo_10 "recovered"))%Z ∧ live (demo_row demo_10 "started") = false.
Proof.
  assert ((0 < ni_ClaimToken (demo_row demo_10 "recovered"))%Z) as Ht by (by vm_compute). split; [exact Ht|].
  apply (replies_in_order demo_generation demo_identity demo_blocking demo_10
           (demo_row demo_10 "started") (demo_row demo_10 "recovered") demo_blocked);
    [apply demo_row_in; by vm_compute|apply demo_row_in; by vm_compute| |exact Ht].
  split; [by vm_compute|split; [by vm_compute|split; [exists "S"; by split; vm_compute|by vm_compute]]].
Defined.

Lemma claims_answered_once_witness :
  NoDup ((λ '(id, _, t), (id, t)) <$> granted demo_blocking) ∧ NoDup (ended demo_blocking) ∧
  ∀ k c, demo_blocking !! k = Some (EvFinal c) →
         (ni_ID (cl_Intent c), cl_ClaimOwner c, cl_ClaimToken c) ∈ granted (take k demo_blocking).
Proof. apply (claims_answered_once demo_generation demo_identity demo_blocking demo_10), demo_blocked. Defined.

Lemma gap_opens_on_outage_witness :
  (∃ p m, demo_blocking = p ++ EvFailure (demo_at 6) :: m ∧ ∀ t, EvSuccess t ∉ m) ∧
  (0 < 10 * Minute ≤ Sub (demo_at 17) (demo_at 6))%Z ∧ (∀ h, h ∈ gaps demo_10 → gap_status h ≠ GapOpen) ∧
  (∀ g' first' now' threshold', EvOpened g' first' now' threshold' ∈ demo_blocking → g' ≠ "generation-1" ∧ first' ≠ demo_at 6).
Proof.
  apply (gap_opens_on_outage demo_generation demo_identity demo_blocking demo_10 "generation-1" (demo_at 6) (demo_at 17)
           (10 * Minute)%Z demo_11 demo_blocked).
  apply NWorker, (NOpen demo_generation demo_identity demo_10 (demo_at 17) (10 * Minute)%Z (demo_at 6) demo_11); by vm_compute.
Defined.

Lemma ClaimNotificationIntents_spec_witness :
  ∃ c, (demo_claim demo_7 (demo_at 5)).1 = [c] ∧ cl_Intent c = claimed_by "worker" (demo_at 6) (demo_row demo_7 "recovered").
Proof.
  destruct (ClaimNotificationIntents_spec demo_generation demo_identity demo_delivering demo_7 "worker" (demo_at 5) Minute 10
              (demo_claim demo_7 (demo_at 5)).1 demo_8 demo_delivered) as (_ & _ & Hone & Hall).
  { by vm_compute. }
  destruct (Hall (eq_refl) (eq_refl) ltac:(vm_compute; lia) (demo_row demo_7 "recovered")) as (c & Hc & E).
  { apply demo_row_in. by vm_compute. }
  { by vm_compute. }
  exists c. split; [|exact E]. revert Hc. assert ((length (demo_claim demo_7 (demo_at 5)).1 = 1)%nat) as Hl by (by vm_compute).
  destruct (demo_claim demo_7 (demo_at 5)).1 as [|c0 [|c1 l]]; [discriminate Hl| |discriminate Hl].
  intros ->%list_elem_of_singleton. reflexivity.
Defined.
