(* ===== verification/PlanFacts.v ===== *)
(** * What a plan owes Slack (theorems about NotificationPlan.v)

    A commit interrupts the main channel at most once and under the operator's
    floor only for a root publication already owed, a withheld broadcast keeps
    its reply, and the plan is one the notification queue is specified for (the
    contract [NotificationStore.planned]). *)

From stdpp Require Import prelude strings list pretty sorting.
From S2P Require Import Prelude SituationModel BriefingModel NotificationModel HistoryModel Material Priority History Episode NotificationPlan NotificationStore.

#[local] Arguments TrimSpace _ : simpl never.
#[local] Arguments boundedText _ _ : simpl never.
#[local] Arguments str_eqb _ _ : simpl never.

Section facts.
Context (intentIdentity : string → string) (rfc3339 : Time → string).

Abbreviation plan := (PlanNotificationIntents intentIdentity rfc3339).
Abbreviation thread := (newReplyIntent intentIdentity).
Abbreviation broadcast := (broadcast_intent intentIdentity).
Abbreviation root := (root_intent intentIdentity rfc3339).

(** ** The shape of a plan *)

(** How often the plan of a Transition interrupts. *)
Definition count_pokes (l : list NotificationIntent) : nat := length (select ni_MainChannelPoke l).

Lemma count_pokes_app l l' : count_pokes (l ++ l') = count_pokes l + count_pokes l'.
Proof. unfold count_pokes, select. by rewrite filter_app, length_app. Qed.

Lemma thread_not_poke i c t k : ni_MainChannelPoke (thread i c t k) = false.
Proof. by destruct k. Qed.
Lemma broadcast_poke i t k : ni_MainChannelPoke (broadcast i t k) = true.
Proof. by destruct k. Qed.

Lemma count_pokes_cons n l : count_pokes (n :: l) = (if ni_MainChannelPoke n then 1 else 0) + count_pokes l.
Proof. unfold count_pokes, select. rewrite filter_cons. destruct (ni_MainChannelPoke n); by case_decide. Qed.

Lemma reply_intents_pokes i t poked ks : count_pokes (reply_intents intentIdentity i t poked ks) ≤ if poked then 1 else 0.
Proof.
  induction ks as [|k ks IH]; cbn [reply_intents]; [unfold count_pokes; cbn; lia|].
  destruct ks as [|k' ks].
  - destruct poked; [unfold poke_intents; destruct (MeetsSlackFloor _ _)|];
      rewrite ?count_pokes_cons, ?thread_not_poke, ?broadcast_poke; unfold count_pokes; cbn; lia.
  - by rewrite count_pokes_cons, thread_not_poke.
Qed.

Definition poked (ps : Z) (t : Transition) : bool := negb (ps =? 0)%Z && (tr_Sequence t =? ps)%Z.

Lemma journal_intents_cases i ps t :
  journal_intents intentIdentity i ps t = []
  ∨ ∃ ks, journal_intents intentIdentity i ps t = reply_intents intentIdentity i t (poked ps t) ks.
Proof.
  unfold journal_intents. fold (poked ps t).
  destruct (is_set (briefing_of t) && _ && _); [by left|].
  destruct (is_set (flow_of t) && _); [by left|].
  destruct (kind_is t JournalNone && _); [by left|].
  destruct (negb _ && _ && _); [by left|]. right. by eexists.
Qed.

Lemma journal_intents_pokes i ps t : count_pokes (journal_intents intentIdentity i ps t) ≤ if poked ps t then 1 else 0.
Proof.
  destruct (journal_intents_cases i ps t) as [->|[ks ->]]; [unfold count_pokes; cbn; lia|]. apply reply_intents_pokes.
Qed.

(** An entry of a plan other than its root. *)
Inductive reply_of (i : PublicationInput) (ps : Z) : NotificationIntent → Prop :=
| reply_thread t k : t ∈ pi_Transitions i → reply_of i ps (thread i EffectThreadAppend t k)
| reply_broadcast t k : t ∈ pi_Transitions i → poked ps t = true → reply_of i ps (broadcast i t k).

Lemma reply_intents_of i ps t ks n :
  t ∈ pi_Transitions i → n ∈ reply_intents intentIdentity i t (poked ps t) ks → reply_of i ps n.
Proof.
  intros Ht. induction ks as [|k ks IH]; cbn [reply_intents]; [by intros []%not_elem_of_nil|].
  destruct ks as [|k' ks].
  - destruct (poked ps t) eqn:Ep; [unfold poke_intents; destruct (MeetsSlackFloor _ _)|];
      rewrite ?elem_of_cons, ?elem_of_nil; intros Hn; destruct_or?; subst; try done; by constructor.
  - intros [->|Hn]%elem_of_cons; [by constructor|by apply IH].
Qed.

Lemma planned_replies i ps n : n ∈ planJournalIntents intentIdentity i ps → reply_of i ps n.
Proof.
  unfold planJournalIntents. intros (l & Hl & Hn)%list_elem_of_In%in_concat. apply list_elem_of_In in Hn, Hl.
  apply list_elem_of_fmap in Hl as (t & -> & Ht).
  destruct (journal_intents_cases i ps t) as [E|[ks E]]; rewrite E in Hn; [by apply not_elem_of_nil in Hn|].
  by eapply reply_intents_of.
Qed.

(** Increasing sequences hold the poked one at most once. *)
Lemma planJournalIntents_pokes i ps :
  StronglySorted (λ t u, (tr_Sequence t < tr_Sequence u)%Z) (pi_Transitions i) →
  count_pokes (planJournalIntents intentIdentity i ps) ≤ if (ps =? 0)%Z then 0 else 1.
Proof.
  unfold planJournalIntents. induction 1 as [|t l Hl IH Ht]; [unfold count_pokes; cbn; lia|].
  rewrite fmap_cons. cbn [concat]. rewrite count_pokes_app. pose proof (journal_intents_pokes i ps t) as Hj.
  assert (poked ps t = true → count_pokes (concat (journal_intents intentIdentity i ps <$> l)) = 0) as Hz.
  { intros [Hp Hs]%andb_true_iff. apply Z.eqb_eq in Hs. clear -Ht Hs.
    induction Ht as [|u l Hu _ IH]; [done|]. rewrite fmap_cons. cbn [concat]. rewrite count_pokes_app, IH.
    pose proof (journal_intents_pokes i ps u) as Hj. unfold poked in Hj.
    destruct (Z.eqb_spec (tr_Sequence u) ps); [lia|]. rewrite andb_false_r in Hj. lia. }
  destruct (poked ps t) eqn:Ep; [|lia]. rewrite Hz by done. apply andb_true_iff in Ep as [Ep _].
  apply negb_true_iff in Ep. rewrite Ep. lia.
Qed.

Lemma validate_sequence_sorted sid l : ∀ previous,
  validate_sequence sid previous l = Ok tt →
  Forall (λ t, tr_SituationID t = sid ∧ match previous with Some s => (s < tr_Sequence t)%Z | None => True end) l
  ∧ StronglySorted (λ t u, (tr_Sequence t < tr_Sequence u)%Z) l.
Proof.
  induction l as [|t l IH]; intros previous H; cbn in H; [split; constructor|]. ok_inv H.
  apply String.eqb_eq in G. destruct (IH _ H) as [H1 H2]. split.
  - constructor; [split; [done|]; destruct previous; [by apply Z.ltb_lt|done]|].
    eapply Forall_impl; [exact H1|]. intros u [Hs Hu]. split; [done|].
    destruct previous; [|done]. apply Z.ltb_lt in G0. cbn in Hu. lia.
  - constructor; [done|]. eapply Forall_impl; [exact H1|]. by intros u [_ Hu].
Qed.

Lemma plan_inv i l :
  plan i = Ok l →
  validatePublicationInput i = Ok tt
  ∧ match last (pi_Transitions i) with
    | None => planDeadlineRefresh intentIdentity rfc3339 i = Ok l
    | Some authority => l = [] ∨ l = root i authority :: planJournalIntents intentIdentity i (poke_sequence i)
                                 ∧ Forall (λ n, NotificationIntent_Validate n = Ok tt) l
    end.
Proof.
  unfold PlanNotificationIntents. intros H. ok_inv H. destruct a. split; [done|].
  destruct (last (pi_Transitions i)) as [t|]; [|done]. destruct (_ && _ && _); [injection H as <-; by left|].
  ok_inv H. injection H as <-. right. split; [done|]. destruct a. unfold validate_intents in B0. apply all_validate_ok in B0.
  eapply Forall_impl; [exact B0|]. cbn. intros n. by destruct (NotificationIntent_Validate n) as [[]|].
Qed.

Lemma plan_sorted i l :
  plan i = Ok l →
  Forall (λ t, tr_SituationID t = Situation_ID (pi_Situation i)) (pi_Transitions i)
  ∧ StronglySorted (λ t u, (tr_Sequence t < tr_Sequence u)%Z) (pi_Transitions i).
Proof.
  intros [H _]%plan_inv. unfold validatePublicationInput in H. ok_inv H.
  destruct (last (pi_Transitions i)) eqn:E.
  - ok_inv H. destruct a. apply validate_sequence_sorted in B as [Ha Hs]. split; [|done].
    eapply Forall_impl; [exact Ha|]. by intros u [].
  - apply last_None in E as ->. split; constructor.
Qed.

(** The refresh of a deadline. *)
Definition refresh_intent (i : PublicationInput) (p : Transition) : NotificationIntent :=
  let version := summary_version (pi_Summary i) in
  set_plan (newIntent intentIdentity i EffectRootSync p
              (rootSyncKey rfc3339 (Situation_ID (pi_Situation i)) version (tr_ID p) (pi_ContractDeadlineAt i)))
    ReplyLegacy (Some version) (pi_ContractDeadlineAt i) false None IntentPending.

Lemma planDeadlineRefresh_inv i l :
  planDeadlineRefresh intentIdentity rfc3339 i = Ok l →
  l = [] ∨ ∃ p, pi_PriorTransition i = Some p ∧ l = [refresh_intent i p] ∧ NotificationIntent_Validate (refresh_intent i p) = Ok tt
                ∧ (1 ≤ summary_version (pi_Summary i))%Z ∧ pi_RootPublished i = true.
Proof.
  unfold planDeadlineRefresh. intros H.
  destruct (pi_RootPublished i), (pi_ContractDeadlineAt i) eqn:Ed, (pi_LastDeliveredRootDeadlineAt i);
    try (injection H as <-; by left).
  destruct (After _ _); [injection H as <-; by left|]. destruct (Equal _ _); [injection H as <-; by left|].
  destruct (pi_PriorTransition i) as [p|]; [|done]. ok_inv H. injection H as <-. right. exists p.
  unfold refresh_intent. rewrite Ed. split; [done|]. split; [done|]. split; [|split; [by apply Z.leb_le|done]].
  destruct a. cbn [validate_intents all_validate] in B. unfold validate_intents in B. cbn [all_validate] in B.
  destruct (NotificationIntent_Validate _) as [[]|]; done.
Qed.

(** ** Interruptions *)

(** What a plan may do on the main channel. *)
Record interrupts_once (i : PublicationInput) (l : list NotificationIntent) : Prop := {
  io_once : count_pokes l ≤ 1;
  io_floor : ∀ n p, n ∈ l → ni_MainChannelPoke n = true → ni_InterruptionPriority n = Some p → ni_Status n = IntentPending →
             MeetsSlackFloor p (pi_SlackFloor i) = true
             ∨ is_class EffectRootSync n = true ∧ pi_RootPublicationOwed i = true;
  io_reply_kept : ∀ n, n ∈ l → is_class EffectBroadcastHandoff n = true → ni_Status n = IntentWithheld →
                  ∃ m, m ∈ l ∧ ni_EffectClass m = EffectThreadAppend ∧ ni_Status m = IntentPending
                       ∧ ni_ReplyKind m = ni_ReplyKind n ∧ ni_TransitionID m = ni_TransitionID n;
  io_first : pi_RootPublished i = false →
             Forall (λ n, ni_MainChannelPoke n = true → ni_EffectClass n = EffectRootSync) l
}.

Lemma withheld_broadcast i t ps ks n :
  n ∈ reply_intents intentIdentity i t (poked ps t) ks → is_class EffectBroadcastHandoff n = true → ni_Status n = IntentWithheld →
  ∃ m, m ∈ reply_intents intentIdentity i t (poked ps t) ks ∧ ni_EffectClass m = EffectThreadAppend ∧ ni_Status m = IntentPending
       ∧ ni_ReplyKind m = ni_ReplyKind n ∧ ni_TransitionID m = ni_TransitionID n.
Proof.
  induction ks as [|k ks IH]; cbn [reply_intents]; [by intros []%not_elem_of_nil|].
  destruct ks as [|k' ks].
  - destruct (poked ps t); [|intros ->%list_elem_of_singleton; by destruct k].
    unfold poke_intents. destruct (MeetsSlackFloor _ _) eqn:Em.
    + intros ->%list_elem_of_singleton _. unfold broadcast_intent. cbn. by rewrite Em.
    + intros [->|[->|[]%not_elem_of_nil]%elem_of_cons]%elem_of_cons; [by destruct k|]. intros _ _.
      exists (thread i EffectThreadAppend t k). split; [by left|]. by destruct k.
  - intros [->|Hn]%elem_of_cons Hb Hw; [by destruct k|]. destruct (IH Hn Hb Hw) as (m & Hm & Hrest).
    exists m. split; [by right|done].
Qed.

Lemma broadcast_fields i t k :
  ni_EffectClass (broadcast i t k) = EffectBroadcastHandoff
  ∧ ni_InterruptionPriority (broadcast i t k) = Some (DeriveInterruptionPriority t)
  ∧ (ni_Status (broadcast i t k) = IntentPending → MeetsSlackFloor (DeriveInterruptionPriority t) (pi_SlackFloor i) = true).
Proof. unfold broadcast_intent. cbn. destruct (MeetsSlackFloor _ _); by destruct k. Qed.

(** Entries that neither poke nor broadcast. *)
Lemma interrupts_quiet i l :
  Forall (λ n, ni_MainChannelPoke n = false ∧ is_class EffectBroadcastHandoff n = false) l → interrupts_once i l.
Proof.
  intros Hl. rewrite Forall_forall in Hl. split.
  - induction l as [|n l IH]; [unfold count_pokes; cbn; lia|]. rewrite count_pokes_cons.
    destruct (Hl n) as [-> _]; [by left|]. apply IH. intros m Hm. apply Hl. by right.
  - intros n p [Hn _]%Hl. congruence.
  - intros n [_ Hn]%Hl. congruence.
  - intros _. apply Forall_forall. intros n [Hn _]%Hl. congruence.
Qed.

(** C23. A plan holds at most one entry that interrupts the main channel.  If that
    entry is to be sent, its priority is one the operator's floor lets through,
    or it is a root whose publication was owed already.  A broadcast handoff
    withheld for the floor comes with a pending thread reply of the same
    Transition and kind (a withheld root has none); and until the root is
    published, the root is the only entry that interrupts. *)
Theorem plan_interrupts_once i l : plan i = Ok l → interrupts_once i l.
Proof.
  intros H. destruct (plan_sorted _ _ H) as [_ Hs]. destruct (plan_inv _ _ H) as [_ Hl].
  destruct (last (pi_Transitions i)) as [a|] eqn:Ea.
  2: { apply planDeadlineRefresh_inv in Hl as [->|(p & _ & -> & _)]; apply interrupts_quiet; by repeat constructor. }
  destruct Hl as [->|[-> _]]; [apply interrupts_quiet; constructor|].
  pose proof (planJournalIntents_pokes i (poke_sequence i) Hs) as Hp.
  split.
  - rewrite count_pokes_cons. cbn. unfold poke_sequence in *. destruct (pi_RootPublished i); cbn in *; [|lia].
    destruct (Z.eqb _ _); lia.
  - intros n p [->|Hn]%elem_of_cons Hpk Hpr Hst.
    + cbn in *. destruct (pi_RootPublished i); cbn in *; [done|]. injection Hpr as <-.
      destruct (MeetsSlackFloor _ _); [by left|]. destruct (pi_RootPublicationOwed i); [by right|done].
    + apply planned_replies in Hn; destruct Hn as [t k Ht|t k Ht Hps]; [by rewrite thread_not_poke in Hpk|].
      destruct (broadcast_fields i t k) as (_ & Hp' & Hm). rewrite Hp' in Hpr. injection Hpr as <-. left. by apply Hm.
  - intros n [->|Hn]%elem_of_cons Hb Hw; [done|].
    unfold planJournalIntents in Hn. apply list_elem_of_In, in_concat in Hn as (r & Hr & Hn). apply list_elem_of_In in Hr, Hn.
    assert (∀ m, m ∈ r → m ∈ planJournalIntents intentIdentity i (poke_sequence i)) as Hsub.
    { intros m Hm. apply list_elem_of_In, in_concat. exists r. split; by apply list_elem_of_In. }
    apply list_elem_of_fmap in Hr as (t & -> & Ht).
    destruct (journal_intents_cases i (poke_sequence i) t) as [E|[ks E]]; rewrite E in *; [by apply not_elem_of_nil in Hn|].
    destruct (withheld_broadcast _ _ _ _ _ Hn Hb Hw) as (m & Hm & Hrest). exists m. split; [right; by apply Hsub|done].
  - intros Hrp. constructor; [done|]. apply Forall_forall. intros n Hn Hpk.
    apply planned_replies in Hn; destruct Hn as [t k Ht|t k Ht Hps]; [by rewrite thread_not_poke in Hpk|].
    unfold poke_sequence in Hps. rewrite Hrp in Hps. done.
Qed.

(** ** The contract of the queue *)

(** The replies already queued are of earlier Transitions. *)
Definition queue_behind (db : notif_db) (i : PublicationInput) : Prop :=
  ∀ o t, o ∈ intents db → t ∈ pi_Transitions i → reply o = true → ni_SituationID o = Some (Situation_ID (pi_Situation i)) →
  (sequence_key o < tr_Sequence t)%Z.

(** A key is named after the class of its intent. *)
Definition named (n : NotificationIntent) : Prop :=
  ni_ID n = intentIdentity ("intent:" +:+ ni_IdempotencyKey n)
  ∧ ∃ m, ni_IdempotencyKey n = EffectClass_text (ni_EffectClass n) +:+ ":" +:+ m.

Lemma class_prefix c r : ∃ m, boundedText (EffectClass_text c +:+ ":" +:+ r) maxHistoryIdentifier = EffectClass_text c +:+ ":" +:+ m.
Proof.
  rewrite <- string_app_assoc.
  assert (ValidString (EffectClass_text c +:+ ":") = true ∧ String.length (EffectClass_text c +:+ ":") ≤ maxHistoryIdentifier) as [Hv Hl].
  { destruct c; (split; [vm_compute; reflexivity|apply Nat.leb_le; vm_compute; reflexivity]). }
  destruct (boundedText_keeps _ r _ Hv Hl) as [m ->]. exists m. by rewrite string_app_assoc.
Qed.

Lemma named_thread i c t k : named (thread i c t k).
Proof.
  assert (∃ m, ni_IdempotencyKey (thread i c t k) = EffectClass_text c +:+ ":" +:+ m) as Hk.
  { unfold newReplyIntent, threadKey.
    destruct (class_prefix c (Situation_ID (pi_Situation i) +:+ ":" +:+ pretty (tr_Sequence t))) as [m Hm].
    destruct k; cbn; rewrite Hm; [by exists m|..]; rewrite !string_app_assoc; apply class_prefix. }
  split; [by destruct k|]. by destruct k.
Qed.

Lemma named_broadcast i t k : named (broadcast i t k).
Proof. destruct (named_thread i EffectBroadcastHandoff t k) as [Hi Hk]. split; [exact Hi|exact Hk]. Qed.

Lemma named_root i a v kind version deadline poke priority status :
  named (set_plan (newIntent intentIdentity i EffectRootSync a
           (rootSyncKey rfc3339 (Situation_ID (pi_Situation i)) v (tr_ID a) (pi_ContractDeadlineAt i)))
           kind version deadline poke priority status).
Proof. split; [done|]. cbn. unfold rootSyncKey. apply (class_prefix EffectRootSync). Qed.

(** The names of gap notices are no names of other intents (they are UUIDs of
    different texts). *)
Definition notices_named_apart : Prop :=
  ∀ c m m', c ≠ EffectInstallationGapRecovery →
  intentIdentity ("intent:" +:+ EffectClass_text c +:+ ":" +:+ m)
  ≠ intentIdentity ("intent:" +:+ EffectClass_text EffectInstallationGapRecovery +:+ ":" +:+ m').

Lemma named_not_notice n g now j :
  notices_named_apart →
  ni_EffectClass n ≠ EffectInstallationGapRecovery → named n → GapRecoveryIntent intentIdentity g now = Ok j → ni_ID n ≠ ni_ID j.
Proof.
  intros Hapart Hc [Hid [m Hm]] Hg. unfold GapRecoveryIntent in Hg. ok_inv Hg. injection Hg as <-.
  rewrite Hid, Hm. cbn [ni_ID]. destruct (class_prefix EffectInstallationGapRecovery g) as [m' Hm'].
  change ("installation_gap_recovery:" +:+ g) with (EffectClass_text EffectInstallationGapRecovery +:+ ":" +:+ g).
  rewrite Hm'. by apply Hapart.
Qed.

(** The Transition an intent tells of: one of the plan or the one before it. *)
Definition subject_of (i : PublicationInput) (n : NotificationIntent) (t : Transition) : Prop :=
  (t ∈ pi_Transitions i ∨ pi_PriorTransition i = Some t)
  ∧ ni_TransitionID n = Some (tr_ID t) ∧ ni_TransitionSequence n = Some (tr_Sequence t).

(** What every entry of a plan has. *)
Record plan_entry (i : PublicationInput) (n : NotificationIntent) : Prop := {
  pe_situation : ni_SituationID n = Some (Situation_ID (pi_Situation i));
  pe_unattempted : unattempted n;
  pe_class : ni_EffectClass n ≠ EffectInstallationGapRecovery;
  pe_named : named n;
  pe_subject : ∃ t, subject_of i n t;
  pe_sequence : reply n = true → ∃ t, t ∈ pi_Transitions i ∧ sequence_key n = tr_Sequence t
}.

Lemma reply_entry i ps n : reply_of i ps n → plan_entry i n ∧ is_class EffectRootSync n = false.
Proof.
  intros [t k Ht|t k Ht _]; (split; [|by destruct k]).
  - split; [by destruct k| |by destruct k|apply named_thread|exists t; split; [by left|by destruct k]|intros _; exists t; by destruct k].
    destruct k; (split; [by left|done]).
  - split; [by destruct k| |by destruct k|apply named_broadcast|exists t; split; [by left|by destruct k]|intros _; exists t; by destruct k].
    split; [|done]. unfold broadcast_intent. cbn. destruct (MeetsSlackFloor _ _); [by left|by right].
Qed.

Lemma root_entry i a :
  a ∈ pi_Transitions i → plan_entry i (root i a) ∧ is_class EffectRootSync (root i a) = true.
Proof.
  intros Ha. split; [|done]. split; [done| |done|apply named_root|exists a; split; [by left|done]|done]. split; [|done]. unfold root_intent. cbn.
  destruct (_ && _ && _); [by right|by left].
Qed.

Lemma refresh_entry i p :
  pi_PriorTransition i = Some p → plan_entry i (refresh_intent i p) ∧ is_class EffectRootSync (refresh_intent i p) = true.
Proof.
  intros Hp. split; [|done]. split; [done|split; [by left|done]|done|apply named_root|exists p; split; [by right|done]|done].
Qed.

(** A plan is a root, if any, and replies. *)
Lemma plan_entries i l :
  plan i = Ok l → Forall (plan_entry i) l ∧ length (select (is_class EffectRootSync) l) ≤ 1
                  ∧ Forall (λ n, NotificationIntent_Validate n = Ok tt) l.
Proof.
  intros [_ Hl]%plan_inv. destruct (last (pi_Transitions i)) as [a|] eqn:Ea.
  - destruct Hl as [->|[-> Hv]]; [repeat split; cbn; try constructor; lia|].
    destruct (root_entry i a) as [Hr Hc]; [by apply last_Some_elem_of|].
    assert (∀ n, n ∈ planJournalIntents intentIdentity i (poke_sequence i) →
            plan_entry i n ∧ is_class EffectRootSync n = false) as Hj by (intros n Hn; by eapply reply_entry, planned_replies).
    split; [|split; [|done]].
    + constructor; [done|]. apply Forall_forall. intros n Hn. by apply Hj.
    + unfold select. rewrite filter_cons_True by done. cbn. rewrite filter_none; [cbn; lia|].
      intros n Hn. destruct (Hj n Hn) as [_ ->]. done.
  - apply planDeadlineRefresh_inv in Hl as [->|(p & Hp & -> & Hv & _)]; [repeat split; cbn; try constructor; lia|].
    destruct (refresh_entry i p Hp) as [Hr Hc]. split; [by constructor|]. split; [|by constructor].
    unfold select. rewrite filter_cons_True by done. cbn. lia.
Qed.

(** A plan is one the notification queue is specified for, when the replies
    already queued are of earlier Transitions (HistoryQueue.v shows they are). *)
Lemma plan_planned db i l :
  notices_named_apart → queue_behind db i → plan i = Ok l →
  planned intentIdentity db (Situation_ID (pi_Situation i)) l.
Proof.
  intros Hapart Hq Hl. destruct (plan_entries _ _ Hl) as (Hall & Hroot & _). split; [| |done| |].
  - eapply Forall_impl; [exact Hall|]. by intros n [].
  - eapply Forall_impl; [exact Hall|]. by intros n [].
  - intros n o Hn Ho Hrn Hro Hso. rewrite Forall_forall in Hall. destruct (pe_sequence _ _ (Hall n Hn) Hrn) as (t & Ht & ->).
    by apply Hq.
  - intros n g now j Hn. rewrite Forall_forall in Hall. destruct (Hall n Hn). by apply named_not_notice.
Qed.

(** ** A refresh planned twice *)

Lemma key_taken db n :
  existsb (λ o, str_eqb (ni_IdempotencyKey o) (ni_IdempotencyKey n)) (intents db) = true →
  insertNotificationIntentTx db n = Err ErrNotifConstraint.
Proof.
  intros H. unfold insertNotificationIntentTx, fits. rewrite H. cbn [negb]. by rewrite andb_false_r, !andb_false_l, andb_false_r.
Qed.

Lemma update_keys P f l k :
  (∀ n, ni_IdempotencyKey (f n) = ni_IdempotencyKey n) →
  existsb (λ o, str_eqb (ni_IdempotencyKey o) k) (update P f l) = existsb (λ o, str_eqb (ni_IdempotencyKey o) k) l.
Proof. intros Hf. unfold update. induction l as [|n l IH]; cbn; [done|]. rewrite IH. destruct (P n); by rewrite ?Hf. Qed.

Lemma supersede_keys db sid id k :
  existsb (λ o, str_eqb (ni_IdempotencyKey o) k) (intents (supersedeLiveRootSyncTx db sid id))
  = existsb (λ o, str_eqb (ni_IdempotencyKey o) k) (intents db).
Proof. by apply update_keys. Qed.

(** Two cycles that add nothing to a history and promise the same update. *)
Record same_promise (i i' : PublicationInput) : Prop := {
  sp_quiet : pi_Transitions i = [] ∧ pi_Transitions i' = [];
  sp_situation : Situation_ID (pi_Situation i') = Situation_ID (pi_Situation i);
  sp_version : summary_version (pi_Summary i') = summary_version (pi_Summary i);
  sp_authority : pi_PriorTransition i' = pi_PriorTransition i;
  sp_deadline : rfc3339 <$> pi_ContractDeadlineAt i' = rfc3339 <$> pi_ContractDeadlineAt i
}.

(** The refresh of a promised update has the same key as the one of any
    earlier cycle with the same summary, authority and deadline (to the second):
    while that one is still in the queue, in whatever state, the queue refuses
    the second, and with it the whole commit. *)
Theorem refresh_planned_twice db i i' l l' db1 :
  same_promise i i' →
  plan i = Ok l → l ≠ [] → plan i' = Ok l' → l' ≠ [] →
  insertNotificationIntentsTx db (Situation_ID (pi_Situation i)) l = Ok db1 →
  insertNotificationIntentsTx db1 (Situation_ID (pi_Situation i)) l' = Err ErrNotifConstraint.
Proof.
  intros [[Ht Ht'] Hs Hv Hp Hd] [_ Hl]%plan_inv Hn [_ Hl']%plan_inv Hn' Hi. rewrite Ht in Hl. rewrite Ht' in Hl'. cbn in Hl, Hl'.
  apply planDeadlineRefresh_inv in Hl as [|(p & Ep & -> & _)]; [done|].
  apply planDeadlineRefresh_inv in Hl' as [|(p' & Ep' & -> & _)]; [done|]. rewrite Hp, Ep in Ep'. injection Ep' as <-.
  assert (ni_IdempotencyKey (refresh_intent i' p) = ni_IdempotencyKey (refresh_intent i p)) as Hk.
  { cbn. unfold rootSyncKey. rewrite Hs, Hv. by destruct (pi_ContractDeadlineAt i), (pi_ContractDeadlineAt i'); cbn in Hd; simplify_eq; rewrite ?Hd. }
  assert (∀ j, select (is_class EffectRootSync) [refresh_intent j p] = [refresh_intent j p]) as Hsel by reflexivity.
  unfold insertNotificationIntentsTx in *. rewrite Hsel in *. cbn [head] in *.
  cbn [insert_all] in *. ok_inv Hi. injection Hi as <-. unfold insertNotificationIntentTx in B. ok_inv B. injection B as <-.
  rewrite key_taken; [done|]. rewrite supersede_keys. cbn [intents with_intents]. rewrite existsb_app. cbn [existsb].
  by rewrite Hk, str_eqb_refl, orb_true_r.
Qed.
End facts.
