(* ===== verification/HistoryStore.v ===== *)
(** * The history tables (internal/store/situation_history.go, migration 0018)

    [applyHistoryCommitTx] writes what a reconciliation derived inside the
    controller's transaction: Transitions, the Episode summary folded again from
    the stored one, the stream rows, the journaling cursor of the operator
    artifacts, the notification intents and the current-Transition pointer.  An
    error rolls the transaction back.

    A row is the value it encodes; the JSON of a summary, which two of them are
    compared by, is an argument.  The CHECKs that [Transition.Validate] implies,
    the briefing's own table and the ntfy outbox are left out. *)

From stdpp Require Import prelude strings list gmap.
From S2P Require Import Prelude SituationModel BriefingModel NotificationModel HistoryModel Material Priority History Episode NotificationPlan HistoryCommit NotificationStore.

(** ** The tables *)

Inductive journal_state : Set :=
| JournalNotApplicable
| JournalPending
| JournalJournaled (transitionID : string)
| JournalOwnerTerminal.

#[export] Instance journal_state_eq_dec : EqDecision journal_state.
Proof. solve_decision. Defined.

(** [h_pointers] are the rows of the Situations, [h_attempts] their
    authoritative assessment attempts, [h_artifacts] the rows of the input
    outbox. *)
Record history_db : Type := {
  h_transitions : list Transition;
  h_summaries : gmap string EpisodeSummary;
  h_stream : list string;
  h_artifacts : gmap string journal_state;
  h_pointers : gmap string (option string * Z);
  h_attempts : list (string * string);
  h_queue : notif_db
}.

Inductive history_error : Type :=
| ErrHistoryInvalid (e : string)
| ErrHistoryNotFound
| ErrSituationHistoryConflict
| ErrHistoryMismatch
| ErrHistoryArtifact
| ErrHistoryConstraint
| ErrHistoryQueue (e : notif_error).

Definition with_transitions (db : history_db) (l : list Transition) : history_db :=
  {| h_transitions := l; h_summaries := h_summaries db; h_stream := h_stream db; h_artifacts := h_artifacts db;
     h_pointers := h_pointers db; h_attempts := h_attempts db; h_queue := h_queue db |}.
Definition with_summaries (db : history_db) (m : gmap string EpisodeSummary) : history_db :=
  {| h_transitions := h_transitions db; h_summaries := m; h_stream := h_stream db; h_artifacts := h_artifacts db;
     h_pointers := h_pointers db; h_attempts := h_attempts db; h_queue := h_queue db |}.
Definition with_stream (db : history_db) (l : list string) : history_db :=
  {| h_transitions := h_transitions db; h_summaries := h_summaries db; h_stream := l; h_artifacts := h_artifacts db;
     h_pointers := h_pointers db; h_attempts := h_attempts db; h_queue := h_queue db |}.
Definition with_artifacts (db : history_db) (m : gmap string journal_state) : history_db :=
  {| h_transitions := h_transitions db; h_summaries := h_summaries db; h_stream := h_stream db; h_artifacts := m;
     h_pointers := h_pointers db; h_attempts := h_attempts db; h_queue := h_queue db |}.
Definition with_pointers (db : history_db) (m : gmap string (option string * Z)) : history_db :=
  {| h_transitions := h_transitions db; h_summaries := h_summaries db; h_stream := h_stream db; h_artifacts := h_artifacts db;
     h_pointers := m; h_attempts := h_attempts db; h_queue := h_queue db |}.
Definition with_attempts (db : history_db) (l : list (string * string)) : history_db :=
  {| h_transitions := h_transitions db; h_summaries := h_summaries db; h_stream := h_stream db; h_artifacts := h_artifacts db;
     h_pointers := h_pointers db; h_attempts := l; h_queue := h_queue db |}.
Definition with_queue (db : history_db) (q : notif_db) : history_db :=
  {| h_transitions := h_transitions db; h_summaries := h_summaries db; h_stream := h_stream db; h_artifacts := h_artifacts db;
     h_pointers := h_pointers db; h_attempts := h_attempts db; h_queue := q |}.

(** The rest of a list, one element at a time. *)
Fixpoint run {A} (f : history_db → A → result history_error history_db) (db : history_db) (l : list A)
    : result history_error history_db :=
  match l with
  | [] => Ok db
  | a :: l => let? db := f db a in run f db l
  end.

(** ** Validation *)

Definition as_invalid {A} (r : result string A) : result history_error A :=
  match r with Ok a => Ok a | Err e => Err (ErrHistoryInvalid e) end.

Fixpoint validate_transitions (sid : string) (previous : option Z) (l : list Transition) : result history_error unit :=
  match l with
  | [] => Ok tt
  | t :: l =>
      guard! str_eqb (tr_SituationID t) sid else ErrHistoryInvalid "history transition belongs to another situation" in
      let? _ := as_invalid (Transition_Validate t) in
      guard! match previous with Some s => (tr_Sequence t =? s + 1)%Z | None => true end else ErrSituationHistoryConflict in
      validate_transitions sid (Some (tr_Sequence t)) l
  end.

Definition validateHistoryCommit (sid : string) (h : HistoryCommit) : result history_error unit :=
  let? _ := validate_transitions sid None (hc_Transitions h) in
  guard! Bool.eqb (is_set (hc_Summary h)) (negb (length (hc_Transitions h) =? 0)%nat)
  else ErrHistoryInvalid "history commit: a summary exactly when there are transitions" in
  let? _ := match hc_Summary h with Some e => as_invalid (EpisodeSummary_Validate e) | None => Ok tt end in
  guard! forallb (λ n, is_ok (NotificationIntent_Validate n) && in_situation sid n) (hc_Intents h)
  else ErrHistoryInvalid "history notification intent" in
  Ok tt.

(** ** Writing *)

Definition transition_has_id (id : string) (t : Transition) : bool := str_eqb (tr_ID t) id.
Definition transition_at (sid : string) (sequence : Z) (t : Transition) : bool :=
  str_eqb (tr_SituationID t) sid && (tr_Sequence t =? sequence)%Z.

Definition insertTransitionTx (db : history_db) (t : Transition) : result history_error history_db :=
  guard! negb (existsb (transition_has_id (tr_ID t)) (h_transitions db))
         && negb (existsb (transition_at (tr_SituationID t) (tr_Sequence t)) (h_transitions db))
         && is_set (h_pointers db !! tr_SituationID t)
         && match tr_OperatorArtifactInputID t with Some i => is_set (h_artifacts db !! i) | None => true end
         && match tr_AssessmentID t with
            | Some a => bool_decide ((tr_SituationID t, a) ∈ h_attempts db)
            | None => true
            end
  else ErrHistoryConstraint in
  Ok (with_transitions db (h_transitions db ++ [t])).

(** The summary of the next version; the first is inserted. *)
Definition writeEpisodeSummaryTx (db : history_db) (e : EpisodeSummary) : result history_error history_db :=
  let sid := es_SituationID e in
  guard! existsb (transition_at sid (es_SourceTransitionSequence e)) (h_transitions db)
         && match h_summaries db !! sid with
            | Some old => (es_Version e =? es_Version old + 1)%Z
                          && (es_SourceTransitionSequence old <? es_SourceTransitionSequence e)%Z
            | None => true
            end
  else ErrHistoryConstraint in
  Ok (with_summaries db (<[sid := e]> (h_summaries db))).

(** One version per Transition, folded onto the stored summary. *)
Fixpoint fold_summaries (db : history_db) (prior : option EpisodeSummary) (l : list Transition)
    : result history_error (history_db * option EpisodeSummary) :=
  match l with
  | [] => Ok (db, prior)
  | t :: l =>
      let? e := as_invalid (ProjectEpisode prior t) in
      let? db := writeEpisodeSummaryTx db e in
      fold_summaries db (Some e) l
  end.

Section apply.
Context (marshal : EpisodeSummary → string).

Definition foldEpisodeSummaryTx (db : history_db) (sid : string) (h : HistoryCommit) : result history_error history_db :=
  match hc_Transitions h with
  | [] => Ok db
  | _ =>
      let? (db, folded) := fold_summaries db (h_summaries db !! sid) (hc_Transitions h) in
      guard! match folded, hc_Summary h with
             | Some got, Some want => str_eqb (marshal got) (marshal want)
             | _, _ => false
             end else ErrHistoryMismatch in
      Ok db
  end.

Definition insertTransitionStreamTx (db : history_db) (t : Transition) : result history_error history_db :=
  guard! negb (existsb (str_eqb (tr_ID t)) (h_stream db)) else ErrHistoryConstraint in
  Ok (with_stream db (h_stream db ++ [tr_ID t])).

Definition journalOperatorArtifactTx (db : history_db) (t : Transition) : result history_error history_db :=
  match tr_OperatorArtifactInputID t with
  | None => Ok db
  | Some i =>
      guard! bool_decide (h_artifacts db !! i = Some JournalPending) else ErrHistoryArtifact in
      Ok (with_artifacts db (<[i := JournalJournaled (tr_ID t)]> (h_artifacts db)))
  end.

Definition insert_intents (db : history_db) (sid : string) (l : list NotificationIntent) : result history_error history_db :=
  match insertNotificationIntentsTx (h_queue db) sid l with
  | Ok q => Ok (with_queue db q)
  | Err e => Err (ErrHistoryQueue e)
  end.

Definition advance_pointer (db : history_db) (sid : string) (l : list Transition) : result history_error history_db :=
  match last l with
  | None => Ok db
  | Some t =>
      guard! existsb (λ u, transition_has_id (tr_ID t) u && transition_at sid (tr_Sequence t) u) (h_transitions db)
      else ErrHistoryConstraint in
      Ok (with_pointers db (<[sid := (Some (tr_ID t), tr_Sequence t)]> (h_pointers db)))
  end.

Definition applyHistoryCommitTx (db : history_db) (sid : string) (h : option HistoryCommit) : result history_error history_db :=
  match h with
  | None => Ok db
  | Some h =>
      let? _ := validateHistoryCommit sid h in
      match h_pointers db !! sid with
      | None => Err ErrHistoryNotFound
      | Some (_, priorSequence) =>
          guard! match hc_Transitions h with t :: _ => (tr_Sequence t =? priorSequence + 1)%Z | [] => true end
          else ErrSituationHistoryConflict in
          let? db := run insertTransitionTx db (hc_Transitions h) in
          let? db := foldEpisodeSummaryTx db sid h in
          let? db := run insertTransitionStreamTx db (hc_Transitions h) in
          let? db := run journalOperatorArtifactTx db (hc_Transitions h) in
          let? db := insert_intents db sid (hc_Intents h) in
          advance_pointer db sid (hc_Transitions h)
      end
  end.

(** A new Situation, a new operator artifact or one whose owner has ended, a new
    authoritative attempt, a commit, and whatever the workers do to the queue.
    The retention sweep, which clears the detail columns of old Transitions
    (expireTransitionDetailTx), is not among them. *)
Inductive history_step (db : history_db) : history_db → Prop :=
| HSituation sid : h_pointers db !! sid = None →
    history_step db (with_pointers db (<[sid := (None, 0%Z)]> (h_pointers db)))
| HArtifact i s : h_artifacts db !! i = None → (∀ t, s ≠ JournalJournaled t) →
    history_step db (with_artifacts db (<[i := s]> (h_artifacts db)))
| HOwnerTerminal i : h_artifacts db !! i = Some JournalPending →
    history_step db (with_artifacts db (<[i := JournalOwnerTerminal]> (h_artifacts db)))
| HAttempt sid a : is_Some (h_pointers db !! sid) → history_step db (with_attempts db ((sid, a) :: h_attempts db))
| HQueue q : history_step db (with_queue db q)
| HCommit sid h db' : applyHistoryCommitTx db sid h = Ok db' → history_step db db'.
End apply.

(** ** The invariant *)

Definition history_of (db : history_db) (sid : string) : list Transition :=
  filter (λ t, tr_SituationID t = sid) (h_transitions db).

(** The Transitions that journal an artifact. *)
Definition journal_of (db : history_db) (i : string) : list Transition :=
  filter (λ t, tr_OperatorArtifactInputID t = Some i) (h_transitions db).

(** A summary stands for the whole history, whose sequences count from one. *)
Definition episode_of (ts : list Transition) (e : option EpisodeSummary) : Prop :=
  match e with
  | None => ts = []
  | Some e => represents ts e ∧ es_SourceTransitionSequence e = Z.of_nat (length ts)
  end.

Definition journaled_once (state : option journal_state) (ts : list Transition) : Prop :=
  match state with
  | Some (JournalJournaled id) => tr_ID <$> ts = [id]
  | _ => ts = []
  end.

Record history_inv (db : history_db) : Prop := {
  hi_ok : Forall transition_ok (h_transitions db);
  hi_ids : NoDup (tr_ID <$> h_transitions db);
  hi_stream : h_stream db = tr_ID <$> h_transitions db;
  hi_episode : ∀ sid, episode_of (history_of db sid) (h_summaries db !! sid);
  hi_pointer : ∀ sid p, h_pointers db !! sid = Some p →
               p = ((tr_ID <$> last (history_of db sid)), Z.of_nat (length (history_of db sid)));
  hi_known : ∀ t, t ∈ h_transitions db → is_Some (h_pointers db !! tr_SituationID t);
  hi_journal : ∀ i, journaled_once (h_artifacts db !! i) (journal_of db i)
}.

(** ** Lemmas: the phases of a commit *)

Lemma as_invalid_ok {A} (r : result string A) a : as_invalid r = Ok a ↔ r = Ok a.
Proof. destruct r; naive_solver. Qed.

Lemma validate_transitions_ok sid l : ∀ previous,
  validate_transitions sid previous l = Ok tt → Forall (λ t, transition_ok t ∧ tr_SituationID t = sid) l.
Proof.
  induction l as [|t l IH]; intros previous H; cbn in H; [constructor|]. ok_inv H.
  apply as_invalid_ok in B. destruct a. constructor; [|by eapply IH].
  split; [by apply Transition_Validate_ok|by apply String.eqb_eq].
Qed.

Lemma validateHistoryCommit_ok sid h :
  validateHistoryCommit sid h = Ok tt → Forall (λ t, transition_ok t ∧ tr_SituationID t = sid) (hc_Transitions h).
Proof. unfold validateHistoryCommit. intros H. ok_inv H. destruct a. by eapply validate_transitions_ok. Qed.

Lemma insertTransitionTx_ok db t db' :
  insertTransitionTx db t = Ok db' →
  db' = with_transitions db (h_transitions db ++ [t]) ∧ (tr_ID t ∉ (tr_ID <$> h_transitions db))
  ∧ is_Some (h_pointers db !! tr_SituationID t).
Proof.
  unfold insertTransitionTx. intros H. ok_inv H. injection H as <-. split; [done|].
  apply andb_true_iff in G as [[[[G _]%andb_true_iff Gp]%andb_true_iff _]%andb_true_iff _]. split.
  - intros (u & Hu & Hin)%list_elem_of_fmap. apply negb_true_iff in G.
    assert (existsb (transition_has_id (tr_ID t)) (h_transitions db) = true) as He; [|congruence].
    apply existsb_exists. exists u. split; [by apply list_elem_of_In|]. unfold transition_has_id. rewrite <- Hu. apply str_eqb_refl.
  - destruct (h_pointers db !! tr_SituationID t); [by eexists|done].
Qed.

Lemma run_transitions ts : ∀ db db',
  run insertTransitionTx db ts = Ok db' → NoDup (tr_ID <$> h_transitions db) →
  db' = with_transitions db (h_transitions db ++ ts) ∧ NoDup (tr_ID <$> (h_transitions db ++ ts))
  ∧ Forall (λ t, is_Some (h_pointers db !! tr_SituationID t)) ts.
Proof.
  induction ts as [|t ts IH]; intros db db' H Hd; cbn in H.
  { injection H as <-. rewrite app_nil_r. by destruct db. }
  ok_inv H. apply insertTransitionTx_ok in B as (-> & Hn & Hp).
  destruct (IH _ _ H) as (-> & Hd' & Hp').
  { cbn. rewrite fmap_app. apply NoDup_app. split; [done|]. split; [|apply NoDup_singleton].
    intros x Hx ->%list_elem_of_singleton. done. }
  cbn in *. rewrite <- app_assoc in *. split; [done|]. split; [done|]. by constructor.
Qed.

Lemma run_stream ts : ∀ db db',
  run insertTransitionStreamTx db ts = Ok db' → db' = with_stream db (h_stream db ++ (tr_ID <$> ts)).
Proof.
  induction ts as [|t ts IH]; intros db db' H; cbn in H; [injection H as <-; cbn; rewrite app_nil_r; by destruct db|].
  ok_inv H. unfold insertTransitionStreamTx in B. ok_inv B. injection B as <-. rewrite (IH _ _ H). cbn. by rewrite <- app_assoc.
Qed.

(** Every artifact a commit names was pending and is journaled by it alone. *)
Lemma run_artifacts ts : ∀ db db',
  run journalOperatorArtifactTx db ts = Ok db' →
  db' = with_artifacts db (h_artifacts db')
  ∧ ∀ i, match filter (λ t, tr_OperatorArtifactInputID t = Some i) ts with
         | [] => h_artifacts db' !! i = h_artifacts db !! i
         | [t] => h_artifacts db !! i = Some JournalPending ∧ h_artifacts db' !! i = Some (JournalJournaled (tr_ID t))
         | _ => False
         end.
Proof.
  induction ts as [|t ts IH]; intros db db' H; cbn in H; [injection H as <-; split; [by destruct db|done]|].
  ok_inv H. destruct (IH _ _ H) as [Hdb Hi]. unfold journalOperatorArtifactTx in B.
  destruct (tr_OperatorArtifactInputID t) as [j|] eqn:Ej.
  - ok_inv B. injection B as <-. cbn in Hdb. split; [rewrite Hdb; by destruct db'|].
    intros i. specialize (Hi i). cbn in Hi. destruct (decide (i = j)) as [->|Hn].
    + rewrite filter_cons_True by done. rewrite lookup_insert_eq in Hi.
      destruct (filter _ ts) as [|u [|? ?]] eqn:Ef; [|by destruct Hi|done].
      rewrite bool_decide_eq_true in G. done.
    + rewrite filter_cons_False by congruence. by rewrite lookup_insert_ne in Hi.
  - injection B as <-. split; [done|]. intros i. rewrite filter_cons_False by congruence. apply Hi.
Qed.

Lemma ProjectEpisode_situation prior t e : ProjectEpisode prior t = Ok e → es_SituationID e = tr_SituationID t.
Proof.
  intros (_ & -> & Hv)%ProjectEpisode_inv. destruct prior as [p|]; [|done]. by apply validateFold_ok in Hv as [? _].
Qed.

Lemma fold_summaries_ok sid ts : ∀ db prior db' e,
  Forall (λ t, tr_SituationID t = sid) ts → h_summaries db !! sid = prior →
  fold_summaries db prior ts = Ok (db', e) →
  project_all prior ts = Ok e ∧ db' = with_summaries db (h_summaries db') ∧ h_summaries db' !! sid = e
  ∧ ∀ s, s ≠ sid → h_summaries db' !! s = h_summaries db !! s.
Proof.
  induction ts as [|t ts IH]; intros db prior db' e Hs Hp H; cbn in H; [injection H as <- <-; by destruct db|].
  apply Forall_cons in Hs as [Ht Hs]. ok_inv H. apply as_invalid_ok in B.
  pose proof (ProjectEpisode_situation _ _ _ B) as He. unfold writeEpisodeSummaryTx in B0. ok_inv B0. injection B0 as <-.
  rewrite He, Ht in H.
  assert (h_summaries (with_summaries db (<[sid := a]> (h_summaries db))) !! sid = Some a) as Hpre by apply lookup_insert_eq.
  destruct (IH _ (Some a) _ _ Hs Hpre H) as (Hpa & Hdb & Hl & Ho).
  cbn [project_all]. rewrite B. cbn in *. split; [done|]. split; [rewrite Hdb; by destruct db'|]. split; [done|].
  intros s Hn. rewrite Ho by done. by rewrite lookup_insert_ne.
Qed.

(** ** The invariant of the tables *)

Section inv.
Context (marshal : EpisodeSummary → string).

(** The tables after a commit, piece by piece. *)
Record applied (db : history_db) (sid : string) (ts : list Transition) (db' : history_db) : Prop := {
  ap_transitions : h_transitions db' = h_transitions db ++ ts;
  ap_own : Forall (λ t, transition_ok t ∧ tr_SituationID t = sid) ts;
  ap_ids : NoDup (tr_ID <$> (h_transitions db ++ ts));
  ap_stream : h_stream db' = h_stream db ++ (tr_ID <$> ts);
  ap_next : ∃ p, h_pointers db !! sid = Some p ∧ ∀ t, head ts = Some t → tr_Sequence t = (p.2 + 1)%Z;
  ap_pointers : h_pointers db' = match last ts with
                                 | Some t => <[sid := (Some (tr_ID t), tr_Sequence t)]> (h_pointers db)
                                 | None => h_pointers db
                                 end;
  ap_summary : project_all (h_summaries db !! sid) ts = Ok (h_summaries db' !! sid);
  ap_others : ∀ s, s ≠ sid → h_summaries db' !! s = h_summaries db !! s;
  ap_journal : ∀ i, match filter (λ t, tr_OperatorArtifactInputID t = Some i) ts with
         | [] => h_artifacts db' !! i = h_artifacts db !! i
         | [t] => h_artifacts db !! i = Some JournalPending ∧ h_artifacts db' !! i = Some (JournalJournaled (tr_ID t))
         | _ => False
         end
}.

Lemma applyHistoryCommitTx_applied db sid h db' :
  NoDup (tr_ID <$> h_transitions db) → applyHistoryCommitTx marshal db sid (Some h) = Ok db' →
  applied db sid (hc_Transitions h) db'.
Proof.
  intros Hnd H. unfold applyHistoryCommitTx in H. ok_inv H. destruct a. apply validateHistoryCommit_ok in B.
  destruct (h_pointers db !! sid) as [[pid seq]|] eqn:Ep; [|done]. ok_inv H.
  destruct (run_transitions _ _ _ B0 Hnd) as (-> & Hids & _).
  assert (∃ m, a0 = with_summaries (with_transitions db (h_transitions db ++ hc_Transitions h)) m
          ∧ project_all (h_summaries db !! sid) (hc_Transitions h) = Ok (m !! sid)
          ∧ ∀ s, s ≠ sid → m !! s = h_summaries db !! s) as (m & -> & Hm & Ho).
  { unfold foldEpisodeSummaryTx in B1. destruct (hc_Transitions h) as [|t ts] eqn:Et.
    - injection B1 as <-. exists (h_summaries db). by destruct db.
    - ok_inv B1. destruct a as [d e]. ok_inv B1. injection B1 as <-.
      destruct (fold_summaries_ok sid _ _ _ _ _ (Forall_impl _ _ _ B (λ _ H, proj2 H)) eq_refl B5) as (Hp & Hd & He & Ho).
      exists (h_summaries d). cbn in *. rewrite He. split; [rewrite Hd; by destruct d|done]. }
  rewrite (run_stream _ _ _ B2) in B3. destruct (run_artifacts _ _ _ B3) as [Hdb Hj]. rewrite Hdb in B4.
  unfold insert_intents in B4. destruct (insertNotificationIntentsTx _ _ _) as [q|]; [|done]. injection B4 as <-.
  assert (∃ ptr, db' = with_pointers (with_queue (with_artifacts (with_stream (with_summaries
             (with_transitions db (h_transitions db ++ hc_Transitions h)) m) (h_stream db ++ (tr_ID <$> hc_Transitions h)))
             (h_artifacts a2)) q) ptr
          ∧ ptr = match last (hc_Transitions h) with
                  | Some t => <[sid := (Some (tr_ID t), tr_Sequence t)]> (h_pointers db)
                  | None => h_pointers db
                  end) as (ptr & -> & Hptr).
  { unfold advance_pointer in H. destruct (last (hc_Transitions h)) as [t|].
    - ok_inv H. injection H as <-. by eexists.
    - injection H as <-. exists (h_pointers db). by destruct db. }
  split; try done.
  exists (pid, seq). split; [done|]. intros t Ht. destruct (hc_Transitions h); [done|]. cbn in Ht. injection Ht as ->.
  by apply Z.eqb_eq.
Qed.

(** The intents of a commit are inserted into the queue as it was. *)
Lemma applyHistoryCommitTx_queue db sid h db' :
  NoDup (tr_ID <$> h_transitions db) → applyHistoryCommitTx marshal db sid (Some h) = Ok db' →
  insertNotificationIntentsTx (h_queue db) sid (hc_Intents h) = Ok (h_queue db').
Proof.
  intros Hnd H. unfold applyHistoryCommitTx in H. ok_inv H. destruct a. apply validateHistoryCommit_ok in B.
  destruct (h_pointers db !! sid) as [[pid seq]|]; [|done]. ok_inv H. destruct (run_transitions _ _ _ B0 Hnd) as (-> & _).
  assert (h_queue a0 = h_queue db) as Ha0.
  { unfold foldEpisodeSummaryTx in B1. destruct (hc_Transitions h) as [|t ts] eqn:Et; [by injection B1 as <-|].
    ok_inv B1. destruct a as [d e]. ok_inv B1. injection B1 as <-.
    destruct (fold_summaries_ok sid _ _ _ _ _ (Forall_impl _ _ _ B (λ _ H, proj2 H)) eq_refl B5) as (_ & -> & _). done. }
  rewrite (run_stream _ _ _ B2) in B3. destruct (run_artifacts _ _ _ B3) as [Ha2 _]. rewrite Ha2 in B4.
  unfold insert_intents in B4. cbn [h_queue with_artifacts with_stream] in B4. rewrite Ha0 in B4.
  destruct (insertNotificationIntentsTx _ _ _) as [q|]; [|done]. injection B4 as <-.
  unfold advance_pointer in H. destruct (last (hc_Transitions h)); [ok_inv H|]; by injection H as <-.
Qed.

Lemma project_all_some p ts e : project_all (Some p) ts = Ok e → is_Some e.
Proof.
  revert p. induction ts as [|t ts IH]; intros p; cbn; [intros [= <-]; by eexists|]. intros H. ok_inv H. by eapply IH.
Qed.

(** Counting from one, the sequence of the last is the length. *)
Lemma represents_count ts e t :
  represents ts e → head ts = Some t → tr_Sequence t = 1%Z → es_SourceTransitionSequence e = Z.of_nat (length ts).
Proof.
  intros Hr Hh H1. destruct ts as [|u ts]; [done|]. cbn in Hh. injection Hh as ->.
  pose proof (rp_contiguous _ _ Hr 0 t eq_refl) as Hc. cbn in *. lia.
Qed.

Lemma episode_extend before prior ts e :
  Forall transition_ok before → episode_of before prior → project_all prior ts = Ok e →
  (∀ t, head ts = Some t → tr_Sequence t = Z.of_nat (length before) + 1)%Z →
  episode_of (before ++ ts) e.
Proof.
  intros Hok Hb Hp Hh. destruct prior as [p|].
  - destruct Hb as [Hb Hl]. destruct (project_all_some _ _ _ Hp) as [e' ->].
    pose proof (project_all_represents ts before p e' Hok Hb Hp) as Hr. split; [done|].
    destruct before as [|t0 before]; [by destruct (rp_last _ _ Hb) as (? & ? & _)|].
    apply (represents_count _ _ t0 Hr eq_refl). pose proof (rp_contiguous _ _ Hb 0 t0 eq_refl) as Hc. cbn in *. lia.
  - cbn in Hb. subst before. destruct ts as [|t ts]; cbn in Hp; [by injection Hp as <-|]. ok_inv Hp.
    destruct (ProjectEpisode_inv _ _ _ B) as (Ht & _ & _). destruct (project_all_some _ _ _ Hp) as [e' ->].
    assert (represents ([t] ++ ts) e') as Hr.
    { apply (project_all_represents ts [t] a e'); [by constructor|by apply represents_first|done]. }
    split; [done|]. apply (represents_count _ _ t Hr eq_refl). by apply Hh.
Qed.

Section commit.
Context (db db' : history_db) (sid : string) (ts : list Transition).
Context (Hinv : history_inv db) (Hap : applied db sid ts db').

Lemma applied_own : Forall (λ t, tr_SituationID t = sid) ts.
Proof. eapply Forall_impl; [apply (ap_own _ _ _ _ Hap)|]. by intros t []. Qed.

Lemma history_of_applied s : history_of db' s = if decide (s = sid) then history_of db sid ++ ts else history_of db s.
Proof.
  unfold history_of. rewrite (ap_transitions _ _ _ _ Hap), filter_app. pose proof applied_own as Ho. rewrite Forall_forall in Ho.
  case_decide as Hs.
  - subst s. f_equal. by apply filter_all.
  - rewrite (filter_none _ ts), app_nil_r; [done|]. intros t Ht Hx. apply Hs. rewrite <- Hx. by apply Ho.
Qed.

Lemma applied_next t : head ts = Some t → tr_Sequence t = (Z.of_nat (length (history_of db sid)) + 1)%Z.
Proof.
  intros Ht. destruct (ap_next _ _ _ _ Hap) as (p & Hp & Hn). rewrite (Hn t Ht).
  by rewrite (hi_pointer _ Hinv sid p Hp).
Qed.

Lemma applied_episode s : episode_of (history_of db' s) (h_summaries db' !! s).
Proof.
  rewrite history_of_applied. case_decide as Hs.
  - subst s. eapply episode_extend; [|apply (hi_episode _ Hinv)|apply (ap_summary _ _ _ _ Hap)|apply applied_next].
    apply Forall_forall. intros t [_ Ht]%list_elem_of_filter. pose proof (hi_ok _ Hinv) as Ho. rewrite Forall_forall in Ho. by apply Ho.
  - rewrite (ap_others _ _ _ _ Hap) by done. apply (hi_episode _ Hinv).
Qed.

Lemma applied_pointer s p :
  h_pointers db' !! s = Some p → p = ((tr_ID <$> last (history_of db' s)), Z.of_nat (length (history_of db' s))).
Proof.
  rewrite (ap_pointers _ _ _ _ Hap). pose proof (applied_episode s) as He. rewrite history_of_applied in *.
  destruct (last ts) as [t|] eqn:El.
  - destruct (decide (s = sid)) as [->|Hn].
    + rewrite lookup_insert_eq. intros [= <-]. rewrite last_app, El. f_equal.
      destruct (h_summaries db' !! sid) as [e|].
      * destruct He as [Hr Hl]. destruct (rp_last _ _ Hr) as (u & Hu & Hs & _). rewrite last_app, El in Hu. injection Hu as <-.
        by rewrite <- Hl, Hs.
      * cbn in He. apply app_nil in He as [_ ->]. done.
    + rewrite lookup_insert_ne by done. apply (hi_pointer _ Hinv).
  - apply last_None in El as ->. intros Hp. case_decide as Hs; [subst s; rewrite app_nil_r|]; by apply (hi_pointer _ Hinv).
Qed.

Lemma applied_journal i : journaled_once (h_artifacts db' !! i) (journal_of db' i).
Proof.
  unfold journal_of. rewrite (ap_transitions _ _ _ _ Hap), filter_app. fold (journal_of db i).
  pose proof (ap_journal _ _ _ _ Hap i) as Hj. pose proof (hi_journal _ Hinv i) as Hi.
  destruct (filter _ ts) as [|t [|? ?]]; [|destruct Hj as [Hp Hj]|done].
  - by rewrite app_nil_r, Hj.
  - rewrite Hp in Hi. cbn in Hi. by rewrite Hi, Hj.
Qed.

Lemma applied_inv : history_inv db'.
Proof.
  split.
  - rewrite (ap_transitions _ _ _ _ Hap). apply Forall_app. split; [apply (hi_ok _ Hinv)|].
    eapply Forall_impl; [apply (ap_own _ _ _ _ Hap)|]. by intros t [].
  - rewrite (ap_transitions _ _ _ _ Hap). apply (ap_ids _ _ _ _ Hap).
  - by rewrite (ap_stream _ _ _ _ Hap), (ap_transitions _ _ _ _ Hap), fmap_app, (hi_stream _ Hinv).
  - apply applied_episode.
  - apply applied_pointer.
  - intros t. rewrite (ap_transitions _ _ _ _ Hap), (ap_pointers _ _ _ _ Hap). intros [Ht|Ht]%elem_of_app.
    + destruct (last ts); [|by apply (hi_known _ Hinv)].
      destruct (decide (tr_SituationID t = sid)) as [->|Hn]; [rewrite lookup_insert_eq; by eexists|].
      rewrite lookup_insert_ne by done. by apply (hi_known _ Hinv).
    + pose proof applied_own as Ho. rewrite Forall_forall in Ho. rewrite (Ho t Ht).
      destruct (last ts) eqn:El; [rewrite lookup_insert_eq; by eexists|]. apply last_None in El as ->. by apply not_elem_of_nil in Ht.
  - apply applied_journal.
Qed.
End commit.

(** C19. The tables of history keep their invariant at every step, whatever a
    commit carries: valid Transitions under distinct names, streamed each once in
    order, numbered from one within a Situation; a summary that stands for the
    Situation's whole history (the fold of it, [represents]); a pointer at the
    last Transition; and every operator artifact journaled by exactly one
    Transition when its row says so and by none otherwise. *)
Theorem history_inv_step db db' : history_inv db → history_step marshal db db' → history_inv db'.
Proof.
  intros Hinv Hs. destruct Hs as [sid Hn|i st Hn Hs|i Hp|sid a _|q|sid h db' H].
  - assert (history_of db sid = []) as He.
    { apply filter_none. intros t Ht Hx. destruct (hi_known _ Hinv t Ht) as [p Hp]. congruence. }
    destruct Hinv as [H1 H2 H3 H4 H5 H6 H7]. split; try done; cbn.
    + intros s p. destruct (decide (s = sid)) as [->|Hne].
      * rewrite lookup_insert_eq. intros [= <-]. unfold history_of in He. by rewrite He.
      * rewrite lookup_insert_ne by done. apply H5.
    + intros t Ht. destruct (decide (tr_SituationID t = sid)) as [->|Hne]; [rewrite lookup_insert_eq; by eexists|].
      rewrite lookup_insert_ne by done. by apply H6.
  - destruct Hinv as [H1 H2 H3 H4 H5 H6 H7]. split; try done; cbn. intros j. specialize (H7 j). unfold journal_of in *.
    destruct (decide (j = i)) as [->|Hne].
    + rewrite lookup_insert_eq. rewrite Hn in H7. destruct st; try done. by destruct (Hs transitionID).
    + by rewrite lookup_insert_ne.
  - destruct Hinv as [H1 H2 H3 H4 H5 H6 H7]. split; try done; cbn. intros j. specialize (H7 j). unfold journal_of in *.
    destruct (decide (j = i)) as [->|Hne].
    + rewrite lookup_insert_eq. by rewrite Hp in H7.
    + by rewrite lookup_insert_ne.
  - destruct Hinv as [H1 H2 H3 H4 H5 H6 H7]. by split.
  - destruct Hinv as [H1 H2 H3 H4 H5 H6 H7]. by split.
  - destruct h as [h|]; [|by injection H as <-]. eapply applied_inv; [done|].
    eapply applyHistoryCommitTx_applied; [apply (hi_ids _ Hinv)|done].
Qed.
End inv.
