(* ===== verification/CommitFacts.v ===== *)
(** * A commit lands (theorems about HistoryCommit.v and HistoryStore.v)

    What [BuildHistoryCommit] derives from the rows of a Situation is what
    [applyHistoryCommitTx] takes: no validation, foreign key, compare-and-swap
    or fold of the transaction turns it down; only the notification queue can
    (and does, [PlanFacts.refresh_planned_twice]).  With examples of the plans. *)

From Stdlib Require Import Ascii.
From stdpp Require Import prelude strings list gmap pretty.
From S2P Require Import Prelude SituationModel ExpectedBehavior Snapshot Judgment BriefingModel TriageGate NotificationModel HistoryModel Material Priority History Episode HistoryFacts NotificationPlan HistoryCommit NotificationStore PlanFacts HistoryStore.

#[local] Arguments TrimSpace _ : simpl never.
#[local] Arguments boundedText _ _ : simpl never.
#[local] Arguments str_eqb _ _ : simpl never.

(** ** The phases succeed *)

Lemma validate_transitions_total sid ts : ∀ base,
  Forall (λ t, transition_ok t ∧ tr_SituationID t = sid) ts →
  (∀ i t, ts !! i = Some t → tr_Sequence t = base + 1 + Z.of_nat i)%Z →
  ∀ previous, (∀ s, previous = Some s → s = base) → validate_transitions sid previous ts = Ok tt.
Proof.
  induction ts as [|t ts IH]; intros base Hok Hn previous Hp; cbn; [done|]. apply Forall_cons in Hok as [[Ht Hs] Hok].
  pose proof (Hn 0 t eq_refl) as H0. rewrite Hs, str_eqb_refl. apply Transition_Validate_ok in Ht. rewrite Ht. cbn.
  assert (match previous with Some s => (tr_Sequence t =? s + 1)%Z | None => true end = true) as ->.
  { destruct previous as [s|]; [|done]. rewrite (Hp s eq_refl). apply Z.eqb_eq. lia. }
  apply (IH (base + 1)%Z); [done| |].
  - intros i u Hi. rewrite (Hn (S i) u Hi). lia.
  - intros s [= <-]. lia.
Qed.

(** What the rows of the Transitions refer to. *)
Record insertable (sid : string) (db : history_db) (t : Transition) : Prop := {
  is_own : tr_SituationID t = sid;
  is_situation : is_Some (h_pointers db !! sid);
  is_artifact : ∀ i, tr_OperatorArtifactInputID t = Some i → is_Some (h_artifacts db !! i);
  is_attempt : ∀ a, tr_AssessmentID t = Some a → (sid, a) ∈ h_attempts db
}.

Lemma insertTransitionTx_total sid db t :
  insertable sid db t → (tr_ID t ∉ (tr_ID <$> h_transitions db)) →
  (∀ u, u ∈ h_transitions db → tr_SituationID u = sid → tr_Sequence u < tr_Sequence t)%Z →
  insertTransitionTx db t = Ok (with_transitions db (h_transitions db ++ [t])).
Proof.
  intros [Hs Hp Ha Ht] Hid Hseq. unfold insertTransitionTx. destruct Hp as [p Hp]. rewrite Hs, Hp.
  assert (existsb (transition_has_id (tr_ID t)) (h_transitions db) = false) as ->.
  { apply not_true_iff_false. intros (u & Hu & He)%existsb_exists. apply list_elem_of_In in Hu. apply String.eqb_eq in He.
    apply Hid, list_elem_of_fmap. by exists u. }
  assert (existsb (transition_at sid (tr_Sequence t)) (h_transitions db) = false) as ->.
  { apply not_true_iff_false. intros (u & Hu & [He Hq]%andb_true_iff)%existsb_exists. apply list_elem_of_In in Hu.
    apply String.eqb_eq in He. apply Z.eqb_eq in Hq. specialize (Hseq u Hu He). lia. }
  destruct (tr_OperatorArtifactInputID t) as [i|]; [destruct (Ha i eq_refl) as [x ->]|]; cbn.
  all: destruct (tr_AssessmentID t) as [a|]; [rewrite bool_decide_true by (by apply Ht)|]; done.
Qed.

Lemma run_transitions_total sid ts : ∀ db base,
  Forall (insertable sid db) ts → NoDup (tr_ID <$> (h_transitions db ++ ts)) →
  (∀ i t, ts !! i = Some t → tr_Sequence t = base + 1 + Z.of_nat i)%Z →
  (∀ u, u ∈ h_transitions db → tr_SituationID u = sid → tr_Sequence u ≤ base)%Z →
  run insertTransitionTx db ts = Ok (with_transitions db (h_transitions db ++ ts)).
Proof.
  induction ts as [|t ts IH]; intros db base Hi Hnd Hn Hb; cbn [run].
  { rewrite app_nil_r. by destruct db. }
  apply Forall_cons in Hi as [Ht Hi]. pose proof (Hn 0 t eq_refl) as H0.
  rewrite (insertTransitionTx_total sid); [|done| |].
  - cbn [res_bind]. rewrite (IH _ (base + 1)%Z); cbn [h_transitions with_transitions].
    + by rewrite <- app_assoc.
    + eapply Forall_impl; [exact Hi|]. intros u []. by split.
    + by rewrite <- app_assoc.
    + intros i u Hiu. rewrite (Hn (S i) u Hiu). lia.
    + intros u [Hu| ->%list_elem_of_singleton]%elem_of_app Hus; [specialize (Hb u Hu Hus)|]; lia.
  - rewrite fmap_app in Hnd. apply NoDup_app in Hnd as (_ & Hnd & _). intros Hin. apply (Hnd _ Hin). by left.
  - intros u Hu Hus. specialize (Hb u Hu Hus). lia.
Qed.

Lemma fold_summaries_total sid ts : ∀ db prior e,
  project_all prior ts = Ok e → h_summaries db !! sid = prior → Forall (λ t, tr_SituationID t = sid) ts →
  (∀ t, t ∈ ts → t ∈ h_transitions db) →
  ∃ db', fold_summaries db prior ts = Ok (db', e) ∧ db' = with_summaries db (h_summaries db').
Proof.
  induction ts as [|t ts IH]; intros db prior e Hp Hs Ho Hin; cbn [project_all fold_summaries] in *.
  { injection Hp as <-. exists db. by destruct db. }
  ok_inv Hp. cbn [as_invalid res_bind]. apply Forall_cons in Ho as [Ht Ho]. destruct (ProjectEpisode_inv _ _ _ B) as (_ & He & Hv).
  assert (es_SituationID a = sid ∧ es_SourceTransitionSequence a = tr_Sequence t) as [Hsa Hqa].
  { split; [|by subst a]. rewrite (ProjectEpisode_situation _ _ _ B). done. }
  assert (writeEpisodeSummaryTx db a = Ok (with_summaries db (<[sid := a]> (h_summaries db)))) as ->.
  { unfold writeEpisodeSummaryTx. rewrite Hsa, Hqa, Hs.
    assert (existsb (transition_at sid (tr_Sequence t)) (h_transitions db) = true) as ->.
    { apply existsb_exists. exists t. split; [apply list_elem_of_In, Hin; by left|]. unfold transition_at.
      by rewrite Ht, str_eqb_refl, Z.eqb_refl. }
    destruct prior as [p|]; [|done]. apply validateFold_ok in Hv as (_ & _ & Hq & _). subst a. cbn.
    rewrite Z.eqb_refl. cbn. rewrite (proj2 (Z.ltb_lt _ _)) by lia. done. }
  cbn [res_bind].
  edestruct (IH (with_summaries db (<[sid := a]> (h_summaries db))) (Some a) e) as (db' & -> & Hdb); [done|apply lookup_insert_eq|done| |].
  - intros u Hu. apply Hin. by right.
  - exists db'. split; [done|]. rewrite Hdb. by destruct db'.
Qed.

Lemma run_stream_total ts : ∀ db,
  NoDup (h_stream db ++ (tr_ID <$> ts)) → run insertTransitionStreamTx db ts = Ok (with_stream db (h_stream db ++ (tr_ID <$> ts))).
Proof.
  induction ts as [|t ts IH]; intros db Hn; cbn; [rewrite app_nil_r; by destruct db|].
  unfold insertTransitionStreamTx at 1.
  assert (existsb (str_eqb (tr_ID t)) (h_stream db) = false) as ->.
  { apply not_true_iff_false. intros (x & Hx & Hxe)%existsb_exists. apply list_elem_of_In in Hx. apply String.eqb_eq in Hxe as <-.
    apply NoDup_app in Hn as (_ & Hn & _). apply (Hn _ Hx). by left. }
  cbn. rewrite IH; cbn; rewrite <- app_assoc; done.
Qed.

Lemma run_artifacts_total ts : ∀ db,
  NoDup (omap tr_OperatorArtifactInputID ts) →
  (∀ i, i ∈ omap tr_OperatorArtifactInputID ts → h_artifacts db !! i = Some JournalPending) →
  ∃ m, run journalOperatorArtifactTx db ts = Ok (with_artifacts db m).
Proof.
  induction ts as [|t ts IH]; intros db Hn Hp; cbn; [exists (h_artifacts db); by destruct db|].
  unfold journalOperatorArtifactTx at 1. cbn in Hn, Hp. destruct (tr_OperatorArtifactInputID t) as [i|].
  - apply NoDup_cons in Hn as [Hi Hn]. rewrite bool_decide_true by (apply Hp; by left). cbn.
    edestruct (IH (with_artifacts db (<[i := JournalJournaled (tr_ID t)]> (h_artifacts db)))) as [m ->]; [done| |by exists m].
    intros j Hj. cbn. rewrite lookup_insert_ne by (intros ->; done). apply Hp. by right.
  - cbn. by apply IH.
Qed.

(** No Transition is ahead of its Situation's pointer. *)
Lemma below_pointer db u sid id n :
  history_inv db → u ∈ h_transitions db → tr_SituationID u = sid → h_pointers db !! sid = Some (id, n) → (tr_Sequence u ≤ n)%Z.
Proof.
  intros Hinv Hu Hs Hp. apply (hi_pointer _ Hinv) in Hp. injection Hp as _ ->. pose proof (hi_episode _ Hinv sid) as He.
  assert (u ∈ history_of db sid) as Hin by (by apply list_elem_of_filter).
  destruct (h_summaries db !! _) as [e|]; cbn in He; [|rewrite He in Hin; by apply not_elem_of_nil in Hin].
  destruct He as [Hr Hl]. apply list_elem_of_lookup in Hin as [k Hk]. apply lookup_lt_Some in Hk as Hlt.
  pose proof (rp_contiguous _ _ Hr k u Hk). lia.
Qed.

(** ** The commit *)

Section lands.
Context `{D1 : !CanonicalDigest contractTuple, D2 : !CanonicalDigest materialTuple,
          D3 : !CanonicalDigest (option ExpectedJudgmentProjection), D4 : !CanonicalDigest (option ExpectedBehaviorProjection),
          D5 : !CanonicalDigest (list string), D6 : !CanonicalDigest (option OperatorBriefing)}
        (identity : transitionIdentityDTO → string) (intentIdentity : string → string) (rfc3339 : Time → string)
        (marshal : EpisodeSummary → string).

(** The change was read from the rows it is written back to, and Transitions
    are named after their Situation and sequence. *)
Record read_from (db : history_db) (c : AuthoritativeChange) : Prop := {
  rf_pointer : ∃ id, h_pointers db !! Situation_ID (ch_Situation c) = Some (id, base_sequence c);
  rf_summary : h_summaries db !! Situation_ID (ch_Situation c) = ch_PriorSummary c;
  rf_pending : ∀ a, a ∈ ch_OperatorArtifacts c → h_artifacts db !! oa_InputID a = Some JournalPending;
  rf_once : NoDup (oa_InputID <$> ch_OperatorArtifacts c);
  rf_attempt : ∀ a, ch_AssessmentID c = Some a → (Situation_ID (ch_Situation c), a) ∈ h_attempts db;
  rf_names : ∀ u, u ∈ h_transitions db → ∃ v r a, tr_ID u = transitionIdentity identity (tr_SituationID u) v (tr_Sequence u) r a
}.

Context (db : history_db) (c : AuthoritativeChange) (ts : list Transition).
Context (Hinv : history_inv db) (Hread : read_from db c) (Hts : BuildTransitions identity c = Ok ts).
Context (identity_rows : ∀ x y, identity x = identity y → ti_SituationID x = ti_SituationID y ∧ ti_Sequence x = ti_Sequence y).

Lemma stored_below u : u ∈ h_transitions db → tr_SituationID u = Situation_ID (ch_Situation c) → (tr_Sequence u ≤ base_sequence c)%Z.
Proof. intros Hu Hs. destruct (rf_pointer _ _ Hread) as [id Hp]. by apply (below_pointer db u _ _ _ Hinv Hu Hs Hp). Qed.

Lemma same_name u d s (Ho : of_change identity c s d) :
  (∃ v r a, tr_ID u = transitionIdentity identity (tr_SituationID u) v (tr_Sequence u) r a) → tr_ID u = tr_ID d →
  tr_SituationID u = Situation_ID (ch_Situation c) ∧ tr_Sequence u = s.
Proof.
  intros (v & r & a & Hu) He. rewrite Hu, (of_id _ _ _ _ Ho) in He. by apply identity_rows in He.
Qed.

Lemma names_fresh : NoDup (tr_ID <$> (h_transitions db ++ ts)).
Proof.
  pose proof (BuildTransitions_numbered identity c ts Hts) as Hn. rewrite fmap_app. apply NoDup_app. split; [apply (hi_ids _ Hinv)|]. split.
  - intros x (u & -> & Hu)%list_elem_of_fmap (t & He & Ht)%list_elem_of_fmap. apply list_elem_of_lookup in Ht as [k Hk].
    destruct (same_name u t _ (Hn k t Hk) (rf_names _ _ Hread u Hu) He) as [Hs Hq]. pose proof (stored_below u Hu Hs). lia.
  - apply NoDup_fmap_2_strong.
    + intros t u Ht Hu He. apply list_elem_of_lookup in Ht as [k Hk], Hu as [l Hl].
      assert (∃ v r a, tr_ID t = transitionIdentity identity (tr_SituationID t) v (tr_Sequence t) r a) as Hname.
      { rewrite (of_situation _ _ _ _ (Hn k t Hk)), (of_sequence _ _ _ _ (Hn k t Hk)). rewrite (of_id _ _ _ _ (Hn k t Hk)). eauto. }
      destruct (same_name t u _ (Hn l u Hl) Hname He) as [_ Hq]. rewrite (of_sequence _ _ _ _ (Hn k t Hk)) in Hq.
      assert (k = l) as -> by lia. congruence.
    + apply NoDup_alt. intros k l t Hk Hl. pose proof (of_sequence _ _ _ _ (Hn k t Hk)). pose proof (of_sequence _ _ _ _ (Hn l t Hl)). lia.
Qed.

Lemma own_rows : Forall (insertable (Situation_ID (ch_Situation c)) db) ts.
Proof.
  pose proof (BuildTransitions_numbered identity c ts Hts) as Hn. pose proof (BuildTransitions_artifacts identity c ts Hts) as Ha.
  apply Forall_forall. intros t Ht. pose proof Ht as [k Hk]%list_elem_of_lookup. pose proof (Hn k t Hk) as Ho. split.
  - apply (of_situation _ _ _ _ Ho).
  - destruct (rf_pointer _ _ Hread) as [id ->]. by eexists.
  - intros i Hi. assert (i ∈ omap tr_OperatorArtifactInputID ts) as Hin by (apply list_elem_of_omap; by exists t).
    rewrite Ha in Hin. apply list_elem_of_fmap in Hin as (a & -> & Hin). rewrite (rf_pending _ _ Hread a Hin). by eexists.
  - intros a Hi. apply (rf_attempt _ _ Hread). by rewrite <- (of_assessment _ _ _ _ Ho).
Qed.

Lemma project_all_summary l : ∀ prior e t, project_all prior l = Ok e → head l = Some t → ∃ s, e = Some s ∧ EpisodeSummary_Validate s = Ok tt.
Proof.
  induction l as [|u l IH]; intros prior e t H Hh; [done|]. cbn [project_all] in H. ok_inv H. destruct l as [|v l].
  - injection H as <-. exists a. split; [done|]. unfold ProjectEpisode in B. ok_inv B. injection B as <-. by destruct a2.
  - by eapply (IH (Some a) e v).
Qed.

Abbreviation sid := (Situation_ID (ch_Situation c)).

(** The commit of a change's Transitions. *)
Definition commit_of (e : option EpisodeSummary) (l : list NotificationIntent) : HistoryCommit :=
  {| hc_Transitions := ts; hc_Summary := match ts with [] => None | _ => e end; hc_Intents := l |}.

Lemma own_sequences i t : ts !! i = Some t → tr_Sequence t = (base_sequence c + 1 + Z.of_nat i)%Z.
Proof. intros Hi. by destruct (BuildTransitions_numbered identity c ts Hts i t Hi). Qed.

Lemma own_situation : Forall (λ t, tr_SituationID t = sid) ts.
Proof. eapply Forall_impl; [apply own_rows|]. by intros t []. Qed.

Lemma commit_valid e l :
  project_all (ch_PriorSummary c) ts = Ok e →
  Forall (λ n, ni_SituationID n = Some sid ∧ NotificationIntent_Validate n = Ok tt) l →
  validateHistoryCommit sid (commit_of e l) = Ok tt.
Proof.
  intros Hp Hl. destruct (BuildTransitions_inv identity c ts Hts) as (_ & Hok & _).
  unfold validateHistoryCommit. cbn [hc_Transitions hc_Summary hc_Intents commit_of].
  rewrite (validate_transitions_total sid ts (base_sequence c));
    [|by apply Forall_and; split; [|apply own_situation]|apply own_sequences|done]. cbn [res_bind].
  assert (match (match ts with [] => None | _ => e end) with Some s => as_invalid (EpisodeSummary_Validate s) | None => Ok tt end = Ok tt
          ∧ Bool.eqb (is_set (match ts with [] => None | _ => e end)) (negb (length ts =? 0)%nat) = true) as [-> ->].
  { destruct ts as [|t ts'] eqn:E; [done|]. destruct (project_all_summary _ _ _ t Hp eq_refl) as (s & -> & Hs). by rewrite Hs. }
  cbn [res_bind]. assert (forallb (λ n, is_ok (NotificationIntent_Validate n) && in_situation sid n) l = true) as ->; [|done].
  apply forallb_forall. intros n Hin%list_elem_of_In. rewrite Forall_forall in Hl. destruct (Hl n Hin) as [Hns Hnv].
  unfold in_situation. rewrite Hnv, Hns. by apply bool_decide_eq_true.
Qed.

Lemma commit_folds db1 e l :
  project_all (ch_PriorSummary c) ts = Ok e → h_summaries db1 = h_summaries db → (∀ t, t ∈ ts → t ∈ h_transitions db1) →
  ∃ m, foldEpisodeSummaryTx marshal db1 sid (commit_of e l) = Ok (with_summaries db1 m).
Proof.
  intros Hp Hsum Hin. pose proof own_situation as Hown. pose proof (rf_summary _ _ Hread) as Hprior. rewrite <- Hsum in Hprior.
  unfold foldEpisodeSummaryTx. cbn [hc_Transitions hc_Summary commit_of].
  destruct (fold_summaries_total sid ts db1 _ e Hp Hprior Hown Hin) as (db2 & Hf & Hdb2). rewrite Hprior.
  pose proof (project_all_summary ts (ch_PriorSummary c) e) as Hset.
  destruct ts as [|t ts']; [exists (h_summaries db1); by destruct db1|].
  rewrite Hf. destruct (Hset t Hp eq_refl) as (s & -> & _). cbn [res_bind]. rewrite str_eqb_refl, Hdb2. by eexists.
Qed.

Lemma derived_lands e l :
  project_all (ch_PriorSummary c) ts = Ok e →
  Forall (λ n, ni_SituationID n = Some sid ∧ NotificationIntent_Validate n = Ok tt) l →
  match insertNotificationIntentsTx (h_queue db) sid l with
  | Ok q => ∃ db', applyHistoryCommitTx marshal db sid (Some (commit_of e l)) = Ok db' ∧ h_queue db' = q
  | Err err => applyHistoryCommitTx marshal db sid (Some (commit_of e l)) = Err (ErrHistoryQueue err)
  end.
Proof.
  intros Hp Hl. destruct (rf_pointer _ _ Hread) as [id Hptr].
  unfold applyHistoryCommitTx. rewrite commit_valid by done. cbn [res_bind]. rewrite Hptr. cbn [hc_Transitions hc_Intents commit_of].
  assert (match ts with t :: _ => (tr_Sequence t =? base_sequence c + 1)%Z | [] => true end = true) as ->.
  { pose proof (own_sequences 0) as H0. destruct ts as [|t ts']; [done|]. apply Z.eqb_eq. rewrite (H0 t eq_refl). lia. }
  rewrite (run_transitions_total sid ts db (base_sequence c)); [|apply own_rows|apply names_fresh|apply own_sequences|apply stored_below].
  cbn [res_bind]. set (db1 := with_transitions db _).
  assert (∀ t, t ∈ ts → t ∈ h_transitions db1) as Hin by (intros t Ht; apply elem_of_app; by right).
  destruct (commit_folds db1 e l Hp eq_refl Hin) as [m ->]. cbn [res_bind].
  rewrite run_stream_total; cycle 1.
  { cbn. rewrite (hi_stream _ Hinv), <- fmap_app. apply names_fresh. }
  cbn [res_bind]. destruct (run_artifacts_total ts (with_stream (with_summaries db1 m) (h_stream (with_summaries db1 m) ++ (tr_ID <$> ts)))) as [arts ->].
  - rewrite (BuildTransitions_artifacts identity c ts Hts). apply (rf_once _ _ Hread).
  - intros i. rewrite (BuildTransitions_artifacts identity c ts Hts). intros (a & -> & Ha)%list_elem_of_fmap. by apply (rf_pending _ _ Hread).
  - cbn [res_bind]. unfold insert_intents. cbn [h_queue with_artifacts with_stream with_summaries db1 with_transitions].
    destruct (insertNotificationIntentsTx _ _ _) as [q|err]; cbn [res_bind]; [|done].
    unfold advance_pointer. destruct (last ts) as [t|] eqn:El; [|by eexists].
    assert (existsb (λ u, transition_has_id (tr_ID t) u && transition_at sid (tr_Sequence t) u) (h_transitions db ++ ts) = true) as Hex.
    { apply existsb_exists. exists t. pose proof El as Ht%last_Some_elem_of. split; [apply list_elem_of_In, elem_of_app; by right|].
      pose proof own_situation as Ho. rewrite Forall_forall in Ho. unfold transition_has_id, transition_at.
      by rewrite (Ho t Ht), !str_eqb_refl, Z.eqb_refl. }
    cbn [h_transitions with_queue with_artifacts with_stream with_summaries with_transitions db1]. rewrite Hex. by eexists.
Qed.
End lands.

Section composition.
Context `{D1 : !CanonicalDigest contractTuple, D2 : !CanonicalDigest materialTuple,
          D3 : !CanonicalDigest (option ExpectedJudgmentProjection), D4 : !CanonicalDigest (option ExpectedBehaviorProjection),
          D5 : !CanonicalDigest (list string), D6 : !CanonicalDigest (option OperatorBriefing)}
        (identity : transitionIdentityDTO → string) (intentIdentity : string → string) (rfc3339 : Time → string)
        (marshal : EpisodeSummary → string).

(** C20. Of what a reconciliation derives from the rows of its Situation, the
    transaction refuses nothing but notifications: whatever the state of the
    queue, the Transitions, the summary it folds again, the streams and the
    artifacts pass, and the commit fails exactly when the queue refuses the
    intents, with the queue's error.  Otherwise it leaves the Situation's history
    extended by exactly these Transitions, its summary the one derived and the
    intents in the queue. *)
Theorem derived_commit_lands db c i h :
  history_inv db → read_from identity db c →
  (∀ x y, identity x = identity y → ti_SituationID x = ti_SituationID y ∧ ti_Sequence x = ti_Sequence y) →
  BuildHistoryCommit identity intentIdentity rfc3339 c i = Ok h →
  match insertNotificationIntentsTx (h_queue db) (Situation_ID (ch_Situation c)) (hc_Intents h) with
  | Ok q =>
      ∃ db', applyHistoryCommitTx marshal db (Situation_ID (ch_Situation c)) (Some h) = Ok db'
             ∧ history_of db' (Situation_ID (ch_Situation c)) = history_of db (Situation_ID (ch_Situation c)) ++ hc_Transitions h
             ∧ h_summaries db' !! Situation_ID (ch_Situation c)
               = match hc_Transitions h with [] => ch_PriorSummary c | _ => hc_Summary h end
             ∧ h_queue db' = q
  | Err e => applyHistoryCommitTx marshal db (Situation_ID (ch_Situation c)) (Some h) = Err (ErrHistoryQueue e)
  end.
Proof.
  intros Hinv Hread Hinj Hb. unfold BuildHistoryCommit in Hb.
  destruct (BuildTransitions identity c) as [ts|] eqn:Hts; [|by ok_inv Hb]. ok_inv Hb. injection Hb as <-.
  cbn [hc_Transitions hc_Summary hc_Intents] in *. injection B as <-. destruct (plan_entries _ _ _ _ B1) as (Hpe & _ & Hpv).
  assert (Forall (λ n, ni_SituationID n = Some (Situation_ID (ch_Situation c)) ∧ NotificationIntent_Validate n = Ok tt) a1) as Hl.
  { apply Forall_and. split; [|done]. eapply Forall_impl; [exact Hpe|]. intros n Hn. rewrite (pe_situation _ _ _ Hn). cbn.
    apply String.eqb_eq in G0. by rewrite G0. }
  pose proof (derived_lands identity marshal db c ts Hinv Hread Hts Hinj a0 a1 B0 Hl) as Hlands.
  destruct (insertNotificationIntentsTx _ _ _) as [q|err]; [destruct Hlands as (db' & Hdb' & Hqueue)|exact Hlands].
  exists db'. split; [exact Hdb'|].
  pose proof (applyHistoryCommitTx_applied marshal _ _ _ _ (hi_ids _ Hinv) Hdb') as Hap.
  pose proof (ap_summary _ _ _ _ Hap) as Hsum. rewrite (rf_summary _ _ _ Hread) in Hsum. cbn [hc_Transitions commit_of] in *.
  split; [|split; [|done]].
  - rewrite (history_of_applied _ _ _ _ Hap). by rewrite decide_True.
  - rewrite B0 in Hsum. injection Hsum as <-. destruct ts; [by injection B0|done].
Qed.
End composition.

(** ** Examples *)

(** Names that keep the Situation and the sequence. *)
Fixpoint bits (p : positive) : string :=
  match p with
  | xH => "#"
  | xO p => String "0"%char (bits p)
  | xI p => String "1"%char (bits p)
  end.

Lemma bits_inj p : ∀ q a b, bits p +:+ a = bits q +:+ b → p = q ∧ a = b.
Proof.
  induction p as [p IH|p IH|]; intros [q|q|] a b; cbn; try done; intros [= H]; try done;
    apply IH in H as [-> ->]; done.
Qed.

Definition ex_names (d : transitionIdentityDTO) : string :=
  match ti_Sequence d with
  | Z0 => "z" +:+ ti_SituationID d
  | Zpos p => "p" +:+ bits p +:+ ti_SituationID d
  | Zneg p => "n" +:+ bits p +:+ ti_SituationID d
  end.

Lemma ex_names_rows x y : ex_names x = ex_names y → ti_SituationID x = ti_SituationID y ∧ ti_Sequence x = ti_Sequence y.
Proof.
  unfold ex_names. destruct (ti_Sequence x) as [|p|p], (ti_Sequence y) as [|q|q]; cbn; try done; intros [= H]; try done;
    apply bits_inj in H as [-> H]; done.
Qed.

Definition ex_stamp (t : Time) : string := pretty t.
Definition ex_marshal (e : EpisodeSummary) : string := pretty (es_Version e).

#[local] Existing Instances ex_contract_digest ex_tuple_digest ex_judgment_digest ex_behavior_digest ex_codes_digest ex_briefing_digest.

(** Nothing is known to have been delivered. *)
Definition ex_undelivered : DeliveredHistory :=
  {| dh_LastDeliveredSequence := 0; dh_AssuranceConveyed := false; dh_LiveAssuranceIntentID := None;
     dh_CommunicatedLimitationCodes := []; dh_CommunicatedAction := None; dh_ProjectedLimitationCodes := [];
     dh_ProjectedAction := None; dh_AssuranceSuperseded := false |}.

Definition ex_publication (c : AuthoritativeChange) (published owed : bool) (floor : option InterruptionPriority)
    (delivered deadline : option Time) (p : option Transition) (e : option EpisodeSummary) : PublicationInput :=
  {| pi_Situation := ch_Situation c; pi_Transitions := []; pi_Summary := e; pi_PriorTransition := p;
     pi_ContractDeadlineAt := deadline; pi_RootPublished := published; pi_LatestRootSyncVersion := None;
     pi_RootPublicationOwed := owed; pi_LastDeliveredRootDeadlineAt := delivered; pi_LastMainChannelPokeAt := None;
     pi_SlackFloor := floor; pi_RepageCooldown := Hour; pi_RecurrenceRepliesOff := false; pi_Drill := false;
     pi_Now := ch_Now c; pi_DeliveredHistory := ex_undelivered |}.

Definition ex_empty_commit : HistoryCommit := {| hc_Transitions := []; hc_Summary := None; hc_Intents := [] |}.
Definition ex_commit (c : AuthoritativeChange) (i : PublicationInput) : HistoryCommit :=
  or_else ex_empty_commit (BuildHistoryCommit ex_names (λ s, s) ex_stamp c i).

Definition ex_db : history_db :=
  {| h_transitions := []; h_summaries := ∅; h_stream := []; h_artifacts := ∅; h_pointers := {["S" := (None, 0%Z)]};
     h_attempts := [("S", "a1")]; h_queue := with_roots demo_empty (<["S" := None]> ∅) |}.
Definition ex_first_publication : PublicationInput :=
  ex_publication ex_first false true None None (Some (3 * Minute)%Z) None None.
Definition ex_first_commit : HistoryCommit := ex_commit ex_first ex_first_publication.
Definition ex_first_queue : notif_db := or_else (h_queue ex_db) (insertNotificationIntentsTx (h_queue ex_db) "S" (hc_Intents ex_first_commit)).
Definition ex_db_1 : history_db := or_else ex_db (applyHistoryCommitTx ex_marshal ex_db "S" (Some ex_first_commit)).

Example ex_first_lands : (length (hc_Transitions ex_first_commit), ni_EffectClass <$> intents (h_queue ex_db_1)) = (1, [EffectRootSync]).
Proof. vm_compute. reflexivity. Qed.

Lemma ex_db_inv : history_inv ex_db.
Proof.
  split; cbn; try done; try constructor.
  - intros sid p. destruct (decide (sid = "S")) as [->|Hn]; [by rewrite lookup_singleton_eq; intros [= <-]|by rewrite lookup_singleton_ne].
  - intros t Ht. by apply not_elem_of_nil in Ht.
Qed.

Lemma ex_db_read : read_from ex_names ex_db ex_first.
Proof.
  split; cbn; try done.
  - by exists None.
  - intros a Ha. by apply not_elem_of_nil in Ha.
  - constructor.
  - intros a [= <-]. by left.
  - intros u Hu. by apply not_elem_of_nil in Hu.
Qed.

Example derived_commit_lands_witness :
  ∃ db', applyHistoryCommitTx ex_marshal ex_db "S" (Some ex_first_commit) = Ok db' ∧ h_queue db' = ex_first_queue.
Proof.
  pose proof (derived_commit_lands ex_names (λ s, s) ex_stamp ex_marshal ex_db ex_first ex_first_publication ex_first_commit) as H.
  specialize (H ex_db_inv ex_db_read ex_names_rows).
  specialize (H ltac:(vm_compute; reflexivity)).
  replace (insertNotificationIntentsTx (h_queue ex_db) (Situation_ID (ch_Situation ex_first)) (hc_Intents ex_first_commit))
    with (@Ok notif_error notif_db ex_first_queue) in H by (vm_compute; reflexivity).
  destruct H as (db' & H & _ & _ & Hq). exists db'. split; [exact H|exact Hq].
Defined.

Example history_inv_step_witness : history_inv ex_db_1.
Proof.
  apply (history_inv_step ex_marshal ex_db); [apply ex_db_inv|].
  apply (HCommit _ _ "S" (Some ex_first_commit)). vm_compute. reflexivity.
Defined.

(** The second commit of the example pokes the channel once. *)
Definition ex_second_publication : PublicationInput :=
  with_history (ex_publication ex_second true false None None (Some (4 * Minute)%Z) (last ex_history_1) None) ex_history_2 ex_summary_2 (last ex_history_1).
Definition ex_second_plan : list NotificationIntent :=
  or_else [] (PlanNotificationIntents (λ s, s) ex_stamp ex_second_publication).

Example ex_second_pokes : (length ex_second_plan, count_pokes ex_second_plan) = (2, 1).
Proof. vm_compute. reflexivity. Qed.

Example plan_interrupts_once_witness : count_pokes ex_second_plan ≤ 1.
Proof.
  apply (io_once ex_second_publication).
  apply (plan_interrupts_once (λ s, s) ex_stamp). vm_compute. reflexivity.
Defined.

(** Two cycles, a minute apart, after a promised update has passed. *)
Definition ex_refresh (minutes : Z) : PublicationInput :=
  ex_publication (ex_change LifecycleActive AttentionUrgent (minutes * Minute)%Z (ex_briefing 2 None) [] (last ex_history_2) ex_summary_2)
    true false None (Some (5 * Minute)%Z) (Some (9 * Minute)%Z) (last ex_history_2) ex_summary_2.
Definition ex_refresh_plan (minutes : Z) : list NotificationIntent :=
  or_else [] (PlanNotificationIntents (λ s, s) ex_stamp (ex_refresh minutes)).
Definition ex_refreshed : notif_db :=
  or_else (h_queue ex_db_1) (insertNotificationIntentsTx (h_queue ex_db_1) "S" (ex_refresh_plan 6)).

Example refresh_planned_twice_witness :
  insertNotificationIntentsTx ex_refreshed "S" (ex_refresh_plan 7) = Err ErrNotifConstraint.
Proof.
  apply (refresh_planned_twice (λ s, s) ex_stamp (h_queue ex_db_1) (ex_refresh 6) (ex_refresh 7) (ex_refresh_plan 6));
    [split; vm_compute; auto|..]; try (vm_compute; reflexivity); vm_compute; discriminate.
Defined.
