(* ===== verification/HistoryQueue.v ===== *)
(** * The history and its queue (the fenced transaction of situation_controller.go)

    A reconciliation derives its history from the rows of its Situation and
    commits it with the intents it planned; the workers move the intents on in
    between.  Run together, the queue goes through a history it is specified
    for: what a plan must be ([NotificationStore.planned]) is not assumed but
    follows from what the store was read for. *)

From stdpp Require Import prelude strings list gmap pretty.
From S2P Require Import Prelude SituationModel ExpectedBehavior Snapshot Judgment BriefingModel TriageGate NotificationModel HistoryModel Material Priority History Episode HistoryFacts NotificationPlan HistoryCommit NotificationStore PlanFacts HistoryStore CommitFacts.

#[local] Arguments TrimSpace _ : simpl never.
#[local] Arguments boundedText _ _ : simpl never.
#[local] Arguments str_eqb _ _ : simpl never.

Section system.
Context `{D1 : !CanonicalDigest contractTuple, D2 : !CanonicalDigest materialTuple,
          D3 : !CanonicalDigest (option ExpectedJudgmentProjection), D4 : !CanonicalDigest (option ExpectedBehaviorProjection),
          D5 : !CanonicalDigest (list string), D6 : !CanonicalDigest (option OperatorBriefing)}
        (identity : transitionIdentityDTO → string) (intentIdentity : string → string) (rfc3339 : Time → string)
        (marshal : EpisodeSummary → string) (NewGapGenerationID : Time → string).

(** What the cycle read is in the rows, though they may have grown since: the
    prior Transition is a stored one, and the publication is planned with it
    (LoadControllerInput, publicationInput). *)
Record read_rows (db : history_db) (c : AuthoritativeChange) (i : PublicationInput) : Prop := {
  rr_prior : ∀ p, ch_PriorTransition c = Some p → p ∈ h_transitions db;
  rr_publication : ∀ p, pi_PriorTransition i = Some p → ch_PriorTransition c = Some p
}.

(** One transaction, with the events it has for the queue.  [SysCommit] is the
    part of CommitController that writes the history: it derives the commit,
    applies it and supersedes the replies the commit has overtaken. *)
Inductive system_step (db : history_db) : list notif_event → history_db → Prop :=
| SysSituation sid : h_pointers db !! sid = None → roots (h_queue db) !! sid = None →
    system_step db [EvOther]
      (with_queue (with_pointers db (<[sid := (None, 0%Z)]> (h_pointers db)))
         (with_roots (h_queue db) (<[sid := None]> (roots (h_queue db)))))
| SysArtifact i s : h_artifacts db !! i = None → (∀ t, s ≠ JournalJournaled t) →
    system_step db [] (with_artifacts db (<[i := s]> (h_artifacts db)))
| SysOwnerTerminal i : h_artifacts db !! i = Some JournalPending →
    system_step db [] (with_artifacts db (<[i := JournalOwnerTerminal]> (h_artifacts db)))
| SysAttempt sid a : is_Some (h_pointers db !! sid) →
    system_step db [] (with_attempts db ((sid, a) :: h_attempts db))
| SysCommit c i h db' replacement reason obsolete :
    read_rows db c i → BuildHistoryCommit identity intentIdentity rfc3339 c i = Ok h →
    applyHistoryCommitTx marshal db (Situation_ID (ch_Situation c)) (Some h) = Ok db' →
    system_step db [EvOther]
      (with_queue db'
         (supersedeNotificationIntentIDsTx (h_queue db') (Situation_ID (ch_Situation c)) replacement reason obsolete))
| SysWorker ev q : worker_step NewGapGenerationID intentIdentity (h_queue db) ev q →
    system_step db [ev] (with_queue db q).

Definition empty_history (db : history_db) : Prop :=
  h_transitions db = [] ∧ h_summaries db = ∅ ∧ h_stream db = [] ∧ h_artifacts db = ∅ ∧ h_pointers db = ∅ ∧
  h_attempts db = [] ∧ initial (h_queue db).

Inductive system_trace : list notif_event → history_db → Prop :=
| SystemStart db : empty_history db → system_trace [] db
| SystemStep evs db es db' : system_trace evs db → system_step db es db' → system_trace (evs ++ es) db'.

(** ** What the rows refer to *)

(** An intent of a Situation names a stored Transition of it, by id and by
    sequence (the foreign key transition_id and the trigger
    notification_intents_transition_guard). *)
Definition tells_of (db : history_db) (n : NotificationIntent) : Prop :=
  ∀ sid, ni_SituationID n = Some sid →
  ∃ t, t ∈ h_transitions db ∧ tr_SituationID t = sid ∧ ni_TransitionID n = Some (tr_ID t)
       ∧ ni_TransitionSequence n = Some (tr_Sequence t).

Record system_inv (db : history_db) : Prop := {
  si_history : history_inv db;
  si_intents : Forall (tells_of db) (intents (h_queue db))
}.

(** Rows a transaction of the queue has without having had them before belong to
    no Situation. *)
Definition adds_no_intent (q q' : notif_db) : Prop :=
  ∀ n', n' ∈ intents q' → (∃ n, n ∈ intents q ∧ NotificationStore.identity n' = NotificationStore.identity n) ∨ ni_SituationID n' = None.

Lemma keeps_adds_no_intent q q' : Forall2 keeps (intents q) (intents q') → adds_no_intent q q'.
Proof. intros Hk n' Hn. left. destruct (rows_back _ _ _ Hk Hn) as (n & Hn0 & In & _). by exists n. Qed.

Lemma calm_adds_no_intent q q' : calm_db q q' → adds_no_intent q q'.
Proof. intros Hc. by apply keeps_adds_no_intent, calm_keeps. Qed.

Lemma same_adds_no_intent q q' : intents q' = intents q → adds_no_intent q q'.
Proof. intros E n' Hn. left. exists n'. by rewrite <- E. Qed.

Lemma ack_adds_no_intent q c f q' :
  (∀ n, fenced c n = true → calm n (f n)) → fencedNotificationAck q c f = Ok q' → adds_no_intent q q'.
Proof. intros Hf Ha. apply calm_adds_no_intent. by eapply fencedAck_calm. Qed.

Lemma recover_adds_no_intent q now g q' : RecoverDeliveryGap intentIdentity q now = Ok (g, q') → adds_no_intent q q'.
Proof.
  unfold RecoverDeliveryGap. destruct (best _ _) as [h|]; [|intros [= _ <-]; by apply same_adds_no_intent].
  destruct (GapRecoveryIntent intentIdentity (gap_id h) now) as [notice|] eqn:En; [|done].
  destruct (if existsb _ _ then _ else _) as [q1|] eqn:E; [|done]. cbn [res_bind]. intros [= _ <-].
  destruct (existsb _ _); [injection E as <-; by apply same_adds_no_intent|]. apply insert_inv in E as (_ & _ & ->).
  intros n' [Hn| ->%list_elem_of_singleton]%elem_of_app; [left; by exists n'|right].
  revert En. unfold GapRecoveryIntent. destruct (NotificationIntent_Validate _); [|done]. by intros [= <-].
Qed.

(** A worker never inserts an intent of a Situation. *)
Lemma worker_adds_no_intent q ev q' : worker_step NewGapGenerationID intentIdentity q ev q' → adds_no_intent q q'.
Proof.
  intros [owner now lease limit cs q1 Hc|c d now q1 Hd|c d now q1 e Hd|c class t q1 Ha%retry_inv|c class q1 Ha%block_inv
         |c class q1 Ha%fail_inv|c q1 Ha|c now lease q1 Ha%heartbeat_inv|now|id now q1 Hr|g now n q1 Hr|class now q1 Hf|now
         |now threshold first q1 Ho _|now g q1 Hr|now].
  - apply claimed_inv in Hc as [(_ & -> & _)|(ids & _ & _ & -> & _)]; [by apply same_adds_no_intent|].
    apply keeps_adds_no_intent, claim_keeps.
  - apply delivered_inv in Hd as (_ & _ & Hrows & _). apply calm_adds_no_intent. unfold calm_db. rewrite Hrows.
    apply update_calm. intros. apply delivered_calm.
  - apply delivery_lost_inv in Hd as (E & _). by apply same_adds_no_intent.
  - eapply ack_adds_no_intent; [|exact Ha]. intros. apply retried_calm.
  - eapply ack_adds_no_intent; [|exact Ha]. intros. by eapply stopped_calm, fenced_live.
  - eapply ack_adds_no_intent; [|exact Ha]. intros. by eapply stopped_calm, fenced_live.
  - eapply ack_adds_no_intent; [|exact Ha]. intros. apply released_calm.
  - eapply ack_adds_no_intent; [|exact Ha]. intros. apply extended_calm.
  - apply calm_adds_no_intent, recoverExpired_calm.
  - by eapply calm_adds_no_intent, redrive_calm.
  - by eapply calm_adds_no_intent, reactivate_calm.
  - unfold ObserveSlackFailure in Hf. destruct (validateNotificationErrorClass class); [|done]. injection Hf as <-.
    by apply same_adds_no_intent.
  - by apply same_adds_no_intent.
  - apply open_spec in Ho as (first' & _ & _ & _ & _ & E & _). by apply same_adds_no_intent.
  - by eapply recover_adds_no_intent.
  - apply same_adds_no_intent. unfold CompleteDeliveryGap. destruct (best _ _); [|done]. by destruct (existsb _ _).
Qed.

Lemma tells_of_kept db n n' :
  NotificationStore.identity n' = NotificationStore.identity n → tells_of db n → tells_of db n'.
Proof. unfold NotificationStore.identity, tells_of. intros H. simplify_eq. intros Ht. by repeat match goal with E : _ n' = _ n |- _ => rewrite E; clear E end. Qed.

Lemma queue_tells db q' : adds_no_intent (h_queue db) q' → Forall (tells_of db) (intents (h_queue db)) → Forall (tells_of db) (intents q').
Proof.
  intros Ha Hall. rewrite Forall_forall in Hall |- *. intros n' Hn. destruct (Ha n' Hn) as [(n & Hn0 & He)|He].
  - eapply tells_of_kept; [exact He|by apply Hall].
  - intros sid Hs. congruence.
Qed.

(** ** The commit *)

(** A Transition of a commit is ahead of every one stored. *)
Lemma commit_ahead db c h db' o t :
  history_inv db → BuildTransitions identity c = Ok (hc_Transitions h) →
  applyHistoryCommitTx marshal db (Situation_ID (ch_Situation c)) (Some h) = Ok db' →
  o ∈ h_transitions db → tr_SituationID o = Situation_ID (ch_Situation c) → t ∈ hc_Transitions h →
  (tr_Sequence o < tr_Sequence t)%Z.
Proof.
  intros Hinv Hb Happ Ho Hs Ht. pose proof (applyHistoryCommitTx_applied marshal _ _ _ _ (hi_ids _ Hinv) Happ) as Hap.
  destruct (ap_next _ _ _ _ Hap) as ([id n] & Hp & Hnext). pose proof (below_pointer db o _ _ _ Hinv Ho Hs Hp) as Hle.
  pose proof (BuildTransitions_numbered identity c _ Hb) as Hnum. apply list_elem_of_lookup in Ht as [k Hk].
  pose proof (of_sequence _ _ _ _ (Hnum k t Hk)) as Hq. destruct (hc_Transitions h) as [|t0 l]; [done|].
  specialize (Hnext t0 eq_refl). pose proof (of_sequence _ _ _ _ (Hnum 0 t0 eq_refl)) as Hq0. cbn in *. lia.
Qed.

Context (Hapart : notices_named_apart intentIdentity).

Section commit.
Context (db : history_db) (c : AuthoritativeChange) (i : PublicationInput) (h : HistoryCommit) (db' : history_db).
Context (Hinv : system_inv db) (Hread : read_rows db c i)
        (Hbuild : BuildHistoryCommit identity intentIdentity rfc3339 c i = Ok h)
        (Happ : applyHistoryCommitTx marshal db (Situation_ID (ch_Situation c)) (Some h) = Ok db').

Abbreviation sid := (Situation_ID (ch_Situation c)).

Lemma derived_plan : ∃ j,
  PlanNotificationIntents intentIdentity rfc3339 j = Ok (hc_Intents h) ∧ Situation_ID (pi_Situation j) = sid
  ∧ pi_Transitions j = hc_Transitions h ∧ (∀ p, pi_PriorTransition j = Some p → p ∈ h_transitions db ∧ tr_SituationID p = sid)
  ∧ BuildTransitions identity c = Ok (hc_Transitions h).
Proof.
  unfold BuildHistoryCommit in Hbuild. ok_inv Hbuild. injection Hbuild as <-. eexists. split; [exact B1|]. cbn.
  apply String.eqb_eq in G0. split; [done|]. split; [done|]. split; [|done]. intros p Hp.
  assert (ch_PriorTransition c = Some p) as Hc.
  { destruct (pi_PriorTransition i) as [p'|] eqn:E; [|done]. injection Hp as <-. by apply (rr_publication _ _ _ Hread). }
  split; [by apply (rr_prior _ _ _ Hread)|]. apply BuildTransitions_inv in B as (Hv & _). unfold validateChange in Hv.
  rewrite Hc in Hv. ok_inv Hv. by go_bool.
Qed.

Lemma derived_planned : planned intentIdentity (h_queue db) sid (hc_Intents h).
Proof.
  destruct derived_plan as (j & Hplan & Hsj & Htj & _ & Hb). rewrite <- Hsj. apply (plan_planned intentIdentity rfc3339); [done| |done].
  intros o t Ho Ht Hr Hs. rewrite Hsj in Hs. rewrite Htj in Ht. pose proof (si_intents _ Hinv) as Hall. rewrite Forall_forall in Hall.
  destruct (Hall o Ho sid Hs) as (u & Hu & Hus & _ & Hseq). unfold sequence_key. rewrite Hseq.
  by apply (commit_ahead db c h db'); [apply (si_history _ Hinv)|..].
Qed.

Lemma derived_tells : Forall (tells_of db') (intents (h_queue db')).
Proof.
  pose proof (applyHistoryCommitTx_applied marshal _ _ _ _ (hi_ids _ (si_history _ Hinv)) Happ) as Hap.
  pose proof (applyHistoryCommitTx_queue marshal _ _ _ _ (hi_ids _ (si_history _ Hinv)) Happ) as Hq.
  pose proof (ap_transitions _ _ _ _ Hap) as Htr. pose proof (ap_own _ _ _ _ Hap) as Hown. rewrite Forall_forall in Hown.
  destruct derived_plan as (j & Hplan & Hsj & Htj & Hprior & _). destruct (plan_entries _ _ _ _ Hplan) as (Hall & _).
  unfold insertNotificationIntentsTx in Hq. fold (committing (h_queue db) sid (hc_Intents h)) in Hq.
  apply insert_all_inv in Hq as (-> & _). apply Forall_app. split.
  - assert (Forall (tells_of db) (intents (committing (h_queue db) sid (hc_Intents h)))) as Hold.
    { apply (queue_tells db); [apply calm_adds_no_intent, committing_calm|apply (si_intents _ Hinv)]. }
    eapply Forall_impl; [exact Hold|]. intros n Hn s Hs. destruct (Hn s Hs) as (t & Ht & Hrest). exists t. split; [|done].
    rewrite Htr. apply elem_of_app. by left.
  - eapply Forall_impl; [exact Hall|]. intros n Hn s Hs. rewrite (pe_situation _ _ _ Hn), Hsj in Hs. injection Hs as <-.
    destruct (pe_subject _ _ _ Hn) as (t & Ht & Hid & Hseq). exists t. rewrite Htr, elem_of_app.
    destruct Ht as [Ht|Ht]; [rewrite Htj in Ht; destruct (Hown t Ht)|destruct (Hprior t Ht)]; auto.
Qed.
End commit.

Lemma system_step_inv db es db' : system_step db es db' → system_inv db → system_inv db'.
Proof.
  intros Hs Hinv. pose proof Hinv as [Hh Hi].
  destruct Hs as [sid Hp Hr|a s Ha Hj|a Ha|sid a Ha|c i h db1 replacement reason obsolete Hread Hb Happ|ev q Hw].
  - split; [|done]. apply (history_inv_step marshal (with_pointers db (<[sid := (None, 0%Z)]> (h_pointers db)))).
    + eapply (history_inv_step marshal); [exact Hh|by apply HSituation].
    + apply HQueue.
  - split; [|done]. eapply (history_inv_step marshal); [exact Hh|by apply HArtifact].
  - split; [|done]. eapply (history_inv_step marshal); [exact Hh|by apply HOwnerTerminal].
  - split; [|done]. eapply (history_inv_step marshal); [exact Hh|by apply HAttempt].
  - split.
    + apply (history_inv_step marshal db1); [|apply HQueue]. eapply (history_inv_step marshal); [exact Hh|by eapply HCommit].
    + apply (queue_tells db1); [apply calm_adds_no_intent, supersedeIDs_calm|]. by eapply derived_tells.
  - split; [eapply (history_inv_step marshal); [exact Hh|apply HQueue]|].
    apply (queue_tells db); [by eapply worker_adds_no_intent|exact Hi].
Qed.

Lemma system_trace_inv evs db : system_trace evs db → system_inv db.
Proof.
  induction 1 as [db (Ht & Hs & Hst & Ha & Hp & _ & Hq & _)|evs db es db' _ IH Hs]; [|by eapply system_step_inv].
  split; [|rewrite Hq; constructor]. split; unfold history_of, journal_of; rewrite ?Ht, ?Hs, ?Hst, ?Ha, ?Hp; try done; try constructor.
  - intros t Hx. by apply not_elem_of_nil in Hx.
Qed.

(** C24. The queue of a running system is the queue it is specified to be:
    whatever reconciliations derive, commit and plan from the rows they read,
    and whatever the workers, the observer of Slack and operators do in between,
    the queue goes through a history of [NotificationStore.trace] (every plan
    brings unattempted intents of one Situation, at most one root, and replies
    later than every one already queued), and every intent of a Situation names,
    by id and by sequence, a stored Transition of that Situation.  Assumed are
    that the prior Transition a cycle plans with is a stored one and that no
    other intent is given the name of a gap notice. *)
Theorem plans_refine_queue evs db :
  system_trace evs db → trace NewGapGenerationID intentIdentity evs (h_queue db) ∧ system_inv db.
Proof.
  intros Ht. split; [|by eapply system_trace_inv].
  induction Ht as [db (_ & _ & _ & _ & _ & _ & Hq)|evs db es db' Ht IH Hs]; [by constructor|].
  pose proof (system_trace_inv _ _ Ht) as Hinv.
  destruct Hs as [sid Hp Hr|a s Ha Hj|a Ha|sid a Ha|c i h db1 replacement reason obsolete Hread Hb Happ|ev q Hw];
    rewrite ?app_nil_r; try exact IH.
  - eapply TraceStep; [exact IH|by apply NSituation].
  - eapply TraceStep; [exact IH|]. eapply NCommit; [by eapply derived_planned|].
    apply (applyHistoryCommitTx_queue marshal); [apply (hi_ids _ (si_history _ Hinv))|exact Happ].
  - eapply TraceStep; [exact IH|by apply NWorker].
Qed.
End system.

(** ** An example *)

#[local] Existing Instances ex_contract_digest ex_tuple_digest ex_judgment_digest ex_behavior_digest ex_codes_digest ex_briefing_digest.

#[local] Abbreviation ex_names_as_they_are := (λ s : string, s).
#[local] Abbreviation ex_system_step := (system_step ex_identity ex_names_as_they_are ex_stamp ex_marshal demo_generation).
#[local] Abbreviation ex_system_trace := (system_trace ex_identity ex_names_as_they_are ex_stamp ex_marshal demo_generation).

Lemma ex_notices_apart : notices_named_apart ex_names_as_they_are.
Proof. intros c m m' Hc. by destruct c. Qed.

Definition sys_empty : history_db :=
  {| h_transitions := []; h_summaries := ∅; h_stream := []; h_artifacts := ∅; h_pointers := ∅; h_attempts := [];
     h_queue := demo_empty |}.

(** A Situation appears, its first state is published, a worker claims the root,
    an operator notes something, and an urgent state is published. *)
Definition sys_commit (c : AuthoritativeChange) (i : PublicationInput) : HistoryCommit :=
  or_else ex_empty_commit (BuildHistoryCommit ex_identity ex_names_as_they_are ex_stamp c i).
Definition sys_apply (db : history_db) (c : AuthoritativeChange) (i : PublicationInput) : history_db :=
  let db := or_else db (applyHistoryCommitTx ex_marshal db "S" (Some (sys_commit c i))) in
  with_queue db (supersedeNotificationIntentIDsTx (h_queue db) "S" "" "" []).
Definition sys_second_publication : PublicationInput :=
  ex_publication ex_second true false None None (Some (4 * Minute)%Z) (last ex_history_1) None.

Definition sys_1 : history_db :=
  with_queue (with_pointers sys_empty (<["S" := (None, 0%Z)]> (h_pointers sys_empty)))
    (with_roots (h_queue sys_empty) (<["S" := None]> (roots (h_queue sys_empty)))).
Definition sys_2 : history_db := with_attempts sys_1 [("S", "a1")].
Definition sys_3 : history_db := sys_apply sys_2 ex_first ex_first_publication.
Definition sys_4 : history_db := with_queue sys_3 (demo_claim (h_queue sys_3) (demo_at 1)).2.
Definition sys_5 : history_db := with_artifacts sys_4 (<["input-n1" := JournalPending]> (h_artifacts sys_4)).
Definition sys_6 : history_db := sys_apply sys_5 ex_second sys_second_publication.

Definition sys_third_publication : PublicationInput :=
  ex_publication ex_third true false None None None (last ex_history_2) None.
Definition sys_7 : history_db := sys_apply sys_6 ex_third sys_third_publication.

Definition sys_events : list notif_event :=
  (((((([] ++ [EvOther]) ++ []) ++ [EvOther]) ++ [EvClaimed (demo_claim (h_queue sys_3) (demo_at 1)).1]) ++ []) ++ [EvOther]) ++ [EvOther].

(** The third commit's reply comes after the second's. *)
Example sys_7_queue :
  (λ n, (ni_EffectClass n, ni_Status n, ni_TransitionSequence n)) <$> intents (h_queue sys_7)
  = [(EffectRootSync, IntentSuperseded, Some 1%Z); (EffectRootSync, IntentSuperseded, Some 3%Z);
     (EffectBroadcastHandoff, IntentPending, Some 3%Z); (EffectRootSync, IntentPending, Some 4%Z);
     (EffectThreadAppend, IntentPending, Some 4%Z)].
Proof. vm_compute. reflexivity. Qed.

Lemma sys_commit_step db c i :
  read_rows db c i → Situation_ID (ch_Situation c) = "S" →
  is_ok (BuildHistoryCommit ex_identity ex_names_as_they_are ex_stamp c i) = true →
  is_ok (applyHistoryCommitTx ex_marshal db "S" (Some (sys_commit c i))) = true →
  ex_system_step db [EvOther] (sys_apply db c i).
Proof.
  intros Hr Hs Hb Ha. unfold sys_apply. unfold sys_commit in *.
  destruct (BuildHistoryCommit _ _ _ c i) as [h|] eqn:Eb; [cbn [or_else] in *|done].
  destruct (applyHistoryCommitTx _ _ _ _) as [db'|] eqn:Ea; [cbn [or_else]|done]. rewrite <- Hs in Ea |- *.
  by eapply SysCommit.
Qed.

Lemma sys_7_trace : ex_system_trace sys_events sys_7.
Proof.
  apply (SystemStep _ _ _ _ _ _ sys_6); [apply (SystemStep _ _ _ _ _ _ sys_5); [apply (SystemStep _ _ _ _ _ _ sys_4);
    [apply (SystemStep _ _ _ _ _ _ sys_3); [apply (SystemStep _ _ _ _ _ _ sys_2); [apply (SystemStep _ _ _ _ _ _ sys_1);
    [apply (SystemStep _ _ _ _ _ _ sys_empty); [apply SystemStart|]|]|]|]|]|]|].
  - by repeat split.
  - by apply SysSituation.
  - apply (SysAttempt _ _ _ _ _ sys_1 "S" "a1"). by eexists.
  - apply sys_commit_step; [|done|by vm_compute|by vm_compute]. by split.
  - apply SysWorker. apply NClaim with (owner := "worker") (now := demo_at 1) (lease := Minute) (limit := 10%nat). vm_compute. reflexivity.
  - by apply SysArtifact.
  - apply sys_commit_step; [|done|by vm_compute|by vm_compute].
    split; [|by intros p Hp; vm_compute in Hp |- *].
    intros p Hp. vm_compute in Hp. injection Hp as <-. vm_compute. by left.
  - apply sys_commit_step; [|done|by vm_compute|by vm_compute].
    split; [|by intros p Hp; vm_compute in Hp |- *].
    intros p Hp. vm_compute in Hp. injection Hp as <-. vm_compute. right. right. by left.
Qed.

Example plans_refine_queue_witness :
  NotificationStore.trace demo_generation ex_names_as_they_are sys_events (h_queue sys_7).
Proof.
  exact (proj1 (plans_refine_queue ex_identity ex_names_as_they_are ex_stamp ex_marshal demo_generation ex_notices_apart
                  sys_events sys_7 sys_7_trace)).
Defined.
