(* ===== verification/NotificationSchema.v ===== *)
(** * The constraints of the notification ledger
    (migrations 0019, 0021, 0023 and 0025; situation_notifications.go)

    The CHECK constraints and the unique indexes of [notification_intents], and
    its foreign keys situation_id and gap_generation, hold in every history, so
    the updates the ledger makes can never be refused by one of these: the
    transactions of NotificationStore test them only where the code can run into
    them.  The foreign key transition_id and the guard on an insert's Transition
    are [HistoryQueue.tells_of]; the foreign key replacement_intent_id and the
    other triggers (the guards of a supersession, the columns and rows that may
    not change) are not modelled.  Reactivation after a change of configuration,
    the one statement that runs into the index over the pending roots for many
    Situations at once, always goes through and leaves nothing blocked. *)

From stdpp Require Import prelude strings list gmap sorting relations.
From S2P Require Import Prelude NotificationModel NotificationStore.

(** ** What the schema promises *)

(** The CHECKs of every row, the unique indexes (identity, idempotency key, the
    replies of a Transition, the pending root of a Situation) and the foreign
    keys situation_id and gap_generation. *)
Record schema_holds (db : notif_db) : Prop := {
  sh_rows : Forall (λ n, row_check n = true) (intents db);
  sh_ids : NoDup (ni_ID <$> intents db);
  sh_keys : NoDup (ni_IdempotencyKey <$> intents db);
  sh_replies : NoDup (omap reply_key (intents db));
  sh_pending_roots : ∀ sid, (length (select (pending_root sid) (intents db)) ≤ 1)%nat;
  sh_situations : ∀ n sid, n ∈ intents db → ni_SituationID n = Some sid → is_set (roots db !! sid) = true;
  sh_gaps : ∀ n g, n ∈ intents db → ni_GapGeneration n = Some g → g ∈ gap_id <$> gaps db
}.

(** The intents a configuration block still holds. *)
Definition blocked_intents (db : notif_db) : list NotificationIntent :=
  select (is_status IntentBlockedConfiguration) (intents db).

Lemma blocked_none db : (∀ n, n ∈ intents db → ni_Status n ≠ IntentBlockedConfiguration) → blocked_intents db = [].
Proof.
  intros H. apply elem_of_nil_inv. intros n [Hs Hn]%elem_of_select. by apply (H n Hn), is_status_true.
Qed.

(** ** One row *)

Definition delivery_columns (n : NotificationIntent) : bool :=
  is_set (ni_DeliveredAt n) && is_set (ni_Channel n) && is_set (ni_MessageTS n) && is_set (ni_DeliveredAs n).

(** The constraints on the life of a row, as propositions. *)
Record life_ok (n : NotificationIntent) : Prop := {
  lo_lease : is_set (ni_ClaimOwner n) = is_set (ni_LeaseExpiresAt n);
  lo_owner : is_set (ni_ClaimOwner n) = true → ni_Status n = IntentPending;
  lo_failed : ni_Status n = IntentFailed → is_set (ni_RetryAt n) = false;
  lo_delivered : ni_Status n = IntentDelivered ↔ delivery_columns n = true;
  lo_class : ni_Status n = IntentSuperseded → ni_EffectClass n = EffectRootSync ∨ ni_EffectClass n = EffectThreadAppend;
  lo_reason : ni_Status n = IntentSuperseded ↔ is_set (ni_SupersessionReason n) = true;
  lo_replaced : ni_Status n = IntentSuperseded ↔ is_set (ni_ReplacementIntentID n) = true;
  lo_replacement : ∀ r, ni_ReplacementIntentID n = Some r → r ≠ ni_ID n;
  lo_mode : ∀ d, ni_DeliveredAs n = Some d → d ∈ delivery_modes;
  lo_token : (0 ≤ ni_ClaimToken n)%Z;
  lo_attempts : (0 ≤ ni_AttemptCount n)%Z
}.

Lemma eqb_status s n b : Bool.eqb (is_status s n) b = true ↔ (ni_Status n = s ↔ b = true).
Proof. rewrite eqb_true_iff, <- is_status_true. by destruct (is_status s n), b; intuition. Qed.

Lemma implb_status s n b : implb (is_status s n) b = true ↔ (ni_Status n = s → b = true).
Proof. rewrite <- is_status_true. by destruct (is_status s n), b; intuition. Qed.

Lemma delivery_mode_in d : existsb (str_eqb d) delivery_modes = true ↔ d ∈ delivery_modes.
Proof.
  rewrite existsb_exists. split.
  - intros (m & Hm & E). go_bool. subst. by apply list_elem_of_In.
  - intros Hd. exists d. split; [by apply list_elem_of_In|apply str_eqb_refl].
Qed.

Lemma life_check_ok n : life_check n = true ↔ life_ok n.
Proof.
  assert (Hr : match ni_ReplacementIntentID n with Some r => negb (str_eqb r (ni_ID n)) | None => true end = true ↔
               ∀ r, ni_ReplacementIntentID n = Some r → r ≠ ni_ID n).
  { destruct (ni_ReplacementIntentID n) as [r|]; [|done]. rewrite negb_true_iff. split.
    - intros H r' [= <-] ->. by rewrite str_eqb_refl in H.
    - intros H. apply not_true_is_false. intros E. go_bool. by eapply H. }
  assert (Hm : match ni_DeliveredAs n with Some d => existsb (str_eqb d) delivery_modes | None => true end = true ↔
               ∀ d, ni_DeliveredAs n = Some d → d ∈ delivery_modes).
  { destruct (ni_DeliveredAs n) as [d|]; [|done]. rewrite delivery_mode_in. split; [by intros ? ? [= <-]|auto]. }
  unfold life_check. rewrite !andb_true_iff, !eqb_status, !implb_status, eqb_true_iff, orb_true_iff, !class_true, !Z.leb_le, Hr, Hm, negb_true_iff.
  rewrite implb_true_iff, is_status_true. split; [intros H; destruct_and? H; by split|].
  intros [? ? ? ? ? ? ? ? ? ? ?]. by split_and!.
Qed.

(** Every update the ledger makes keeps them. *)
Ltac life_update :=
  intros; repeat match goal with H : life_ok _ |- _ => destruct H end;
  split; unfold delivery_columns in *; simpl in *; try (intuition (congruence || lia)).

Lemma life_claimed owner t n : ni_Status n = IntentPending → life_ok n → life_ok (claimed_by owner t n).
Proof. life_update. Qed.
Lemma life_delivered d now n :
  nd_DeliveredAs d ∈ delivery_modes → ni_Status n = IntentPending → life_ok n → life_ok (delivered_row d now n).
Proof. intros Hd. life_update. Qed.
Lemma life_retried class t n : ni_Status n = IntentPending → life_ok n → life_ok (retried_row class t n).
Proof. life_update. Qed.
Lemma life_stopped status class n :
  ni_Status n = IntentPending → status = IntentBlockedConfiguration ∨ status = IntentFailed → life_ok n →
  life_ok (stopped_row status class n).
Proof. intros ? [-> | ->]; life_update. Qed.
Lemma life_extended t n : is_set (ni_ClaimOwner n) = true → life_ok n → life_ok (extended_row t n).
Proof. life_update. Qed.
Lemma life_released n : ni_Status n = IntentPending → life_ok n → life_ok (released_row n).
Proof. life_update. Qed.
Lemma life_superseded reason r n :
  live n = true → ni_EffectClass n = EffectRootSync ∨ ni_EffectClass n = EffectThreadAppend → r ≠ ni_ID n → life_ok n →
  life_ok (superseded_row reason r n).
Proof. rewrite live_cases. life_update. Qed.
Lemma life_pending now n : live n = true → life_ok n → life_ok (pending_row now n).
Proof. rewrite live_cases. life_update. Qed.

(** ** The ledger *)

Record ledger_ok (db : notif_db) : Prop := {
  lg_rows : Forall (λ n, row_check n = true) (intents db);
  lg_keys : NoDup (ni_IdempotencyKey <$> intents db);
  lg_replies : NoDup (omap reply_key (intents db));
  lg_situations : ∀ n sid, n ∈ intents db → ni_SituationID n = Some sid → is_set (roots db !! sid) = true;
  lg_gaps : ∀ n g, n ∈ intents db → ni_GapGeneration n = Some g → g ∈ gap_id <$> gaps db
}.

(** The parents of the rows stay. *)
Record parents_kept (db db' : notif_db) : Prop := {
  pk_roots : ∀ sid, is_set (roots db !! sid) = true → is_set (roots db' !! sid) = true;
  pk_gaps : ∀ g, g ∈ gap_id <$> gaps db → g ∈ gap_id <$> gaps db'
}.

#[export] Instance parents_preorder : PreOrder parents_kept.
Proof. split; [by split|]. intros a b c [] []. split; auto. Qed.

Lemma parents_same db db' : roots db' = roots db → gap_id <$> gaps db' = gap_id <$> gaps db → parents_kept db db'.
Proof. intros E1 E2. split; intros x; by rewrite ?E1, ?E2. Qed.

Lemma keeps_columns {A} (key : NotificationIntent → A) l l' :
  (∀ n n', identity n' = identity n → key n' = key n) → Forall2 keeps l l' → key <$> l' = key <$> l.
Proof. intros Hkey. induction 1 as [|n n' l l' [Hn _] _ IH]; [done|]. cbn. by rewrite IH, (Hkey _ _ Hn). Qed.

Lemma keeps_reply_keys l l' : Forall2 keeps l l' → omap reply_key l' = omap reply_key l.
Proof.
  induction 1 as [|n n' l l' [Hn _] _ IH]; [done|]. cbn. rewrite IH.
  destruct (identity_reads _ _ Hn) as (_ & _ & _ & _ & -> & _). done.
Qed.

Lemma row_life n : row_check n = true → life_ok n.
Proof. unfold row_check. rewrite andb_true_iff, life_check_ok. by intros [_ ?]. Qed.

(** A transaction that keeps the rows' identities, their lives' constraints and
    their parents keeps the constraints of the ledger. *)
Lemma keeps_ledger db db' :
  Forall2 keeps (intents db) (intents db') → parents_kept db db' →
  (Forall life_ok (intents db) → Forall life_ok (intents db')) → ledger_ok db → ledger_ok db'.
Proof.
  intros Hk [Hr Hg] Hl [Hrows Hkeys Hreplies Hsit Hgap]. split.
  - assert (Forall life_ok (intents db')) as Hlife.
    { apply Hl. eapply Forall_impl; [exact Hrows|]. intros n. apply row_life. }
    assert (Forall (λ n, identity_check n = true) (intents db')) as Hid.
    { apply (keeps_identity db); [done|]. eapply Forall_impl; [exact Hrows|]. by intros n [? _]%andb_true_iff. }
    rewrite Forall_forall in Hlife, Hid |- *. intros n Hn. unfold row_check. rewrite (Hid n Hn). by apply life_check_ok, Hlife.
  - rewrite (keeps_columns ni_IdempotencyKey _ _ ltac:(unfold identity; congruence) Hk). done.
  - by rewrite (keeps_reply_keys _ _ Hk).
  - intros n' sid Hn Hs. destruct (rows_back _ _ _ Hk Hn) as (n & Hn0 & In & _).
    destruct (identity_reads _ _ In) as (_ & _ & E & _). apply Hr, (Hsit n); [done|congruence].
  - intros n' g Hn Hs. destruct (rows_back _ _ _ Hk Hn) as (n & Hn0 & In & _).
    apply Hg, (Hgap n); [done|]. unfold identity in In. congruence.
Qed.

Lemma update_life P f l :
  (∀ n, n ∈ l → P n = true → life_ok n → life_ok (f n)) → Forall life_ok l → Forall life_ok (update P f l).
Proof.
  rewrite !Forall_forall. intros Hf Hl n' (n & Hn & ->)%elem_of_update. destruct (P n) eqn:E; auto.
Qed.

Lemma insert_ledger db n db' : insertNotificationIntentTx db n = Ok db' → ledger_ok db → ledger_ok db'.
Proof.
  intros (Hc & Hf & ->)%insert_inv [Hrows Hkeys Hreplies Hsit Hgap]. unfold fits in Hf.
  rewrite !andb_true_iff, !negb_true_iff in Hf. destruct Hf as (((((_ & Hk) & _) & Hr) & Hs) & Hg).
  split; cbn [with_intents intents roots gaps].
  - apply Forall_app. by split; [|constructor].
  - rewrite fmap_app. apply NoDup_app. split_and!; [done| |apply NoDup_singleton].
    intros key Hin ->%list_elem_of_singleton. apply list_elem_of_fmap in Hin as (o & Ho & Hin).
    apply not_true_iff_false in Hk. apply Hk, existsb_exists. exists o. split; [by apply list_elem_of_In|].
    rewrite <- Ho. apply str_eqb_refl.
  - rewrite omap_app. cbn. destruct (reply_key n) as [key|] eqn:Ek; cbn; [|by rewrite app_nil_r].
    apply NoDup_app. split_and!; [done| |apply NoDup_singleton].
    intros key' Hin ->%list_elem_of_singleton. apply list_elem_of_omap in Hin as (o & Hin & Ho).
    simpl in Hr. apply not_true_iff_false in Hr. apply Hr, existsb_exists. exists o. split; [by apply list_elem_of_In|].
    by apply bool_decide_eq_true_2.
  - intros o sid [Ho|Ho%list_elem_of_singleton]%elem_of_app E; [by eapply Hsit|]. subst o. by rewrite E in Hs.
  - intros o g [Ho|Ho%list_elem_of_singleton]%elem_of_app E; [by eapply Hgap|]. subst o. rewrite E in Hg.
    apply existsb_exists in Hg as (p & Hp & Heq). go_bool. subst. apply list_elem_of_fmap. exists p. split; [done|by apply list_elem_of_In].
Qed.

Lemma insert_all_ledger db l db' : insert_all db l = Ok db' → ledger_ok db → ledger_ok db'.
Proof.
  revert db. induction l as [|n l IH]; intros db; cbn [insert_all]; [by intros [= <-]|].
  destruct (insertNotificationIntentTx db n) as [db1|] eqn:E; [|done]. cbn [res_bind]. intros H Hl.
  eapply IH, insert_ledger; eauto.
Qed.

(** *** The transactions *)

Definition tidy (db db' : notif_db) : Prop :=
  parents_kept db db' ∧ (Forall life_ok (intents db) → Forall life_ok (intents db')).

#[export] Instance tidy_preorder : PreOrder tidy.
Proof. split; [by split|]. intros a b c [P1 L1] [P2 L2]. split; [by etrans|auto]. Qed.

Lemma tidy_update db P f :
  (∀ n, n ∈ intents db → P n = true → life_ok n → life_ok (f n)) → tidy db (with_intents db (update P f (intents db))).
Proof. intros Hf. split; [by apply parents_same|]. intros. by apply update_life. Qed.

Lemma supersedeLive_tidy db sid r : tidy db (supersedeLiveRootSyncTx db sid r).
Proof.
  apply tidy_update. intros n _ H. rewrite !andb_true_iff, class_true, negb_true_iff in H. destruct H as (((_ & Hc) & Hl) & Hr).
  apply life_superseded; [done|by left|]. intros ->. unfold has_id in Hr. by rewrite str_eqb_refl in Hr.
Qed.

Lemma supersedeIDs_tidy db sid r reason ids : tidy db (supersedeNotificationIntentIDsTx db sid r reason ids).
Proof.
  apply tidy_update. intros n _ H. rewrite !andb_true_iff, class_true, negb_true_iff in H. destruct H as ((((_ & Hc) & Hl) & Hr) & _).
  apply life_superseded; [done|by right|]. intros ->. unfold has_id in Hr. by rewrite str_eqb_refl in Hr.
Qed.

Lemma fencedAck_tidy db c f db' :
  (∀ n, fenced c n = true → life_ok n → life_ok (f n)) → fencedNotificationAck db c f = Ok db' → tidy db db'.
Proof. intros Hf (_ & _ & ->)%fencedAck_inv. apply tidy_update. auto. Qed.

Lemma setPending_tidy db id from now db' :
  from = IntentFailed ∨ from = IntentBlockedConfiguration →
  setNotificationIntentPendingTx db id from now = Ok db' → tidy db db'.
Proof.
  intros Hfrom ->%setPending_inv. apply tidy_update. intros n _ [_ Hs]%andb_true_iff. apply life_pending.
  rewrite is_status_true in Hs. rewrite live_cases. destruct Hfrom; subst; auto.
Qed.

Lemma redrive_tidy db id now db' : RedriveFailedNotificationIntent db id now = Ok db' → tidy db db'.
Proof. apply redrive_rel; [apply _|apply supersedeLive_tidy|apply setPending_tidy]. Qed.

Lemma reactivate_tidy db g now k db' : ReactivateConfigurationBlocked db g now = Ok (k, db') → tidy db db'.
Proof.
  apply reactivate_rel; [apply _|apply supersedeLive_tidy|apply setPending_tidy|]. intros db0 g0 now0.
  split; [by apply parents_same|]. cbn [with_health with_intents intents]. apply update_life. intros n _ Hn.
  by eapply life_pending, blocked_live.
Qed.

Lemma set_root_parents db sid d : parents_kept db (set_root db sid d).
Proof.
  unfold set_root. destruct (roots db !! sid) as [r|] eqn:E; [|done]. split; [|done]. cbn [with_roots roots].
  intros s. destruct (decide (s = sid)) as [->|Hs]; [by rewrite lookup_insert_eq|by rewrite lookup_insert_ne].
Qed.

Lemma delivered_tidy db c d now db' e : MarkNotificationDelivered db c d now = (db', e) → tidy db db'.
Proof.
  unfold MarkNotificationDelivered. destruct (negb _ || _ || _ || _) eqn:Eargs; [by intros [= <- _]|].
  apply orb_false_iff in Eargs as [_ Hmode%negb_false_iff%delivery_mode_in].
  destruct (existsb (fenced c) (intents db)).
  - set (db1 := with_intents db _).
    assert (tidy db db1). { apply tidy_update. intros n _ Hn. apply life_delivered; [exact Hmode|]. by apply fenced_spec in Hn as (_ & ? & _). }
    assert (∀ sid, tidy db (set_root db1 sid d)) as Hroot.
    { intros sid. etrans; [done|]. split; [apply set_root_parents|]. by rewrite set_root_intents. }
    repeat case_match; intros [= <- _]; auto.
  - unfold acknowledgeSupersededDeliveryTx.
    assert (∀ sid, tidy db (set_root db sid d)) as Hroot.
    { intros sid. split; [apply set_root_parents|]. by rewrite set_root_intents. }
    repeat case_match; intros [= <- _]; simplify_eq; auto; done.
Qed.

Lemma claim_tidy db owner now lease limit cs db' :
  NoDup (ni_ID <$> intents db) → ClaimNotificationIntents db owner now lease limit = Ok (cs, db') → tidy db db'.
Proof.
  intros Hnd [(_ & -> & _)|(ids & _ & -> & -> & _)]%claimed_inv; [done|]. apply tidy_update. intros n Hn Hm.
  apply life_claimed. apply mine_true, due_ids in Hm; [|done|done]. unfold takes in Hm.
  destruct (gate_noticeIDs _); [|by destruct Hm as (_ & ? & _)]. unfold claimable in Hm. rewrite !andb_true_iff, is_status_true in Hm.
  by destruct Hm as ((((_ & ?) & _) & _) & _).
Qed.

(** *** Every history *)

Section traces.
Context (NewGapGenerationID : Time → string) (ii : string → string).

#[local] Abbreviation step := (notif_step NewGapGenerationID ii).
#[local] Abbreviation trace := (trace NewGapGenerationID ii).

(** What a step inserts, and the tidy transaction that follows. *)
Lemma tidy_ledger db db' : calm_db db db' → tidy db db' → ledger_ok db → ledger_ok db'.
Proof. intros Hk%calm_keeps [Hp Hl]. by apply keeps_ledger. Qed.

Lemma fenced_status c n : fenced c n = true → ni_Status n = IntentPending ∧ is_set (ni_ClaimOwner n) = true.
Proof. intros (_ & ? & E & _)%fenced_spec. by rewrite E. Qed.

Lemma ack_ledger db c f db' :
  (∀ n, fenced c n = true → calm n (f n)) → (∀ n, fenced c n = true → life_ok n → life_ok (f n)) →
  fencedNotificationAck db c f = Ok db' → ledger_ok db → ledger_ok db'.
Proof. intros H1 H2 Ha. apply tidy_ledger; [by eapply fencedAck_calm|by eapply fencedAck_tidy]. Qed.

Lemma recover_ledger db now g db' : RecoverDeliveryGap ii db now = Ok (g, db') → ledger_ok db → ledger_ok db'.
Proof.
  unfold RecoverDeliveryGap. destruct (best _ _) as [h|]; [|by intros [= _ <-]].
  destruct (GapRecoveryIntent ii (gap_id h) now) as [notice|]; [|done].
  destruct (if existsb _ _ then _ else _) as [db1|] eqn:E1; [|done]. cbn [res_bind]. intros [= _ <-] Hl.
  assert (ledger_ok db1 ∧ gaps db1 = gaps db) as [Hl1 Hg1].
  { destruct (existsb _ _); [by injection E1 as <-|]. split; [by eapply insert_ledger|]. by apply insert_inv in E1 as (_ & _ & ->). }
  eapply (keeps_ledger db1); [apply calm_keeps; change (calm_db db1 db1); reflexivity| |done|done].
  apply parents_same; [done|]. cbn [with_gaps gaps]. rewrite Hg1. by apply update_gap_ids.
Qed.

Lemma step_ledger db ev db' : queue_ok db → step db ev db' → ledger_ok db → ledger_ok db'.
Proof.
  intros Hq.
  assert (Hrows : ∀ db0, intents db0 = intents db → parents_kept db db0 → ledger_ok db → ledger_ok db0).
  { intros db0 E Hp. apply keeps_ledger; [|done|]; rewrite E; [apply calm_keeps; change (calm_db db db); reflexivity|done]. }
  intros [sid Hnew|sid l db1 r reason ids Hp Hi|? ? [owner now lease limit cs db1 Hc|c d now db1 Hd|c d now db1 e Hd|c class t db1 Ha%retry_inv
         |c class db1 Ha%block_inv|c class db1 Ha%fail_inv|c db1 Ha|c now lease db1 Ha%heartbeat_inv|now|id now db1 Hr|g now n db1 Hr
         |class now db1 Hf|now|now threshold first db1 Ho _|now g db1 Hr|now]].
  - apply Hrows; [done|]. split; [|done]. intros s. cbn. destruct (decide (s = sid)) as [->|Hs]; [by rewrite Hnew|].
    by rewrite lookup_insert_ne.
  - intros Hl. unfold insertNotificationIntentsTx in Hi. fold (committing db sid l) in Hi.
    apply (tidy_ledger db1); [apply supersedeIDs_calm|apply supersedeIDs_tidy|]. eapply insert_all_ledger; [exact Hi|].
    eapply tidy_ledger; [apply committing_calm| |exact Hl]. unfold committing. destruct (head _); [apply supersedeLive_tidy|done].
  - pose proof (claim_tidy _ _ _ _ _ _ _ (qo_ids _ Hq) Hc) as [Hp Hl]. apply keeps_ledger; [|done|done].
    apply claimed_inv in Hc as [(_ & -> & _)|(ids & _ & _ & -> & _)]; [apply calm_keeps; change (calm_db db db); reflexivity|].
    apply claim_keeps.
  - pose proof (delivered_tidy _ _ _ _ _ _ Hd) as Ht. apply tidy_ledger; [|exact Ht]. unfold calm_db.
    apply delivered_inv in Hd as (_ & _ & -> & _). apply update_calm. intros. apply delivered_calm.
  - pose proof (delivered_tidy _ _ _ _ _ _ Hd) as [Hp _]. apply delivery_lost_inv in Hd as (E & _). by apply Hrows.
  - eapply (ack_ledger db); [| |exact Ha]; [intros; apply retried_calm|]. intros n []%fenced_status. by apply life_retried.
  - eapply (ack_ledger db); [| |exact Ha]; [intros; by eapply stopped_calm, fenced_live|]. intros n []%fenced_status.
    apply life_stopped; auto.
  - eapply (ack_ledger db); [| |exact Ha]; [intros; by eapply stopped_calm, fenced_live|]. intros n []%fenced_status.
    apply life_stopped; auto.
  - eapply (ack_ledger db); [| |exact Ha]; [intros; apply released_calm|]. intros n []%fenced_status. by apply life_released.
  - eapply (ack_ledger db); [| |exact Ha]; [intros; apply extended_calm|]. intros n []%fenced_status. by apply life_extended.
  - apply tidy_ledger; [apply recoverExpired_calm|]. apply tidy_update. intros n _ Hn. apply life_released.
    unfold lease_expired in Hn. rewrite !andb_true_iff, is_status_true in Hn. by destruct Hn as ((? & _) & _).
  - apply tidy_ledger; [by eapply redrive_calm|by eapply redrive_tidy].
  - apply tidy_ledger; [by eapply reactivate_calm|by eapply reactivate_tidy].
  - unfold ObserveSlackFailure in Hf. destruct (validateNotificationErrorClass class); [|done]. injection Hf as <-. by apply Hrows.
  - by apply Hrows.
  - apply Hrows; [by apply open_spec in Ho as (? & _ & _ & _ & _ & ? & _)|].
    assert (roots db1 = roots db) as Er.
    { revert Ho. unfold OpenDueDeliveryGap. repeat case_match; intros; by simplify_eq. }
    apply open_spec in Ho as (f & _ & _ & _ & _ & _ & _ & _ & h & Hg & _). split; [by rewrite Er|].
    intros id Hx. rewrite Hg, fmap_app, elem_of_app. by left.
  - by eapply recover_ledger.
  - apply Hrows; [unfold CompleteDeliveryGap; repeat case_match; done|]. unfold CompleteDeliveryGap.
    destruct (best _ _); [|done]. destruct (existsb _ _); [done|]. apply parents_same; [done|]. cbn. by apply update_gap_ids.
Qed.

Lemma trace_ledger evs db : trace evs db → ledger_ok db.
Proof.
  induction 1 as [db (Hi & Hg & _)|evs db ev db' Ht IH Hs].
  - split; rewrite ?Hi; try constructor; intros n ? Hn; by apply not_elem_of_nil in Hn.
  - eapply step_ledger; [|exact Hs|exact IH]. apply (inv_queue _ _ _ (trace_inv _ _ _ _ Ht)).
Qed.

Lemma all_same_length {A} (l : list A) : NoDup l → (∀ x y, x ∈ l → y ∈ l → x = y) → (length l ≤ 1)%nat.
Proof.
  destruct l as [|x [|y l]]; simpl; [lia|lia|]. intros [Hx _]%NoDup_cons Heq. destruct Hx.
  rewrite (Heq x y); [left|left|right; left].
Qed.

Lemma pending_root_live sid n : pending_root sid n = true → live_root sid n.
Proof.
  unfold pending_root, in_situation. rewrite !andb_true_iff, bool_decide_eq_true, class_true, is_status_true. intros ((S & C) & P).
  split_and!; [done|done|]. apply live_cases. by left.
Qed.

(** C36. In every history of the ledger the CHECKs of every row hold after every
    update, identities, idempotency keys and the replies' index stay unique, no
    Situation has two pending roots, and every row's Situation and gap exist.
    The foreign keys transition_id and replacement_intent_id and the triggers of
    the table are not among these constraints. *)
Theorem schema_kept evs db :
  trace evs db → schema_holds db.
Proof.
  intros Ht. destruct (trace_ledger _ _ Ht) as [H1 H2 H3 H4 H5]. pose proof (inv_queue _ _ _ (trace_inv _ _ _ _ Ht)) as [Q1 Q2 _].
  split; try done. intros sid. apply all_same_length.
  - apply NoDup_filter. by eapply NoDup_fmap_1.
  - intros x y [Px Hx]%elem_of_select [Py Hy]%elem_of_select. by apply (Q2 sid); try apply pending_root_live.
Qed.

(** ** Reactivation *)

Lemma find_intent_unique db n : NoDup (ni_ID <$> intents db) → n ∈ intents db → find_intent (ni_ID n) (intents db) = Some n.
Proof.
  intros Hnd Hn. destruct (find_intent (ni_ID n) (intents db)) as [o|] eqn:E.
  - apply find_intent_some in E as [Ho Hid]. by rewrite (ids_inj db o n Hnd Ho Hn Hid).
  - unfold find_intent in E. apply head_None in E. assert (n ∈ select (has_id (ni_ID n)) (intents db)) as Hs.
    { apply elem_of_select. split; [apply str_eqb_refl|done]. }
    rewrite E in Hs. by apply not_elem_of_nil in Hs.
Qed.

Lemma keeps_shape_db db db' : calm_db db db' → queue_shape db → queue_shape db'.
Proof. intros Hk%calm_keeps. by apply keeps_shape. Qed.

(** One Situation: it always goes through, makes nothing blocked, and leaves the
    Situation no blocked root. *)
Lemma reactivateRoot_total db sid now :
  queue_shape db →
  ∃ k db', reactivateBlockedRootSyncTx db sid now = Ok (k, db') ∧ queue_shape db' ∧
    ∀ n, n ∈ intents db' → ni_Status n = IntentBlockedConfiguration →
         n ∈ intents db ∧ ¬ (ni_SituationID n = Some sid ∧ ni_EffectClass n = EffectRootSync).
Proof.
  intros Hq. unfold reactivateBlockedRootSyncTx. destruct (last _) as [keeper|] eqn:El; cycle 1.
  { exists 0%nat, db. split_and!; [done|done|]. intros n Hn Hs. split; [done|]. intros [S C].
    apply last_None in El. assert (n ∈ @nil NotificationIntent) as Hin; [|by apply not_elem_of_nil in Hin].
    rewrite <- El, SliceStable_perm. apply elem_of_select. split; [|done].
    unfold in_situation. rewrite bool_decide_eq_true_2, (proj2 (class_true _ _) C), (proj2 (live_cases n)) by auto. done. }
  apply last_Some_elem_of in El. rewrite SliceStable_perm in El. apply elem_of_select in El as [Hk Hin].
  rewrite !andb_true_iff, class_true in Hk. destruct Hk as ((Ks & Kc) & Kl). unfold in_situation in Ks. apply bool_decide_eq_true in Ks.
  set (db1 := supersedeLiveRootSyncTx db sid (ni_ID keeper)).
  pose proof (keeps_shape_db _ _ (supersedeLive_calm db sid (ni_ID keeper)) Hq) as Hq1. fold db1 in Hq1.
  assert (Hk1 : keeper ∈ intents db1).
  { apply elem_of_update. exists keeper. split; [done|]. unfold has_id. rewrite str_eqb_refl, andb_false_r. done. }
  assert (Hone : ∀ n, n ∈ intents db1 → live_root sid n → n = keeper).
  { intros n Hn Hl. apply (ids_inj db1); [apply Hq1|done|done|]. by apply (supersedeLive_roots db sid). }
  assert (Hback : ∀ n, n ∈ intents db1 → ni_Status n = IntentBlockedConfiguration → n ∈ intents db).
  { intros n (n0 & Hn0 & ->)%elem_of_update Hs. destruct (_ && _ && _ && _); done. }
  destruct (is_status IntentBlockedConfiguration keeper) eqn:Eb; cbn [negb]; cycle 1.
  { exists 0%nat, db1. split_and!; [done|done|]. intros n Hn Hs. split; [by apply Hback|]. intros [S C].
    rewrite (Hone n Hn) in Hs; [|split_and!; [done|done|apply live_cases; auto]]. apply not_true_iff_false in Eb. by apply Eb, is_status_true. }
  assert (∃ db2, setNotificationIntentPendingTx db1 (ni_ID keeper) IntentBlockedConfiguration now = Ok db2) as [db2 E2].
  { unfold setNotificationIntentPendingTx. rewrite (find_intent_unique db1 keeper (qs_ids _ Hq1) Hk1), Eb, Ks.
    destruct (existsb _ _) eqn:Ee; [|rewrite andb_false_r; by eexists]. exfalso.
    apply existsb_exists in Ee as (o & Ho%list_elem_of_In & [Hp Hid]%andb_true_iff).
    rewrite (Hone o Ho (pending_root_live _ _ Hp)) in Hid. unfold has_id in Hid. by rewrite str_eqb_refl in Hid. }
  rewrite E2. cbn. exists 1%nat, db2. split; [done|]. split.
  { eapply keeps_shape_db; [|exact Hq1]. eapply setPending_calm, E2. by right. }
  apply setPending_inv in E2 as ->. intros n (n1 & Hn1 & ->)%elem_of_update Hs. destruct (_ && _) eqn:Eu; [done|].
  split; [by apply Hback|]. intros [S C]. assert (n1 = keeper) as -> by (apply Hone; [done|split_and!; [done|done|apply live_cases; auto]]).
  unfold has_id in Eu. by rewrite str_eqb_refl, Eb in Eu.
Qed.

Lemma reactivateRoots_total sids db now total :
  queue_shape db →
  ∃ k db', reactivate_roots db sids now total = Ok (k, db') ∧
    ∀ n, n ∈ intents db' → ni_Status n = IntentBlockedConfiguration →
         n ∈ intents db ∧ ∀ sid, sid ∈ sids → ¬ (ni_SituationID n = Some sid ∧ ni_EffectClass n = EffectRootSync).
Proof.
  revert db total. induction sids as [|sid sids IH]; intros db total Hq; cbn [reactivate_roots].
  { exists total, db. split; [done|]. intros n Hn _. split; [done|]. intros s Hs. by apply not_elem_of_nil in Hs. }
  destruct (reactivateRoot_total db sid now Hq) as (k & db1 & -> & Hq1 & H1). cbn.
  destruct (IH db1 (total + k)%nat Hq1) as (k' & db2 & E & H2). exists k', db2. split; [exact E|].
  intros n Hn Hs. destruct (H2 n Hn Hs) as [Hn1 Hsids]. destruct (H1 n Hn1 Hs) as [Hn0 Hsid]. split; [done|].
  intros s [->|Hin]%elem_of_cons; [done|by apply Hsids].
Qed.

#[local] Instance health_preorder : PreOrder (λ a b, health b = health a).
Proof. split; [done|by intros ? ? ? -> ->]. Qed.

Lemma reactivateRoots_health sids db now total k db' :
  reactivate_roots db sids now total = Ok (k, db') → health db' = health db.
Proof.
  apply (reactivateRoots_rel (λ a b, health b = health a)); [done|]. by intros db0 id from now0 db1 _ ->%setPending_inv.
Qed.

(** When the configuration advances, reactivation never runs into the index
    over the pending roots, however many roots are blocked: it commits, records
    the generation, and leaves no intent blocked. *)
Theorem ReactivateConfigurationBlocked_total evs db generation now :
  trace evs db → (0 < generation)%Z → (configuration_generation (health db) < generation)%Z →
  ∃ k db', ReactivateConfigurationBlocked db generation now = Ok (k, db') ∧
    configuration_generation (health db') = generation ∧ blocked_intents db' = [].
Proof.
  intros Ht Hpos Hadv. unfold ReactivateConfigurationBlocked.
  rewrite (proj2 (Z.ltb_lt _ _) Hpos), (proj2 (Z.ltb_lt _ _) Hadv). cbn [negb]. unfold reactivateBlockedIntentsTx.
  pose proof (trace_inv _ _ _ _ Ht) as [Hq _ _ Hid].
  set (f := λ n, is_status IntentBlockedConfiguration n && negb (is_class EffectRootSync n)).
  set (db0 := with_intents _ _).
  assert (calm_db db db0) as Hc0. { apply update_calm. intros n _ Hn. by eapply pending_calm, blocked_live. }
  destruct (reactivateRoots_total (blocked_situations (intents db0)) db0 now (length (select f (intents db)))
              (keeps_shape_db _ _ Hc0 (queue_ok_shape _ Hq))) as (k & db' & E & Hb).
  exists k, db'. split; [exact E|]. split.
  { by rewrite (reactivateRoots_health _ _ _ _ _ _ E). }
  apply blocked_none. intros n Hn Hs. destruct (Hb n Hn Hs) as [Hn0 Hroots].
  assert (ni_EffectClass n = EffectRootSync) as C.
  { apply elem_of_update in Hn0 as (n1 & _ & ->). destruct (f n1) eqn:Ef; [done|]. unfold f in Ef.
    rewrite (proj2 (is_status_true _ _) Hs) in Ef. by apply negb_false_iff, class_true in Ef. }
  pose proof (keeps_identity db db0 (calm_keeps _ _ Hc0) Hid) as Hid0. rewrite Forall_forall in Hid0. specialize (Hid0 n Hn0).
  destruct (ni_SituationID n) as [sid|] eqn:Esid; cycle 1.
  { unfold identity_check, is_class in Hid0. rewrite C, Esid in Hid0. simpl in Hid0. rewrite andb_false_r in Hid0. done. }
  apply (Hroots sid); [|done]. unfold blocked_situations. rewrite SliceStable_perm. apply elem_of_remove_dups, list_elem_of_omap.
  exists n. split; [|done]. apply elem_of_select. split; [|done].
  by rewrite (proj2 (is_status_true _ _) Hs), (proj2 (class_true _ _) C).
Qed.
End traces.

Lemma schema_kept_witness : length (intents demo_10) = 3%nat ∧ schema_holds demo_10.
Proof.
  split; [by vm_compute|]. apply (schema_kept demo_generation demo_identity demo_blocking demo_10 demo_blocked).
Defined.

Lemma ReactivateConfigurationBlocked_total_witness :
  ni_ID <$> blocked_intents demo_10 = ["recovered"] ∧
  ∃ k db', ReactivateConfigurationBlocked demo_10 2 (demo_at 20) = Ok (k, db') ∧
    configuration_generation (health db') = 2%Z ∧ blocked_intents db' = [].
Proof.
  split; [by vm_compute|].
  apply (ReactivateConfigurationBlocked_total demo_generation demo_identity demo_blocking demo_10 2 (demo_at 20) demo_blocked); by vm_compute.
Defined.
