(* ===== verification/DispatchWorker.v ===== *)
(** The dispatch worker at rest: draining the accepted deliveries.

    Correlator.v defines the round of the worker ([RunOnce]) and its repetition
    ([Drain]).  Here a run of it is followed row by row: what applying or
    releasing a claim does to the table of dispatches, how much work a row can
    still ask for ([work]), and so that the repetition ends and what it leaves. *)

From stdpp Require Import prelude strings list gmap sorting.
From S2P Require Import Prelude ErrorClass Deliveries DeliveryLedger Correlator.

(** ** A claim that holds is not lost *)

Definition lost {A} (r : result delivery_error A) : Prop := r = Err ErrAlertDispatchLeaseLost.

Lemma lost_bind {A B} (r : result delivery_error A) (k : A → result delivery_error B) :
  ¬ lost r → (∀ a, r = Ok a → ¬ lost (k a)) → ¬ lost (let? a := r in k a).
Proof. unfold lost. destruct r as [a|e]; simpl; [auto|]. intros H _ [= ->]. by destruct H. Qed.

Ltac not_lost :=
  unfold lost, check; intros; repeat (case_match; simplify_eq/=; try done); try done.

Lemma ensure_not_lost db inc reuse now : ¬ lost (ensureCorrelatedIncidentTx db inc reuse now).
Proof. unfold ensureCorrelatedIncidentTx. not_lost. Qed.
Lemma occurrence_not_lost db id o at_ : ¬ lost (applyCorrelatedOccurrenceTx db id o at_).
Proof. unfold applyCorrelatedOccurrenceTx, insertCorrelatedOccurrenceTx, touchCorrelatedOccurrenceTx. not_lost. Qed.
Lemma attach_not_lost db id dl al occ at_ : ¬ lost (attachCorrelatedDeliveryTx db id dl al occ at_).
Proof. unfold attachCorrelatedDeliveryTx. not_lost. Qed.
Lemma kind_not_lost db req id ds st cr : ¬ lost (correlatedSituationInputKindTx db req id ds st cr).
Proof. unfold correlatedSituationInputKindTx. not_lost. Qed.
Lemma enqueue_not_lost n db : ¬ lost (enqueue n db).
Proof. unfold enqueue. not_lost. Qed.
Lemma validate_not_lost m : ¬ lost (validateCorrelatedDeliveryMutation m).
Proof. unfold validateCorrelatedDeliveryMutation. repeat (apply lost_bind; [not_lost|intros]). not_lost. Qed.

Lemma mark_not_lost db m now :
  held db (cm_DeliveryID m) (cm_DispatchOwner m) (cm_DispatchClaimToken m) = true →
  ¬ lost (markCorrelatedDispatchAppliedTx db (cm_DeliveryID m) (cm_DispatchOwner m) (cm_DispatchClaimToken m) now).
Proof. unfold held, verifyCorrelatedDispatchClaimTx, markCorrelatedDispatchAppliedTx, lost. by destruct (existsb _ _). Qed.

Lemma held_same db db' id owner token : d_dispatches db' = d_dispatches db → held db' id owner token = held db id owner token.
Proof. unfold held, verifyCorrelatedDispatchClaimTx. by intros ->. Qed.

Lemma apply_new_not_lost db m d opened now :
  held db (cm_DeliveryID m) (cm_DispatchOwner m) (cm_DispatchClaimToken m) = true → ¬ lost (applyNewCorrelatedDelivery db m d opened now).
Proof.
  intros Hh. unfold applyNewCorrelatedDelivery.
  apply lost_bind; [apply ensure_not_lost|]. intros [[[created st] id] db1] E1.
  destruct (owner_permits _ _ _ _); [|by intros [=]].
  apply lost_bind; [apply occurrence_not_lost|]. intros [occ db2] E2.
  apply lost_bind; [apply attach_not_lost|]. intros db3 E3.
  apply lost_bind; [apply kind_not_lost|]. intros [[kind res] db4] E4.
  apply lost_bind; [apply enqueue_not_lost|]. intros db6 (_ & ->)%enqueue_ok.
  apply lost_bind; [|intros db7 _; destruct (find_incident db7 id); by intros [=]].
  apply mark_not_lost. etrans; [|exact Hh]. apply held_same. simpl. by eapply unmarked.
Qed.

Lemma apply_not_lost db m opened now :
  ledger_inv db → held db (cm_DeliveryID m) (cm_DispatchOwner m) (cm_DispatchClaimToken m) = true →
  ¬ lost (ApplyCorrelatedDelivery db m opened now).
Proof.
  intros Hinv Hh. unfold ApplyCorrelatedDelivery. apply lost_bind; [apply validate_not_lost|]. intros _ _.
  apply lost_bind; [by unfold held, lost in *; destruct (verifyCorrelatedDispatchClaimTx _ _ _ _)|]. intros [] Hv.
  destruct (List.find _ _) as [o|] eqn:Eo.
  - apply (find_key ol_DeliveryID) in Eo as [Ho Eo]. exfalso. eapply (claimed_not_owned db); [done|by rewrite Hv|].
    rewrite <- Eo. by apply list_elem_of_fmap_2.
  - destruct (find_delivery _ _); [|by intros [=]]. by apply apply_new_not_lost.
Qed.

(** ** What a run does to the dispatches *)

Section worker.
Context (cfg : Config) (env : nat → delivery_db → delivery_db) (fails : nat → option call_failure)
  (input_id incident_id : nat → string) (clock : nat → Time) (wcfg : WorkerConfig).
(** Nobody else touches the deliveries meanwhile, and no call fails of itself. *)
Context (Hothers : ∀ n db, others_keep db (env n db)) (Hcalls : ∀ n, fails n = None).

Abbreviation query := (query env fails).
Abbreviation apply_plan := (apply_plan env fails clock).
Abbreviation ApplyDelivery := (ApplyDelivery cfg env fails input_id incident_id clock).
Abbreviation applyOne := (applyOne cfg env fails input_id incident_id clock wcfg).
Abbreviation apply_each := (apply_each cfg env fails input_id incident_id clock wcfg).
Abbreviation RunOnce := (RunOnce cfg env fails input_id incident_id clock wcfg).
Abbreviation Drain := (Drain cfg env fails input_id incident_id clock wcfg).

Definition dispatches (s : run) : list AlertDispatch := d_dispatches (rn_db s).

(** The condition under which the row of a claim is written. *)
Definition claim_holds (c : claim_row) (d : AlertDispatch) : bool :=
  match dp_LeaseOwner c.2 with
  | Some o => holds_claim (ad_ID c.1) o (dp_ClaimToken c.2) d
  | None => false
  end.

Definition claim_live (c : claim_row) (s : run) : Prop := c.2 ∈ dispatches s ∧ claim_holds c c.2 = true.

Definition Applied (c : claim_row) (s s' : run) : Prop :=
  ∃ now, dispatches s' = update_rows (claim_holds c) (applied_dispatch now) (dispatches s).

(** [m] applies the claim when its answer satisfies [ok]; otherwise, and when
    it fails, it leaves the dispatches alone; it never loses the claim. *)
Definition Delivers {A} (c : claim_row) (m : C A) (ok : A → bool) : Prop :=
  ∀ s r s', ledger_inv (rn_db s) → claim_live c s → m s = (r, s') →
    ledger_inv (rn_db s') ∧
    match r with
    | Ok a => if ok a then Applied c s s' else dispatches s' = dispatches s
    | Err e => dispatches s' = dispatches s ∧ stops_round e = false
    end.

(** What is left once the claim was applied. *)
Definition Ends {A} (m : C A) (ok : A → bool) : Prop :=
  ∀ s, ∃ a s', m s = (Ok a, s') ∧ ok a = true ∧ rn_db s' = rn_db s.

Abbreviation nothing := (λ _, false).

Lemma live_same c s s' : dispatches s' = dispatches s → claim_live c s → claim_live c s'.
Proof. unfold claim_live. by intros ->. Qed.

Lemma env_dispatches n db : d_dispatches (env n db) = d_dispatches db.
Proof. apply ok_dispatches, Hothers. Qed.

Lemma called_inv s : ledger_inv (rn_db s) → ledger_inv (rn_db (called env s)).
Proof. intros H. eapply others_keep_inv; [exact H|apply Hothers]. Qed.

Lemma delivers_ret {A} c (a : A) ok : ok a = false → Delivers c (mret a) ok.
Proof. intros E s r s' ? _ [= <- <-]. by rewrite E. Qed.

Lemma delivers_throw {A} c e (ok : A → bool) : stops_round e = false → Delivers c (throw e) ok.
Proof. by intros E s r s' ? _ [= <- <-]. Qed.

Lemma delivers_bind {A B} c (m : C A) (k : A → C B) okm ok :
  Delivers c m okm → (∀ a, okm a = false → Delivers c (k a) ok) → (∀ a, okm a = true → Ends (k a) ok) →
  Delivers c (m ≫= k) ok.
Proof.
  intros Hm Hk He s r s' Hinv Hl. unfold mbind, C_bind. destruct (m s) as [[a|e] s1] eqn:E.
  - destruct (Hm _ _ _ Hinv Hl E) as [Hinv1 H1]. destruct (okm a) eqn:Ea.
    + destruct (He a Ea s1) as (b & s2 & -> & Hb & Edb). intros [= <- <-]. rewrite Hb, Edb. split; [done|].
      destruct H1 as [now H1]. exists now. rewrite <- H1. unfold dispatches. by rewrite Edb.
    + intros H. destruct (Hk a Ea _ _ _ Hinv1 (live_same _ _ _ H1 Hl) H) as [Hinv' H2]. split; [done|].
      unfold Applied in *. by rewrite H1 in H2.
  - intros [= <- <-]. by apply (Hm _ _ _ Hinv Hl E).
Qed.

(** A computation that does not apply anything comes first. *)
Lemma delivers_first {A B} c (m : C A) (k : A → C B) ok :
  Delivers c m nothing → (∀ a, Delivers c (k a) ok) → Delivers c (m ≫= k) ok.
Proof. intros Hm Hk. by eapply delivers_bind. Qed.

(** The claim is applied last. *)
Lemma delivers_last {A B} c (m : C A) (k : A → C B) ok :
  Delivers c m (λ _, true) → (∀ a, Ends (k a) ok) → Delivers c (m ≫= k) ok.
Proof. intros Hm Hk. by eapply delivers_bind. Qed.

Lemma delivers_query {A B} c (q : delivery_db → answer A) (k : answer A → C B) ok :
  (∀ db f, q db ≠ Failed f) → (∀ a, (∀ f, a ≠ Failed f) → Delivers c (k a) ok) → Delivers c (query q ≫= k) ok.
Proof.
  intros Hq Hk s r s' Hinv Hl. unfold mbind, C_bind, Correlator.query. rewrite Hcalls. intros H.
  assert (Ed : dispatches (called env s) = dispatches s) by apply env_dispatches.
  eapply Hk in H as [Hinv' H]; [|apply Hq|by apply called_inv|by eapply live_same].
  split; [done|]. unfold Applied in *. by rewrite Ed in H.
Qed.

Lemma delivers_fresh {B} c (k : nat → C B) ok : (∀ n, Delivers c (k n) ok) → Delivers c (fresh_number ≫= k) ok.
Proof. intros Hk s r s' Hinv Hl H. exact (Hk _ s r s' Hinv Hl H). Qed.

Lemma delivers_apply c m : claimed_by c m → Delivers c (apply_plan m) (λ _, true).
Proof.
  intros (E1 & E2 & E3) s r s' Hinv Hl. unfold Correlator.apply_plan, commit. rewrite Hcalls.
  assert (Ed : dispatches (called env s) = dispatches s) by apply env_dispatches.
  assert (Hinv1 : ledger_inv (rn_db (called env s))) by (by apply called_inv).
  assert (Hh : ∀ d, claim_holds c d = holds_claim (cm_DeliveryID m) (cm_DispatchOwner m) (cm_DispatchClaimToken m) d).
  { intros d. unfold claim_holds. by rewrite E1, E2, E3. }
  destruct (ApplyCorrelatedDelivery _ m _ _) as [[a db']|e] eqn:E; intros [= <- <-].
  - split; [by eapply apply_inv|]. eexists. unfold dispatches at 1. simpl. rewrite (apply_dispatches _ _ _ _ _ _ Hinv1 E).
    fold (dispatches (called env s)). rewrite Ed. apply update_rows_ext. intros d _. by rewrite Hh.
  - split; [done|]. split; [done|]. destruct e; try done. exfalso.
    refine (apply_not_lost _ m _ _ Hinv1 _ E). apply held_row. destruct Hl as [Hin Hc]. exists c.2.
    split; [unfold dispatches in Ed; by rewrite Ed|by rewrite <- Hh].
Qed.

Lemma delivers_mutation {B} c inc occ kind req (k : CorrelatedDeliveryMutation → C B) ok :
  (∀ m, claimed_by c m → Delivers c (k m) ok) → Delivers c (correlatedDeliveryMutation input_id c inc occ kind req ≫= k) ok.
Proof.
  intros Hk s r s' Hinv Hl. unfold mbind at 1, C_bind at 1. destruct (correlatedDeliveryMutation _ _ _ _ _ _ s) as [[m|e] s1] eqn:E.
  - apply mutation_ok in E as [-> Hp]. apply (Hk m); [|done|done]. by destruct Hp as (? & ? & ? & _).
  - intros [= <- <-]. revert E. unfold correlatedDeliveryMutation. destruct (dp_LeaseOwner _); [|by intros [= <- <-]].
    case_match; [by intros [= <- <-]|done].
Qed.

Lemma delivers_refused c m : Delivers c m id → Delivers c (unless_refused m) id.
Proof.
  intros Hm s r s' Hinv Hl. unfold unless_refused, mbind, C_bind, try_. destruct (m s) as [r1 s1] eqn:E.
  pose proof (Hm _ _ _ Hinv Hl E) as [Hinv1 H1]. destruct r1 as [b|e]; [by intros [= <- <-]|].
  destruct e as [|f|[]]; intros [= <- <-]; (split; [done|]); by destruct H1.
Qed.

Lemma ends_ret {A} (a : A) ok : ok a = true → Ends (mret a) ok.
Proof. intros H s. by exists a, s. Qed.

Lemma ends_audit {A} (b : bool) kind i (a : A) ok :
  ok a = true → Ends (_ ← (if b then mret tt else audit kind i); mret a) ok.
Proof. intros H s. destruct b; by eexists _, _. Qed.

Lemma delivers_existing c inc kind req :
  Delivers c (applyExistingIncidentDeliveryPlan env fails input_id clock c inc kind req) (λ _, true).
Proof. apply delivers_mutation. intros m. apply delivers_apply. Qed.

Lemma delivers_existing_then {B} c inc kind req (b : B) ok :
  ok b = true → Delivers c (_ ← applyExistingIncidentDeliveryPlan env fails input_id clock c inc kind req; mret b) ok.
Proof. intros H. eapply delivers_last; [apply delivers_existing|]. intros _. by apply ends_ret. Qed.

Lemma found_not_failed {A} (o : option A) f : found o ≠ Failed f.
Proof. by destruct o. Qed.

#[local] Hint Resolve delivers_ret delivers_throw delivers_existing_then delivers_refused found_not_failed : core.

Lemma delivers_member c a : Delivers c (applyResolvedMembershipDeliveryPlan env fails input_id clock c a) id.
Proof. apply delivers_query; [auto|]. intros [inc| |f] Hf; [auto|auto|by destruct (Hf f)]. Qed.

Lemma delivers_new c a gk : Delivers c (applyFreshIncidentDeliveryPlan cfg env fails input_id incident_id clock c a gk) (λ _, true).
Proof. apply delivers_fresh. intros n. auto. Qed.

Lemma delivers_resolved c a gk : Delivers c (applyResolvedDeliveryPlan cfg env fails input_id incident_id clock c a gk) (λ _, true).
Proof. apply delivers_query; [auto|]. intros [inc| |f] Hf; [auto|apply delivers_new|by destruct (Hf f)]. Qed.

Lemma delivers_retry c a gk : Delivers c (applyRetryAttachDeliveryPlan env fails input_id clock c a gk) id.
Proof.
  apply delivers_query; [auto|]. intros [inc| |f] Hf; [|auto|auto]. apply delivers_query; [done|].
  intros [ms| |f'] Hf'; [|auto|auto]. case_match; [auto|]. apply delivers_mutation. intros m Hm.
  apply delivers_refused. eapply delivers_last; [by apply delivers_apply|]. intros r. by apply ends_audit.
Qed.

Lemma delivers_judged c a gk inc b latest : Delivers c (judge_recurrence cfg env fails a gk inc b latest) nothing.
Proof.
  unfold judge_recurrence. case_match; [auto|]. apply delivers_query; [done|]. intros [n| |f] _; [|auto|auto].
  apply delivers_query; [done|]. intros [ts| |f] _; auto.
Qed.

Lemma delivers_planned c a gk : Delivers c (planDeliveryRecurrence cfg env fails a gk) nothing.
Proof.
  apply delivers_query; [auto|]. intros [inc| |f] _; [|auto|auto]. apply delivers_query; [done|].
  intros [ms| |f'] _; [|auto|auto]. cbv zeta. case_match; [auto|]. apply delivers_query; [auto|].
  intros [o| |f'] _; [apply delivers_judged..|auto].
Qed.

Lemma delivers_recurrence c a gk : Delivers c (applyRecurrenceDeliveryPlan cfg env fails input_id clock c a gk) id.
Proof.
  apply delivers_first; [apply delivers_planned|]. intros [plan|]; [|auto]. apply delivers_mutation. intros m Hm.
  apply delivers_refused. eapply delivers_last; [by apply delivers_apply|]. intros r s.
  destruct (pl_isNewOccurrence _ && _); by eexists _, _.
Qed.

Lemma delivers_if {A} c (b : bool) (m : C A) a ok : Delivers c m ok → ok a = false → Delivers c (if b then m else mret a) ok.
Proof. destruct b; auto. Qed.

Lemma delivers_ApplyDelivery c : Delivers c (ApplyDelivery c) (λ _, true).
Proof.
  unfold Correlator.ApplyDelivery. case_match; [auto|]. unfold applyDeliveryPlan.
  eapply delivers_bind; [apply delivers_if; [apply delivers_member|done]|intros [] ?; [done|]|intros [] ?; [by apply ends_ret|done]].
  apply delivers_query; [auto|]. intros [inc| |f] Hf; [auto| |by destruct (Hf f)].
  case_match; [apply delivers_resolved|].
  eapply delivers_bind; [apply delivers_if; [apply delivers_retry|done]|intros [] ?; [done|]|intros [] ?; [by apply ends_ret|done]].
  eapply delivers_bind; [apply delivers_if; [apply delivers_recurrence|done]|intros [] ?; [done|]|intros [] ?; [by apply ends_ret|done]].
  apply delivers_new.
Qed.

(** ** A round *)

(** The clock is past the zero time. *)
Context (Hclock : ∀ n, (0 < clock n)%Z).

(** What a round leaves of a row [d] it claimed. *)
Definition settled_row (d e : AlertDispatch) : Prop :=
  dp_DeliveryID e = dp_DeliveryID d ∧ dp_AttemptCount e = dp_AttemptCount d ∧
  (dp_Status e = DispatchApplied
   ∨ (dp_Status e = DispatchFailed
      ∧ (dp_LastErrorClass e = Some "invalid_delivery" ∨ (wc_MaxAttempts wcfg ≤ dp_AttemptCount d)%Z))
   ∨ (dp_Status e = DispatchPending ∧ (dp_AttemptCount d < wc_MaxAttempts wcfg)%Z
      ∧ ∃ n b, dp_RetryAt e = Some (Add (clock n) b) ∧ (Second ≤ b ≤ dispatchRetryCap)%Z)).

(** A claim as the store hands it out. *)
Definition full_claim (c : claim_row) : Prop :=
  blank (ad_ID c.1) = false ∧ (0 < dp_ClaimToken c.2)%Z ∧ dp_DeliveryID c.2 = ad_ID c.1
  ∧ match dp_LeaseOwner c.2 with Some o => blank o = false | None => False end.

Lemma claim_holds_row c d : claim_holds c d = true → dp_DeliveryID d = ad_ID c.1.
Proof. unfold claim_holds. destruct (dp_LeaseOwner c.2); [|done]. by intros (? & _)%holds_claim_spec. Qed.

Lemma held_is_row c d s :
  ledger_inv (rn_db s) → claim_live c s → d ∈ dispatches s → claim_holds c d = true → d = c.2.
Proof.
  intros Hinv [Hin Hc] Hd H. apply (NoDup_fmap_inj dp_DeliveryID (dispatches s)); [by apply dispatch_ids_nodup|done..|].
  by rewrite (claim_holds_row _ _ H), (claim_holds_row _ _ Hc).
Qed.

Lemma retry_ok db c class at_ terminal :
  full_claim c → validateErrorClass class = Ok tt → (terminal || negb (IsZero at_)) = true →
  c.2 ∈ d_dispatches db → claim_holds c c.2 = true →
  RetryAlertDispatch db c class at_ terminal =
    Ok (set_dispatches (update_rows (claim_holds c) (released_dispatch class (if terminal then None else Some at_)) (d_dispatches db)) db).
Proof.
  intros (Hb & Ht & _ & Ho) Hclass Hat Hin Hc. unfold RetryAlertDispatch, claim_holds in *.
  destruct (dp_LeaseOwner c.2) as [o|]; [|done]. rewrite Hb, Ho, (proj2 (Z.ltb_lt _ _) Ht). simpl. rewrite Hclass. simpl.
  unfold check. rewrite Hat. simpl. replace (existsb _ _) with true; [done|]. symmetry. apply existsb_exists.
  exists c.2. by rewrite <- list_elem_of_In.
Qed.

Lemma class_valid e : validateErrorClass (dispatchErrorClass e).1 = Ok tt.
Proof. destruct e as [| |[]]; reflexivity. Qed.

Lemma class_final e : (dispatchErrorClass e).2 = true → (dispatchErrorClass e).1 = "invalid_delivery".
Proof. by destruct e as [| |[]]. Qed.

Lemma applyOne_ok c s r s' :
  ledger_inv (rn_db s) → claim_live c s → full_claim c → applyOne c s = (r, s') →
  r = Ok None ∧ ledger_inv (rn_db s') ∧
  ∃ f, dispatches s' = update_rows (claim_holds c) f (dispatches s) ∧ settled_row c.2 (f c.2).
Proof.
  intros Hinv Hl Hfull. unfold Correlator.applyOne, mbind, C_bind, try_. destruct (ApplyDelivery c s) as [r1 s1] eqn:E.
  destruct (delivers_ApplyDelivery c _ _ _ Hinv Hl E) as [Hinv1 H1]. destruct r1 as [[]|e].
  - intros [= <- <-]. split; [done|]. split; [done|]. destruct H1 as [now H1]. eexists. split; [exact H1|]. split; [done|]. split; [done|]. by left.
  - destruct H1 as [Ed1 Hstop]. rewrite Hstop. destruct (dispatchErrorClass e) as [class final] eqn:Ecl.
    pose proof (live_same _ _ _ Ed1 Hl) as Hl1. assert (Ed2 : dispatches (called env s1) = dispatches s1) by apply env_dispatches.
    pose proof (live_same _ _ _ Ed2 Hl1) as [Hin2 Hc2]. pose proof (called_inv _ Hinv1) as Hinv2.
    assert (Hclass : validateErrorClass class = Ok tt) by (pose proof (class_valid e) as H; by rewrite Ecl in H).
    set (terminal := final || (wc_MaxAttempts wcfg <=? dp_AttemptCount c.2)%Z).
    set (at_ := if terminal then clock (rn_calls s1) else Add (clock (rn_calls s1)) (dispatchRetryBackoff (dp_AttemptCount c.2))).
    assert (Hat : terminal || negb (IsZero at_) = true).
    { unfold at_. destruct terminal; [done|]. simpl. unfold IsZero, Add. apply negb_true_iff, Z.eqb_neq.
      pose proof (Hclock (rn_calls s1)). pose proof (backoff_bounds (dp_AttemptCount c.2)). unfold Second in *. lia. }
    pose proof (retry_ok (rn_db (called env s1)) c class at_ terminal Hfull Hclass Hat Hin2 Hc2) as Hretry.
    unfold fresh_number, commit, mret, C_ret. simpl. rewrite Hcalls. fold terminal. fold at_. simpl in Hretry. rewrite Hretry.
    intros [= <- <-]. split; [done|]. split; [by eapply dispatch_retry_inv|].
    eexists. split; [unfold dispatches in *; simpl in *; by rewrite Ed2, Ed1|].
    split; [done|]. split; [done|]. right. unfold terminal, at_. destruct final; simpl.
    + left. split; [done|]. left. f_equal. pose proof (class_final e) as H. rewrite Ecl in H. by apply H.
    + destruct (Z.leb_spec (wc_MaxAttempts wcfg) (dp_AttemptCount c.2)); simpl; [left; auto|]. right. split; [done|]. split; [done|].
      eexists _, _. split; [unfold terminal; simpl; done|]. apply backoff_bounds.
Qed.

Definition claim_ids (cs : list claim_row) : list string := (λ c : claim_row, ad_ID c.1) <$> cs.

(** What a list of claims leaves of a row. *)
Definition handled_row (ids : list string) (d e : AlertDispatch) : Prop :=
  (dp_DeliveryID d ∈ ids ∧ settled_row d e) ∨ ((dp_DeliveryID d ∉ ids) ∧ e = d).

Lemma Forall2_update {A} (P : A → bool) (f : A → A) (l : list A) :
  Forall2 (λ d e : A, d ∈ l ∧ e = if P d then f d else d) l (update_rows P f l).
Proof. unfold update_rows. apply Forall2_fmap_r, Forall_Forall2_diag, Forall_forall. auto. Qed.

Lemma live_other c c' f s s1 :
  dispatches s1 = update_rows (claim_holds c) f (dispatches s) → ad_ID c.1 ≠ ad_ID c'.1 → claim_live c' s → claim_live c' s1.
Proof.
  intros E Hne [Hin Hc]. split; [|done]. rewrite E. apply elem_of_update_rows. exists c'.2. split; [done|].
  destruct (claim_holds c c'.2) eqn:Eh; [|done]. apply claim_holds_row in Eh. apply claim_holds_row in Hc. congruence.
Qed.

Lemma apply_each_ok cs s r s' :
  ledger_inv (rn_db s) → NoDup (claim_ids cs) → (∀ c, c ∈ cs → claim_live c s ∧ full_claim c) → apply_each cs s = (r, s') →
  r = Ok (length cs, None) ∧ ledger_inv (rn_db s') ∧ Forall2 (handled_row (claim_ids cs)) (dispatches s) (dispatches s').
Proof.
  revert s r s'. induction cs as [|c cs IH]; intros s r s' Hinv Hnd Hcs; simpl.
  { intros [= <- <-]. split; [done|]. split; [done|]. apply Forall_Forall2_diag, Forall_forall. intros d _. right. set_solver. }
  apply NoDup_cons in Hnd as [Hnc Hnd]. destruct (Hcs c) as [Hl Hf]; [by left|]. unfold mbind at 1, C_bind at 1.
  destruct (applyOne c s) as [r1 s1] eqn:E1. destruct (applyOne_ok _ _ _ _ Hinv Hl Hf E1) as (-> & Hinv1 & f & Ef & Hs).
  unfold mbind, C_bind. destruct (apply_each cs s1) as [r2 s2] eqn:E2.
  assert (Hcs1 : ∀ c', c' ∈ cs → claim_live c' s1 ∧ full_claim c').
  { intros c' Hc'. destruct (Hcs c') as [Hl' Hf']; [by right|]. split; [|done]. eapply live_other; [exact Ef| |done].
    intros Eq. destruct Hnc. rewrite Eq. by apply (list_elem_of_fmap_2 (λ c : claim_row, ad_ID c.1)). }
  destruct (IH _ _ _ Hinv1 Hnd Hcs1 E2) as (-> & Hinv2 & F2). intros [= <- <-]. split; [done|]. split; [done|]. rewrite Ef in F2.
  eapply Forall2_trans; [|apply Forall2_update|exact F2]. intros d e1 e2 [Hd ->] H2.
  destruct (claim_holds c d) eqn:Eh.
  - pose proof (held_is_row c d s Hinv Hl Hd Eh) as ->. left. split; [rewrite (claim_holds_row _ _ Eh); by left|].
    destruct Hs as [Eid Hs]. destruct H2 as [[H2 _]|[_ ->]]; [|by split].
    exfalso. destruct Hnc. by rewrite <- (claim_holds_row _ _ Eh), <- Eid.
  - destruct H2 as [[? ?]|[? ->]]; [left; split; [by right|done]|]. right. split; [|done]. unfold claim_ids. simpl.
    intros [Eq|?]%elem_of_cons; [|done]. destruct Hl as [Hin Hc]. apply not_true_iff_false in Eh. destruct Eh.
    rewrite (NoDup_fmap_inj dp_DeliveryID (dispatches s) d c.2); [done|by apply dispatch_ids_nodup|done|done|].
    by rewrite (claim_holds_row _ _ Hc).
Qed.

(** ** What a round claims *)

Context (Howner : blank (wc_Owner wcfg) = false) (Hlease : (0 < wc_Lease wcfg)%Z) (Hbatch : (0 < wc_Batch wcfg)%Z).

(** The identities of the deliveries are not blank: accepting checks it. *)
Definition all_named (db : delivery_db) : Prop := Forall (λ d, blank (dp_DeliveryID d) = false) (d_dispatches db).

Lemma dispatch_rows_spec db c :
  c ∈ dispatch_rows db ↔ c.2 ∈ d_dispatches db ∧ find_delivery db (dp_DeliveryID c.2) = Some c.1.
Proof.
  unfold dispatch_rows. rewrite list_elem_of_omap. split.
  - intros (d & Hd & E). destruct (find_delivery db _) as [a|] eqn:Ea; [|done]. by injection E as <-.
  - intros [Hd E]. exists c.2. rewrite E. by destruct c.
Qed.

Lemma row_delivery db c : c ∈ dispatch_rows db → ad_ID c.1 = dp_DeliveryID c.2.
Proof. intros [_ E]%dispatch_rows_spec. by apply (find_key ad_ID) in E as [_ E]. Qed.

Lemma dispatch_rows_ids db : sublist (claim_ids (dispatch_rows db)) (dp_DeliveryID <$> d_dispatches db).
Proof.
  unfold dispatch_rows. induction (d_dispatches db) as [|d l IH]; simpl; [constructor|].
  destruct (find_delivery db (dp_DeliveryID d)) as [a|] eqn:E; simpl; [|by constructor].
  apply (find_key ad_ID) in E as [_ ->]. by constructor.
Qed.

Lemma row_found db d : ledger_inv db → d ∈ d_dispatches db → ∃ a, (a, d) ∈ dispatch_rows db.
Proof.
  intros Hinv Hd. assert (Hin : dp_DeliveryID d ∈ ad_ID <$> d_deliveries db).
  { rewrite <- (li_dispatches _ Hinv). by apply list_elem_of_fmap_2. }
  destruct (find_delivery db (dp_DeliveryID d)) as [a|] eqn:E; [exists a; by apply dispatch_rows_spec|].
  by apply (find_key_none ad_ID) in E.
Qed.

Section claim.
Context (db : delivery_db) (now : Time) (Hinv : ledger_inv db) (Hnamed : all_named db).

Let ids := due_ids db now (wc_Batch wcfg).
Let until := Add now (wc_Lease wcfg).
Let db' := set_dispatches (update_rows (among ids) (claimed_dispatch (wc_Owner wcfg) until) (d_dispatches db)) db.
Let claims := loadClaimedDispatchesTx db' ids (wc_Owner wcfg).

Lemma claim_answer : ClaimAlertDispatches db (wc_Owner wcfg) now (wc_Lease wcfg) (wc_Batch wcfg) = Ok (claims, db').
Proof.
  unfold ClaimAlertDispatches. rewrite Howner, (proj2 (Z.ltb_lt _ _) Hlease), (proj2 (Z.ltb_lt _ _) Hbatch). done.
Qed.

Lemma claim_round_inv : ledger_inv db'.
Proof. eapply dispatch_claim_inv; [exact Hinv|apply claim_answer]. Qed.

Lemma claims_spec c : c ∈ claims ↔
  c ∈ dispatch_rows db' ∧ among ids c.2 = true ∧ dp_Status c.2 = DispatchClaimed ∧ dp_LeaseOwner c.2 = Some (wc_Owner wcfg).
Proof.
  unfold claims, loadClaimedDispatchesTx. rewrite SliceStable_perm, elem_of_select_rows. unfold is_dispatch.
  rewrite !andb_true_iff, !bool_decide_eq_true. tauto.
Qed.

Lemma claims_nodup : NoDup (claim_ids claims).
Proof.
  unfold claim_ids, claims, loadClaimedDispatchesTx. rewrite SliceStable_perm. apply NoDup_fmap_select.
  eapply sublist_NoDup; [|apply dispatch_rows_ids]. apply dispatch_ids_nodup, claim_round_inv.
Qed.

Lemma among_in d : among ids d = true ↔ dp_DeliveryID d ∈ ids.
Proof.
  unfold among. rewrite existsb_exists. split; [intros (x & Hx & E); go_bool; by rewrite list_elem_of_In, E|].
  intros H. exists (dp_DeliveryID d). rewrite <- list_elem_of_In, str_eqb_refl. done.
Qed.

Lemma claim_ids_spec id : id ∈ claim_ids claims ↔ id ∈ ids.
Proof.
  unfold claim_ids. rewrite list_elem_of_fmap. split.
  - intros (c & -> & (Hc & Ha & _)%claims_spec). rewrite (row_delivery _ _ Hc). by apply among_in.
  - intros Hid. destruct (due_ids_due _ _ _ _ Hid) as (d & Hd & <- & _).
    destruct (row_found db' (claimed_dispatch (wc_Owner wcfg) until d)) as [a Ha]; [apply claim_round_inv| |].
    + apply elem_of_update_rows. exists d. by rewrite (proj2 (among_in d) Hid).
    + exists (a, claimed_dispatch (wc_Owner wcfg) until d). split; [by rewrite (row_delivery _ _ Ha)|].
      apply claims_spec. split; [done|]. split; [by apply among_in|done].
Qed.

Lemma claims_full s c : rn_db s = db' → c ∈ claims → claim_live c s ∧ full_claim c.
Proof.
  intros Es (Hc & Ha & Hst & Ho)%claims_spec. pose proof (row_delivery _ _ Hc) as Eid.
  apply dispatch_rows_spec in Hc as [Hin _]. pose proof Hin as Hin'. apply elem_of_update_rows in Hin' as (d & Hd & E).
  assert (Hamong : among ids d = true).
  { apply among_in. apply among_in in Ha. rewrite E in Ha. by destruct (among ids d). }
  rewrite Hamong in E. pose proof (li_rows _ Hinv) as Hrows. rewrite Forall_forall in Hrows.
  split.
  - split; [unfold dispatches; by rewrite Es|]. unfold claim_holds. rewrite Ho. by apply holds_claim_spec.
  - unfold full_claim. rewrite Ho, Eid. unfold all_named in Hnamed. rewrite Forall_forall in Hnamed. rewrite E. simpl.
    split; [by apply Hnamed|]. split; [|done]. pose proof (do_token _ (Hrows d Hd)). lia.
Qed.

Lemma nothing_due : ids = [] → Forall (λ d, dispatch_due now d = false) (d_dispatches db).
Proof.
  intros E. apply Forall_forall. intros d Hd. apply not_true_is_false. intros Hdue. destruct (row_found db d Hinv Hd) as [a Ha].
  assert (Hin : (a, d) ∈ SliceStable dispatch_ltb (select_rows (λ r : claim_row, dispatch_due now r.2) (dispatch_rows db))).
  { by rewrite SliceStable_perm, elem_of_select_rows. }
  unfold ids, due_ids in E. apply fmap_nil_inv in E. destruct (SliceStable _ _) as [|x l]; [set_solver|].
  destruct (Z.to_nat (wc_Batch wcfg)) eqn:En; [lia|done].
Qed.
End claim.

(** ** The work left *)

(** How many more claims a row can see: none once it is applied or failed. *)
Definition work (d : AlertDispatch) : nat :=
  match dp_Status d with
  | DispatchApplied | DispatchFailed => 0
  | _ => 1 + Z.to_nat (wc_MaxAttempts wcfg - dp_AttemptCount d)
  end.

Definition backlog (db : delivery_db) : nat := sum_list (work <$> d_dispatches db).

Lemma settled_work d e owner until now :
  dispatch_due now d = true → settled_row (claimed_dispatch owner until d) e → (work e < work d)%nat.
Proof.
  intros Hd%dispatch_due_status (_ & Ha & Hs). simpl in *.
  assert (Ew : work d = S (Z.to_nat (wc_MaxAttempts wcfg - dp_AttemptCount d))) by (unfold work; by destruct Hd as [-> | ->]).
  rewrite Ew. unfold work. rewrite Ha. destruct Hs as [->|[[-> _]|(-> & Hlt & _)]]; lia.
Qed.

Lemma backlog_le (l l' : list AlertDispatch) :
  Forall2 (λ d e, work e ≤ work d)%nat l l' →
  (sum_list (work <$> l') ≤ sum_list (work <$> l))%nat
  ∧ (sum_list (work <$> l') = sum_list (work <$> l) → Forall2 (λ d e, work e = work d) l l').
Proof.
  unfold sum_list. induction 1 as [|d e l l' Hde _ [IH1 IH2]]; [by split|]. cbn in *. unfold id. split; [lia|]. intros E.
  constructor; [lia|]. apply IH2. lia.
Qed.

(** What a worker leaves of a row it took. *)
Definition rested (e : AlertDispatch) : Prop :=
  dp_Status e = DispatchApplied
  ∨ (dp_Status e = DispatchFailed ∧ (dp_LastErrorClass e = Some "invalid_delivery" ∨ (wc_MaxAttempts wcfg ≤ dp_AttemptCount e)%Z))
  ∨ (dp_Status e = DispatchPending ∧ (dp_AttemptCount e < wc_MaxAttempts wcfg)%Z
     ∧ ∃ n b, dp_RetryAt e = Some (Add (clock n) b) ∧ (Second ≤ b ≤ dispatchRetryCap)%Z).

Definition worked_row (d e : AlertDispatch) : Prop := dp_DeliveryID e = dp_DeliveryID d ∧ (e = d ∨ rested e).

#[local] Instance worked_row_preorder : PreOrder worked_row.
Proof.
  split; [intros d; split; auto|]. intros d e f [E1 H1] [E2 H2]. split; [congruence|].
  destruct H2 as [->|]; auto.
Qed.

Lemma settled_rested d e : settled_row d e → dp_DeliveryID e = dp_DeliveryID d ∧ rested e.
Proof. unfold settled_row, rested. by intros (? & -> & ?). Qed.

Lemma RunOnce_ok s r s' :
  ledger_inv (rn_db s) → all_named (rn_db s) → RunOnce s = (r, s') →
  ∃ k, r = Ok (k, None) ∧ ledger_inv (rn_db s') ∧ Forall2 worked_row (dispatches s) (dispatches s')
    ∧ if (k =? 0)%nat
      then rn_calls s' = S (rn_calls s) ∧ Forall (λ d, dispatch_due (clock (rn_calls s)) d = false) (dispatches s')
      else (backlog (rn_db s') < backlog (rn_db s))%nat.
Proof.
  intros Hinv Hnamed. unfold Correlator.RunOnce, mbind, C_bind, try_, commit. rewrite Hcalls.
  set (now := clock (rn_calls s)). pose proof (env_dispatches (rn_calls s) (rn_db s)) as Ed.
  set (db := env (rn_calls s) (rn_db s)) in *. assert (Hinv1 : ledger_inv db) by (apply called_inv, Hinv).
  assert (Hn1 : all_named db) by (unfold all_named; by rewrite Ed). change (rn_db (called env s)) with db.
  rewrite (claim_answer db now). simpl.
  set (ids := due_ids db now (wc_Batch wcfg)). set (db1 := set_dispatches _ db). set (cs := loadClaimedDispatchesTx _ _ _).
  set (s1 := {| rn_calls := _ |}). intros H.
  destruct (apply_each_ok cs s1 r s' (claim_round_inv db now Hinv1) (claims_nodup db now Hinv1)) with (2 := H) as (-> & Hinv' & F).
  { intros c Hc. by eapply (claims_full db now Hinv1 Hn1). }
  pose proof (claim_ids_spec db now Hinv1) as Hids. fold ids db1 cs in Hids.
  assert (F1 : Forall2 (λ d e, (dispatch_due now d = true ∧ dp_DeliveryID d ∈ ids
                               ∧ ∃ owner until, settled_row (claimed_dispatch owner until d) e) ∨ ((dp_DeliveryID d ∉ ids) ∧ e = d))
                 (dispatches s) (dispatches s')).
  { unfold dispatches at 1. rewrite <- Ed. eapply Forall2_trans; [|apply Forall2_update|exact F]. intros d e1 e2 [Hd ->] H2.
    unfold handled_row in H2. rewrite Hids in H2. destruct (among ids d) eqn:Ea.
    - left. split; [exact (among_due db now _ d Hinv1 Hd Ea)|]. apply (among_in db now) in Ea. destruct H2 as [[_ H2]|[H2 _]]; [|done]. eauto.
    - right. assert (Hn : dp_DeliveryID d ∉ ids) by (intros Hin%(among_in db now); apply not_true_iff_false in Ea; by destruct Ea). by destruct H2 as [[? _]|[_ ->]]. }
  exists (length cs). split; [done|]. split; [done|]. split.
  { eapply Forall2_impl; [exact F1|]. intros d e [(_ & _ & o & u & H1)|[_ ->]]; [|reflexivity].
    apply settled_rested in H1 as [H1 ?]. split; [done|by right]. }
  destruct cs as [|c cs'] eqn:Ecs; simpl.
  - assert (Hnone : ids = []).
    { apply elem_of_nil_inv. intros id Hid. apply Hids in Hid. by apply not_elem_of_nil in Hid. }
    split; [by injection H as <-|]. pose proof (nothing_due db now Hinv1 Hn1 Hnone) as Hd. rewrite Ed in Hd.
    assert (Es : dispatches s' = dispatches s).
    { symmetry. apply list_eq_Forall2. eapply Forall2_impl; [exact F1|]. intros d e [(_ & Hin & _)|[_ ->]]; [|done].
      rewrite Hnone in Hin. by apply not_elem_of_nil in Hin. }
    by rewrite Es.
  - assert (Hle : Forall2 (λ d e, work e ≤ work d)%nat (dispatches s) (dispatches s')).
    { eapply Forall2_impl; [exact F1|]. intros d e [(Hd & _ & o & u & H1)|[_ ->]]; [|done]. apply Nat.lt_le_incl. by eapply settled_work. }
    apply backlog_le in Hle as [Hle Heq]. fold (backlog (rn_db s')) (backlog (rn_db s)) in Hle, Heq.
    apply Nat.le_neq. split; [exact Hle|]. intros E. apply Heq in E.
    assert (Hin : ad_ID c.1 ∈ ids) by (apply Hids; by left).
    destruct (due_ids_due db now _ _ Hin) as (d & Hd & Eid & _). rewrite Ed in Hd. apply list_elem_of_lookup in Hd as [i Hi].
    destruct (Forall2_lookup_l _ _ _ _ _ F1 Hi) as (e & He & [(Hdue & _ & o & u & H1)|[Hn _]]); [|by rewrite Eid in Hn].
    pose proof (Forall2_lookup_lr _ _ _ _ _ _ E Hi He) as Ew. pose proof (settled_work _ _ _ _ _ Hdue H1). simpl in *. lia.
Qed.

Lemma named_kept s s' : Forall2 worked_row (dispatches s) (dispatches s') → all_named (rn_db s) → all_named (rn_db s').
Proof.
  intros F Hn. apply Forall_forall. intros e [i Hi]%list_elem_of_lookup. destruct (Forall2_lookup_r _ _ _ _ _ F Hi) as (d & Hd & [-> _]).
  unfold all_named in Hn. rewrite Forall_forall in Hn. apply Hn. by eapply list_elem_of_lookup_2.
Qed.

(** C13. While no call to the store fails and the others touch no Alert, delivery,
    dispatch, membership, owner or occurrence (they may move Incidents on and add
    inputs), draining ends within one round more than the work that is left, and
    without an error.  The row of
    every delivery it took is applied, or failed because the delivery is invalid
    or was claimed the most times allowed, or waits for a retry between a second
    and five minutes after the failure; and when it returns nothing was due at
    its last look.  (A call that fails ends the drain with its error.) *)
Theorem Drain_drains fuel s :
  ledger_inv (rn_db s) → all_named (rn_db s) → (backlog (rn_db s) < fuel)%nat →
  ∃ n s', Drain fuel s = (Ok (Some (n, None)), s') ∧ Forall2 worked_row (dispatches s) (dispatches s')
    ∧ ∃ k, rn_calls s' = S k ∧ Forall (λ d, dispatch_due (clock k) d = false) (dispatches s').
Proof.
  revert s. induction fuel as [|fuel IH]; intros s Hinv Hn Hf; [lia|]. simpl. unfold mbind at 1, C_bind at 1.
  destruct (RunOnce s) as [r s1] eqn:E. destruct (RunOnce_ok _ _ _ Hinv Hn E) as (k & -> & Hinv1 & F & Hk).
  destruct (k =? 0)%nat eqn:Ek.
  - destruct Hk as [Ec Hd]. eexists _, s1. split; [done|]. split; [done|]. by eexists.
  - destruct (IH s1 Hinv1 (named_kept _ _ F Hn)) as (n & s' & Hrun & F' & Hend); [lia|]. unfold mbind, C_bind. rewrite Hrun.
    eexists _, s'. split; [done|]. split; [|done]. eapply Forall2_trans; [|exact F|exact F']. intros d e f ? ?. by etrans.
Qed.
End worker.
