(* ===== verification/LedgerExample.v ===== *)
(** A service goes down, is triaged, recovers: the delivery ledger at work.

    The tables after each step of a small history, computed by the model; the
    theorems of DeliveryLedger.v, Correlator.v and DispatchWorker.v are applied
    at them, and the behaviours worth knowing are run on them. *)

From stdpp Require Import prelude strings list gmap sorting pretty.
From S2P Require Import Prelude SituationModel TriageStore ErrorClass Deliveries DeliveryLedger Correlator DispatchWorker.

Definition ok_or {A} (d : A) (r : result delivery_error A) : A := match r with Ok a => a | Err _ => d end.

Definition labels_of (name : string) : gmap string string := <["alertname" := name]> (<["severity" := "critical"]> ∅).

Definition alert_at (id fp name status : string) (t : Time) : Alert :=
  {| al_ID := id; al_Fingerprint := fp; al_Status := status; al_Labels := labels_of name; al_Annotations := ∅;
     al_StartsAt := t; al_EndsAt := None; al_ReceivedAt := t; al_GroupingIdentity := "db-1" |}.

Definition input_of (id : string) (a : Alert) (started : Time) : DeliveryInput :=
  {| di_ID := id; di_Alert := a; di_Source := "alertmanager"; di_SourceEventID := None; di_SourceEpisodeKey := al_Fingerprint a;
     di_SourceStartedAt := Some started; di_SourceResolvedAt := None; di_StartedAtBasis := SourceTimeBasisSourcePayload;
     di_ResolvedAtBasis := SourceTimeBasisMissing; di_GroupingIdentity := "db-1"; di_PayloadDigest := "digest";
     di_Provenance := {| sp_InstanceID := None; sp_SignalID := None; sp_SignalVersion := None; sp_GeneratorURL := "";
                         sp_AcquisitionMode := SourceAcquisitionWebhook; sp_PollIntervalSeconds := 0 |} |}.

Definition at_s (n : Z) : Time := (n * Second)%Z.

Definition config : Config :=
  defaults {| cfg_WindowSeconds := 0; cfg_TickInterval := 0; cfg_GroupLabels := []; cfg_AttachWindow := 0;
              cfg_JudgmentCeiling := 0; cfg_OccurrenceCap := 0; cfg_Lookback := 0 |}%Z.
Definition worker : WorkerConfig :=
  withDefaults {| wc_Owner := "worker"; wc_Lease := 0; wc_Interval := 0; wc_Batch := 0; wc_MaxAttempts := 0 |}%Z.

Definition alone : nat → delivery_db → delivery_db := λ _ db, db.
Definition never : nat → option call_failure := λ _, None.
Definition ids_from (p : string) (k : nat) : nat → string := λ n, p +:+ pretty (k + n)%nat.

(** A run of the worker alone, at a time of its own. *)
Definition start (db : delivery_db) : run := {| rn_calls := 0; rn_db := db; rn_audit := [] |}.
Definition drained (k : nat) (now : Time) (db : delivery_db) : delivery_db :=
  rn_db (Drain config alone never (ids_from "in-" k) (ids_from "inc-" k) (λ _, now) worker 10 (start db)).2.

(** The fall, its delivery applied, the window closed, the Triage done. *)
Definition down : DeliveryInput := input_of "d1" (alert_at "a1" "fp1" "Down" "firing" (at_s 100)) (at_s 90).
Definition db_down : delivery_db := (ok_or ([], empty_db) (AcceptDeliveries empty_db [down])).2.
Definition db_open : delivery_db := drained 0 (at_s 101) db_down.
Definition the_incident : Incident := default (fresh_incident config "" "" (di_Alert down)) (head (d_incidents db_open)).
Definition db_ready : delivery_db :=
  ok_or empty_db (MarkIncidentReadyWithSituationInput db_open (ic_ID the_incident) (at_s 170)).
Definition judged (db : delivery_db) : delivery_db :=
  set_triage ∅ (set_incidents (with_ic_status StatusAnalyzed <$> d_incidents db) db).
Definition db_judged : delivery_db := judged db_ready.


(** Another Alert of the group comes: an occurrence of the judged Incident. *)
Definition again : DeliveryInput := input_of "d2" (alert_at "a2" "fp2" "Down" "firing" (at_s 300)) (at_s 300).
Definition accepting (l : list DeliveryInput) (db : delivery_db) : delivery_db := (ok_or ([], db) (AcceptDeliveries db l)).2.
Definition db_again : delivery_db := accepting [again] db_judged.
Definition db_recurred : delivery_db := drained 10 (at_s 301) db_again.

(** Both recover; the second recovery is claimed. *)
Definition up1 : DeliveryInput := input_of "d3" (alert_at "a1" "fp1" "Down" "resolved" (at_s 400)) (at_s 90).
Definition up2 : DeliveryInput := input_of "d4" (alert_at "a2" "fp2" "Down" "resolved" (at_s 401)) (at_s 300).
Definition db_half : delivery_db := accepting [up2] (drained 20 (at_s 402) (accepting [up1] db_recurred)).
Definition claiming (owner : string) (now : Time) (db : delivery_db) : list claim_row * delivery_db :=
  ok_or ([], db) (ClaimAlertDispatches db owner now (60 * Second)%Z 16%Z).
Definition db_claimed : delivery_db := (claiming "worker" (at_s 403) db_half).2.
Definition the_claim (db : delivery_db) : claim_row :=
  default ({| ad_ID := ""; ad_Alert := di_Alert up2; ad_Source := ""; ad_SourceEventID := None; ad_SourceEpisodeKey := "";
              ad_SourceStartedAt := None; ad_SourceResolvedAt := None; ad_StartedAtBasis := SourceTimeBasisMissing;
              ad_ResolvedAtBasis := SourceTimeBasisMissing; ad_GroupingIdentity := ""; ad_PayloadDigest := "";
              ad_ReceivedAt := 0%Z; ad_Provenance := di_Provenance up2 |}, pending_dispatch "")
    (head (loadClaimedDispatchesTx db (dp_DeliveryID <$> d_dispatches db) "worker")).
Definition recovered_member (db : delivery_db) : CorrelatedDeliveryMutation :=
  let c := the_claim db in
  let i := default the_incident (GetCurrentIncidentByAlertID db (al_ID (ad_Alert c.1))) in
  {| cm_DeliveryID := ad_ID c.1; cm_DispatchOwner := "worker"; cm_DispatchClaimToken := dp_ClaimToken c.2; cm_Incident := i;
     cm_Occurrence := None;
     cm_Input := {| si_ID := "in-last"; si_IdempotencyKey := "delivery:" +:+ ad_ID c.1; si_IncidentID := ic_ID i;
                    si_DeliveryID := Some (ad_ID c.1); si_Kind := "membership_changed"; si_GroupKey := ic_GroupKey i;
                    si_OccurredAt := ad_ReceivedAt c.1 |};
     cm_RequireNonterminalOwner := true; cm_RequireTriageBackoff := false |}.
Definition the_apply (db : delivery_db) : CorrelatedDeliveryResult * delivery_db :=
  ok_or ({| cr_Incident := the_incident; cr_Created := false; cr_Occurrence := None; cr_Resolved := false; cr_Duplicate := false |}, db)
    (ApplyCorrelatedDelivery db (recovered_member db) (at_s 404) (at_s 404)).
Definition db_over : delivery_db := (the_apply db_claimed).2.

(** ** The books of the example *)

Lemma accepting_inv l db : ledger_inv db → ledger_inv (accepting l db).
Proof.
  intros H. unfold accepting. destruct (AcceptDeliveries db l) as [[ds db']|] eqn:E; [|done]. by eapply accept_inv.
Qed.

Lemma claiming_inv owner now db : ledger_inv db → ledger_inv (claiming owner now db).2.
Proof.
  intros H. unfold claiming. destruct (ClaimAlertDispatches _ _ _ _ _) as [[cs db']|] eqn:E; [|done]. by eapply dispatch_claim_inv.
Qed.

Lemma drained_inv k now db : ledger_inv db → ledger_inv (drained k now db).
Proof.
  intros H. unfold drained. destruct (Drain _ _ _ _ _ _ _ _ _) as [r s] eqn:E. eapply (ledger_inv_steps db); [done|].
  refine (follows_Drain _ _ _ _ _ _ _ transaction_step _ _ _ _ _ _ E). intros n d. apply rtc_refl.
Qed.

Lemma ready_inv id now db : ledger_inv db → ledger_inv (ok_or empty_db (MarkIncidentReadyWithSituationInput db id now)).
Proof.
  intros H. destruct (MarkIncidentReadyWithSituationInput db id now) as [db'|] eqn:E; [|apply ledger_inv_empty].
  eapply step_keeps_inv; [|exact H]. by eapply ls_ready.
Qed.

Lemma judged_keep db : others_keep db (judged db).
Proof.
  split; try done; [|exists []; by rewrite app_nil_r]. simpl. apply Forall2_fmap_r, Forall_Forall2_diag, Forall_forall.
  intros i _. by repeat split.
Qed.

Lemma judged_inv db : ledger_inv db → ledger_inv (judged db).
Proof. intros H. eapply others_keep_inv; [exact H|apply judged_keep]. Qed.

Lemma books_again : ledger_inv db_again.
Proof. apply accepting_inv, judged_inv, ready_inv, drained_inv, (accepting_inv [down]), ledger_inv_empty. Qed.

Lemma books_half : ledger_inv db_half.
Proof. apply accepting_inv, drained_inv, accepting_inv, drained_inv, books_again. Qed.

Lemma books_claimed : ledger_inv db_claimed.
Proof. apply claiming_inv, books_half. Qed.

(** ** The theorems at the example *)

Lemma over_step : ledger_step db_claimed db_over.
Proof. eapply (ls_apply _ (recovered_member db_claimed) (at_s 404) (at_s 404) (the_apply db_claimed).1). by vm_compute. Defined.

Lemma ledger_inv_step_witness : length (d_owners db_over) = 4%nat ∧ ledger_inv db_over.
Proof. split; [by vm_compute|]. apply (ledger_inv_step db_claimed); [apply books_claimed|apply over_step]. Defined.

Lemma recovery_carried_witness :
  al_Status (ad_Alert (the_claim db_claimed).1) = "resolved"
  ∧ (cr_Resolved (the_apply db_claimed).1 = true → ic_Status (cr_Incident (the_apply db_claimed).1) = StatusResolved).
Proof.
  split; [by vm_compute|]. intros Hr.
  refine (proj1 (proj1 (proj2 (recovery_carried db_claimed (recovered_member db_claimed) (at_s 404) (at_s 404)
            (the_apply db_claimed).1 db_over (the_claim db_claimed).1 books_claimed _ _)) Hr)); by vm_compute.
Defined.

(** The claim is released, and taken again by another worker. *)
Definition db_released : delivery_db :=
  ok_or db_claimed (RetryAlertDispatch db_claimed (the_claim db_claimed) "transient" (at_s 405) false).
Definition db_retaken : delivery_db := (claiming "other" (at_s 406) db_released).2.

Lemma lost_claim_never_returns_witness :
  held db_claimed "d4" "worker" 1 = true ∧ held db_retaken "d4" "other" 2 = true
  ∧ is_ok (ApplyCorrelatedDelivery db_retaken (recovered_member db_claimed) (at_s 407) (at_s 407)) = false.
Proof.
  split; [by vm_compute|]. split; [by vm_compute|].
  refine (proj1 (lost_claim_never_returns db_claimed db_released db_retaken "d4" "worker" 1 books_claimed _ _ _ _)
            (recovered_member db_claimed) (at_s 407) (at_s 407) _ _ _); try by vm_compute.
  - apply rtc_once. eapply (ls_retry _ (the_claim db_claimed) "transient" (at_s 405) false). by vm_compute.
  - apply rtc_once. eapply (ls_claim _ "other" (at_s 406) (60 * Second)%Z 16%Z (claiming "other" (at_s 406) db_released).1). by vm_compute.
Defined.

(** The deliveries in the other order, and their owners too. *)
Definition db_reordered : delivery_db := set_deliveries (rev (d_deliveries db_over)) (set_owners (rev (d_owners db_over)) db_over).

Lemma member_status_latest_witness :
  d_deliveries db_reordered ≠ d_deliveries db_over ∧ member_status db_reordered "a1" = member_status db_over "a1".
Proof.
  split; [by vm_compute|].
  refine (proj1 (member_status_latest db_over db_reordered "a1" _ _ _)).
  - apply (bool_decide_unpack _). by vm_compute.
  - symmetry. apply Permutation_rev.
  - apply fmap_Permutation. symmetry. apply Permutation_rev.
Defined.

(** Three occurrences, pruned one at a time. *)
Definition occurrence_at (n t : Z) : Occurrence :=
  {| oc_ID := n; oc_IncidentID := "inc-4"; oc_OccurredAt := at_s t; oc_LastSeen := at_s t; oc_Fingerprints := ["fp2"]; oc_Payload := [];
     oc_TriggerKind := "none" |}.
Definition db_old : delivery_db := set_occurrences [occurrence_at 1 300; occurrence_at 2 900; occurrence_at 3 500] db_recurred.

Lemma PruneOccurrences_spec_witness :
  ∃ db', PruneOccurrences 9 db_old (at_s 600) 1 = Some (2%nat, db') ∧ ol_OccurrenceID <$> d_owners db' = [None; None].
Proof.
  exists (delete_occurrences (old_occurrence (at_s 600)) db_old). split; [|by vm_compute].
  rewrite (PruneOccurrences_spec db_old (at_s 600) 1 9); [by vm_compute|apply (bool_decide_unpack _); by vm_compute|].
  apply Nat.ltb_lt. by vm_compute.
Defined.

(** A repeat of a known Alert within the window, at a broken cadence. *)
Definition fast_repeat : attachInputs :=
  {| ai_now := at_s 4010; ai_lastJudgedAt := at_s 0; ai_lastActivity := at_s 4000; ai_occurrencesSinceJudged := 4;
     ai_isNewEpisode := true; ai_incomingSeverityRank := 2; ai_incomingAlertname := "Down"; ai_baselineSeverityRank := 2;
     ai_knownAlertnames := {[ "Down" ]}; ai_episodeTimes := at_s <$> [1000; 2000; 3000; 4000]%Z; ai_attachWindow := cfg_AttachWindow config;
     ai_judgmentCeiling := cfg_JudgmentCeiling config; ai_occurrenceCap := cfg_OccurrenceCap config |}%Z.

Lemma decideAttach_spec_witness :
  de_trigger (decideAttach fast_repeat) = "cadence"
  ∧ ai_isNewEpisode fast_repeat = true ∧ in_horizon fast_repeat ∧ first_trigger (triggers fast_repeat) "cadence".
Proof.
  split; [by vm_compute|]. refine (proj1 (proj1 (proj2 (proj2 (proj2 (decideAttach_spec fast_repeat _ _)))) "cadence") _).
  - unfold sane_interval, in_int64. vm_compute. by split.
  - unfold in_int64. vm_compute. by split.
  - by split; vm_compute.
Defined.

(** The recurrence, applied. *)
Definition recur_run : run := start (claiming "worker" (at_s 301) db_again).2.
Definition recur_claim : claim_row := the_claim (rn_db recur_run).
Definition recur_end : run :=
  (ApplyDelivery config alone never (ids_from "in-" 10) (ids_from "inc-" 10) (λ _, at_s 301) recur_claim recur_run).2.

Lemma firing_joins_safely_witness :
  ∃ i, i ∈ d_incidents (rn_db recur_end) ∧ ic_GroupKey i = "db-1".
Proof.
  assert (Hg : (groupKeySelection config (received_alert recur_claim.1)).1 = "db-1") by by vm_compute.
  destruct (firing_joins_safely config alone never (ids_from "in-" 10) (ids_from "inc-" 10) (λ _, at_s 301)
              (λ _ db, rtc_refl ledger_step db) recur_claim recur_run recur_end) as (at_ & i & occ & _ & Hi & Hk & _).
  - apply claiming_inv, books_again.
  - by vm_compute.
  - by vm_compute.
  - exists i. split; [exact Hi|]. etrans; [exact Hk|exact Hg].
Defined.

(** Two deliveries wait. *)
Definition waiting : run := start (accepting [up1] db_again).

Lemma Drain_drains_witness :
  backlog worker (rn_db waiting) = 18%nat ∧
  ∃ n s', Drain config alone never (ids_from "in-" 10) (ids_from "inc-" 10) (λ _, at_s 402) worker 19 waiting = (Ok (Some (n, None)), s').
Proof.
  split; [by vm_compute|].
  destruct (Drain_drains config alone never (ids_from "in-" 10) (ids_from "inc-" 10) (λ _, at_s 402) worker
              (λ _ db, reflexivity db) (λ _, eq_refl) (λ _, eq_refl) eq_refl eq_refl eq_refl 19 waiting) as (n & s' & Hrun & _).
  - change (ledger_inv (accepting [up1] db_again)). apply accepting_inv, books_again.
  - apply (bool_decide_unpack _). by vm_compute.
  - apply Nat.ltb_lt. by vm_compute.
  - by exists n, s'.
Defined.

(** ** Behaviours worth knowing *)

(** A firing delivery that is retried after the recovery of its Alert was
    applied opens the resolved Incident again, although no member fires. *)
Definition late : DeliveryInput := input_of "d5" (alert_at "a1" "fp1" "Down" "firing" (at_s 300)) (at_s 300).
Definition recovery : DeliveryInput := input_of "d6" (alert_at "a1" "fp1" "Down" "resolved" (at_s 400)) (at_s 300).
Definition db_delayed : delivery_db :=
  let db := (claiming "worker" (at_s 301) (accepting [late] db_judged)).2 in
  ok_or db (RetryAlertDispatch db (the_claim db) "transient" (at_s 500) false).
Definition db_resolved : delivery_db := drained 30 (at_s 402) (accepting [recovery] db_delayed).
Definition db_reopened : delivery_db := drained 40 (at_s 501) db_resolved.

Example late_firing_reopens :
  (ic_Status <$> d_incidents db_resolved) = [StatusResolved]
  ∧ (ic_Status <$> d_incidents db_reopened) = [StatusAnalyzed]
  ∧ (member_status db_reopened <$> (d_members db_reopened).*2) = ["resolved"].
Proof. by vm_compute. Qed.

(** A repeat that is about to touch an occurrence which retention deletes
    first is given up as invalid at its first attempt. *)
Definition repeat_input : DeliveryInput := input_of "d7" (alert_at "a2" "fp2" "Down" "firing" (at_s 310)) (at_s 300).
Definition pruning : nat → delivery_db → delivery_db :=
  λ n db, if (n =? 6)%nat then delete_occurrences (old_occurrence (at_s 305)) db else db.
Definition dropped : run :=
  (Drain config pruning never (ids_from "in-" 50) (ids_from "inc-" 50) (λ _, at_s 311) worker 10
     (start (accepting [repeat_input] db_recurred))).2.

Example pruned_occurrence_drops_delivery :
  (λ d, (dp_DeliveryID d, dp_Status d, dp_LastErrorClass d, dp_AttemptCount d)) <$> last (d_dispatches (rn_db dropped))
  = Some ("d7", DispatchFailed, Some "invalid_delivery", 1%Z).
Proof. by vm_compute. Qed.

(** An occurrence within the second after a judgment on a whole second is not
    counted as later than it: the texts differ in their subseconds. *)
Example same_second_not_counted :
  occ_after (at_s 500 + 500000000)%Z (at_s 500) = false ∧ occ_after (at_s 500 + 500000000)%Z (at_s 500 + 1)%Z = true.
Proof. by vm_compute. Qed.
