(* ===== verification/SituationInputs.v ===== *)
(** * The inputs of Situations (internal/store/situations.go, migrations 0015 and 0018)

    The outbox of Situation inputs: claiming, releasing and deferring an input,
    and the one transaction that applies it - it finds the Situation that owns
    the Incident, the open one of the group or a new one, advances it, attaches
    the Incident and marks the input.

    The tables are those of the delivery ledger ([Deliveries]), the mutable
    columns of the outbox, the Situations and their memberships.  Of a Situation
    the controller's columns are a state of [ControllerStore].  A transaction
    returns the new tables or an error, which rolls it back; [now] and the
    identity of a new Situation are arguments, and so is what the writes of the
    semantic profiles and of the judgments in the same transaction returned. *)

From stdpp Require Import prelude strings list gmap.
From S2P Require Import Prelude SituationModel Snapshot Lifecycle ErrorClass Deliveries ControllerStore HistoryStore.

(** ** The tables *)

Inductive InputStatus : Set := InputPending | InputClaimed | InputApplied | InputFailed.

#[export] Instance InputStatus_eq_dec : EqDecision InputStatus.
Proof. solve_decision. Defined.

(** The columns of a row of the outbox that change. *)
Record input_columns : Type := {
  in_Status : InputStatus;
  in_LeaseOwner : option string;
  in_LeaseExpiresAt : option Time;
  in_ClaimToken : Z;
  in_AttemptCount : Z;
  in_LastErrorClass : option string;
  in_RetryAt : option Time;
  in_AppliedSituationID : option string;
  in_AppliedAt : option Time;
  in_AppliedInputVersion : option Z;
  in_JournalState : journal_state
}.

(** A Situation; [sn_work] holds its lifecycle, version, lease and schedule. *)
Record situation : Type := {
  sn_ID : string;
  sn_PreviousSituationID : option string;
  sn_GroupKey : string;
  sn_OpenedAt : Time;
  sn_EffectiveStartedAt : Time;
  sn_EffectiveStartedAtBasis : SourceTimeBasis;
  sn_FirstReceivedAt : Time;
  sn_LastLifecycleObservedAt : Time;
  sn_TerminalAt : option Time;
  sn_work : ControllerStore.state
}.

(** [sd_inputs] has the rows that were ever claimed: any other has the defaults
    of its insertion.  [sd_members] are the pairs of a Situation and an
    Incident. *)
Record situation_db : Type := {
  sd_ledger : delivery_db;
  sd_inputs : gmap string input_columns;
  sd_situations : list situation;
  sd_members : list (string * string)
}.

Inductive input_error : Type :=
| ErrInputInvalid (e : string)
| ErrInputNotFound
| ErrInputLeaseLost
| ErrInputProtected
| ErrInputConstraint.              (* a constraint, or the database failed *)

Definition sn_row (s : situation) : situation_row := st_row (sn_work s).
Definition sn_lifecycle (s : situation) : Lifecycle := row_lifecycle (sn_row s).
Definition sn_version (s : situation) : Z := input_version (sn_row s).

Definition set_ledger (l : delivery_db) (db : situation_db) : situation_db :=
  {| sd_ledger := l; sd_inputs := sd_inputs db; sd_situations := sd_situations db; sd_members := sd_members db |}.
Definition set_inputs (m : gmap string input_columns) (db : situation_db) : situation_db :=
  {| sd_ledger := sd_ledger db; sd_inputs := m; sd_situations := sd_situations db; sd_members := sd_members db |}.
Definition set_situations (l : list situation) (db : situation_db) : situation_db :=
  {| sd_ledger := sd_ledger db; sd_inputs := sd_inputs db; sd_situations := l; sd_members := sd_members db |}.
Definition set_situation_members (l : list (string * string)) (db : situation_db) : situation_db :=
  {| sd_ledger := sd_ledger db; sd_inputs := sd_inputs db; sd_situations := sd_situations db; sd_members := l |}.

Definition open_lifecycle (l : Lifecycle) : bool := bool_decide (l ∈ [LifecycleActive; LifecycleRecoveryPending]).

Definition situation_is (id : string) (s : situation) : bool := str_eqb (sn_ID s) id.
Definition find_situation (db : situation_db) (id : string) : option situation := List.find (situation_is id) (sd_situations db).

(** The lifecycle of the Situation that owns an Incident, as the ledger reads
    it through the memberships. *)
Definition owner_lifecycles (db : situation_db) : gmap string Lifecycle :=
  list_to_map (omap (λ m : string * string, (λ s, (m.2, sn_lifecycle s)) <$> find_situation db m.1) (sd_members db)).

Definition refreshed (db : situation_db) : situation_db :=
  set_ledger (set_lifecycles (owner_lifecycles db) (sd_ledger db)) db.

(** ** Kinds *)

Definition DueIncidentCreated : string := "incident_created".
Definition DueMembershipChanged : string := "membership_changed".
Definition DueNewSymptom : string := "new_symptom".
Definition DueTriageChanged : string := "triage_changed".
Definition DueAlertResolved : string := "alert_resolved".
Definition DueOperatorArtifactRecorded : string := "operator_artifact_recorded".

Definition dueReasonForInputKind (kind : string) : result input_error string :=
  if str_eqb kind "incident_created" then Ok DueIncidentCreated
  else if str_eqb kind "membership_changed" || str_eqb kind "incident_ready" then Ok DueMembershipChanged
  else if str_eqb kind "finding_persisted" then Ok DueNewSymptom
  else if str_eqb kind "triage_skipped" || str_eqb kind "triage_retry_changed" || str_eqb kind "triage_exhausted"
  then Ok DueTriageChanged
  else if str_eqb kind "incident_resolved" then Ok DueAlertResolved
  else if str_eqb kind "operator_annotation_recorded" || str_eqb kind "captured_verdict_recorded"
  then Ok DueOperatorArtifactRecorded
  else Err (ErrInputInvalid "unsupported situation input kind").

Definition isOperatorArtifactKind (kind : string) : bool :=
  str_eqb kind "operator_annotation_recorded" || str_eqb kind "captured_verdict_recorded".

(** ** Rows of the outbox *)

(** The columns of an inserted row. *)
Definition inserted_columns (n : SituationInput) : input_columns :=
  {| in_Status := InputPending; in_LeaseOwner := None; in_LeaseExpiresAt := None; in_ClaimToken := 0; in_AttemptCount := 0;
     in_LastErrorClass := None; in_RetryAt := None; in_AppliedSituationID := None; in_AppliedAt := None;
     in_AppliedInputVersion := None;
     in_JournalState := if isOperatorArtifactKind (si_Kind n) then JournalPending else JournalNotApplicable |}%Z.

Definition columns (db : situation_db) (n : SituationInput) : input_columns := default (inserted_columns n) (sd_inputs db !! si_ID n).

Definition outbox (db : situation_db) : list SituationInput := d_outbox (sd_ledger db).

Definition is_input (id : string) (n : SituationInput) : bool := str_eqb (si_ID n) id.
Definition find_input (db : situation_db) (id : string) : option SituationInput := List.find (is_input id) (outbox db).

(** An UPDATE of the outbox. *)
Definition update_inputs (P : SituationInput → bool) (f : input_columns → input_columns) (db : situation_db) : situation_db :=
  set_inputs (foldr (λ n m, if P n then <[si_ID n := f (columns db n)]> m else m) (sd_inputs db) (outbox db)) db.

Definition has_input_status (s : InputStatus) (c : input_columns) : bool := bool_decide (in_Status c = s).

(** ** Claiming *)

Definition input_ltb : SituationInput → SituationInput → bool :=
  lex_less (λ x y, text_ltb (si_OccurredAt x) (si_OccurredAt y)) (skey_ltb si_ID).

Definition input_due (now : Time) (c : input_columns) : bool :=
  (has_input_status InputPending c && match in_RetryAt c with None => true | Some t => text_leb t now end)
  || (has_input_status InputClaimed c && match in_LeaseExpiresAt c with None => false | Some t => text_leb t now end).

(** A live lease that a controller run holds for itself. *)
Definition protected_lease (now : Time) (l : lease_columns) : bool :=
  lease_protected l && match lease_owner l, lease_expires_at l with Some _, Some t => text_ltb now t | _, _ => false end.

Definition group_protected (db : situation_db) (now : Time) (g : string) : bool :=
  existsb (λ s, str_eqb (sn_GroupKey s) g && open_lifecycle (sn_lifecycle s) && protected_lease now (row_lease (sn_row s)))
    (sd_situations db).

Definition claimable (db : situation_db) (now : Time) (n : SituationInput) : bool :=
  input_due now (columns db n) && negb (group_protected db now (si_GroupKey n)).

Definition claimed_columns (owner : string) (until : Time) (c : input_columns) : input_columns :=
  {| in_Status := InputClaimed; in_LeaseOwner := Some owner; in_LeaseExpiresAt := Some until;
     in_ClaimToken := in_ClaimToken c + 1; in_AttemptCount := in_AttemptCount c + 1;
     in_LastErrorClass := in_LastErrorClass c; in_RetryAt := in_RetryAt c;
     in_AppliedSituationID := in_AppliedSituationID c; in_AppliedAt := in_AppliedAt c;
     in_AppliedInputVersion := in_AppliedInputVersion c; in_JournalState := in_JournalState c |}%Z.

Record SituationClaim : Type := {
  sc_Input : SituationInput;
  sc_LeaseOwner : string;
  sc_ClaimToken : Z;
  sc_AttemptCount : Z
}.

Definition claim_of_row (owner : string) (db : situation_db) (n : SituationInput) : SituationClaim :=
  {| sc_Input := n; sc_LeaseOwner := owner; sc_ClaimToken := in_ClaimToken (columns db n);
     sc_AttemptCount := in_AttemptCount (columns db n) |}.

Definition among_inputs (ids : list string) (n : SituationInput) : bool := existsb (str_eqb (si_ID n)) ids.

Definition loadClaimedSituationInputsTx (db : situation_db) (ids : list string) (owner : string) : list SituationClaim :=
  claim_of_row owner db <$>
    SliceStable input_ltb
      (select_rows (λ n, among_inputs ids n && has_input_status InputClaimed (columns db n)
                         && bool_decide (in_LeaseOwner (columns db n) = Some owner)) (outbox db)).

Definition claimed_ids (db : situation_db) (now : Time) (limit : Z) : list string :=
  si_ID <$> take (Z.to_nat limit) (SliceStable input_ltb (select_rows (claimable db now) (outbox db))).

Definition check_input (b : bool) (e : string) : result input_error unit := if b then Ok tt else Err (ErrInputInvalid e).

Definition ClaimSituationInputs (db : situation_db) (owner : string) (now : Time) (lease : Duration) (limit : Z)
    : result input_error (list SituationClaim * situation_db) :=
  let? _ := check_input (negb (blank owner) && (0 <? lease)%Z && (0 <? limit)%Z)
              "situation input claim requires owner, positive lease, and positive limit" in
  let ids := claimed_ids db now limit in
  let db' := update_inputs (among_inputs ids) (claimed_columns owner (Add now lease)) db in
  Ok (loadClaimedSituationInputsTx db' ids owner, db').

(** ** Releasing *)

Definition complete_input_claim (c : SituationClaim) : bool :=
  negb (blank (si_ID (sc_Input c))) && negb (blank (sc_LeaseOwner c)) && (0 <? sc_ClaimToken c)%Z.

(** The fence of every transition after a claim. *)
Definition holds_columns (owner : string) (token : Z) (c : input_columns) : bool :=
  has_input_status InputClaimed c && bool_decide (in_LeaseOwner c = Some owner) && (in_ClaimToken c =? token)%Z.

Definition holds_input (claim : SituationClaim) (db : situation_db) (n : SituationInput) : bool :=
  is_input (si_ID (sc_Input claim)) n && holds_columns (sc_LeaseOwner claim) (sc_ClaimToken claim) (columns db n).

(** An UPDATE that must find the row its claim holds. *)
Definition fenced (claim : SituationClaim) (f : input_columns → input_columns) (db : situation_db) : result input_error situation_db :=
  guard! existsb (holds_input claim db) (outbox db) else ErrInputLeaseLost in
  Ok (update_inputs (holds_input claim db) f db).

Definition released_columns (class : option string) (attempts : Z) (retry : option Time) (c : input_columns) : input_columns :=
  {| in_Status := match retry with Some _ => InputPending | None => InputFailed end; in_LeaseOwner := None;
     in_LeaseExpiresAt := None; in_ClaimToken := in_ClaimToken c; in_AttemptCount := attempts;
     in_LastErrorClass := class; in_RetryAt := retry; in_AppliedSituationID := in_AppliedSituationID c;
     in_AppliedAt := in_AppliedAt c; in_AppliedInputVersion := in_AppliedInputVersion c; in_JournalState := in_JournalState c |}.

Definition valid_class (class : string) : result input_error unit :=
  match validateErrorClass class with
  | Ok _ => Ok tt
  | Err (ErrDeliveryInvalid e) => Err (ErrInputInvalid e)
  | Err _ => Err ErrInputConstraint
  end.

Definition RetrySituationInput (db : situation_db) (claim : SituationClaim) (class : string) (retryAt : Time) (terminal : bool)
    : result input_error situation_db :=
  let? _ := check_input (complete_input_claim claim) "situation input retry requires a complete claim" in
  let? _ := valid_class class in
  let? _ := check_input (terminal || negb (IsZero retryAt)) "situation input retry time is required" in
  fenced claim (λ c, released_columns (Some class) (in_AttemptCount c) (if terminal then None else Some retryAt) c) db.

(** A scheduling delay: the attempt is given back and the error class stays. *)
Definition DeferSituationInput (db : situation_db) (claim : SituationClaim) (retryAt : Time) : result input_error situation_db :=
  let? _ := check_input (complete_input_claim claim) "situation input defer requires a complete claim" in
  let? _ := check_input (negb (IsZero retryAt)) "situation input defer time is required" in
  fenced claim (λ c, released_columns (in_LastErrorClass c) (Z.max (in_AttemptCount c - 1) 0) (Some retryAt) c) db.

(** ** Source times *)

(** The start, its basis and the receipt an input contributes. *)
Record source_times : Type := { st_start : Time; st_basis : SourceTimeBasis; st_received : Time }.

Definition delivery_times (d : AlertDelivery) : source_times :=
  let fallback := {| st_start := ad_ReceivedAt d; st_basis := SourceTimeBasisReceiptFallback; st_received := ad_ReceivedAt d |} in
  match ad_SourceStartedAt d with
  | Some t =>
      if bool_decide (ad_StartedAtBasis d ∈ [SourceTimeBasisSourcePayload; SourceTimeBasisSourceAPI])
      then {| st_start := t; st_basis := ad_StartedAtBasis d; st_received := ad_ReceivedAt d |}
      else fallback
  | None => fallback
  end.

Definition sourceTimesForInputTx (db : delivery_db) (n : SituationInput) : result input_error source_times :=
  match si_DeliveryID n with
  | None =>
      Ok {| st_start := si_OccurredAt n; st_basis := SourceTimeBasisReceiptFallback; st_received := si_OccurredAt n |}
  | Some id =>
      match find_delivery db id with
      | None => Err ErrInputNotFound
      | Some d => Ok (delivery_times d)
      end
  end.

Definition mergeBasis (existing incoming : SourceTimeBasis) : SourceTimeBasis :=
  if bool_decide (existing = incoming) then existing else SourceTimeBasisMixed.

(** ** The Situation of an input *)

Definition owned_by (incidentID : string) (m : string * string) : bool := str_eqb m.2 incidentID.

Definition situationOwnerForIncidentTx (db : situation_db) (incidentID : string) : option string :=
  fst <$> List.find (owned_by incidentID) (sd_members db).

Definition open_in_group (g : string) (s : situation) : bool :=
  str_eqb (sn_GroupKey s) g && open_lifecycle (sn_lifecycle s).

Definition nonterminalSituationIDByGroupTx (db : situation_db) (g : string) : option string :=
  sn_ID <$> List.find (open_in_group g) (sd_situations db).

Definition ended_in_group (g : string) (s : situation) : bool :=
  str_eqb (sn_GroupKey s) g && Terminal (sn_lifecycle s).

(** NULL before every text. *)
Definition opt_text_ltb (a b : option Time) : bool :=
  match a, b with
  | Some x, Some y => text_ltb x y
  | None, Some _ => true
  | _, None => false
  end.

(** [ORDER BY terminal_at DESC, id DESC]. *)
Definition ended_ltb : situation → situation → bool :=
  lex_less (λ x y, opt_text_ltb (sn_TerminalAt y) (sn_TerminalAt x)) (λ x y, skey_ltb sn_ID y x).

Definition newestTerminalSituationIDTx (db : situation_db) (g : string) : option string :=
  sn_ID <$> head (SliceStable ended_ltb (select_rows (ended_in_group g) (sd_situations db))).

(** The controller's columns of a row whose other work columns are the
    defaults of the schema. *)
Definition new_work (dueReason : string) (occurredAt : Time) : ControllerStore.state :=
  {| st_row :=
       {| input_version := 1; row_lifecycle := LifecycleActive;
          row_lease := {| lease_owner := None; lease_expires_at := None; claim_token := 0; supersede_streak := 0;
                          lease_protected := false |};
          row_schedule := {| next_assessment_at := occurredAt; retry_at := None; due_reasons := [dueReason] |};
          row_work := {| current_material_fact_hash := None; controller_retry_epoch := 0; controller_work_attempts := 0;
                         controller_parked_reason := None; last_consumed_recovery_generation := 0 |} |};
     st_calls := []; st_outcomes := []; st_cycles := ∅; st_clock := 0 |}%Z.

(** The Situation an input opens. *)
Definition opened_situation (db : situation_db) (id groupKey : string) (t : source_times) (dueReason : string)
    (occurredAt now : Time) : situation :=
  {| sn_ID := id; sn_PreviousSituationID := newestTerminalSituationIDTx db groupKey; sn_GroupKey := groupKey;
     sn_OpenedAt := now; sn_EffectiveStartedAt := st_start t; sn_EffectiveStartedAtBasis := st_basis t;
     sn_FirstReceivedAt := st_received t; sn_LastLifecycleObservedAt := st_received t; sn_TerminalAt := None;
     sn_work := new_work dueReason occurredAt |}.

(** The keys and CHECKs of the table: the identity is new, and a group has at
    most one open Situation. *)
Definition createSituationTx (db : situation_db) (id groupKey : string) (t : source_times) (dueReason : string)
    (occurredAt now : Time) : result input_error situation_db :=
  guard! negb (str_eqb id "") && negb (existsb (situation_is id) (sd_situations db)) && negb (str_eqb groupKey "")
         && negb (existsb (open_in_group groupKey) (sd_situations db)) else ErrInputConstraint in
  Ok (set_situations (sd_situations db ++ [opened_situation db id groupKey t dueReason occurredAt now]) db).

Definition joined_situation (t : source_times) (r : situation_row) (s : situation) : situation :=
  {| sn_ID := sn_ID s; sn_PreviousSituationID := sn_PreviousSituationID s; sn_GroupKey := sn_GroupKey s;
     sn_OpenedAt := sn_OpenedAt s; sn_EffectiveStartedAt := earlierTime (sn_EffectiveStartedAt s) (st_start t);
     sn_EffectiveStartedAtBasis := mergeBasis (sn_EffectiveStartedAtBasis s) (st_basis t);
     sn_FirstReceivedAt := earlierTime (sn_FirstReceivedAt s) (st_received t);
     sn_LastLifecycleObservedAt := sn_LastLifecycleObservedAt s; sn_TerminalAt := sn_TerminalAt s;
     sn_work := with_row (sn_work s) r |}.

(** The version it reaches and the token of the live claim it cleared, with
    the tables; the columns of the row are [ControllerStore]'s. *)
Definition joinSituation (db : situation_db) (id : string) (t : source_times) (dueReason : string) (occurredAt now : Time)
    : result input_error (Z * Z * situation_db) :=
  match find_situation db id with
  | None => Err ErrInputNotFound
  | Some s =>
      match joinSituationTx (sn_row s) dueReason occurredAt now with
      | Err ErrSituationProtected => Err ErrInputProtected
      | Err _ => Err ErrInputConstraint
      | Ok r =>
          let l := row_lease (sn_row s) in
          Ok (input_version r, if lease_live l now then claim_token l else 0%Z,
              set_situations (update_rows (situation_is id) (joined_situation t r) (sd_situations db)) db)
      end
  end.

Record situationApplyOutcome : Type := {
  so_situationID : string;
  so_inputVersion : Z;
  so_supersededClaimToken : Z;
  so_ownerTerminal : bool
}.

Definition joined_outcome (id : string) (version token : Z) : situationApplyOutcome :=
  {| so_situationID := id; so_inputVersion := version; so_supersededClaimToken := token; so_ownerTerminal := false |}.

(** The owner, when it has ended. *)
Definition ended_owner (db : situation_db) (owner : option string) : result input_error (option situation) :=
  match owner with
  | None => Ok None
  | Some id =>
      match find_situation db id with
      | None => Err ErrInputNotFound
      | Some s => Ok (if Terminal (sn_lifecycle s) then Some s else None)
      end
  end.

Definition resolveAndApplySituationTx (db : situation_db) (n : SituationInput) (t : source_times) (dueReason newID : string)
    (now : Time) : result input_error (situationApplyOutcome * situation_db) :=
  let owner := situationOwnerForIncidentTx db (si_IncidentID n) in
  let? ended := if isOperatorArtifactKind (si_Kind n) then ended_owner db owner else Ok None in
  match ended with
  | Some s =>
      Ok ({| so_situationID := sn_ID s; so_inputVersion := sn_version s; so_supersededClaimToken := 0; so_ownerTerminal := true |}, db)%Z
  | None =>
      match (match owner with Some id => Some id | None => nonterminalSituationIDByGroupTx db (si_GroupKey n) end) with
      | Some id =>
          let? (landed, db') := joinSituation db id t dueReason (si_OccurredAt n) now in
          Ok (joined_outcome id landed.1 landed.2, db')
      | None =>
          let? db' := createSituationTx db newID (si_GroupKey n) t dueReason (si_OccurredAt n) now in
          Ok (joined_outcome newID 1 0, db')
      end
  end.

(** INSERT OR IGNORE under UNIQUE(incident_id). *)
Definition attachSituationMembershipTx (db : situation_db) (situationID incidentID : string) : situation_db :=
  if existsb (owned_by incidentID) (sd_members db) then db
  else set_situation_members (sd_members db ++ [(situationID, incidentID)]) db.

Definition applied_columns (situationID : string) (version : Z) (journal : journal_state) (now : Time) (c : input_columns) : input_columns :=
  {| in_Status := InputApplied; in_LeaseOwner := None; in_LeaseExpiresAt := None; in_ClaimToken := in_ClaimToken c;
     in_AttemptCount := in_AttemptCount c; in_LastErrorClass := in_LastErrorClass c; in_RetryAt := None;
     in_AppliedSituationID := Some situationID; in_AppliedAt := Some now; in_AppliedInputVersion := Some version;
     in_JournalState := journal |}.

Definition markSituationInputAppliedTx (db : situation_db) (claim : SituationClaim) (situationID : string) (version : Z)
    (journal : journal_state) (now : Time) : result input_error situation_db :=
  fenced claim (applied_columns situationID version journal now) db.

(** ** Applying *)

Record SituationInputApplied : Type := { sa_SituationID : string; sa_InputVersion : Z; sa_SupersededClaimToken : Z }.

Definition nothing_applied : SituationInputApplied :=
  {| sa_SituationID := ""; sa_InputVersion := 0; sa_SupersededClaimToken := 0 |}%Z.

(** The errors of the writes of semantic profiles and judgments, if any: a row
    they miss, or a failure of the database. *)
Inductive side_error : Set := SideNotFound | SideFailed.

Record side_writes : Type := {
  sw_signature : option side_error;
  sw_admission : option side_error;
  sw_invalidation : option side_error
}.

Definition went (e : option side_error) : result input_error unit :=
  match e with
  | None => Ok tt
  | Some SideNotFound => Err ErrInputNotFound
  | Some SideFailed => Err ErrInputConstraint
  end.

(** What the input must agree with. *)
Definition check_addressed (db : delivery_db) (n : SituationInput) : result input_error unit :=
  match find_incident db (si_IncidentID n) with
  | None => Err ErrInputNotFound
  | Some i =>
      let? _ := check_input (str_eqb (ic_GroupKey i) (si_GroupKey n)) "situation input group key mismatch" in
      match si_DeliveryID n with
      | None => Ok tt
      | Some d =>
          check_input (existsb (λ o, str_eqb (ol_IncidentID o) (si_IncidentID n) && str_eqb (ol_DeliveryID o) d) (d_owners db))
            "situation input delivery is not owned by incident"
      end
  end.

Definition joined_journal (n : SituationInput) : journal_state :=
  if isOperatorArtifactKind (si_Kind n) then JournalPending else JournalNotApplicable.

Definition ApplySituationInputResult (db : situation_db) (claim : SituationClaim) (newID : string) (side : side_writes) (now : Time)
    : result input_error (SituationInputApplied * situation_db) :=
  let? _ := check_input (complete_input_claim claim) "apply situation input requires a complete claim" in
  match find_input db (si_ID (sc_Input claim)) with
  | None => Err ErrInputNotFound
  | Some n =>
      if has_input_status InputApplied (columns db n) then Ok (nothing_applied, db)
      else
        guard! holds_columns (sc_LeaseOwner claim) (sc_ClaimToken claim) (columns db n) else ErrInputLeaseLost in
        let? dueReason := dueReasonForInputKind (si_Kind n) in
        let? _ := check_addressed (sd_ledger db) n in
        let? t := sourceTimesForInputTx (sd_ledger db) n in
        let? _ := went (sw_signature side) in
        let? (o, db1) := resolveAndApplySituationTx db n t dueReason newID now in
        let? _ := went (sw_admission side) in
        if so_ownerTerminal o then
          let? db2 := markSituationInputAppliedTx db1 claim (so_situationID o) (so_inputVersion o) JournalOwnerTerminal now in
          Ok ({| sa_SituationID := so_situationID o; sa_InputVersion := so_inputVersion o; sa_SupersededClaimToken := 0 |}%Z, db2)
        else
          let db2 := attachSituationMembershipTx db1 (so_situationID o) (si_IncidentID n) in
          let? _ := went (sw_invalidation side) in
          let? db3 := markSituationInputAppliedTx db2 claim (so_situationID o) (so_inputVersion o) (joined_journal n) now in
          Ok ({| sa_SituationID := so_situationID o; sa_InputVersion := so_inputVersion o;
                 sa_SupersededClaimToken := so_supersededClaimToken o |}, refreshed db3)
  end.
