(* ===== verification/Reconstruction.v ===== *)
(** * What a restart repairs (internal/store/situation_reconstruction.go)

    The transactions of the pass a process makes before it accepts work: the
    release of the leases that ran out, over the three tables at once, and the
    Situation of a group of Incidents that have none.  The tables are those of
    [SituationInputs]; the columns of a Situation that controllers use are
    changed by [ControllerStore.joinSituationForReconstructionTx] and
    [ControllerStore.recover_lease]. *)

From stdpp Require Import prelude strings list gmap.
From S2P Require Import Prelude SituationModel Snapshot Lifecycle TriageStore Deliveries ControllerStore HistoryStore SituationInputs.

(** ** Expired leases *)

Record LeaseRecovery : Type := { lr_AlertDispatches : nat; lr_SituationInputs : nat; lr_Situations : nat }.

Definition input_expired (now : Time) (c : input_columns) : bool :=
  has_input_status InputClaimed c && match in_LeaseExpiresAt c with None => false | Some t => text_leb t now end.

Definition recovered_columns (c : input_columns) : input_columns :=
  {| in_Status := InputPending; in_LeaseOwner := None; in_LeaseExpiresAt := None; in_ClaimToken := in_ClaimToken c;
     in_AttemptCount := in_AttemptCount c; in_LastErrorClass := in_LastErrorClass c; in_RetryAt := in_RetryAt c;
     in_AppliedSituationID := in_AppliedSituationID c; in_AppliedAt := in_AppliedAt c;
     in_AppliedInputVersion := in_AppliedInputVersion c; in_JournalState := in_JournalState c |}.

Definition situation_expired (now : Time) (s : situation) : bool := lease_expired now (row_lease (sn_row s)).

(** The Situation with another row for the controllers. *)
Definition with_sn_row (r : situation_row) (s : situation) : situation :=
  {| sn_ID := sn_ID s; sn_PreviousSituationID := sn_PreviousSituationID s; sn_GroupKey := sn_GroupKey s;
     sn_OpenedAt := sn_OpenedAt s; sn_EffectiveStartedAt := sn_EffectiveStartedAt s;
     sn_EffectiveStartedAtBasis := sn_EffectiveStartedAtBasis s; sn_FirstReceivedAt := sn_FirstReceivedAt s;
     sn_LastLifecycleObservedAt := sn_LastLifecycleObservedAt s; sn_TerminalAt := sn_TerminalAt s;
     sn_work := with_row (sn_work s) r |}.

Definition recovered_situation (now : Time) (s : situation) : situation := with_sn_row (recover_lease (sn_row s) now) s.

Definition RecoverExpiredFoundationLeases (db : situation_db) (now : Time) : LeaseRecovery * situation_db :=
  let '(dispatches, ledger) := recover_dispatches (sd_ledger db) now in
  let inputs n := input_expired now (columns db n) in
  ({| lr_AlertDispatches := dispatches; lr_SituationInputs := length (select_rows inputs (outbox db));
      lr_Situations := length (select_rows (situation_expired now) (sd_situations db)) |},
   set_situations (update_rows (situation_expired now) (recovered_situation now) (sd_situations db))
     (update_inputs inputs recovered_columns (set_ledger ledger db))).

(** ** Dead letters *)

Record DeadLetterCounts : Type := { dl_AlertDispatches : nat; dl_SituationInputs : nat }.

Definition CountDeadLetteredFoundationWork (db : situation_db) : DeadLetterCounts :=
  {| dl_AlertDispatches := length (select_rows (is_dispatch DispatchFailed) (d_dispatches (sd_ledger db)));
     dl_SituationInputs := length (select_rows (λ n, has_input_status InputFailed (columns db n)) (outbox db)) |}.

(** ** Incidents without a Situation *)

Record UpgradeIncident : Type := {
  ui_IncidentID : string;
  ui_GroupKey : string;
  ui_Times : source_times;              (* EffectiveStartedAt, its basis, FirstReceivedAt *)
  ui_LastLifecycleObservedAt : Time
}.

(** The deliveries an Incident owns. *)
Definition incident_deliveries (l : delivery_db) (id : string) : list AlertDelivery :=
  omap (λ o, if str_eqb (ol_IncidentID o) id then find_delivery l (ol_DeliveryID o) else None) (d_owners l).

Definition delivery_status (s : string) (d : AlertDelivery) : bool := str_eqb (al_Status (ad_Alert d)) s.

(** A firing delivery whose Alert the ledger never saw recover. *)
Definition unsettled (ds : list AlertDelivery) : bool :=
  existsb (λ d, delivery_status "firing" d
                && negb (existsb (λ r, delivery_status "resolved" r && alert_is (al_ID (ad_Alert d)) (ad_Alert r)) ds)) ds.

Definition operational (l : delivery_db) (i : Incident) : bool :=
  bool_decide (ic_Status i ∈ [StatusCollecting; StatusReady; StatusProcessing; StatusAnalyzed; StatusFailed])
  || (has_status StatusResolved i && unsettled (incident_deliveries l (ic_ID i))).

Definition unrepresented (db : situation_db) (i : Incident) : bool :=
  negb (existsb (owned_by (ic_ID i)) (sd_members db)) && operational (sd_ledger db) i.

(** [ORDER BY received_at, id]. *)
Definition received_ltb : AlertDelivery → AlertDelivery → bool :=
  lex_less (λ x y, text_ltb (ad_ReceivedAt x) (ad_ReceivedAt y)) (skey_ltb ad_ID).

Definition merge_times (t u : source_times) : source_times :=
  {| st_start := earlierTime (st_start t) (st_start u); st_basis := mergeBasis (st_basis t) (st_basis u);
     st_received := earlierTime (st_received t) (st_received u) |}.

Definition incidentSourceTimes (l : delivery_db) (incidentID : string) (fallbackFirstAlertAt : Time) : source_times :=
  match delivery_times <$> SliceStable received_ltb (incident_deliveries l incidentID) with
  | [] => {| st_start := fallbackFirstAlertAt; st_basis := SourceTimeBasisReceiptFallback; st_received := fallbackFirstAlertAt |}
  | t :: ts => fold_left merge_times ts t
  end.

Definition upgrade_incident (l : delivery_db) (i : Incident) : UpgradeIncident :=
  {| ui_IncidentID := ic_ID i; ui_GroupKey := ic_GroupKey i; ui_Times := incidentSourceTimes l (ic_ID i) (ic_FirstAlertAt i);
     ui_LastLifecycleObservedAt := ic_LastAlertAt i |}.

Definition UnrepresentedOperationalIncidents (db : situation_db) : list UpgradeIncident :=
  upgrade_incident (sd_ledger db) <$>
    SliceStable (lex_less (skey_ltb ic_GroupKey) (skey_ltb ic_ID)) (select_rows (unrepresented db) (d_incidents (sd_ledger db))).

(** ** The Situation of a group *)

Definition laterTime (a b : Time) : Time := if After b a then b else a.

Definition reconstructed_situation (t : source_times) (observed now : Time) (s : situation) : situation :=
  {| sn_ID := sn_ID s; sn_PreviousSituationID := sn_PreviousSituationID s; sn_GroupKey := sn_GroupKey s;
     sn_OpenedAt := sn_OpenedAt s; sn_EffectiveStartedAt := earlierTime (sn_EffectiveStartedAt s) (st_start t);
     sn_EffectiveStartedAtBasis := mergeBasis (sn_EffectiveStartedAtBasis s) (st_basis t);
     sn_FirstReceivedAt := earlierTime (sn_FirstReceivedAt s) (st_received t);
     sn_LastLifecycleObservedAt := laterTime (sn_LastLifecycleObservedAt s) observed; sn_TerminalAt := sn_TerminalAt s;
     sn_work := with_row (sn_work s) (joinSituationForReconstructionTx (sn_row s) now) |}.

Definition joinReconstruction (db : situation_db) (id : string) (t : source_times) (observed now : Time)
    : result input_error situation_db :=
  match find_situation db id with
  | None => Err ErrInputNotFound
  | Some _ => Ok (set_situations (update_rows (situation_is id) (reconstructed_situation t observed now) (sd_situations db)) db)
  end.

Definition observed_at (observed : Time) (s : situation) : situation :=
  {| sn_ID := sn_ID s; sn_PreviousSituationID := sn_PreviousSituationID s; sn_GroupKey := sn_GroupKey s;
     sn_OpenedAt := sn_OpenedAt s; sn_EffectiveStartedAt := sn_EffectiveStartedAt s;
     sn_EffectiveStartedAtBasis := sn_EffectiveStartedAtBasis s; sn_FirstReceivedAt := sn_FirstReceivedAt s;
     sn_LastLifecycleObservedAt := observed; sn_TerminalAt := sn_TerminalAt s; sn_work := sn_work s |}.

(** The row an input would open, due now, and observed when its Incidents last
    were; the keys are those of [createSituationTx]. *)
Definition createSituationForReconstructionTx (db : situation_db) (id groupKey : string) (t : source_times) (observed now : Time)
    : result input_error situation_db :=
  guard! negb (str_eqb id "") && negb (existsb (situation_is id) (sd_situations db)) && negb (str_eqb groupKey "")
         && negb (existsb (open_in_group groupKey) (sd_situations db)) else ErrInputConstraint in
  Ok (set_situations
        (sd_situations db ++ [observed_at observed (opened_situation db id groupKey t DueUpgradeReconstruction now now)]) db).

(** The foreign key of a membership is checked when its row is new. *)
Fixpoint attach_each (id : string) (us : list UpgradeIncident) (db : situation_db) : result input_error situation_db :=
  match us with
  | [] => Ok db
  | u :: us =>
      guard! existsb (owned_by (ui_IncidentID u)) (sd_members db)
             || bool_decide (is_Some (find_incident (sd_ledger db) (ui_IncidentID u))) else ErrInputConstraint in
      attach_each id us (attachSituationMembershipTx db id (ui_IncidentID u))
  end.

Definition by_incident : list UpgradeIncident → list UpgradeIncident := SliceStable (skey_ltb ui_IncidentID).

Definition ReconstructSituation (db : situation_db) (groupKey : string) (incidents : list UpgradeIncident) (newID : string) (now : Time)
    : result input_error (string * situation_db) :=
  let? _ := check_input (negb (blank groupKey)) "reconstruct situation requires a group key" in
  match by_incident incidents with
  | [] => Err (ErrInputInvalid "reconstruct situation requires at least one incident")
  | u :: us =>
      let? _ := check_input (forallb (λ x, str_eqb (ui_GroupKey x) groupKey) (u :: us)) "reconstruct situation group key" in
      let t := fold_left merge_times (ui_Times <$> us) (ui_Times u) in
      let observed := fold_left laterTime (ui_LastLifecycleObservedAt <$> us) (ui_LastLifecycleObservedAt u) in
      let? (id, db1) :=
        match nonterminalSituationIDByGroupTx db groupKey with
        | Some id => let? db1 := joinReconstruction db id t observed now in Ok (id, db1)
        | None => let? db1 := createSituationForReconstructionTx db newID groupKey t observed now in Ok (newID, db1)
        end in
      let? db2 := attach_each id (u :: us) db1 in
      Ok (id, refreshed db2)
  end.
