(* ===== verification/SituationWorld.v ===== *)
(** * From deliveries to Situations (store/situations.go, with the delivery ledger and the controller's store)

    The transactions of [SituationInputs] beside those of the delivery ledger
    and of the controllers, as steps over all the tables.  The invariant: a group
    has at most one open Situation, an Incident belongs to at most one Situation
    and for good, an input counts once and at a version of its own.  And the two
    refinements: the ledger of the whole is a ledger, and every Situation is one
    of [ControllerStore]'s. *)

From stdpp Require Import prelude strings list gmap sorting relations.
From S2P Require Import Prelude SituationModel Snapshot Lifecycle TriageStore ErrorClass Deliveries DeliveryLedger Correlator ControllerStore HistoryStore SituationInputs Reconstruction.

(** ** What the ledger writes to the outbox *)

(** The foreign key of an input, and the group its writer copies. *)
Definition addressed (db : delivery_db) (n : SituationInput) : Prop :=
  ∃ i, i ∈ d_incidents db ∧ ic_ID i = si_IncidentID n ∧ ic_GroupKey i = si_GroupKey n.

Definition input_ids (db : delivery_db) : list string := si_ID <$> d_outbox db.

(** Incidents stay, the outbox grows by addressed rows under new identities, and
    the lifecycles of the owners are the Situations' to change. *)
Record writes (db db' : delivery_db) : Prop := {
  wr_persists : persists db db';
  wr_outbox : ∃ extra, d_outbox db' = d_outbox db ++ extra ∧ Forall (addressed db') extra;
  wr_keys : NoDup (input_ids db) → NoDup (input_ids db');
  wr_lifecycles : d_lifecycles db' = d_lifecycles db
}.

Lemma addressed_persists db db' n : persists db db' → addressed db n → addressed db' n.
Proof. intros Hp (i & Hi & E & G). destruct (Hp i Hi) as (j & Hj & Ej & Gj). exists j. split; [done|]. split; congruence. Qed.

#[export] Instance writes_preorder : PreOrder writes.
Proof.
  split.
  - intros db. split; [reflexivity| |done..]. exists []. by rewrite app_nil_r.
  - intros a b c [P1 (x & Ex & Fx) K1 L1] [P2 (y & Ey & Fy) K2 L2]. split; [by etrans| |by auto|congruence]. exists (x ++ y).
    rewrite Ey, Ex, app_assoc. split; [done|]. apply Forall_app. split; [|done].
    eapply Forall_impl; [exact Fx|]. intros n. by apply addressed_persists.
Qed.

(** What a write that queues no input leaves. *)
Definition queued (db : delivery_db) : list SituationInput * gmap string Lifecycle := (d_outbox db, d_lifecycles db).

Lemma writes_silent db db' : persists db db' → queued db' = queued db → writes db db'.
Proof. intros Hp [= Eo El]. split; [done| |unfold input_ids; by rewrite Eo|done]. exists []. by rewrite app_nil_r. Qed.

Lemma takes_new_id n db : outbox_takes n db = true → si_ID n ∉ input_ids db.
Proof.
  unfold outbox_takes. intros [_ H%negb_true_iff]%andb_true_iff (x & E & Hx)%list_elem_of_fmap.
  apply not_true_iff_false in H. destruct H. apply existsb_exists. exists x. rewrite <- list_elem_of_In. split; [done|].
  unfold input_clashes. by rewrite E, str_eqb_refl.
Qed.

Lemma writes_input n db : outbox_takes n db = true → addressed db n → writes db (set_outbox (d_outbox db ++ [n]) db).
Proof.
  intros Ht%takes_new_id Ha. split; [by apply persists_same| | |done].
  - eexists. split; [done|]. constructor; [|done]. by destruct Ha as (i & ? & ?); exists i.
  - intros Hnd. unfold input_ids. simpl. rewrite fmap_app. apply NoDup_app. split; [done|]. split; [|apply NoDup_singleton].
    intros x Hx ->%list_elem_of_singleton. done.
Qed.

Lemma writes_ignoring n db : addressed db n → writes db (enqueue_ignoring n db).
Proof. intros Ha. unfold enqueue_ignoring. case_match eqn:E; [by apply writes_input|reflexivity]. Qed.

(** A change of the status of an Incident. *)
Lemma move_queued db id from to db' : move_incident db id from to = Some db' → queued db' = queued db.
Proof. unfold move_incident. case_match; [|done]. by intros [= <-]. Qed.

Lemma move_persists db id from to db' : move_incident db id from to = Some db' → persists db db'.
Proof.
  unfold move_incident. case_match; [|done]. intros [= <-] i Hi. eexists. split; [apply elem_of_update_rows; by exists i|]. by case_match.
Qed.

Lemma move_writes db id from to db' : move_incident db id from to = Some db' → writes db db'.
Proof. intros H. apply writes_silent; [by eapply move_persists|by eapply move_queued]. Qed.

Lemma clear_triage_writes id db : writes db (clear_triage id db).
Proof. unfold clear_triage. case_match; [reflexivity|by apply writes_silent; [apply persists_same|]]. Qed.

Lemma resolve_writes db id db' : resolve_incident db id = Some db' → writes db db'.
Proof. unfold resolve_incident. intros (db1 & H1 & ->)%fmap_Some. etrans; [by eapply move_writes|apply clear_triage_writes]. Qed.

Lemma kind_writes db req id ds st cr kind res db' :
  correlatedSituationInputKindTx db req id ds st cr = Ok (kind, res, db') → writes db db'.
Proof.
  unfold correlatedSituationInputKindTx. intros H.
  repeat (case_match; simplify_eq/=; try reflexivity); eauto using move_writes, resolve_writes.
Qed.

(** The rows of [l] keep their Incident and group through the loop. *)
Lemma reconcile_fold_writes id at_ l db :
  Forall (λ i, ∃ j, j ∈ d_incidents db ∧ ic_ID j = ic_ID i ∧ ic_GroupKey j = ic_GroupKey i) l →
  writes db (foldl (reconcile_one id at_) db l).
Proof.
  revert db. induction l as [|i l IH]; intros db; [reflexivity|]. intros [(j & Hj & Ej & Gj) Hl]%Forall_cons. simpl.
  assert (Hw : writes db (reconcile_one id at_ db i)).
  { assert (Hgo : ∀ kind db1, writes db db1 → writes db (enqueue_ignoring (membership_input id i kind at_) db1)).
    { intros kind db1 Hw. etrans; [exact Hw|]. apply writes_ignoring. eapply addressed_persists; [by apply wr_persists|]. by exists j. }
    unfold reconcile_one, reconcileResolvedMembershipTx.
    repeat (case_match; simplify_eq/=); apply Hgo; eauto using resolve_writes; reflexivity. }
  etrans; [exact Hw|]. apply IH. eapply Forall_impl; [exact Hl|]. intros x (y & Hy & Ey & Gy).
  destruct (wr_persists _ _ Hw y Hy) as (z & Hz & Ez & Gz). exists z. split; [done|]. split; congruence.
Qed.

Lemma reconcile_writes db id alertID owner at_ : writes db (reconcileResolvedMembershipsTx db id alertID owner at_).
Proof.
  apply reconcile_fold_writes, Forall_forall. intros i Hi%elem_of_SliceStable. apply elem_of_select_rows in Hi as [_ Hi]. by exists i.
Qed.

Lemma ensure_queued db inc reuse now x db' : ensureCorrelatedIncidentTx db inc reuse now = Ok (x, db') → queued db' = queued db.
Proof. unfold ensureCorrelatedIncidentTx. intros H. repeat (case_match; simplify_eq/=; try done). Qed.

Lemma apply_writes db m opened now r db' : ledger_inv db → ApplyCorrelatedDelivery db m opened now = Ok (r, db') → writes db db'.
Proof.
  intros Hinv (d & _ & _ & Hnew)%apply_found; [|done].
  apply apply_new_steps in Hnew as (cr&st&id&db1&occ&db2&db3&req&kind&res&db4&db5&n&E1&_&E2&E3&E4&E5&En&Ht&_&->&_).
  destruct (ensure_inv _ _ _ _ _ _ _ _ Hinv E1) as (_&_&Ex1&_&_&_&_&_&_&(i&Hi&Ei&Gi&_)).
  assert (W1 : writes db db1) by (apply writes_silent; [by eapply ensure_persists|by eapply ensure_queued]).
  assert (W2 : writes db1 db2).
  { apply writes_silent; [by eapply persists_same, occurrence_incidents|]. clear -E2.
    unfold applyCorrelatedOccurrenceTx, insertCorrelatedOccurrenceTx, touchCorrelatedOccurrenceTx, check in E2.
    repeat (case_match; simplify_eq/=; try done). }
  assert (W3 : writes db2 db3).
  { apply writes_silent; [by eapply attach_persists|]. clear -E3. unfold attachCorrelatedDeliveryTx in E3. case_match; [|done]. by injection E3 as <-. }
  assert (W5 : writes db1 db5).
  { etrans; [exact W2|]. etrans; [exact W3|]. etrans; [by eapply kind_writes|]. subst db5.
    destruct (str_eqb _ "resolved"); [apply reconcile_writes|reflexivity]. }
  etrans; [exact W1|]. etrans; [exact W5|]. etrans; [apply (writes_input n); [done|]|by apply writes_silent; [apply persists_same|]].
  eapply addressed_persists; [by apply wr_persists|]. subst n. by exists i.
Qed.

Lemma ready_writes db id now db' : MarkIncidentReadyWithSituationInput db id now = Ok db' → writes db db'.
Proof.
  assert (Hseed : ∀ db id, writes db (seedAwaitingDecisionTriageTx db id)).
  { intros. unfold seedAwaitingDecisionTriageTx. case_match; [reflexivity|by apply writes_silent; [apply persists_same|]]. }
  unfold MarkIncidentReadyWithSituationInput, check. destruct (negb (blank id)); [|done]. simpl.
  destruct (find_incident db id) as [i|] eqn:Ef; [|done]. apply find_incident_in in Ef as [Hi _].
  destruct (has_status StatusCollecting i).
  - destruct (move_incident _ _ _ _) as [db1|] eqn:E1; [|done]. destruct (enqueue _ db1) as [db2|] eqn:E2; [|done]. simpl. intros [= <-].
    apply enqueue_ok in E2 as [Ht ->]. etrans; [by eapply move_writes|]. etrans; [apply writes_input; [done|]|apply Hseed].
    eapply addressed_persists; [by eapply move_persists|]. by exists i.
  - destruct (has_status StatusReady i); [|done]. destruct (existsb _ _); [|done]. simpl. by intros [= <-].
Qed.

Lemma prune_queued fuel db before batch n db' : PruneOccurrences fuel db before batch = Some (n, db') → queued db' = queued db.
Proof.
  unfold PruneOccurrences. generalize (Z.to_nat (if (batch <=? 0)%Z then defaultPruneBatch else batch)) as b. intros b.
  revert db n. induction fuel as [|f IH]; intros db n; simpl; [done|]. case_match; intros; simplify_eq/=; [done|].
  destruct (prune_loop f _ _ _) as [[n1 db1]|] eqn:E; [|done]. simplify_eq/=. by rewrite (IH _ _ E).
Qed.

Lemma accept_queued db l ds db' : AcceptDeliveries db l = Ok (ds, db') → queued db' = queued db.
Proof.
  unfold AcceptDeliveries. destruct (prepareDeliveries l) as [ps|]; [|done]. simpl. clear l. revert db ds db'.
  induction ps as [|p ps IH]; intros db ds db'; simpl; [by intros [= _ <-]|].
  destruct (acceptDelivery db p) as [[d db1]|] eqn:E1; [|done]. simpl.
  destruct (accept_all db1 ps) as [[ds1 db2]|] eqn:E2; [|done]. simpl. intros [= _ <-]. rewrite (IH _ _ _ E2).
  unfold acceptDelivery, upsertDeliveryAlertTx, insertDeliveryTx in E1. repeat (case_match; simplify_eq/=; try done).
Qed.

Lemma accept_writes db l ds db' : ledger_inv db → AcceptDeliveries db l = Ok (ds, db') → writes db db'.
Proof. intros Hinv H. apply writes_silent; [eapply step_persists; [by eapply ls_accept|done]|by eapply accept_queued]. Qed.

(** The transactions of the correlator write so; of the other workers of the
    ledger it is asked. *)
Lemma transaction_writes db db' : transaction db db' → ledger_inv db → writes db db'.
Proof.
  intros [] Hinv.
  - apply writes_silent; [eapply step_persists; [by eapply ls_claim|done]|].
    revert H. unfold ClaimAlertDispatches. destruct (check _ _); [|done]. simpl. by intros [= _ <-].
  - apply writes_silent; [eapply step_persists; [by eapply ls_retry|done]|]. revert H. unfold RetryAlertDispatch.
    destruct (match dp_LeaseOwner _ with Some _ => _ | None => _ end); [|done]. simpl.
    destruct (validateErrorClass class); [|done]. simpl. destruct (check _ _); [|done]. simpl. case_match; [|done]. by intros [= <-].
  - by eapply apply_writes.
  - by eapply ready_writes.
  - apply writes_silent; [eapply step_persists; [by eapply ls_prune|done]|by eapply prune_queued].
Qed.

(** ** Steps *)

(** The journal takes an artifact that was applied (HistoryStore.v). *)
Definition journaled_columns (transitionID : string) (c : input_columns) : input_columns :=
  {| in_Status := in_Status c; in_LeaseOwner := in_LeaseOwner c; in_LeaseExpiresAt := in_LeaseExpiresAt c;
     in_ClaimToken := in_ClaimToken c; in_AttemptCount := in_AttemptCount c; in_LastErrorClass := in_LastErrorClass c;
     in_RetryAt := in_RetryAt c; in_AppliedSituationID := in_AppliedSituationID c; in_AppliedAt := in_AppliedAt c;
     in_AppliedInputVersion := in_AppliedInputVersion c; in_JournalState := JournalJournaled transitionID |}.

(** A transaction of the controllers on one Situation; its commit sets
    [terminal_at] with the lifecycle. *)
Definition worked (w : ControllerStore.state) (terminal_at : option Time) (s : situation) : situation :=
  {| sn_ID := sn_ID s; sn_PreviousSituationID := sn_PreviousSituationID s; sn_GroupKey := sn_GroupKey s;
     sn_OpenedAt := sn_OpenedAt s; sn_EffectiveStartedAt := sn_EffectiveStartedAt s;
     sn_EffectiveStartedAtBasis := sn_EffectiveStartedAtBasis s; sn_FirstReceivedAt := sn_FirstReceivedAt s;
     sn_LastLifecycleObservedAt := sn_LastLifecycleObservedAt s; sn_TerminalAt := terminal_at; sn_work := w |}.

(** The CHECK on the column. *)
Definition ended_column (l : Lifecycle) (terminal_at : option Time) : Prop := Terminal l = true ↔ is_Some terminal_at.

(** An Incident of its group that no Situation has: a restart lists those. *)
Definition missed (db : situation_db) (u : UpgradeIncident) : Prop :=
  (∃ i, i ∈ d_incidents (sd_ledger db) ∧ ic_ID i = ui_IncidentID u ∧ ic_GroupKey i = ui_GroupKey u)
  ∧ ui_IncidentID u ∉ (sd_members db).*2.

Inductive situation_step (db : situation_db) : situation_db → Prop :=
| ss_ledger l :
    ledger_step (sd_ledger db) l → writes (sd_ledger db) l → situation_step db (set_ledger l db)
| ss_claim owner now lease limit claims db' :
    ClaimSituationInputs db owner now lease limit = Ok (claims, db') → situation_step db db'
| ss_retry claim class at_ terminal db' : RetrySituationInput db claim class at_ terminal = Ok db' → situation_step db db'
| ss_defer claim at_ db' : DeferSituationInput db claim at_ = Ok db' → situation_step db db'
| ss_apply claim id side now r db' : ApplySituationInputResult db claim id side now = Ok (r, db') → situation_step db db'
| ss_controller s w terminal_at :
    s ∈ sd_situations db → ControllerStore.step (sn_work s) w → ended_column (row_lifecycle (st_row w)) terminal_at →
    situation_step db (refreshed (set_situations (update_rows (situation_is (sn_ID s)) (worked w terminal_at) (sd_situations db)) db))
| ss_journal n transitionID :
    n ∈ outbox db → in_Status (columns db n) = InputApplied → in_JournalState (columns db n) = JournalPending →
    situation_step db (update_inputs (is_input (si_ID n)) (journaled_columns transitionID) db)
| ss_recover now : situation_step db (RecoverExpiredFoundationLeases db now).2
| ss_reconstruct g us newID now id db' :
    Forall (missed db) us → ReconstructSituation db g us newID now = Ok (id, db') → situation_step db db'.

Definition empty_situations : situation_db :=
  {| sd_ledger := empty_db; sd_inputs := ∅; sd_situations := []; sd_members := [] |}.

(** ** The invariant *)

Definition is_open (s : situation) : Prop := open_lifecycle (sn_lifecycle s) = true.
Definition is_ended (s : situation) : Prop := Terminal (sn_lifecycle s) = true.

(** The Situations and their memberships, over the Incidents of a ledger. *)
Record tables_ok (l : delivery_db) (sits : list situation) (mems : list (string * string)) : Prop := {
  tk_ids : NoDup (sn_ID <$> sits);
  tk_open : ∀ s t, s ∈ sits → t ∈ sits → sn_GroupKey s = sn_GroupKey t → is_open s → is_open t → sn_ID s = sn_ID t;
  tk_life : Forall (λ s, is_open s ∨ is_ended s) sits;
  tk_ended : Forall (λ s, ended_column (sn_lifecycle s) (sn_TerminalAt s)) sits;
  tk_version : Forall (λ s, 1 ≤ sn_version s)%Z sits;
  tk_previous : Forall (λ s, ∀ p, sn_PreviousSituationID s = Some p →
                  ∃ q, q ∈ sits ∧ sn_ID q = p ∧ sn_GroupKey q = sn_GroupKey s ∧ is_ended q) sits;
  tk_members : NoDup mems.*2;
  tk_member_of : Forall (λ m : string * string, ∃ s i, s ∈ sits ∧ sn_ID s = m.1 ∧ i ∈ d_incidents l ∧ ic_ID i = m.2
                   ∧ ic_GroupKey i = sn_GroupKey s) mems;
  tk_peopled : Forall (λ s, ∃ i, (sn_ID s, i) ∈ mems) sits
}.

Record columns_ok (n : SituationInput) (c : input_columns) : Prop := {
  co_owner : in_Status c = InputClaimed ↔ is_Some (in_LeaseOwner c);
  co_lease : in_Status c = InputClaimed ↔ is_Some (in_LeaseExpiresAt c);
  co_situation : in_Status c = InputApplied ↔ is_Some (in_AppliedSituationID c);
  co_applied : in_Status c = InputApplied ↔ is_Some (in_AppliedAt c);
  co_failed : in_Status c = InputFailed → in_RetryAt c = None;
  co_token : (0 ≤ in_ClaimToken c)%Z;
  co_attempts : (0 ≤ in_AttemptCount c ≤ in_ClaimToken c)%Z;
  co_journal : in_JournalState c = JournalNotApplicable ↔ isOperatorArtifactKind (si_Kind n) = false;
  co_journaled : (∃ t, in_JournalState c = JournalJournaled t) ∨ in_JournalState c = JournalOwnerTerminal → in_Status c = InputApplied
}.

(** An input applied to a Situation, at a version. *)
Definition counts (db : situation_db) (n : SituationInput) (id : string) (v : Z) : Prop :=
  in_AppliedSituationID (columns db n) = Some id ∧ in_AppliedInputVersion (columns db n) = Some v
  ∧ in_JournalState (columns db n) ≠ JournalOwnerTerminal.

Record situation_inv (db : situation_db) : Prop := {
  sv_ledger : ledger_inv (sd_ledger db);
  sv_keys : NoDup (input_ids (sd_ledger db));
  sv_addressed : Forall (addressed (sd_ledger db)) (outbox db);
  sv_rows : ∀ id, is_Some (sd_inputs db !! id) → id ∈ input_ids (sd_ledger db);
  sv_tables : tables_ok (sd_ledger db) (sd_situations db) (sd_members db);
  sv_columns : Forall (λ n, columns_ok n (columns db n)) (outbox db);
  sv_applied : Forall (λ n, ∀ id, in_AppliedSituationID (columns db n) = Some id →
                 (id, si_IncidentID n) ∈ sd_members db
                 ∧ ∃ s v, s ∈ sd_situations db ∧ sn_ID s = id ∧ in_AppliedInputVersion (columns db n) = Some v
                          ∧ (1 ≤ v ≤ sn_version s)%Z) (outbox db);
  sv_once : ∀ n n' id v, n ∈ outbox db → n' ∈ outbox db → counts db n id v → counts db n' id v → n = n';
  sv_lifecycles : d_lifecycles (sd_ledger db) = owner_lifecycles db
}.

(** ** The Situations *)

(** What no transaction does to a Situation: take its identity, reopen it,
    lower its version. *)
Record lives (s s' : situation) : Prop := {
  lv_id : sn_ID s' = sn_ID s;
  lv_group : sn_GroupKey s' = sn_GroupKey s;
  lv_previous : sn_PreviousSituationID s' = sn_PreviousSituationID s;
  lv_open : is_open s' → is_open s;
  lv_ended : is_ended s → is_ended s';
  lv_life : is_open s ∨ is_ended s → is_open s' ∨ is_ended s';
  lv_column : ended_column (sn_lifecycle s) (sn_TerminalAt s) → ended_column (sn_lifecycle s') (sn_TerminalAt s');
  lv_version : (sn_version s ≤ sn_version s')%Z
}.

#[export] Instance lives_refl : Reflexive lives.
Proof. intros s. by split. Qed.

Lemma lives_elem sits sits' s' : Forall2 lives sits sits' → s' ∈ sits' → ∃ s, s ∈ sits ∧ lives s s'.
Proof. intros F [k Hk]%list_elem_of_lookup. destruct (Forall2_lookup_r _ _ _ _ _ F Hk) as (s & Hs & ?). exists s. split; [by eapply list_elem_of_lookup_2|done]. Qed.

Lemma lives_elem_l sits sits' s : Forall2 lives sits sits' → s ∈ sits → ∃ s', s' ∈ sits' ∧ lives s s'.
Proof. intros F [k Hk]%list_elem_of_lookup. destruct (Forall2_lookup_l _ _ _ _ _ F Hk) as (s' & Hs & ?). exists s'. split; [by eapply list_elem_of_lookup_2|done]. Qed.

Lemma lives_ids sits sits' : Forall2 lives sits sits' → sn_ID <$> sits' = sn_ID <$> sits.
Proof. induction 1 as [|s s' ? ? [E _ _ _ _ _ _ _] _ IH]; [done|]. csimpl. by rewrite IH, E. Qed.

Lemma tables_live l sits sits' mems : tables_ok l sits mems → Forall2 lives sits sits' → tables_ok l sits' mems.
Proof.
  intros [] F. rewrite ?Forall_forall in *. split; rewrite ?Forall_forall.
  - by rewrite (lives_ids _ _ F).
  - intros s' t' Hs Ht Hg Os Ot. destruct (lives_elem _ _ _ F Hs) as (s & ? & [-> Gs _ Ss _ _ _ _]).
    destruct (lives_elem _ _ _ F Ht) as (t & ? & [-> Gt _ St _ _ _ _]). apply tk_open0; auto. congruence.
  - intros s' Hs. destruct (lives_elem _ _ _ F Hs) as (s & ? & []). auto.
  - intros s' Hs. destruct (lives_elem _ _ _ F Hs) as (s & ? & []). auto.
  - intros s' Hs. destruct (lives_elem _ _ _ F Hs) as (s & H & []). specialize (tk_version0 s H). simpl in *. lia.
  - intros s' Hs p. destruct (lives_elem _ _ _ F Hs) as (s & H & [_ Gs -> _ _ _ _ _]). intros Hp.
    destruct (tk_previous0 s H p Hp) as (q & Hq & <- & Gq & Eq). destruct (lives_elem_l _ _ _ F Hq) as (q' & Hq' & []).
    exists q'. repeat split; [done..|congruence|auto].
  - done.
  - intros m Hm. destruct (tk_member_of0 m Hm) as (s & i & Hs & ? & ? & ? & ?). destruct (lives_elem_l _ _ _ F Hs) as (s' & Hs' & []).
    exists s', i. repeat split; [done|congruence..].
  - intros s' Hs. destruct (lives_elem _ _ _ F Hs) as (s & H & [-> _ _ _ _ _ _ _]). auto.
Qed.

Lemma tables_persist l l' sits mems : tables_ok l sits mems → persists l l' → tables_ok l' sits mems.
Proof.
  intros [] Hp. split; try done. eapply Forall_impl; [exact tk_member_of0|]. intros m (s & i & ? & ? & Hi & ? & ?).
  destruct (Hp i Hi) as (j & ? & ? & ?). exists s, j. repeat split; [done..|congruence|congruence].
Qed.

(** One more Incident. *)
Lemma tables_attach l sits mems s i :
  tables_ok l sits mems → s ∈ sits → i ∈ d_incidents l → ic_GroupKey i = sn_GroupKey s → ic_ID i ∉ mems.*2 →
  tables_ok l sits (mems ++ [(sn_ID s, ic_ID i)]).
Proof.
  intros [] Hs Hi Hg Hn. split; try done.
  - rewrite fmap_app. apply NoDup_app. split; [done|]. split; [|apply NoDup_singleton]. by intros x Hx ->%list_elem_of_singleton.
  - apply Forall_app. split; [done|]. constructor; [|done]. by exists s, i.
  - eapply Forall_impl; [exact tk_peopled0|]. intros x (j & ?). exists j. apply elem_of_app. by left.
Qed.

(** A new Situation with its first Incident. *)
Lemma tables_create l sits mems s i :
  tables_ok l sits mems → sn_ID s ∉ sn_ID <$> sits → is_open s → ended_column (sn_lifecycle s) (sn_TerminalAt s) →
  (1 ≤ sn_version s)%Z → (∀ t, t ∈ sits → sn_GroupKey t = sn_GroupKey s → ¬ is_open t) →
  (∀ p, sn_PreviousSituationID s = Some p → ∃ q, q ∈ sits ∧ sn_ID q = p ∧ sn_GroupKey q = sn_GroupKey s ∧ is_ended q) →
  i ∈ d_incidents l → ic_GroupKey i = sn_GroupKey s → ic_ID i ∉ mems.*2 →
  tables_ok l (sits ++ [s]) (mems ++ [(sn_ID s, ic_ID i)]).
Proof.
  intros [] Hid Ho Hc Hv Hno Hp Hi Hg Hn. split.
  - rewrite fmap_app. apply NoDup_app. split; [done|]. split; [|apply NoDup_singleton]. by intros x Hx ->%list_elem_of_singleton.
  - intros x y [Hx| ->%list_elem_of_singleton]%elem_of_app [Hy| ->%list_elem_of_singleton]%elem_of_app Eg Ox Oy; [by apply tk_open0| | |done].
    + by destruct (Hno x Hx Eg).
    + by destruct (Hno y Hy (eq_sym Eg)).
  - apply Forall_app. split; [done|]. constructor; [by left|done].
  - apply Forall_app. split; [done|]. constructor; [done|by apply Forall_nil].
  - apply Forall_app. split; [done|]. constructor; [done|by apply Forall_nil].
  - assert (Hmono : ∀ x, (∀ p, sn_PreviousSituationID x = Some p → ∃ q, q ∈ sits ∧ sn_ID q = p ∧ sn_GroupKey q = sn_GroupKey x ∧ is_ended q) →
      ∀ p, sn_PreviousSituationID x = Some p → ∃ q, q ∈ sits ++ [s] ∧ sn_ID q = p ∧ sn_GroupKey q = sn_GroupKey x ∧ is_ended q).
    { intros x Hx p Ep. destruct (Hx p Ep) as (q & ? & ?). exists q. rewrite elem_of_app. auto. }
    apply Forall_app. split; [eapply Forall_impl; [exact tk_previous0|exact Hmono]|]. constructor; [by apply Hmono|by apply Forall_nil].
  - rewrite fmap_app. apply NoDup_app. split; [done|]. split; [|apply NoDup_singleton]. by intros x Hx ->%list_elem_of_singleton.
  - apply Forall_app. split.
    + eapply Forall_impl; [exact tk_member_of0|]. intros m (x & j & Hx & ?). exists x, j. rewrite elem_of_app. auto.
    + constructor; [|done]. exists s, i. rewrite elem_of_app, list_elem_of_singleton. auto 6.
  - apply Forall_app. split.
    + eapply Forall_impl; [exact tk_peopled0|]. intros x (j & ?). exists j. apply elem_of_app. by left.
    + constructor; [|done]. exists (ic_ID i). apply elem_of_app. right. by apply list_elem_of_singleton.
Qed.

(** ** Rows of the outbox *)

#[export] Instance SituationInput_eq_dec : EqDecision SituationInput.
Proof. solve_decision. Defined.

Lemma fold_lookup (l : list SituationInput) (g : SituationInput → input_columns) (P : SituationInput → bool) (m : gmap string input_columns) n :
  NoDup (si_ID <$> l) → n ∈ l →
  foldr (λ n m, if P n then <[si_ID n := g n]> m else m) m l !! si_ID n = if P n then Some (g n) else m !! si_ID n.
Proof.
  induction l as [|x l IH]; [set_solver|]. rewrite fmap_cons, NoDup_cons. intros [Hx Hl] [->|Hn]%elem_of_cons; simpl.
  - assert (E : foldr (λ n m, if P n then <[si_ID n := g n]> m else m) m l !! si_ID x = m !! si_ID x).
    { clear IH Hl. induction l as [|y l IH]; [done|]. rewrite fmap_cons, not_elem_of_cons in Hx. destruct Hx as [Hne Hx]. simpl.
      destruct (P y); [rewrite lookup_insert_ne by done|]; by apply IH. }
    destruct (P x); [by rewrite lookup_insert_eq|done].
  - assert (si_ID x ≠ si_ID n) by (intros E; apply Hx; rewrite E; by apply list_elem_of_fmap_2).
    destruct (P x); [rewrite lookup_insert_ne by done|]; by apply IH.
Qed.

Lemma fold_rows (l : list SituationInput) (g : SituationInput → input_columns) (P : SituationInput → bool) (m : gmap string input_columns) id :
  is_Some (foldr (λ n m, if P n then <[si_ID n := g n]> m else m) m l !! id) → is_Some (m !! id) ∨ id ∈ si_ID <$> l.
Proof.
  induction l as [|x l IH]; simpl; [by left|]. rewrite elem_of_cons. destruct (decide (id = si_ID x)) as [->|Hne]; [by right; left|].
  destruct (P x); [rewrite lookup_insert_ne by done|]; intros [|]%IH; auto.
Qed.

Lemma columns_update db P f n :
  NoDup (input_ids (sd_ledger db)) → n ∈ outbox db →
  columns (update_inputs P f db) n = if P n then f (columns db n) else columns db n.
Proof.
  intros Hnd Hn. unfold columns at 1. unfold update_inputs. cbn [sd_inputs set_inputs].
  rewrite (fold_lookup _ (λ n, f (columns db n))) by done. by destruct (P n).
Qed.

Lemma input_unique db n n' : NoDup (input_ids (sd_ledger db)) → n ∈ outbox db → n' ∈ outbox db → si_ID n = si_ID n' → n = n'.
Proof. apply (NoDup_fmap_inj si_ID). Qed.

(** An UPDATE that leaves what was applied. *)
Lemma update_inv db P f :
  situation_inv db →
  (∀ n, n ∈ outbox db → P n = true → columns_ok n (columns db n) → let c := columns db n in
     columns_ok n (f c) ∧ in_AppliedSituationID (f c) = in_AppliedSituationID c
     ∧ in_AppliedInputVersion (f c) = in_AppliedInputVersion c
     ∧ (in_JournalState c = JournalOwnerTerminal → in_JournalState (f c) = JournalOwnerTerminal)) →
  situation_inv (update_inputs P f db).
Proof.
  intros [] Hf.
  assert (Hc : ∀ n, n ∈ outbox db → columns_ok n (columns (update_inputs P f db) n)
    ∧ in_AppliedSituationID (columns (update_inputs P f db) n) = in_AppliedSituationID (columns db n)
    ∧ in_AppliedInputVersion (columns (update_inputs P f db) n) = in_AppliedInputVersion (columns db n)
    ∧ (in_JournalState (columns db n) = JournalOwnerTerminal → in_JournalState (columns (update_inputs P f db) n) = JournalOwnerTerminal)).
  { intros n Hn. rewrite columns_update by done. rewrite Forall_forall in sv_columns0. specialize (sv_columns0 n Hn).
    destruct (P n) eqn:E; [by apply Hf|done]. }
  split; try done.
  - intros id [?|?]%fold_rows; [by apply sv_rows0|done].
  - apply Forall_forall. intros n Hn. by apply Hc.
  - apply Forall_forall. intros n Hn id Ha. destruct (Hc n Hn) as (_ & E1 & E2 & _). rewrite E1 in Ha. rewrite E2.
    rewrite Forall_forall in sv_applied0. by apply sv_applied0.
  - intros n n' id v Hn Hn' (A1 & V1 & J1) (A2 & V2 & J2). destruct (Hc n Hn) as (_ & E1 & E2 & E3).
    destruct (Hc n' Hn') as (_ & E1' & E2' & E3'). apply (sv_once0 n n' id v); [done|done|..]; unfold counts.
    + rewrite <- E1, <- E2. repeat split; [done..|]. by intros ?%E3.
    + rewrite <- E1', <- E2'. repeat split; [done..|]. by intros ?%E3'.
Qed.

Lemma inserted_ok n : columns_ok n (inserted_columns n).
Proof.
  split; simpl; try done; try lia; try (split; [done|by intros [? [=]]]).
  - by destruct (isOperatorArtifactKind (si_Kind n)).
  - destruct (isOperatorArtifactKind (si_Kind n)); naive_solver.
Qed.

Lemma not_applied n c : columns_ok n c → in_Status c ≠ InputApplied →
  in_AppliedSituationID c = None ∧ in_AppliedAt c = None ∧ in_JournalState c ≠ JournalOwnerTerminal
  ∧ ∀ t, in_JournalState c ≠ JournalJournaled t.
Proof.
  intros [] Hs. split_and!.
  - apply eq_None_not_Some. by intros ?%co_situation0.
  - apply eq_None_not_Some. by intros ?%co_applied0.
  - intros E. apply Hs, co_journaled0. by right.
  - intros t E. apply Hs, co_journaled0. left. by exists t.
Qed.

Lemma claimed_columns_ok owner until n c : columns_ok n c → in_Status c ≠ InputApplied → columns_ok n (claimed_columns owner until c).
Proof.
  intros H Hs. destruct (not_applied _ _ H Hs) as (E1 & E2 & E3 & E4). destruct H. split; simpl; try done; try lia.
  - rewrite E1. split; [done|by intros [? [=]]].
  - rewrite E2. split; [done|by intros [? [=]]].
  - intros [[t ?]|?]; [by destruct (E4 t)|done].
Qed.

Lemma released_columns_ok class attempts retry n c :
  columns_ok n c → in_Status c ≠ InputApplied → (0 ≤ attempts ≤ in_ClaimToken c)%Z → columns_ok n (released_columns class attempts retry c).
Proof.
  intros H Hs Ha. destruct (not_applied _ _ H Hs) as (E1 & E2 & E3 & E4). destruct H.
  split; simpl; try done; try (destruct retry; (split; [done|by intros [? [=]]])).
  - rewrite E1. destruct retry; (split; [done|by intros [? [=]]]).
  - rewrite E2. destruct retry; (split; [done|by intros [? [=]]]).
  - by destruct retry.
  - intros [[t ?]|?]; [by destruct (E4 t)|done].
Qed.

Lemma input_due_status now c : input_due now c = true → in_Status c = InputPending ∨ in_Status c = InputClaimed.
Proof. unfold input_due, has_input_status. intros [[H _]%andb_true_iff|[H _]%andb_true_iff]%orb_true_iff; apply bool_decide_eq_true in H; auto. Qed.

Lemma among_claimed db now limit n :
  NoDup (input_ids (sd_ledger db)) → n ∈ outbox db → among_inputs (claimed_ids db now limit) n = true → claimable db now n = true.
Proof.
  intros Hnd Hn (id & Hid & E)%existsb_exists. go_bool. rewrite <- list_elem_of_In in Hid. unfold claimed_ids in Hid.
  apply list_elem_of_fmap in Hid as (x & -> & Hx). apply elem_of_take in Hx as (k & Hx & _). apply list_elem_of_lookup_2 in Hx.
  apply elem_of_SliceStable, elem_of_select_rows in Hx as [Hc Hx]. by rewrite (input_unique db n x).
Qed.

(** A claim is an UPDATE; a retry and a deferral are fenced ones. *)
Lemma claim_inputs_ok db owner now lease limit claims db' :
  ClaimSituationInputs db owner now lease limit = Ok (claims, db') →
  db' = update_inputs (among_inputs (claimed_ids db now limit)) (claimed_columns owner (Add now lease)) db.
Proof. unfold ClaimSituationInputs. destruct (check_input _ _); [|done]. by intros [= _ <-]. Qed.

Lemma retry_input_ok db claim class at_ terminal db' :
  RetrySituationInput db claim class at_ terminal = Ok db' →
  fenced claim (λ c, released_columns (Some class) (in_AttemptCount c) (if terminal then None else Some at_) c) db = Ok db'.
Proof.
  unfold RetrySituationInput. destruct (check_input _ _); [|done]. simpl. destruct (valid_class class); [|done]. simpl.
  by destruct (check_input _ _).
Qed.

Lemma defer_input_ok db claim at_ db' :
  DeferSituationInput db claim at_ = Ok db' →
  fenced claim (λ c, released_columns (in_LastErrorClass c) (Z.max (in_AttemptCount c - 1) 0) (Some at_) c) db = Ok db'.
Proof. unfold DeferSituationInput. destruct (check_input _ _); [|done]. simpl. by destruct (check_input _ _). Qed.

Lemma claim_inputs_keeps db owner now lease limit claims db' :
  situation_inv db → ClaimSituationInputs db owner now lease limit = Ok (claims, db') → situation_inv db'.
Proof.
  intros Hinv ->%claim_inputs_ok. apply update_inv; [done|]. intros n Hn Ha%among_claimed; [|by apply sv_keys|done]. intros Hok. simpl.
  apply andb_true_iff in Ha as [[H|H]%input_due_status _]; (split; [apply claimed_columns_ok; [done|by rewrite H]|done]).
Qed.

Lemma holds_spec claim db n :
  holds_input claim db n = true ↔
  si_ID n = si_ID (sc_Input claim) ∧ in_Status (columns db n) = InputClaimed
  ∧ in_LeaseOwner (columns db n) = Some (sc_LeaseOwner claim) ∧ in_ClaimToken (columns db n) = sc_ClaimToken claim.
Proof.
  unfold holds_input, holds_columns, is_input, has_input_status, str_eqb. rewrite !andb_true_iff, !bool_decide_eq_true, String.eqb_eq, Z.eqb_eq. tauto.
Qed.

Lemma fenced_ok claim f db db' : fenced claim f db = Ok db' →
  ∃ n, n ∈ outbox db ∧ holds_input claim db n = true ∧ db' = update_inputs (holds_input claim db) f db.
Proof.
  unfold fenced. destruct (existsb _ _) eqn:E; [|done]. intros [= <-]. apply existsb_exists in E as (n & Hn & H).
  exists n. by rewrite list_elem_of_In.
Qed.

Lemma release_keeps claim class attempts retry db db' :
  situation_inv db → (∀ n c, columns_ok n c → 0 ≤ attempts c ≤ in_ClaimToken c)%Z →
  fenced claim (λ c, released_columns (class c) (attempts c) retry c) db = Ok db' → situation_inv db'.
Proof.
  intros Hinv Ha (_ & _ & _ & ->)%fenced_ok. apply update_inv; [done|]. intros n Hn (_ & Hs & _)%holds_spec Hok. simpl.
  split; [|done]. apply released_columns_ok; [done|by rewrite Hs|by eapply Ha].
Qed.

Lemma retry_input_keeps db claim class at_ terminal db' :
  situation_inv db → RetrySituationInput db claim class at_ terminal = Ok db' → situation_inv db'.
Proof.
  intros Hinv H%retry_input_ok. revert H. apply (release_keeps _ (λ _, Some class)); [done|]. by intros n c [].
Qed.

Lemma defer_keeps db claim at_ db' : situation_inv db → DeferSituationInput db claim at_ = Ok db' → situation_inv db'.
Proof.
  intros Hinv H%defer_input_ok. revert H. apply (release_keeps _ in_LastErrorClass (λ c, Z.max (in_AttemptCount c - 1) 0)); [done|]. intros n c []. lia.
Qed.

Lemma journal_keeps db n t :
  situation_inv db → n ∈ outbox db → in_Status (columns db n) = InputApplied → in_JournalState (columns db n) = JournalPending →
  situation_inv (update_inputs (is_input (si_ID n)) (journaled_columns t) db).
Proof.
  intros Hinv Hn Hs Hj. apply update_inv; [done|]. intros x Hx E Hok. unfold is_input in E. go_bool.
  rewrite (input_unique db x n) in * by (done || by apply sv_keys). simpl. split; [|by rewrite Hj].
  destruct Hok. split; simpl; try done. rewrite Hj in co_journal0. split; [done|]. by intros ?%co_journal0.
Qed.

(** ** The other workers *)

Lemma legal_update_open l l' : legal_lifecycle_update l l' = true → open_lifecycle l = true ∧ (open_lifecycle l' = true ∨ Terminal l' = true).
Proof. destruct l, l'; simpl; intros [=]; split; auto. Qed.

Lemma open_not_ended l : open_lifecycle l = true → Terminal l = true → False.
Proof. by destruct l. Qed.

(** What a transaction of the controllers does to the version and the lifecycle. *)
Definition row_lives (r r' : situation_row) : Prop :=
  (input_version r ≤ input_version r')%Z
  ∧ (row_lifecycle r' = row_lifecycle r ∨ legal_lifecycle_update (row_lifecycle r) (row_lifecycle r') = true).

Lemma join_row r reason occurredAt now r' :
  joinSituationTx r reason occurredAt now = Ok r' → input_version r' = (input_version r + 1)%Z ∧ row_lifecycle r' = row_lifecycle r.
Proof. unfold joinSituationTx. case_match; [|done]. by intros [= <-]. Qed.

Lemma step_row_lives w w' : ControllerStore.step w w' → row_lives (st_row w) (st_row w').
Proof.
  intros []; unfold row_lives; simpl; try (split; [lia|by left]).
  - apply join_row in H as [-> ->]. split; [lia|by left].
  - unfold judgment_wake in H. case_match; [|done]. injection H as <-. simpl. split; [lia|by left].
  - unfold ClaimDueSituations in H. repeat (case_match; simplify_eq/=). split; [lia|by left].
  - unfold RecordAssessmentCall in H1. repeat (case_match; [|done]). destruct (insertAssessmentCallTx _ _); [|done]. injection H1 as <- <-. simpl. split; [lia|by left].
  - unfold CommitController in H1. repeat (case_match; [|done]). destruct (refundBudgetDeniedAttemptTx _ _ _ _ _); [|done]. simpl in H1.
    case_match; [|done]. injection H1 as <-. simpl. split; [lia|by right].
  - unfold ReleaseControllerWork in H0. repeat (case_match; [|done]). injection H0 as <-. destruct retryAt; split; simpl; [lia|by left|lia|by left].
  - unfold ExtendControllerLease in H0. repeat (case_match; [|done]). injection H0 as <-. split; simpl; [lia|by left].
  - unfold WakeDependencyRecoveredSituations. case_match; split; simpl; [lia|by left|lia|by left].
  - unfold RecoverInterruptedAssessmentCalls in H. repeat (case_match; simplify_eq/=); split; try lia; by left.
  - unfold recover_lease. case_match; split; simpl; [lia|by left|lia|by left].
Qed.

Lemma row_lives_worked s w terminal_at :
  row_lives (sn_row s) (st_row w) → ended_column (row_lifecycle (st_row w)) terminal_at → lives s (worked w terminal_at s).
Proof.
  intros [Hv Hl] Hc. unfold sn_row in *. split; unfold is_open, is_ended, sn_lifecycle, sn_version, sn_row; try done; simpl;
    (destruct Hl as [->|Hl]; [done|apply legal_update_open in Hl as [H1 H2]]); try tauto.
  intros H3. exfalso. by eapply open_not_ended.
Qed.

Lemma update_lives P f sits : (∀ s, s ∈ sits → P s = true → lives s (f s)) → Forall2 lives sits (update_rows P f sits).
Proof.
  intros Hf. induction sits as [|s l IH]; constructor.
  - destruct (P s) eqn:E; [apply Hf; [by left|done]|reflexivity].
  - apply IH. intros x Hx. apply Hf. by right.
Qed.

Lemma find_situation_in db id s : find_situation db id = Some s → s ∈ sd_situations db ∧ sn_ID s = id.
Proof. apply (find_key sn_ID). Qed.

Lemma situation_unique l sits mems s t : tables_ok l sits mems → s ∈ sits → t ∈ sits → sn_ID s = sn_ID t → s = t.
Proof. intros []. by apply (NoDup_fmap_inj sn_ID). Qed.

(** The lifecycles of the owners are read anew after a change of the tables. *)
Lemma lifecycles_keep m db : others_keep db (set_lifecycles m db).
Proof. split; try done. exists []. by rewrite app_nil_r. Qed.

(** New Situations and members that leave the versions that were applied. *)
Lemma tables_inv db sits mems :
  situation_inv db → tables_ok (sd_ledger db) sits mems →
  (∀ s, s ∈ sd_situations db → ∃ s', s' ∈ sits ∧ sn_ID s' = sn_ID s ∧ (sn_version s ≤ sn_version s')%Z) →
  (∀ m, m ∈ sd_members db → m ∈ mems) →
  situation_inv (refreshed (set_situations sits (set_situation_members mems db))).
Proof.
  intros [] Ht Hs Hm. split; simpl; try done.
  - eapply others_keep_inv; [done|apply lifecycles_keep].
  - eapply tables_persist; [done|by apply persists_same].
  - apply Forall_forall. intros n Hn id Ha. rewrite Forall_forall in sv_applied0.
    destruct (sv_applied0 n Hn id Ha) as (Hin & s & v & H1 & H2 & H3 & H4). split; [by apply Hm|].
    destruct (Hs s H1) as (s' & ? & ? & ?). exists s', v. split; [done|]. split; [congruence|]. split; [done|lia].
Qed.

Lemma controller_keeps db s w terminal_at :
  situation_inv db → s ∈ sd_situations db → ControllerStore.step (sn_work s) w → ended_column (row_lifecycle (st_row w)) terminal_at →
  situation_inv (refreshed (set_situations (update_rows (situation_is (sn_ID s)) (worked w terminal_at) (sd_situations db)) db)).
Proof.
  intros Hinv Hs Hw Hc. pose proof (sv_tables _ Hinv) as Ht.
  assert (F : Forall2 lives (sd_situations db) (update_rows (situation_is (sn_ID s)) (worked w terminal_at) (sd_situations db))).
  { apply update_lives. intros t Hin E. unfold situation_is in E. go_bool. rewrite (situation_unique _ _ _ t s Ht Hin Hs E).
    apply row_lives_worked; [by apply step_row_lives|done]. }
  apply (tables_inv db _ (sd_members db) Hinv); [by eapply tables_live| |done].
  intros t Hin. destruct (lives_elem_l _ _ _ F Hin) as (t' & ? & []). by exists t'.
Qed.

Lemma ledger_keeps db l :
  situation_inv db → ledger_step (sd_ledger db) l → writes (sd_ledger db) l → situation_inv (set_ledger l db).
Proof.
  intros [] Hstep [Hp (extra & Ex & Fx) Hk Hl]. specialize (Hk sv_keys0).
  assert (Hnew : ∀ n, n ∈ extra → columns (set_ledger l db) n = inserted_columns n).
  { intros n Hn. unfold columns. simpl. destruct (sd_inputs db !! si_ID n) eqn:E; [|done]. exfalso.
    assert (Hold : si_ID n ∈ input_ids (sd_ledger db)) by (apply sv_rows0; by rewrite E).
    unfold input_ids in Hk, Hold. rewrite Ex, fmap_app in Hk. apply NoDup_app in Hk as (_ & Hd & _).
    apply (Hd _ Hold). by apply list_elem_of_fmap_2. }
  assert (Hout : ∀ n, n ∈ outbox (set_ledger l db) → n ∈ outbox db ∨ n ∈ extra).
  { intros n Hn. unfold outbox in *. simpl in Hn. rewrite Ex in Hn. by apply elem_of_app in Hn. }
  split; simpl; try done.
  - by eapply step_keeps_inv.
  - unfold outbox. simpl. rewrite Ex. apply Forall_app. split; [|done]. eapply Forall_impl; [exact sv_addressed0|].
    intros n. by apply addressed_persists.
  - intros id Hid%sv_rows0. unfold input_ids in *. rewrite Ex, fmap_app, elem_of_app. by left.
  - by eapply tables_persist.
  - apply Forall_forall. intros n [Hn|Hn]%Hout; [|rewrite Hnew by done; apply inserted_ok].
    rewrite Forall_forall in sv_columns0. by apply sv_columns0.
  - apply Forall_forall. intros n [Hn|Hn]%Hout; [|by rewrite Hnew by done]. rewrite Forall_forall in sv_applied0. by apply sv_applied0.
  - assert (Hc : ∀ n id v, n ∈ extra → ¬ counts (set_ledger l db) n id v) by (intros n id v Hn (A & _); by rewrite Hnew in A by done).
    intros n n' id v [Hn|Hn]%Hout [Hn'|Hn']%Hout C1 C2; [by eapply sv_once0|by destruct (Hc n' id v)|by destruct (Hc n id v)|by destruct (Hc n id v)].
  - by rewrite Hl.
Qed.

(** ** Applying an input *)

(** The tables after an input joined or opened a Situation. *)
Definition landed (db : situation_db) (claim : SituationClaim) (n : SituationInput) (sits : list situation)
    (mems : list (string * string)) (id : string) (v : Z) (now : Time) : situation_db :=
  update_inputs (holds_input claim db) (applied_columns id v (joined_journal n) now)
    (refreshed (set_situations sits (set_situation_members mems db))).

(** The members once an Incident is attached. *)
Definition attached (db : situation_db) (id incidentID : string) : list (string * string) :=
  if existsb (owned_by incidentID) (sd_members db) then sd_members db else sd_members db ++ [(id, incidentID)].

Inductive applied_effect (db : situation_db) (claim : SituationClaim) (n : SituationInput) (due : string) (t : source_times)
    (newID : string) (now : Time) : SituationInputApplied → situation_db → Prop :=
| ae_ended s :
    isOperatorArtifactKind (si_Kind n) = true → situationOwnerForIncidentTx db (si_IncidentID n) = Some (sn_ID s) →
    find_situation db (sn_ID s) = Some s → is_ended s →
    applied_effect db claim n due t newID now
      {| sa_SituationID := sn_ID s; sa_InputVersion := sn_version s; sa_SupersededClaimToken := 0%Z |}
      (update_inputs (holds_input claim db) (applied_columns (sn_ID s) (sn_version s) JournalOwnerTerminal now) db)
| ae_joined s row :
    (situationOwnerForIncidentTx db (si_IncidentID n) = Some (sn_ID s)
       ∧ (isOperatorArtifactKind (si_Kind n) = true → ¬ is_ended s)
     ∨ situationOwnerForIncidentTx db (si_IncidentID n) = None
       ∧ nonterminalSituationIDByGroupTx db (si_GroupKey n) = Some (sn_ID s)) →
    find_situation db (sn_ID s) = Some s → joinSituationTx (sn_row s) due (si_OccurredAt n) now = Ok row →
    applied_effect db claim n due t newID now
      {| sa_SituationID := sn_ID s; sa_InputVersion := input_version row;
         sa_SupersededClaimToken := if lease_live (row_lease (sn_row s)) now then claim_token (row_lease (sn_row s)) else 0%Z |}
      (landed db claim n (update_rows (situation_is (sn_ID s)) (joined_situation t row) (sd_situations db))
         (attached db (sn_ID s) (si_IncidentID n)) (sn_ID s) (input_version row) now)
| ae_opened :
    situationOwnerForIncidentTx db (si_IncidentID n) = None → nonterminalSituationIDByGroupTx db (si_GroupKey n) = None →
    newID ≠ "" → newID ∉ sn_ID <$> sd_situations db → si_GroupKey n ≠ "" →
    applied_effect db claim n due t newID now
      {| sa_SituationID := newID; sa_InputVersion := 1%Z; sa_SupersededClaimToken := 0%Z |}
      (landed db claim n (sd_situations db ++ [opened_situation db newID (si_GroupKey n) t due (si_OccurredAt n) now])
         (attached db newID (si_IncidentID n)) newID 1%Z now).

Lemma ended_owner_ok db owner e :
  ended_owner db owner = Ok e →
  match e with
  | Some s => ∃ id, owner = Some id ∧ find_situation db id = Some s ∧ is_ended s
  | None => ∀ id s, owner = Some id → find_situation db id = Some s → ¬ is_ended s
  end.
Proof.
  unfold ended_owner, is_ended. destruct owner as [id|]; [|by intros [= <-]]. destruct (find_situation db id) as [s|] eqn:E; [|done].
  destruct (Terminal (sn_lifecycle s)) eqn:Et; intros [= <-]; [by exists id|]. intros ? ? [= <-]. rewrite E. intros [= <-]. by rewrite Et.
Qed.

Lemma apply_input_cases db claim newID side now r db' :
  ApplySituationInputResult db claim newID side now = Ok (r, db') →
  ∃ n, find_input db (si_ID (sc_Input claim)) = Some n ∧
    (in_Status (columns db n) = InputApplied ∧ r = nothing_applied ∧ db' = db
     ∨ holds_columns (sc_LeaseOwner claim) (sc_ClaimToken claim) (columns db n) = true
       ∧ check_addressed (sd_ledger db) n = Ok tt
       ∧ ∃ due t, dueReasonForInputKind (si_Kind n) = Ok due ∧ sourceTimesForInputTx (sd_ledger db) n = Ok t
                  ∧ applied_effect db claim n due t newID now r db').
Proof.
  unfold ApplySituationInputResult. destruct (check_input _ _) as [[]|]; [|done]. simpl.
  destruct (find_input db _) as [n|]; [|done]. intros H. exists n. split; [done|]. revert H.
  destruct (has_input_status InputApplied (columns db n)) eqn:Ea.
  { intros [= <- <-]. left. by apply bool_decide_eq_true in Ea. }
  destruct (holds_columns _ _ _) eqn:Eh; [|done]. destruct (dueReasonForInputKind _) as [due|]; [|done]. simpl.
  destruct (check_addressed _ _) as [[]|]; [|done]. simpl. destruct (sourceTimesForInputTx _ _) as [t|]; [|done]. simpl.
  destruct (went (sw_signature side)); [|done]. simpl. destruct (resolveAndApplySituationTx _ _ _ _ _ _) as [[o db1]|] eqn:Er; [|done]. simpl.
  destruct (went (sw_admission side)); [|done]. simpl. intros H. right. do 2 (split; [done|]). exists due, t. do 2 (split; [done|]).
  revert Er. unfold resolveAndApplySituationTx. set (owner := situationOwnerForIncidentTx db (si_IncidentID n)).
  destruct (if isOperatorArtifactKind (si_Kind n) then _ else _) as [e|] eqn:Ee; [|done]. simpl. destruct e as [s|].
  { destruct (isOperatorArtifactKind (si_Kind n)) eqn:Ek; [|done]. apply ended_owner_ok in Ee as (id & Eo & Ef & Et).
    assert (sn_ID s = id) as <- by (by apply find_situation_in in Ef as [_ ?]). intros [= <- <-]. simpl in H.
    unfold markSituationInputAppliedTx in H. destruct (fenced _ _ _) as [db2|] eqn:E2; [|done]. simpl in H. injection H as <- <-.
    apply fenced_ok in E2 as (_ & _ & _ & ->). by eapply ae_ended. }
  assert (Hart : ∀ id s, owner = Some id → find_situation db id = Some s → isOperatorArtifactKind (si_Kind n) = true → ¬ is_ended s).
  { intros id s Eo Ef Ek. rewrite Ek in Ee. by eapply (ended_owner_ok _ _ _ Ee). }
  destruct (match owner with Some id => Some id | None => _ end) as [id|] eqn:Eid.
  - unfold joinSituation. destruct (find_situation db id) as [s|] eqn:Ef; [|done].
    destruct (joinSituationTx _ _ _ _) as [row|e] eqn:Ej; [|by destruct e]. simpl. intros [= <- <-].
    unfold joined_outcome in H. simpl in H. destruct (went (sw_invalidation side)); [|done]. simpl in H.
    unfold markSituationInputAppliedTx in H. destruct (fenced _ _ _) as [db3|] eqn:E3; [|done]. simpl in H. injection H as <- <-.
    apply fenced_ok in E3 as (_ & _ & _ & ->). assert (sn_ID s = id) as <- by (by apply find_situation_in in Ef as [_ ?]).
    unfold attachSituationMembershipTx. simpl. replace (refreshed _) with
      (landed db claim n (update_rows (situation_is (sn_ID s)) (joined_situation t row) (sd_situations db))
         (attached db (sn_ID s) (si_IncidentID n)) (sn_ID s) (input_version row) now)
      by (unfold landed, attached; by destruct (existsb _ (sd_members db))).
    eapply ae_joined; [|done|done]. destruct owner as [id|] eqn:Eo; [left|right]; split; try done; [by injection Eid as ->|].
    eapply Hart; [done|]. by injection Eid as ->.
  - destruct owner eqn:Eo; [done|]. unfold createSituationTx. destruct (negb _ && negb _ && negb _ && negb _) eqn:Eg; [|done]. simpl.
    intros [= <- <-]. unfold joined_outcome in H. simpl in H. destruct (went (sw_invalidation side)); [|done]. simpl in H.
    unfold markSituationInputAppliedTx in H. destruct (fenced _ _ _) as [db3|] eqn:E3; [|done]. simpl in H. injection H as <- <-.
    apply fenced_ok in E3 as (_ & _ & _ & ->). unfold attachSituationMembershipTx. simpl. replace (refreshed _) with
      (landed db claim n (sd_situations db ++ [opened_situation db newID (si_GroupKey n) t due (si_OccurredAt n) now])
         (attached db newID (si_IncidentID n)) newID 1%Z now)
      by (unfold landed, attached; by destruct (existsb _ (sd_members db))).
    go_bool. apply ae_opened; try done. intros Hin. apply (existsb_key sn_ID) in Hin. unfold situation_is in *. congruence.
Qed.

Lemma applied_columns_ok n c id v j now :
  columns_ok n c → (j = JournalNotApplicable ↔ isOperatorArtifactKind (si_Kind n) = false) → columns_ok n (applied_columns id v j now c).
Proof. intros [] Hj. split; simpl; try done; split; try done; by intros [? [=]]. Qed.

Lemma mark_inv db claim n id v j now :
  situation_inv db → n ∈ outbox db → holds_input claim db n = true →
  (j = JournalNotApplicable ↔ isOperatorArtifactKind (si_Kind n) = false) →
  (id, si_IncidentID n) ∈ sd_members db → (∃ s, s ∈ sd_situations db ∧ sn_ID s = id ∧ 1 ≤ v ≤ sn_version s)%Z →
  (j = JournalOwnerTerminal ∨ ∀ x, x ∈ outbox db → ¬ counts db x id v) →
  situation_inv (update_inputs (holds_input claim db) (applied_columns id v j now) db).
Proof.
  intros [] Hn Hh Hj Hm (s & Hs & Eid & Hv) Hnew.
  assert (Hx : ∀ x, x ∈ outbox db → holds_input claim db x = true ↔ x = n).
  { intros x Hx. split; [|by intros ->]. intros (E & _)%holds_spec. apply holds_spec in Hh as (E' & _). apply (input_unique db); try done. congruence. }
  assert (Hc : ∀ x, x ∈ outbox db → columns (update_inputs (holds_input claim db) (applied_columns id v j now) db) x =
     if decide (x = n) then applied_columns id v j now (columns db n) else columns db x).
  { intros x Hin. rewrite columns_update by done. case_decide as E; [subst; by rewrite Hh|].
    destruct (holds_input claim db x) eqn:Ex; [|done]. by apply Hx in Ex. }
  rewrite Forall_forall in sv_columns0. split; try done.
  - intros i [?|?]%fold_rows; [by apply sv_rows0|done].
  - apply Forall_forall. intros x Hin. rewrite Hc by done. case_decide as E; [subst|by apply sv_columns0].
    apply applied_columns_ok; [by apply sv_columns0|done].
  - apply Forall_forall. intros x Hin i. rewrite Hc by done. case_decide as E.
    + subst x. simpl. intros [= <-]. split; [done|]. by exists s, v.
    + rewrite Forall_forall in sv_applied0. by apply sv_applied0.
  - assert (Hone : ∀ x i w, x ∈ outbox db → counts (update_inputs (holds_input claim db) (applied_columns id v j now) db) x i w →
      x ≠ n ∧ counts db x i w ∨ x = n ∧ i = id ∧ w = v ∧ j ≠ JournalOwnerTerminal).
    { intros x i w Hin. unfold counts. rewrite Hc by done. case_decide; [|by left]. simpl. intros ([= <-] & [= <-] & ?). by right. }
    intros x y i w Hin Hin' C1 C2. apply Hone in C1; [|done]. apply Hone in C2; [|done].
    destruct C1 as [[_ C1]|(-> & -> & -> & J1)], C2 as [[_ C2]|(E2 & Ei' & Ew' & J2)]; [by eapply sv_once0| | |done].
    + destruct Hnew as [?|Hnew]; [done|]. subst. by destruct (Hnew x Hin).
    + destruct Hnew as [?|Hnew]; [done|]. by destruct (Hnew y Hin').
Qed.

Lemma find_input_in db id n : find_input db id = Some n → n ∈ outbox db ∧ si_ID n = id.
Proof. apply (find_key si_ID). Qed.

Lemma owner_some db i id : situationOwnerForIncidentTx db i = Some id → (id, i) ∈ sd_members db.
Proof.
  unfold situationOwnerForIncidentTx. intros ([x y] & Hf & [= ->])%fmap_Some. apply (find_key snd) in Hf as [Hin E]. simpl in E. by subst.
Qed.

Lemma owner_none db i : situationOwnerForIncidentTx db i = None → i ∉ (sd_members db).*2.
Proof. unfold situationOwnerForIncidentTx. intros H%fmap_None. by apply (find_key_none snd). Qed.

Lemma owner_of db id i : NoDup (sd_members db).*2 → (id, i) ∈ sd_members db → situationOwnerForIncidentTx db i = Some id.
Proof.
  intros Hnd Hin. destruct (situationOwnerForIncidentTx db i) as [id'|] eqn:E.
  - apply owner_some in E. f_equal. by pose proof (NoDup_fmap_inj snd _ (id', i) (id, i) Hnd E Hin eq_refl) as [= ->].
  - apply owner_none in E. destruct E. apply list_elem_of_fmap. by exists (id, i).
Qed.

Lemma attached_owned db id i o : situationOwnerForIncidentTx db i = Some o → attached db id i = sd_members db.
Proof.
  intros H%owner_some. unfold attached. assert (existsb (owned_by i) (sd_members db) = true) as ->; [|done].
  apply (existsb_key snd). apply list_elem_of_fmap. by exists (o, i).
Qed.

Lemma attached_new db id i : situationOwnerForIncidentTx db i = None → attached db id i = sd_members db ++ [(id, i)].
Proof.
  intros H%owner_none. unfold attached. destruct (existsb (owned_by i) (sd_members db)) eqn:E; [|done]. by apply (existsb_key snd) in E.
Qed.

Lemma open_of_group db g id : nonterminalSituationIDByGroupTx db g = Some id →
  ∃ s, s ∈ sd_situations db ∧ sn_ID s = id ∧ sn_GroupKey s = g ∧ is_open s.
Proof.
  unfold nonterminalSituationIDByGroupTx. intros (s & [Hin H]%find_some & ->)%fmap_Some. exists s. rewrite list_elem_of_In.
  unfold open_in_group in H. go_bool. done.
Qed.

Lemma none_open db g s : nonterminalSituationIDByGroupTx db g = None → s ∈ sd_situations db → sn_GroupKey s = g → ¬ is_open s.
Proof.
  unfold nonterminalSituationIDByGroupTx. intros H%fmap_None Hs Hg Ho. rewrite list_elem_of_In in Hs.
  apply (find_none _ _ H) in Hs. unfold open_in_group in Hs. by rewrite Hg, str_eqb_refl, Ho in Hs.
Qed.

Lemma newest_ended db g id : newestTerminalSituationIDTx db g = Some id →
  ∃ q, q ∈ sd_situations db ∧ sn_ID q = id ∧ sn_GroupKey q = g ∧ is_ended q.
Proof.
  unfold newestTerminalSituationIDTx. intros (q & Hq & ->)%fmap_Some. apply head_Some_elem_of, elem_of_SliceStable, elem_of_select_rows in Hq as [H Hq].
  exists q. unfold ended_in_group in H. go_bool. done.
Qed.

Lemma addressed_incident l n : check_addressed l n = Ok tt → ∃ i, i ∈ d_incidents l ∧ ic_ID i = si_IncidentID n ∧ ic_GroupKey i = si_GroupKey n.
Proof.
  unfold check_addressed. destruct (find_incident l _) as [i|] eqn:Ef; [|done]. apply find_incident_in in Ef as [Hi Ei].
  unfold check_input. destruct (str_eqb (ic_GroupKey i) _) eqn:Eg; [|done]. simpl. intros _. exists i. go_bool. done.
Qed.

Lemma joined_lives t s row due occurredAt now :
  joinSituationTx (sn_row s) due occurredAt now = Ok row → lives s (joined_situation t row s).
Proof.
  intros [Ev El]%join_row. unfold sn_row in *. split; unfold is_open, is_ended, sn_lifecycle, sn_version, sn_row; simpl; rewrite ?El; try done; try lia.
Qed.

Lemma joined_journal_ok n : joined_journal n = JournalNotApplicable ↔ isOperatorArtifactKind (si_Kind n) = false.
Proof. unfold joined_journal. by destruct (isOperatorArtifactKind (si_Kind n)). Qed.

(** No input has been applied beyond the version of a Situation, nor to one
    that does not exist. *)
Lemma nothing_beyond db x id v :
  situation_inv db → x ∈ outbox db → counts db x id v → ∃ s, s ∈ sd_situations db ∧ sn_ID s = id ∧ (v ≤ sn_version s)%Z.
Proof.
  intros [] Hx (A & V & _). rewrite Forall_forall in sv_applied0. destruct (sv_applied0 x Hx id A) as (_ & s & w & ? & ? & E & ?).
  exists s. rewrite V in E. injection E as <-. do 2 (split; [done|]). lia.
Qed.

Lemma landed_inv db claim n sits mems id v now :
  situation_inv db → n ∈ outbox db → holds_input claim db n = true → tables_ok (sd_ledger db) sits mems →
  (∀ s, s ∈ sd_situations db → ∃ s', s' ∈ sits ∧ sn_ID s' = sn_ID s ∧ (sn_version s ≤ sn_version s')%Z) →
  (∀ m, m ∈ sd_members db → m ∈ mems) → (id, si_IncidentID n) ∈ mems →
  (∃ s, s ∈ sits ∧ sn_ID s = id ∧ 1 ≤ v ≤ sn_version s)%Z →
  (∀ s, s ∈ sd_situations db → sn_ID s = id → (sn_version s < v)%Z) →
  situation_inv (landed db claim n sits mems id v now).
Proof.
  intros Hinv Hn Hh Ht Hs Hm Hin Hv Hnew.
  apply (mark_inv (refreshed (set_situations sits (set_situation_members mems db))) claim n); try done.
  - by apply tables_inv.
  - apply joined_journal_ok.
  - right. intros x Hx C. destruct (nothing_beyond db x id v Hinv Hx C) as (s & H1 & H2 & H3). specialize (Hnew s H1 H2). lia.
Qed.

Lemma applied_effect_keeps db claim n due t newID now r db' :
  situation_inv db → n ∈ outbox db → holds_input claim db n = true → check_addressed (sd_ledger db) n = Ok tt →
  applied_effect db claim n due t newID now r db' → situation_inv db'.
Proof.
  intros Hinv Hn Hh (i & Hi & Ei & Gi)%addressed_incident Heff. pose proof (sv_tables _ Hinv) as Ht. pose proof Ht as [].
  rewrite Forall_forall in tk_version0. destruct Heff as [s Hk Ho Hf He|s row Ho Hf Hj|Ho Hno Hne Hid Hg].
  - apply find_situation_in in Hf as [Hs _]. apply (mark_inv db claim n); try done; [by rewrite Hk|by apply owner_some| |by left].
    exists s. do 2 (split; [done|]). specialize (tk_version0 s Hs). simpl in *. lia.
  - apply find_situation_in in Hf as [Hs _]. pose proof (join_row _ _ _ _ _ Hj) as [Ev _].
    set (sits' := update_rows _ _ _).
    assert (F : Forall2 lives (sd_situations db) sits').
    { apply update_lives. intros x Hx E. unfold situation_is in E. go_bool. rewrite (situation_unique _ _ _ x s Ht Hx Hs E). by eapply joined_lives. }
    pose proof (tables_live _ _ _ _ Ht F) as Ht'.
    assert (Hs' : joined_situation t row s ∈ sits').
    { apply elem_of_update_rows. exists s. unfold situation_is. by rewrite str_eqb_refl. }
    apply landed_inv; try done.
    + destruct Ho as [[Ho _]|[Ho Hopen]]; [by rewrite (attached_owned _ _ _ _ Ho)|]. rewrite attached_new, <- Ei by done.
      apply (tables_attach _ _ _ (joined_situation t row s)); [done..| |].
      * apply open_of_group in Hopen as (x & Hx & Ex & Gx & _). rewrite (situation_unique _ _ _ x s Ht Hx Hs Ex) in Gx. simpl. congruence.
      * rewrite Ei. by apply owner_none.
    + intros x Hx. destruct (lives_elem_l _ _ _ F Hx) as (x' & ? & []). by exists x'.
    + intros m Hm. destruct Ho as [[Ho _]|[Ho _]]; [by rewrite (attached_owned _ _ _ _ Ho)|]. rewrite attached_new by done. apply elem_of_app. by left.
    + destruct Ho as [[Ho _]|[Ho _]]; [rewrite (attached_owned _ _ _ _ Ho); by apply owner_some|]. rewrite attached_new by done.
      apply elem_of_app. right. by apply list_elem_of_singleton.
    + exists (joined_situation t row s). do 2 (split; [done|]). specialize (tk_version0 s Hs).
      unfold sn_version, sn_row in *. simpl in *. lia.
    + intros x Hx E. rewrite (situation_unique _ _ _ x s Ht Hx Hs E). unfold sn_version. lia.
  - rewrite attached_new, <- Ei by done. apply landed_inv; try done.
    + apply (tables_create _ _ _ (opened_situation db newID (si_GroupKey n) t due (si_OccurredAt n) now)); try done.
      * split; [done|by intros [? [=]]].
      * intros x Hx Gx. by eapply none_open.
      * intros p Hp. by apply newest_ended.
      * rewrite Ei. by apply owner_none.
    + intros x Hx. exists x. rewrite elem_of_app. split; [by left|]. split; [done|lia].
    + intros m Hm. apply elem_of_app. by left.
    + rewrite Ei. apply elem_of_app. right. by apply list_elem_of_singleton.
    + eexists. split; [apply elem_of_app; right; by apply list_elem_of_singleton|]. split; [done|]. unfold sn_version, sn_row. simpl. lia.
    + intros x Hx E. destruct Hid. rewrite <- E. by apply list_elem_of_fmap_2.
Qed.

Lemma apply_keeps db claim newID side now r db' :
  situation_inv db → ApplySituationInputResult db claim newID side now = Ok (r, db') → situation_inv db'.
Proof.
  intros Hinv (n & Hf & [(_ & _ & ->)|(Hh & Hc & due & t & _ & _ & Heff)])%apply_input_cases; [done|].
  apply find_input_in in Hf as [Hn E]. eapply applied_effect_keeps; try done. unfold holds_input, is_input. by rewrite E, str_eqb_refl.
Qed.

(** ** A restart *)

Lemma recovered_columns_ok n c : columns_ok n c → in_Status c = InputClaimed → columns_ok n (recovered_columns c).
Proof.
  intros H Hs. destruct (not_applied _ _ H) as (E1 & E2 & E3 & E4); [by rewrite Hs|]. destruct H. split; simpl; try done.
  - rewrite E1. split; [done|by intros [? [=]]].
  - rewrite E2. split; [done|by intros [? [=]]].
  - intros [[t ?]|?]; [by destruct (E4 t)|done].
Qed.

Lemma recovered_lives now s : lives s (recovered_situation now s).
Proof.
  unfold recovered_situation, recover_lease. destruct (lease_expired now _);
    split; unfold is_open, is_ended, sn_lifecycle, sn_version, sn_row; simpl; done || lia.
Qed.

Lemma find_updated (l : list situation) P f id :
  (∀ s, sn_ID (f s) = sn_ID s) → List.find (situation_is id) (update_rows P f l) = (λ s, if P s then f s else s) <$> List.find (situation_is id) l.
Proof.
  intros Hf. induction l as [|s l IH]; [done|]. simpl. assert (situation_is id (if P s then f s else s) = situation_is id s) as ->.
  { unfold situation_is. by destruct (P s); rewrite ?Hf. }
  by destruct (situation_is id s).
Qed.

(** Rows that keep their lifecycle leave the view of the ledger as it was. *)
Lemma same_lifecycles db P f :
  (∀ s, sn_ID (f s) = sn_ID s ∧ sn_lifecycle (f s) = sn_lifecycle s) →
  owner_lifecycles (set_situations (update_rows P f (sd_situations db)) db) = owner_lifecycles db.
Proof.
  intros Hf. unfold owner_lifecycles, find_situation. simpl. f_equal. apply list_omap_ext. apply Forall2_same_length_lookup_2; [done|].
  intros i x y Hx Hy. rewrite Hx in Hy. injection Hy as <-. rewrite find_updated by (intros; apply Hf).
  destruct (List.find _ _) as [s|]; [|done]. simpl. by destruct (P s); rewrite ?(proj2 (Hf s)).
Qed.

Lemma refreshed_id db : d_lifecycles (sd_ledger db) = owner_lifecycles db → refreshed db = db.
Proof. unfold refreshed. intros <-. by destruct db as [[] ? ? ?]. Qed.

Lemma recover_leases_keeps db now : situation_inv db → situation_inv (RecoverExpiredFoundationLeases db now).2.
Proof.
  intros Hinv. unfold RecoverExpiredFoundationLeases. simpl. set (l := set_dispatches _ _). set (db1 := set_ledger l db).
  assert (Hinv1 : situation_inv db1).
  { apply ledger_keeps; [done|apply (ls_recover _ now)|]. by apply writes_silent; [apply persists_same|]. }
  assert (Hinv2 : situation_inv (update_inputs (λ n, input_expired now (columns db1 n)) recovered_columns db1)).
  { apply update_inv; [done|]. intros n Hn [Hs%bool_decide_eq_true _]%andb_true_iff Hok. simpl.
    split; [by apply recovered_columns_ok|done]. }
  set (db2 := update_inputs _ _ db1) in Hinv2. change (update_inputs _ _ db1) with db2.
  set (sits := update_rows _ _ _). assert (F : Forall2 lives (sd_situations db2) sits) by (apply update_lives; intros; apply recovered_lives).
  rewrite <- (refreshed_id (set_situations sits db2)).
  - apply (tables_inv db2 sits (sd_members db2)); [done| | |done]; [eapply tables_live; [by apply sv_tables|done]|].
    intros s Hs. destruct (lives_elem_l _ _ _ F Hs) as (s' & ? & []). by exists s'.
  - unfold sits. rewrite (same_lifecycles db2); [exact (sv_lifecycles _ Hinv2)|]. intros s. unfold recovered_situation, sn_lifecycle, sn_row, recover_lease. simpl.
    by destruct (lease_expired now _).
Qed.

Lemma set_members_twice a b db : set_situation_members a (set_situation_members b db) = set_situation_members a db.
Proof. done. Qed.

(** What attaching some Incidents leaves. *)
Lemma attach_each_ok id us db db' : attach_each id us db = Ok db' →
  ∃ mems, db' = set_situation_members mems db ∧ (∀ m, m ∈ sd_members db → m ∈ mems)
    ∧ (∀ u, u ∈ us → ui_IncidentID u ∈ mems.*2)
    ∧ (∀ m, m ∈ mems → m ∈ sd_members db ∨ m.1 = id ∧ m.2 ∈ ui_IncidentID <$> us)
    ∧ (∀ l sits s, tables_ok l sits (sd_members db) → s ∈ sits → sn_ID s = id →
         Forall (λ u, ∃ i, i ∈ d_incidents l ∧ ic_ID i = ui_IncidentID u ∧ ic_GroupKey i = sn_GroupKey s) us → tables_ok l sits mems).
Proof.
  revert db. induction us as [|u us IH]; intros db; simpl.
  { intros [= <-]. exists (sd_members db). split; [by destruct db|]. split; [done|]. split; [set_solver|]. split; [by left|done]. }
  destruct (_ || _); [|done]. intros (mems & -> & H1 & H2 & H3 & H4)%IH. unfold attachSituationMembershipTx in *.
  destruct (existsb (owned_by (ui_IncidentID u)) (sd_members db)) eqn:Eo.
  - exists mems. split; [done|]. split; [done|]. split; [|split].
    + intros v [->|Hv]%elem_of_cons; [|by apply H2]. apply existsb_exists in Eo as (m & Hm & E). unfold owned_by in E. go_bool. rewrite <- E.
      apply list_elem_of_fmap_2, H1. by rewrite list_elem_of_In.
    + intros m [?|[? ?]]%H3; [by left|]. right. split; [done|]. apply elem_of_cons. by right.
    + intros l sits s Ht Hs Es [_ Hus]%Forall_cons. by eapply H4.
  - simpl in *. exists mems. split; [done|]. split; [|split; [|split]].
    + intros m Hm. apply H1, elem_of_app. by left.
    + intros v [->|Hv]%elem_of_cons; [|by apply H2]. change (ui_IncidentID u) with (id, ui_IncidentID u).2.
      apply list_elem_of_fmap_2, H1, elem_of_app. right. by apply list_elem_of_singleton.
    + intros m [[?| ->%list_elem_of_singleton]%elem_of_app|[? ?]]%H3; [by left|right; split; [done|apply elem_of_cons; by left]|].
      right. split; [done|]. apply elem_of_cons. by right.
    + intros l sits s Ht Hs Es [(i & Hi & Ei & Gi) Hus]%Forall_cons. eapply H4; [|done..]. rewrite <- Es, <- Ei.
      apply tables_attach; [done..|]. rewrite Ei. intros (m & Em & Hm)%list_elem_of_fmap. apply not_true_iff_false in Eo. destruct Eo.
      apply existsb_exists. exists m. rewrite <- list_elem_of_In. split; [done|]. unfold owned_by. rewrite Em. apply str_eqb_refl.
Qed.

Lemma reconstructed_lives t observed now s : lives s (reconstructed_situation t observed now s).
Proof. split; unfold is_open, is_ended, sn_lifecycle, sn_version, reconstructed_situation, joinSituationForReconstructionTx, sn_row; simpl; done || lia. Qed.

(** The Situations once a group is reconstructed. *)
Inductive reconstructs (db : situation_db) (g newID : string) (now : Time) : string → list situation → Prop :=
| re_joined s t observed :
    nonterminalSituationIDByGroupTx db g = Some (sn_ID s) → s ∈ sd_situations db → sn_GroupKey s = g → is_open s →
    reconstructs db g newID now (sn_ID s)
      (update_rows (situation_is (sn_ID s)) (reconstructed_situation t observed now) (sd_situations db))
| re_opened t observed :
    nonterminalSituationIDByGroupTx db g = None → newID ∉ sn_ID <$> sd_situations db → newID ≠ "" →
    reconstructs db g newID now newID
      (sd_situations db ++ [observed_at observed (opened_situation db newID g t DueUpgradeReconstruction now now)]).

Lemma reconstruct_cases db g us newID now id db' :
  ReconstructSituation db g us newID now = Ok (id, db') →
  ∃ sits db2, reconstructs db g newID now id sits ∧ attach_each id (by_incident us) (set_situations sits db) = Ok db2
    ∧ db' = refreshed db2 ∧ us ≠ [] ∧ Forall (λ u, ui_GroupKey u = g) us.
Proof.
  unfold ReconstructSituation. destruct (check_input _ _); [|done]. cbn [res_bind]. pose proof (SliceStable_perm (skey_ltb ui_IncidentID) us) as Hp.
  fold by_incident in Hp. change (SliceStable (skey_ltb ui_IncidentID) us) with (by_incident us) in Hp.
  destruct (by_incident us) as [|u0 rest] eqn:Eus; [done|]. unfold check_input.
  destruct (forallb (λ x, str_eqb (ui_GroupKey x) g) (u0 :: rest)) eqn:Eg; [|done].
  cbn [res_bind]. assert (Hg : Forall (λ u, ui_GroupKey u = g) us ∧ us ≠ []).
  { split; [|intros ->; by apply Permutation_nil_r in Hp]. rewrite <- Hp. apply Forall_forall. intros u Hu. rewrite list_elem_of_In in Hu.
    rewrite forallb_forall in Eg. specialize (Eg u Hu). by go_bool. }
  destruct Hg as [Hg Hne]. set (t := fold_left merge_times _ _). set (observed := fold_left laterTime _ _).
  destruct (nonterminalSituationIDByGroupTx db g) as [i|] eqn:En.
  - pose proof (open_of_group _ _ _ En) as (s & Hs & <- & Gs & Os). unfold joinReconstruction. destruct (find_situation db (sn_ID s)); [|done]. cbn [res_bind].
    destruct (attach_each _ _ _) as [db2|] eqn:Ea; [|done]. cbn [res_bind]. intros [= <- <-].
    eexists _, db2. split; [by apply (re_joined _ _ _ _ s t observed)|]. done.
  - unfold createSituationForReconstructionTx. destruct (negb (str_eqb newID "") && _ && _ && _) eqn:Ec; [|done]. cbn [res_bind].
    destruct (attach_each _ _ _) as [db2|] eqn:Ea; [|done]. cbn [res_bind]. intros [= <- <-].
    apply andb_true_iff in Ec as [[[Hn Hi]%andb_true_iff _]%andb_true_iff _]. apply negb_true_iff in Hn, Hi.
    eexists _, db2. split; [apply (re_opened _ _ _ _ t observed); [done| |]|done].
    + intros (s & -> & Hs)%list_elem_of_fmap. apply not_true_iff_false in Hi. destruct Hi. apply existsb_exists. exists s.
      rewrite <- list_elem_of_In. unfold situation_is. by rewrite str_eqb_refl.
    + intros ->. by rewrite str_eqb_refl in Hn.
Qed.

Lemma missed_incident db g us : Forall (missed db) us → Forall (λ u, ui_GroupKey u = g) us →
  Forall (λ u, ∃ i, i ∈ d_incidents (sd_ledger db) ∧ ic_ID i = ui_IncidentID u ∧ ic_GroupKey i = g) us.
Proof.
  rewrite !Forall_forall. intros Hm Hg u Hu. destruct (Hm u Hu) as [(i & ? & ? & ?) _]. exists i. rewrite <- (Hg u Hu). done.
Qed.

Lemma reconstruct_keeps db g us newID now id db' :
  situation_inv db → Forall (missed db) us → ReconstructSituation db g us newID now = Ok (id, db') → situation_inv db'.
Proof.
  intros Hinv Hmiss (sits & db2 & Hsits & Ha & -> & Hne & Hg)%reconstruct_cases. pose proof (sv_tables _ Hinv) as Ht.
  pose proof (SliceStable_perm (skey_ltb ui_IncidentID) us) as Hp. change (SliceStable (skey_ltb ui_IncidentID) us) with (by_incident us) in Hp.
  assert (Hi : Forall (λ u, ∃ i, i ∈ d_incidents (sd_ledger db) ∧ ic_ID i = ui_IncidentID u ∧ ic_GroupKey i = g) (by_incident us))
    by (rewrite Hp; by apply missed_incident).
  destruct Hsits as [s t observed _ Hs Gs _|t observed Hno Hid _].
  - apply attach_each_ok in Ha as (mems & -> & H1 & _ & _ & H4).
    assert (F : Forall2 lives (sd_situations db) (update_rows (situation_is (sn_ID s)) (reconstructed_situation t observed now) (sd_situations db)))
      by (apply update_lives; intros; apply reconstructed_lives).
    apply (tables_inv db _ mems); [done| | |done].
    + apply (H4 _ _ (reconstructed_situation t observed now s)); [by eapply tables_live| |done|by simpl; rewrite Gs].
      apply elem_of_update_rows. exists s. unfold situation_is. by rewrite str_eqb_refl.
    + intros x Hx. destruct (lives_elem_l _ _ _ F Hx) as (x' & ? & []). by exists x'.
  - assert (Hmiss' : Forall (missed db) (by_incident us)) by (by rewrite Hp).
    destruct (by_incident us) as [|u rest]; [by apply Permutation_nil_l in Hp|]. apply Forall_cons in Hi as [(i & Hi & Ei & Gi) Hrest].
    apply Forall_cons in Hmiss' as [[_ Hu] _]. simpl in Ha. destruct (_ || _); [|done]. unfold attachSituationMembershipTx in Ha. simpl in Ha.
    destruct (existsb (owned_by (ui_IncidentID u)) (sd_members db)) eqn:Eo.
    { destruct Hu. apply existsb_exists in Eo as (m & Hm & E). unfold owned_by in E. go_bool. rewrite <- E. apply list_elem_of_fmap_2. by rewrite list_elem_of_In. }
    apply attach_each_ok in Ha as (mems & -> & H1 & _ & _ & H4). simpl in *. set (s := observed_at observed _) in *.
    apply (tables_inv db _ mems); [done| | |intros m Hm; apply H1, elem_of_app; by left].
    + apply (H4 _ _ s); [|apply elem_of_app; right; by apply list_elem_of_singleton|done..]. rewrite <- Ei.
      apply (tables_create _ _ _ s); try done.
      * split; [done|by intros [? [=]]].
      * intros x Hx Gx. by eapply none_open.
      * intros p Hq. by apply newest_ended.
      * by rewrite Ei.
    + intros x Hx. exists x. split; [apply elem_of_app; by left|]. split; [done|lia].
Qed.

Lemma situation_keeps db db' : situation_step db db' → situation_inv db → situation_inv db'.
Proof.
  intros [] Hinv; [by apply ledger_keeps|by eapply claim_inputs_keeps|by eapply retry_input_keeps|by eapply defer_keeps|by eapply apply_keeps|
    by apply controller_keeps|by apply journal_keeps|by apply recover_leases_keeps|by eapply reconstruct_keeps].
Qed.

Lemma empty_situations_inv : situation_inv empty_situations.
Proof.
  split; simpl; try done; try (by apply NoDup_nil_2); [apply ledger_inv_empty|by intros id [? ?]| |set_solver].
  split; simpl; try done; try (by apply NoDup_nil_2); set_solver.
Qed.

Lemma situations_keep db db' : rtc situation_step db db' → situation_inv db → situation_inv db'.
Proof. induction 1 as [|a b c Hab _ IH]; [done|]. intros Hinv. apply IH. by eapply situation_keeps. Qed.

(** C3. The books of the Situations are kept by every transaction of every
    worker: a group has at most one open Situation; a new one follows an ended
    one of its group or none; an Incident belongs to one Situation at most, of
    its own group, and a Situation has an Incident; the row of an input agrees
    with its status, an applied one names a Situation its Incident belongs to
    and a version the Situation reached, and no two inputs share a version; and
    the correlator reads the lifecycle the owner of an Incident really has. *)
Theorem situation_inv_step db db' : situation_inv db → situation_step db db' → situation_inv db'.
Proof. intros. by eapply situation_keeps. Qed.

(** ** What the whole refines *)

(** A Situation of the new tables: as new, or a history of one of the old. *)
Definition works_on (sits sits' : list situation) : Prop :=
  ∀ s', s' ∈ sits' → (∃ s, s ∈ sits ∧ rtc ControllerStore.step (sn_work s) (sn_work s')) ∨ ∃ due t, sn_work s' = new_work due t.

Lemma works_on_refl sits : works_on sits sits.
Proof. intros s Hs. left. exists s. split; [done|apply rtc_refl]. Qed.

Lemma works_on_update P f sits :
  (∀ s, s ∈ sits → P s = true → ControllerStore.step (sn_work s) (sn_work (f s))) → works_on sits (update_rows P f sits).
Proof.
  intros Hf s' (s & Hs & ->)%elem_of_update_rows. left. exists s. split; [done|].
  destruct (P s) eqn:E; [by apply rtc_once, Hf|apply rtc_refl].
Qed.

Lemma new_work_initial due t : initial (new_work due t).
Proof. by repeat split. Qed.

Lemma effect_refines db claim n due t newID now r db' :
  situation_inv db → applied_effect db claim n due t newID now r db' →
  rtc ledger_step (sd_ledger db) (sd_ledger db') ∧ works_on (sd_situations db) (sd_situations db').
Proof.
  intros Hinv [s _ _ _ _|s row _ Hf Hj|_ _ _ _ _]; (split; [try apply rtc_refl; apply rtc_once, ls_other, lifecycles_keep|]).
  - apply works_on_refl.
  - apply find_situation_in in Hf as [Hs _]. apply works_on_update. intros x Hx E. unfold situation_is in E. go_bool.
    rewrite (situation_unique _ _ _ x s (sv_tables _ Hinv) Hx Hs E). by eapply step_join.
  - intros x [Hx| ->%list_elem_of_singleton]%elem_of_app; [by apply works_on_refl|]. right. by eexists _, _.
Qed.

Lemma step_refines db db' : situation_inv db → situation_step db db' →
  rtc ledger_step (sd_ledger db) (sd_ledger db') ∧ works_on (sd_situations db) (sd_situations db').
Proof.
  intros Hinv []; simpl.
  - split; [by apply rtc_once|apply works_on_refl].
  - apply claim_inputs_ok in H as ->. split; [apply rtc_refl|apply works_on_refl].
  - apply retry_input_ok, fenced_ok in H as (_ & _ & _ & ->). split; [apply rtc_refl|apply works_on_refl].
  - apply defer_input_ok, fenced_ok in H as (_ & _ & _ & ->). split; [apply rtc_refl|apply works_on_refl].
  - apply apply_input_cases in H as (n & _ & [(_ & _ & ->)|(_ & _ & due & t & _ & _ & Heff)]).
    + split; [apply rtc_refl|apply works_on_refl].
    + by eapply effect_refines.
  - split; [apply rtc_once, ls_other, lifecycles_keep|]. apply works_on_update. intros x Hx E. unfold situation_is in E. go_bool.
    by rewrite (situation_unique _ _ _ x s (sv_tables _ Hinv) Hx H E).
  - split; [apply rtc_refl|apply works_on_refl].
  - split; [apply rtc_once, (ls_recover _ now)|]. apply works_on_update. intros s _ _. apply step_recover.
  - apply reconstruct_cases in H0 as (sits & db2 & Hsits & (mems & -> & _)%attach_each_ok & -> & _). simpl.
    split; [apply rtc_once, ls_other, lifecycles_keep|]. destruct Hsits.
    + apply works_on_update. intros x _ _. apply step_reconstruct.
    + intros x [Hx| ->%list_elem_of_singleton]%elem_of_app; [by apply works_on_refl|]. right. by eexists _, _.
Qed.

(** C2. The whole refines its parts: in every history of all the workers, the
    delivery ledger is one of [DeliveryLedger]'s histories, and every Situation
    is a history of [ControllerStore]'s transition system that an input or a
    restart opened.
    So whatever is proved of either holds of the Situations that deliveries
    made: the invariants of the ledger, the budget of calls, the protection of a
    paid one. *)
Theorem situations_refine db :
  rtc situation_step empty_situations db →
  rtc ledger_step empty_db (sd_ledger db) ∧ Forall (λ s, ControllerStore.reachable (sn_work s)) (sd_situations db).
Proof.
  revert db. apply rtc_ind_r.
  - split; [apply rtc_refl|by apply Forall_nil].
  - intros db db' Hd Hs [Hl Hr]. destruct (step_refines db db') as [Hl' Hw]; [by eapply situations_keep, empty_situations_inv|done|].
    split; [by etrans|]. rewrite Forall_forall in *. intros s' [(s & Hin & Hsteps)|(due & t & ->)]%Hw.
    + destruct (Hr s Hin) as (w & Hw0 & Hsteps0). exists w. split; [done|by etrans].
    + eexists. split; [apply new_work_initial|apply rtc_refl].
Qed.

(** ** A held input lands *)

(** The kinds the outbox takes (migration 0018). *)
Definition outbox_kinds : list string := input_kinds ++ ["operator_annotation_recorded"; "captured_verdict_recorded"].

Definition no_failures : side_writes := {| sw_signature := None; sw_admission := None; sw_invalidation := None |}.

Lemma kind_has_reason k : k ∈ outbox_kinds → ∃ due, dueReasonForInputKind k = Ok due.
Proof.
  unfold outbox_kinds, input_kinds. simpl. rewrite !elem_of_cons, elem_of_nil.
  intros H. repeat (destruct H as [->|H]; [by eexists|]). done.
Qed.

Lemma journal_elem l n d : n ∈ l → si_DeliveryID n = Some d → (si_IncidentID n, d) ∈ journal l.
Proof. intros Hn E. apply list_elem_of_omap. exists n. by rewrite E. Qed.

Lemma owner_of_input db n d :
  situation_inv db → n ∈ outbox db → si_DeliveryID n = Some d →
  ∃ o, o ∈ d_owners (sd_ledger db) ∧ ol_IncidentID o = si_IncidentID n ∧ ol_DeliveryID o = d.
Proof.
  intros [] Hn E. pose proof (journal_elem _ _ _ Hn E) as H. unfold outbox in H. rewrite (li_inputs _ sv_ledger0) in H.
  apply list_elem_of_fmap in H as (o & [= E1 E2] & Ho). exists o. done.
Qed.

Lemma input_addressed db n : situation_inv db → n ∈ outbox db → check_addressed (sd_ledger db) n = Ok tt.
Proof.
  intros Hinv Hn. pose proof Hinv as []. rewrite Forall_forall in sv_addressed0. destruct (sv_addressed0 n Hn) as (i & Hi & Ei & Gi).
  unfold check_addressed. rewrite <- Ei, (find_incident_some _ i) by done. rewrite Gi, str_eqb_refl. simpl.
  destruct (si_DeliveryID n) as [d|] eqn:Ed; [|done]. destruct (owner_of_input db n d Hinv Hn Ed) as (o & Ho & E1 & E2).
  assert (existsb (λ o, str_eqb (ol_IncidentID o) (ic_ID i) && str_eqb (ol_DeliveryID o) d) (d_owners (sd_ledger db)) = true) as ->; [|done].
  apply existsb_exists. exists o. rewrite <- list_elem_of_In, E1, E2, Ei, !str_eqb_refl. done.
Qed.

Lemma input_timed db n : situation_inv db → n ∈ outbox db → ∃ t, sourceTimesForInputTx (sd_ledger db) n = Ok t.
Proof.
  intros Hinv Hn. unfold sourceTimesForInputTx. destruct (si_DeliveryID n) as [d|] eqn:Ed; [|by eexists].
  destruct (owner_of_input db n d Hinv Hn Ed) as (o & Ho & _ & Eo). pose proof (li_owner_of _ (sv_ledger _ Hinv)) as Hd.
  rewrite Forall_forall in Hd. destruct (Hd o Ho) as (x & Hx & Ex & _). destruct (find_delivery (sd_ledger db) d) as [a|] eqn:Ef.
  - repeat case_match; by eexists.
  - apply (find_key_none ad_ID) in Ef. destruct Ef. rewrite <- Eo, <- Ex. by apply list_elem_of_fmap_2.
Qed.

Lemma find_situation_some db s : situation_inv db → s ∈ sd_situations db → find_situation db (sn_ID s) = Some s.
Proof.
  intros Hinv Hs. destruct (find_situation db (sn_ID s)) as [x|] eqn:E.
  - apply find_situation_in in E as [Hx E]. f_equal. by apply (situation_unique _ _ _ x s (sv_tables _ Hinv)).
  - apply (find_key_none sn_ID) in E. destruct E. by apply list_elem_of_fmap_2.
Qed.

(** The owner of an addressed Incident is a Situation of its group. *)
Lemma member_situation db id n : situation_inv db → n ∈ outbox db → (id, si_IncidentID n) ∈ sd_members db →
  ∃ s, s ∈ sd_situations db ∧ sn_ID s = id ∧ sn_GroupKey s = si_GroupKey n.
Proof.
  intros [] Hn Hm. pose proof (tk_member_of _ _ _ sv_tables0) as H. rewrite Forall_forall in H.
  destruct (H _ Hm) as (s & i & Hs & Es & Hi & Ei & Gi). simpl in *. exists s. do 2 (split; [done|]).
  rewrite Forall_forall in sv_addressed0. destruct (sv_addressed0 n Hn) as (j & Hj & Ej & Gj).
  rewrite <- Gi, <- Gj. f_equal. apply (NoDup_fmap_inj ic_ID _ _ _ (li_incidents _ sv_ledger0) Hi Hj). congruence.
Qed.

(** A live protected lease in the group of an input. *)
Definition protected_from (db : situation_db) (n : SituationInput) (now : Time) : Prop :=
  ∃ s, s ∈ sd_situations db ∧ sn_GroupKey s = si_GroupKey n
       ∧ lease_live (row_lease (sn_row s)) now = true ∧ lease_protected (row_lease (sn_row s)) = true.

Lemma join_total db s n t due now :
  situation_inv db → s ∈ sd_situations db → sn_GroupKey s = si_GroupKey n →
  (∃ x, joinSituation db (sn_ID s) t due (si_OccurredAt n) now = Ok x)
  ∨ joinSituation db (sn_ID s) t due (si_OccurredAt n) now = Err ErrInputProtected ∧ protected_from db n now.
Proof.
  intros Hinv Hs Hg. unfold joinSituation. rewrite (find_situation_some _ _ Hinv Hs). unfold joinSituationTx.
  destruct (lease_live _ now && lease_protected _) eqn:E; simpl; [|left; by eexists]. right. split; [done|]. exists s. go_bool. done.
Qed.

Lemma resolve_total db n t due newID now :
  situation_inv db → n ∈ outbox db → si_GroupKey n ≠ "" → newID ≠ "" → newID ∉ sn_ID <$> sd_situations db →
  (∃ o db', resolveAndApplySituationTx db n t due newID now = Ok (o, db') ∧ outbox db' = outbox db ∧ sd_inputs db' = sd_inputs db)
  ∨ resolveAndApplySituationTx db n t due newID now = Err ErrInputProtected ∧ protected_from db n now.
Proof.
  intros Hinv Hn Hg Hne Hid. unfold resolveAndApplySituationTx.
  assert (Hjoin : ∀ id, (∃ s, s ∈ sd_situations db ∧ sn_ID s = id ∧ sn_GroupKey s = si_GroupKey n) →
    let res := let? (landed, db') := joinSituation db id t due (si_OccurredAt n) now in Ok (joined_outcome id landed.1 landed.2, db') in
    (∃ o db', res = Ok (o, db') ∧ outbox db' = outbox db ∧ sd_inputs db' = sd_inputs db)
    ∨ res = Err ErrInputProtected ∧ protected_from db n now).
  { intros id (s & Hs & <- & Gs). destruct (join_total db s n t due now Hinv Hs Gs) as [[[[v k] db'] E]|[E Hp]]; rewrite E; simpl; [|by right].
    left. eexists _, db'. split; [done|]. unfold joinSituation in E. destruct (find_situation _ _); [|done].
    destruct (joinSituationTx _ _ _ _) as [row|[]]; [|done..]. injection E as _ _ <-. done. }
  destruct (situationOwnerForIncidentTx db (si_IncidentID n)) as [id|] eqn:Eo.
  - apply owner_some in Eo. pose proof (member_situation db id n Hinv Hn Eo) as Hs.
    assert (Hend : ∃ e, (if isOperatorArtifactKind (si_Kind n) then ended_owner db (Some id) else Ok None) = Ok e).
    { destruct (isOperatorArtifactKind _); [|by eexists]. destruct Hs as (s & Hs & <- & _). simpl. rewrite (find_situation_some _ _ Hinv Hs). by eexists. }
    destruct Hend as [e ->]. destruct e as [s|]; [left; by eexists _, db|]. by apply Hjoin.
  - assert ((if isOperatorArtifactKind (si_Kind n) then ended_owner db None else Ok None) = Ok None) as -> by (by destruct (isOperatorArtifactKind _)).
    simpl. destruct (nonterminalSituationIDByGroupTx db (si_GroupKey n)) as [id|] eqn:Eg.
    + apply open_of_group in Eg as (s & ? & ? & ? & _). apply Hjoin. by exists s.
    + left. unfold createSituationTx. assert (negb (str_eqb newID "") && negb (existsb (situation_is newID) (sd_situations db))
        && negb (str_eqb (si_GroupKey n) "") && negb (existsb (open_in_group (si_GroupKey n)) (sd_situations db)) = true) as ->; [|by eexists _, _].
      assert (Hb : ∀ a b, a ≠ b → str_eqb a b = false) by (intros a b ?; destruct (str_eqb a b) eqn:E; [by go_bool|done]).
      rewrite !andb_true_iff, !negb_true_iff. split_and!; [by apply Hb| |by apply Hb|].
      * apply not_true_iff_false. by intros ?%(existsb_key sn_ID).
      * apply not_true_iff_false. intros (s & Hs & E)%existsb_exists. rewrite <- list_elem_of_In in Hs. unfold open_in_group in E. go_bool.
        by eapply none_open.
Qed.

Lemma apply_total db claim n newID now :
  situation_inv db → n ∈ outbox db → holds_input claim db n = true → complete_input_claim claim = true → si_Kind n ∈ outbox_kinds →
  si_GroupKey n ≠ "" → newID ≠ "" → newID ∉ sn_ID <$> sd_situations db →
  (∃ r db', ApplySituationInputResult db claim newID no_failures now = Ok (r, db'))
  ∨ ApplySituationInputResult db claim newID no_failures now = Err ErrInputProtected ∧ protected_from db n now.
Proof.
  intros Hinv Hn Hh Hc Hk Hg Hne Hid. unfold ApplySituationInputResult. rewrite Hc. simpl.
  assert (Hf : find_input db (si_ID (sc_Input claim)) = Some n).
  { apply holds_spec in Hh as (E & _). destruct (find_input db _) as [x|] eqn:Ef.
    - apply find_input_in in Ef as [Hx Ex]. f_equal. apply (input_unique db); [by apply sv_keys|done..|congruence].
    - apply (find_key_none si_ID) in Ef. destruct Ef. rewrite <- E. by apply list_elem_of_fmap_2. }
  rewrite Hf. assert (Hhc : holds_columns (sc_LeaseOwner claim) (sc_ClaimToken claim) (columns db n) = true).
  { by apply andb_true_iff in Hh as [_ ?]. }
  assert (has_input_status InputApplied (columns db n) = false) as ->.
  { apply holds_spec in Hh as (_ & Hs & _). unfold has_input_status. by rewrite Hs. }
  rewrite Hhc. simpl. destruct (kind_has_reason _ Hk) as [due ->]. simpl. rewrite (input_addressed _ _ Hinv Hn). simpl.
  destruct (input_timed db n Hinv Hn) as [t ->]. simpl.
  destruct (resolve_total db n t due newID now Hinv Hn Hg Hne Hid) as [(o & db1 & -> & Eo & Ei)|[-> Hp]]; [|by right]. simpl. left.
  assert (Hmark : ∀ db2 v j, outbox db2 = outbox db → sd_inputs db2 = sd_inputs db →
    ∃ db3, markSituationInputAppliedTx db2 claim (so_situationID o) v j now = Ok db3).
  { intros db2 v j E2 I2. unfold markSituationInputAppliedTx, fenced.
    assert (existsb (holds_input claim db2) (outbox db2) = true) as ->; [|by eexists].
    apply existsb_exists. exists n. rewrite <- list_elem_of_In, E2. split; [done|]. unfold holds_input, columns in *. by rewrite I2. }
  destruct (so_ownerTerminal o).
  - destruct (Hmark db1 (so_inputVersion o) JournalOwnerTerminal) as [db3 ->]; [done..|]. by eexists _, _.
  - destruct (Hmark (attachSituationMembershipTx db1 (so_situationID o) (si_IncidentID n)) (so_inputVersion o) (joined_journal n)) as [db3 ->];
      [unfold attachSituationMembershipTx; by case_match..|]. by eexists _, _.
Qed.

(** What an applied input leaves: its row, its Incident's Situation at the
    version it counts for, and every other Situation as it was. *)
Record lands (db : situation_db) (n : SituationInput) (now : Time) (r : SituationInputApplied) (db' : situation_db) : Prop := {
  la_row : ∃ j, columns db' n = applied_columns (sa_SituationID r) (sa_InputVersion r) j now (columns db n);
  la_member : (sa_SituationID r, si_IncidentID n) ∈ sd_members db';
  la_situation : ∃ s, s ∈ sd_situations db' ∧ sn_ID s = sa_SituationID r ∧ sn_GroupKey s = si_GroupKey n
    ∧ sn_version s = sa_InputVersion r
    ∧ ∀ s0, s0 ∈ sd_situations db → sn_ID s0 = sa_SituationID r →
        sn_version s = (sn_version s0 + 1)%Z ∨ isOperatorArtifactKind (si_Kind n) = true ∧ is_ended s0 ∧ s = s0;
  la_others : ∀ x, x ∈ sd_situations db → sn_ID x ≠ sa_SituationID r → x ∈ sd_situations db'
}.

Lemma marked_row db claim n f : situation_inv db → n ∈ outbox db → holds_input claim db n = true →
  columns (update_inputs (holds_input claim db) f db) n = f (columns db n).
Proof. intros Hinv Hn Hh. rewrite columns_update by (done || by apply sv_keys). by rewrite Hh. Qed.

Lemma landed_row db claim n sits mems id v now : situation_inv db → n ∈ outbox db → holds_input claim db n = true →
  columns (landed db claim n sits mems id v now) n = applied_columns id v (joined_journal n) now (columns db n).
Proof. intros Hinv Hn Hh. unfold landed. rewrite columns_update by (done || apply (sv_keys _ Hinv)). by rewrite Hh. Qed.

Lemma effect_lands db claim n due t newID now r db' :
  situation_inv db → n ∈ outbox db → holds_input claim db n = true →
  applied_effect db claim n due t newID now r db' → lands db n now r db'.
Proof.
  intros Hinv Hn Hh [s Hk Ho Hf He|s row Ho Hf Hj|Ho Hno Hne Hid Hg].
  - apply find_situation_in in Hf as [Hs _]. apply owner_some in Ho. destruct (member_situation _ _ _ Hinv Hn Ho) as (x & Hx & Ex & Gx).
    pose proof (situation_unique _ _ _ x s (sv_tables _ Hinv) Hx Hs Ex) as ->. split; [|done| |done].
    + eexists. by apply marked_row.
    + exists s. do 4 (split; [done|]). intros s0 H0 E0. right. by rewrite (situation_unique _ _ _ s0 s (sv_tables _ Hinv) H0 Hs E0).
  - apply find_situation_in in Hf as [Hs _]. pose proof (join_row _ _ _ _ _ Hj) as [Ev _]. split; simpl.
    + eexists. by apply landed_row.
    + destruct Ho as [[Ho _]|[Ho _]]; [rewrite (attached_owned _ _ _ _ Ho); by apply owner_some|]. rewrite attached_new by done.
      apply elem_of_app. right. by apply list_elem_of_singleton.
    + exists (joined_situation t row s). split; [apply elem_of_update_rows; exists s; unfold situation_is; by rewrite str_eqb_refl|].
      split; [done|]. split; [|split; [done|]].
      * assert (Hx : ∃ x, x ∈ sd_situations db ∧ sn_ID x = sn_ID s ∧ sn_GroupKey x = si_GroupKey n).
        { destruct Ho as [[Ho%owner_some _]|[_ Ho%open_of_group]]; [by eapply member_situation|]. destruct Ho as (x & ? & ? & ? & _). by exists x. }
        destruct Hx as (x & Hx & Ex & Gx). by rewrite (situation_unique _ _ _ x s (sv_tables _ Hinv) Hx Hs Ex) in Gx.
      * intros s0 H0 E0. left. rewrite (situation_unique _ _ _ s0 s (sv_tables _ Hinv) H0 Hs E0). exact Ev.
    + intros x Hx Hne. apply elem_of_update_rows. exists x. split; [done|]. unfold situation_is. destruct (str_eqb _ _) eqn:E; [by go_bool|done].
  - split; simpl.
    + eexists. by apply landed_row.
    + rewrite attached_new by done. apply elem_of_app. right. by apply list_elem_of_singleton.
    + eexists. split; [apply elem_of_app; right; by apply list_elem_of_singleton|]. do 3 (split; [done|]). intros s0 H0 E0.
      destruct Hid. rewrite <- E0. by apply list_elem_of_fmap_2.
    + intros x Hx _. apply elem_of_app. by left.
Qed.


(** ** From a delivery to its Situation *)

Lemma journal_unique l x y d : NoDup (journal l).*2 → x ∈ l → y ∈ l → si_DeliveryID x = Some d → si_DeliveryID y = Some d → x = y.
Proof.
  induction l as [|z l IH]; [set_solver|]. intros Hnd Hx Hy Ex Ey.
  assert (Hin : ∀ w, w ∈ l → si_DeliveryID w = Some d → d ∈ (journal l).*2).
  { intros w Hw Ew. apply list_elem_of_fmap. exists (si_IncidentID w, d). split; [done|by apply journal_elem]. }
  assert (Hz : si_DeliveryID z = Some d → d ∉ (journal l).*2).
  { intros Ez. unfold journal in Hnd. simpl in Hnd. rewrite Ez in Hnd. simpl in Hnd. by apply NoDup_cons in Hnd as [? _]. }
  assert (Hl : NoDup (journal l).*2).
  { unfold journal in *. simpl in Hnd. destruct (si_DeliveryID z); [|done]. simpl in Hnd. by apply NoDup_cons in Hnd as [_ ?]. }
  apply elem_of_cons in Hx as [->|Hx], Hy as [->|Hy]; [done| | |by apply IH].
  - destruct (Hz Ex). by apply (Hin y).
  - destruct (Hz Ey). by apply (Hin x).
Qed.

Lemma journal_nodup db : ledger_inv db → NoDup (journal (d_outbox db)).*2.
Proof. intros H. rewrite (li_inputs _ H), <- list_fmap_compose. exact (li_owners _ H). Qed.

(** C10. A delivery reaches one Situation: once it is applied there is one input
    that carries it, for the Incident that owns it; and once that input is
    applied, the Incident is in one Situation, of its group, which the input's
    row names. *)
Theorem delivery_reaches_situation db p :
  situation_inv db → p ∈ d_dispatches (sd_ledger db) → dp_Status p = DispatchApplied →
  ∃ o n, o ∈ d_owners (sd_ledger db) ∧ ol_DeliveryID o = dp_DeliveryID p ∧ n ∈ outbox db
    ∧ si_DeliveryID n = Some (dp_DeliveryID p) ∧ si_IncidentID n = ol_IncidentID o
    ∧ (∀ x, x ∈ outbox db → si_DeliveryID x = Some (dp_DeliveryID p) → x = n)
    ∧ (in_Status (columns db n) = InputApplied →
       ∃ s, s ∈ sd_situations db ∧ in_AppliedSituationID (columns db n) = Some (sn_ID s) ∧ sn_GroupKey s = si_GroupKey n
            ∧ ∀ id, (id, ol_IncidentID o) ∈ sd_members db ↔ id = sn_ID s).
Proof.
  intros Hinv Hp Hs. pose proof Hinv as []. pose proof (li_applied _ sv_ledger0) as Ha. rewrite Forall_forall in Ha.
  apply (Ha p Hp) in Hs as (o & Eo & Ho)%list_elem_of_fmap.
  assert (Hj : link o ∈ journal (outbox db)) by (unfold outbox; rewrite (li_inputs _ sv_ledger0); by apply list_elem_of_fmap_2).
  apply list_elem_of_omap in Hj as (n & Hn & E). destruct (si_DeliveryID n) as [d|] eqn:Ed; [|done]. injection E as E1 E2.
  assert (d = dp_DeliveryID p) as -> by congruence. exists o, n. do 5 (split; [done|]). split.
  { intros x Hx Ex. eapply journal_unique; [by apply journal_nodup|exact Hx|exact Hn|done..]. }
  intros Hst. rewrite Forall_forall in sv_columns0, sv_applied0. apply (sv_columns0 n Hn) in Hst as [id Hid].
  destruct (sv_applied0 n Hn id Hid) as (Hm & s & v & Hs & <- & _). exists s. split; [done|]. split; [done|].
  destruct (member_situation _ _ _ Hinv Hn Hm) as (x & Hx & Ex & Gx). rewrite (situation_unique _ _ _ x s sv_tables0 Hx Hs Ex) in Gx.
  split; [done|]. intros i. rewrite <- E1. split; [|by intros ->]. intros Hi.
  by pose proof (NoDup_fmap_inj snd _ (i, si_IncidentID n) (sn_ID s, si_IncidentID n) (tk_members _ _ _ sv_tables0) Hi Hm eq_refl) as [= ->].
Qed.

(** ** The order of the inputs *)

(** What an input brings to its Situation. *)
Record contribution : Type := { ct_times : source_times; ct_reason : string; ct_occurredAt : Time }.

Definition join_one (now : Time) (s : situation) (c : contribution) : result controller_error situation :=
  let? row := joinSituationTx (sn_row s) (ct_reason c) (ct_occurredAt c) now in Ok (joined_situation (ct_times c) row s).

(** The inputs of one group, one after another: the first opens the Situation
    when there is none. *)
Fixpoint gather (db : situation_db) (id g : string) (now : Time) (st : option situation) (cs : list contribution)
    : result controller_error (option situation) :=
  match cs with
  | [] => Ok st
  | c :: cs =>
      match st with
      | None => gather db id g now (Some (opened_situation db id g (ct_times c) (ct_reason c) (ct_occurredAt c) now)) cs
      | Some s => let? s' := join_one now s c in gather db id g now (Some s') cs
      end
  end.

Definition dues (s : situation) : list string := due_reasons (row_schedule (sn_row s)).

(** The Situation with other reasons, and another instant at which its lifecycle
    was last observed: of an opened one that is the receipt of its first input. *)
Definition with_dues (l : list string) (observed : Time) (s : situation) : situation :=
  let r := sn_row s in
  {| sn_ID := sn_ID s; sn_PreviousSituationID := sn_PreviousSituationID s; sn_GroupKey := sn_GroupKey s; sn_OpenedAt := sn_OpenedAt s;
     sn_EffectiveStartedAt := sn_EffectiveStartedAt s; sn_EffectiveStartedAtBasis := sn_EffectiveStartedAtBasis s;
     sn_FirstReceivedAt := sn_FirstReceivedAt s; sn_LastLifecycleObservedAt := observed; sn_TerminalAt := sn_TerminalAt s;
     sn_work := with_row (sn_work s)
       (set_schedule r {| next_assessment_at := next_assessment_at (row_schedule r); retry_at := retry_at (row_schedule r); due_reasons := l |}) |}.

(** Equal up to the order of the reasons and that instant. *)
Definition same_situation (s s' : situation) : Prop := ∃ l observed, l ≡ₚ dues s ∧ s' = with_dues l observed s.

#[export] Instance same_situation_preorder : PreOrder same_situation.
Proof.
  split.
  - intros s. exists (dues s), (sn_LastLifecycleObservedAt s). split; [done|]. by destruct s as [? ? ? ? ? ? ? ? ? [[? ? ? [] ?] ? ? ? ?]].
  - intros a b c (l & o & Hl & ->) (l' & o' & Hl' & ->). exists l', o'. split; [by etrans|done].
Qed.

Lemma existsb_str r l : existsb (str_eqb r) l = true ↔ r ∈ l.
Proof.
  rewrite existsb_exists. setoid_rewrite <- list_elem_of_In. unfold str_eqb. split.
  - intros (x & ? & E). apply String.eqb_eq in E. by subst.
  - intros H. exists r. by rewrite String.eqb_refl.
Qed.

#[export] Instance mergeDueReason_perm : Proper ((≡ₚ) ==> (=) ==> (≡ₚ)) mergeDueReason.
Proof.
  intros l l' Hl r _ <-. unfold mergeDueReason. assert (existsb (str_eqb r) l = existsb (str_eqb r) l') as ->; [|destruct (existsb _ l'); by rewrite Hl].
  apply eq_true_iff_eq. by rewrite !existsb_str, Hl.
Qed.

Lemma elem_of_merge l a r : r ∈ mergeDueReason l a ↔ r ∈ l ∨ r = a.
Proof.
  unfold mergeDueReason. destruct (existsb (str_eqb a) l) eqn:E; [apply existsb_str in E|rewrite elem_of_app, list_elem_of_singleton; done].
  split; [by left|]. by intros [| ->].
Qed.

Lemma merge_known l a : a ∈ l → mergeDueReason l a = l.
Proof. unfold mergeDueReason. by intros ->%existsb_str. Qed.

Lemma merge_new l a : a ∉ l → mergeDueReason l a = l ++ [a].
Proof. unfold mergeDueReason. destruct (existsb _ _) eqn:E; [by apply existsb_str in E|done]. Qed.

Lemma merge_swap l a b : mergeDueReason (mergeDueReason l a) b ≡ₚ mergeDueReason (mergeDueReason l b) a.
Proof.
  destruct (decide (a = b)) as [->|Hne]; [done|]. destruct (decide (a ∈ l)), (decide (b ∈ l)).
  - by rewrite !merge_known by (rewrite ?elem_of_merge; auto).
  - rewrite (merge_known l a) by done. rewrite (merge_known _ a); [done|]. rewrite elem_of_merge. by left.
  - rewrite (merge_known l b) by done. rewrite (merge_known _ b); [done|]. rewrite elem_of_merge. by left.
  - rewrite (merge_new l a), (merge_new l b) by done. rewrite !merge_new by set_solver.
    rewrite <- !app_assoc. apply Permutation_app_head, perm_swap.
Qed.

Lemma earlierTime_min a b : earlierTime a b = Z.min a b.
Proof. unfold earlierTime, Before. destruct (b <? a)%Z eqn:E; go_bool; lia. Qed.

Lemma earlier_swap e a b : earlierTime (earlierTime e a) b = earlierTime (earlierTime e b) a.
Proof. rewrite !earlierTime_min. lia. Qed.

Lemma earlier_comm a b : earlierTime a b = earlierTime b a.
Proof. rewrite !earlierTime_min. lia. Qed.

Lemma mergeBasis_swap e a b : mergeBasis (mergeBasis e a) b = mergeBasis (mergeBasis e b) a.
Proof. unfold mergeBasis. repeat case_bool_decide; congruence. Qed.

Lemma mergeBasis_comm a b : mergeBasis a b = mergeBasis b a.
Proof. unfold mergeBasis. repeat case_bool_decide; congruence. Qed.

(** Outcomes that differ in the order of the reasons at most. *)
Definition same_outcome (x y : result controller_error (option situation)) : Prop :=
  match x, y with
  | Ok (Some s), Ok (Some t) => same_situation s t
  | Ok None, Ok None => True
  | Err e, Err f => e = f
  | _, _ => False
  end.

#[export] Instance same_outcome_preorder : PreOrder same_outcome.
Proof.
  split.
  - intros [[s|]|e]; simpl; [reflexivity|done..].
  - intros [[a|]|?] [[b|]|?] [[c|]|?]; simpl; try done; [by intros; etrans|congruence].
Qed.

Lemma join_same now s t c : same_situation s t →
  match join_one now s c, join_one now t c with
  | Ok x, Ok y => same_situation x y
  | Err e, Err f => e = f
  | _, _ => False
  end.
Proof.
  intros (l & o & Hl & ->). unfold join_one, joinSituationTx. simpl. destruct (negb _); [|done]. simpl.
  exists (mergeDueReason l (ct_reason c)), o. split; [by rewrite Hl|done].
Qed.

Lemma gather_same db id g now cs s t : same_situation s t →
  same_outcome (gather db id g now (Some s) cs) (gather db id g now (Some t) cs).
Proof.
  revert s t. induction cs as [|c cs IH]; intros s t H; [done|]. simpl. pose proof (join_same now s t c H) as Hj.
  destruct (join_one now s c), (join_one now t c); simpl; [by apply IH|done..].
Qed.

(** Two joins in either order, and an opening with a join. *)
Lemma join_swap db id g now s a b cs :
  same_outcome (gather db id g now (Some s) (a :: b :: cs)) (gather db id g now (Some s) (b :: a :: cs)).
Proof.
  simpl. unfold join_one, joinSituationTx. destruct (lease_live (row_lease (sn_row s)) now && lease_protected _) eqn:E; simpl; [done|].
  apply gather_same. exists (mergeDueReason (mergeDueReason (dues s) (ct_reason b)) (ct_reason a)), (sn_LastLifecycleObservedAt s).
  split; [apply merge_swap|]. unfold with_dues, joined_situation. simpl.
  by rewrite (mergeBasis_swap _ (st_basis (ct_times b))), (earlier_swap _ (st_start (ct_times b))),
    (earlier_swap _ (st_received (ct_times b))), (earlier_swap _ (ct_occurredAt b)).
Qed.

Lemma open_swap db id g now a b cs : same_outcome (gather db id g now None (a :: b :: cs)) (gather db id g now None (b :: a :: cs)).
Proof.
  simpl. apply gather_same. exists (mergeDueReason [ct_reason b] (ct_reason a)), (st_received (ct_times b)). split.
  - unfold dues. simpl. exact (merge_swap [] (ct_reason b) (ct_reason a)).
  - unfold with_dues, joined_situation. simpl.
    by rewrite (mergeBasis_comm (st_basis (ct_times b))), (earlier_comm (st_start (ct_times b))),
      (earlier_comm (st_received (ct_times b))), (earlier_comm (ct_occurredAt b)).
Qed.

(** C17. The order in which the inputs of a group are applied does not matter:
    whichever opens the Situation and however the others follow, it has the same
    start, basis, receipt and next assessment, the same version and lease, and
    the same reasons, in some order - only the instant its lifecycle was last
    observed stays the receipt of the input that opened it; and it is refused in one order exactly when
    it is refused in every other. *)
Theorem inputs_in_any_order db id g now st cs cs' :
  cs ≡ₚ cs' → same_outcome (gather db id g now st cs) (gather db id g now st cs').
Proof.
  intros H. revert st. induction H as [|c cs cs' _ IH|a b cs|cs1 cs2 cs3 _ IH1 _ IH2]; intros st; [reflexivity| | |etrans; [apply IH1|apply IH2]].
  - simpl. destruct st as [s|]; [|apply IH]. destruct (join_one now s c); simpl; [apply IH|done].
  - destruct st as [s|]; [apply join_swap|apply open_swap].
Qed.

(** ** Applied for good *)

(** The facts of an applied row, and the Situations and members it needs. *)
Definition facts (c : input_columns) : InputStatus * option string * option Time * option Z :=
  (in_Status c, in_AppliedSituationID c, in_AppliedAt c, in_AppliedInputVersion c).

Lemma update_facts db P f n :
  situation_inv db → n ∈ outbox db → (P n = true → facts (f (columns db n)) = facts (columns db n)) →
  facts (columns (update_inputs P f db) n) = facts (columns db n).
Proof. intros Hinv Hn Hf. rewrite columns_update by (done || by apply sv_keys). destruct (P n); [by apply Hf|done]. Qed.

Lemma applied_not_held db claim n : in_Status (columns db n) = InputApplied → holds_input claim db n = false.
Proof. intros Hs. destruct (holds_input claim db n) eqn:E; [|done]. apply holds_spec in E as (_ & E & _). congruence. Qed.

Lemma fenced_facts db claim f db' n :
  situation_inv db → n ∈ outbox db → in_Status (columns db n) = InputApplied → fenced claim f db = Ok db' →
  n ∈ outbox db' ∧ facts (columns db' n) = facts (columns db n).
Proof.
  intros Hinv Hn Hs (_ & _ & _ & ->)%fenced_ok. split; [done|]. apply update_facts; [done..|]. by rewrite (applied_not_held db claim n).
Qed.

Lemma step_facts db db' n :
  situation_step db db' → situation_inv db → n ∈ outbox db → in_Status (columns db n) = InputApplied →
  n ∈ outbox db' ∧ facts (columns db' n) = facts (columns db n).
Proof.
  intros [] Hinv Hn Hs.
  - split; [|done]. destruct (wr_outbox _ _ H0) as (x & Ex & _). unfold outbox in *. simpl. rewrite Ex. apply elem_of_app. by left.
  - apply claim_inputs_ok in H as ->. split; [done|].
    apply update_facts; [done..|]. intros Ha%among_claimed; [|by apply sv_keys|done].
    apply andb_true_iff in Ha as [[Hd|Hd]%input_due_status _]; congruence.
  - apply retry_input_ok in H. by eapply fenced_facts.
  - apply defer_input_ok in H. by eapply fenced_facts.
  - apply apply_input_cases in H as (x & _ & [(_ & _ & ->)|(_ & _ & due & t & _ & _ & Heff)]); [done|].
    pose proof (applied_not_held db claim n Hs) as Hno.
    assert (Hl : ∀ y sits mems i v, n ∈ outbox (landed db claim y sits mems i v now)
      ∧ facts (columns (landed db claim y sits mems i v now) n) = facts (columns db n)).
    { intros. split; [done|]. unfold landed. rewrite columns_update by (done || apply (sv_keys _ Hinv)). by rewrite Hno. }
    destruct Heff as [s _ _ _ _|s row _ _ _|_ _ _ _ _]; [|apply Hl|apply Hl].
    split; [done|]. apply update_facts; [done..|]. by rewrite Hno.
  - done.
  - split; [done|]. by apply update_facts.
  - split; [done|]. simpl. set (db1 := set_ledger _ db).
    change (facts (columns (update_inputs (λ n, input_expired now (columns db1 n)) recovered_columns db1) n) = facts (columns db1 n)).
    rewrite columns_update by (done || apply (sv_keys _ Hinv)). unfold input_expired, has_input_status. change (columns db1 n) with (columns db n). by rewrite Hs.
  - by apply reconstruct_cases in H0 as (sits & db2 & _ & (mems & -> & _)%attach_each_ok & -> & _).
Qed.

(** C16. An input counts once and for good: whatever any worker does afterwards,
    an applied input stays applied to the same Situation, at the same version and
    instant; applying it again answers with nothing and changes nothing, and it
    can neither be retried nor deferred. *)
Theorem applied_for_good db db' n :
  situation_inv db → n ∈ outbox db → in_Status (columns db n) = InputApplied → rtc situation_step db db' →
  facts (columns db' n) = facts (columns db n)
  ∧ ∀ claim, si_ID (sc_Input claim) = si_ID n → complete_input_claim claim = true →
      (∀ newID side now, ApplySituationInputResult db' claim newID side now = Ok (nothing_applied, db'))
      ∧ (∀ class at_ terminal, is_ok (RetrySituationInput db' claim class at_ terminal) = false)
      ∧ (∀ at_, is_ok (DeferSituationInput db' claim at_) = false).
Proof.
  intros Hinv Hn Hs Hsteps. revert Hinv Hn Hs. induction Hsteps as [db|db1 db2 db3 Hstep _ IH]; intros Hinv Hn Hs.
  2: { destruct (step_facts _ _ _ Hstep Hinv Hn Hs) as [Hn2 E2].
       destruct IH as [E3 Hrest]; [by eapply situation_keeps|done|unfold facts in E2; congruence|]. split; [congruence|done]. }
  split; [done|]. intros claim E Hc. pose proof (applied_not_held db claim n Hs) as Hno.
  assert (Hf : ∀ f, fenced claim f db = Err ErrInputLeaseLost).
  { intros f. unfold fenced. destruct (existsb _ _) eqn:Ex; [|done]. apply existsb_exists in Ex as (x & Hx & Hh).
    rewrite <- list_elem_of_In in Hx. pose proof Hh as (Ei & _)%holds_spec.
    rewrite (input_unique db x n) in Hh; [congruence|by apply sv_keys|done..|congruence]. }
  split; [|split].
  - intros newID side now. unfold ApplySituationInputResult. rewrite Hc. simpl.
    destruct (find_input db _) as [x|] eqn:Ef; [|apply (find_key_none si_ID) in Ef; destruct Ef; rewrite E; by apply list_elem_of_fmap_2].
    apply find_input_in in Ef as [Hx Ex]. rewrite (input_unique db x n); [|by apply sv_keys|done..|congruence].
    unfold has_input_status. by rewrite Hs.
  - intros class at_ terminal. unfold RetrySituationInput. rewrite Hc. simpl. destruct (valid_class class); [|done]. simpl.
    destruct (check_input _ _); [|done]. simpl. by rewrite Hf.
  - intros at_. unfold DeferSituationInput. rewrite Hc. simpl. destruct (check_input _ _); [|done]. simpl. by rewrite Hf.
Qed.
