(* ===== verification/InputWorker.v ===== *)
(** * The input worker (internal/situation/input_worker.go)

    The worker that drains the outbox of Situation inputs: a round claims due
    inputs and applies each; a failure is deferred, retried after a backoff or
    final.  Other workers write between any two calls of the store and any call
    may fail: [env] is what happened to the tables before the call of a given
    number, [fails] whether it fails, [side] what the writes beside an application
    returned.  The tickers, goroutines and logs around the rounds are left out;
    a cancelled run of the controller is a line of [iw_preempted]. *)

From stdpp Require Import prelude strings list gmap sorting relations.
From S2P Require Import Prelude SituationModel Snapshot Lifecycle TriageStore ErrorClass Deliveries DeliveryLedger Correlator ControllerStore HistoryStore SituationInputs Reconstruction SituationWorld.

Record WorkerConfig : Type := {
  wc_Owner : string;
  wc_Lease : Duration;
  wc_Interval : Duration;
  wc_Batch : Z;
  wc_MaxAttempts : Z
}.

Definition withDefaults (c : WorkerConfig) : WorkerConfig :=
  {| wc_Owner := wc_Owner c; wc_Lease := positive_or (60 * Second) (wc_Lease c);
     wc_Interval := positive_or (2 * Second) (wc_Interval c); wc_Batch := positive_or 16 (wc_Batch c);
     wc_MaxAttempts := positive_or 8 (wc_MaxAttempts c) |}%Z.

Definition inputRetryBase : Duration := Second.
Definition inputRetryCap : Duration := (5 * Minute)%Z.
Definition inputDeferDelay : Duration := Second.

Definition inputRetryBackoff (attempt : Z) : Duration :=
  let attempt := if (attempt <? 1)%Z then 1%Z else attempt in
  if (32 <? attempt)%Z then inputRetryCap
  else
    let d := dur_mul inputRetryBase (Z.shiftl 1 (attempt - 1)) in
    if ((d <=? 0) || (inputRetryCap <? d))%Z then inputRetryCap else d.

(** A call of the store that failed, or the error it answered. *)
Inductive worker_error : Type :=
| CallFailed (f : call_failure)
| Answered (e : input_error).

(** The class kept with the row, and whether the failure is final. *)
Definition inputErrorClass (e : worker_error) : string * bool :=
  match e with
  | Answered ErrInputNotFound => ("invalid_input", true)
  | _ => ("transient", false)
  end.

Record input_run : Type := { iw_calls : nat; iw_db : situation_db; iw_preempted : list (string * Z) }.

Inductive applyOutcome : Type := applyHandled | applyDeferred | applyStop (e : worker_error).

Section worker.
Context (env : nat → situation_db → situation_db) (fails : nat → option call_failure) (side : nat → side_writes)
  (new_id : nat → string) (clock : nat → Time) (cfg : WorkerConfig).

(** A call of the store. *)
Definition call {A} (t : nat → situation_db → result input_error (A * situation_db)) (s : input_run)
    : result worker_error A * input_run :=
  let n := iw_calls s in
  let db := env n (iw_db s) in
  let after db' := {| iw_calls := S n; iw_db := db'; iw_preempted := iw_preempted s |} in
  match fails n with
  | Some f => (Err (CallFailed f), after db)
  | None => match t n db with
            | Ok (a, db') => (Ok a, after db')
            | Err e => (Err (Answered e), after db)
            end
  end.

Definition silent {A} (r : result A situation_db) : result A (unit * situation_db) := let? db := r in Ok (tt, db).

Definition Preempt (situationID : string) (token : Z) (s : input_run) : input_run :=
  {| iw_calls := iw_calls s; iw_db := iw_db s; iw_preempted := iw_preempted s ++ [(situationID, token)] |}.

(** A context that ended, or a lease that moved on. *)
Definition stops (e : worker_error) : bool :=
  match e with CallFailed Cancelled | Answered ErrInputLeaseLost => true | _ => false end.

Definition is_protected (e : worker_error) : bool := match e with Answered ErrInputProtected => true | _ => false end.

Definition defer_claim (claim : SituationClaim) (s : input_run) : input_run :=
  (call (λ n db, silent (DeferSituationInput db claim (Add (clock n) inputDeferDelay))) s).2.

Definition retry_claim (claim : SituationClaim) (e : worker_error) (s : input_run) : input_run :=
  let '(class, final) := inputErrorClass e in
  let terminal := final || (wc_MaxAttempts cfg <=? sc_AttemptCount claim)%Z in
  (call (λ n db, silent (RetrySituationInput db claim class
           (if terminal then clock n else Add (clock n) (inputRetryBackoff (sc_AttemptCount claim))) terminal)) s).2.

(** A write back that fails is logged: its row is claimed again when its lease
    runs out. *)
Definition applyOne (claim : SituationClaim) (s : input_run) : applyOutcome * input_run :=
  let '(r, s1) := call (λ n db, ApplySituationInputResult db claim (new_id n) (side n) (clock n)) s in
  match r with
  | Ok a => (applyHandled, if (0 <? sa_SupersededClaimToken a)%Z then Preempt (sa_SituationID a) (sa_SupersededClaimToken a) s1 else s1)
  | Err e =>
      if is_protected e then (applyDeferred, defer_claim claim s1)
      else if stops e then (applyStop e, s1)
      else (applyHandled, retry_claim claim e s1)
  end.

(** How many were handled and deferred, and the error that stopped the round. *)
Fixpoint applyEach (claims : list SituationClaim) (s : input_run) : nat * nat * option worker_error * input_run :=
  match claims with
  | [] => (0, 0, None, s)
  | c :: cs =>
      let '(o, s1) := applyOne c s in
      match o with
      | applyStop e => (0, 0, Some e, s1)
      | applyHandled => let '(handled, deferred, e, s2) := applyEach cs s1 in (S handled, deferred, e, s2)
      | applyDeferred => let '(handled, deferred, e, s2) := applyEach cs s1 in (handled, S deferred, e, s2)
      end
  end%nat.

Definition runOnce (s : input_run) : nat * nat * option worker_error * input_run :=
  let '(r, s1) := call (λ n db, ClaimSituationInputs db (wc_Owner cfg) (clock n) (wc_Lease cfg) (wc_Batch cfg)) s in
  match r with
  | Err e => (0%nat, 0%nat, Some e, s1)
  | Ok claims => applyEach claims s1
  end.

(** Rounds until one takes nothing or stops; [fuel] counts them. *)
Fixpoint DrainInputs (fuel : nat) (s : input_run) : option (nat * option worker_error * input_run) :=
  match fuel with
  | O => None
  | S f =>
      let '(handled, deferred, e, s1) := runOnce s in
      match e with
      | Some e => Some (handled, Some e, s1)
      | None =>
          if (handled + deferred =? 0)%nat then Some (handled, None, s1)
          else '(total, e, s2) ← DrainInputs f s1; Some ((handled + total)%nat, e, s2)
      end
  end.
End worker.

(** ** Backoff *)

Lemma input_backoff k : inputRetryBackoff k = dispatchRetryBackoff k.
Proof. reflexivity. Qed.

Lemma input_backoff_bounds k : (Second ≤ inputRetryBackoff k ≤ inputRetryCap)%Z.
Proof. rewrite input_backoff. apply backoff_bounds. Qed.

(** ** One row *)

(** What a claim needs to be worked on. *)
Record claim_ready (db : situation_db) (c : SituationClaim) : Prop := {
  cr_input : sc_Input c ∈ outbox db;
  cr_holds : holds_input c db (sc_Input c) = true;
  cr_complete : complete_input_claim c = true;
  cr_attempts : sc_AttemptCount c = in_AttemptCount (columns db (sc_Input c))
}.

(** A transaction under a claim changes the row of the claim only. *)
Definition only_row (claim : SituationClaim) (db db' : situation_db) : Prop :=
  ∀ m, m ∈ outbox db → m ∈ outbox db' ∧ (m ≠ sc_Input claim → columns db' m = columns db m).

Lemma not_its_row db claim m :
  situation_inv db → claim_ready db claim → m ∈ outbox db → m ≠ sc_Input claim → holds_input claim db m = false.
Proof.
  intros Hinv Hr Hm Hne. destruct (holds_input claim db m) eqn:E; [|done]. apply holds_spec in E as (E & _). destruct Hne.
  apply (input_unique db); [by apply sv_keys|done|by apply cr_input|done].
Qed.

Lemma fenced_row db claim f :
  situation_inv db → claim_ready db claim →
  ∃ db', fenced claim f db = Ok db' ∧ only_row claim db db' ∧ columns db' (sc_Input claim) = f (columns db (sc_Input claim)).
Proof.
  intros Hinv Hr. unfold fenced. assert (existsb (holds_input claim db) (outbox db) = true) as ->.
  { apply existsb_exists. exists (sc_Input claim). rewrite <- list_elem_of_In. split; [by apply cr_input|by apply cr_holds]. }
  eexists. split; [done|]. split.
  - intros m Hm. split; [done|]. intros Hne. rewrite columns_update by (done || by apply sv_keys).
    by rewrite (not_its_row db claim m).
  - rewrite columns_update by (by apply cr_input || by apply sv_keys). by rewrite cr_holds.
Qed.

Lemma applied_row db claim newID sd now r db' :
  situation_inv db → claim_ready db claim → ApplySituationInputResult db claim newID sd now = Ok (r, db') →
  only_row claim db db' ∧ in_Status (columns db' (sc_Input claim)) = InputApplied.
Proof.
  intros Hinv Hr (n & Hf & Hcase)%apply_input_cases. apply find_input_in in Hf as [Hn En].
  assert (n = sc_Input claim) as -> by (apply (input_unique db); [by apply sv_keys|done|by apply cr_input|done]).
  pose proof (cr_holds _ _ Hr) as Hh. destruct Hcase as [(Ha & _)|(_ & _ & due & t & _ & _ & Heff)].
  { apply holds_spec in Hh as (_ & Hs & _). congruence. }
  pose proof (effect_lands _ _ _ _ _ _ _ _ _ Hinv Hn Hh Heff) as [(j & ->) _ _ _]. split; [|done].
  intros m Hm. assert (Hno : m ≠ sc_Input claim → holds_input claim db m = false) by (by apply not_its_row).
  destruct Heff as [s _ _ _ _|s row _ _ _|_ _ _ _ _]; (split; [done|]); intros Hne; unfold landed;
    (rewrite columns_update by (done || apply (sv_keys _ Hinv))); by rewrite Hno.
Qed.

(** An error other than a lost lease. *)
Definition not_lost {A} (r : result input_error A) : Prop := r ≠ Err ErrInputLeaseLost.

Lemma not_lost_bind {A B} (m : result input_error A) (k : A → result input_error B) :
  not_lost m → (∀ a, m = Ok a → not_lost (k a)) → not_lost (let? a := m in k a).
Proof. destruct m; simpl; [by auto|]. intros H _ E. apply H. congruence. Qed.

Lemma check_not_lost b e : not_lost (check_input b e).
Proof. unfold check_input. by destruct b. Qed.

Lemma went_not_lost e : not_lost (went e).
Proof. by destruct e as [[]|]. Qed.

Lemma resolve_not_lost db n t due newID now : not_lost (resolveAndApplySituationTx db n t due newID now).
Proof.
  unfold resolveAndApplySituationTx. apply not_lost_bind.
  - destruct (isOperatorArtifactKind _); [|done]. unfold ended_owner. repeat case_match; done.
  - intros [s|] _; [done|]. destruct (match situationOwnerForIncidentTx db _ with Some _ => _ | None => _ end) as [id|].
    + apply not_lost_bind; [|by intros [[] ?] _]. unfold joinSituation. destruct (find_situation db id); [|done].
      by destruct (joinSituationTx _ _ _ _) as [|[]].
    + apply not_lost_bind; [|done]. unfold createSituationTx. by destruct (negb _ && _ && _ && _).
Qed.

Lemma mark_found db db2 claim id v j now :
  situation_inv db → claim_ready db claim → outbox db2 = outbox db → sd_inputs db2 = sd_inputs db →
  ∃ db3, markSituationInputAppliedTx db2 claim id v j now = Ok db3.
Proof.
  intros Hinv Hr E2 I2. unfold markSituationInputAppliedTx, fenced.
  assert (existsb (holds_input claim db2) (outbox db2) = true) as ->; [|by eexists].
  apply existsb_exists. exists (sc_Input claim). rewrite <- list_elem_of_In, E2. split; [by apply cr_input|].
  pose proof (cr_holds _ _ Hr) as H. unfold holds_input, columns in *. by rewrite I2.
Qed.

(** Finding the Situation leaves the outbox. *)
Lemma resolve_outbox db n t due newID now o db1 :
  resolveAndApplySituationTx db n t due newID now = Ok (o, db1) → outbox db1 = outbox db ∧ sd_inputs db1 = sd_inputs db.
Proof.
  unfold resolveAndApplySituationTx. destruct (if isOperatorArtifactKind _ then _ else _) as [[s|]|]; simpl; [by intros [= _ <-]| |done].
  destruct (match situationOwnerForIncidentTx db _ with Some _ => _ | None => _ end) as [id|].
  - unfold joinSituation. destruct (find_situation db id); [|done]. destruct (joinSituationTx _ _ _ _) as [row|[]]; [|done..]. by intros [= _ <-].
  - unfold createSituationTx. destruct (negb _ && _ && _ && _); [|done]. by intros [= _ <-].
Qed.

Lemma apply_not_lost_input db claim newID sd now :
  situation_inv db → claim_ready db claim → not_lost (ApplySituationInputResult db claim newID sd now).
Proof.
  intros Hinv Hr. unfold ApplySituationInputResult. apply not_lost_bind; [apply check_not_lost|]. intros [] _.
  destruct (find_input db _) as [n|] eqn:Ef; [|done]. apply find_input_in in Ef as [Hn En].
  assert (n = sc_Input claim) as -> by (apply (input_unique db); [by apply sv_keys|done|by apply cr_input|done]).
  destruct (has_input_status InputApplied _); [done|]. pose proof (cr_holds _ _ Hr) as Hh. apply andb_true_iff in Hh as [_ ->]. simpl.
  apply not_lost_bind; [unfold dueReasonForInputKind; by repeat case_match|]. intros due _. apply not_lost_bind.
  { unfold check_addressed. destruct (find_incident _ _); [|done]. apply not_lost_bind; [apply check_not_lost|]. intros _ _.
    destruct (si_DeliveryID _); [apply check_not_lost|done]. }
  intros _ _. apply not_lost_bind; [unfold sourceTimesForInputTx; by repeat case_match|]. intros t _.
  apply not_lost_bind; [apply went_not_lost|]. intros _ _. apply not_lost_bind; [apply resolve_not_lost|].
  intros [o db1] [Eo Ei]%resolve_outbox. apply not_lost_bind; [apply went_not_lost|]. intros _ _. destruct (so_ownerTerminal o).
  - by destruct (mark_found db db1 claim (so_situationID o) (so_inputVersion o) JournalOwnerTerminal now) as [db3 ->].
  - apply not_lost_bind; [apply went_not_lost|]. intros _ _.
    destruct (mark_found db (attachSituationMembershipTx db1 (so_situationID o) (si_IncidentID (sc_Input claim))) claim
                (so_situationID o) (so_inputVersion o) (joined_journal (sc_Input claim)) now) as [db3 ->];
      [done|done|unfold attachSituationMembershipTx; by case_match..|done].
Qed.

(** ** A round *)

Lemma step_outbox db db' n : situation_step db db' → n ∈ outbox db → n ∈ outbox db'.
Proof.
  intros [] Hn; try done.
  - destruct (wr_outbox _ _ H0) as (x & Ex & _). unfold outbox in *. simpl. rewrite Ex. apply elem_of_app. by left.
  - by apply claim_inputs_ok in H as ->.
  - by apply retry_input_ok, fenced_ok in H as (_ & _ & _ & ->).
  - by apply defer_input_ok, fenced_ok in H as (_ & _ & _ & ->).
  - apply apply_input_cases in H as (x & _ & [(_ & _ & ->)|(_ & _ & due & t & _ & _ & [])]); done.
  - by apply reconstruct_cases in H0 as (sits & db2 & _ & (mems & -> & _)%attach_each_ok & -> & _).
Qed.

Lemma steps_outbox db db' n : rtc situation_step db db' → n ∈ outbox db → n ∈ outbox db'.
Proof. induction 1; [done|]. intros. by eauto using step_outbox. Qed.

Section rounds.
Context (env : nat → situation_db → situation_db) (fails : nat → option call_failure) (side : nat → side_writes)
  (new_id : nat → string) (clock : nat → Time) (cfg : WorkerConfig).

(** The others take steps that leave the rows of the outbox, and no call fails
    of itself. *)
Definition others_leave : Prop :=
  ∀ k db, rtc situation_step db (env k db) ∧ ∀ n, n ∈ outbox db → columns (env k db) n = columns db n.

Context (Hothers : others_leave) (Hcalls : ∀ k, fails k = None) (Hclock : ∀ k, (0 < clock k)%Z).

Lemma call_answers {A} (t : nat → situation_db → result input_error (A * situation_db)) s :
  call env fails t s =
  match t (iw_calls s) (env (iw_calls s) (iw_db s)) with
  | Ok (a, db') => (Ok a, {| iw_calls := S (iw_calls s); iw_db := db'; iw_preempted := iw_preempted s |})
  | Err e => (Err (Answered e),
              {| iw_calls := S (iw_calls s); iw_db := env (iw_calls s) (iw_db s); iw_preempted := iw_preempted s |})
  end.
Proof. unfold call. rewrite Hcalls. by destruct (t _ _) as [[]|]. Qed.

Lemma env_inv k db : situation_inv db → situation_inv (env k db).
Proof. intros. eapply situations_keep; [by apply Hothers|done]. Qed.

Lemma env_outbox k db n : n ∈ outbox db → n ∈ outbox (env k db).
Proof. apply steps_outbox, Hothers. Qed.

Lemma env_ready k db c : claim_ready db c → claim_ready (env k db) c.
Proof.
  intros [Hi Hh Hc Ha]. pose proof (proj2 (Hothers k db) _ Hi) as E. split; [by apply env_outbox| |done|by rewrite E].
  apply holds_spec in Hh as (? & ? & ? & ?). apply holds_spec. by rewrite E.
Qed.

(** What becomes of a claimed row. *)
Inductive row_after (c : input_columns) : input_columns → Prop :=
| ra_applied c' : in_Status c' = InputApplied → row_after c c'
| ra_deferred k :
    row_after c (released_columns (in_LastErrorClass c) (Z.max (in_AttemptCount c - 1) 0) (Some (Add (clock k) inputDeferDelay)) c)
| ra_retried k :
    (in_AttemptCount c < wc_MaxAttempts cfg)%Z →
    row_after c (released_columns (Some "transient") (in_AttemptCount c)
                   (Some (Add (clock k) (inputRetryBackoff (in_AttemptCount c)))) c)
| ra_failed class :
    (class = "invalid_input" ∨ class = "transient" ∧ (wc_MaxAttempts cfg ≤ in_AttemptCount c)%Z) →
    row_after c (released_columns (Some class) (in_AttemptCount c) None c).

(** A run that works on one row. *)
Record works (claim : SituationClaim) (s s' : input_run) : Prop := {
  wk_inv : situation_inv (iw_db s');
  wk_only : only_row claim (iw_db s) (iw_db s');
  wk_row : row_after (columns (iw_db s) (sc_Input claim)) (columns (iw_db s') (sc_Input claim))
}.

(** A write back under a held claim. *)
Lemma release_works claim s f e :
  situation_inv (iw_db s) → claim_ready (iw_db s) claim →
  (∀ n db, fenced claim (f n) db = e n db) →
  (∀ n db db', situation_inv db → e n db = Ok db' → situation_inv db') →
  (∀ n, let c := columns (iw_db s) (sc_Input claim) in row_after c (f n c)) →
  works claim s (call env fails (λ n db, silent (e n db)) s).2.
Proof.
  intros Hinv Hr He Hk Hrow. rewrite call_answers. set (k := iw_calls s). pose proof (env_inv k _ Hinv) as Hinv'. pose proof (env_ready k _ _ Hr) as Hr'.
  destruct (fenced_row (env k (iw_db s)) claim (f k) Hinv' Hr') as (db' & E & Hother & Hmine). rewrite He in E. rewrite E. simpl. split; simpl.
  - by eapply Hk.
  - intros m Hm. destruct (Hother m (env_outbox k _ _ Hm)) as [Hm' Hrest]. split; [done|]. intros Hne. rewrite Hrest by done. by apply Hothers.
  - rewrite Hmine, (proj2 (Hothers k (iw_db s))) by (by apply cr_input). apply Hrow.
Qed.

Lemma defer_works claim s :
  situation_inv (iw_db s) → claim_ready (iw_db s) claim → works claim s (defer_claim env fails clock claim s).
Proof.
  intros Hinv Hr. unfold defer_claim.
  assert (Ht : ∀ n, IsZero (Add (clock n) inputDeferDelay) = false).
  { intros n. specialize (Hclock n). unfold IsZero, Add, inputDeferDelay, Second. apply Z.eqb_neq. lia. }
  apply (release_works claim s (λ n c, released_columns (in_LastErrorClass c) (Z.max (in_AttemptCount c - 1) 0)
           (Some (Add (clock n) inputDeferDelay)) c)); [done|done| | |intros n; apply ra_deferred].
  - intros n db. unfold DeferSituationInput. rewrite (cr_complete _ _ Hr), Ht. done.
  - intros n db db'. apply defer_keeps.
Qed.

Lemma retry_works claim e s :
  situation_inv (iw_db s) → claim_ready (iw_db s) claim → works claim s (retry_claim env fails clock cfg claim e s).
Proof.
  intros Hinv Hr. unfold retry_claim. destruct (inputErrorClass e) as [class final] eqn:Ee.
  set (terminal := final || _). set (at_ := λ n, if terminal then clock n else Add (clock n) (inputRetryBackoff (sc_AttemptCount claim))).
  assert (Hclass : valid_class class = Ok tt ∧ (class = "invalid_input" ∧ final = true ∨ class = "transient" ∧ final = false)).
  { destruct e as [f|[]]; injection Ee as <- <-; (split; [by vm_compute|auto]). }
  destruct Hclass as [Hv Hc]. assert (Ht : ∀ n, terminal || negb (IsZero (at_ n)) = true).
  { intros n. unfold at_. destruct terminal; [done|]. simpl. apply negb_true_iff, Z.eqb_neq. unfold Add.
    pose proof (Hclock n). pose proof (input_backoff_bounds (sc_AttemptCount claim)). unfold Second in *. lia. }
  apply (release_works claim s (λ n c, released_columns (Some class) (in_AttemptCount c) (if terminal then None else Some (at_ n)) c)
           (λ n db, RetrySituationInput db claim class (at_ n) terminal)); [done|done| | |].
  - intros n db. unfold RetrySituationInput. rewrite (cr_complete _ _ Hr), Hv, Ht. done.
  - intros n db db'. apply retry_input_keeps.
  - intros n. simpl. unfold at_. subst terminal. rewrite (cr_attempts _ _ Hr). destruct Hc as [[-> ->]|[-> ->]]; simpl.
    + apply ra_failed. by left.
    + destruct (wc_MaxAttempts cfg <=? in_AttemptCount _)%Z eqn:El; [apply Z.leb_le in El; apply ra_failed; by right|apply Z.leb_gt in El; by apply ra_retried].
Qed.

Lemma applyOne_works claim s :
  situation_inv (iw_db s) → claim_ready (iw_db s) claim →
  ∃ o s', applyOne env fails side new_id clock cfg claim s = (o, s') ∧ o ∈ [applyHandled; applyDeferred] ∧ works claim s s'.
Proof.
  intros Hinv Hr. unfold applyOne. rewrite call_answers. set (k := iw_calls s). pose proof (env_inv k _ Hinv) as Hinv'. pose proof (env_ready k _ _ Hr) as Hr'.
  set (s1 := {| iw_calls := S k; iw_db := env k (iw_db s); iw_preempted := iw_preempted s |}).
  assert (Hlift : ∀ s', works claim s1 s' → works claim s s').
  { intros s' [W1 W2 W3]. simpl in *. split; [done| |].
    - intros m Hm. destruct (W2 m (env_outbox k _ _ Hm)) as [Hm' Hrest]. split; [done|]. intros Hne. rewrite Hrest by done. by apply Hothers.
    - by rewrite (proj2 (Hothers k (iw_db s))) in W3 by (by apply cr_input). }
  destruct (ApplySituationInputResult _ _ _ _ _) as [[r db']|e] eqn:E.
  - destruct (applied_row _ _ _ _ _ _ _ Hinv' Hr' E) as [Ho Hs]. eexists applyHandled, _. split; [done|]. split; [set_solver|]. apply Hlift.
    destruct (0 <? sa_SupersededClaimToken r)%Z; (split; simpl; [by eapply apply_keeps|done|by apply ra_applied]).
  - pose proof (apply_not_lost_input _ claim (new_id k) (side k) (clock k) Hinv' Hr') as Hnl.
    destruct (is_protected (Answered e)) eqn:Ep.
    + eexists _, _. split; [done|]. split; [set_solver|]. apply Hlift. by apply defer_works.
    + assert (stops (Answered e) = false) as -> by (destruct e; try done; by destruct Hnl).
      eexists _, _. split; [done|]. split; [set_solver|]. apply Hlift. by apply retry_works.
Qed.
(** The rows after a run over some claims. *)
Definition settled_rows (claims : list SituationClaim) (db db' : situation_db) : Prop :=
  ∀ m, m ∈ outbox db → m ∈ outbox db' ∧
    if decide (m ∈ sc_Input <$> claims) then row_after (columns db m) (columns db' m) else columns db' m = columns db m.

Lemma ready_kept claim s s' c : works claim s s' → claim_ready (iw_db s) c → sc_Input c ≠ sc_Input claim → claim_ready (iw_db s') c.
Proof.
  intros [_ Ho _] [Hi Hh Hc Ha] Hne. destruct (Ho _ Hi) as [Hi' E]. specialize (E Hne). split; [done| |done|by rewrite E].
  apply holds_spec in Hh as (? & ? & ? & ?). apply holds_spec. by rewrite E.
Qed.

Lemma applyEach_settles claims s :
  situation_inv (iw_db s) → NoDup (sc_Input <$> claims) → Forall (claim_ready (iw_db s)) claims →
  ∃ handled deferred s', applyEach env fails side new_id clock cfg claims s = (handled, deferred, None, s')
    ∧ (handled + deferred = length claims)%nat ∧ situation_inv (iw_db s') ∧ settled_rows claims (iw_db s) (iw_db s').
Proof.
  revert s. induction claims as [|c cs IH]; intros s Hinv Hnd Hr.
  { eexists _, _, s. split; [done|]. split; [done|]. split; [done|]. intros m Hm. by rewrite decide_False by (by apply not_elem_of_nil). }
  rewrite fmap_cons, NoDup_cons in Hnd. destruct Hnd as [Hc Hnd]. apply Forall_cons in Hr as [Hrc Hr].
  destruct (applyOne_works c s Hinv Hrc) as (o & s1 & E & Ho & W). pose proof W as [Hinv1 Hother Hmine].
  destruct (IH s1 Hinv1 Hnd) as (h & d & s' & E' & Hlen & Hinv' & Hrows).
  { rewrite Forall_forall in *. intros x Hx. eapply ready_kept; [done|by apply Hr|]. intros Ex. apply Hc. rewrite <- Ex. by apply list_elem_of_fmap_2. }
  assert (Hsettled : settled_rows (c :: cs) (iw_db s) (iw_db s')).
  { intros m Hm. destruct (Hother m Hm) as [Hm1 Hsame]. destruct (Hrows m Hm1) as [Hm' Hrow]. split; [done|].
    destruct (decide (m = sc_Input c)) as [->|Hne].
    - rewrite decide_True by (rewrite fmap_cons; by left). rewrite decide_False in Hrow by done. by rewrite Hrow.
    - rewrite (Hsame Hne) in Hrow. destruct (decide (m ∈ sc_Input <$> cs)).
      + rewrite decide_True by (rewrite fmap_cons; by right). done.
      + rewrite decide_False by (rewrite fmap_cons, elem_of_cons; naive_solver). done. }
  simpl. rewrite E. apply elem_of_cons in Ho as [->|Ho%list_elem_of_singleton]; [|subst o]; rewrite E'.
  - exists (S h), d, s'. split; [done|]. split; [simpl; lia|done].
  - exists h, (S d), s'. split; [done|]. split; [simpl; lia|done].
Qed.

(** The rows a claim takes are those it answers with. *)
Lemma claimed_rows db owner now lease limit claims db' :
  situation_inv db → Forall (λ n, blank (si_ID n) = false) (outbox db) →
  ClaimSituationInputs db owner now lease limit = Ok (claims, db') →
  outbox db' = outbox db ∧ NoDup (sc_Input <$> claims) ∧ Forall (claim_ready db') claims
  ∧ (∀ n, n ∈ outbox db → n ∈ sc_Input <$> claims ↔ among_inputs (claimed_ids db now limit) n = true)
  ∧ ∀ n, n ∈ outbox db →
      columns db' n = if among_inputs (claimed_ids db now limit) n then claimed_columns owner (Add now lease) (columns db n) else columns db n.
Proof.
  intros Hinv Hnamed. unfold ClaimSituationInputs, check_input. destruct (negb (blank owner) && _ && _) eqn:Eg; [|done]. simpl.
  apply andb_true_iff in Eg as [[Ho%negb_true_iff _]%andb_true_iff _]. intros [= <- <-]. set (ids := claimed_ids db now limit). set (db' := update_inputs _ _ db).
  assert (Hcol : ∀ n, n ∈ outbox db → columns db' n = if among_inputs ids n then claimed_columns owner (Add now lease) (columns db n) else columns db n).
  { intros n Hn. unfold db'. by rewrite columns_update by (done || by apply sv_keys). }
  assert (Hin : ∀ n, n ∈ sc_Input <$> loadClaimedSituationInputsTx db' ids owner ↔ n ∈ outbox db ∧ among_inputs ids n = true).
  { intros n. unfold loadClaimedSituationInputsTx. rewrite <- list_fmap_compose. simpl. rewrite list_fmap_id, SliceStable_perm, elem_of_select_rows.
    change (outbox db') with (outbox db). rewrite !andb_true_iff. split; [tauto|]. intros [Hn Ha]. rewrite Hcol, Ha by done.
    split; [|done]. by rewrite bool_decide_eq_true_2. }
  assert (Hnd : NoDup (outbox db)) by (eapply NoDup_fmap_1, sv_keys; exact Hinv).
  split; [done|]. split; [|split; [|split; [|done]]].
  - unfold loadClaimedSituationInputsTx. rewrite <- list_fmap_compose. simpl. rewrite list_fmap_id, SliceStable_perm. by apply NoDup_filter.
  - apply Forall_forall. intros c Hc. pose proof (list_elem_of_fmap_2 sc_Input _ _ Hc) as [Hn Ha]%Hin.
    unfold loadClaimedSituationInputsTx in Hc. apply list_elem_of_fmap in Hc as (n & -> & _). simpl in *.
    pose proof (Hcol n Hn) as E. rewrite Ha in E. pose proof (sv_columns _ Hinv) as Hok. rewrite Forall_forall in Hok, Hnamed.
    split; simpl; [done| | |done].
    + apply holds_spec. simpl. by rewrite E.
    + unfold complete_input_claim. simpl. rewrite (Hnamed n Hn), Ho, E. simpl. pose proof (co_token _ _ (Hok n Hn)). apply Z.ltb_lt. lia.
  - intros n Hn. rewrite Hin. tauto.
Qed.

Lemma claimed_in db now limit n : n ∈ outbox db →
  n ∈ select_rows (among_inputs (claimed_ids db now limit)) (outbox db) ↔ si_ID n ∈ claimed_ids db now limit.
Proof.
  intros Hn. rewrite elem_of_select_rows. unfold among_inputs. rewrite existsb_exists. split.
  - intros [(i & Hi & E) _]. go_bool. rewrite E. by apply list_elem_of_In.
  - intros Hi. split; [|done]. exists (si_ID n). by rewrite <- list_elem_of_In, str_eqb_refl.
Qed.

(** As many rows are claimed as there are claimed identities. *)
Lemma claimed_count db now limit : NoDup (input_ids (sd_ledger db)) →
  length (select_rows (among_inputs (claimed_ids db now limit)) (outbox db)) = length (claimed_ids db now limit).
Proof.
  intros Hk. rewrite <- (length_fmap si_ID). apply Permutation_length, NoDup_Permutation.
  - by apply NoDup_fmap_select.
  - unfold claimed_ids. rewrite fmap_take. eapply sublist_NoDup; [|apply sublist_take]. rewrite SliceStable_perm. by apply NoDup_fmap_select.
  - intros id. split.
    + intros (n & -> & Hn)%list_elem_of_fmap. pose proof Hn as [_ Hx]%elem_of_select_rows. by apply claimed_in.
    + intros Hid. assert (∃ n, n ∈ outbox db ∧ id = si_ID n) as (n & Hn & ->).
      { unfold claimed_ids in Hid. apply list_elem_of_fmap in Hid as (n & -> & (k & Hk' & _)%elem_of_take). exists n. split; [|done].
        by apply list_elem_of_lookup_2, elem_of_SliceStable, elem_of_select_rows in Hk' as [_ ?]. }
      apply list_elem_of_fmap_2. by apply claimed_in.
Qed.

Lemma round_ok s :
  situation_inv (iw_db s) →
  let db := env (iw_calls s) (iw_db s) in
  let now := clock (iw_calls s) in
  let ids := claimed_ids db now (wc_Batch cfg) in
  Forall (λ n, blank (si_ID n) = false) (outbox db) →
  blank (wc_Owner cfg) = false → (0 < wc_Lease cfg)%Z → (0 < wc_Batch cfg)%Z →
  ∃ handled deferred s', runOnce env fails side new_id clock cfg s = (handled, deferred, None, s')
    ∧ (handled + deferred = length ids)%nat ∧ situation_inv (iw_db s')
    ∧ ∀ n, n ∈ outbox db →
        if among_inputs ids n
        then claimable db now n = true
             ∧ row_after (claimed_columns (wc_Owner cfg) (Add now (wc_Lease cfg)) (columns db n)) (columns (iw_db s') n)
        else columns (iw_db s') n = columns db n.
Proof.
  intros Hinv db now ids Hnamed Howner Hlease Hbatch. pose proof (env_inv (iw_calls s) _ Hinv) as Hinv1. change (situation_inv db) in Hinv1.
  unfold runOnce. rewrite call_answers. fold db now.
  destruct (ClaimSituationInputs db (wc_Owner cfg) now (wc_Lease cfg) (wc_Batch cfg)) as [[claims db1]|] eqn:E.
  2: { unfold ClaimSituationInputs, check_input in E. rewrite Howner in E. apply Z.ltb_lt in Hlease, Hbatch. by rewrite Hlease, Hbatch in E. }
  destruct (claimed_rows _ _ _ _ _ _ _ Hinv1 Hnamed E) as (Eo & Hnd & Hready & Hin & Hcol).
  destruct (applyEach_settles claims {| iw_calls := S (iw_calls s); iw_db := db1; iw_preempted := iw_preempted s |}) as (h & d & s' & E' & Hlen & Hinv' & Hrows);
    [by eapply claim_inputs_keeps|done|done|]. exists h, d, s'. split; [done|]. split; [|split; [done|]].
  - unfold ids. rewrite Hlen, <- claimed_count, <- (length_fmap sc_Input) by (exact (sv_keys _ Hinv1)).
    apply Permutation_length, NoDup_Permutation; [done|apply NoDup_filter; eapply NoDup_fmap_1; exact (sv_keys _ Hinv1)|].
    intros n. rewrite elem_of_select_rows. split; [|intros [? Hn]; by apply Hin].
    intros Hn. assert (Hx : n ∈ outbox db); [|split; [by apply Hin|done]].
    apply list_elem_of_fmap in Hn as (c & -> & Hc). rewrite Forall_forall in Hready. pose proof (cr_input _ _ (Hready c Hc)) as H. by rewrite Eo in H.
  - intros n Hn. destruct (Hrows n) as [_ Hrow]; [simpl; by rewrite Eo|]. simpl in Hrow. rewrite (Hcol n Hn) in Hrow. fold ids in Hrow, Hin.
    destruct (among_inputs ids n) eqn:Ea.
    + rewrite decide_True in Hrow by (by apply Hin). split; [|done]. eapply among_claimed; [exact (sv_keys _ Hinv1)|done|exact Ea].
    + rewrite decide_False in Hrow; [done|]. rewrite Hin by done. by rewrite Ea.
Qed.

(** C15. While no call to the store fails and the others leave the columns of the
    outbox's rows alone (they may change everything else), a round settles what
    it claims: it ends without an error; it takes the due inputs of unprotected
    groups, the oldest first up to the batch; each is then applied, or waits a
    second with its attempt given back, or waits for a retry between a second and
    five minutes, or has failed because what it names is missing or after the
    most attempts allowed; and no other row has changed.  (A cancellation, a lost
    lease or a write-back that fails can leave an input claimed until its lease
    runs out.) *)
Theorem round_settles s :
  situation_inv (iw_db s) →
  let db := env (iw_calls s) (iw_db s) in
  let now := clock (iw_calls s) in
  let ids := claimed_ids db now (wc_Batch cfg) in
  Forall (λ n, blank (si_ID n) = false) (outbox db) →
  blank (wc_Owner cfg) = false → (0 < wc_Lease cfg)%Z → (0 < wc_Batch cfg)%Z →
  ∃ handled deferred s', runOnce env fails side new_id clock cfg s = (handled, deferred, None, s')
    ∧ (handled + deferred = length ids)%nat ∧ situation_inv (iw_db s')
    ∧ ∀ n, n ∈ outbox db →
        if among_inputs ids n
        then claimable db now n = true
             ∧ row_after (claimed_columns (wc_Owner cfg) (Add now (wc_Lease cfg)) (columns db n)) (columns (iw_db s') n)
        else columns (iw_db s') n = columns db n.
Proof. intros. by apply round_ok. Qed.
End rounds.

(** ** Draining *)

Lemma apply_outbox db claim newID sd now r db' :
  ApplySituationInputResult db claim newID sd now = Ok (r, db') → outbox db' = outbox db.
Proof. intros (n & _ & [(_ & _ & ->)|(_ & _ & due & t & _ & _ & [])])%apply_input_cases; done. Qed.

Lemma silent_outbox (r : result input_error situation_db) db a db' :
  (∀ db', r = Ok db' → outbox db' = outbox db) → silent r = Ok (a, db') → outbox db' = outbox db.
Proof. unfold silent. destruct r; [|done]. intros H [= _ <-]. by apply H. Qed.

(** ** A run is steps of the tables *)

Section moves.
Context (env : nat → situation_db → situation_db) (fails : nat → option call_failure) (side : nat → side_writes)
  (new_id : nat → string) (clock : nat → Time) (cfg : WorkerConfig).
Context (Henv : ∀ k db, rtc situation_step db (env k db)).

Definition moves (s s' : input_run) : Prop := rtc situation_step (iw_db s) (iw_db s').

#[local] Instance moves_preorder : PreOrder moves.
Proof. split; unfold moves; [intros s; apply rtc_refl|]. intros a b c ??. by etrans. Qed.

Lemma call_moves {A} (t : nat → situation_db → result input_error (A * situation_db)) s :
  (∀ n db a db', t n db = Ok (a, db') → situation_step db db') → moves s (call env fails t s).2.
Proof.
  intros Ht. unfold call, moves. destruct (fails _); [apply Henv|]. destruct (t _ _) as [[a db']|e] eqn:E; [|apply Henv].
  simpl. etrans; [apply Henv|]. eapply rtc_once, Ht, E.
Qed.

Lemma silent_step (r : result input_error situation_db) db a db' :
  (∀ db', r = Ok db' → situation_step db db') → silent r = Ok (a, db') → situation_step db db'.
Proof. unfold silent. destruct r; [|done]. intros H [= _ <-]. by apply H. Qed.

Lemma defer_moves claim s : moves s (defer_claim env fails clock claim s).
Proof. apply call_moves. intros n db a db'. apply silent_step. intros. by eapply ss_defer. Qed.

Lemma retry_moves claim e s : moves s (retry_claim env fails clock cfg claim e s).
Proof. unfold retry_claim. destruct (inputErrorClass e). apply call_moves. intros n db a db'. apply silent_step. intros. by eapply ss_retry. Qed.

Lemma applyOne_moves claim s : moves s (applyOne env fails side new_id clock cfg claim s).2.
Proof.
  unfold applyOne. destruct (call _ _ _ _) as [r s1] eqn:E.
  assert (H1 : moves s s1) by (change s1 with (r, s1).2; rewrite <- E; apply call_moves; intros n db a db' H; by eapply ss_apply).
  destruct r as [a|e]; simpl; [by destruct (0 <? _)%Z|].
  destruct (is_protected e); [etrans; [exact H1|apply defer_moves]|]. destruct (stops e); [done|]. etrans; [exact H1|apply retry_moves].
Qed.

Lemma applyEach_moves claims s : moves s (applyEach env fails side new_id clock cfg claims s).2.
Proof.
  revert s. induction claims as [|c cs IH]; intros s; [reflexivity|]. simpl. pose proof (applyOne_moves c s) as H.
  destruct (applyOne _ _ _ _ _ _ c s) as [o s1]. pose proof (IH s1) as H1.
  destruct o; [| |done]; destruct (applyEach _ _ _ _ _ _ cs s1) as [[[h d] e'] s2]; by etrans.
Qed.

Lemma runOnce_moves s : moves s (runOnce env fails side new_id clock cfg s).2.
Proof.
  unfold runOnce. destruct (call _ _ _ _) as [r s1] eqn:E.
  assert (H1 : moves s s1) by (change s1 with (r, s1).2; rewrite <- E; apply call_moves; intros n db a db' H; by eapply ss_claim).
  destruct r as [claims|e]; [|done]. etrans; [exact H1|apply applyEach_moves].
Qed.

Lemma DrainInputs_moves fuel s total e s' : DrainInputs env fails side new_id clock cfg fuel s = Some (total, e, s') → moves s s'.
Proof.
  revert s total. induction fuel as [|fuel IH]; intros s total; [done|]. simpl. pose proof (runOnce_moves s) as H.
  destruct (runOnce _ _ _ _ _ _ s) as [[[h d] e1] s1]. destruct e1 as [e1|]; [by intros [= _ _ <-]|].
  destruct (h + d =? 0)%nat; [by intros [= _ _ <-]|]. destruct (DrainInputs _ _ _ _ _ _ fuel s1) as [[[n e2] s2]|] eqn:E; [|done].
  simpl. intros [= _ -> <-]. etrans; [exact H|]. by eapply IH.
Qed.
End moves.

(** Rows that are taken ([Q]) out of those that count before ([P]) and after ([R]). *)
Lemma count_taken {A} (P Q R : A → bool) (l : list A) :
  (∀ x, x ∈ l → Q x = true → P x = true ∧ R x = false) → (∀ x, x ∈ l → Q x = false → R x = P x) →
  (length (select_rows R l) + length (select_rows Q l) = length (select_rows P l))%nat.
Proof.
  induction l as [|a l IH]; intros Ht Hf; [done|]. specialize (IH (λ x Hx, Ht x ltac:(by right)) (λ x Hx, Hf x ltac:(by right))).
  specialize (Ht a ltac:(by left)). specialize (Hf a ltac:(by left)). unfold select_rows in *. rewrite !filter_cons.
  destruct (Q a); [destruct Ht as [-> ->]; [done|]|rewrite Hf by done; destruct (P a)]; simpl; lia.
Qed.

Section drain.
Context (env : nat → situation_db → situation_db) (fails : nat → option call_failure) (side : nat → side_writes)
  (new_id : nat → string) (clock : nat → Time) (cfg : WorkerConfig).
Context (Hothers : others_leave env) (Hcalls : ∀ k, fails k = None) (Hclock : ∀ k, (0 < clock k)%Z).
(** The others bring no inputs, and the drain ends within the second it began in. *)
Context (Hrows : ∀ k db, outbox (env k db) = outbox db) (second : Z) (Hsecond : ∀ k, seconds_of (clock k) = second).
Context (Howner : blank (wc_Owner cfg) = false) (Hlease : (0 < wc_Lease cfg)%Z) (Hbatch : (0 < wc_Batch cfg)%Z).

Lemma call_outbox {A} (t : nat → situation_db → result input_error (A * situation_db)) s :
  (∀ n db a db', t n db = Ok (a, db') → outbox db' = outbox db) → outbox (iw_db (call env fails t s).2) = outbox (iw_db s).
Proof.
  intros Ht. rewrite call_answers by done. destruct (t _ _) as [[a db']|e] eqn:E; simpl; [|by apply Hrows].
  apply Ht in E. by rewrite E, Hrows.
Qed.

Lemma defer_claim_outbox claim s : outbox (iw_db (defer_claim env fails clock claim s)) = outbox (iw_db s).
Proof.
  apply call_outbox. intros n db a db'. apply silent_outbox. clear db'. intros db' (_ & _ & _ & ->)%defer_input_ok%fenced_ok. done.
Qed.

Lemma retry_claim_outbox claim e s : outbox (iw_db (retry_claim env fails clock cfg claim e s)) = outbox (iw_db s).
Proof.
  unfold retry_claim. destruct (inputErrorClass e). apply call_outbox. intros n db a db'. apply silent_outbox. clear db'.
  intros db' (_ & _ & _ & ->)%retry_input_ok%fenced_ok. done.
Qed.

Lemma applyOne_outbox claim s : outbox (iw_db (applyOne env fails side new_id clock cfg claim s).2) = outbox (iw_db s).
Proof.
  unfold applyOne. destruct (call _ _ _ _) as [r s1] eqn:E.
  assert (E1 : outbox (iw_db s1) = outbox (iw_db s)).
  { change s1 with (r, s1).2. rewrite <- E. apply call_outbox. intros n db a db'. apply apply_outbox. }
  destruct r as [a|e]; simpl; [by destruct (0 <? _)%Z|].
  rewrite <- E1. destruct (is_protected e); [apply defer_claim_outbox|]. destruct (stops e); [done|]. apply retry_claim_outbox.
Qed.

Lemma applyEach_outbox claims s : outbox (iw_db (applyEach env fails side new_id clock cfg claims s).2) = outbox (iw_db s).
Proof.
  revert s. induction claims as [|c cs IH]; intros s; [done|]. simpl. pose proof (applyOne_outbox c s) as E.
  destruct (applyOne _ _ _ _ _ _ c s) as [o s1]. simpl in E. rewrite <- E. pose proof (IH s1) as E1.
  destruct o; [| |done]; by destruct (applyEach _ _ _ _ _ _ cs s1) as [[[h d] e'] s2].
Qed.

Lemma runOnce_outbox s : outbox (iw_db (runOnce env fails side new_id clock cfg s).2) = outbox (iw_db s).
Proof.
  unfold runOnce. destruct (call _ _ _ _) as [r s1] eqn:E.
  assert (E1 : outbox (iw_db s1) = outbox (iw_db s)).
  { change s1 with (r, s1).2. rewrite <- E. apply call_outbox. intros n db a db'. by intros ->%claim_inputs_ok. }
  destruct r as [claims|e]; [|done]. by rewrite applyEach_outbox.
Qed.

(** A row that may be due within the second. *)
Definition open_row (c : input_columns) : bool :=
  match in_Status c with
  | InputPending => match in_RetryAt c with None => true | Some t => (seconds_of t <=? second)%Z end
  | InputClaimed => match in_LeaseExpiresAt c with None => false | Some t => (seconds_of t <=? second)%Z end
  | _ => false
  end.

Definition open_rows (db : situation_db) : nat := length (select_rows (λ n, open_row (columns db n)) (outbox db)).

Lemma due_open k c : input_due (clock k) c = true → open_row c = true.
Proof.
  assert (Hle : ∀ t, text_leb t (clock k) = true → (seconds_of t <=? second)%Z = true).
  { intros t H. apply Z.leb_le. apply Z.nlt_ge. intros Hlt. rewrite <- (Hsecond k) in Hlt. apply text_leb_seconds in Hlt as [_ E]. congruence. }
  unfold input_due, open_row, has_input_status. intros [H|H]%orb_true_iff; apply andb_true_iff in H as [->%bool_decide_eq_true H].
  - destruct (in_RetryAt c); [by apply Hle|done].
  - destruct (in_LeaseExpiresAt c); [by apply Hle|done].
Qed.

Lemma later_second k d : (Second ≤ d)%Z → (seconds_of (Add (clock k) d) <=? second)%Z = false.
Proof.
  intros Hd. apply Z.leb_gt. rewrite <- (Hsecond k). unfold seconds_of, Add, Second in *.
  assert (clock k / 1000000000 + 1 ≤ (clock k + d) / 1000000000)%Z; [|lia]. rewrite <- Z.div_add by lia. apply Z.div_le_mono; lia.
Qed.

Lemma row_after_closed c c' : row_after clock cfg c c' → open_row c' = false.
Proof.
  destruct 1 as [x Hx|k|k _|class _]; unfold open_row; simpl; [by rewrite Hx| | |done].
  - by apply later_second.
  - by apply later_second, input_backoff_bounds.
Qed.

Definition all_inputs_named (db : situation_db) : Prop := Forall (λ n, blank (si_ID n) = false) (outbox db).

(** A round takes as many open rows as it claims. *)
Lemma round_takes s :
  situation_inv (iw_db s) → all_inputs_named (iw_db s) →
  ∃ handled deferred s', runOnce env fails side new_id clock cfg s = (handled, deferred, None, s')
    ∧ situation_inv (iw_db s') ∧ outbox (iw_db s') = outbox (iw_db s)
    ∧ (open_rows (iw_db s') + (handled + deferred) = open_rows (iw_db s))%nat
    ∧ ((handled + deferred = 0)%nat →
       ∀ n, n ∈ outbox (iw_db s) → claimable (env (iw_calls s) (iw_db s)) (clock (iw_calls s)) n = false).
Proof.
  intros Hinv Hnamed. set (db := env (iw_calls s) (iw_db s)). assert (Eo : outbox db = outbox (iw_db s)) by apply Hrows.
  destruct (round_ok env fails side new_id clock cfg Hothers Hcalls Hclock s Hinv) as (h & d & s' & E & Hlen & Hinv' & Hrow);
    [unfold all_inputs_named in Hnamed; by rewrite Hrows|done..|]. fold db in Hlen, Hrow.
  pose proof (runOnce_outbox s) as Eo'. rewrite E in Eo'. simpl in Eo'. exists h, d, s'. split; [done|]. split; [done|]. split; [done|].
  assert (Hk : NoDup (input_ids (sd_ledger db))) by (apply sv_keys, env_inv; done). split.
  - rewrite Hlen, <- (claimed_count db) by done. unfold open_rows. rewrite Eo', Eo. apply count_taken; intros n Hn Ea.
    + pose proof (Hrow n) as Hx. rewrite Eo, Ea in Hx. destruct (Hx Hn) as [Hc Hr]. split; [|by eapply row_after_closed].
      apply andb_true_iff in Hc as [Hdue _]. apply due_open in Hdue. unfold db in Hdue. by rewrite (proj2 (Hothers _ _)) in Hdue.
    + pose proof (Hrow n) as Hx. rewrite Eo, Ea in Hx. rewrite Hx by done. unfold db. by rewrite (proj2 (Hothers _ _)).
  - intros Hz n Hn. apply not_true_iff_false. intros Hc. rewrite Hz in Hlen. symmetry in Hlen. apply nil_length_inv in Hlen.
    unfold claimed_ids in Hlen. apply fmap_nil_inv, take_nil_inv in Hlen as [Hlen|Hlen]; [lia|].
    assert (Hin : n ∈ SliceStable input_ltb (select_rows (claimable db (clock (iw_calls s))) (outbox db))).
    { rewrite SliceStable_perm, elem_of_select_rows. by rewrite Eo. }
    rewrite Hlen in Hin. by apply not_elem_of_nil in Hin.
Qed.

(** C14. Draining ends, when no call to the store fails, the others neither add a
    row to the outbox nor change one, and the whole drain stays within one second
    of the clock (a deferred input is due again a second later): it returns
    within one round more than the rows that may be due, without an error; it
    takes every such row once at most; and when it returns no input was left to
    claim. *)
Theorem drain_inputs_ends fuel s :
  situation_inv (iw_db s) → all_inputs_named (iw_db s) → (open_rows (iw_db s) < fuel)%nat →
  ∃ total s', DrainInputs env fails side new_id clock cfg fuel s = Some (total, None, s')
    ∧ situation_inv (iw_db s') ∧ (open_rows (iw_db s') + total ≤ open_rows (iw_db s))%nat
    ∧ ∃ last, rtc (λ x y, (runOnce env fails side new_id clock cfg x).2 = y) s last
        ∧ s' = (runOnce env fails side new_id clock cfg last).2
        ∧ ∀ n, n ∈ outbox (iw_db s) → claimable (env (iw_calls last) (iw_db last)) (clock (iw_calls last)) n = false.
Proof.
  revert s. induction fuel as [|fuel IH]; intros s Hinv Hn Hf; [lia|]. simpl.
  destruct (round_takes s Hinv Hn) as (h & d & s1 & E & Hinv1 & Eo & Hopen & Hend). rewrite E.
  destruct (h + d =? 0)%nat eqn:Ez.
  - apply Nat.eqb_eq in Ez. eexists _, s1. split; [done|]. split; [done|]. split; [lia|]. exists s. rewrite E. split; [apply rtc_refl|]. split; [done|].
    by apply Hend.
  - apply Nat.eqb_neq in Ez. destruct (IH s1 Hinv1) as (total & s' & -> & Hinv' & Hle & last & Hsteps & Es & Hdone);
      [unfold all_inputs_named; by rewrite Eo|lia|]. simpl. eexists _, s'. split; [done|]. split; [done|]. split; [lia|]. exists last.
    split; [eapply rtc_l; [by rewrite E|done]|]. split; [done|]. by rewrite <- Eo.
Qed.
End drain.
