(* ===== verification/Startup.v ===== *)
(** * The startup pass (internal/situation/reconstruct.go)

    What a process does before it accepts work: it releases the leases that ran
    out, drains the accepted deliveries and the queued inputs, and gives every
    operational Incident without a Situation one, a group at a time; a group
    that fails does not stop the others.  A drain is anything with the law
    [Replays] (the Go interface [Replayer]); the two of the program are
    [replay_deliveries] and [replay_inputs].  Nobody else works meanwhile. *)

From stdpp Require Import prelude strings list gmap sorting relations.
From S2P Require Import Prelude SituationModel Snapshot Lifecycle TriageStore ErrorClass Deliveries DeliveryLedger Correlator ControllerStore HistoryStore SituationInputs Reconstruction SituationWorld InputWorker.

(** Draining: how much was handled, unless it ended with an error. *)
Definition Replayer : Type := situation_db → option nat * situation_db.

Record StartupReport : Type := {
  rc_RecoveredLeases : LeaseRecovery;
  rc_ReplayedDeliveries : nat;
  rc_ReplayedInputs : nat;
  rc_RepresentedGroups : nat;
  rc_RepresentedIncidents : nat;
  rc_DeadLettered : DeadLetterCounts
}.

(** The calls of the store that may fail. *)
Inductive startup_call : Type := CallRecover | CallList | CallGroup (key : string) | CallCount.

Inductive startup_error : Type :=
| ErrCallFailed (c : startup_call)
| ErrDrainDispatches
| ErrDrainInputs
| ErrReconstruct (key : string) (e : input_error).

Definition upgradeIncidentGroup : Type := string * list UpgradeIncident.

Definition groupUpgradeIncidents (incidents : list UpgradeIncident) : list upgradeIncidentGroup :=
  (λ k, (k, by_incident (select_rows (λ u, str_eqb (ui_GroupKey u) k) incidents))) <$>
    SliceStable str_ltb (remove_dups (ui_GroupKey <$> incidents)).

Section run.
Context (fails : startup_call → bool) (dispatch inputs : option Replayer) (new_id : string → string) (now : Time).

(** The groups and Incidents represented, and the errors of the others. *)
Fixpoint represent (groups : list upgradeIncidentGroup) (db : situation_db) : nat * nat * list startup_error * situation_db :=
  match groups with
  | [] => (0, 0, [], db)
  | (key, us) :: groups =>
      if fails (CallGroup key) then
        let '(g, i, errs, db') := represent groups db in (g, i, ErrCallFailed (CallGroup key) :: errs, db')
      else
        match ReconstructSituation db key us (new_id key) now with
        | Err e => let '(g, i, errs, db') := represent groups db in (g, i, ErrReconstruct key e :: errs, db')
        | Ok (_, db1) => let '(g, i, errs, db') := represent groups db1 in (S g, length us + i, errs, db')
        end
  end%nat.

Definition replay (r : option Replayer) (db : situation_db) : option nat * situation_db :=
  match r with None => (Some 0%nat, db) | Some r => r db end.

Definition no_leases : LeaseRecovery := {| lr_AlertDispatches := 0; lr_SituationInputs := 0; lr_Situations := 0 |}.
Definition no_dead_letters : DeadLetterCounts := {| dl_AlertDispatches := 0; dl_SituationInputs := 0 |}.

(** The report, the errors joined, and the tables. *)
Definition Run (db : situation_db) : StartupReport * list startup_error * situation_db :=
  let report l d i g n c :=
    {| rc_RecoveredLeases := l; rc_ReplayedDeliveries := d; rc_ReplayedInputs := i; rc_RepresentedGroups := g;
       rc_RepresentedIncidents := n; rc_DeadLettered := c |} in
  if fails CallRecover then (report no_leases 0 0 0 0 no_dead_letters, [ErrCallFailed CallRecover], db)
  else
    let '(leases, db1) := RecoverExpiredFoundationLeases db now in
    match replay dispatch db1 with
    | (None, db2) => (report leases 0 0 0 0 no_dead_letters, [ErrDrainDispatches], db2)
    | (Some deliveries, db2) =>
        match replay inputs db2 with
        | (None, db3) => (report leases deliveries 0 0 0 no_dead_letters, [ErrDrainInputs], db3)
        | (Some drained, db3) =>
            if fails CallList then (report leases deliveries drained 0 0 no_dead_letters, [ErrCallFailed CallList], db3)
            else
              let '(groups, incidents, errs, db4) := represent (groupUpgradeIncidents (UnrepresentedOperationalIncidents db3)) db3 in
              if fails CallCount then
                (report leases deliveries drained groups incidents no_dead_letters, errs ++ [ErrCallFailed CallCount], db4)
              else (report leases deliveries drained groups incidents (CountDeadLetteredFoundationWork db4), errs, db4)
        end
    end%nat.
End run.

(** ** The drains of the program *)

(** A drain works through the transactions of its worker. *)
Class Replays (r : Replayer) : Prop := replays_steps db : situation_inv db → rtc situation_step db (r db).2.

Definition alone {A} : nat → A → A := λ _ a, a.

(** [fuel] is the rounds allowed; a drain that needs more has not returned. *)
Definition replay_inputs (fails : nat → option call_failure) (side : nat → side_writes) (new_id : nat → string) (clock : nat → Time)
    (cfg : InputWorker.WorkerConfig) (fuel : nat) : Replayer := λ db,
  match DrainInputs alone fails side new_id clock cfg fuel {| iw_calls := 0; iw_db := db; iw_preempted := [] |} with
  | Some (n, None, s) => (Some n, iw_db s)
  | Some (_, Some _, s) => (None, iw_db s)
  | None => (None, db)
  end.

Definition replay_deliveries (c : Config) (fails : nat → option call_failure) (input_id incident_id : nat → string) (clock : nat → Time)
    (cfg : Correlator.WorkerConfig) (fuel : nat) : Replayer := λ db,
  let '(r, s) := Drain c alone fails input_id incident_id clock cfg fuel {| rn_calls := 0; rn_db := sd_ledger db; rn_audit := [] |} in
  match r with
  | Ok (Some (n, None)) => (Some n, set_ledger (rn_db s) db)
  | Ok None => (None, db)
  | _ => (None, set_ledger (rn_db s) db)
  end.

#[export] Instance inputs_replay fails side new_id clock cfg fuel : Replays (replay_inputs fails side new_id clock cfg fuel).
Proof.
  intros db _. unfold replay_inputs. destruct (DrainInputs _ _ _ _ _ _ _ _) as [[[n e] s]|] eqn:E; [|apply rtc_refl].
  apply DrainInputs_moves in E; [|intros; apply rtc_refl]. by destruct e.
Qed.

(** A write of the ledger's own workers, as the Situations see it. *)
Definition ledger_writes (l l' : delivery_db) : Prop := ledger_inv l → ledger_step l l' ∧ writes l l'.

Lemma transaction_ledger l l' : transaction l l' → ledger_writes l l'.
Proof. intros H Hinv. split; [by apply transaction_step|by apply transaction_writes]. Qed.

Lemma ledger_moves db l l' : rtc ledger_writes l l' → ledger_inv l → rtc situation_step (set_ledger l db) (set_ledger l' db).
Proof.
  induction 1 as [l|l l1 l' Hw _ IH]; intros Hinv; [apply rtc_refl|]. destruct (Hw Hinv) as [Hs Hww].
  eapply rtc_l; [by apply (ss_ledger (set_ledger l db))|]. apply IH. by eapply step_keeps_inv.
Qed.

#[export] Instance deliveries_replay c fails input_id incident_id clock cfg fuel :
  Replays (replay_deliveries c fails input_id incident_id clock cfg fuel).
Proof.
  intros db Hinv. unfold replay_deliveries. destruct (Drain _ _ _ _ _ _ _ _ _) as [r s] eqn:E.
  apply (follows_Drain _ _ _ _ _ _ ledger_writes transaction_ledger) in E; [|intros; apply rtc_refl].
  assert (H : rtc situation_step db (set_ledger (rn_db s) db)).
  { replace db with (set_ledger (sd_ledger db) db) at 1 by (by destruct db). apply ledger_moves; [done|]. by apply sv_ledger. }
  destruct r as [[[n [e|]]|]|e]; done || apply rtc_refl.
Qed.

(** ** Leases that ran out *)

(** A Situation's row but for the owner of its lease and the end of it. *)
Definition same_but_lease (r r' : situation_row) : Prop :=
  input_version r' = input_version r ∧ row_lifecycle r' = row_lifecycle r
  ∧ claim_token (row_lease r') = claim_token (row_lease r)
  ∧ supersede_streak (row_lease r') = supersede_streak (row_lease r)
  ∧ lease_protected (row_lease r') = lease_protected (row_lease r)
  ∧ row_schedule r' = row_schedule r ∧ row_work r' = row_work r.

(** The claims on the rows of the three tables, after a recovery as before it
    but for those whose lease had run out. *)
Record recovered (db db' : situation_db) (now : Time) : Prop := {
  rv_dispatches : ∀ id owner token,
    existsb (holds_claim id owner token) (d_dispatches (sd_ledger db'))
    = existsb (λ d, holds_claim id owner token d && negb (dispatch_expired now d)) (d_dispatches (sd_ledger db));
  rv_inputs : ∀ n claim, n ∈ outbox db → holds_input claim db' n = holds_input claim db n && negb (input_expired now (columns db n));
  rv_situations : ∀ s, s ∈ sd_situations db → ∃ s', s' ∈ sd_situations db' ∧ sn_ID s' = sn_ID s
    ∧ ∀ c, verifyClaimTx (sn_row s') c = verifyClaimTx (sn_row s) c && negb (situation_expired now s);
  rv_free : Forall (λ d, dispatch_expired now d = false) (d_dispatches (sd_ledger db'))
    ∧ Forall (λ n, input_expired now (columns db' n) = false) (outbox db')
    ∧ Forall (λ s, situation_expired now s = false) (sd_situations db');
  rv_kept :
    Forall2 (λ d e, dp_DeliveryID e = dp_DeliveryID d ∧ dp_ClaimToken e = dp_ClaimToken d ∧ dp_AttemptCount e = dp_AttemptCount d
                    ∧ dp_RetryAt e = dp_RetryAt d) (d_dispatches (sd_ledger db)) (d_dispatches (sd_ledger db'))
    ∧ Forall (λ n, in_ClaimToken (columns db' n) = in_ClaimToken (columns db n)
                   ∧ in_AttemptCount (columns db' n) = in_AttemptCount (columns db n)
                   ∧ in_RetryAt (columns db' n) = in_RetryAt (columns db n)) (outbox db)
    ∧ Forall2 (λ s s', sn_ID s' = sn_ID s ∧ same_but_lease (sn_row s) (sn_row s')) (sd_situations db) (sd_situations db')
}.

Lemma update_free {A} (P : A → bool) f (l : list A) : (∀ x, P x = true → P (f x) = false) → Forall (λ x, P x = false) (update_rows P f l).
Proof. intros Hf. apply Forall_forall. intros x (y & _ & ->)%elem_of_update_rows. destruct (P y) eqn:E; [by apply Hf|done]. Qed.

Lemma existsb_update {A} (P Q : A → bool) f (l : list A) :
  (∀ x, P (f x) = false) → existsb P (update_rows Q f l) = existsb (λ x, P x && negb (Q x)) l.
Proof.
  intros Hf. induction l as [|x l IH]; [done|]. simpl. rewrite <- IH. f_equal.
  destruct (Q x); [by rewrite Hf, andb_false_r|by rewrite andb_true_r].
Qed.

Lemma recovered_row now r c : verifyClaimTx (recover_lease r now) c = verifyClaimTx r c && negb (lease_expired now (row_lease r)).
Proof.
  unfold recover_lease. destruct (lease_expired now (row_lease r)) eqn:E; simpl; [|by rewrite andb_true_r].
  rewrite andb_false_r. unfold verifyClaimTx. simpl. done.
Qed.

Lemma recovered_same now r : same_but_lease r (recover_lease r now).
Proof. unfold recover_lease. by destruct (lease_expired now (row_lease r)). Qed.

Lemma recovered_free now r : lease_expired now (row_lease (recover_lease r now)) = false.
Proof. unfold recover_lease. by destruct (lease_expired now (row_lease r)) eqn:E. Qed.

(** C18. A restart frees exactly the claims whose lease ran out: afterwards no
    lease of the three tables has run out, every other claim is worth what it
    was, and the books are in order.  Every dispatch and every input, freed or
    not, keeps its token - so an old holder can never act on it again - its
    attempts and its retry time; every Situation keeps all of its row but the
    owner and the end of a lease that ran out: its token, its schedule, its
    version, its lifecycle and its work. *)
Theorem leases_recovered db now :
  situation_inv db → situation_inv (RecoverExpiredFoundationLeases db now).2
  ∧ recovered db (RecoverExpiredFoundationLeases db now).2 now.
Proof.
  intros Hinv. split; [by apply recover_leases_keeps|]. set (db' := (RecoverExpiredFoundationLeases db now).2).
  assert (Hcol : ∀ n, n ∈ outbox db → columns db' n = if input_expired now (columns db n) then recovered_columns (columns db n) else columns db n).
  { intros n Hn. set (db1 := set_ledger (recover_dispatches (sd_ledger db) now).2 db).
    change (columns (update_inputs (λ n, input_expired now (columns db1 n)) recovered_columns db1) n
            = if input_expired now (columns db1 n) then recovered_columns (columns db1 n) else columns db1 n).
    apply columns_update; [exact (sv_keys _ Hinv)|done]. }
  split.
  - intros id owner token. apply existsb_update. intros d. unfold holds_claim, is_dispatch. simpl. by rewrite andb_false_r.
  - intros n claim Hn. unfold holds_input. rewrite Hcol by done. destruct (input_expired _ _); [|by rewrite andb_true_r].
    unfold holds_columns, has_input_status. simpl. by rewrite !andb_false_r.
  - intros s Hs. exists (if situation_expired now s then recovered_situation now s else s).
    split; [apply elem_of_update_rows; by exists s|]. split; [by destruct (situation_expired now s)|]. intros c.
    destruct (situation_expired now s) eqn:E; [|by rewrite andb_true_r]. unfold situation_expired in E.
    change (sn_row (recovered_situation now s)) with (recover_lease (sn_row s) now). by rewrite recovered_row, E.
  - split; [|split].
    + by apply update_free.
    + apply Forall_forall. intros n Hn. change (n ∈ outbox db) in Hn. rewrite Hcol by done. by destruct (input_expired _ (columns db n)) eqn:E.
    + apply update_free. intros s _. apply recovered_free.
  - split; [|split].
    + change (d_dispatches (sd_ledger db')) with (update_rows (dispatch_expired now) recovered_dispatch (d_dispatches (sd_ledger db))).
      apply Forall2_fmap_r, Forall_Forall2_diag, Forall_forall. intros d _. simpl. by destruct (dispatch_expired now d).
    + apply Forall_forall. intros n Hn. rewrite Hcol by done. by destruct (input_expired _ _).
    + apply Forall2_fmap_r, Forall_Forall2_diag, Forall_forall. intros s _. simpl.
      destruct (situation_expired now s); [|by split]. split; [done|]. apply recovered_same.
Qed.

(** ** Incidents without a Situation *)

(** What the pass wants of such an Incident: it belongs to the open Situation
    of its group, which is due for that reason. *)
Record adopted (db : situation_db) (now : Time) (g incidentID : string) (s : situation) : Prop := {
  ad_there : s ∈ sd_situations db;
  ad_open : is_open s;
  ad_group : sn_GroupKey s = g;
  ad_member : (sn_ID s, incidentID) ∈ sd_members db;
  ad_reason : DueUpgradeReconstruction ∈ dues s;
  ad_due : (next_assessment_at (row_schedule (sn_row s)) ≤ now)%Z
}.

Lemma reconstructed_due now t observed s :
  DueUpgradeReconstruction ∈ dues (reconstructed_situation t observed now s)
  ∧ (next_assessment_at (row_schedule (sn_row (reconstructed_situation t observed now s))) ≤ now)%Z
  ∧ (next_assessment_at (row_schedule (sn_row (reconstructed_situation t observed now s))) ≤ next_assessment_at (row_schedule (sn_row s)))%Z
  ∧ ∀ r, r ∈ dues s → r ∈ dues (reconstructed_situation t observed now s).
Proof.
  change (dues (reconstructed_situation t observed now s)) with (mergeDueReason (dues s) DueUpgradeReconstruction). simpl.
  rewrite earlierTime_min. split; [apply elem_of_merge; by right|]. do 2 (split; [lia|]). intros r Hr. apply elem_of_merge. by left.
Qed.

(** What attaching a group leaves, the tables of the ledger first. *)
Record joins (db db' : situation_db) (newID : string) (now : Time) (us : list UpgradeIncident) : Prop := {
  jn_inv : situation_inv db';
  jn_ledger : sd_ledger db' = set_lifecycles (owner_lifecycles db') (sd_ledger db);
  jn_stay : ∀ m, m ∈ sd_members db → m ∈ sd_members db';
  jn_members : ∀ m, m ∈ sd_members db' → m ∈ sd_members db ∨ m.2 ∈ ui_IncidentID <$> us;
  jn_ids : ∀ id, id ∈ sn_ID <$> sd_situations db' → id ∈ sn_ID <$> sd_situations db ∨ id = newID;
  jn_adopted : ∀ u, u ∈ us → ∃ s, adopted db' now (ui_GroupKey u) (ui_IncidentID u) s;
  jn_still : ∀ g i s, adopted db now g i s → ∃ s', adopted db' now g i s'
}.

(** A Situation of the group, and those that were adopted still are. *)
Lemma reconstructs_due db g newID now id sits :
  situation_inv db → reconstructs db g newID now id sits →
  (∃ s, s ∈ sits ∧ sn_ID s = id ∧ is_open s ∧ sn_GroupKey s = g ∧ DueUpgradeReconstruction ∈ dues s
        ∧ (next_assessment_at (row_schedule (sn_row s)) ≤ now)%Z)
  ∧ (∀ x, x ∈ sn_ID <$> sits → x ∈ sn_ID <$> sd_situations db ∨ x = newID)
  ∧ (∀ i mems k s, adopted db now k i s → (∀ m, m ∈ sd_members db → m ∈ mems) →
       ∃ s', adopted (refreshed (set_situation_members mems (set_situations sits db))) now k i s').
Proof.
  intros Hinv [s t observed _ Hs Gs Os|t observed Hno Hid _].
  - split; [|split].
    + exists (reconstructed_situation t observed now s). split; [apply elem_of_update_rows; exists s; unfold situation_is; by rewrite str_eqb_refl|].
      destruct (reconstructed_due now t observed s) as (H1 & H2 & _). done.
    + intros x Hx. left. rewrite (lives_ids (sd_situations db)) in Hx; [done|]. apply update_lives. intros. apply reconstructed_lives.
    + intros i mems k y [] Hm. exists (if situation_is (sn_ID s) y then reconstructed_situation t observed now y else y).
      assert (Hin : (if situation_is (sn_ID s) y then reconstructed_situation t observed now y else y)
                    ∈ update_rows (situation_is (sn_ID s)) (reconstructed_situation t observed now) (sd_situations db))
        by (apply elem_of_update_rows; by exists y).
      destruct (reconstructed_due now t observed y) as (H1 & H2 & H3 & H4).
      destruct (situation_is (sn_ID s) y); split; simpl; auto.
  - split; [|split].
    + eexists. split; [apply elem_of_app; right; by apply list_elem_of_singleton|]. do 3 (split; [done|]).
      unfold dues, sn_row. simpl. split; [by apply list_elem_of_singleton|lia].
    + intros x. rewrite fmap_app. intros [?|?%list_elem_of_singleton]%elem_of_app; [by left|by right].
    + intros i mems k y [] Hm. exists y. split; simpl; auto. apply elem_of_app. by left.
Qed.

Lemma reconstruct_joins db g us newID now id db' :
  situation_inv db → Forall (missed db) us → ReconstructSituation db g us newID now = Ok (id, db') → joins db db' newID now us.
Proof.
  intros Hinv Hmiss H. pose proof (reconstruct_keeps _ _ _ _ _ _ _ Hinv Hmiss H) as Hinv'.
  apply reconstruct_cases in H as (sits & db2 & Hsits & (mems & -> & H1 & H2 & H3 & _)%attach_each_ok & -> & _ & Hg).
  assert (Hp : ∀ u, u ∈ by_incident us ↔ u ∈ us) by (intros u; unfold by_incident; by rewrite SliceStable_perm).
  destruct (reconstructs_due _ _ _ _ _ _ Hinv Hsits) as ((s & Hs & Es & Os & Gs & Rs & Ds) & Hids & Hstill).
  rewrite Forall_forall in Hmiss, Hg. split; simpl; try done.
  - intros m [?|[_ Hm]]%H3; [by left|right]. apply list_elem_of_fmap in Hm as (u & -> & Hu%Hp). by apply list_elem_of_fmap_2.
  - intros u Hu. exists s. split; simpl; try done; [by rewrite (Hg u Hu)|]. rewrite Es.
    destruct (proj1 (list_elem_of_fmap _ _ _) (H2 u (proj2 (Hp u) Hu))) as ([x y] & Ey & Hm). simpl in Ey. subst y.
    destruct (H3 _ Hm) as [Hold|[E _]]; [|simpl in E; by subst]. destruct (Hmiss u Hu) as [_ Hno]. destruct Hno.
    apply list_elem_of_fmap. by exists (x, ui_IncidentID u).
  - intros k i y Hy. by eapply Hstill.
Qed.

Definition fresh_in (db : situation_db) (id : string) : Prop := id ≠ "" ∧ id ∉ sn_ID <$> sd_situations db.

Lemma attach_each_total id us db : Forall (λ u, is_Some (find_incident (sd_ledger db) (ui_IncidentID u))) us → is_ok (attach_each id us db) = true.
Proof.
  revert db. induction us as [|u us IH]; intros db; [done|]. intros [Hu Hus]%Forall_cons. simpl. rewrite bool_decide_eq_true_2, orb_true_r by done.
  apply IH. unfold attachSituationMembershipTx. by case_match.
Qed.

(** A group with a key is never refused. *)
Lemma reconstruct_total db g us newID now :
  situation_inv db → Forall (missed db) us → us ≠ [] → Forall (λ u, ui_GroupKey u = g) us → blank g = false → fresh_in db newID →
  ∃ id db', ReconstructSituation db g us newID now = Ok (id, db').
Proof.
  intros Hinv Hmiss Hne Hg Hb [Hn Hid]. unfold ReconstructSituation, check_input. rewrite Hb. cbn [negb res_bind].
  pose proof (SliceStable_perm (skey_ltb ui_IncidentID) us) as Hp. change (SliceStable (skey_ltb ui_IncidentID) us) with (by_incident us) in Hp.
  destruct (by_incident us) as [|u0 rest] eqn:Eus; [by apply Permutation_nil_l in Hp|]. rewrite <- Hp in Hg, Hmiss.
  assert (forallb (λ x, str_eqb (ui_GroupKey x) g) (u0 :: rest) = true) as ->.
  { apply forallb_forall. intros x Hx. rewrite <- list_elem_of_In in Hx. rewrite Forall_forall in Hg. rewrite (Hg x Hx). apply str_eqb_refl. }
  cbn [res_bind]. set (t := fold_left merge_times _ _). set (observed := fold_left laterTime _ _).
  assert (Ha : ∀ i sits, ∃ db2, attach_each i (u0 :: rest) (set_situations sits db) = Ok db2).
  { intros i sits. destruct (attach_each i (u0 :: rest) (set_situations sits db)) as [db2|e] eqn:E; [by exists db2|].
    assert (is_ok (attach_each i (u0 :: rest) (set_situations sits db)) = true) as Ht; [|by rewrite E in Ht].
    apply attach_each_total. eapply Forall_impl; [exact Hmiss|]. intros u [(x & Hx & Ex & _) _]. exists x. rewrite <- Ex.
    exact (find_incident_some (sd_ledger db) x (sv_ledger _ Hinv) Hx). }
  destruct (nonterminalSituationIDByGroupTx db g) as [i|] eqn:En.
  - pose proof (open_of_group _ _ _ En) as (s & Hs & <- & _). unfold joinReconstruction.
    destruct (find_situation db (sn_ID s)) eqn:Ef; [|apply (find_key_none sn_ID) in Ef; destruct Ef; by apply list_elem_of_fmap_2].
    cbn [res_bind]. edestruct Ha as [db2 ->]. cbn [res_bind]. by eexists _, _.
  - unfold createSituationForReconstructionTx.
    assert (negb (str_eqb newID "") && negb (existsb (situation_is newID) (sd_situations db)) && negb (str_eqb g "")
            && negb (existsb (open_in_group g) (sd_situations db)) = true) as ->; [|cbn [res_bind]; edestruct Ha as [db2 ->]; cbn [res_bind]; by eexists _, _].
    rewrite !andb_true_iff, !negb_true_iff. split_and!.
    + unfold str_eqb. by apply String.eqb_neq.
    + apply not_true_iff_false. intros H. apply Hid. by apply (existsb_key sn_ID).
    + apply String.eqb_neq. intros ->. by vm_compute in Hb.
    + apply not_true_iff_false. intros (s & Hs & Ho)%existsb_exists. unfold nonterminalSituationIDByGroupTx in En. apply fmap_None in En.
      apply (find_none _ _ En) in Hs. congruence.
Qed.

(** Groups as they come: keys of their own, Incidents that are missed. *)
Record grouped (db : situation_db) (groups : list upgradeIncidentGroup) : Prop := {
  gr_keys : NoDup groups.*1;
  gr_members : Forall (λ gr, gr.2 ≠ [] ∧ Forall (λ u, ui_GroupKey u = gr.1) gr.2 ∧ Forall (missed db) gr.2) groups
}.

(** The Incidents of the other groups are missed as before. *)
Lemma missed_others db db' newID now us v :
  situation_inv db → joins db db' newID now us → Forall (missed db) us → missed db v →
  Forall (λ u, ui_GroupKey u ≠ ui_GroupKey v) us → missed db' v.
Proof.
  intros Hinv [_ Hl _ Hm _ _ _] Hus [(i & Hi & Ei & Gi) Hv] Hne. split; [exists i; by rewrite Hl|].
  intros (m & Em & [Hin|Hin]%Hm)%list_elem_of_fmap; [destruct Hv; rewrite Em; by apply list_elem_of_fmap_2|].
  apply list_elem_of_fmap in Hin as (u & Eu & Hu). rewrite Forall_forall in Hus, Hne. destruct (Hus u Hu) as [(j & Hj & Ej & Gj) _].
  destruct (Hne u Hu). rewrite <- Gj, <- Gi. f_equal. apply (NoDup_fmap_inj ic_ID _ _ _ (li_incidents _ (sv_ledger _ Hinv))); [done..|]. congruence.
Qed.

Lemma grouped_tail db db' newID now k us groups :
  situation_inv db → grouped db ((k, us) :: groups) → joins db db' newID now us → grouped db' groups.
Proof.
  intros Hinv [Hk [(_ & Hg & Hmiss) Hgroups]%Forall_cons] Hj. simpl in *. apply NoDup_cons in Hk as [Hk1 Hk2]. split; [done|].
  rewrite Forall_forall in Hgroups |- *. intros [k' us'] Hin. destruct (Hgroups _ Hin) as (H1 & H2 & H3). simpl in *. do 2 (split; [done|]).
  rewrite Forall_forall in H2, H3 |- *. intros v Hv. eapply missed_others; [done..|by apply H3|].
  eapply Forall_impl; [exact Hg|]. simpl. intros u Eu Euv. apply Hk1. rewrite (H2 v Hv) in Euv. rewrite <- Eu, Euv. by apply (list_elem_of_fmap_2 fst _ (k', us')).
Qed.

Section represents.
Context (new_id : string → string) (now : Time).
Context (new_id_inj : Inj (=) (=) new_id).

Definition no_failing : startup_call → bool := λ _, false.

Definition blank_error (e : startup_error) : Prop :=
  ∃ k, blank k = true ∧ e = ErrReconstruct k (ErrInputInvalid "reconstruct situation requires a group key").

Lemma represent_adopts groups db g i errs db' :
  situation_inv db → grouped db groups → Forall (λ gr, fresh_in db (new_id gr.1)) groups →
  represent no_failing new_id now groups db = (g, i, errs, db') →
  rtc situation_step db db' ∧ Forall blank_error errs
  ∧ (∃ m, sd_ledger db' = set_lifecycles m (sd_ledger db))
  ∧ (∀ m, m ∈ sd_members db → m ∈ sd_members db')
  ∧ (∀ k id s, adopted db now k id s → ∃ s', adopted db' now k id s')
  ∧ ∀ gr u, gr ∈ groups → blank gr.1 = false → u ∈ gr.2 → ∃ s, adopted db' now (ui_GroupKey u) (ui_IncidentID u) s.
Proof.
  revert db g i errs db'. induction groups as [|[k us] groups IH]; intros db g i errs db' Hinv Hgr Hids; simpl.
  { intros [= <- <- <- <-]. split; [apply rtc_refl|]. split; [done|]. split; [exists (d_lifecycles (sd_ledger db)); by destruct (sd_ledger db)|].
    do 2 (split; [by eauto|]). set_solver. }
  apply Forall_cons in Hids as [Hk Hids]. pose proof Hgr as [Hkeys [(Hne & Hg & Hmiss) Hrest]%Forall_cons]. simpl in *.
  destruct (blank k) eqn:Hb.
  - assert (ReconstructSituation db k us (new_id k) now = Err (ErrInputInvalid "reconstruct situation requires a group key")) as ->
      by (unfold ReconstructSituation; by rewrite Hb).
    destruct (represent _ _ _ groups db) as [[[g1 i1] e1] d1] eqn:E. intros [= <- <- <- <-].
    destruct (IH _ _ _ _ _ Hinv ltac:(split; [by apply NoDup_cons in Hkeys as [_ ?]|done]) Hids E) as (H1 & H2 & H3 & H4 & H5 & H6).
    split; [done|]. split; [constructor; [by exists k|done]|]. do 3 (split; [done|]).
    intros gr u [->|Hin]%elem_of_cons Hnb Hu; [simpl in Hnb; congruence|by eapply H6].
  - destruct (reconstruct_total db k us (new_id k) now) as (id & db1 & Er); [done..|]. rewrite Er.
    pose proof (reconstruct_joins _ _ _ _ _ _ _ Hinv Hmiss Er) as Hj.
    destruct (represent _ _ _ groups db1) as [[[g1 i1] e1] d1] eqn:E. intros [= <- <- <- <-].
    assert (Hids1 : Forall (λ gr, fresh_in db1 (new_id gr.1)) groups).
    { rewrite Forall_forall in Hids |- *. intros gr Hin. destruct (Hids gr Hin) as [Hn Hf]. split; [done|].
      intros [?|Ek%new_id_inj]%(jn_ids _ _ _ _ _ Hj); [done|]. apply NoDup_cons in Hkeys as [Hk1 _]. apply Hk1. rewrite <- Ek. by apply list_elem_of_fmap_2. }
    destruct (IH _ _ _ _ _ (jn_inv _ _ _ _ _ Hj) (grouped_tail _ _ _ _ _ _ _ Hinv Hgr Hj) Hids1 E) as (H1 & H2 & (m & H3) & H4 & H5 & H6).
    split; [eapply rtc_l; [by eapply ss_reconstruct|done]|]. split; [done|]. split; [exists m; by rewrite H3, (jn_ledger _ _ _ _ _ Hj)|].
    split; [intros x Hx; by apply H4, (jn_stay _ _ _ _ _ Hj)|]. split; [intros x y s (s1 & Hs)%(jn_still _ _ _ _ _ Hj); by apply (H5 x y s1)|].
    intros gr u [->|Hin]%elem_of_cons Hnb Hu; [|by eapply H6]. destruct (jn_adopted _ _ _ _ _ Hj u Hu) as (s & Hs). by eapply H5.
Qed.

Lemma elem_of_unrepresented db u :
  u ∈ UnrepresentedOperationalIncidents db ↔
  ∃ i, u = upgrade_incident (sd_ledger db) i ∧ i ∈ d_incidents (sd_ledger db) ∧ unrepresented db i = true.
Proof.
  unfold UnrepresentedOperationalIncidents. rewrite list_elem_of_fmap. f_equiv. intros i. rewrite SliceStable_perm, elem_of_select_rows. tauto.
Qed.

Lemma unrepresented_missed db i :
  i ∈ d_incidents (sd_ledger db) → unrepresented db i = true → missed db (upgrade_incident (sd_ledger db) i).
Proof.
  intros Hi [Hn%negb_true_iff _]%andb_true_iff. split; [by exists i|]. simpl. intros H%(existsb_key snd).
  unfold owned_by in Hn. congruence.
Qed.

Lemma elem_of_groups incidents k us :
  (k, us) ∈ groupUpgradeIncidents incidents →
  k ∈ ui_GroupKey <$> incidents ∧ ∀ u, u ∈ us ↔ u ∈ incidents ∧ ui_GroupKey u = k.
Proof.
  intros (x & [= -> ->] & Hx)%list_elem_of_fmap. rewrite SliceStable_perm, elem_of_remove_dups in Hx. split; [done|]. intros u.
  unfold by_incident. rewrite SliceStable_perm, elem_of_select_rows. unfold str_eqb. rewrite String.eqb_eq. tauto.
Qed.

Lemma groups_keys incidents : (groupUpgradeIncidents incidents).*1 = SliceStable str_ltb (remove_dups (ui_GroupKey <$> incidents)).
Proof. unfold groupUpgradeIncidents. rewrite <- list_fmap_compose. apply list_fmap_id. Qed.

Lemma groups_of_missed db : grouped db (groupUpgradeIncidents (UnrepresentedOperationalIncidents db)).
Proof.
  split; [rewrite groups_keys, SliceStable_perm; apply NoDup_remove_dups|]. apply Forall_forall. intros [k us] [Hk Hus]%elem_of_groups. simpl.
  split; [|split; apply Forall_forall; intros u [Hu Eu]%Hus; [done|]].
  - apply list_elem_of_fmap in Hk as (u & -> & Hu). intros ->. by apply (not_elem_of_nil u), Hus.
  - apply elem_of_unrepresented in Hu as (i & -> & Hi & Hn). by apply unrepresented_missed.
Qed.

Lemma grouped_with incidents u : u ∈ incidents → ∃ us, (ui_GroupKey u, us) ∈ groupUpgradeIncidents incidents ∧ u ∈ us.
Proof.
  intros Hu. eexists. split; [apply list_elem_of_fmap; eexists; split; [done|]; rewrite SliceStable_perm; by apply elem_of_remove_dups, list_elem_of_fmap_2|].
  unfold by_incident. rewrite SliceStable_perm, elem_of_select_rows. split; [apply str_eqb_refl|done].
Qed.

Definition replays_ok (r : option Replayer) : Prop := match r with None => True | Some r => Replays r end.

Lemma replay_steps r db : replays_ok r → situation_inv db → rtc situation_step db (replay r db).2.
Proof. destruct r as [r|]; simpl; [intros H; apply H|intros; apply rtc_refl]. Qed.

End represents.
