(* ===== verification/SituationExample.v ===== *)
(** * A delivery makes a Situation: the inputs at work

    A small history from the empty tables, computed by the model: a delivery is
    accepted, correlated, and its input applied; the Situation is worked on and
    joined.  The theorems of SituationWorld.v, InputWorker.v and Startup.v are
    applied at its tables. *)

From stdpp Require Import prelude strings list gmap sorting relations pretty.
From S2P Require Import Prelude SituationModel Snapshot Lifecycle TriageStore ErrorClass Deliveries DeliveryLedger Correlator LedgerExample ControllerStore HistoryStore SituationInputs Reconstruction SituationWorld InputWorker Startup.

Definition or_else {E A} (d : A) (r : result E A) : A := match r with Ok a => a | Err _ => d end.

(** ** The delivery *)

Definition ledger_claimed : delivery_db := (claiming "worker" (at_s 101) db_down).2.
Definition first_incident : Incident :=
  {| ic_ID := "inc-1"; ic_GroupKey := "db-1"; ic_Status := StatusCollecting; ic_FirstAlertAt := at_s 100; ic_LastAlertAt := at_s 100;
     ic_ReadyAt := at_s 160; ic_AlertCount := 0; ic_CreatedAt := 0; ic_LastJudgedAt := None |}%Z.
Definition first_mutation : CorrelatedDeliveryMutation :=
  {| cm_DeliveryID := "d1"; cm_DispatchOwner := "worker"; cm_DispatchClaimToken := 1; cm_Incident := first_incident; cm_Occurrence := None;
     cm_Input := {| si_ID := "in-1"; si_IdempotencyKey := "delivery:d1"; si_IncidentID := "inc-1"; si_DeliveryID := Some "d1";
                    si_Kind := "incident_created"; si_GroupKey := "db-1"; si_OccurredAt := at_s 100 |};
     cm_RequireNonterminalOwner := false; cm_RequireTriageBackoff := false |}%Z.
Definition first_result : CorrelatedDeliveryResult :=
  {| cr_Incident := first_incident; cr_Created := true; cr_Occurrence := None; cr_Resolved := false; cr_Duplicate := false |}.
Definition ledger_applied : CorrelatedDeliveryResult * delivery_db :=
  or_else (first_result, empty_db) (ApplyCorrelatedDelivery ledger_claimed first_mutation (at_s 101) (at_s 101)).
Definition ledger_ready : delivery_db := or_else empty_db (MarkIncidentReadyWithSituationInput ledger_applied.2 "inc-1" (at_s 170)).

(** ** The tables *)

Definition tables (l : delivery_db) : situation_db := set_ledger l empty_situations.
Definition waiting_inputs : situation_db := tables ledger_ready.

Definition claim_inputs (owner : string) (now : Time) (limit : Z) (db : situation_db) : list SituationClaim * situation_db :=
  or_else ([], db) (ClaimSituationInputs db owner now (60 * Second)%Z limit).
Definition taken : list SituationClaim * situation_db := claim_inputs "inputs" (at_s 171) 1 waiting_inputs.
Definition no_claim : SituationClaim :=
  {| sc_Input := cm_Input first_mutation; sc_LeaseOwner := ""; sc_ClaimToken := 0; sc_AttemptCount := 0 |}%Z.
Definition first_claim : SituationClaim := default no_claim (head taken.1).
Definition opened : SituationInputApplied * situation_db :=
  or_else (nothing_applied, taken.2) (ApplySituationInputResult taken.2 first_claim "sit-1" no_failures (at_s 172)).
Definition the_situation (db : situation_db) : situation :=
  default (opened_situation db "" "" {| st_start := 0; st_basis := SourceTimeBasisMissing; st_received := 0 |}%Z "" 0%Z 0%Z)
    (find_situation db "sit-1").

Lemma ledger_path : rtc situation_step empty_situations waiting_inputs.
Proof.
  assert (E1 : AcceptDeliveries empty_db [down] = Ok ((ok_or ([], empty_db) (AcceptDeliveries empty_db [down])).1, db_down)) by (by vm_compute).
  assert (W1 : ledger_step empty_db db_down) by (by eapply ls_accept).
  assert (I1 : ledger_inv db_down) by (by eapply step_keeps_inv, ledger_inv_empty).
  assert (T2 : transaction db_down ledger_claimed) by (eapply (tx_claim _ "worker" (at_s 101) (60 * Second)%Z 16%Z (claiming "worker" (at_s 101) db_down).1); by vm_compute).
  assert (I2 : ledger_inv ledger_claimed) by (by eapply step_keeps_inv; [apply transaction_step|]).
  assert (T3 : transaction ledger_claimed ledger_applied.2) by (eapply (tx_apply _ first_mutation (at_s 101) (at_s 101) ledger_applied.1); by vm_compute).
  assert (I3 : ledger_inv ledger_applied.2) by (by eapply step_keeps_inv; [apply transaction_step|]).
  assert (T4 : transaction ledger_applied.2 ledger_ready) by (eapply (tx_ready _ "inc-1" (at_s 170)); by vm_compute).
  apply (rtc_l _ _ (tables db_down)); [apply (ss_ledger empty_situations); [done|by eapply accept_writes, E1; apply ledger_inv_empty]|].
  apply (rtc_l _ _ (tables ledger_claimed)); [apply (ss_ledger (tables db_down)); [by apply transaction_step|by apply transaction_writes]|].
  apply (rtc_l _ _ (tables ledger_applied.2)); [apply (ss_ledger (tables ledger_claimed)); [by apply transaction_step|by apply transaction_writes]|].
  apply rtc_once, (ss_ledger (tables ledger_applied.2)); [by apply transaction_step|by apply transaction_writes].
Qed.

Lemma waiting_inv : situation_inv waiting_inputs.
Proof. eapply situations_keep; [apply ledger_path|apply empty_situations_inv]. Qed.

Lemma take_step : situation_step waiting_inputs taken.2.
Proof. apply (ss_claim _ "inputs" (at_s 171) (60 * Second)%Z 1%Z taken.1). by vm_compute. Defined.

Lemma taken_inv : situation_inv taken.2.
Proof. eapply situation_keeps; [apply take_step|apply waiting_inv]. Qed.

Lemma open_step : situation_step taken.2 opened.2.
Proof. apply (ss_apply _ first_claim "sit-1" no_failures (at_s 172) opened.1). by vm_compute. Defined.

Lemma opened_inv : situation_inv opened.2.
Proof. eapply situation_keeps; [apply open_step|apply taken_inv]. Qed.

(** ** The theorems at the example *)

Lemma situation_inv_step_witness :
  sn_version (the_situation opened.2) = 1%Z ∧ sd_members opened.2 = [("sit-1", "inc-1")] ∧ situation_inv opened.2.
Proof. split; [by vm_compute|]. split; [by vm_compute|]. apply (situation_inv_step taken.2); [apply taken_inv|apply open_step]. Defined.

Lemma situations_refine_witness :
  length (sd_situations opened.2) = 1%nat ∧ rtc ledger_step empty_db (sd_ledger opened.2)
  ∧ Forall (λ s, ControllerStore.reachable (sn_work s)) (sd_situations opened.2).
Proof.
  split; [by vm_compute|]. apply (situations_refine opened.2).
  etrans; [apply ledger_path|]. eapply rtc_l; [apply take_step|]. apply rtc_once, open_step.
Defined.

Lemma first_there : sc_Input first_claim ∈ outbox taken.2.
Proof. apply (list_elem_of_lookup_2 _ 0). by vm_compute. Qed.


Definition first_dispatch : AlertDispatch := default (pending_dispatch "") (head (d_dispatches (sd_ledger opened.2))).

Lemma delivery_reaches_situation_witness :
  dp_Status first_dispatch = DispatchApplied
  ∧ ∃ o n, o ∈ d_owners (sd_ledger opened.2) ∧ ol_DeliveryID o = dp_DeliveryID first_dispatch ∧ n ∈ outbox opened.2
    ∧ si_DeliveryID n = Some (dp_DeliveryID first_dispatch) ∧ si_IncidentID n = ol_IncidentID o
    ∧ (∀ x, x ∈ outbox opened.2 → si_DeliveryID x = Some (dp_DeliveryID first_dispatch) → x = n)
    ∧ (in_Status (columns opened.2 n) = InputApplied →
       ∃ s, s ∈ sd_situations opened.2 ∧ in_AppliedSituationID (columns opened.2 n) = Some (sn_ID s) ∧ sn_GroupKey s = si_GroupKey n
            ∧ ∀ id, (id, ol_IncidentID o) ∈ sd_members opened.2 ↔ id = sn_ID s).
Proof.
  split; [by vm_compute|]. apply (delivery_reaches_situation opened.2 first_dispatch); [apply opened_inv| |by vm_compute].
  apply head_Some_elem_of. by vm_compute.
Defined.

(** A controller claims the Situation; the second input joins it, clears the
    live claim and says whose. *)
Definition worked_state : ControllerStore.state :=
  let w := sn_work (the_situation opened.2) in
  match ClaimDueSituations (st_row w) "controller" (at_s 180) (60 * Second)%Z with
  | Ok (Some (r, c)) => with_cycles (with_row w r) (<[ClaimToken c := Claimed c]> (st_cycles w))
  | _ => w
  end.
Definition worked_on : situation_db :=
  refreshed (set_situations (update_rows (situation_is "sit-1") (worked worked_state None) (sd_situations opened.2)) opened.2).

Definition claimed_row : situation_row * Claim :=
  match ClaimDueSituations (st_row (sn_work (the_situation opened.2))) "controller" (at_s 180) (60 * Second)%Z with
  | Ok (Some x) => x
  | _ => (st_row worked_state, {| ClaimOwner := ""; ClaimToken := 0; Claim_InputVersion := 0; Claim_DueReasons := []; Claim_NextAssessmentAt := 0 |}%Z)
  end.

Lemma work_step : situation_step opened.2 worked_on.
Proof.
  apply (ss_controller opened.2 (the_situation opened.2) worked_state None).
  - apply (list_elem_of_lookup_2 _ 0). by vm_compute.
  - change worked_state with (with_cycles (with_row (sn_work (the_situation opened.2)) claimed_row.1)
      (<[ClaimToken claimed_row.2 := Claimed claimed_row.2]> (st_cycles (sn_work (the_situation opened.2))))).
    eapply (step_claim _ "controller" (at_s 180) (60 * Second)%Z). by vm_compute.
  - split; [by vm_compute|by intros [? [=]]].
Defined.

Lemma applied_for_good_witness :
  in_Status (columns opened.2 (sc_Input first_claim)) = InputApplied
  ∧ facts (columns worked_on (sc_Input first_claim)) = facts (columns opened.2 (sc_Input first_claim))
  ∧ ∀ claim, si_ID (sc_Input claim) = si_ID (sc_Input first_claim) → complete_input_claim claim = true →
      (∀ newID side now, ApplySituationInputResult worked_on claim newID side now = Ok (nothing_applied, worked_on))
      ∧ (∀ class at_ terminal, is_ok (RetrySituationInput worked_on claim class at_ terminal) = false)
      ∧ (∀ at_, is_ok (DeferSituationInput worked_on claim at_) = false).
Proof.
  split; [by vm_compute|]. apply (applied_for_good opened.2); [apply opened_inv|apply (list_elem_of_lookup_2 _ 0); by vm_compute|by vm_compute|].
  apply rtc_once, work_step.
Defined.

Definition second_taken : list SituationClaim * situation_db := claim_inputs "inputs" (at_s 181) 16 worked_on.
Definition second_joined : SituationInputApplied * situation_db :=
  or_else (nothing_applied, second_taken.2)
    (ApplySituationInputResult second_taken.2 (default no_claim (head second_taken.1)) "sit-2" no_failures (at_s 182)).

Example join_supersedes :
  length second_taken.1 = 1%nat
  ∧ second_joined.1 = {| sa_SituationID := "sit-1"; sa_InputVersion := 2; sa_SupersededClaimToken := 1 |}%Z
  ∧ lease_owner (row_lease (sn_row (the_situation second_joined.2))) = None
  ∧ supersede_streak (row_lease (sn_row (the_situation second_joined.2))) = 1%Z
  ∧ length (sd_situations second_joined.2) = 1%nat.
Proof. by vm_compute. Qed.

(** Two deliveries with starts of different bases, in both orders. *)
Definition reported : contribution :=
  {| ct_times := {| st_start := at_s 90; st_basis := SourceTimeBasisSourcePayload; st_received := at_s 100 |};
     ct_reason := DueIncidentCreated; ct_occurredAt := at_s 100 |}.
Definition noticed : contribution :=
  {| ct_times := {| st_start := at_s 95; st_basis := SourceTimeBasisReceiptFallback; st_received := at_s 95 |};
     ct_reason := DueMembershipChanged; ct_occurredAt := at_s 95 |}.

Lemma inputs_in_any_order_witness :
  sn_EffectiveStartedAtBasis <$> (or_else None (gather waiting_inputs "sit-1" "db-1" (at_s 101) None [reported; noticed]))
    = Some SourceTimeBasisMixed
  ∧ same_outcome (gather waiting_inputs "sit-1" "db-1" (at_s 101) None [reported; noticed])
      (gather waiting_inputs "sit-1" "db-1" (at_s 101) None [noticed; reported]).
Proof. split; [by vm_compute|]. apply inputs_in_any_order, perm_swap. Defined.

(** ** A round of the worker *)

Definition input_config : WorkerConfig :=
  withDefaults {| wc_Owner := "inputs"; wc_Lease := 0; wc_Interval := 0; wc_Batch := 0; wc_MaxAttempts := 0 |}%Z.
Definition undisturbed : nat → situation_db → situation_db := λ _ db, db.
Definition situation_ids : nat → string := λ n, "sit-" +:+ pretty n.
Definition round_start : input_run := {| iw_calls := 0; iw_db := waiting_inputs; iw_preempted := [] |}.
Definition round : nat * nat * option worker_error * input_run :=
  runOnce undisturbed never (λ _, no_failures) situation_ids (λ n, at_s (171 + Z.of_nat n)) input_config round_start.

Lemma alone_leaves : others_leave undisturbed.
Proof. intros k db. split; [apply rtc_refl|done]. Qed.

Lemma round_settles_witness :
  round.1 = (2%nat, 0%nat, None)
  ∧ ∃ handled deferred s', round = (handled, deferred, None, s') ∧ (handled + deferred = 2)%nat ∧ situation_inv (iw_db s')
    ∧ ∀ n, n ∈ outbox waiting_inputs →
        if among_inputs (claimed_ids waiting_inputs (at_s 171) 16) n
        then claimable waiting_inputs (at_s 171) n = true
             ∧ row_after (λ n, at_s (171 + Z.of_nat n)) input_config
                 (claimed_columns "inputs" (Add (at_s 171) (60 * Second)%Z) (columns waiting_inputs n)) (columns (iw_db s') n)
        else columns (iw_db s') n = columns waiting_inputs n.
Proof.
  split; [by vm_compute|].
  apply (round_settles undisturbed never (λ _, no_failures) situation_ids (λ n, at_s (171 + Z.of_nat n)) input_config
           alone_leaves (λ _, eq_refl) (λ n, ltac:(unfold at_s, Second; lia)) round_start waiting_inv);
    [apply Forall_forall; intros n Hn; revert n Hn; apply Forall_forall, (bool_decide_eq_true_1 _); by vm_compute|by vm_compute..].
Defined.

(** ** Draining *)

Definition this_instant : nat → Time := λ _, at_s 171.
Definition drained : option (nat * option worker_error * input_run) :=
  DrainInputs undisturbed never (λ _, no_failures) situation_ids this_instant input_config 3 round_start.

Lemma drain_inputs_ends_witness :
  (fst <$> drained) = Some (2%nat, None)
  ∧ ∃ total s', drained = Some (total, None, s') ∧ situation_inv (iw_db s')
    ∧ (open_rows (seconds_of (at_s 171)) (iw_db s') + total ≤ 2)%nat
    ∧ ∃ last, rtc (λ x y, (runOnce undisturbed never (λ _, no_failures) situation_ids this_instant input_config x).2 = y) round_start last
        ∧ s' = (runOnce undisturbed never (λ _, no_failures) situation_ids this_instant input_config last).2
        ∧ ∀ n, n ∈ outbox waiting_inputs → claimable (iw_db last) (at_s 171) n = false.
Proof.
  split; [by vm_compute|].
  apply (drain_inputs_ends undisturbed never (λ _, no_failures) situation_ids this_instant input_config
           alone_leaves (λ _, eq_refl) (λ _, ltac:(by vm_compute)) (λ _ _, eq_refl) (seconds_of (at_s 171)) (λ _, eq_refl)
           ltac:(by vm_compute) ltac:(by vm_compute) ltac:(by vm_compute) 3 round_start waiting_inv).
  - apply Forall_forall; intros n Hn; revert n Hn; apply Forall_forall, (bool_decide_eq_true_1 _); by vm_compute.
  - apply Nat.ltb_lt. by vm_compute.
Defined.

(** ** A restart *)

(** The claim of the input, at 171 for a minute, has run out at 300. *)
Lemma leases_recovered_witness :
  (holds_input first_claim taken.2 (sc_Input first_claim), holds_input first_claim (RecoverExpiredFoundationLeases taken.2 (at_s 300)).2 (sc_Input first_claim),
   lr_SituationInputs (RecoverExpiredFoundationLeases taken.2 (at_s 300)).1) = (true, false, 1%nat)
  ∧ situation_inv (RecoverExpiredFoundationLeases taken.2 (at_s 300)).2
  ∧ recovered taken.2 (RecoverExpiredFoundationLeases taken.2 (at_s 300)).2 (at_s 300).
Proof. split; [by vm_compute|]. apply (leases_recovered taken.2 (at_s 300)), taken_inv. Defined.

(** The Incident waits for its inputs, which this pass does not drain. *)
Definition deliveries_drain : option Replayer :=
  Some (replay_deliveries config never (ids_from "in-" 0) (ids_from "inc-" 0) this_instant worker 10).
Definition reconstruction_id (g : string) : string := "sit-" +:+ g.
Definition drained_deliveries : situation_db := (replay deliveries_drain (RecoverExpiredFoundationLeases waiting_inputs (at_s 171)).2).2.
Definition pass : StartupReport * list startup_error * situation_db :=
  Run no_failing deliveries_drain None reconstruction_id (at_s 171) waiting_inputs.

